(* ===== verification/_CoqProject ===== *)
-Q . S2P
Prelude.v
RarTypes.v
Vint.v
Utf8.v
Text.v
Path.v
PathProps.v
PathSafety.v
Reader.v
HeaderCommon.v
HeaderFields.v
HeaderExtra.v
HeaderMain.v
HeaderFile.v
HeaderWalk.v
HeaderWalkLaws.v
HeaderFacts.v
HeaderResume.v
HeaderProps.v
GaloisField.v
Gf16.v
RepairMatrix.v
RepairProps.v
Crc32.v
Crc32Props.v
Md5Spec.v
Md5Stream.v
Md5Simd.v
Md5Lanes.v
Md5Multi.v
Checksum.v
Par2Types.v
Par2Path.v
Par2Packet.v
Par2PacketProps.v
Par2Created.v
StateM.v
Par2Budget.v
Par2Scan.v
Par2ScanProps.v
Par2Stream.v
Par2StreamProps.v
Par2Agree.v
Par2Set.v
Par2Names.v
Par2SetProps.v
Par2Load.v
BitString.v
LzBits.v
LzBitReader.v
LzStreamReader.v
LzReaders.v
LzBlock.v
LzHuffman.v
LzHuffmanProps.v
LzHuffmanDecode.v
LzTables.v
LzWindow.v
LzCopies.v
LzHistory.v
LzOutput.v
LzWindowProps.v
LzFilter.v
LzFilterProps.v
LzDecoder.v
LzFlush.v
LzReference.v
LzReading.v
LzProgress.v
LzSimulation.v
LzDecoderProps.v
LzTruncated.v
LzContinue.v
Extract.v
ExtractSpec.v
ExtractProps.v
ExtractPlain.v
