(* ===== verification/Prelude.v ===== *)
(** A verification development of rarpar: the RAR reader [unrar-rs], the PAR2
    client [par2-rs] and their Reed-Solomon arithmetic [reedsolomon-rs], all
    under [src/crates/].

    * Parts of the program and where they are modelled

    [unrar-rs] finds the members of an archive by walking the headers of each
    volume, then decompresses a member by reading Huffman-coded symbols off a
    bit stream into a sliding window. [par2-rs] scans recovery files for
    packets, builds a recovery set from them, checks files against the set's
    checksums and rebuilds missing slices with the matrices of
    [reedsolomon-rs].

    Shared:
    - [Prelude]: outcomes, machine integers, byte strings, slices, tactics;
      [StateM]: state with errors; [Text]: what is used of Rust's strings;
      [GaloisField]: the field interface and row reduction used by [RepairProps] (GF(2^16)) and
      [Crc32Props] (GF(2)).

    RAR5 headers ([unrar-rs/src/vint.rs], [types.rs], [error.rs], [limits.rs],
    [short_read.rs], [header/]):
    - [RarTypes], [Vint], [Utf8], [Reader]: data, variable-length integers, text,
      the reader with its short-read bookkeeping;
    - [HeaderCommon] (framing), [HeaderFields] (compression word, end of
      archive, encryption), [HeaderExtra] (extra records), [HeaderMain],
      [HeaderFile] (file and service headers), [HeaderWalk] (the walk over a
      volume, plain and encrypted, with Quick Open);
    - [HeaderWalkLaws] (the walk ends, nothing overflows), [HeaderFacts] (facts
      walks against strict walks), [HeaderResume] (walks continued later),
      [HeaderProps] (what the walk promises).
    The walk calls the parsers through the reader; ciphers, digests and CRC-32
    are parameters with their laws.

    LZ decompression ([unrar-rs/src/decompress/lz/]):
    - [BitString], [LzBits]: buffers as bit strings, the trait [BitRead] as a
      class with laws over an abstract cursor; [LzBitReader] (slice reader) and
      [LzStreamReader] (buffered reader over any source) are its instances,
      [LzReaders] compares them; all of [bitstream.rs];
    - [LzBlock]: the reader of a staged block and its detached cursor
      ([block_reader.rs]);
    - [LzHuffman], [LzHuffmanProps], [LzHuffmanDecode], [LzTables]:
      table construction, the four decoders and the table description
      ([huffman.rs]);
    - [LzWindow], [LzCopies], [LzHistory], [LzOutput], [LzWindowProps]: the
      ring of the window, its copies, and the unbounded log it behaves as
      ([window.rs]); [LzFilter], [LzFilterProps]: the filters ([filter.rs]);
    - [LzDecoder]: the decoder: tables, symbols, matches, distances, filters,
      flushing, members ([mod.rs]); [LzReference]: the member's output read off
      its bits, with no window, no border and no queue;
    - [LzFlush] (whatever is flushed when, the writer gets the filtered
      output), [LzReading] (the decoder reads the reference's items),
      [LzProgress] (every step consumes bits; how a member fails),
      [LzSimulation], [LzDecoderProps] (the decoder is the reference and
      returns), [LzTruncated] (the members on which the code does not),
      [LzContinue] (the next member, of a solid archive or not).

    Extraction ([unrar-rs/src/archive/member.rs], [entry.rs], [mod.rs]), from
    an attached RAR5 archive without encryption:
    - [Extract]: limits, checks, stored members, the decoder the members
      share, the cursor and the poison of a solid archive, and a caller's
      [copy_to], [skip] and [reset_solid_state];
    - [ExtractSpec]: a solid archive as one stream, and single members;
      [ExtractProps]: every sequence of calls answers as that stream does;
      [ExtractPlain]: outside solid archives every call answers alone.

    Paths ([unrar-rs/src/path.rs]): [Path], [PathProps], [PathSafety]: the
    path a name becomes and the link targets that are accepted.

    PAR2 ([par2-rs/src/]):
    - [Crc32], [Crc32Props]: CRC combination ([checksum.rs]); [Md5Spec] (RFC
      1321), [Md5Stream] ([md5_asm.rs], [md5_pair_asm.rs]),
      [Md5Simd], [Md5Lanes], [Md5Multi] ([md5_simd.rs]); [Checksum]: slice and
      file checksum states;
    - [Par2Types], [Par2Path] ([path.rs]), [Par2Packet], [Par2PacketProps],
      [Par2Created]: packets and their encoder ([packet/], [create/output.rs]);
    - [Par2Budget] ([packet/budget.rs]), [Par2Scan], [Par2ScanProps]: the
      in-memory scanner; [Par2Stream], [Par2StreamProps]: the scanner of files;
      [Par2Agree]: both find the same packets ([packet/mod.rs]);
    - [Par2Set], [Par2Names], [Par2SetProps], [Par2Load]: the
      recovery set, its names, loading, merging, expected CRCs ([par2_set.rs]).

    Reed-Solomon ([reedsolomon-rs/src/]): [Gf16] ([gf.rs]), [RepairMatrix] and
    [RepairProps] ([matrix.rs]).

    * What the theorems show

    - Totality: header walks, packet parsers, scanners, loaders, table readers
      end on every input with a value or an error, never a panic.
    - Round trips: variable-length integers, header framing, extra records,
      packets, canonical Huffman codes.
    - Reference definitions: field multiplication is the polynomial product,
      the hashers are MD5, the readers are the bit string they read, every
      Huffman decoder is the threshold scan, both scanners are the walk over
      every byte position, checksums of slices are those of their bytes.
    - Decompression: the LZ decoder writes the output that the reference reads
      off the bits, however the input arrives and whenever it flushes, and
      returns with a turn for every bit; a member cut between two symbols with
      output owing is never finished.
    - Extraction: a solid archive is one stream whatever is asked for, in
      whatever order, across failures and resets; members of other archives are
      independent of one another although they share a decoder.
    - Safety of paths: sanitised names and accepted links stay under the
      directory extracted to.
    - Refinement and invariants: the walk is the fold of the volume's blocks,
      a resumed walk finds what a fresh one would, budgets stay in bounds and
      pay for what is kept, loaded sets are well formed, merging batches is
      scanning them at once.
    - Repair: solving for missing slices recovers them, for every set of
      exponents the matrix accepts.

    * Bounds and fuel

    Recursion that is not structural carries fuel; running out is [Panic], so
    every theorem that excludes panics shows that the fuel given suffices: one
    unit per byte of input for the walks and scans (each step consumes one),
    ten for a vint, nine for a refill of a 64-bit accumulator, twenty-one and
    one per symbol for a table description. The decoder's loop over blocks has no
    bound in the code: a turn for every bit of the input is shown to suffice
    where it returns, and no number of turns where it does not. A stored member
    takes a turn for every byte, the cursor one for every member.
    The reference's [Panic] is a value the specification leaves open: an input
    cut short, or a filter the decoder refuses; nothing is claimed there.
    Integers keep their width: [wrap32] and the like where the code wraps,
    [add_u64] where it checks; a length of [2^64] bits or more is excluded by
    hypothesis where positions are counted in bits.

    * What is not modelled

    - Opening archives and merging volumes, encryption and keys, links,
      attributes and owners on disk, the routes over a provider or one volume
      at a time, and progress reports: file system and key handling around the
      calls that are modelled.
    - The parallel and staged paths of the LZ decoder and the overlap of reads
      with writes: threads and channels; the serial path is modelled, and a
      writer's [flush] is not.
    - The RAR 1.5 to 4 decoders and headers, recovery records and volumes, the
      stored layout of volume sets and the probing of files; PAR2 verification,
      repair and creation beyond packets, sets, checksums and matrices; the
      PAR3 client; GPU and run-time generated kernels; the command line.
    Error message texts, log output and cache advice are dropped everywhere.
    External code (digests and ciphers of other crates, inline assembly,
    [std::io] sources, memory allocation) is a class of operations with the
    laws its documentation states, and each has an instance that meets them.

    * Conventions

    - a Rust [u8] buffer is a [list byte]; [u8 b] is the unsigned value of a
      byte and [byte_of z] is the truncating cast [z as u8];
    - [u16], [u32], [u64] and [usize] (64-bit target) are integers of [Z]
      together with their range; casts and shifts truncate explicitly;
    - a Rust [Result<T, E>] is an [outcome E T]; [Panic] stands for every
      Rust panic the model can express: a slice out of range, an index out of
      range, a checked-arithmetic overflow, a failed (debug) assertion; it also
      stands for an out-of-bounds access of an unsafe block. *)
From stdpp Require Export base tactics list numbers option.
From Stdlib Require Export ZArith Lia Bool.
From Stdlib Require Strings.Byte.
From Stdlib Require Export Init.Byte.

#[global] Open Scope Z_scope.

(** * Outcomes *)

Inductive outcome (E A : Type) : Type :=
| Ok (a : A)
| Err (e : E)
| Panic.
Arguments Ok {E A} a.
Arguments Err {E A} e.
Arguments Panic {E A}.

#[export] Instance outcome_ret {E} : MRet (outcome E) := fun A a => Ok a.
#[export] Instance outcome_bind {E} : MBind (outcome E) :=
  fun A B k m => match m with Ok a => k a | Err e => Err e | Panic => Panic end.
#[export] Instance outcome_fmap {E} : FMap (outcome E) :=
  fun A B f m => match m with Ok a => Ok (f a) | Err e => Err e | Panic => Panic end.

(** [safe m P]: [m] does not panic, and a value it returns satisfies [P]. *)
Definition safe {E A} (m : outcome E A) (P : A -> Prop) : Prop :=
  match m with Ok a => P a | Err _ => True | Panic => False end.

(** [m] ends without a panic. *)
Definition no_panic {E A} (m : outcome E A) : Prop := safe m (fun _ => True).

Section outcome_lemmas.
Context {E A B : Type}.
Implicit Types (m : outcome E A) (k : A -> outcome E B).

Lemma bind_Ok_inv m k b : (m ≫= k) = Ok b -> exists a, m = Ok a /\ k a = Ok b.
Proof. destruct m; simpl; intros H; try discriminate. eauto. Qed.

Lemma safe_bind m k (P : A -> Prop) (Q : B -> Prop) :
  safe m P -> (forall a, m = Ok a -> P a -> safe (k a) Q) -> safe (m ≫= k) Q.
Proof. destruct m; simpl; intros HP HQ; auto. Qed.

Lemma safe_mono m (P Q : A -> Prop) :
  safe m P -> (forall a, m = Ok a -> P a -> Q a) -> safe m Q.
Proof. destruct m; simpl; intros HP HQ; auto. Qed.

Lemma safe_no_panic m (P : A -> Prop) : safe m P -> no_panic m.
Proof. destruct m; simpl; auto. Qed.

Lemma safe_Ok m (P : A -> Prop) a : safe m P -> m = Ok a -> P a.
Proof. intros H ->. exact H. Qed.

Lemma no_panic_Panic m : no_panic m <-> m <> Panic.
Proof. destruct m; unfold no_panic; simpl; split; intros; try done; congruence. Qed.
End outcome_lemmas.

(** [spec m P F]: [m] does not panic, a value satisfies [P], an error [F]. *)
Definition spec {E A} (m : outcome E A) (P : A -> Prop) (F : E -> Prop) : Prop :=
  match m with Ok a => P a | Err e => F e | Panic => False end.

Lemma spec_bind {E A B} (m : outcome E A) (k : A -> outcome E B) (P : A -> Prop) (Q : B -> Prop) F :
  spec m P F -> (forall a, P a -> spec (k a) Q F) -> spec (m ≫= k) Q F.
Proof. destruct m; simpl; intros HP HQ; auto. Qed.
Lemma spec_mono {E A} (m : outcome E A) (P Q : A -> Prop) (F G : E -> Prop) :
  spec m P F -> (forall a, P a -> Q a) -> (forall e, F e -> G e) -> spec m Q G.
Proof. destruct m; simpl; intros HP HQ; auto. Qed.

(** One step of a sequence, as a rewriting rule: unlike [cbn] it leaves the
    conversion check nothing to unfold in [k]. *)
Lemma bind_Ok {E A B} (a : A) (k : A -> outcome E B) : (Ok a ≫= k) = k a.
Proof. done. Qed.

Lemma spec_post {E A} (m : outcome E A) (P Q : A -> Prop) (F : E -> Prop) :
  spec m P F -> (forall a, P a -> Q a) -> spec m Q F.
Proof. intros. by eapply spec_mono. Qed.

(** A computation that returns no error, in the place of one that may. *)
Lemma spec_never {E A} (m : outcome E A) (P Q : A -> Prop) (F : E -> Prop) :
  spec m P (fun _ => False) -> (forall a, P a -> Q a) -> spec m Q F.
Proof. destruct m; simpl; intros; auto; done. Qed.

(** [for i in lo..lo + n { body }] over a state. *)
Fixpoint for_range {E S} (lo n : nat) (body : nat -> S -> outcome E S) (s : S) : outcome E S :=
  match n with
  | O => Ok s
  | Datatypes.S n => s ← body lo s; for_range (Datatypes.S lo) n body s
  end.

(** A loop keeps an invariant indexed by the counter. *)
Lemma spec_for_range {E S} (I : nat -> S -> Prop) (F : E -> Prop) lo n body (s : S) :
  I lo s ->
  (forall i s, (lo <= i < lo + n)%nat -> I i s -> spec (body i s) (I (Datatypes.S i)) F) ->
  spec (for_range lo n body s) (I (lo + n)%nat) F.
Proof.
  revert lo s. induction n as [|n IH]; intros lo s Hs Hbody; cbn [for_range].
  - rewrite Nat.add_0_r. exact Hs.
  - eapply spec_bind; [apply (Hbody lo s); [lia|done]|]. intros s' Hs'.
    replace (lo + Datatypes.S n)%nat with (Datatypes.S lo + n)%nat by lia.
    apply IH; [done|]. intros. apply Hbody; [lia|done].
Qed.

Lemma safe_true {E A} (m : outcome E A) : m <> Panic -> safe m (fun _ => True).
Proof. apply no_panic_Panic. Qed.

(** [inv_bind H] splits an equation [(x ← m; k) = Ok b] step by step. *)
Ltac inv_bind H :=
  let a := fresh "r" in let Ha := fresh "Hr" in
  apply bind_Ok_inv in H; destruct H as (a & Ha & H).

(** * Machine integers *)

Definition U8 : Z := 256.
Definition U16 : Z := 2 ^ 16.
Definition U32 : Z := 2 ^ 32.
Definition U64 : Z := 2 ^ 64.
Definition I64_MAX : Z := 2 ^ 63 - 1.
Definition I64_MIN : Z := - 2 ^ 63.

(** Truncating casts. *)
Definition wrap16 (z : Z) : Z := z mod 2 ^ 16.
Definition wrap32 (z : Z) : Z := z mod 2 ^ 32.
Definition wrap64 (z : Z) : Z := z mod 2 ^ 64.

(** Addition as a build with overflow checks performs it. *)
Definition add_u64 {E} (a b : Z) : outcome E Z :=
  if a + b <? 2 ^ 64 then Ok (a + b) else Panic.

(** [saturating_add], [saturating_sub] and [checked_add] on 64-bit values. *)
Definition sat_add_u64 (a b : Z) : Z := Z.min (a + b) (2 ^ 64 - 1).
Definition sat_sub_u64 (a b : Z) : Z := Z.max (a - b) 0.
Definition checked_add_u64 (a b : Z) : option Z :=
  if a + b <? 2 ^ 64 then Some (a + b) else None.
Definition checked_sub_u64 (a b : Z) : option Z :=
  if b <=? a then Some (a - b) else None.

(** A flag test: the Rust expression [v & mask != 0]. *)
Definition has (v mask : Z) : bool := negb (Z.land v mask =? 0).

Lemma wrap64_range z : 0 <= wrap64 z < 2 ^ 64.
Proof. apply Z.mod_pos_bound. lia. Qed.
Lemma wrap64_small z : 0 <= z < 2 ^ 64 -> wrap64 z = z.
Proof. apply Z.mod_small. Qed.
Lemma wrap32_range z : 0 <= wrap32 z < 2 ^ 32.
Proof. apply Z.mod_pos_bound. lia. Qed.

(** * Bitwise reasoning *)

Lemma land_range a n : 0 <= n -> 0 <= Z.land a (Z.ones n) < 2 ^ n.
Proof. intros Hn. rewrite Z.land_ones by lia. apply Z.mod_pos_bound. lia. Qed.

Lemma testbit_high a n i : 0 <= a < 2 ^ n -> 0 <= n <= i -> Z.testbit a i = false.
Proof.
  intros Ha Hi. rewrite <- (Z.mod_small a (2 ^ n)) by lia.
  apply Z.mod_pow2_bits_high. lia.
Qed.

Lemma lor_range a b n : 0 <= n -> 0 <= a < 2 ^ n -> 0 <= b < 2 ^ n -> 0 <= Z.lor a b < 2 ^ n.
Proof.
  intros Hn Ha Hb. assert (Z.lor a b = Z.lor a b mod 2 ^ n) as ->.
  { apply Z.bits_inj'. intros i Hi. rewrite Z.testbit_mod_pow2 by lia.
    destruct (Z.ltb_spec i n); [done|]. rewrite Z.lor_spec.
    rewrite (testbit_high a n), (testbit_high b n) by lia. done. }
  apply Z.mod_pos_bound. lia.
Qed.

Lemma lxor_range a b n : 0 <= n -> 0 <= a < 2 ^ n -> 0 <= b < 2 ^ n -> 0 <= Z.lxor a b < 2 ^ n.
Proof.
  intros Hn Ha Hb. assert (Z.lxor a b = Z.lxor a b mod 2 ^ n) as ->.
  { apply Z.bits_inj'. intros i Hi. rewrite Z.testbit_mod_pow2 by lia.
    destruct (Z.ltb_spec i n); [done|]. rewrite Z.lxor_spec.
    rewrite (testbit_high a n), (testbit_high b n) by lia. done. }
  apply Z.mod_pos_bound. lia.
Qed.

Lemma land_range_r a b n : 0 <= n -> 0 <= b < 2 ^ n -> 0 <= Z.land a b < 2 ^ n.
Proof.
  intros Hn Hb. assert (Z.land a b = Z.land a b mod 2 ^ n) as ->.
  { apply Z.bits_inj'. intros i Hi. rewrite Z.testbit_mod_pow2 by lia.
    destruct (Z.ltb_spec i n); [done|]. rewrite Z.land_spec.
    rewrite (testbit_high b n) by lia. apply andb_false_r. }
  apply Z.mod_pos_bound. lia.
Qed.

(** Disjoint bits: [or] is addition. *)
Lemma lor_shiftl_add a b n : 0 <= n -> 0 <= a < 2 ^ n -> Z.lor a (Z.shiftl b n) = a + b * 2 ^ n.
Proof.
  intros Hn Ha. rewrite <- Z.shiftl_mul_pow2 by lia. symmetry.
  rewrite Z.add_nocarry_lxor.
  - apply Z.bits_inj'. intros i Hi. rewrite Z.lxor_spec, Z.lor_spec, Z.shiftl_spec by lia.
    destruct (Z.ltb_spec i n).
    + rewrite (Z.testbit_neg_r b) by lia. destruct (Z.testbit a i); done.
    + rewrite (testbit_high a n) by lia. done.
  - apply Z.bits_inj'. intros i Hi. rewrite Z.land_spec, Z.shiftl_spec, Z.bits_0 by lia.
    destruct (Z.ltb_spec i n).
    + rewrite (Z.testbit_neg_r b) by lia. apply andb_false_r.
    + rewrite (testbit_high a n) by lia. done.
Qed.

(** * Bytes *)

Definition u8 (b : byte) : Z := Z.of_N (Byte.to_N b).
Definition byte_of (z : Z) : byte :=
  match Byte.of_N (Z.to_N (z mod 256)) with Some b => b | None => x00 end.

#[export] Instance byte_eq_decision : EqDecision byte := Byte.byte_eq_dec.

Lemma u8_range b : 0 <= u8 b < 256.
Proof. unfold u8. pose proof (Byte.to_N_bounded b). lia. Qed.

Lemma byte_of_u8 b : byte_of (u8 b) = b.
Proof.
  unfold byte_of, u8. rewrite Z.mod_small by (pose proof (Byte.to_N_bounded b); lia).
  rewrite N2Z.id, Byte.of_to_N. done.
Qed.

Lemma u8_byte_of z : u8 (byte_of z) = z mod 256.
Proof.
  unfold byte_of, u8. pose proof (Z.mod_pos_bound z 256 ltac:(lia)).
  destruct (Byte.of_N (Z.to_N (z mod 256))) as [b|] eqn:E.
  - apply Byte.to_of_N in E. rewrite E. lia.
  - apply Byte.of_N_None_iff in E. lia.
Qed.

Lemma u8_byte_of_small z : 0 <= z < 256 -> u8 (byte_of z) = z.
Proof. intros. rewrite u8_byte_of. apply Z.mod_small. lia. Qed.

Lemma u8_inj a b : u8 a = u8 b -> a = b.
Proof. intros H. rewrite <- (byte_of_u8 a), <- (byte_of_u8 b). congruence. Qed.

(** * Lengths, slices and positions

    Positions and lengths are [usize] values of [Z]. The conversions to [nat]
    are clamped to the list's length first, so that evaluating a slice at a
    huge position stays cheap. *)
Definition zlen {A} (l : list A) : Z := Z.of_nat (length l).
Definition zdrop {A} (i : Z) (l : list A) : list A := drop (Z.to_nat (Z.min i (zlen l))) l.
Definition ztake {A} (n : Z) (l : list A) : list A := take (Z.to_nat (Z.min n (zlen l))) l.
Definition zreplicate {A} (n : Z) (x : A) : list A := replicate (Z.to_nat n) x.

(** [&l[a..]] and [&l[a..b]]: a range out of bounds panics. *)
Definition slice_from {E A} (l : list A) (a : Z) : outcome E (list A) :=
  if (0 <=? a) && (a <=? zlen l) then Ok (zdrop a l) else Panic.
Definition slice {E A} (l : list A) (a b : Z) : outcome E (list A) :=
  if (0 <=? a) && (a <=? b) && (b <=? zlen l) then Ok (ztake (b - a) (zdrop a l)) else Panic.
(** [l.get(a..).unwrap_or(&[])]. *)
Definition get_from {A} (l : list A) (a : Z) : list A := zdrop a l.
(** [l.get(i)] and [l[i]]. *)
Definition get {A} (l : list A) (i : Z) : option A :=
  if (0 <=? i) && (i <? zlen l) then l !! Z.to_nat i else None.
Definition index {E A} (l : list A) (i : Z) : outcome E A :=
  match get l i with Some x => Ok x | None => Panic end.

(** A buffer of [n] zero bytes with the first [min n (len src)] of them
    overwritten by [src]: the [vec![0; n]] / [copy_from_slice] idiom. *)
Definition zero_filled (n : Z) (src : list byte) : list byte :=
  let c := Z.min (zlen src) n in
  ztake c src ++ zreplicate (n - c) x00.

Create Rewrite HintDb len.

Section lengths.
Context {A : Type}.
Implicit Types l : list A.

Lemma zlen_nonneg l : 0 <= zlen l.
Proof. unfold zlen. lia. Qed.
Lemma zlen_nil : zlen (@nil A) = 0.
Proof. done. Qed.
Lemma zlen_cons x l : zlen (x :: l) = 1 + zlen l.
Proof. unfold zlen. cbn [length]. lia. Qed.
Lemma zlen_app l k : zlen (l ++ k) = zlen l + zlen k.
Proof. unfold zlen. rewrite length_app. lia. Qed.
Lemma zlen_drop i l : 0 <= i -> zlen (zdrop i l) = Z.max 0 (zlen l - i).
Proof. intros Hi. unfold zdrop, zlen. rewrite length_drop. lia. Qed.
Lemma zlen_take n l : 0 <= n -> zlen (ztake n l) = Z.min n (zlen l).
Proof. intros Hn. unfold ztake, zlen. rewrite length_take. lia. Qed.
Lemma zlen_replicate n (x : A) : 0 <= n -> zlen (zreplicate n x) = n.
Proof. intros Hn. unfold zreplicate, zlen. rewrite length_replicate. lia. Qed.
Lemma zlen_0_nil l : zlen l = 0 -> l = [].
Proof. destruct l; [done|]. rewrite zlen_cons. pose proof (zlen_nonneg l). lia. Qed.
Lemma zlen_of_nat l : Z.to_nat (zlen l) = length l.
Proof. unfold zlen. lia. Qed.

Lemma zdrop_0 l : zdrop 0 l = l.
Proof. unfold zdrop. pose proof (zlen_nonneg l). rewrite Z.min_l by lia. done. Qed.
Lemma zdrop_app_zlen l k : zdrop (zlen l) (l ++ k) = k.
Proof.
  unfold zdrop. rewrite Z.min_l by (rewrite zlen_app; pose proof (zlen_nonneg k); lia).
  rewrite zlen_of_nat. apply drop_app_length.
Qed.
Lemma zdrop_ge i l : zlen l <= i -> zdrop i l = [].
Proof. intros Hi. unfold zdrop. rewrite Z.min_r, zlen_of_nat by lia. apply drop_all. Qed.
Lemma zdrop_nat i l : 0 <= i -> zdrop i l = drop (Z.to_nat i) l.
Proof.
  intros Hi. unfold zdrop. destruct (Z.le_gt_cases i (zlen l)).
  - rewrite Z.min_l by lia. done.
  - rewrite Z.min_r, zlen_of_nat, drop_all by lia. symmetry.
    apply drop_ge. unfold zlen in *. lia.
Qed.
Lemma ztake_nat n l : 0 <= n -> ztake n l = take (Z.to_nat n) l.
Proof.
  intros Hi. unfold ztake. destruct (Z.le_gt_cases n (zlen l)).
  - rewrite Z.min_l by lia. done.
  - rewrite Z.min_r, zlen_of_nat by lia. rewrite !take_ge; [done| |]; unfold zlen in *; lia.
Qed.
Lemma zdrop_zdrop i j l : 0 <= i -> 0 <= j -> zdrop i (zdrop j l) = zdrop (j + i) l.
Proof.
  intros. rewrite !zdrop_nat by lia. rewrite drop_drop. f_equal. lia.
Qed.
Lemma ztake_app_zlen l k : ztake (zlen l) (l ++ k) = l.
Proof.
  rewrite ztake_nat by apply zlen_nonneg. rewrite zlen_of_nat. apply take_app_length.
Qed.
Lemma ztake_all l n : zlen l <= n -> ztake n l = l.
Proof. intros. unfold ztake. rewrite Z.min_r by lia. rewrite zlen_of_nat. apply take_ge. lia. Qed.
Lemma ztake_zdrop i l : 0 <= i -> ztake i l ++ zdrop i l = l.
Proof. intros. rewrite ztake_nat, zdrop_nat by lia. apply take_drop. Qed.
Lemma zdrop_cons i x l : 0 < i -> zdrop i (x :: l) = zdrop (i - 1) l.
Proof.
  intros. rewrite !zdrop_nat by lia. replace (Z.to_nat i) with (S (Z.to_nat (i - 1))) by lia.
  done.
Qed.

Lemma slice_from_ok {E} l a : 0 <= a <= zlen l -> slice_from (E := E) l a = Ok (zdrop a l).
Proof.
  intros. unfold slice_from. rewrite (proj2 (Z.leb_le _ _)) by lia.
  rewrite (proj2 (Z.leb_le _ _)) by lia. done.
Qed.
Lemma slice_ok {E} l a b :
  0 <= a -> a <= b -> b <= zlen l -> slice (E := E) l a b = Ok (ztake (b - a) (zdrop a l)).
Proof. intros. unfold slice. rewrite !(proj2 (Z.leb_le _ _)) by lia. done. Qed.
Lemma safe_slice_from {E} l a (P : list A -> Prop) :
  0 <= a <= zlen l -> P (zdrop a l) -> safe (slice_from (E := E) l a) P.
Proof. intros. rewrite slice_from_ok by lia. done. Qed.
Lemma safe_slice {E} l a b (P : list A -> Prop) :
  0 <= a -> a <= b -> b <= zlen l -> P (ztake (b - a) (zdrop a l)) ->
  safe (slice (E := E) l a b) P.
Proof. intros. rewrite slice_ok by lia. done. Qed.

Lemma get_lt l i x : get l i = Some x -> 0 <= i < zlen l.
Proof.
  unfold get. destruct (Z.leb_spec 0 i), (Z.ltb_spec i (zlen l)); simpl; done || lia.
Qed.
Lemma get_is_Some l i : 0 <= i < zlen l -> is_Some (get l i).
Proof.
  intros Hi. unfold get. rewrite (proj2 (Z.leb_le _ _)), (proj2 (Z.ltb_lt _ _)) by lia.
  apply lookup_lt_is_Some_2. unfold zlen in Hi. lia.
Qed.
Lemma get_None l i : zlen l <= i -> get l i = None.
Proof.
  intros. unfold get. rewrite (proj2 (Z.ltb_ge _ _)) by lia. rewrite andb_false_r. done.
Qed.
Lemma get_zdrop l i j : 0 <= i -> 0 <= j -> get (zdrop i l) j = get l (i + j).
Proof.
  intros Hi Hj. unfold get. rewrite zlen_drop by lia. rewrite zdrop_nat by lia.
  rewrite lookup_drop. replace (Z.to_nat i + Z.to_nat j)%nat with (Z.to_nat (i + j)) by lia.
  pose proof (zlen_nonneg l).
  destruct (Z.leb_spec 0 j), (Z.leb_spec 0 (i + j)), (Z.ltb_spec j (Z.max 0 (zlen l - i))),
    (Z.ltb_spec (i + j) (zlen l)); simpl; done || lia.
Qed.
End lengths.
#[export] Hint Rewrite @zlen_nil @zlen_cons @zlen_app : len.
#[export] Hint Rewrite @zlen_drop @zlen_take @zlen_replicate using lia : len.

(** Discharge a goal about lengths. *)
Ltac len := autorewrite with len in *; try lia.

Lemma zlen_zero_filled n src : 0 <= n -> zlen (zero_filled n src) = n.
Proof.
  intros Hn. unfold zero_filled. pose proof (zlen_nonneg src).
  rewrite zlen_app, zlen_take, zlen_replicate by lia. lia.
Qed.
#[export] Hint Rewrite zlen_zero_filled using lia : len.

(** * Arrays

    [l[i]], [l[i] = x] and [l.swap(i, j)] with a [nat] index. *)

Definition get_at {E A} (l : list A) (i : nat) : outcome E A :=
  match l !! i with Some x => Ok x | None => Panic end.
Definition set_at {E A} (l : list A) (i : nat) (x : A) : outcome E (list A) :=
  if (i <? length l)%nat then Ok (<[i := x]> l) else Panic.
Definition swap_at {E A} (l : list A) (i j : nat) : outcome E (list A) :=
  x ← get_at l i; y ← get_at l j; l ← set_at l i y; set_at l j x.

Lemma get_at_nth {E A} (l : list A) i d : (i < length l)%nat -> get_at (E := E) l i = Ok (nth i l d).
Proof. intros Hi. unfold get_at. destruct (nth_lookup_or_length l i d) as [->|]; [done|lia]. Qed.
Lemma set_at_ok {E A} (l : list A) i x : (i < length l)%nat -> set_at (E := E) l i x = Ok (<[i := x]> l).
Proof. intros Hi. unfold set_at. by rewrite (proj2 (Nat.ltb_lt _ _)). Qed.
Lemma nth_insert {A} (l : list A) i j x d : (i < length l)%nat ->
  nth j (<[i := x]> l) d = if decide (j = i) then x else nth j l d.
Proof.
  intros Hi. rewrite !nth_lookup. case_decide; [subst; by rewrite list_lookup_insert_eq|].
  by rewrite list_lookup_insert_ne.
Qed.

(** [dst[a..b].copy_from_slice(src)]: panics on a range out of bounds and on
    unequal lengths. *)
Definition copy_range {E A} (dst : list A) (a b : Z) (src : list A) : outcome E (list A) :=
  if (0 <=? a) && (a <=? b) && (b <=? zlen dst) && (zlen src =? b - a)
  then Ok (ztake a dst ++ src ++ zdrop b dst) else Panic.

Lemma copy_range_ok {E A} (dst : list A) a b src :
  0 <= a -> b = a + zlen src -> b <= zlen dst ->
  copy_range (E := E) dst a b src = Ok (ztake a dst ++ src ++ zdrop b dst).
Proof.
  intros Ha -> Hb. pose proof (zlen_nonneg src). unfold copy_range.
  rewrite !(proj2 (Z.leb_le _ _)), (proj2 (Z.eqb_eq _ _)) by lia. done.
Qed.

(** Runs of one value. *)
Lemma zreplicate_app {A} n m (x : A) : 0 <= n -> 0 <= m ->
  zreplicate n x ++ zreplicate m x = zreplicate (n + m) x.
Proof. intros. unfold zreplicate. rewrite <- replicate_add. f_equal. lia. Qed.
Lemma ztake_replicate {A} n m (x : A) : 0 <= n <= m -> ztake n (zreplicate m x) = zreplicate n x.
Proof. intros. rewrite ztake_nat by lia. unfold zreplicate. rewrite take_replicate. f_equal. lia. Qed.
Lemma zdrop_replicate {A} n m (x : A) : 0 <= n <= m -> zdrop n (zreplicate m x) = zreplicate (m - n) x.
Proof. intros. rewrite zdrop_nat by lia. unfold zreplicate. rewrite drop_replicate. f_equal. lia. Qed.
Lemma zreplicate_S {A} n (x : A) : 0 < n -> zreplicate n x = x :: zreplicate (n - 1) x.
Proof. intros. unfold zreplicate. replace (Z.to_nat n) with (S (Z.to_nat (n - 1))) by lia. done. Qed.
Lemma zdrop_app_ge {A} n (l k : list A) : zlen l <= n -> zdrop n (l ++ k) = zdrop (n - zlen l) k.
Proof.
  intros. pose proof (zlen_nonneg l). rewrite !zdrop_nat by lia. rewrite drop_app, drop_ge by (unfold zlen in *; lia).
  cbn [app]. f_equal. unfold zlen. lia.
Qed.
Lemma ztake_app_ge {A} n (l k : list A) : zlen l <= n -> ztake n (l ++ k) = l ++ ztake (n - zlen l) k.
Proof.
  intros. pose proof (zlen_nonneg l). rewrite !ztake_nat by lia.
  rewrite take_app, take_ge by (unfold zlen in *; lia). f_equal. f_equal. unfold zlen. lia.
Qed.

Lemma zdrop_app_le {A} n (l k : list A) : 0 <= n <= zlen l -> zdrop n (l ++ k) = zdrop n l ++ k.
Proof.
  intros. rewrite !zdrop_nat by lia. rewrite drop_app_le; [done|]. unfold zlen in *. lia.
Qed.
Lemma ztake_app_le {A} n (l k : list A) : 0 <= n <= zlen l -> ztake n (l ++ k) = ztake n l.
Proof.
  intros. rewrite !ztake_nat by lia. rewrite take_app_le; [done|]. unfold zlen in *. lia.
Qed.

(** [l.chunks(n)] for [n > 0]; the fuel bounds the number of chunks. *)
Fixpoint chunks_loop {A} (fuel : nat) (n : Z) (l : list A) : list (list A) :=
  match fuel, l with
  | O, _ | _, [] => []
  | S fuel, _ => ztake n l :: chunks_loop fuel n (zdrop n l)
  end.
Definition chunks {A} (n : Z) (l : list A) : list (list A) := chunks_loop (length l) n l.

(** One step of the chunks of a list that is not empty. *)
Lemma chunks_loop_S {A} fuel n (l : list A) : l <> [] ->
  chunks_loop (S fuel) n l = ztake n l :: chunks_loop fuel n (zdrop n l).
Proof. by destruct l. Qed.

Lemma concat_chunks_loop {A} fuel n (l : list A) : 0 < n -> (length l <= fuel)%nat ->
  concat (chunks_loop fuel n l) = l.
Proof.
  intros Hn. revert l. induction fuel as [|fuel IH]; intros l Hl; [by destruct l; simpl in *; [|lia]|].
  destruct (decide (l = [])) as [->|Hne]; [done|]. rewrite chunks_loop_S by done. cbn [concat].
  rewrite IH; [by rewrite ztake_zdrop by lia|].
  rewrite zdrop_nat, length_drop by lia. assert (0 < length l)%nat by (destruct l; [done|simpl; lia]). lia.
Qed.

Lemma concat_chunks {A} n (l : list A) : 0 < n -> concat (chunks n l) = l.
Proof. intros. by apply concat_chunks_loop. Qed.

(** A traversal none of whose steps fails. *)
Lemma mapM_ok {E A B} (f : A -> outcome E B) (g : A -> B) (l : list A) :
  Forall (fun x => f x = Ok (g x)) l -> mapM f l = Ok (g <$> l).
Proof. induction 1 as [|x l Hx _ IH]; [done|]. cbn [mapM fmap list_fmap]. rewrite Hx, bind_Ok, IH. done. Qed.

Lemma mapM_Forall2 {E A B} (f : A -> outcome E B) (R : A -> B -> Prop) (l : list A) :
  Forall (fun x => exists y, f x = Ok y /\ R x y) l -> exists ys, mapM f l = Ok ys /\ Forall2 R l ys.
Proof.
  induction 1 as [|x l (y & Hy & HR) _ (ys & Hys & Hall)]; [by exists []|].
  exists (y :: ys). cbn [mapM]. rewrite Hy, bind_Ok, Hys, bind_Ok. split; [done|by constructor].
Qed.

Lemma nth_zip_with {A B C} (f : A -> B -> C) l k i d1 d2 d : (i < length l)%nat -> (i < length k)%nat ->
  nth i (zip_with f l k) d = f (nth i l d1) (nth i k d2).
Proof.
  revert k i. induction l as [|x l IH]; intros [|y k] [|i] Hl Hk; simpl in *; try lia; [done|].
  apply IH; lia.
Qed.

(** * Little-endian fields *)

Fixpoint le_combine (l : list byte) : Z :=
  match l with [] => 0 | b :: l => u8 b + 256 * le_combine l end.
Fixpoint le_split (n : nat) (z : Z) : list byte :=
  match n with O => [] | S n => byte_of z :: le_split n (z / 256) end.

Lemma le_combine_range l : 0 <= le_combine l < 256 ^ zlen l.
Proof.
  induction l as [|b l IH]; simpl; [change (zlen []) with 0; lia|].
  rewrite zlen_cons, Z.pow_add_r by (pose proof (zlen_nonneg l); lia).
  pose proof (u8_range b). nia.
Qed.

Lemma length_le_split n z : length (le_split n z) = n.
Proof. revert z. induction n; simpl; auto. Qed.
Lemma zlen_le_split n z : zlen (le_split n z) = Z.of_nat n.
Proof. unfold zlen. rewrite length_le_split. done. Qed.
#[export] Hint Rewrite zlen_le_split : len.

Lemma le_combine_split n z : le_combine (le_split n z) = z mod 256 ^ Z.of_nat n.
Proof.
  revert z. induction n as [|n IH]; intros z; [simpl; rewrite Z.mod_1_r; done|].
  cbn [le_split le_combine]. rewrite IH, u8_byte_of, Nat2Z.inj_succ, Z.pow_succ_r by lia.
  rewrite Z.rem_mul_r by lia. done.
Qed.

Lemma le_split_combine l : le_split (length l) (le_combine l) = l.
Proof.
  induction l as [|b l IH]; [done|]. simpl. pose proof (u8_range b). f_equal.
  - apply u8_inj. rewrite u8_byte_of. rewrite Z.mul_comm, Z.mod_add, Z.mod_small by lia. done.
  - rewrite (Z.mul_comm 256), Z.div_add, Z.div_small by lia. exact IH.
Qed.

(** Only the bits that fit matter. *)
Lemma le_split_mod n z m : (m = 256 ^ Z.of_nat n) -> le_split n (z mod m) = le_split n z.
Proof.
  intros ->. rewrite <- (le_split_combine (le_split n z)), length_le_split, le_combine_split. done.
Qed.

(** [u32::from_le_bytes] and [u64::from_le_bytes] of a slice of the right size. *)
Definition u32_le (l : list byte) : Z := le_combine (ztake 4 l).
Definition u64_le (l : list byte) : Z := le_combine (ztake 8 l).

Lemma u32_le_range l : 0 <= u32_le l < 2 ^ 32.
Proof.
  unfold u32_le. pose proof (le_combine_range (ztake 4 l)) as H.
  assert (zlen (ztake 4 l) <= 4) by (rewrite zlen_take by lia; lia).
  pose proof (zlen_nonneg (ztake 4 l)).
  pose proof (Z.pow_le_mono_r 256 (zlen (ztake 4 l)) 4 ltac:(lia) ltac:(lia)).
  change (2 ^ 32) with (256 ^ 4). lia.
Qed.

(** [lia] and [nia] in the presence of divisions and remainders by constants. *)
Ltac dlia := Z.to_euclidean_division_equations; lia.
Ltac dnia := Z.to_euclidean_division_equations; nia.
