(* ===== verification/RarTypes.v ===== *)
(** Data types of the RAR reader ([crates/unrar-rs/src/types.rs], [error.rs],
    [limits.rs]): the error values, the enumerations read out of headers, and
    the limits that guard allocations.

    A Rust [String] is the list of its Unicode scalar values. The [detail] text
    of an error is not modelled: the constructor and the numeric fields are. *)
From S2P Require Import Prelude.

Abbreviation ustring := (list Z).

(** * Errors *)

Module LimitKind.
Inductive t :=
| DataSegment | UnpackedSize | MemoryExtraction | AddressSpace | HeadersPerVolume
| HeaderSize | VolumeNumber | Comment | LinkTarget | PpmdArena.
End LimitKind.

(** The [std::io::ErrorKind]s the modelled code produces or inspects. *)
Inductive io_error_kind := UnexpectedEof | InvalidInput | OtherIo.

Inductive rar_error :=
| Io (kind : io_error_kind)
| InvalidSignature
| UnsupportedFormat (version : Z)
| CorruptArchive
| ModificationRefused
| BlockHeaderChecksumMismatch (expected actual : Z)
| HeaderCrcMismatch (expected actual : Z)
| DataCrcMismatch (member : ustring) (expected actual : Z)
| PackedDataCrcMismatch (member : ustring) (volume expected actual : Z)
| Blake2Mismatch (member : ustring)
| PackedDataBlake2Mismatch (member : ustring) (volume : Z)
| MissingVolume (volume : Z) (member : ustring)
| EncryptedArchive
| EncryptedMember (member : ustring)
| InvalidPassword
| WrongPassword (member : ustring)
| UnsupportedCompression (method version : Z)
| UnsupportedEncryption (version : Z)
| UnsupportedEncryptionKdf (count max : Z)
| UnsupportedFilter (filter_type : Z)
| DictionaryTooLarge (size max : Z)
| TruncatedHeader (offset : Z)
| TruncatedData (offset : Z)
| InvalidVint (offset : Z)
| InvalidHuffmanTable
| ResourceLimit (kind : LimitKind.t) (requested max : Z) (member : option ustring)
| AllocationFailed (bytes : Z)
| Internal
| MemberNotFound (name : ustring)
| MemberIndexOutOfRange (index len : Z)
| VolumeProviderRequired (member : ustring)
| SolidOrderViolation (required requested : ustring)
| UnsafeLinkTarget (member target : ustring)
| UnsupportedLinkType (member link_type : ustring)
| SolidStatePoisoned (member : ustring)
| RecoveryRecordInsufficient (units : list Z).

Abbreviation result := (outcome rar_error).

(** * Enumerations of the headers *)

Inductive ArchiveFormat := Rar14 | Rar4 | Rar5.
#[export] Instance ArchiveFormat_eq_dec : EqDecision ArchiveFormat.
Proof. solve_decision. Defined.

Definition is_rar4_family (f : ArchiveFormat) : bool :=
  match f with Rar14 | Rar4 => true | Rar5 => false end.

Module DataHash.
Inductive t := Rar14 (checksum : Z) | Crc32 (crc : Z).
Definition crc32 (h : t) : option Z :=
  match h with Crc32 crc => Some crc | Rar14 _ => None end.
End DataHash.

Module HostOs.
Inductive t := Windows | Unix | Darwin | Unknown (value : Z).
Definition from (value : Z) : t :=
  if value =? 0 then Windows else if value =? 1 then Unix else Unknown value.
End HostOs.

Module CompressionMethod.
Inductive t := Store | Fastest | Fast | Normal | Good | Best | Unknown (code : Z).
#[global] Instance eq_dec : EqDecision t.
Proof. solve_decision. Defined.
Definition from_code (code : Z) : t :=
  match code with
  | 0 => Store | 1 => Fastest | 2 => Fast | 3 => Normal | 4 => Good | 5 => Best
  | other => Unknown other
  end.
Definition code (m : t) : Z :=
  match m with
  | Store => 0 | Fastest => 1 | Fast => 2 | Normal => 3 | Good => 4 | Best => 5
  | Unknown c => c
  end.

(** [code] is a left inverse of [from_code] on every 3-bit code. *)
Lemma code_from_code c : code (from_code c) = c.
Proof. unfold from_code. repeat case_match; done. Qed.
End CompressionMethod.

Module CompressionInfo.
Record t := mk {
  format : ArchiveFormat;
  version : Z;
  solid : bool;
  method : CompressionMethod.t;
  dict_size : Z;
}.
End CompressionInfo.

Inductive FileHash := Blake2sp (hash : list byte).

Module UnixOwnerInfo.
Record t := mk {
  user_name : option ustring;
  group_name : option ustring;
  user_name_raw : option (list byte);
  group_name_raw : option (list byte);
  uid : option Z;
  gid : option Z;
}.
Definition default : t := mk None None None None None None.
End UnixOwnerInfo.

(** Attribute tests of a [FileAttributes] word. *)
Module FileAttributes.
Definition is_readonly (a : Z) : bool := has a 0x1.
Definition is_hidden (a : Z) : bool := has a 0x2.
Definition is_system (a : Z) : bool := has a 0x4.
Definition is_directory_attr (a : Z) : bool := has a 0x10.
Definition unix_mode (a : Z) : Z := Z.land a 0xFFFF.
End FileAttributes.

(** * Limits *)

Definition RAR_UNPACK_MAX_DICT_SIZE : Z := 0x1000000000.
Definition RAR5_MAX_HEADER_BODY : Z := 0x200000.
Definition RAR_MAX_VOLUME_NUMBER : Z := Z.shiftl 1 20.
Definition RAR_MIN_LZ_WINDOW_SIZE : Z := 0x40000.

Definition checked_volume_number (declared : Z) : result Z :=
  if RAR_MAX_VOLUME_NUMBER <? declared
  then Err (ResourceLimit LimitKind.VolumeNumber declared RAR_MAX_VOLUME_NUMBER None)
  else Ok declared.

(** * Times

    A [SystemTime] is the number of nanoseconds from the Unix epoch; it is
    representable when its whole seconds fit an [i64] (the Unix target). *)
Module SystemTime.
Definition in_range (t : Z) : bool :=
  let s := t / 1000000000 in (I64_MIN <=? s) && (s <=? I64_MAX).
Definition UNIX_EPOCH : Z := 0.
Definition checked_add (t d : Z) : option Z := if in_range (t + d) then Some (t + d) else None.
Definition checked_sub (t d : Z) : option Z := if in_range (t - d) then Some (t - d) else None.
(** [Duration::new(secs, nanos)] with [nanos] below one second. *)
Definition duration (secs nanos : Z) : Z := secs * 1000000000 + nanos.
End SystemTime.
