(* ===== verification/Vint.v ===== *)
(** RAR5 variable-length integers ([crates/unrar-rs/src/vint.rs]) and the
    lenient readers the type-specific parsers use for fields that may run past
    the end of a header ([read_raw_vint_lossy], [read_raw_u32_lossy],
    [read_raw_u64_lossy] of [header/file.rs], [header/extra.rs],
    [header/main_archive.rs]). *)
From S2P Require Import Prelude.
From S2P Require Import RarTypes.

Definition VINT_MAX_BYTES : Z := 10.

(** The loop of [read_vint]: [i] bytes consumed, [7 * i] bits accumulated. *)
Fixpoint read_vint_loop (data : list byte) (i result shift : Z) : RarTypes.result (Z * Z) :=
  match data with
  | [] => Err (TruncatedHeader 0)
  | b :: rest =>
      if VINT_MAX_BYTES <=? i then Err (TruncatedHeader 0)
      else
        let value_bits := Z.land (u8 b) 0x7F in
        let result := Z.lor result (wrap64 (Z.shiftl value_bits shift)) in
        let shift := shift + 7 in
        if Z.land (u8 b) 0x80 =? 0 then Ok (result, i + 1)
        else if i =? VINT_MAX_BYTES - 1 then Err (InvalidVint 0)
        else read_vint_loop rest (i + 1) result shift
  end.

Definition read_vint (data : list byte) : RarTypes.result (Z * Z) :=
  read_vint_loop data 0 0 0.

(** [encode_vint]: ten rounds empty any 64-bit value. *)
Fixpoint encode_vint_loop (fuel : nat) (value : Z) : list byte :=
  match fuel with
  | O => []
  | S fuel =>
      let byte := Z.land value 0x7F in
      let value := Z.shiftr value 7 in
      let byte := if value =? 0 then byte else Z.lor byte 0x80 in
      if value =? 0 then [byte_of byte] else byte_of byte :: encode_vint_loop fuel value
  end.

Definition encode_vint (value : Z) : list byte := encode_vint_loop 10 value.

(** [vint_encode_for_crc]: exactly [byte_count] bytes, padded with [0x80]. *)
Fixpoint vint_encode_for_crc_loop (v : Z) (todo : nat) : list byte :=
  match todo with
  | O => []
  | S todo =>
      let byte := Z.land v 0x7F in
      let byte := match todo with O => byte | _ => Z.lor byte 0x80 end in
      byte_of byte :: vint_encode_for_crc_loop (Z.shiftr v 7) todo
  end.

Definition vint_encode_for_crc (value byte_count : Z) : list byte :=
  vint_encode_for_crc_loop value (Z.to_nat byte_count).

(** [read_raw_vint_lossy]: the shifts 0, 7, ..., 63; a vint that runs out of
    data or of shifts reads as zero. *)
Fixpoint lossy_loop (combine : Z -> Z -> Z) (shifts : list Z) (data : list byte) (result read : Z)
    : Z * Z :=
  match shifts with
  | [] => (0, read)
  | shift :: shifts =>
      match data with
      | [] => (0, read)
      | b :: rest =>
          let read := read + 1 in
          let result := combine result (wrap64 (Z.shiftl (Z.land (u8 b) 0x7f) shift)) in
          if Z.land (u8 b) 0x80 =? 0 then (result, read)
          else lossy_loop combine shifts rest result read
      end
  end.

Definition vint_shifts : list Z := [0; 7; 14; 21; 28; 35; 42; 49; 56; 63].

(** [result += ...] in the file, extra and main headers; [result |= ...] in
    [read_vint_lossy] of the encryption header. *)
Definition read_raw_vint_lossy (data : list byte) : Z * Z := lossy_loop Z.add vint_shifts data 0 0.
Definition read_vint_lossy (data : list byte) : Z * Z := lossy_loop Z.lor vint_shifts data 0 0.

(** [read_raw_u32_lossy(data, &mut pos)]: the value and the position after. *)
Definition read_raw_u32_lossy (data : list byte) (pos : Z) : Z * Z :=
  match checked_add_u64 pos 4 with
  | None => (0, pos)
  | Some stop =>
      if stop <=? zlen data then (u32_le (zdrop pos data), stop) else (0, pos)
  end.

Definition read_raw_u64_lossy (data : list byte) (pos : Z) : Z * Z :=
  let '(low, pos) := read_raw_u32_lossy data pos in
  let '(high, pos) := read_raw_u32_lossy data pos in
  (Z.lor low (Z.shiftl high 32), pos).

(** * Byte-level facts *)

Lemma vint_done_iff b : (Z.land (u8 b) 0x80 =? 0) = (u8 b <? 128).
Proof. destruct b; reflexivity. Qed.
Lemma vint_bits b : Z.land (u8 b) 0x7F = u8 b mod 128.
Proof. apply (Z.land_ones (u8 b) 7). lia. Qed.
Lemma low7 v : Z.land v 0x7F = v mod 128.
Proof. apply (Z.land_ones v 7). lia. Qed.
Lemma shr7 v : Z.shiftr v 7 = v / 128.
Proof. apply (Z.shiftr_div_pow2 v 7). lia. Qed.
Lemma set_bit7 v : Z.lor (v mod 128) 0x80 = v mod 128 + 128.
Proof. apply (lor_shiftl_add (v mod 128) 1 7); dlia. Qed.

Lemma u8_low7 v : u8 (byte_of (v mod 128)) = v mod 128.
Proof. apply u8_byte_of_small. dlia. Qed.
Lemma u8_low7_cont v : u8 (byte_of (v mod 128 + 128)) = v mod 128 + 128.
Proof. apply u8_byte_of_small. dlia. Qed.

(** Or-ing in the next group of seven bits is addition. *)
Lemma vint_accumulate r v k : 0 <= k -> 0 <= r < 2 ^ k -> Z.lor r (Z.shiftl v k) = r + v * 2 ^ k.
Proof. intros. apply lor_shiftl_add; lia. Qed.

Lemma pow2_7 k : 0 <= k -> 2 ^ (k + 7) = 128 * 2 ^ k.
Proof. intros. rewrite Z.pow_add_r by lia. lia. Qed.

(** * Round trip *)

Lemma read_encode_loop fuel v i r s :
  0 <= v -> v < 2 ^ (7 * Z.of_nat fuel) -> 0 <= i -> i + Z.of_nat fuel <= 10 ->
  0 <= r < 2 ^ (7 * i) -> r + v * 2 ^ (7 * i) < 2 ^ 64 -> (0 < fuel)%nat ->
  read_vint_loop (encode_vint_loop fuel v ++ s) i r (7 * i) =
    Ok (r + v * 2 ^ (7 * i), i + zlen (encode_vint_loop fuel v)).
Proof.
  revert v i r. induction fuel as [|fuel IH]; intros v i r Hv Hfuel Hi Hi10 Hr Hbound Hpos; [lia|].
  cbn [encode_vint_loop]. rewrite shr7, low7.
  assert (Hmod : v = 128 * (v / 128) + v mod 128) by (apply Z.div_mod; lia).
  pose proof (Z.mod_pos_bound v 128 ltac:(lia)) as Hlow.
  assert (Hpow : 2 ^ (7 * i + 7) = 128 * 2 ^ (7 * i)) by (apply pow2_7; lia).
  assert (Hpp : 0 < 2 ^ (7 * i)) by lia.
  assert (0 <= v / 128) by (apply Z.div_pos; lia).
  destruct (Z.eqb_spec (v / 128) 0) as [Hz|Hnz].
  - cbn [app read_vint_loop]. rewrite vint_done_iff, vint_bits, u8_low7.
    rewrite (proj2 (Z.leb_gt _ _)) by (unfold VINT_MAX_BYTES; lia).
    rewrite (proj2 (Z.ltb_lt _ _)) by lia. rewrite Z.mod_mod by lia.
    replace (v mod 128) with v in * by lia.
    rewrite wrap64_small by (rewrite Z.shiftl_mul_pow2 by lia; nia).
    rewrite vint_accumulate by lia. rewrite zlen_cons. done.
  - assert (Hfuel' : (0 < fuel)%nat).
    { destruct fuel; [|lia]. change (7 * Z.of_nat 1) with 7 in Hfuel.
      exfalso. apply Hnz. apply Z.div_small. lia. }
    cbn [app read_vint_loop]. rewrite set_bit7, vint_done_iff, vint_bits, u8_low7_cont.
    rewrite (proj2 (Z.leb_gt _ _)) by (unfold VINT_MAX_BYTES; lia).
    rewrite (proj2 (Z.ltb_ge _ _)) by lia.
    rewrite (proj2 (Z.eqb_neq _ _)) by (unfold VINT_MAX_BYTES; lia).
    replace ((v mod 128 + 128) mod 128) with (v mod 128)
      by (rewrite <- (Z.add_mod_idemp_r _ 128) by lia; rewrite Z.add_0_r, Z.mod_mod by lia; done).
    rewrite wrap64_small by (rewrite Z.shiftl_mul_pow2 by lia; nia).
    rewrite vint_accumulate by lia.
    replace (7 * i + 7) with (7 * (i + 1)) in * by lia.
    rewrite IH; try lia.
    + rewrite Hpow, zlen_cons. f_equal. f_equal; nia.
    + apply Z.div_lt_upper_bound; [lia|]. rewrite <- pow2_7 by lia.
      replace (7 * Z.of_nat fuel + 7) with (7 * Z.of_nat (S fuel)) by lia. done.
    + nia.
Qed.

Lemma read_encode_vint v s :
  0 <= v < 2 ^ 64 -> read_vint (encode_vint v ++ s) = Ok (v, zlen (encode_vint v)).
Proof.
  intros Hv. unfold read_vint, encode_vint.
  pose proof (read_encode_loop 10 v 0 0 s) as H. change (7 * 0) with 0 in H.
  rewrite H by lia. f_equal. f_equal. lia.
Qed.

(** * Range of a decoded vint *)

Lemma read_vint_loop_range data i r v n :
  0 <= r < 2 ^ 64 -> 0 <= i -> read_vint_loop data i r (7 * i) = Ok (v, n) ->
  0 <= v < 2 ^ 64 /\ i < n <= 10 /\ n - i <= zlen data.
Proof.
  revert i r. induction data as [|b data IH]; intros i r Hr Hi; cbn [read_vint_loop]; [done|].
  unfold VINT_MAX_BYTES. destruct (Z.leb_spec 10 i); [done|].
  rewrite zlen_cons. pose proof (zlen_nonneg data).
  assert (0 <= Z.lor r (wrap64 (Z.shiftl (Z.land (u8 b) 0x7F) (7 * i))) < 2 ^ 64)
    by (apply lor_range; [lia|done|apply wrap64_range]).
  case_match; [intros [= <- <-]; lia|]. case_match; [done|].
  replace (7 * i + 7) with (7 * (i + 1)) by lia.
  intros Hrec. apply IH in Hrec; lia.
Qed.

Lemma read_vint_range data v n :
  read_vint data = Ok (v, n) -> 0 <= v < 2 ^ 64 /\ 0 < n <= 10 /\ n <= zlen data.
Proof.
  intros H. apply (read_vint_loop_range data 0 0) in H; lia.
Qed.

Lemma read_vint_loop_no_panic data i r k : read_vint_loop data i r k <> Panic.
Proof.
  revert i r k. induction data as [|b data IH]; intros i r k; cbn [read_vint_loop]; [done|].
  repeat case_match; done || apply IH.
Qed.

(** The reading rule of the parsers: a vint read is safe, stays in the buffer
    and yields a 64-bit value. *)
Lemma read_vint_safe data :
  safe (read_vint data) (fun '(v, n) => 0 <= v < 2 ^ 64 /\ 0 < n /\ n <= zlen data).
Proof.
  pose proof (read_vint_loop_no_panic data 0 0 0).
  unfold read_vint. destruct (read_vint_loop data 0 0 0) as [[v n]| |] eqn:E; simpl; [|done..].
  apply read_vint_range in E. lia.
Qed.

(** * Re-encoding to the length that was read *)

Lemma vint_reencode_loop data i r v n :
  0 <= i -> 0 <= r < 2 ^ (7 * i) -> n <= 9 ->
  read_vint_loop data i r (7 * i) = Ok (v, n) ->
  exists w, v = r + w * 2 ^ (7 * i) /\ 0 <= w /\
    vint_encode_for_crc_loop w (Z.to_nat (n - i)) = ztake (n - i) data.
Proof.
  revert i r. induction data as [|b data IH]; intros i r Hi Hr Hn; cbn [read_vint_loop]; [done|].
  unfold VINT_MAX_BYTES. destruct (Z.leb_spec 10 i); [done|].
  rewrite vint_done_iff, vint_bits. pose proof (u8_range b) as Hb.
  assert (Hpow : 2 ^ (7 * i + 7) = 128 * 2 ^ (7 * i)) by (apply pow2_7; lia).
  assert (Hpp : 0 < 2 ^ (7 * i)) by lia.
  pose proof (Z.mod_pos_bound (u8 b) 128 ltac:(lia)) as Hlow.
  destruct (Z.leb_spec 9 i) as [Hi9|Hi9].
  { intros Hd. exfalso. destruct (u8 b <? 128).
    - injection Hd as _ <-. lia.
    - rewrite (proj2 (Z.eqb_eq _ _)) in Hd by lia. done. }
  assert (Hb63 : 2 ^ (7 * i + 7) <= 2 ^ 63) by (apply Z.pow_le_mono_r; lia).
  rewrite wrap64_small by (rewrite Z.shiftl_mul_pow2 by lia; nia).
  rewrite vint_accumulate by lia.
  destruct (Z.ltb_spec (u8 b) 128) as [Hb1|Hb1].
  - intros [= <- <-]. exists (u8 b mod 128). split; [done|]. split; [lia|].
    replace (i + 1 - i) with 1 by lia. cbn [vint_encode_for_crc_loop Z.to_nat Pos.to_nat].
    rewrite ztake_nat by lia. change (Z.to_nat 1) with 1%nat. cbn [take].
    change (Pos.to_nat 1) with 1%nat. cbn [vint_encode_for_crc_loop].
    rewrite low7, Z.mod_mod, Z.mod_small, byte_of_u8 by lia. done.
  - rewrite (proj2 (Z.eqb_neq _ _)) by lia.
    replace (7 * i + 7) with (7 * (i + 1)) in * by lia.
    intros Hd. assert (i + 1 < n).
    { apply read_vint_loop_range in Hd; [lia| |lia]. nia. }
    apply IH in Hd; [|lia|nia|done]. destruct Hd as (w & -> & Hw & Henc).
    exists (u8 b mod 128 + 128 * w). split; [rewrite Hpow; lia|]. split; [lia|].
    replace (Z.to_nat (n - i)) with (S (Z.to_nat (n - (i + 1)))) by lia.
    cbn [vint_encode_for_crc_loop]. rewrite shr7, low7.
    replace ((u8 b mod 128 + 128 * w) / 128) with w by dlia.
    rewrite Henc. rewrite !ztake_nat by lia.
    replace (Z.to_nat (n - i)) with (S (Z.to_nat (n - (i + 1)))) by lia.
    cbn [take]. f_equal.
    destruct (Z.to_nat (n - (i + 1))) as [|k] eqn:Hk; [lia|].
    apply u8_inj. replace ((u8 b mod 128 + 128 * w) mod 128) with (u8 b mod 128) by dlia.
    rewrite set_bit7, u8_low7_cont. dlia.
Qed.

Lemma vint_reencode data v n :
  n <= 9 -> read_vint data = Ok (v, n) -> vint_encode_for_crc v n = ztake n data.
Proof.
  intros Hn H. apply (vint_reencode_loop data 0 0) in H; [|lia..].
  destruct H as (w & -> & Hw & H). unfold vint_encode_for_crc.
  rewrite Z.sub_0_r in H. rewrite <- H. f_equal. change (2 ^ (7 * 0)) with 1. lia.
Qed.

(** A vint of [n] bytes, nine at most, holds [7 * n] bits. *)
Lemma read_vint_loop_bound data i r v n :
  0 <= i -> 0 <= r < 2 ^ (7 * i) -> n <= 9 ->
  read_vint_loop data i r (7 * i) = Ok (v, n) -> v < 2 ^ (7 * n).
Proof.
  revert i r. induction data as [|b data IH]; intros i r Hi Hr Hn; cbn [read_vint_loop]; [done|].
  unfold VINT_MAX_BYTES. destruct (Z.leb_spec 10 i); [done|].
  rewrite vint_done_iff, vint_bits. pose proof (u8_range b) as Hb.
  assert (Hpow : 2 ^ (7 * i + 7) = 128 * 2 ^ (7 * i)) by (apply pow2_7; lia).
  pose proof (Z.mod_pos_bound (u8 b) 128 ltac:(lia)) as Hlow.
  destruct (Z.leb_spec 9 i) as [Hi9|Hi9].
  { intros Hd. exfalso. destruct (u8 b <? 128).
    - injection Hd as _ <-. lia.
    - rewrite (proj2 (Z.eqb_eq _ _)) in Hd by lia. done. }
  assert (Hb63 : 2 ^ (7 * i + 7) <= 2 ^ 63) by (apply Z.pow_le_mono_r; lia).
  rewrite wrap64_small by (rewrite Z.shiftl_mul_pow2 by lia; nia).
  rewrite vint_accumulate by lia.
  destruct (Z.ltb_spec (u8 b) 128) as [Hb1|Hb1].
  - intros [= <- <-]. replace (7 * (i + 1)) with (7 * i + 7) by lia. nia.
  - rewrite (proj2 (Z.eqb_neq _ _)) by lia. replace (7 * i + 7) with (7 * (i + 1)) by lia.
    apply IH; [lia| |done]. replace (7 * (i + 1)) with (7 * i + 7) by lia. nia.
Qed.

Lemma read_vint_bound data v n : n <= 9 -> read_vint data = Ok (v, n) -> v < 2 ^ (7 * n).
Proof. intros Hn H. eapply (read_vint_loop_bound data 0 0); [lia|done|done|exact H]. Qed.

(** The padded encoding reads back as well. *)
Lemma read_padded_loop k w i r s :
  0 <= w < 2 ^ (7 * Z.of_nat k) -> 0 <= i -> i + Z.of_nat k <= 9 -> (0 < k)%nat ->
  0 <= r < 2 ^ (7 * i) ->
  read_vint_loop (vint_encode_for_crc_loop w k ++ s) i r (7 * i) =
    Ok (r + w * 2 ^ (7 * i), i + Z.of_nat k).
Proof.
  revert w i r. induction k as [|k IH]; intros w i r Hw Hi Hi9 Hk Hr; [lia|].
  cbn [vint_encode_for_crc_loop app read_vint_loop]. rewrite shr7, low7.
  assert (Hpow : 2 ^ (7 * i + 7) = 128 * 2 ^ (7 * i)) by (apply pow2_7; lia).
  assert (Hb63 : 2 ^ (7 * i + 7) <= 2 ^ 63) by (apply Z.pow_le_mono_r; lia).
  pose proof (Z.mod_pos_bound w 128 ltac:(lia)) as Hlow.
  assert (Hwm : w = 128 * (w / 128) + w mod 128) by (apply Z.div_mod; lia).
  unfold VINT_MAX_BYTES. rewrite (proj2 (Z.leb_gt _ _)) by lia.
  rewrite vint_done_iff, vint_bits. destruct k as [|k].
  - change (7 * Z.of_nat 1) with 7 in Hw. rewrite u8_low7, Z.mod_mod by lia.
    rewrite (proj2 (Z.ltb_lt _ _)) by lia.
    rewrite wrap64_small by (rewrite Z.shiftl_mul_pow2 by lia; nia).
    rewrite vint_accumulate, (Z.mod_small w) by lia. done.
  - rewrite set_bit7, u8_low7_cont.
    rewrite (proj2 (Z.ltb_ge _ _)), (proj2 (Z.eqb_neq _ _)) by lia.
    replace ((w mod 128 + 128) mod 128) with (w mod 128) by dlia.
    rewrite wrap64_small by (rewrite Z.shiftl_mul_pow2 by lia; nia).
    rewrite vint_accumulate by lia. replace (7 * i + 7) with (7 * (i + 1)) in * by lia.
    rewrite IH; [|split|lia..|nia].
    + rewrite Hpow. f_equal. f_equal; [nia|lia].
    + dlia.
    + apply Z.div_lt_upper_bound; [lia|]. rewrite <- pow2_7 by lia.
      replace (7 * Z.of_nat (S k) + 7) with (7 * Z.of_nat (S (S k))) by lia. lia.
Qed.

Lemma read_padded_vint w n s :
  0 < n <= 9 -> 0 <= w < 2 ^ (7 * n) -> read_vint (vint_encode_for_crc w n ++ s) = Ok (w, n).
Proof.
  intros Hn Hw. unfold read_vint, vint_encode_for_crc.
  pose proof (read_padded_loop (Z.to_nat n) w 0 0 s) as H. rewrite Z2Nat.id in H by lia.
  change (7 * 0) with 0 in H. rewrite H by lia. f_equal. f_equal; lia.
Qed.

Lemma zlen_vint_encode_for_crc w n : 0 <= n -> zlen (vint_encode_for_crc w n) = n.
Proof.
  intros Hn. unfold vint_encode_for_crc, zlen.
  assert (forall k v, length (vint_encode_for_crc_loop v k) = k) as ->; [|lia].
  induction k; intros v; cbn; auto.
Qed.

(** * The lenient reader *)

Lemma lor_wrap64 r v k :
  0 <= k <= 64 -> 0 <= r < 2 ^ k ->
  Z.lor r (wrap64 (Z.shiftl v k)) = r + wrap64 (Z.shiftl v k).
Proof.
  intros Hk Hr. unfold wrap64. rewrite Z.shiftl_mul_pow2 by lia.
  replace (2 ^ 64) with (2 ^ (64 - k) * 2 ^ k) by (rewrite <- Z.pow_add_r by lia; f_equal; lia).
  rewrite Z.mul_mod_distr_r by lia.
  rewrite <- Z.shiftl_mul_pow2 by lia. rewrite vint_accumulate by lia.
  rewrite Z.shiftl_mul_pow2 by lia. done.
Qed.

Lemma lossy_loop_spec combine k data i r :
  (forall r v k, 0 <= k <= 64 -> 0 <= r < 2 ^ k ->
     combine r (wrap64 (Z.shiftl v k)) = Z.lor r (wrap64 (Z.shiftl v k))) ->
  i + Z.of_nat k = 10 -> 0 <= i -> 0 <= r < 2 ^ (7 * i) ->
  lossy_loop combine ((λ j, 7 * j) <$> seqZ i (Z.of_nat k)) data r i =
    match read_vint_loop data i r (7 * i) with
    | Ok p => p
    | _ => (0, Z.min 10 (i + zlen data))
    end.
Proof.
  intros Hcomb. revert data i r. induction k as [|k IH]; intros data i r Hik Hi Hr.
  - cbn. destruct data as [|b data]; cbn [read_vint_loop]; [f_equal; len; change (zlen []) with 0; lia|].
    rewrite zlen_cons. pose proof (zlen_nonneg data). unfold VINT_MAX_BYTES.
    rewrite (proj2 (Z.leb_le _ _)) by lia. f_equal. lia.
  - rewrite seqZ_cons by lia. rewrite fmap_cons.
    cbn [lossy_loop]. destruct data as [|b data]; cbn [read_vint_loop];
      [f_equal; change (zlen []) with 0; lia|].
    rewrite zlen_cons. pose proof (zlen_nonneg data). unfold VINT_MAX_BYTES.
    rewrite (proj2 (Z.leb_gt _ _)) by lia. rewrite Hcomb by lia.
    destruct (Z.land (u8 b) 0x80 =? 0); [done|].
    replace (Z.pred (Z.of_nat (S k))) with (Z.of_nat k) by lia.
    destruct (Z.eqb_spec i (10 - 1)) as [->|Hne].
    + assert (k = O) as -> by lia. cbn. f_equal. lia.
    + unfold Z.succ. rewrite IH; [|lia|lia|].
      * replace (7 * i + 7) with (7 * (i + 1)) by lia. rewrite <- Z.add_assoc.
        destruct (read_vint_loop _ _ _ _); done.
      * rewrite vint_bits. pose proof (Z.mod_pos_bound (u8 b) 128 ltac:(lia)).
        replace (7 * (i + 1)) with (7 * i + 7) by lia. rewrite pow2_7 by lia.
        assert (2 ^ (7 * i) <= 2 ^ 56) by (apply Z.pow_le_mono_r; lia).
        rewrite wrap64_small by (rewrite Z.shiftl_mul_pow2 by lia; nia).
        rewrite vint_accumulate by lia. nia.
Qed.

Lemma lossy_spec data :
  read_raw_vint_lossy data =
    match read_vint data with Ok p => p | _ => (0, Z.min 10 (zlen data)) end.
Proof.
  unfold read_raw_vint_lossy. change vint_shifts with ((λ j, 7 * j) <$> seqZ 0 (Z.of_nat 10)).
  rewrite lossy_loop_spec; [done| |change (2 ^ (7 * 0)) with 1; lia..].
  intros. by rewrite lor_wrap64.
Qed.

Lemma read_vint_lossy_eq data : read_vint_lossy data = read_raw_vint_lossy data.
Proof.
  rewrite lossy_spec. unfold read_vint_lossy.
  change vint_shifts with ((λ j, 7 * j) <$> seqZ 0 (Z.of_nat 10)).
  rewrite lossy_loop_spec; [done|done|change (2 ^ (7 * 0)) with 1; lia..].
Qed.

(** A lenient read never leaves the buffer. *)
Lemma lossy_range data v n :
  read_raw_vint_lossy data = (v, n) -> 0 <= v < 2 ^ 64 /\ 0 <= n <= zlen data /\ n <= 10.
Proof.
  rewrite lossy_spec. pose proof (zlen_nonneg data).
  destruct (read_vint data) as [[v' n']| |] eqn:E; intros [= <- <-]; [|lia..].
  apply read_vint_range in E. lia.
Qed.

Lemma u32_lossy_range data pos v pos' :
  read_raw_u32_lossy data pos = (v, pos') -> 0 <= pos <= zlen data ->
  0 <= v < 2 ^ 32 /\ pos <= pos' <= zlen data.
Proof.
  unfold read_raw_u32_lossy, checked_add_u64. pose proof (u32_le_range (zdrop pos data)).
  repeat case_match; intros [= <- <-]; simplify_eq;
    repeat match goal with H : (_ <=? _) = true |- _ => apply Z.leb_le in H end; lia.
Qed.

Lemma u64_lossy_range data pos v pos' :
  read_raw_u64_lossy data pos = (v, pos') -> 0 <= pos <= zlen data ->
  0 <= v < 2 ^ 64 /\ pos <= pos' <= zlen data.
Proof.
  unfold read_raw_u64_lossy. intros Hread Hpos.
  destruct (read_raw_u32_lossy data pos) as [lo p1] eqn:E1.
  destruct (read_raw_u32_lossy data p1) as [hi p2] eqn:E2.
  injection Hread as <- <-. apply u32_lossy_range in E1; [|lia].
  apply u32_lossy_range in E2; [|lia]. rewrite lor_shiftl_add by lia. lia.
Qed.

(** * Properties *)

(** Vint round trip: every 64-bit value encodes to one to ten bytes, and
    [read_vint] on that encoding followed by any bytes returns the value and
    exactly the encoding's length, whatever follows. *)
Theorem vint_roundtrip (v : Z) (rest : list byte) :
  0 <= v < 2 ^ 64 ->
  read_vint (encode_vint v ++ rest) = Ok (v, zlen (encode_vint v)) /\
  1 <= zlen (encode_vint v) <= 10.
Proof.
  intros Hv. pose proof (read_encode_vint v rest Hv) as H. split; [done|].
  pose proof (read_encode_vint v [] Hv) as H'. apply read_vint_range in H'. lia.
Qed.

Lemma vint_roundtrip_witness :
  read_vint (encode_vint 300 ++ [xff; xff]) = Ok (300, zlen (encode_vint 300)) /\
  1 <= zlen (encode_vint 300) <= 10.
Proof. apply (vint_roundtrip 300 [xff; xff]). split; [discriminate | reflexivity]. Defined.

(** Re-encoding the
    decoded header size to the length it was read with, as the CRC computation
    does, gives back the very bytes of the stream, padding included. *)
Theorem vint_encode_for_crc_exact (data : list byte) (v n : Z) :
  n <= 9 -> read_vint data = Ok (v, n) ->
  vint_encode_for_crc v n = ztake n data.
Proof. apply vint_reencode. Qed.

Lemma vint_encode_for_crc_exact_witness :
  vint_encode_for_crc 16384 3 = ztake 3 [x80; x80; x01; xaa].
Proof. apply vint_encode_for_crc_exact; [discriminate | reflexivity]. Defined.

(** Lenient vints refine strict vints: [read_raw_vint_lossy] answers what
    [read_vint] answers when that succeeds, and otherwise zero, having consumed
    what there was, ten bytes at most. *)
Theorem read_raw_vint_lossy_refines (data : list byte) :
  read_raw_vint_lossy data =
    match read_vint data with
    | Ok (v, n) => (v, n)
    | _ => (0, Z.min 10 (zlen data))
    end.
Proof. rewrite lossy_spec. destruct (read_vint data) as [[]| |]; done. Qed.
