(* ===== verification/Utf8.v ===== *)
(** Text decoding of RAR5 headers: the lenient UTF-8 decoder of
    [crates/unrar-rs/src/header/common.rs], the private-use repair of
    [header/file.rs], and the standard library's strict and lossy decoders
    those functions call. *)
From S2P Require Import Prelude.
From S2P Require Import RarTypes.

(** * The lenient decoder *)

Definition REPLACEMENT_CHARACTER : Z := 0xFFFD.

(** What a Rust [char] can hold. *)
Definition is_scalar (c : Z) : bool :=
  ((0 <=? c) && (c <? 0xD800)) || ((0xE000 <=? c) && (c <=? 0x10FFFF)).

Definition append_lenient_utf8 (scalar : Z) : list byte :=
  if scalar <=? 0x7f then [byte_of scalar]
  else if scalar <=? 0x7ff then
    [byte_of (Z.lor 0xc0 (Z.land (Z.shiftr scalar 6) 0x1f));
     byte_of (Z.lor 0x80 (Z.land scalar 0x3f))]
  else if scalar <=? 0xffff then
    [byte_of (Z.lor 0xe0 (Z.land (Z.shiftr scalar 12) 0x0f));
     byte_of (Z.lor 0x80 (Z.land (Z.shiftr scalar 6) 0x3f));
     byte_of (Z.lor 0x80 (Z.land scalar 0x3f))]
  else if scalar <=? 0x10ffff then
    [byte_of (Z.lor 0xf0 (Z.land (Z.shiftr scalar 18) 0x07));
     byte_of (Z.lor 0x80 (Z.land (Z.shiftr scalar 12) 0x3f));
     byte_of (Z.lor 0x80 (Z.land (Z.shiftr scalar 6) 0x3f));
     byte_of (Z.lor 0x80 (Z.land scalar 0x3f))]
  else [].

(** [b & 0xc0 == 0x80] and the six bits it carries. *)
Definition is_cont (b : byte) : bool := Z.land (u8 b) 0xc0 =? 0x80.
Definition cont_bits (b : byte) : Z := Z.land (u8 b) 0x3f.

(** One decoded scalar in front of the rest of the text: a scalar above
    [0x10ffff] is dropped, a surrogate is shown as the replacement character
    but keeps its bytes. *)
Definition push_scalar (scalar : Z) (rest : ustring * list byte) : ustring * list byte :=
  if 0x10ffff <? scalar then rest
  else
    let ch := if (0xd800 <=? scalar) && (scalar <=? 0xdfff) then REPLACEMENT_CHARACTER else scalar in
    (ch :: rest.1, append_lenient_utf8 scalar ++ rest.2).

Fixpoint decode_utf8_prefix_until_nul_with_encoded_bytes (bytes : list byte)
    : ustring * list byte :=
  match bytes with
  | [] => ([], [])
  | first :: rest =>
      if u8 first =? 0 then ([], [])
      else if u8 first <? 0x80 then
        push_scalar (u8 first) (decode_utf8_prefix_until_nul_with_encoded_bytes rest)
      else if Z.shiftr (u8 first) 5 =? 6 then
        match rest with
        | b1 :: rest =>
            if negb (is_cont b1) then ([], [])
            else push_scalar (Z.lor (Z.shiftl (Z.land (u8 first) 0x1f) 6) (cont_bits b1))
                   (decode_utf8_prefix_until_nul_with_encoded_bytes rest)
        | _ => ([], [])
        end
      else if Z.shiftr (u8 first) 4 =? 14 then
        match rest with
        | b1 :: b2 :: rest =>
            if negb (is_cont b1) || negb (is_cont b2) then ([], [])
            else push_scalar
                   (Z.lor (Z.lor (Z.shiftl (Z.land (u8 first) 0x0f) 12) (Z.shiftl (cont_bits b1) 6))
                      (cont_bits b2))
                   (decode_utf8_prefix_until_nul_with_encoded_bytes rest)
        | _ => ([], [])
        end
      else if Z.shiftr (u8 first) 3 =? 30 then
        match rest with
        | b1 :: b2 :: b3 :: rest =>
            if negb (is_cont b1) || negb (is_cont b2) || negb (is_cont b3) then ([], [])
            else push_scalar
                   (Z.lor (Z.lor (Z.lor (Z.shiftl (Z.land (u8 first) 0x07) 18)
                      (Z.shiftl (cont_bits b1) 12)) (Z.shiftl (cont_bits b2) 6)) (cont_bits b3))
                   (decode_utf8_prefix_until_nul_with_encoded_bytes rest)
        | _ => ([], [])
        end
      else ([], [])
  end.

Definition decode_utf8_prefix_until_nul (bytes : list byte) : ustring :=
  (decode_utf8_prefix_until_nul_with_encoded_bytes bytes).1.

(** * The standard library's decoders

    [utf8_chunks] splits a byte string as [core::str::Utf8Chunks] does: [Some c]
    for a well-formed scalar, [None] for a maximal ill-formed subpart. *)

Definition in_bytes (lo hi : Z) (b : byte) : bool := (lo <=? u8 b) && (u8 b <=? hi).

Fixpoint utf8_chunks (bytes : list byte) : list (option Z) :=
  match bytes with
  | [] => []
  | first :: rest =>
      let f := u8 first in
      if f <? 0x80 then Some f :: utf8_chunks rest
      else if in_bytes 0xc2 0xdf first then
        match rest with
        | b1 :: rest1 =>
            if is_cont b1 then Some (Z.land f 0x1f * 64 + cont_bits b1) :: utf8_chunks rest1
            else None :: utf8_chunks rest
        | [] => [None]
        end
      else if in_bytes 0xe0 0xef first then
        match rest with
        | b1 :: rest1 =>
            let ok1 := if f =? 0xe0 then in_bytes 0xa0 0xbf b1
                       else if f =? 0xed then in_bytes 0x80 0x9f b1 else is_cont b1 in
            if negb ok1 then None :: utf8_chunks rest
            else match rest1 with
                 | b2 :: rest2 =>
                     if is_cont b2
                     then Some (Z.land f 0x0f * 4096 + cont_bits b1 * 64 + cont_bits b2)
                            :: utf8_chunks rest2
                     else None :: utf8_chunks rest1
                 | [] => [None]
                 end
        | [] => [None]
        end
      else if in_bytes 0xf0 0xf4 first then
        match rest with
        | b1 :: rest1 =>
            let ok1 := if f =? 0xf0 then in_bytes 0x90 0xbf b1
                       else if f =? 0xf4 then in_bytes 0x80 0x8f b1 else is_cont b1 in
            if negb ok1 then None :: utf8_chunks rest
            else match rest1 with
                 | b2 :: rest2 =>
                     if negb (is_cont b2) then None :: utf8_chunks rest1
                     else match rest2 with
                          | b3 :: rest3 =>
                              if is_cont b3
                              then Some (Z.land f 0x07 * 262144 + cont_bits b1 * 4096
                                           + cont_bits b2 * 64 + cont_bits b3)
                                     :: utf8_chunks rest3
                              else None :: utf8_chunks rest2
                          | [] => [None]
                          end
                 | [] => [None]
                 end
        | [] => [None]
        end
      else None :: utf8_chunks rest
  end.

(** [String::from_utf8(bytes).ok()] and [String::from_utf8_lossy(bytes)]. *)
Definition from_utf8 (bytes : list byte) : option ustring := mapM id (utf8_chunks bytes).
Definition from_utf8_lossy (bytes : list byte) : ustring :=
  default REPLACEMENT_CHARACTER <$> utf8_chunks bytes.

(** * Private-use repair of a member name *)

(** [name.find('\u{fffe}')]: the text before and after the first marker. *)
Fixpoint split_at_marker (name : ustring) : option (ustring * ustring) :=
  match name with
  | [] => None
  | c :: rest =>
      if c =? 0xfffe then Some ([], rest)
      else match split_at_marker rest with
           | Some (prefix, suffix) => Some (c :: prefix, suffix)
           | None => None
           end
  end.

(** The loop over the suffix: the bytes it stands for and whether any was
    stored in the private-use range. *)
Fixpoint repaired_suffix (suffix : ustring) (saw_encoded_byte : bool) : option (list byte * bool) :=
  match suffix with
  | [] => Some ([], saw_encoded_byte)
  | c :: rest =>
      if (0xE000 <=? c) && (c - 0xE000 <=? 0xFF) then
        '(bytes, saw) ← repaired_suffix rest true; Some (byte_of (c - 0xE000) :: bytes, saw)
      else if c <? 0x80 then
        '(bytes, saw) ← repaired_suffix rest saw_encoded_byte; Some (byte_of c :: bytes, saw)
      else None
  end.

Definition repair_private_use_utf8_name (name : ustring) : option ustring :=
  '(prefix, suffix) ← split_at_marker name;
  '(repaired_bytes, saw_encoded_byte) ← repaired_suffix suffix false;
  if negb saw_encoded_byte then None
  else decoded ← from_utf8 repaired_bytes; Some (prefix ++ decoded).

Definition decode_rar5_name (name_bytes : list byte) : ustring :=
  let decoded := decode_utf8_prefix_until_nul name_bytes in
  default decoded (repair_private_use_utf8_name decoded).

(** * Bit fields as arithmetic *)

Lemma land_1f x : Z.land x 0x1f = x mod 32.  Proof. apply (Z.land_ones x 5). lia. Qed.
Lemma land_0f x : Z.land x 0x0f = x mod 16.  Proof. apply (Z.land_ones x 4). lia. Qed.
Lemma land_07 x : Z.land x 0x07 = x mod 8.   Proof. apply (Z.land_ones x 3). lia. Qed.
Lemma land_3f x : Z.land x 0x3f = x mod 64.  Proof. apply (Z.land_ones x 6). lia. Qed.
Lemma lor_c0 x : Z.lor 0xc0 (x mod 32) = 192 + x mod 32.
Proof. rewrite Z.lor_comm, Z.add_comm. apply (lor_shiftl_add _ 6 5); dlia. Qed.
Lemma lor_e0 x : Z.lor 0xe0 (x mod 16) = 224 + x mod 16.
Proof. rewrite Z.lor_comm, Z.add_comm. apply (lor_shiftl_add _ 14 4); dlia. Qed.
Lemma lor_f0 x : Z.lor 0xf0 (x mod 8) = 240 + x mod 8.
Proof. rewrite Z.lor_comm, Z.add_comm. apply (lor_shiftl_add _ 30 3); dlia. Qed.
Lemma lor_80 x : Z.lor 0x80 (x mod 64) = 128 + x mod 64.
Proof. rewrite Z.lor_comm, Z.add_comm. apply (lor_shiftl_add _ 2 6); dlia. Qed.
Lemma lor2 a c : 0 <= c < 64 -> Z.lor (Z.shiftl a 6) c = a * 64 + c.
Proof. intros. rewrite Z.lor_comm, lor_shiftl_add by lia. lia. Qed.
Lemma lor3 a b c : 0 <= b < 64 -> 0 <= c < 64 ->
  Z.lor (Z.lor (Z.shiftl a 12) (Z.shiftl b 6)) c = a * 4096 + b * 64 + c.
Proof.
  intros. replace (Z.shiftl a 12) with (Z.shiftl (Z.shiftl a 6) 6) by (rewrite Z.shiftl_shiftl by lia; done).
  rewrite <- Z.shiftl_lor, lor2, lor2 by lia. lia.
Qed.
Lemma lor4 a b c d : 0 <= b < 64 -> 0 <= c < 64 -> 0 <= d < 64 ->
  Z.lor (Z.lor (Z.lor (Z.shiftl a 18) (Z.shiftl b 12)) (Z.shiftl c 6)) d
    = a * 262144 + b * 4096 + c * 64 + d.
Proof.
  intros. replace (Z.shiftl a 18) with (Z.shiftl (Z.shiftl a 12) 6) by (rewrite Z.shiftl_shiftl by lia; done).
  replace (Z.shiftl b 12) with (Z.shiftl (Z.shiftl b 6) 6) by (rewrite Z.shiftl_shiftl by lia; done).
  rewrite <- !Z.shiftl_lor, lor2, lor3 by lia. lia.
Qed.
Lemma shr6 x : Z.shiftr x 6 = x / 64.      Proof. apply (Z.shiftr_div_pow2 x 6). lia. Qed.
Lemma shr12 x : Z.shiftr x 12 = x / 4096.  Proof. apply (Z.shiftr_div_pow2 x 12). lia. Qed.
Lemma shr18 x : Z.shiftr x 18 = x / 262144. Proof. apply (Z.shiftr_div_pow2 x 18). lia. Qed.
Lemma shr5 x : Z.shiftr x 5 = x / 32.      Proof. apply (Z.shiftr_div_pow2 x 5). lia. Qed.
Lemma shr4 x : Z.shiftr x 4 = x / 16.      Proof. apply (Z.shiftr_div_pow2 x 4). lia. Qed.
Lemma shr3 x : Z.shiftr x 3 = x / 8.       Proof. apply (Z.shiftr_div_pow2 x 3). lia. Qed.

Lemma is_cont_spec b : is_cont b = (128 <=? u8 b) && (u8 b <? 192).
Proof. destruct b; reflexivity. Qed.
Lemma cont_bits_spec b : cont_bits b = u8 b mod 64.
Proof. apply land_3f. Qed.
Lemma cont_bits_range b : 0 <= cont_bits b < 64.
Proof. rewrite cont_bits_spec. dlia. Qed.

(** The bytes of an encoded scalar, by size. *)
Lemma append_lenient_spec c :
  append_lenient_utf8 c =
    if c <=? 0x7f then [byte_of c]
    else if c <=? 0x7ff then [byte_of (192 + c / 64 mod 32); byte_of (128 + c mod 64)]
    else if c <=? 0xffff then
      [byte_of (224 + c / 4096 mod 16); byte_of (128 + c / 64 mod 64); byte_of (128 + c mod 64)]
    else if c <=? 0x10ffff then
      [byte_of (240 + c / 262144 mod 8); byte_of (128 + c / 4096 mod 64);
       byte_of (128 + c / 64 mod 64); byte_of (128 + c mod 64)]
    else [].
Proof.
  unfold append_lenient_utf8.
  rewrite shr6, shr12, shr18, land_1f, land_0f, land_07, !land_3f, lor_c0, lor_e0, lor_f0, !lor_80.
  done.
Qed.

(** Rewrite boolean comparisons that arithmetic decides. *)
Ltac decide_cmp :=
  repeat match goal with
  | |- context [?a <=? ?b] =>
      first [rewrite (proj2 (Z.leb_le a b)) by dlia | rewrite (proj2 (Z.leb_gt a b)) by dlia]
  | |- context [?a <? ?b] =>
      first [rewrite (proj2 (Z.ltb_lt a b)) by dlia | rewrite (proj2 (Z.ltb_ge a b)) by dlia]
  | |- context [?a =? ?b] =>
      first [rewrite (proj2 (Z.eqb_eq a b)) by dlia | rewrite (proj2 (Z.eqb_neq a b)) by dlia]
  end; cbn [andb orb negb].

Local Abbreviation decode := decode_utf8_prefix_until_nul_with_encoded_bytes.

Lemma decode_step1 b rest :
  0 < u8 b < 0x80 -> decode (b :: rest) = push_scalar (u8 b) (decode rest).
Proof. intros. cbn [decode_utf8_prefix_until_nul_with_encoded_bytes]. decide_cmp. done. Qed.

Lemma decode_step2 b b1 rest :
  192 <= u8 b < 224 -> 128 <= u8 b1 < 192 ->
  decode (b :: b1 :: rest) = push_scalar (u8 b mod 32 * 64 + u8 b1 mod 64) (decode rest).
Proof.
  intros. cbn [decode_utf8_prefix_until_nul_with_encoded_bytes].
  rewrite (shr5 (u8 b)), (is_cont_spec b1), (land_1f (u8 b)),
    (lor2 _ (cont_bits b1)), (cont_bits_spec b1) by apply cont_bits_range.
  decide_cmp. done.
Qed.

Lemma decode_step3 b b1 b2 rest :
  224 <= u8 b < 240 -> 128 <= u8 b1 < 192 -> 128 <= u8 b2 < 192 ->
  decode (b :: b1 :: b2 :: rest) =
    push_scalar (u8 b mod 16 * 4096 + u8 b1 mod 64 * 64 + u8 b2 mod 64) (decode rest).
Proof.
  intros. cbn [decode_utf8_prefix_until_nul_with_encoded_bytes].
  rewrite (shr5 (u8 b)), (shr4 (u8 b)), (is_cont_spec b1), (is_cont_spec b2), (land_0f (u8 b)),
    (lor3 _ (cont_bits b1) (cont_bits b2)), (cont_bits_spec b1), (cont_bits_spec b2)
    by apply cont_bits_range.
  decide_cmp. done.
Qed.

Lemma decode_step4 b b1 b2 b3 rest :
  240 <= u8 b < 248 -> 128 <= u8 b1 < 192 -> 128 <= u8 b2 < 192 -> 128 <= u8 b3 < 192 ->
  decode (b :: b1 :: b2 :: b3 :: rest) =
    push_scalar (u8 b mod 8 * 262144 + u8 b1 mod 64 * 4096 + u8 b2 mod 64 * 64 + u8 b3 mod 64)
      (decode rest).
Proof.
  intros. cbn [decode_utf8_prefix_until_nul_with_encoded_bytes].
  rewrite (shr5 (u8 b)), (shr4 (u8 b)), (shr3 (u8 b)), (is_cont_spec b1), (is_cont_spec b2),
    (is_cont_spec b3), (land_07 (u8 b)), (lor4 _ (cont_bits b1) (cont_bits b2) (cont_bits b3)),
    (cont_bits_spec b1), (cont_bits_spec b2), (cont_bits_spec b3) by apply cont_bits_range.
  decide_cmp. done.
Qed.

Lemma decode_encoded_scalar c rest :
  0 < c <= 0x10ffff -> decode (append_lenient_utf8 c ++ rest) = push_scalar c (decode rest).
Proof.
  intros Hc. rewrite append_lenient_spec.
  repeat match goal with |- context [?a <=? ?b] => destruct (Z.leb_spec a b) end; try lia; cbn [app].
  - rewrite decode_step1; rewrite u8_byte_of_small by lia; done || lia.
  - rewrite decode_step2; rewrite ?u8_byte_of_small by dlia; try dlia. f_equal. dlia.
  - rewrite decode_step3; rewrite ?u8_byte_of_small by dlia; try dlia. f_equal. dlia.
  - rewrite decode_step4; rewrite ?u8_byte_of_small by dlia; try dlia. f_equal. dlia.
Qed.

(** A list of encoded scalars. *)
Definition encode_utf8 (cs : ustring) : list byte := concat (append_lenient_utf8 <$> cs).

(** What ends a decoded name: the end of the field or a NUL byte. *)
Definition ends_text (tail : list byte) : Prop := tail = [] \/ head tail = Some x00.

Lemma decode_ends tail : ends_text tail -> decode tail = ([], []).
Proof. intros [->|H]; [done|]. destruct tail; simplify_eq/=. done. Qed.

Lemma push_scalar_valid c p : is_scalar c = true -> push_scalar c p = (c :: p.1, append_lenient_utf8 c ++ p.2).
Proof.
  unfold is_scalar, push_scalar. intros H.
  destruct (Z.ltb_spec 0x10ffff c), (Z.leb_spec 0xd800 c), (Z.leb_spec c 0xdfff),
    (Z.leb_spec 0xe000 c), (Z.leb_spec 0 c), (Z.ltb_spec c 0xd800), (Z.leb_spec c 0x10ffff);
    cbn in *; done || lia.
Qed.

(** ** The two decoders agree on well-formed text *)

Lemma mapM_id_cons (c : option Z) l (cs : list Z) :
  mapM id (c :: l) = Some cs -> exists x xs, c = Some x /\ mapM id l = Some xs /\ cs = x :: xs.
Proof.
  cbn. destruct c as [x|]; [|done]. cbn. destruct (mapM id l) as [xs|]; [|done].
  intros [= <-]. eauto.
Qed.

(** One well-formed sequence at the front of a byte string. *)
Lemma utf8_chunks_step b bs c l :
  utf8_chunks (b :: bs) = Some c :: l ->
  exists seq rest, b :: bs = seq ++ rest /\ utf8_chunks rest = l /\ seq = append_lenient_utf8 c /\
    is_scalar c = true /\ (length rest < length (b :: bs))%nat.
Proof.
  cbn [utf8_chunks]. pose proof (u8_range b) as Hb. unfold in_bytes.
  destruct (Z.ltb_spec (u8 b) 0x80).
  { intros [= <- <-]. exists [b], bs. rewrite append_lenient_spec. decide_cmp.
    rewrite byte_of_u8. unfold is_scalar. decide_cmp. split_and!; try done. simpl. lia. }
  destruct (_ && _) eqn:E2.
  { apply andb_true_iff in E2 as [E2%Z.leb_le E2'%Z.leb_le].
    destruct bs as [|b1 bs]; [done|]. rewrite is_cont_spec. destruct (_ && _) eqn:E1; [|done].
    apply andb_true_iff in E1 as [E1%Z.leb_le E1'%Z.ltb_lt].
    rewrite land_1f, cont_bits_spec. intros [= <- <-]. exists [b; b1], bs.
    rewrite append_lenient_spec. unfold is_scalar. decide_cmp.
    split_and!; try done; [|simpl; lia]. f_equal; [|f_equal]; apply u8_inj;
      rewrite u8_byte_of_small; dlia. }
  clear E2. destruct (_ && _) eqn:E3.
  { apply andb_true_iff in E3 as [E3%Z.leb_le E3'%Z.leb_le].
    destruct bs as [|b1 bs]; [done|].
    set (ok1 := if u8 b =? 224 then _ else _).
    destruct ok1 eqn:Eok; [|done]. destruct bs as [|b2 bs]; [done|].
    rewrite is_cont_spec. destruct ((128 <=? u8 b2) && _) eqn:E2; [|done].
    apply andb_true_iff in E2 as [E2%Z.leb_le E2'%Z.ltb_lt].
    rewrite land_0f, !cont_bits_spec. cbn [negb]. intros [= <- <-].
    assert (128 <= u8 b1 < 192 /\ (u8 b = 224 -> 160 <= u8 b1) /\ (u8 b = 237 -> u8 b1 < 160)) as (?&?&?).
    { subst ok1. rewrite is_cont_spec in Eok. unfold in_bytes in Eok.
      destruct (Z.eqb_spec (u8 b) 224); [|destruct (Z.eqb_spec (u8 b) 237)];
        apply andb_true_iff in Eok as [Ek1%Z.leb_le Ek2]; lia. }
    clear Eok ok1. exists [b; b1; b2], bs. rewrite append_lenient_spec.
    assert (0x800 <= u8 b mod 16 * 4096 + u8 b1 mod 64 * 64 + u8 b2 mod 64 <= 0xffff) by dlia.
    decide_cmp. split_and!; try done; [| |simpl; lia].
    - f_equal; [|f_equal; [|f_equal]]; apply u8_inj; rewrite u8_byte_of_small; dlia.
    - unfold is_scalar. apply orb_true_iff. rewrite !andb_true_iff, !Z.leb_le, Z.ltb_lt. dlia. }
  clear E3. destruct (_ && _) eqn:E4; [|done].
  apply andb_true_iff in E4 as [E4%Z.leb_le E4'%Z.leb_le].
  destruct bs as [|b1 bs]; [done|].
  set (ok1 := if u8 b =? 240 then _ else _).
  destruct ok1 eqn:Eok; [|done]. destruct bs as [|b2 bs]; [done|].
  rewrite !is_cont_spec. destruct ((128 <=? u8 b2) && _) eqn:E2; [|done].
  destruct bs as [|b3 bs]; [done|]. rewrite is_cont_spec.
  destruct ((128 <=? u8 b3) && _) eqn:E3; [|done].
  apply andb_true_iff in E2 as [E2%Z.leb_le E2'%Z.ltb_lt].
  apply andb_true_iff in E3 as [E3%Z.leb_le E3'%Z.ltb_lt].
  rewrite land_07, !cont_bits_spec. cbn [negb]. intros [= <- <-].
  assert (128 <= u8 b1 < 192 /\ (u8 b = 240 -> 144 <= u8 b1) /\ (u8 b = 244 -> u8 b1 < 144)) as (?&?&?).
  { subst ok1. rewrite is_cont_spec in Eok. unfold in_bytes in Eok.
    destruct (Z.eqb_spec (u8 b) 240); [|destruct (Z.eqb_spec (u8 b) 244)];
      apply andb_true_iff in Eok as [Ek1%Z.leb_le Ek2]; lia. }
  clear Eok ok1. exists [b; b1; b2; b3], bs. rewrite append_lenient_spec.
  assert (0x10000 <= u8 b mod 8 * 262144 + u8 b1 mod 64 * 4096 + u8 b2 mod 64 * 64 + u8 b3 mod 64
            <= 0x10ffff) by dlia.
  unfold is_scalar. decide_cmp. split_and!; try done; [|simpl; lia].
  f_equal; [|f_equal; [|f_equal; [|f_equal]]]; apply u8_inj; rewrite u8_byte_of_small; dlia.
Qed.

Lemma from_utf8_encode bs cs :
  from_utf8 bs = Some cs -> bs = encode_utf8 cs /\ Forall (λ c, is_scalar c = true) cs.
Proof.
  unfold from_utf8. revert cs.
  induction bs as [bs IH] using (induction_ltof1 _ (@length byte)); unfold ltof in IH.
  intros cs. destruct bs as [|b bs].
  { intros [= <-]. split; [done|constructor]. }
  destruct (utf8_chunks (b :: bs)) as [|c l] eqn:E.
  { exfalso. revert E. cbn. repeat case_match; done. }
  intros (x & xs & -> & Hxs & ->)%mapM_id_cons.
  apply utf8_chunks_step in E as (seq & rest & Hsplit & <- & -> & Hx & Hlen).
  destruct (IH _ Hlen _ Hxs) as [-> Hall]. rewrite Hsplit. split; [done|by constructor].
Qed.

(** The strict decoder reads back an encoded scalar. *)
(** [decide_cmp] where no division is in sight. *)
Ltac decide_cmp_lia :=
  repeat match goal with
  | |- context [?a <=? ?b] =>
      first [rewrite (proj2 (Z.leb_le a b)) by lia | rewrite (proj2 (Z.leb_gt a b)) by lia]
  | |- context [?a <? ?b] =>
      first [rewrite (proj2 (Z.ltb_lt a b)) by lia | rewrite (proj2 (Z.ltb_ge a b)) by lia]
  end; cbn [andb orb negb].

Lemma utf8_step2 b b1 rest :
  194 <= u8 b < 224 -> 128 <= u8 b1 < 192 ->
  utf8_chunks (b :: b1 :: rest) = Some (u8 b mod 32 * 64 + u8 b1 mod 64) :: utf8_chunks rest.
Proof.
  intros Hb H1. remember (b1 :: rest) as l eqn:Hl. cbn [utf8_chunks].
  subst l. lazy beta iota zeta. unfold in_bytes. rewrite !is_cont_spec, (land_1f (u8 b)), !cont_bits_spec.
  decide_cmp_lia. done.
Qed.
Lemma utf8_step3 b b1 b2 rest :
  224 <= u8 b < 240 -> 128 <= u8 b1 < 192 -> 128 <= u8 b2 < 192 ->
  (u8 b = 224 -> 160 <= u8 b1) -> (u8 b = 237 -> u8 b1 < 160) ->
  utf8_chunks (b :: b1 :: b2 :: rest) =
    Some (u8 b mod 16 * 4096 + u8 b1 mod 64 * 64 + u8 b2 mod 64) :: utf8_chunks rest.
Proof.
  intros Hb H1 H2 He0 Hed. remember (b1 :: b2 :: rest) as l eqn:Hl. cbn [utf8_chunks].
  subst l. lazy beta iota zeta. unfold in_bytes. rewrite !is_cont_spec, (land_0f (u8 b)), !cont_bits_spec.
  destruct (Z.eqb_spec (u8 b) 224); [|destruct (Z.eqb_spec (u8 b) 237)];
    decide_cmp_lia; done.
Qed.
Lemma utf8_step4 b b1 b2 b3 rest :
  240 <= u8 b <= 244 -> 128 <= u8 b1 < 192 -> 128 <= u8 b2 < 192 -> 128 <= u8 b3 < 192 ->
  (u8 b = 240 -> 144 <= u8 b1) -> (u8 b = 244 -> u8 b1 < 144) ->
  utf8_chunks (b :: b1 :: b2 :: b3 :: rest) =
    Some (u8 b mod 8 * 262144 + u8 b1 mod 64 * 4096 + u8 b2 mod 64 * 64 + u8 b3 mod 64) :: utf8_chunks rest.
Proof.
  intros Hb H1 H2 H3 Hf0 Hf4. remember (b1 :: b2 :: b3 :: rest) as l eqn:Hl. cbn [utf8_chunks].
  subst l. lazy beta iota zeta. unfold in_bytes. rewrite !is_cont_spec, (land_07 (u8 b)), !cont_bits_spec.
  destruct (Z.eqb_spec (u8 b) 240); [|destruct (Z.eqb_spec (u8 b) 244)];
    decide_cmp_lia; done.
Qed.

(** A scalar in base 64, and a digit behind the marker of its byte. *)
Lemma digits64 c : 0 <= c mod 64 < 64 /\ 0 <= c / 64 mod 64 < 64 /\ 0 <= c / 4096 mod 64 < 64 /\
  c = c / 262144 * 262144 + c / 4096 mod 64 * 4096 + c / 64 mod 64 * 64 + c mod 64.
Proof.
  change 262144 with (64 * 64 * 64). change 4096 with (64 * 64). rewrite <- !Z.div_div by lia.
  pose proof (Z.div_mod c 64). pose proof (Z.div_mod (c / 64) 64). pose proof (Z.div_mod (c / 64 / 64) 64).
  pose proof (Z.mod_pos_bound c 64). pose proof (Z.mod_pos_bound (c / 64) 64).
  pose proof (Z.mod_pos_bound (c / 64 / 64) 64). lia.
Qed.
Lemma digit_bits x base n : 0 <= x < n -> base mod n = 0 -> (base + x) mod n = x.
Proof. intros Hx Hb. rewrite Zplus_mod, Hb, Z.add_0_l, Z.mod_mod by lia. by apply Z.mod_small. Qed.

Lemma utf8_chunks_encoded c rest : is_scalar c = true ->
  utf8_chunks (append_lenient_utf8 c ++ rest) = Some c :: utf8_chunks rest.
Proof.
  intros Hc. assert (0 <= c <= 0x10ffff /\ ~ 0xD800 <= c <= 0xDFFF) as [Hr Hs].
  { unfold is_scalar in Hc. rewrite orb_true_iff, !andb_true_iff, !Z.leb_le, Z.ltb_lt in Hc. lia. }
  clear Hc. rewrite append_lenient_spec.
  repeat match goal with |- context [?a <=? ?b] => destruct (Z.leb_spec a b) end; try lia; cbn [app].
  - cbn [utf8_chunks]. rewrite u8_byte_of_small by lia. decide_cmp. done.
  - rewrite utf8_step2; rewrite ?u8_byte_of_small by dlia; try dlia. do 2 f_equal. dlia.
  - pose proof (digits64 c) as (Hd0 & Hd1 & Hd2 & Hsum).
    assert (c / 4096 mod 16 = c / 4096) as -> by dlia.
    rewrite (Z.div_small c 262144), (Z.mod_small (c / 4096) 64) in Hsum by dlia.
    assert (c / 4096 <= 15) as Hx by dlia. assert (0 <= c / 4096) as Hx' by dlia.
    set (x2 := c / 4096) in *. set (x1 := c / 64 mod 64) in *. set (x0 := c mod 64) in *. clearbody x2 x1 x0.
    rewrite utf8_step3; rewrite ?u8_byte_of_small by lia; try lia.
    rewrite (digit_bits x2 224 16), (digit_bits x1 128 64), (digit_bits x0 128 64) by (lia || done).
    do 2 f_equal. lia.
  - pose proof (digits64 c) as (Hd0 & Hd1 & Hd2 & Hsum).
    assert (c / 262144 mod 8 = c / 262144) as -> by dlia.
    assert (0 <= c / 262144) as Hx by dlia.
    set (x3 := c / 262144) in *. set (x2 := c / 4096 mod 64) in *.
    set (x1 := c / 64 mod 64) in *. set (x0 := c mod 64) in *. clearbody x3 x2 x1 x0.
    rewrite utf8_step4; rewrite ?u8_byte_of_small by lia; try lia.
    rewrite (digit_bits x3 240 8), (digit_bits x2 128 64), (digit_bits x1 128 64), (digit_bits x0 128 64)
      by (lia || done).
    do 2 f_equal. lia.
Qed.

Lemma from_utf8_encoded cs : Forall (fun c => is_scalar c = true) cs -> from_utf8 (encode_utf8 cs) = Some cs.
Proof.
  unfold from_utf8, encode_utf8. induction 1 as [|c cs Hc _ IH]; [done|].
  cbn [fmap list_fmap concat]. rewrite utf8_chunks_encoded by done. cbn [mapM]. rewrite IH. done.
Qed.

Lemma decode_encode_utf8 cs tail :
  Forall (λ c, is_scalar c = true) cs -> Forall (λ c, c <> 0) cs -> ends_text tail ->
  decode (encode_utf8 cs ++ tail) = (cs, encode_utf8 cs).
Proof.
  intros Hs Hnz Htail. induction cs as [|c cs IH]; [by rewrite decode_ends|].
  apply Forall_cons_1 in Hs as [Hc Hs]. apply Forall_cons_1 in Hnz as [Hz Hnz].
  unfold encode_utf8. cbn [fmap list_fmap concat]. rewrite <- app_assoc.
  rewrite decode_encoded_scalar, push_scalar_valid by
    (done || (unfold is_scalar in Hc; apply orb_true_iff in Hc;
       rewrite !andb_true_iff, !Z.leb_le, Z.ltb_lt in Hc; lia)).
  fold (encode_utf8 cs). rewrite IH by done. done.
Qed.

(** Every character the lenient decoder produces is one a Rust [char] holds. *)
Lemma push_scalar_scalar c p :
  0 <= c -> Forall (λ c, is_scalar c = true) p.1 ->
  Forall (λ c, is_scalar c = true) (push_scalar c p).1.
Proof.
  intros Hc Hp. unfold push_scalar. destruct (Z.ltb_spec 0x10ffff c); [done|]. simpl.
  constructor; [|done]. unfold is_scalar.
  destruct (Z.leb_spec 0xd800 c), (Z.leb_spec c 0xdfff); cbn [andb]; decide_cmp; try done.
Qed.

Lemma decode_scalars bytes : Forall (λ c, is_scalar c = true) (decode bytes).1.
Proof.
  induction bytes as [bytes IH] using (induction_ltof1 _ (@length byte)); unfold ltof in IH.
  destruct bytes as [|b bytes]; [constructor|].
  assert (Hcont : forall x, 0 <= cont_bits x) by (intros x; apply cont_bits_range).
  assert (Hu : 0 <= u8 b) by apply u8_range.
  assert (Hbits : forall m, 0 <= Z.land (u8 b) m) by (intros m; apply Z.land_nonneg; lia).
  cbn [decode_utf8_prefix_until_nul_with_encoded_bytes].
  repeat case_match; subst; try constructor;
    (apply push_scalar_scalar; [|apply IH; simpl; lia]);
    repeat (apply Z.lor_nonneg; split); rewrite ?Z.shiftl_nonneg; auto.
Qed.

(** * Properties *)

(** Where the standard strict decoder
    accepts a field without NUL, the lenient decoder of header names returns
    the same characters and re-encodes them to the same bytes, and it ignores
    everything from the first NUL byte on. *)
Theorem lenient_decoder_extends_utf8 (bytes tail : list byte) (text : ustring) :
  from_utf8 bytes = Some text -> Forall (λ c, c <> 0) text -> ends_text tail ->
  decode_utf8_prefix_until_nul_with_encoded_bytes (bytes ++ tail) = (text, bytes).
Proof.
  intros [-> Hs]%from_utf8_encode Hnz Htail. by apply decode_encode_utf8.
Qed.

Lemma lenient_decoder_extends_utf8_witness :
  decode_utf8_prefix_until_nul_with_encoded_bytes ([x61; xc3; xa9] ++ [x00; xff]) =
    ([0x61; 0xe9], [x61; xc3; xa9]).
Proof.
  apply lenient_decoder_extends_utf8; [reflexivity| |right; reflexivity].
  repeat constructor; discriminate.
Defined.
