(* ===== verification/Text.v ===== *)
(** Text: what the code uses of Rust's [str] and [String] beyond the list of
    scalar values a text is: its literals, numbers written by [format!], the
    bytes of its UTF-8 encoding, slices at a byte position, [replace] of a
    character and [split] at one. *)
From Stdlib Require Import Strings.String Numbers.DecimalString.
From stdpp Require Import sets.
From S2P Require Import Prelude RarTypes Utf8.

(** What [format!] writes: its literal text and its numbers. *)
Definition text (s : String.string) : ustring := u8 <$> String.list_byte_of_string s.
Definition decimal (n : nat) : ustring := text (NilZero.string_of_uint (Nat.to_uint n)).

(** [as_bytes]. *)
Definition as_bytes (s : ustring) : list byte := encode_utf8 s.

(** [&s[n..]] panics inside a character. *)
Fixpoint str_from {E} (s : ustring) (n : nat) : outcome E ustring :=
  match n with
  | O => Ok s
  | _ =>
    match s with
    | [] => Panic
    | c :: s => let width := length (append_lenient_utf8 c) in if (n <? width)%nat then Panic else str_from s (n - width)
    end
  end.

Definition replace_char (a b : Z) (s : ustring) : ustring := (fun c => if c =? a then b else c) <$> s.

(** [split(sep)]: a part more than separators. *)
Fixpoint split_at (sep : Z) (s : ustring) : list ustring :=
  match s with
  | [] => [[]]
  | c :: s =>
    if c =? sep then [] :: split_at sep s
    else match split_at sep s with part :: parts => (c :: part) :: parts | [] => [[c]] end
  end.
(** Parts with a separator between them. *)
Fixpoint join (sep : Z) (parts : list ustring) : ustring :=
  match parts with
  | [] => []
  | [part] => part
  | part :: parts => part ++ sep :: join sep parts
  end.
(** [split_once(sep)], the part before. *)
Fixpoint before (sep : Z) (s : ustring) : ustring :=
  match s with [] => [] | c :: s => if c =? sep then [] else c :: before sep s end.

(** ** Encoding *)

Lemma as_bytes_nil : as_bytes [] = [].
Proof. done. Qed.
Lemma as_bytes_cons c s : as_bytes (c :: s) = append_lenient_utf8 c ++ as_bytes s.
Proof. done. Qed.
Lemma as_bytes_app s t : as_bytes (s ++ t) = as_bytes s ++ as_bytes t.
Proof. unfold as_bytes, encode_utf8. by rewrite fmap_app, concat_app. Qed.

Definition scalars (s : ustring) : Prop := Forall (fun c => is_scalar c = true) s.
#[export] Hint Unfold scalars : core.

(** A character is one byte below 128, or more bytes that are all above. *)
Lemma encoded_char c : is_scalar c = true ->
  (c < 128 /\ append_lenient_utf8 c = [byte_of c] /\ u8 (byte_of c) = c) \/
  (128 <= c /\ append_lenient_utf8 c <> [] /\ Forall (fun b => 128 <= u8 b) (append_lenient_utf8 c)).
Proof.
  unfold is_scalar. intros Hc. assert (0 <= c <= 0x10ffff) by lia. rewrite append_lenient_spec.
  destruct (Z.leb_spec c 0x7f).
  - left. split; [lia|]. split; [done|]. apply u8_byte_of_small. lia.
  - right. split; [lia|]. repeat case_match; try lia; (split; [done|]); repeat constructor; rewrite u8_byte_of_small by (Z.div_mod_to_equations; lia); Z.div_mod_to_equations; lia.
Qed.
Lemma encoded_width c : is_scalar c = true -> (0 < length (append_lenient_utf8 c))%nat.
Proof. intros [(_ & -> & _)|(_ & H & _)]%encoded_char; [cbn; lia|]. destruct (append_lenient_utf8 c); [done | cbn; lia]. Qed.

(** A position in front of a character, or behind the last one. *)
Definition boundary (s : ustring) (n : nat) : Prop := exists s1 s2, s = s1 ++ s2 /\ n = length (as_bytes s1).

Lemma str_from_at {E} s1 s2 : scalars s1 -> str_from (E := E) (s1 ++ s2) (length (as_bytes s1)) = Ok s2.
Proof.
  induction 1 as [|c s Hc Hs IH]; [by destruct s2|]. rewrite as_bytes_cons, length_app. pose proof (encoded_width c Hc).
  destruct (length (append_lenient_utf8 c)) as [|w] eqn:Hw; [lia|]. cbn [app plus]. cbn [str_from]. rewrite Hw.
  rewrite (proj2 (Nat.ltb_ge _ _)) by lia. replace (S (w + length (as_bytes s)) - S w)%nat with (length (as_bytes s)) by lia. exact IH.
Qed.

(** The positions behind an ASCII byte are boundaries. *)
Lemma behind_ascii s n b : scalars s -> as_bytes s !! n = Some b -> u8 b < 128 -> boundary s n /\ boundary s (S n).
Proof.
  intros Hs. revert n. induction Hs as [|c s Hc Hs IH]; intros n Hn Hb; [done|]. rewrite as_bytes_cons in Hn.
  destruct (decide (n < length (append_lenient_utf8 c))%nat) as [Hlt|Hge].
  - rewrite lookup_app_l in Hn by done. destruct (encoded_char c Hc) as [(Hlow & He & _)|(_ & _ & Hall)].
    + rewrite He in *. cbn in Hlt. assert (n = 0%nat) as -> by lia. split; [by exists [], (c :: s)|].
      exists [c], s. split; [done|]. by rewrite as_bytes_cons, He.
    + pose proof (list.Forall_lookup_1 _ _ _ _ Hall Hn). cbn in *. lia.
  - rewrite lookup_app_r in Hn by lia. destruct (IH _ Hn Hb) as [(s1 & s2 & E1 & H1) (t1 & t2 & E2 & H2)].
    split; [exists (c :: s1), s2; rewrite E1 at 1 | exists (c :: t1), t2; rewrite E2 at 1]; (split; [done|]); rewrite as_bytes_cons, length_app; lia.
Qed.
(** ** Splitting *)

Lemma split_nonempty sep s : split_at sep s <> [].
Proof. destruct s as [|c s]; [done|]. cbn. destruct (c =? sep); [done|]. by destruct (split_at sep s). Qed.

Lemma join_split_at sep s : join sep (split_at sep s) = s.
Proof.
  induction s as [|c s IH]; [done|]. cbn. pose proof (split_nonempty sep s). destruct (Z.eqb_spec c sep) as [->|].
  - destruct (split_at sep s); [done|]. cbn in *. by rewrite IH.
  - destruct (split_at sep s) as [|part [|part' parts]]; [done | |]; cbn in *; by rewrite IH.
Qed.

Lemma split_at_no_sep sep s : Forall (fun part => sep ∉ part) (split_at sep s).
Proof.
  induction s as [|c s IH]; [repeat constructor; by apply not_elem_of_nil|]. cbn. destruct (Z.eqb_spec c sep) as [->|Hne].
  - constructor; [by apply not_elem_of_nil | done].
  - destruct (split_at sep s) as [|part parts].
    + apply Forall_singleton. rewrite list_elem_of_singleton. congruence.
    + apply list.Forall_cons in IH as [Hpart IH]. apply list.Forall_cons. split; [|exact IH]. rewrite not_elem_of_cons. split; [congruence | exact Hpart].
Qed.

Lemma split_part sep s : sep ∉ s -> split_at sep s = [s].
Proof.
  induction s as [|c s IH]; intros Hs; [done|]. cbn. rewrite (proj2 (Z.eqb_neq _ _)) by set_solver. by rewrite IH by set_solver.
Qed.
Lemma split_at_app sep s t : sep ∉ s -> split_at sep (s ++ sep :: t) = s :: split_at sep t.
Proof.
  induction s as [|c s IH]; intros Hs; cbn; [by rewrite Z.eqb_refl|]. rewrite (proj2 (Z.eqb_neq _ _)) by set_solver. by rewrite IH by set_solver.
Qed.
Lemma split_at_join sep parts : parts <> [] -> Forall (fun part => sep ∉ part) parts -> split_at sep (join sep parts) = parts.
Proof.
  intros Hne Hall. induction Hall as [|part parts Hpart Hall IH]; [done|]. destruct parts as [|part' parts].
  - by apply split_part.
  - cbn [join]. rewrite split_at_app by done. f_equal. by apply IH.
Qed.

Lemma join_app sep l1 l2 : l1 <> [] -> l2 <> [] -> join sep (l1 ++ l2) = join sep l1 ++ sep :: join sep l2.
Proof.
  intros H1 H2. induction l1 as [|part l1 IH]; [done|]. destruct l1 as [|part' l1].
  - destruct l2; [done|]. reflexivity.
  - cbn [app join] in *. rewrite IH by done. by rewrite <- app_assoc.
Qed.

(** A part, with what is before and behind it. *)
Lemma split_parts sep s part : part ∈ split_at sep s -> exists s1 s2, s = s1 ++ part ++ s2 /\ (s1 = [] \/ exists t, s1 = t ++ [sep]) /\ (s2 = [] \/ exists t, s2 = sep :: t).
Proof.
  intros (l1 & l2 & E)%list_elem_of_split. rewrite <- (join_split_at sep s), E.
  assert (Htail : exists s2, join sep (part :: l2) = part ++ s2 /\ (s2 = [] \/ exists t, s2 = sep :: t)).
  { destruct l2 as [|part' l2]; [exists []; split; [by rewrite app_nil_r | by left] | exists (sep :: join sep (part' :: l2)); split; [done | right; by eexists]]. }
  destruct Htail as (s2 & Htail & H2). destruct (decide (l1 = [])) as [->|Hne].
  - exists [], s2. split; [exact Htail|]. split; [by left | exact H2].
  - exists (join sep l1 ++ [sep]), s2. rewrite join_app, Htail, <- app_assoc by done. split; [done|]. split; [right; by eexists | exact H2].
Qed.

Lemma replace_gone a b s : a <> b -> a ∉ replace_char a b s.
Proof. intros Hab (c & Hc & _)%list_elem_of_fmap. destruct (Z.eqb_spec c a); congruence. Qed.
Lemma replace_none a b s : a ∉ s -> replace_char a b s = s.
Proof. induction s as [|c s IH]; intros Hs; [done|]. unfold replace_char in *. cbn [fmap list_fmap]. rewrite IH, (proj2 (Z.eqb_neq _ _)) by set_solver. done. Qed.
Lemma replace_scalars a b s : is_scalar b = true -> scalars s -> scalars (replace_char a b s).
Proof. intros Hb Hs. apply list.Forall_fmap. refine (list.Forall_impl _ _ _ Hs _). intros c Hc. cbn. by destruct (c =? a). Qed.

Lemma before_gone sep s : sep ∉ before sep s.
Proof. induction s as [|c s IH]; cbn; [by apply not_elem_of_nil|]. destruct (Z.eqb_spec c sep); set_solver. Qed.
Lemma before_none sep s : sep ∉ s -> before sep s = s.
Proof. induction s as [|c s IH]; intros Hs; [done|]. cbn. rewrite (proj2 (Z.eqb_neq _ _)), IH by set_solver. done. Qed.
Lemma before_prefix sep s : before sep s `prefix_of` s.
Proof. induction s as [|c s IH]; cbn; [done|]. destruct (c =? sep); [apply prefix_nil | by apply prefix_cons]. Qed.
Lemma before_scalars sep s : scalars s -> scalars (before sep s).
Proof. intros Hs. destruct (before_prefix sep s) as (k & E). unfold scalars in *. rewrite E in Hs. by apply list.Forall_app in Hs as [? _]. Qed.
