(* ===== verification/Path.v ===== *)
(** Names from archives (path.rs, and the link targets of archive/member.rs):
    the path a member is extracted to, and the link targets that are accepted.
    [cfg_windows] is [cfg!(windows)] of the build. *)
From Stdlib Require Import Strings.String.
From S2P Require Import Prelude RarTypes Utf8 Text.
Local Open Scope nat_scope.

(** Unicode normalisation is a crate's. *)
Class UnicodeNormalization := nfc : ustring -> ustring.

(** The ASCII characters of the code. *)
Definition SLASH : Z := 0x2f.
Definition BACKSLASH : Z := 0x5c.
Definition COLON : Z := 0x3a.
Definition DOT : Z := 0x2e.
Definition SPACE : Z := 0x20.
Definition UNDERSCORE : Z := 0x5f.
Definition dot : ustring := [DOT].
Definition dot_dot : ustring := [DOT; DOT].

(** [bytes[i] == b], the position being tested first. *)
Definition byte_is (bytes : list byte) (i : nat) (b : byte) : bool := bool_decide (bytes !! i = Some b).

(** ** Where a path starts *)

(** The start behind the last "/../", or the end behind a final "/..". *)
Definition traversal (bytes : list byte) (i : nat) : bool :=
  byte_is bytes i x2f && (i + 2 <? length bytes) && byte_is bytes (i + 1) x2e && byte_is bytes (i + 2) x2e && ((i + 3 =? length bytes) || byte_is bytes (i + 3) x2f).
Definition after_traversals (bytes : list byte) : nat :=
  foldl (fun dest_pos i => if traversal bytes i then (if i + 3 =? length bytes then i + 3 else i + 4) else dest_pos) 0 (seq 0 (length bytes)).

(** The position behind the second slash of [rest], which starts at [j]. *)
Fixpoint unc_root (rest : list byte) (j slash_count : nat) : option nat :=
  match rest with
  | [] => None
  | byte :: rest =>
    if bool_decide (byte = x2f) then if slash_count + 1 =? 2 then Some (j + 1) else unc_root rest (j + 1) (slash_count + 1)
    else unc_root rest (j + 1) slash_count
  end.

(** The position behind the last slash of the dots and slashes [rest] starts with. *)
Fixpoint dots_and_slashes (rest : list byte) (j i : nat) : nat :=
  match rest with
  | [] => i
  | byte :: rest =>
    if bool_decide (byte = x2f) then dots_and_slashes rest (j + 1) (j + 1)
    else if negb (bool_decide (byte = x2e)) then i
    else dots_and_slashes rest (j + 1) i
  end.

Section start.
Context (bytes : list byte) (strip_drive_specs : bool).

(** A turn of the loop: a drive, a UNC root, dots and slashes. *)
Definition strip_prefixes (dest_pos : nat) : nat :=
  let i := if strip_drive_specs && byte_is bytes (dest_pos + 1) x3a then dest_pos + 2 else dest_pos in
  let i := if byte_is bytes i x2f && byte_is bytes (i + 1) x2f then default i (unc_root (drop (i + 2) bytes) (i + 2) 0) else i in
  dots_and_slashes (drop i bytes) i i.

Fixpoint strip_loop (fuel : nat) (dest_pos : nat) : result nat :=
  match fuel with
  | O => Panic
  | S fuel =>
    if dest_pos <? length bytes then
      let i := strip_prefixes dest_pos in
      if i =? dest_pos then Ok dest_pos else strip_loop fuel i
    else Ok dest_pos
  end.
End start.

Definition convert_path_start (path : ustring) (strip_drive_specs : bool) : result nat :=
  let bytes := as_bytes path in
  strip_loop bytes strip_drive_specs (S (length bytes)) (after_traversals bytes).

(** ** Names that Windows takes *)

Definition incompatible_char (ch : Z) : bool := (ch <? SPACE)%Z || bool_decide (ch ∈ text "?*<>|:" ++ [0x22%Z]).
Definition ends_with_dot_or_space (s : ustring) : bool := match list.last s with Some ch => (ch =? DOT)%Z || (ch =? SPACE)%Z | None => false end.
Definition is_dots (s : ustring) : bool := bool_decide (s = dot) || bool_decide (s = dot_dot).
(** [replace_range] of the last character. *)
Definition replace_last (ch : Z) (s : ustring) : ustring := removelast s ++ [ch].

Definition to_ascii_uppercase (s : ustring) : ustring := (fun ch => if (0x61 <=? ch)%Z && (ch <=? 0x7a)%Z then (ch - 32)%Z else ch) <$> s.
Definition is_ascii_digit (b : byte) : bool := (0x30 <=? u8 b)%Z && (u8 b <=? 0x39)%Z.
Definition starts_with (p s : ustring) : bool := bool_decide (p `prefix_of` s).

Definition windows_reserved_device_component (component : ustring) : bool :=
  let upper := to_ascii_uppercase component in
  bool_decide (upper ∈ [text "CON"; text "PRN"; text "AUX"; text "NUL"]) ||
  (length (as_bytes upper) =? 4) && (starts_with (text "COM") upper || starts_with (text "LPT") upper) &&
  match as_bytes upper !! 3 with Some b => is_ascii_digit b | None => false end.

Definition replace_incompatible (component : ustring) : ustring := (fun ch => if incompatible_char ch then UNDERSCORE else ch) <$> component.

Definition make_windows_component_compatible (component : ustring) : ustring :=
  let converted := replace_incompatible component in
  let converted := if negb (is_dots converted) && ends_with_dot_or_space converted then replace_last UNDERSCORE converted else converted in
  if windows_reserved_device_component converted then UNDERSCORE :: converted else converted.

Definition make_windows_member_name_compatible (path : ustring) : ustring := join SLASH (make_windows_component_compatible <$> split_at SLASH path).

Definition make_unix_windows_share_component_compatible (component : ustring) (has_following_separator : bool) : ustring :=
  let converted := replace_incompatible component in
  if has_following_separator && negb (is_dots converted) && ends_with_dot_or_space converted then replace_last UNDERSCORE converted else converted.

Fixpoint make_share_components (parts : list ustring) : list ustring :=
  match parts with
  | [] => []
  | part :: parts => make_unix_windows_share_component_compatible part (negb (bool_decide (parts = []))) :: make_share_components parts
  end.
Definition make_unix_windows_share_member_name_compatible (path : ustring) : ustring := join SLASH (make_share_components (split_at SLASH path)).

(** ** Sanitised paths *)

Definition sanitize_path (raw : ustring) : result ustring :=
  let cleaned := before 0 raw in
  let normalized := replace_char BACKSLASH SLASH cleaned in
  start ← convert_path_start normalized true;
  str_from normalized start.

Definition sanitize_file_redirection_path (cfg_windows : bool) (raw : ustring) : result ustring :=
  let cleaned := before 0 raw in
  let normalized := replace_char BACKSLASH SLASH cleaned in
  start ← convert_path_start normalized cfg_windows;
  str_from normalized start.

Definition is_windows (host_os : HostOs.t) : bool := match host_os with HostOs.Windows => true | _ => false end.
Definition is_unix_or_darwin (host_os : HostOs.t) : bool := match host_os with HostOs.Unix | HostOs.Darwin => true | _ => false end.

Definition sanitize_member_path_for_target `{UnicodeNormalization} (format : ArchiveFormat) (host_os : HostOs.t) (raw : ustring) (target_is_windows : bool) : result ustring :=
  let cleaned := before 0 raw in
  let converted :=
    match format with
    | RarTypes.Rar5 => if target_is_windows || is_windows host_os then replace_char BACKSLASH UNDERSCORE cleaned else cleaned
    | RarTypes.Rar4 | RarTypes.Rar14 => replace_char BACKSLASH SLASH cleaned
    end in
  start ← convert_path_start converted target_is_windows;
  sanitized ← str_from converted start;
  mret (if target_is_windows then
          let sanitized := replace_char COLON UNDERSCORE sanitized in
          let sanitized := if is_unix_or_darwin host_os then nfc sanitized else sanitized in
          make_windows_member_name_compatible sanitized
        else sanitized).

Definition sanitize_member_path `{UnicodeNormalization} (cfg_windows : bool) (format : ArchiveFormat) (host_os : HostOs.t) (raw : ustring) : result ustring :=
  sanitize_member_path_for_target format host_os raw cfg_windows.

(** ** Link targets *)

Definition normalize_backslash_for_path_check (path : ustring) (backslash_is_separator : bool) : ustring :=
  if backslash_is_separator then replace_char BACKSLASH SLASH path else path.

Definition is_ascii_alphabetic (b : byte) : bool := (0x61 <=? u8 b)%Z && (u8 b <=? 0x7a)%Z || (0x41 <=? u8 b)%Z && (u8 b <=? 0x5a)%Z.
Definition drive_letter (bytes : list byte) : bool := match bytes with b :: c :: _ => is_ascii_alphabetic b && bool_decide (c = x3a) | _ => false end.

Definition is_full_root_path (path : ustring) (windows_drive_is_root : bool) : bool :=
  starts_with [SLASH] path || windows_drive_is_root && drive_letter (as_bytes path).

(** [i32] arithmetic, in release builds. *)
Definition i32 (z : Z) : Z := ((z + 2 ^ 31) mod 2 ^ 32 - 2 ^ 31)%Z.

(** The change a slash at [i] makes; [None] for a doubled one. *)
Definition slash_depth (bytes : list byte) (i : nat) : option Z :=
  if byte_is bytes (i + 1) x2f then None
  else
    let dot := byte_is bytes (i + 1) x2e && ((i + 2 =? length bytes) || byte_is bytes (i + 2) x2f) in
    let dot2 := (i + 2 <? length bytes) && byte_is bytes (i + 1) x2e && byte_is bytes (i + 2) x2e && ((i + 3 =? length bytes) || byte_is bytes (i + 3) x2f) in
    Some (if dot2 then -1 else if negb dot then 1 else 0)%Z.
Fixpoint link_depth (bytes : list byte) (positions : list nat) (depth : Z) : Z :=
  match positions with
  | [] => Z.max depth 0
  | i :: positions =>
    if negb (byte_is bytes i x2f) then link_depth bytes positions depth
    else match slash_depth bytes i with None => 0%Z | Some change => link_depth bytes positions (i32 (depth + change)) end
  end.
Definition allowed_link_source_depth (member_path : ustring) : Z :=
  let bytes := as_bytes member_path in link_depth bytes (seq 0 (length bytes)) 0.

Definition target_parent_traversal_count (target : ustring) : Z := zlen (filter (fun component => component = dot_dot) (split_at SLASH target)).

Definition is_safe_link_target_inner (member_path target : ustring) (allow_windows_drive_relative member_backslash_is_separator target_backslash_is_separator member_windows_drive_is_root : bool) : bool :=
  let member_path := normalize_backslash_for_path_check member_path member_backslash_is_separator in
  if is_full_root_path member_path member_windows_drive_is_root then false
  else
    let target := normalize_backslash_for_path_check target target_backslash_is_separator in
    if starts_with [SLASH] target then false
    else if negb allow_windows_drive_relative && drive_letter (as_bytes target) then false
    else if bool_decide (0%Z ∈ target) then false
    else (target_parent_traversal_count target <=? allowed_link_source_depth member_path)%Z.

Definition is_safe_link_target (member_path target : ustring) : bool := is_safe_link_target_inner member_path target false true true true.

Definition is_safe_symlink_target_for_member (member_path raw_member_path target : ustring) (allow_windows_drive_relative : bool) : bool :=
  is_safe_link_target_inner member_path target allow_windows_drive_relative true true true &&
  is_safe_link_target_inner raw_member_path target allow_windows_drive_relative true true true.

Definition is_safe_symlink_target_for_archive_member_on_host (format : ArchiveFormat) (member_path raw_member_path target : ustring) (windows_host : bool) : bool :=
  let raw_member_backslash_is_separator := negb (bool_decide (format = RarTypes.Rar5)) in
  let allow_drive_relative := negb windows_host in
  is_safe_link_target_inner member_path target allow_drive_relative false false false &&
  is_safe_link_target_inner raw_member_path target allow_drive_relative raw_member_backslash_is_separator false false.

Definition is_safe_symlink_target_for_archive_member (cfg_windows : bool) (format : ArchiveFormat) (member_path raw_member_path target : ustring) : bool :=
  is_safe_symlink_target_for_archive_member_on_host format member_path raw_member_path target cfg_windows.

(** ** Redirections of a RAR5 member *)

Module RedirectionType.
Inductive t := UnixSymlink | WindowsSymlink | WindowsJunction | Hardlink | FileCopy | Unknown (value : Z).
Definition from (value : Z) : t :=
  match value with 1 => UnixSymlink | 2 => WindowsSymlink | 3 => WindowsJunction | 4 => Hardlink | 5 => FileCopy | other => Unknown other end%Z.
End RedirectionType.

Definition strip_prefix (p s : ustring) : option ustring := if starts_with p s then Some (drop (length p) s) else None.

Definition normalize_windows_redirection_target (target : ustring) : ustring :=
  let target :=
    match strip_prefix (text "\??\") target with
    | Some rest => rest
    | None => default target (strip_prefix (text "/??/") target)
    end in
  replace_char BACKSLASH SLASH target.

Definition normalized_rar5_redirection_target (cfg_windows : bool) (redir_type : RedirectionType.t) (target : ustring) : result ustring :=
  match redir_type with
  | RedirectionType.UnixSymlink => Ok target
  | RedirectionType.WindowsSymlink | RedirectionType.WindowsJunction => Ok (normalize_windows_redirection_target target)
  | RedirectionType.Hardlink | RedirectionType.FileCopy => sanitize_file_redirection_path cfg_windows target
  | RedirectionType.Unknown _ => Ok target
  end.

Definition link_target_has_parent_traversal (target : ustring) (backslash_is_separator : bool) : bool :=
  existsb (fun part => bool_decide (part = dot_dot)) (split_at SLASH (if backslash_is_separator then replace_char BACKSLASH SLASH target else target)).
