(* ===== verification/PathProps.v ===== *)
(** Sanitised paths: where a path starts, in bytes and in characters; what is
    left of it; and the names that Windows takes. *)
From stdpp Require Import sets.
From Stdlib Require Import Strings.String.
From S2P Require Import Prelude RarTypes Utf8 Text Path.

Local Open Scope nat_scope.

(** ** Where a path starts, in bytes *)

Section bytes.
Context (strip : bool).
Implicit Types (B : list byte) (d i j : nat).

(** The positions a path is cut at. *)
Definition cut_point B d : Prop := d = 0 \/ d = length B \/ (exists k, d = S k /\ B !! k = Some x2f) \/ (strip = true /\ exists k, d = S k /\ B !! k = Some x3a).

Lemma byte_is_true B i b : byte_is B i b = true <-> B !! i = Some b.
Proof. unfold byte_is. by rewrite bool_decide_eq_true. Qed.
Lemma byte_is_lt B i b : B !! i = Some b -> i < length B.
Proof. apply lookup_lt_Some. Qed.

Lemma traversal_spec B i : traversal B i = true <->
  B !! i = Some x2f /\ B !! (i + 1) = Some x2e /\ B !! (i + 2) = Some x2e /\ (i + 3 = length B \/ B !! (i + 3) = Some x2f).
Proof.
  unfold traversal. rewrite !andb_true_iff, orb_true_iff, !byte_is_true, Nat.eqb_eq, Nat.ltb_lt. split; [tauto|].
  intros (H1 & H2 & H3 & H4). pose proof (byte_is_lt _ _ _ H3). tauto.
Qed.

Lemma after_traversals_ok B : after_traversals B <= length B /\ cut_point B (after_traversals B) /\ forall i, after_traversals B <= i + 1 -> traversal B i = false.
Proof.
  unfold after_traversals.
  assert (Hfold : forall n, let d := foldl (fun dest i => if traversal B i then (if i + 3 =? length B then i + 3 else i + 4) else dest) 0 (seq 0 n) in
    d <= length B /\ cut_point B d /\ forall i, i < n -> d <= i + 1 -> traversal B i = false).
  { induction n as [|n IH]; [cbn; split; [lia|]; split; [by left | lia]|]. rewrite seq_S, foldl_app. cbn [foldl Nat.add].
    destruct (traversal B n) eqn:E.
    - apply traversal_spec in E as (H1 & H2 & H3 & H4). pose proof (byte_is_lt _ _ _ H3).
      destruct (Nat.eqb_spec (n + 3) (length B)) as [Hend|Hmore].
      + split; [lia|]. split; [right; left; lia|]. lia.
      + destruct H4 as [|H4]; [lia|]. pose proof (byte_is_lt _ _ _ H4). split; [lia|]. split; [|lia].
        right; right; left. exists (n + 3). split; [lia | exact H4].
    - destruct IH as (Hle & Hcut & Hnone). split; [exact Hle|]. split; [exact Hcut|]. intros i Hi Hd.
      destruct (decide (i = n)) as [->|]; [exact E | apply Hnone; lia]. }
  destruct (Hfold (length B)) as (Hle & Hcut & Hnone). split; [exact Hle|]. split; [exact Hcut|]. intros i Hd.
  destruct (decide (i < length B)) as [Hi|Hi]; [by apply Hnone|]. destruct (traversal B i) eqn:E; [|done].
  apply traversal_spec in E as (H1 & _). apply byte_is_lt in H1. lia.
Qed.

Lemma unc_root_ok B : forall rest j count p, rest = drop j B -> unc_root rest j count = Some p -> j < p <= length B /\ exists k, p = S k /\ B !! k = Some x2f.
Proof.
  induction rest as [|b rest IH]; intros j count p Hrest Hp; [done|]. cbn in Hp.
  assert (Hb : B !! j = Some b) by (rewrite <- (Nat.add_0_r j), <- lookup_drop, <- Hrest; done).
  assert (Hnext : rest = drop (j + 1) B) by (rewrite <- drop_drop, <- Hrest; done). pose proof (byte_is_lt _ _ _ Hb).
  case_bool_decide as Hs; [case_match|].
  - injection Hp as <-. split; [lia|]. exists j. rewrite Hb, Hs. split; [lia | done].
  - destruct (IH _ _ _ Hnext Hp) as [? ?]. split; [lia | done].
  - destruct (IH _ _ _ Hnext Hp) as [? ?]. split; [lia | done].
Qed.

Lemma dots_ok B : forall rest j i, rest = drop j B -> i <= j -> let r := dots_and_slashes rest j i in
  i <= r /\ (r = i \/ r <= length B /\ exists k, r = S k /\ B !! k = Some x2f).
Proof.
  induction rest as [|b rest IH]; intros j i Hrest Hi; [cbn; lia|]. cbn.
  assert (Hb : B !! j = Some b) by (rewrite <- (Nat.add_0_r j), <- lookup_drop, <- Hrest; done).
  assert (Hnext : rest = drop (j + 1) B) by (rewrite <- drop_drop, <- Hrest; done). pose proof (byte_is_lt _ _ _ Hb).
  case_bool_decide as Hs.
  - destruct (IH (j + 1) (j + 1) Hnext ltac:(lia)) as [Hle [Heq|Hmore]]; split; try lia; right; [|exact Hmore].
    rewrite Heq. split; [lia|]. exists j. rewrite Hb, Hs. split; [lia | done].
  - case_bool_decide as Hd; cbn [negb]; [|split; [lia | by left]]. exact (IH (j + 1) i Hnext ltac:(lia)).
Qed.
Lemma dots_slash rest j i : i <= j -> j + 1 <= dots_and_slashes (x2f :: rest) j i.
Proof. intros _. cbn. exact (proj1 (dots_ok (replicate (j + 1) x2f ++ rest) rest (j + 1) (j + 1) ltac:(by rewrite drop_app_length' by (by rewrite length_replicate)) ltac:(lia))). Qed.
Lemma dots_dot rest j i : dots_and_slashes (x2e :: rest) j i = dots_and_slashes rest (j + 1) i.
Proof. done. Qed.

Lemma strip_prefixes_ok B d : d < length B -> cut_point B d -> let i := strip_prefixes B strip d in
  d <= i <= length B /\ cut_point B i.
Proof.
  intros Hd Hcut. unfold strip_prefixes. set (i1 := if _ && byte_is B (d + 1) x3a then d + 2 else d).
  assert (H1 : d <= i1 <= length B /\ cut_point B i1).
  { unfold i1. destruct (strip && byte_is B (d + 1) x3a) eqn:Hc; [|split; [lia | done]]. apply andb_true_iff in Hc as [Hs Hc].
    apply byte_is_true in Hc. pose proof (byte_is_lt _ _ _ Hc). split; [lia|]. right; right; right. split; [done|]. exists (d + 1). split; [lia | done]. }
  clearbody i1. set (i2 := if byte_is B i1 x2f && byte_is B (i1 + 1) x2f then default i1 (unc_root (drop (i1 + 2) B) (i1 + 2) 0) else i1).
  assert (H2 : d <= i2 <= length B /\ cut_point B i2).
  { unfold i2. destruct (byte_is B i1 x2f && _); [|exact H1]. destruct (unc_root _ _ _) as [p|] eqn:Hp; [|exact H1].
    apply (unc_root_ok B) in Hp as [? ?]; [|done]. split; [cbn; lia|]. right; right; left. done. }
  destruct (dots_ok B (drop i2 B) i2 i2 eq_refl ltac:(lia)) as [Hle [->|[Hmore Hk]]]; [exact H2|]. split; [lia|]. right; right; left. done.
Qed.

(** A path nothing is stripped from. *)
Lemma stripped_fixed B d : strip_prefixes B strip d = d ->
  B !! d <> Some x2f /\ (B !! d = Some x2e -> B !! (d + 1) <> Some x2f) /\ (B !! d = Some x2e -> B !! (d + 1) = Some x2e -> B !! (d + 2) <> Some x2f) /\
  (strip = true -> B !! (d + 1) <> Some x3a).
Proof.
  unfold strip_prefixes. set (i1 := if _ && byte_is B (d + 1) x3a then d + 2 else d).
  set (i2 := if byte_is B i1 x2f && byte_is B (i1 + 1) x2f then default i1 (unc_root (drop (i1 + 2) B) (i1 + 2) 0) else i1). intros Hfix.
  assert (Hle : i2 <= dots_and_slashes (drop i2 B) i2 i2) by exact (proj1 (dots_ok B (drop i2 B) i2 i2 eq_refl ltac:(lia))).
  assert (Hle2 : i1 <= i2).
  { unfold i2. destruct (byte_is B i1 x2f && _); [|lia]. destruct (unc_root _ _ _) as [p|] eqn:Hp; [|cbn; lia]. apply (unc_root_ok B) in Hp as [? ?]; [cbn; lia | done]. }
  assert (Hle1 : d <= i1) by (unfold i1; destruct (strip && _); lia).
  assert (i1 = d) as E1 by lia. assert (i2 = d) as E2 by lia. rewrite E2 in Hfix. split_and!.
  - intros H. rewrite (drop_S _ _ _ H) in Hfix. pose proof (dots_slash (drop (S d) B) d d ltac:(lia)). lia.
  - intros Hd H. rewrite (drop_S _ _ _ Hd), dots_dot in Hfix. rewrite Nat.add_1_r in H, Hfix. rewrite (drop_S _ _ _ H) in Hfix. pose proof (dots_slash (drop (S (S d)) B) (S d) d ltac:(lia)). lia.
  - intros Hd Hd1 H. rewrite (drop_S _ _ _ Hd), dots_dot in Hfix. rewrite Nat.add_1_r in Hd1, Hfix. rewrite (drop_S _ _ _ Hd1), dots_dot in Hfix.
    replace (d + 2) with (S (S d)) in H by lia. replace (S d + 1) with (S (S d)) in Hfix by lia. rewrite (drop_S _ _ _ H) in Hfix. pose proof (dots_slash (drop (S (S (S d))) B) (S (S d)) d ltac:(lia)). lia.
  - intros Hs H. apply byte_is_true in H. unfold i1 in E1. rewrite Hs, H in E1. cbn in E1. lia.
Qed.

Lemma strip_loop_ok B : forall fuel d, length B - d < fuel -> d <= length B -> cut_point B d ->
  exists e, strip_loop B strip fuel d = Ok e /\ d <= e <= length B /\ cut_point B e /\ (e < length B -> strip_prefixes B strip e = e).
Proof.
  induction fuel as [|fuel IH]; intros d Hfuel Hle Hcut; [lia|]. cbn [strip_loop]. destruct (Nat.ltb_spec d (length B)) as [Hd|Hd].
  - destruct (strip_prefixes_ok B d Hd Hcut) as [Hi Hcuti]. destruct (Nat.eqb_spec (strip_prefixes B strip d) d) as [Heq|Hne].
    + exists d. split; [done|]. split; [lia|]. done.
    + destruct (IH (strip_prefixes B strip d) ltac:(lia) ltac:(lia) Hcuti) as (e & -> & He & Hrest). exists e. split; [done|]. split; [lia | exact Hrest].
  - exists d. split; [done|]. split; [lia|]. split; [done | lia].
Qed.

(** ** What is left starts where it starts *)

Lemma unc_root_shift a : forall rest j count, unc_root rest (a + j) count = (fun p => a + p) <$> unc_root rest j count.
Proof.
  induction rest as [|b rest IH]; intros j count; [done|]. cbn. rewrite <- !Nat.add_assoc, !IH. case_bool_decide; [|done]. by case_match.
Qed.
Lemma dots_shift a : forall rest j i, dots_and_slashes rest (a + j) (a + i) = a + dots_and_slashes rest j i.
Proof. induction rest as [|b rest IH]; intros j i; [done|]. cbn. rewrite <- !Nat.add_assoc, !IH. by repeat case_bool_decide. Qed.

Lemma byte_is_drop B d i b : byte_is (drop d B) i b = byte_is B (d + i) b.
Proof. unfold byte_is. by rewrite lookup_drop. Qed.
Lemma strip_prefixes_shift B d i : strip_prefixes B strip (d + i) = d + strip_prefixes (drop d B) strip i.
Proof.
  unfold strip_prefixes. rewrite !byte_is_drop, !Nat.add_assoc.
  set (i1 := if _ && byte_is B (d + i + 1) x3a then i + 2 else i).
  replace (if strip && byte_is B (d + i + 1) x3a then d + i + 2 else d + i) with (d + i1) by (unfold i1; destruct (strip && _); lia).
  rewrite ?byte_is_drop, ?Nat.add_assoc, ?drop_drop.
  replace (d + i1 + 2) with (d + (i1 + 2)) by lia. rewrite unc_root_shift.
  set (i2 := if byte_is B (d + i1) x2f && byte_is B (d + i1 + 1) x2f then default i1 (unc_root (drop (d + (i1 + 2)) B) (i1 + 2) 0) else i1).
  replace (if byte_is B (d + i1) x2f && byte_is B (d + i1 + 1) x2f then default (d + i1) ((fun p => d + p) <$> unc_root (drop (d + (i1 + 2)) B) (i1 + 2) 0) else d + i1) with (d + i2).
  - by rewrite dots_shift.
  - unfold i2. destruct (byte_is B (d + i1) x2f && _); [|done]. by destruct (unc_root _ _ _).
Qed.

Lemma traversal_drop B d i : d <= length B -> traversal (drop d B) i = traversal B (d + i).
Proof.
  intros Hd. unfold traversal. rewrite !byte_is_drop, length_drop, !Nat.add_assoc.
  replace (i + 2 <? length B - d) with (d + i + 2 <? length B) by (destruct (Nat.ltb_spec (d + i + 2) (length B)), (Nat.ltb_spec (i + 2) (length B - d)); lia).
  replace (i + 3 =? length B - d) with (d + i + 3 =? length B) by (destruct (Nat.eqb_spec (d + i + 3) (length B)), (Nat.eqb_spec (i + 3) (length B - d)); lia). done.
Qed.
Lemma no_traversals B : (forall i, traversal B i = false) -> after_traversals B = 0.
Proof. intros Hnone. unfold after_traversals. induction (seq 0 (length B)) as [|i l IH] using rev_ind; [done|]. rewrite foldl_app. cbn. by rewrite Hnone. Qed.
End bytes.

(** ** What a path promises *)

(** Where a walk along the parts of a path ends, in directories below the one
    it starts from; [None] if it leaves that directory. *)
Fixpoint walk (depth : nat) (parts : list ustring) : option nat :=
  match parts with
  | [] => Some depth
  | part :: parts =>
    if bool_decide (part = dot_dot) then match depth with O => None | S depth => walk depth parts end
    else if bool_decide (part = dot) || bool_decide (part = []) then walk depth parts
    else walk (S depth) parts
  end.

(** A path that starts with a name: no root, no "./" and no "..", unless it is
    ".." altogether. *)
Definition inside (s : ustring) : Prop :=
  (dot_dot ∈ split_at SLASH s -> s = dot_dot) /\
  (forall first rest, split_at SLASH s = first :: rest -> rest <> [] -> first <> [] /\ first <> dot).

Lemma walk_down : forall parts n, dot_dot ∉ parts -> exists m, walk n parts = Some m /\ n <= m.
Proof.
  induction parts as [|part parts IH]; intros n Hup; [by exists n|]. apply not_elem_of_cons in Hup as [Hpart Hparts]. cbn. rewrite bool_decide_false by congruence.
  destruct (_ || _); [by apply IH|]. destruct (IH (S n) Hparts) as (m & Hm & Hle). exists m. split; [exact Hm | lia].
Qed.
Lemma walk_inside s : inside s -> s = dot_dot \/ exists n, walk 0 (split_at SLASH s) = Some n.
Proof.
  intros [Hup _]. destruct (decide (dot_dot ∈ split_at SLASH s)) as [Hin|Hout]; [left; by apply Hup|]. right.
  destruct (walk_down _ 0 Hout) as (n & Hn & _). by exists n.
Qed.

Lemma inside_relative s : inside s -> head s <> Some SLASH.
Proof.
  intros [_ Hfirst] Hs. destruct s as [|c s]; [done|]. injection Hs as ->. cbn in Hfirst.
  by destruct (Hfirst [] (split_at SLASH s) eq_refl (split_nonempty _ _)).
Qed.

(** ** From bytes to texts *)

Lemma as_bytes_slash s : as_bytes (SLASH :: s) = x2f :: as_bytes s.  Proof. reflexivity. Qed.
Lemma as_bytes_colon s : as_bytes (COLON :: s) = x3a :: as_bytes s.  Proof. reflexivity. Qed.
Lemma as_bytes_dot s : as_bytes (DOT :: s) = x2e :: as_bytes s.  Proof. reflexivity. Qed.
Lemma as_bytes_up s : as_bytes (dot_dot ++ s) = x2e :: x2e :: as_bytes s.  Proof. reflexivity. Qed.

Lemma cut_boundary strip path d : scalars path -> cut_point strip (as_bytes path) d -> boundary path d.
Proof.
  intros Hs [->|[->|[(k & -> & Hk)|(_ & k & -> & Hk)]]].
  - by exists [], path.
  - exists path, []. by rewrite app_nil_r.
  - by apply (behind_ascii path k x2f Hs Hk).
  - by apply (behind_ascii path k x3a Hs Hk).
Qed.

Lemma scalars_app s1 s2 : scalars (s1 ++ s2) <-> scalars s1 /\ scalars s2.
Proof. apply list.Forall_app. Qed.

(** A text whose last byte is a colon. *)
Lemma ends_with_colon s k : scalars s -> length (as_bytes s) = S k -> as_bytes s !! k = Some x3a -> exists t, s = t ++ [COLON].
Proof.
  intros Hs Hk Hb. destruct s as [|c s _] using rev_ind; [done|]. exists s. apply scalars_app in Hs as [_ Hc]. apply list.Forall_cons in Hc as [Hc _].
  rewrite as_bytes_app in Hb, Hk. rewrite as_bytes_cons, as_bytes_nil, app_nil_r in Hb, Hk. rewrite length_app in Hk. pose proof (encoded_width c Hc).
  rewrite lookup_app_r in Hb by lia. destruct (encoded_char c Hc) as [(Hlow & E & Hval)|(_ & _ & Hall)].
  - rewrite E in *. cbn in Hk. replace (k - length (as_bytes s)) with 0 in Hb by lia. injection Hb as Hb. rewrite Hb in Hval. by rewrite <- Hval.
  - pose proof (list.Forall_lookup_1 _ _ _ _ Hall Hb) as Hx. cbn in Hx. lia.
Qed.

(** A part ".." shows in the bytes. *)
Lemma up_traverses s : dot_dot ∈ split_at SLASH s ->
  (exists i, traversal (as_bytes s) i = true) \/ s = dot_dot \/ exists s2, s = dot_dot ++ SLASH :: s2.
Proof.
  intros (s1 & s2 & -> & [->|(t & ->)] & H2)%split_parts.
  - right. destruct H2 as [->|(t & ->)]; [by left; rewrite app_nil_r | right; by exists t].
  - left. exists (length (as_bytes t)). apply traversal_spec. rewrite <- app_assoc, as_bytes_app. change ([SLASH] ++ dot_dot ++ s2) with (SLASH :: dot_dot ++ s2).
    rewrite as_bytes_slash, as_bytes_up, length_app, <- (Nat.add_0_r (length (as_bytes t))), !lookup_app_r by lia.
    replace (length (as_bytes t) + 0 - length (as_bytes t)) with 0 by lia.
    replace (length (as_bytes t) + 0 + 1 - length (as_bytes t)) with 1 by lia.
    replace (length (as_bytes t) + 0 + 2 - length (as_bytes t)) with 2 by lia.
    replace (length (as_bytes t) + 0 + 3 - length (as_bytes t)) with 3 by lia.
    split_and!; try done. destruct H2 as [->|(t' & ->)]; [left; cbn; lia | right; by rewrite as_bytes_slash].
Qed.

Lemma bytes_inside s : (forall i, traversal (as_bytes s) i = false) -> as_bytes s !! 0 <> Some x2f ->
  (as_bytes s !! 0 = Some x2e -> as_bytes s !! 1 <> Some x2f) -> (as_bytes s !! 0 = Some x2e -> as_bytes s !! 1 = Some x2e -> as_bytes s !! 2 <> Some x2f) -> inside s.
Proof.
  intros Hnone Hroot Hhere Hup. split.
  - intros [(i & Hi)|[Hs|(s2 & ->)]]%up_traverses; [by rewrite Hnone in Hi | done|]. by destruct (Hup eq_refl eq_refl).
  - intros first rest Hsplit Hrest. assert (Hs : s = first ++ SLASH :: join SLASH rest).
    { rewrite <- (join_split_at SLASH s), Hsplit. by destruct rest. }
    split; intros ->; rewrite Hs in *; [by destruct Hroot | by destruct (Hhere eq_refl)].
Qed.

(** ** The path behind its start *)

Section stripped.
Context (strip : bool) (path : ustring) (Hpath : scalars path).

Lemma stripped_ok : exists start s1 s2, convert_path_start path strip = Ok start /\ path = s1 ++ s2 /\ start = length (as_bytes s1) /\ str_from (E := rar_error) path start = Ok s2 /\
  scalars s2 /\ inside s2 /\ (strip = true -> forall c rest, (c < 128)%Z -> s2 <> c :: COLON :: rest) /\ convert_path_start s2 strip = Ok 0 /\
  (s2 = dot_dot -> s1 = [] \/ strip = true /\ exists t, s1 = t ++ [COLON]).
Proof using Hpath.
  destruct (after_traversals_ok strip (as_bytes path)) as (Hle & Hcut & Hnone).
  destruct (strip_loop_ok strip (as_bytes path) (S (length (as_bytes path))) _ ltac:(lia) Hle Hcut) as (e & Hrun & He & Hcute & Hfix).
  destruct (cut_boundary strip path e Hpath Hcute) as (s1 & s2 & Heq & Hlen).
  pose proof Hpath as Hsplit. rewrite Heq in Hsplit. apply scalars_app in Hsplit as [Hs1 Hs2]. exists e, s1, s2.
  assert (Hrest : drop e (as_bytes path) = as_bytes s2) by (by rewrite Heq, as_bytes_app, Hlen, drop_app_length).
  assert (Hnone2 : forall i, traversal (as_bytes s2) i = false) by (intros i; rewrite <- Hrest, traversal_drop by lia; apply Hnone; lia).
  assert (Hfixed : as_bytes s2 <> [] -> strip_prefixes (as_bytes s2) strip 0 = 0).
  { intros Hne. assert (He2 : e < length (as_bytes path)) by (rewrite <- Hrest in Hne; destruct (decide (e < length (as_bytes path))); [done|]; by rewrite drop_ge in Hne by lia).
    pose proof (strip_prefixes_shift strip (as_bytes path) e 0) as Hshift. rewrite Nat.add_0_r, (Hfix He2), Hrest in Hshift. lia. }
  assert (Hfacts : as_bytes s2 = [] \/ strip_prefixes (as_bytes s2) strip 0 = 0) by (destruct (as_bytes s2); [by left | right; by apply Hfixed]).
  assert (Hinside : inside s2).
  { destruct Hfacts as [Hnil|(H1 & H2 & H3 & _)%stripped_fixed]; [|by apply bytes_inside]. apply bytes_inside; [exact Hnone2 | by rewrite Hnil ..]. }
  split_and!; try done.
  - subst e. rewrite Heq at 1. by apply str_from_at.
  - intros Hs c rest Hc ->. destruct Hfacts as [Hnil|(_ & _ & _ & H4)%stripped_fixed].
    + rewrite as_bytes_cons in Hnil. apply app_eq_nil in Hnil as [_ Hnil]. done.
    + apply list.Forall_cons in Hs2 as [Hsc _]. destruct (encoded_char c Hsc) as [(_ & E & _)|(Hhigh & _)]; [|lia].
      apply (H4 Hs). by rewrite as_bytes_cons, E.
  - unfold convert_path_start. rewrite (no_traversals _ Hnone2). cbn [strip_loop]. destruct (Nat.ltb_spec 0 (length (as_bytes s2))) as [Hne|Hnil]; [|done].
    rewrite Hfixed; [done|]. intros E. rewrite E in Hne. cbn in Hne. lia.
  - intros ->. destruct Hcute as [->|[->|[(k & Hk & Hb)|(Hs & k & Hk & Hb)]]].
    + left. destruct s1 as [|c s1]; [done|]. apply list.Forall_cons in Hs1 as [Hc _]. rewrite as_bytes_cons, length_app in Hlen. pose proof (encoded_width c Hc). lia.
    + rewrite Heq, as_bytes_app, length_app in Hlen. cbn in Hlen. lia.
    + exfalso. assert (Htrav : traversal (as_bytes path) k = true); [|rewrite Hnone in Htrav; [done | lia]].
      apply traversal_spec. split; [exact Hb|]. rewrite <- (Nat.add_1_r k) in Hk. rewrite <- Hk.
      replace (k + 2) with (e + 1) by lia. replace (k + 3) with (e + 2) by lia.
      rewrite <- (Nat.add_0_r e) at 1. rewrite <- !lookup_drop, Hrest. split; [done|]. split; [done|]. left.
      apply (f_equal length) in Hrest. rewrite length_drop in Hrest. cbn in Hrest. lia.
    + right. split; [exact Hs|]. apply (ends_with_colon s1 k Hs1); [lia|]. rewrite Heq, as_bytes_app, lookup_app_l in Hb by lia. exact Hb.
Qed.
End stripped.

(** * Sanitised names: they stay inside, and Windows takes them. *)

Local Open Scope nat_scope.

(** ** Changing a path part by part *)

(** A change of parts that keeps the empty one, "." and "..". *)
Record keeps_dots (f : ustring -> ustring) : Prop := {
  kd_nil c : f c = [] <-> c = [];
  kd_dot c : f c = dot <-> c = dot;
  kd_up c : f c = dot_dot <-> c = dot_dot }.

Lemma inside_parts f s t : keeps_dots f -> split_at SLASH t = f <$> split_at SLASH s -> inside s -> inside t.
Proof.
  intros [Hnil Hdot Hup] Hsplit [Hin Hfirst]. unfold inside. rewrite Hsplit. split.
  - intros (c & Hc & Hmem)%list_elem_of_fmap. symmetry in Hc. apply Hup in Hc as ->. rewrite (Hin Hmem) in Hsplit.
    change (fmap f (split_at SLASH dot_dot)) with [f dot_dot] in Hsplit. by rewrite <- (join_split_at SLASH t), Hsplit, (proj2 (Hup dot_dot) eq_refl).
  - intros first rest. destruct (split_at SLASH s) as [|c cs] eqn:E; [done|]. cbn. intros [= <- <-] Hne.
    destruct (Hfirst c cs eq_refl) as [H1 H2]; [by destruct cs|]. by rewrite Hnil, Hdot.
Qed.

Lemma keeps_dots_compose f g : keeps_dots f -> keeps_dots g -> keeps_dots (fun c => f (g c)).
Proof. intros [F1 F2 F3] [G1 G2 G3]. split; intros c; [rewrite F1 | rewrite F2 | rewrite F3]; done. Qed.

(** A change of characters. *)
Lemma map_dots (f : Z -> Z) : (forall c, f c = DOT <-> c = DOT) -> keeps_dots (fmap f : ustring -> ustring).
Proof.
  intros Hf. split; intros c.
  - by destruct c.
  - destruct c as [|a [|b c]]; cbn; (split; [intros [=] | intros [=]]); try done; subst; cbn; unfold dot; f_equal; by apply Hf.
  - destruct c as [|a [|b [|d c]]]; cbn; (split; [intros [=] | intros [=]]); try done; subst; cbn; unfold dot_dot; repeat f_equal; by apply Hf.
Qed.
Lemma map_split (f : Z -> Z) sep (s : ustring) : (forall c, f c = sep <-> c = sep) -> split_at sep (f <$> s) = (fmap f : ustring -> ustring) <$> split_at sep s.
Proof.
  intros Hf. induction s as [|c s IH]; [done|]. rewrite fmap_cons. cbn [split_at]. rewrite IH.
  replace (f c =? sep)%Z with (c =? sep)%Z by (destruct (Z.eqb_spec c sep) as [H|H], (Z.eqb_spec (f c) sep) as [H'|H']; rewrite Hf in H'; done).
  destruct (c =? sep)%Z; [done|]. by destruct (split_at sep s).
Qed.

Lemma colon_dots c : (if (c =? COLON)%Z then UNDERSCORE else c) = DOT <-> c = DOT.
Proof. destruct (Z.eqb_spec c COLON) as [->|]; done. Qed.
Lemma colon_slash c : (if (c =? COLON)%Z then UNDERSCORE else c) = SLASH <-> c = SLASH.
Proof. destruct (Z.eqb_spec c COLON) as [->|]; done. Qed.
Lemma incompatible_dots c : (if incompatible_char c then UNDERSCORE else c) = DOT <-> c = DOT.
Proof. destruct (incompatible_char c) eqn:E; split; intros Hc; try done. by rewrite Hc in E. Qed.

(** ** Components on Windows *)

(** What no file on Windows may be called. *)
Definition usable_component (c : ustring) : Prop :=
  Forall (fun ch => incompatible_char ch = false) c /\ windows_reserved_device_component c = false /\ (is_dots c = true \/ ends_with_dot_or_space c = false).

Lemma replace_last_snoc ch s c : replace_last ch (s ++ [c]) = s ++ [ch].
Proof. unfold replace_last. by rewrite removelast_last. Qed.
Lemma ends_snoc s : ends_with_dot_or_space s = true -> exists s' c, s = s' ++ [c].
Proof. unfold ends_with_dot_or_space. destruct s as [|c s _] using rev_ind; [done|]. intros _. by exists s, c. Qed.
Lemma ends_last s c : ends_with_dot_or_space (s ++ [c]) = (c =? DOT)%Z || (c =? SPACE)%Z.
Proof. unfold ends_with_dot_or_space. by rewrite last_snoc. Qed.

(** The two steps behind the replacement of characters. *)
Definition unspaced (s : ustring) : ustring := if negb (is_dots s) && ends_with_dot_or_space s then replace_last UNDERSCORE s else s.
Definition undeviced (s : ustring) : ustring := if windows_reserved_device_component s then UNDERSCORE :: s else s.
Lemma component_steps c : make_windows_component_compatible c = undeviced (unspaced (replace_incompatible c)).
Proof. done. Qed.

Lemma unspaced_cases s : unspaced s = s \/ exists s', is_dots s = false /\ unspaced s = s' ++ [UNDERSCORE] /\ exists c, s = s' ++ [c].
Proof.
  unfold unspaced. destruct (negb (is_dots s) && ends_with_dot_or_space s) eqn:E; [|by left]. right.
  apply andb_true_iff in E as [Hd (s' & c & ->)%ends_snoc]. exists s'. rewrite replace_last_snoc. split; [by destruct (is_dots _)|]. split; [done | by exists c].
Qed.

Lemma dots_list s : is_dots s = true <-> s = dot \/ s = dot_dot.
Proof. unfold is_dots. by rewrite orb_true_iff, !bool_decide_eq_true. Qed.

Lemma unspaced_dots : keeps_dots unspaced.
Proof.
  assert (Hsame : forall s t, t = dot \/ t = dot_dot -> unspaced s = t <-> s = t).
  { intros s t Ht. destruct (unspaced_cases s) as [->|(s' & Hd & -> & c & ->)]; [done|]. split; intros H.
    - exfalso. destruct Ht as [->| ->]; [by apply (app_inj_tail s' [] _ DOT) in H as [_ [=]] | by apply (app_inj_tail s' [DOT] _ DOT) in H as [_ [=]]].
    - rewrite H in Hd. by rewrite (proj2 (dots_list t) Ht) in Hd. }
  split; intros s; [|apply Hsame; by left | apply Hsame; by right].
  destruct (unspaced_cases s) as [->|(s' & _ & -> & c & ->)]; [done|]. split; intros H; by destruct s'.
Qed.
Lemma undeviced_dots : keeps_dots undeviced.
Proof.
  split; intros s; unfold undeviced; destruct (windows_reserved_device_component s) eqn:E; split; intros H; try done; by rewrite H in E.
Qed.
Lemma component_dots : keeps_dots make_windows_component_compatible.
Proof.
  exact (keeps_dots_compose undeviced _ undeviced_dots (keeps_dots_compose unspaced _ unspaced_dots (map_dots _ incompatible_dots))).
Qed.

(** No character becomes a separator. *)
Lemma component_no_slash c : SLASH ∉ c -> SLASH ∉ make_windows_component_compatible c.
Proof.
  intros Hc. rewrite component_steps.
  assert (H1 : SLASH ∉ replace_incompatible c).
  { intros (ch & Hch & Hin)%list_elem_of_fmap. destruct (incompatible_char ch); [discriminate Hch | by rewrite <- Hch in Hin]. }
  assert (H2 : SLASH ∉ unspaced (replace_incompatible c)).
  { destruct (unspaced_cases (replace_incompatible c)) as [->|(s' & _ & -> & ch & E)]; [done|]. rewrite E in H1.
    rewrite elem_of_app in *. intros [H|H]; [tauto|]. apply list_elem_of_singleton in H. done. }
  unfold undeviced. destruct (windows_reserved_device_component _); [|exact H2]. rewrite elem_of_cons. intros [|]; done.
Qed.

Lemma reserved_underscore s : windows_reserved_device_component (UNDERSCORE :: s) = false.
Proof.
  unfold windows_reserved_device_component. set (upper := to_ascii_uppercase _). assert (E : upper = UNDERSCORE :: to_ascii_uppercase s) by done.
  apply orb_false_iff. split.
  - apply bool_decide_eq_false. rewrite E. intros H. repeat (apply elem_of_cons in H as [H|H]; [discriminate H|]). by apply not_elem_of_nil in H.
  - unfold starts_with. rewrite !(bool_decide_eq_false_2 (_ `prefix_of` upper)); [by rewrite andb_false_r|..]; rewrite E; intros (k & H); discriminate H.
Qed.

Lemma component_usable c : usable_component (make_windows_component_compatible c).
Proof.
  rewrite component_steps. set (r := replace_incompatible c).
  assert (H0 : Forall (fun ch => incompatible_char ch = false) r).
  { unfold r, replace_incompatible. apply list.Forall_fmap, list.Forall_true. intros ch. cbn. by destruct (incompatible_char ch) eqn:E. }
  assert (H1 : Forall (fun ch => incompatible_char ch = false) (unspaced r) /\ (is_dots (unspaced r) = true \/ ends_with_dot_or_space (unspaced r) = false)).
  { destruct (unspaced_cases r) as [E|(s' & _ & E & ch & Er)].
    - rewrite E. split; [exact H0|]. revert E. unfold unspaced. destruct (is_dots r) eqn:Hd; [by left|]. right. destruct (ends_with_dot_or_space r) eqn:He; [|done].
      exfalso. cbn in E. destruct (ends_snoc r He) as (s' & ch & Hr). rewrite Hr, replace_last_snoc in E. apply app_inj_tail in E as [_ E].
      rewrite Hr, ends_last in He. by rewrite <- E in He.
    - rewrite E. split; [|right; by rewrite ends_last]. rewrite Er in H0. apply list.Forall_app in H0 as [H0 _]. apply list.Forall_app. split; [exact H0|]. by repeat constructor. }
  destruct H1 as [Hchars Hends]. unfold undeviced. destruct (windows_reserved_device_component (unspaced r)) eqn:Hdev; [|done].
  split; [by constructor|]. split; [apply reserved_underscore|]. right. destruct Hends as [[Hd|Hd]%dots_list|Hends]; [by rewrite Hd in Hdev ..|].
  destruct (unspaced r) as [|ch s _] using rev_ind; [done|]. change (UNDERSCORE :: s ++ [ch]) with ((UNDERSCORE :: s) ++ [ch]). by rewrite ends_last in *.
Qed.

(** A name made compatible, part by part. *)
Lemma compatible_split path : split_at SLASH (make_windows_member_name_compatible path) = make_windows_component_compatible <$> split_at SLASH path.
Proof.
  apply split_at_join.
  - pose proof (split_nonempty SLASH path). by destruct (split_at SLASH path).
  - apply list.Forall_fmap. refine (list.Forall_impl _ _ _ (split_at_no_sep SLASH path) _). intros c Hc. by apply component_no_slash.
Qed.
