(* ===== verification/PathSafety.v ===== *)
(** Members and accepted links stay under the directory extracted to. *)
From Stdlib Require Import Strings.String.
From stdpp Require Import sets.
From S2P Require Import Prelude RarTypes Utf8 Text Path PathProps.

Local Open Scope nat_scope.

(** What is relied on of Unicode normalisation: a slash is never part of a
    composition, and nothing else composes to dots. *)
Class NormalizationLaws `{UnicodeNormalization} := {
  nfc_split s : split_at SLASH (nfc s) = nfc <$> split_at SLASH s;
  nfc_dots : keeps_dots nfc }.

(** ** Sanitised paths *)

(** A path to create under a directory: it does not start at a root or a drive,
    holds no NUL, and a walk along its parts never leaves the directory. The
    path ".." alone is the exception. *)
Definition safe_path (drives : bool) (s : ustring) : Prop :=
  (s = dot_dot \/ exists n, walk 0 (split_at SLASH s) = Some n) /\ head s <> Some SLASH /\ (0%Z ∉ s) /\
  (drives = true -> forall c rest, (c < 128)%Z -> s <> c :: COLON :: rest).

Lemma part_of sep s ch : ch ∈ s -> ch <> sep -> exists part, part ∈ split_at sep s /\ ch ∈ part.
Proof.
  intros Hin Hne. induction s as [|c s IH]; [by apply not_elem_of_nil in Hin|]. cbn. apply elem_of_cons in Hin as [<-|Hin].
  - rewrite (proj2 (Z.eqb_neq _ _) Hne). destruct (split_at sep s) as [|part parts]; eexists; split; by left.
  - destruct (IH Hin) as (part & Hpart & Hch). destruct (c =? sep)%Z; [exists part; split; [by right | done]|].
    destruct (split_at sep s) as [|first parts]; [by apply not_elem_of_nil in Hpart|].
    apply elem_of_cons in Hpart as [->|Hpart]; [exists (c :: first); split; [by left | by right] | exists part; split; [by right | done]].
Qed.

(** The start of a path and the path from there. *)
Definition stripped (strip : bool) (path : ustring) : result ustring := start ← convert_path_start path strip; str_from path start.

Lemma stripped_safe strip path : scalars path -> (0%Z ∉ path) -> exists s, stripped strip path = Ok s /\ safe_path strip s /\ inside s /\ scalars s /\
  (s `suffix_of` path) /\ stripped strip s = Ok s /\ (s = dot_dot -> path = dot_dot \/ strip = true /\ exists t, path = t ++ COLON :: dot_dot).
Proof.
  intros Hs Hnul. destruct (stripped_ok strip path Hs) as (start & s1 & s & Hstart & -> & _ & Hrun & Hs2 & Hin & Hdrive & Hagain & Hup). exists s.
  split; [by unfold stripped; rewrite Hstart|]. split.
  { split; [by apply walk_inside|]. split; [by apply inside_relative|]. split; [|exact Hdrive]. rewrite elem_of_app in Hnul. tauto. }
  split; [exact Hin|]. split; [exact Hs2|]. split; [by exists s1|]. split; [by unfold stripped; rewrite Hagain; destruct s|].
  intros ->. destruct (Hup eq_refl) as [->|(Ht & t & ->)]; [by left|]. right. split; [exact Ht|]. exists t. by rewrite <- app_assoc.
Qed.

Lemma suffix_elem {A} (s path : list A) ch : (s `suffix_of` path) -> ch ∉ path -> ch ∉ s.
Proof. intros (k & ->). rewrite elem_of_app. tauto. Qed.
Lemma replaced_nul a b s : b <> 0%Z -> (0%Z ∉ s) -> 0%Z ∉ replace_char a b s.
Proof. intros Hb Hs (c & Hc & Hin)%list_elem_of_fmap. destruct (c =? a)%Z; congruence. Qed.

(** What a path is before it is cut. *)
Definition separated (raw : ustring) : ustring := replace_char BACKSLASH SLASH (before 0 raw).
Lemma separated_ok raw : scalars raw -> scalars (separated raw) /\ (0%Z ∉ separated raw) /\ BACKSLASH ∉ separated raw.
Proof.
  intros Hs. split; [by apply replace_scalars, before_scalars|]. split; [by apply replaced_nul, before_gone | by apply replace_gone].
Qed.

Definition member_converted (format : ArchiveFormat) (host_os : HostOs.t) (raw : ustring) (windows : bool) : ustring :=
  match format with
  | RarTypes.Rar5 => if windows || is_windows host_os then replace_char BACKSLASH UNDERSCORE (before 0 raw) else before 0 raw
  | RarTypes.Rar4 | RarTypes.Rar14 => replace_char BACKSLASH SLASH (before 0 raw)
  end.
Lemma member_converted_ok format host_os raw windows : scalars raw -> scalars (member_converted format host_os raw windows) /\ (0%Z ∉ member_converted format host_os raw windows).
Proof.
  intros Hs. pose proof (before_scalars 0 raw Hs). pose proof (before_gone 0 raw).
  unfold member_converted. destruct format; [| |destruct (windows || is_windows host_os)]; (split; [by try apply replace_scalars | by try apply replaced_nul]).
Qed.

Section members.
Context `{Hlaws : NormalizationLaws}.

(** The name on Windows: without drives, normalised, made compatible. *)
Definition windows_name (host_os : HostOs.t) (s : ustring) : ustring :=
  let s := replace_char COLON UNDERSCORE s in
  make_windows_member_name_compatible (if is_unix_or_darwin host_os then nfc s else s).

Lemma windows_name_split host_os s : exists f, keeps_dots f /\ split_at SLASH (windows_name host_os s) = f <$> split_at SLASH s /\ forall c, usable_component (f c).
Proof using Hlaws.
  unfold windows_name. set (colon := (fun c => if (c =? COLON)%Z then UNDERSCORE else c)).
  assert (Hcolon : split_at SLASH (replace_char COLON UNDERSCORE s) = (fmap colon : ustring -> ustring) <$> split_at SLASH s) by apply (map_split colon), colon_slash.
  exists (fun c => make_windows_component_compatible (if is_unix_or_darwin host_os then nfc (colon <$> c) else colon <$> c)). rewrite compatible_split.
  destruct (is_unix_or_darwin host_os); (split; [|split; [|intros c; apply component_usable]]).
  - exact (keeps_dots_compose _ _ component_dots (keeps_dots_compose _ _ nfc_dots (map_dots colon colon_dots))).
  - by rewrite nfc_split, Hcolon, <- !list_fmap_compose.
  - exact (keeps_dots_compose _ _ component_dots (map_dots colon colon_dots)).
  - by rewrite Hcolon, <- list_fmap_compose.
Qed.

Lemma usable_absent s ch : Forall usable_component (split_at SLASH s) -> incompatible_char ch = true -> ch <> SLASH -> ch ∉ s.
Proof.
  intros Hall Hch Hne Hin. destruct (part_of SLASH s ch Hin Hne) as (part & Hpart & Hmem). rewrite list.Forall_forall in Hall.
  destruct (Hall part Hpart) as (Hchars & _). rewrite list.Forall_forall in Hchars. by rewrite (Hchars ch Hmem) in Hch.
Qed.

Lemma windows_name_ok host_os s : inside s -> let t := windows_name host_os s in
  inside t /\ safe_path true t /\ Forall usable_component (split_at SLASH t).
Proof using Hlaws.
  intros Hin t. destruct (windows_name_split host_os s) as (f & Hf & Hsplit & Husable). fold t in Hsplit.
  assert (Hall : Forall usable_component (split_at SLASH t)) by (rewrite Hsplit; apply list.Forall_fmap, list.Forall_true; exact Husable).
  pose proof (inside_parts f s t Hf Hsplit Hin) as Ht. split; [exact Ht|]. split; [|exact Hall].
  split; [by apply walk_inside|]. split; [by apply inside_relative|].
  split; [by apply (usable_absent t 0 Hall)|]. intros _ c rest _ E. apply (usable_absent t COLON Hall); [done | done|]. rewrite E. right. by left.
Qed.

Lemma member_path_ok format host_os raw windows : scalars raw -> exists s, sanitize_member_path_for_target format host_os raw windows = Ok s /\ inside s /\
  safe_path windows s /\ (windows = true -> Forall usable_component (split_at SLASH s)).
Proof using Hlaws.
  intros Hs. destruct (member_converted_ok format host_os raw windows Hs) as [Hc Hnul].
  destruct (stripped_safe windows _ Hc Hnul) as (s & Hrun & Hsafe & Hin & _).
  assert (E : sanitize_member_path_for_target format host_os raw windows = (s ← stripped windows (member_converted format host_os raw windows); mret (if windows then windows_name host_os s else s))).
  { unfold sanitize_member_path_for_target, stripped. fold (member_converted format host_os raw windows). by destruct (convert_path_start _ _). }
  rewrite E, Hrun, bind_Ok. destruct windows.
  - destruct (windows_name_ok host_os s Hin) as (H1 & H2 & H3). by exists (windows_name host_os s).
  - by exists s.
Qed.
End members.

(** C10: names from an archive stay under the directory they are extracted to:
    whatever the name, a path is produced (no slice falls inside a character),
    and the path neither starts at a root, nor, where drives are stripped, at a
    drive; it holds no NUL, and a walk along its parts never climbs above the
    directory it starts from, the path ".." alone excepted. On Windows no part
    of a member's path is a device, has a character Windows refuses, or ends
    with a dot or a space. *)
Theorem sanitized_paths_stay_inside `{NormalizationLaws} (raw : ustring) (format : ArchiveFormat) (host_os : HostOs.t) (windows : bool) : scalars raw ->
  (exists s, sanitize_path raw = Ok s /\ safe_path true s /\ BACKSLASH ∉ s) /\
  (exists s, sanitize_file_redirection_path windows raw = Ok s /\ safe_path windows s /\ BACKSLASH ∉ s) /\
  (exists s, sanitize_member_path_for_target format host_os raw windows = Ok s /\ safe_path windows s /\ (windows = true -> Forall usable_component (split_at SLASH s))).
Proof.
  intros Hs. destruct (separated_ok raw Hs) as (Hsep & Hnul & Hback). split_and!.
  - destruct (stripped_safe true (separated raw) Hsep Hnul) as (s & Hrun & Hsafe & _ & _ & Hsuf & _). exists s. split; [exact Hrun|]. split; [exact Hsafe | by apply (suffix_elem _ _ _ Hsuf)].
  - destruct (stripped_safe windows (separated raw) Hsep Hnul) as (s & Hrun & Hsafe & _ & _ & Hsuf & _). exists s. split; [exact Hrun|]. split; [exact Hsafe | by apply (suffix_elem _ _ _ Hsuf)].
  - destruct (member_path_ok format host_os raw windows Hs) as (s & Hrun & _ & Hsafe & Husable). by exists s.
Qed.

(** No normalisation, as of ASCII names. *)
#[export] Instance plain_text : UnicodeNormalization := fun s => s.
#[export] Instance plain_text_laws : NormalizationLaws.
Proof. split; [intros s; by rewrite list_fmap_id | by split]. Qed.

Lemma sanitized_paths_stay_inside_witness :
  let raw := text "C:\a/../../aux/x. /?.txt" in
  scalars raw /\ (exists s, sanitize_path raw = Ok s /\ s = text "aux/x. /?.txt" /\ safe_path true s) /\
  exists s, sanitize_member_path_for_target RarTypes.Rar4 HostOs.Unix raw true = Ok s /\ s = text "_aux/x._/_.txt" /\ safe_path true s /\ Forall usable_component (split_at SLASH s).
Proof.
  cbv zeta. assert (Hs : scalars (text "C:\a/../../aux/x. /?.txt")) by (repeat constructor).
  destruct (sanitized_paths_stay_inside (text "C:\a/../../aux/x. /?.txt") RarTypes.Rar4 HostOs.Unix true Hs) as ((s & Hrun & Hsafe & _) & _ & s' & Hrun' & Hsafe' & Husable).
  split; [exact Hs|]. split.
  - exists s. split; [exact Hrun|]. split; [|exact Hsafe]. vm_compute in Hrun. injection Hrun as <-. reflexivity.
  - exists s'. split; [exact Hrun'|]. split; [|split; [exact Hsafe' | by apply Husable]]. vm_compute in Hrun'. injection Hrun' as <-. reflexivity.
Defined.

(** The exception is met: a final ".." behind no slash is not removed. *)
Lemma lone_up_is_kept : sanitize_path dot_dot = Ok dot_dot /\ sanitize_path (text "C:..") = Ok dot_dot.
Proof. by vm_compute. Qed.
(** It is met by no other names. *)
Lemma lone_up_only raw : scalars raw -> sanitize_path raw = Ok dot_dot -> separated raw = dot_dot \/ exists t, separated raw = t ++ COLON :: dot_dot.
Proof.
  intros Hs Hrun. destruct (separated_ok raw Hs) as (Hsep & Hnul & _). destruct (stripped_safe true (separated raw) Hsep Hnul) as (s & Hrun' & _ & _ & _ & _ & _ & Hup).
  change (stripped true (separated raw) = Ok dot_dot) in Hrun. rewrite Hrun in Hrun'. injection Hrun' as <-. destruct (Hup eq_refl) as [|[_ ?]]; [by left | by right].
Qed.

(** Sanitising again changes nothing. *)
Lemma sanitize_path_idempotent raw s : scalars raw -> sanitize_path raw = Ok s -> sanitize_path s = Ok s.
Proof.
  intros Hs Hrun. destruct (separated_ok raw Hs) as (Hsep & Hnul & Hback). destruct (stripped_safe true (separated raw) Hsep Hnul) as (s' & Hrun' & (_ & _ & Hnul' & _) & _ & _ & Hsuf & Hagain & _).
  change (stripped true (separated raw) = Ok s) in Hrun. rewrite Hrun in Hrun'. injection Hrun' as <-.
  change (stripped true (separated s) = Ok s). unfold separated. rewrite before_none by done. by rewrite replace_none by (by apply (suffix_elem _ _ _ Hsuf)).
Qed.

(** * The links that are accepted lead to places under the directory extracted to: one ".." is allowed per directory the link is in. *)

Local Open Scope nat_scope.

(** ** The depth of a link, part by part *)

(** The change the slash in front of a part makes. *)
Definition part_change (part : ustring) : Z := if bool_decide (part = dot_dot) then -1 else if bool_decide (part = dot) then 0 else 1.

Fixpoint parts_depth (parts : list ustring) (depth : Z) : Z :=
  match parts with
  | [] => Z.max depth 0
  | part :: rest => if bool_decide (part = []) && negb (bool_decide (rest = [])) then 0%Z else parts_depth rest (i32 (depth + part_change part))
  end.

(** The same along the characters. *)
Fixpoint chars_depth (s : ustring) (depth : Z) : Z :=
  match s with
  | [] => Z.max depth 0
  | c :: s =>
    if (c =? SLASH)%Z then if starts_with [SLASH] s then 0%Z else chars_depth s (i32 (depth + part_change (before SLASH s)))
    else chars_depth s depth
  end.

Lemma chars_depth_app s t depth : SLASH ∉ s -> chars_depth (s ++ t) depth = chars_depth t depth.
Proof. induction s as [|c s IH]; intros Hs; [done|]. cbn. rewrite (proj2 (Z.eqb_neq _ _)) by set_solver. apply IH. set_solver. Qed.
Lemma before_app s t : SLASH ∉ s -> before SLASH (s ++ SLASH :: t) = s.
Proof. induction s as [|c s IH]; intros Hs; [done|]. cbn [app before]. rewrite (proj2 (Z.eqb_neq _ _)), IH by set_solver. done. Qed.

Lemma starts_slash s : starts_with [SLASH] s = true <-> exists t, s = SLASH :: t.
Proof. unfold starts_with. rewrite bool_decide_eq_true. split; [intros (k & ->); by exists k | intros (t & ->); by exists t]. Qed.

Lemma chars_parts first rest depth : Forall (fun part => SLASH ∉ part) (first :: rest) -> chars_depth (join SLASH (first :: rest)) depth = parts_depth rest depth.
Proof.
  revert first depth. induction rest as [|part rest IH]; intros first depth [Hfirst Hrest]%list.Forall_cons.
  - cbn [join]. rewrite <- (app_nil_r first). by rewrite chars_depth_app.
  - change (join SLASH (first :: part :: rest)) with (first ++ SLASH :: join SLASH (part :: rest)).
    rewrite chars_depth_app by done. cbn [chars_depth]. rewrite Z.eqb_refl. pose proof Hrest as [Hpart _]%list.Forall_cons.
    cbn [parts_depth]. rewrite <- (IH part _ Hrest).
    assert (Hbefore : before SLASH (join SLASH (part :: rest)) = part) by (destruct rest; [by apply before_none | by apply before_app]).
    rewrite Hbefore. destruct (starts_with [SLASH] (join SLASH (part :: rest))) eqn:E.
    + apply starts_slash in E as (t & E). destruct part as [|c part]; [by destruct rest|].
      exfalso. apply Hpart. destruct rest; injection E as ->; by left.
    + destruct (decide (part = [])) as [->|Hne]; [|by rewrite (bool_decide_eq_false_2 _ Hne)].
      destruct rest as [|p rest]; [done|]. exfalso.
      assert (Ht : starts_with [SLASH] (SLASH :: join SLASH (p :: rest)) = true) by (apply starts_slash; by eexists).
      change (join SLASH ([] :: p :: rest)) with (SLASH :: join SLASH (p :: rest)) in E. congruence.
Qed.

(** ** From bytes to characters *)

Lemma head_byte s b : scalars s -> (u8 b < 128)%Z -> byte_is (as_bytes s) 0 b = bool_decide (head s = Some (u8 b)).
Proof.
  intros Hs Hb. unfold byte_is. apply bool_decide_ext. destruct Hs as [|c s Hc Hs]; [done|]. rewrite as_bytes_cons. cbn [head].
  destruct (encoded_char c Hc) as [(_ & -> & Hval)|(Hhigh & Hne & Hall)].
  - cbn. split; [intros [= <-]; by rewrite Hval | intros [= ->]; by rewrite byte_of_u8].
  - destruct (append_lenient_utf8 c) as [|a rest]; [done|]. apply list.Forall_cons in Hall as [Ha _]. cbn. split; intros [= ->]; lia.
Qed.

Lemma as_bytes_length s : scalars s -> length (as_bytes s) = 0 <-> s = [].
Proof.
  intros Hs. split; [|by intros ->]. destruct Hs as [|c s Hc Hs]; [done|]. rewrite as_bytes_cons, length_app. pose proof (encoded_width c Hc). lia.
Qed.

(** The part a text starts with, seen from its bytes. *)
Lemma before_head s : before SLASH s = [] <-> s = [] \/ head s = Some SLASH.
Proof. destruct s as [|c s]; cbn; [tauto|]. destruct (Z.eqb_spec c SLASH) as [->|]; split; try done; [by right|]. intros [|[=]]; done. Qed.
Lemma before_one s : before SLASH s = dot <-> exists s1, s = DOT :: s1 /\ before SLASH s1 = [].
Proof.
  destruct s as [|c s]; cbn; [split; [done|]; intros (? & [=] & _)|]. destruct (Z.eqb_spec c SLASH) as [->|]; [split; [done|]; intros (? & [=] & _)|].
  split; [intros [= -> H]; by exists s | intros (? & [= -> ->] & ->); done].
Qed.
Lemma before_two s : before SLASH s = dot_dot <-> exists s1, s = DOT :: DOT :: s1 /\ before SLASH s1 = [].
Proof.
  destruct s as [|c s]; cbn; [split; [done|]; intros (? & [=] & _)|]. destruct (Z.eqb_spec c SLASH) as [->|]; [split; [done|]; intros (? & [=] & _)|].
  split.
  - intros [= -> H]. apply before_one in H as (s1 & -> & H). by exists s1.
  - intros (s1 & [= -> ->] & H). f_equal. apply before_one. by exists s1.
Qed.
Lemma ends_part s : scalars s -> bool_decide (before SLASH s = []) = (0 =? length (as_bytes s)) || byte_is (as_bytes s) 0 x2f.
Proof.
  intros Hs. rewrite (head_byte s x2f Hs) by done. change (u8 x2f) with SLASH. apply eq_bool_prop_intro.
  rewrite bool_decide_spec, before_head. unfold Is_true. destruct (Nat.eqb_spec 0 (length (as_bytes s))) as [H|H]; cbn.
  - split; [done|]. intros _. left. by apply as_bytes_length.
  - case_bool_decide as Hh; split; try done; [by right|]. intros [->|]; done.
Qed.

Definition dot_bytes (R : list byte) : bool := byte_is R 0 x2e && ((1 =? length R) || byte_is R 1 x2f).
Definition up_bytes (R : list byte) : bool := (1 <? length R) && byte_is R 0 x2e && byte_is R 1 x2e && ((2 =? length R) || byte_is R 2 x2f).

Lemma dot_bytes_part s : scalars s -> dot_bytes (as_bytes s) = bool_decide (before SLASH s = dot).
Proof.
  intros Hs. unfold dot_bytes. rewrite (head_byte s x2e Hs) by done. change (u8 x2e) with DOT.
  destruct s as [|c s]; [done|]. cbn [head]. destruct (decide (c = DOT)) as [->|Hne].
  - apply list.Forall_cons in Hs as [_ Hs]. rewrite as_bytes_dot. cbn [length]. rewrite bool_decide_true by done. cbn [andb].
    change (byte_is (x2e :: as_bytes s) 1 x2f) with (byte_is (as_bytes s) 0 x2f). change (1 =? S (length (as_bytes s))) with (0 =? length (as_bytes s)). rewrite <- ends_part by done.
    apply bool_decide_ext. rewrite before_one. split; [intros H; by exists s | intros (s1 & [= <-] & H); done].
  - rewrite bool_decide_false by (intros [=]; done). cbn [andb]. symmetry. apply bool_decide_eq_false. intros (s1 & [= H _] & _)%before_one. done.
Qed.
Lemma up_bytes_part s : scalars s -> up_bytes (as_bytes s) = bool_decide (before SLASH s = dot_dot).
Proof.
  intros Hs. symmetry. destruct (decide (before SLASH s = dot_dot)) as [Hup|Hnot].
  - rewrite bool_decide_true by done. apply before_two in Hup as (s1 & -> & H). do 2 apply list.Forall_cons in Hs as [_ Hs]. unfold up_bytes. rewrite !as_bytes_dot.
    change (2 =? length (x2e :: x2e :: as_bytes s1)) with (0 =? length (as_bytes s1)). change (byte_is (x2e :: x2e :: as_bytes s1) 2 x2f) with (byte_is (as_bytes s1) 0 x2f).
    rewrite <- ends_part by done. by rewrite bool_decide_true.
  - rewrite bool_decide_false by done. symmetry. apply not_true_is_false. intros H. apply Hnot. unfold up_bytes in H. rewrite !andb_true_iff in H. destruct H as [[[_ H0] H1] H2].
    rewrite (head_byte s x2e Hs) in H0 by done. apply bool_decide_eq_true in H0. destruct s as [|c s]; [done|]. injection H0 as ->. change (u8 x2e) with DOT in *.
    apply list.Forall_cons in Hs as [_ Hs]. rewrite as_bytes_dot in H1, H2. change (byte_is (as_bytes s) 0 x2e = true) in H1. rewrite (head_byte s x2e Hs) in H1 by done.
    apply bool_decide_eq_true in H1. destruct s as [|c s]; [done|]. injection H1 as ->. change (u8 x2e) with DOT in *. apply list.Forall_cons in Hs as [_ Hs]. rewrite as_bytes_dot in H2.
    change (((0 =? length (as_bytes s)) || byte_is (as_bytes s) 0 x2f) = true) in H2. rewrite <- ends_part in H2 by done. apply bool_decide_eq_true in H2.
    apply before_two. by exists s.
Qed.

Lemma slash_depth_part B i s : i < length B -> scalars s -> drop (i + 1) B = as_bytes s ->
  slash_depth B i = if starts_with [SLASH] s then None else Some (part_change (before SLASH s)).
Proof.
  intros Hi Hs Hrest. assert (Hlen : length B = i + 1 + length (as_bytes s)) by (rewrite <- Hrest, length_drop; lia).
  assert (Hbyte : forall k b, byte_is B (i + 1 + k) b = byte_is (as_bytes s) k b) by (intros k b; by rewrite <- Hrest, byte_is_drop).
  unfold slash_depth. rewrite <- (Nat.add_0_r (i + 1)), Hbyte.
  replace (i + 2) with (i + 1 + 1) by lia. replace (i + 3) with (i + 1 + 2) by lia. rewrite !Hbyte, Hlen.
  replace (i + 1 + 1 <? i + 1 + length (as_bytes s)) with (1 <? length (as_bytes s)) by (destruct (Nat.ltb_spec 1 (length (as_bytes s))), (Nat.ltb_spec (i + 1 + 1) (i + 1 + length (as_bytes s))); lia).
  replace (i + 1 + 1 =? i + 1 + length (as_bytes s)) with (1 =? length (as_bytes s)) by (destruct (Nat.eqb_spec 1 (length (as_bytes s))), (Nat.eqb_spec (i + 1 + 1) (i + 1 + length (as_bytes s))); lia).
  replace (i + 1 + 2 =? i + 1 + length (as_bytes s)) with (2 =? length (as_bytes s)) by (destruct (Nat.eqb_spec 2 (length (as_bytes s))), (Nat.eqb_spec (i + 1 + 2) (i + 1 + length (as_bytes s))); lia).
  fold (dot_bytes (as_bytes s)). fold (up_bytes (as_bytes s)). rewrite dot_bytes_part, up_bytes_part by done. rewrite (head_byte s x2f Hs) by done.
  replace (starts_with [SLASH] s) with (bool_decide (head s = Some SLASH)).
  - unfold part_change. destruct (bool_decide (head s = _)); [done|]. destruct (bool_decide (before SLASH s = dot_dot)); [done|]. by destruct (bool_decide (before SLASH s = dot)).
  - apply bool_decide_ext. destruct s as [|c s]; [split; [done|]; by intros (k & ?)|]. cbn. split; [intros [= ->]; by exists s | intros (k & [= -> _]); done].
Qed.

Lemma link_depth_skip B ps qs depth : Forall (fun i => byte_is B i x2f = false) ps -> link_depth B (ps ++ qs) depth = link_depth B qs depth.
Proof. induction 1 as [|i ps Hi Hps IH]; [done|]. cbn. by rewrite Hi. Qed.

Lemma link_depth_chars B : forall s n depth, scalars s -> drop n B = as_bytes s -> n <= length B -> link_depth B (seq n (length (as_bytes s))) depth = chars_depth s depth.
Proof.
  induction s as [|c s IH]; intros n depth Hs Hrest Hn; [done|]. apply list.Forall_cons in Hs as [Hc Hs]. rewrite as_bytes_cons in *. rewrite length_app.
  set (w := length (append_lenient_utf8 c)).
  assert (Hw : length B = n + (w + length (as_bytes s))) by (pose proof (f_equal length Hrest) as H; rewrite length_drop, length_app in H; unfold w; lia).
  assert (Hnext : drop (n + w) B = as_bytes s) by (rewrite <- drop_drop, Hrest; apply drop_app_length).
  assert (Hbyte : forall k, k < w -> B !! (n + k) = append_lenient_utf8 c !! k) by (intros k Hk; by rewrite <- lookup_drop, Hrest, lookup_app_l).
  rewrite seq_app. cbn [chars_depth]. destruct (Z.eqb_spec c SLASH) as [->|Hne].
  - change w with 1 in *. cbn [seq app link_depth]. assert (byte_is B n x2f = true) as -> by (apply byte_is_true; rewrite <- (Nat.add_0_r n), Hbyte by lia; done).
    cbn [negb]. rewrite (slash_depth_part B n s) by (done || lia). destruct (starts_with [SLASH] s); [done|]. apply IH; [done | done | lia].
  - rewrite link_depth_skip; [apply IH; [done | done | lia]|]. apply list.Forall_forall. intros i Hi%elem_of_seq. unfold byte_is. apply bool_decide_eq_false.
    replace i with (n + (i - n)) by lia. rewrite Hbyte by lia. intros Hslash. destruct (encoded_char c Hc) as [(_ & E & Hval)|(_ & _ & Hall)].
    + rewrite E in Hslash. destruct (i - n) as [|k]; [|by destruct k]. injection Hslash as Hslash. apply Hne. by rewrite <- Hval, Hslash.
    + pose proof (list.Forall_lookup_1 _ _ _ _ Hall Hslash) as H. cbn in H. lia.
Qed.

Lemma allowed_depth_parts s : scalars s -> exists first rest, split_at SLASH s = first :: rest /\ allowed_link_source_depth s = parts_depth rest 0.
Proof.
  intros Hs. pose proof (split_nonempty SLASH s). destruct (split_at SLASH s) as [|first rest] eqn:E; [done|]. exists first, rest. split; [done|].
  unfold allowed_link_source_depth. rewrite (link_depth_chars (as_bytes s) s 0 0) by (done || lia).
  rewrite <- (join_split_at SLASH s) at 1. rewrite E. apply chars_parts. rewrite <- E. apply split_at_no_sep.
Qed.

(** ** The depth allowed is the depth there is *)

Lemma i32_small z : (- 2 ^ 31 <= z < 2 ^ 31)%Z -> i32 z = z.
Proof. intros Hz. unfold i32. rewrite Z.mod_small; lia. Qed.

Lemma change_range part : (-1 <= part_change part <= 1)%Z.
Proof. unfold part_change. repeat case_bool_decide; lia. Qed.

Lemma walk_name n part parts : part <> [] -> part <> dot -> part <> dot_dot -> walk n (part :: parts) = walk (S n) parts.
Proof. intros H1 H2 H3. cbn. by rewrite (bool_decide_eq_false_2 _ H1), (bool_decide_eq_false_2 _ H2), (bool_decide_eq_false_2 _ H3). Qed.
Lemma walk_dot n parts : walk n (dot :: parts) = walk n parts.
Proof. done. Qed.

Lemma removelast_elem {A} (x : A) l : x ∈ removelast l -> x ∈ l.
Proof.
  induction l as [|a l IH]; [done|]. destruct l as [|b l]; [intros H; by apply not_elem_of_nil in H|].
  change (removelast (a :: b :: l)) with (a :: removelast (b :: l)). rewrite elem_of_cons. intros [->|H]; [by left | right; by apply IH].
Qed.

(** The depth counted behind a part against the walk from it on. *)
Lemma depth_walked : forall rest part depth n, dot_dot ∉ part :: rest -> (0 <= depth)%Z -> (depth + zlen rest < 2 ^ 31)%Z ->
  (part = dot -> depth + 1 <= Z.of_nat n)%Z -> (part = [] -> rest = []) -> (depth <= Z.of_nat n)%Z ->
  exists m, walk n (removelast (part :: rest)) = Some m /\ (parts_depth rest depth <= Z.of_nat m)%Z.
Proof.
  induction rest as [|next rest IH]; intros part depth n Hup Hpos Hsize Hdot Hnil Hle.
  - exists n. split; [done|]. cbn. lia.
  - change (removelast (part :: next :: rest)) with (part :: removelast (next :: rest)). rewrite !not_elem_of_cons in Hup. destruct Hup as (Hp & Hn & Hr).
    rewrite zlen_cons in Hsize. pose proof (zlen_nonneg rest). cbn [parts_depth].
    assert (Hnext : (0 <= part_change next <= 1)%Z).
    { unfold part_change. rewrite bool_decide_false by congruence. case_bool_decide; lia. }
    rewrite i32_small by lia.
    assert (Hwalk : exists m, walk n (part :: removelast (next :: rest)) = walk m (removelast (next :: rest)) /\ (depth + 1 <= Z.of_nat m)%Z).
    { destruct (decide (part = dot)) as [->|Hpd]; [exists n; split; [apply walk_dot | by apply Hdot]|].
      destruct (decide (part = [])) as [->|Hpn]; [by specialize (Hnil eq_refl)|]. exists (S n). split; [by apply walk_name | lia]. }
    destruct Hwalk as (m & -> & Hm). destruct (decide (next = [] /\ rest <> [])) as [[-> Hrest]|Hsome].
    + rewrite bool_decide_true, bool_decide_false by done. cbn [andb negb].
      destruct (walk_down (removelast ([] :: rest)) m) as (k & Hk & _); [by intros [|]%removelast_elem%elem_of_cons|].
      exists k. split; [exact Hk | lia].
    + replace (bool_decide (next = []) && negb (bool_decide (rest = []))) with false.
      2: { symmetry. apply andb_false_iff. destruct (decide (next = [])) as [->|]; [|left; by apply bool_decide_eq_false]. right. destruct (decide (rest = [])) as [->|]; [done|]. tauto. }
      apply IH; try lia.
      * by rewrite not_elem_of_cons.
      * intros ->. change (part_change dot) with 0%Z. lia.
      * intros ->. destruct (decide (rest = [])); [done | tauto].
Qed.

(** A walk that climbs no more often than it is deep. *)
Lemma walk_counted : forall parts n, (zlen (filter (fun c => c = dot_dot) parts) <= Z.of_nat n)%Z -> exists m, walk n parts = Some m.
Proof.
  induction parts as [|part parts IH]; intros n Hn; [by exists n|]. cbn. rewrite filter_cons in Hn. destruct (decide (part = dot_dot)) as [->|Hne].
  - rewrite bool_decide_true by done. rewrite zlen_cons in Hn. pose proof (zlen_nonneg (filter (fun c => c = dot_dot) parts)). destruct n as [|n]; [lia|]. apply IH. lia.
  - rewrite (bool_decide_eq_false_2 _ Hne). destruct (_ || _); apply IH; lia.
Qed.

Lemma accepted_inner member target allow mb tb md : is_safe_link_target_inner member target allow mb tb md = true ->
  let target := normalize_backslash_for_path_check target tb in
  head target <> Some SLASH /\ (0%Z ∉ target) /\ (target_parent_traversal_count target <= allowed_link_source_depth (normalize_backslash_for_path_check member mb))%Z /\
  (allow = false -> drive_letter (as_bytes target) = false).
Proof.
  unfold is_safe_link_target_inner. destruct (is_full_root_path _ _); [done|]. set (t := normalize_backslash_for_path_check target tb).
  destruct (starts_with [SLASH] t) eqn:Hs; [done|]. destruct (negb allow && drive_letter (as_bytes t)) eqn:Hd; [done|]. case_bool_decide as Hnul; [done|]. intros Hcount%Z.leb_le.
  split_and!; [|done|done|by intros ->].
  intros Hh. destruct t as [|c t']; [done|]. injection Hh as ->. assert (starts_with [SLASH] (SLASH :: t') = true) by (apply starts_slash; by eexists). congruence.
Qed.

(** The directory a member is in. *)
Definition parent_parts (member : ustring) : list ustring := removelast (split_at SLASH member).

Lemma link_depth_real member : scalars member -> inside member -> (zlen (split_at SLASH member) < 2 ^ 31)%Z ->
  exists d, walk 0 (parent_parts member) = Some d /\ (allowed_link_source_depth member <= Z.of_nat d)%Z.
Proof.
  intros Hs [Hup Hfirst] Hsize. destruct (allowed_depth_parts member Hs) as (first & rest & E & ->). unfold parent_parts. rewrite E in *. rewrite zlen_cons in Hsize.
  destruct (decide (rest = [])) as [->|Hne]; [exists 0; split; [done | cbn; lia]|]. destruct (Hfirst first rest eq_refl Hne) as [H1 H2].
  apply depth_walked; try done; try lia. intros Hin. apply Hup in Hin. subst member. injection E as <- <-. done.
Qed.



(** A separator at the end of a name counts as a directory. *)
Lemma final_separator_counts : allowed_link_source_depth (text "link/") = 1%Z /\
  is_safe_symlink_target_for_archive_member_on_host RarTypes.Rar5 (text "link/") (text "link/") (text "../x") false = true.
Proof. by vm_compute. Qed.
