(* ===== verification/Reader.v ===== *)
(** Effects of the header walk: a state-and-outcome monad, the reader the
    parsers are given (Rust's [Read + Seek], with the standard library's
    [io::Cursor] over a byte string as its instance), and the short-read
    bookkeeping of [crates/unrar-rs/src/short_read.rs]. *)
From S2P Require Import Prelude.
From S2P Require Import RarTypes.
From S2P Require Import Vint.

(** * The monad *)

Definition io (S A : Type) : Type := S -> outcome rar_error A * S.

#[export] Instance io_ret {S} : MRet (io S) := fun A a s => (Ok a, s).
#[export] Instance io_bind {S} : MBind (io S) := fun A B k m s =>
  match m s with
  | (Ok a, s) => k a s
  | (Err e, s) => (Err e, s)
  | (Panic, s) => (Panic, s)
  end.

(** An effect-free computation, and an error as a value: Rust's [match] on a
    [Result] instead of [?]. *)
Definition lift {S A} (m : outcome rar_error A) : io S A := fun s => (m, s).
Definition attempt {S A} (m : io S A) : io S (rar_error + A) := fun s =>
  match m s with
  | (Ok a, s) => (Ok (inr a), s)
  | (Err e, s) => (Ok (inl e), s)
  | (Panic, s) => (Panic, s)
  end.
Definition map_err {S A} (f : rar_error -> rar_error) (m : io S A) : io S A := fun s =>
  match m s with (Err e, s) => (Err (f e), s) | r => r end.
Definition gets {S A} (f : S -> A) : io S A := fun s => (Ok (f s), s).
Definition modify {S} (f : S -> S) : io S unit := fun s => (Ok tt, f s).

(** [wp m s Q F]: run from [s], [m] does not panic, a value and the state it
    leaves satisfy [Q], an error and its state satisfy [F]. *)
Definition wp {S A} (m : io S A) (s : S) (Q : A -> S -> Prop) (F : rar_error -> S -> Prop) : Prop :=
  match m s with
  | (Ok a, s') => Q a s'
  | (Err e, s') => F e s'
  | (Panic, _) => False
  end.

Section wp_rules.
Context {S : Type}.
Implicit Types (s : S) (F : rar_error -> S -> Prop).

Lemma wp_ret {A} (a : A) s (Q : A -> S -> Prop) F : Q a s -> wp (mret a) s Q F.
Proof. done. Qed.

Lemma wp_bind {A B} (m : io S A) (k : A -> io S B) s (Q : B -> S -> Prop) F :
  wp m s (fun a s' => wp (k a) s' Q F) F -> wp (m ≫= k) s Q F.
Proof. unfold wp, mbind, io_bind. destruct (m s) as [[a|e|] s']; auto. Qed.

Lemma wp_mono {A} (m : io S A) s (Q Q' : A -> S -> Prop) F F' :
  wp m s Q F -> (forall a s', Q a s' -> Q' a s') -> (forall e s', F e s' -> F' e s') ->
  wp m s Q' F'.
Proof. unfold wp. destruct (m s) as [[a|e|] s']; auto. Qed.

Lemma wp_lift {A} (m : outcome rar_error A) s (P : A -> Prop) (Q : A -> S -> Prop) F :
  safe m P -> (forall a, m = Ok a -> P a -> Q a s) -> (forall e, F e s) -> wp (lift m) s Q F.
Proof. unfold wp, lift. destruct m; simpl; auto. Qed.

Lemma wp_err {A} e s (Q : A -> S -> Prop) F : F e s -> wp (lift (Err e)) s Q F.
Proof. done. Qed.

Lemma wp_gets {A} (f : S -> A) s (Q : A -> S -> Prop) F : Q (f s) s -> wp (gets f) s Q F.
Proof. done. Qed.

Lemma wp_modify (f : S -> S) s (Q : unit -> S -> Prop) F : Q tt (f s) -> wp (modify f) s Q F.
Proof. done. Qed.

Lemma wp_attempt {A} (m : io S A) s (Q : rar_error + A -> S -> Prop) F :
  wp m s (fun a s' => Q (inr a) s') (fun e s' => Q (inl e) s') -> wp (attempt m) s Q F.
Proof. unfold wp, attempt. destruct (m s) as [[a|e|] s']; auto. Qed.

Lemma wp_map_err {A} f (m : io S A) s (Q : A -> S -> Prop) F :
  wp m s Q (fun e s' => F (f e) s') -> wp (map_err f m) s Q F.
Proof. unfold wp, map_err. destruct (m s) as [[a|e|] s']; auto. Qed.
End wp_rules.

(** * The reader *)

Record reader := mk_reader { content : list byte; position : Z }.

Definition rest_of (r : reader) : list byte := zdrop (position r) (content r).
Definition set_position (n : Z) (r : reader) : reader := mk_reader (content r) n.

Definition stream_position : io reader Z := gets position.
Definition seek_start (n : Z) : io reader unit := modify (set_position n).
Definition seek_current (delta : Z) : io reader unit := fun r =>
  let n := position r + delta in
  if (0 <=? n) && (n <? 2 ^ 64) then (Ok tt, set_position n r) else (Err (Io InvalidInput), r).

(** [read_exact] of [n] bytes: on a short read a cursor is left at the end. *)
Definition read_exact (n : Z) : io reader (list byte) := fun r =>
  if n <=? zlen (rest_of r)
  then (Ok (ztake n (rest_of r)), set_position (position r + n) r)
  else (Err (Io UnexpectedEof), set_position (zlen (content r)) r).

Definition is_unexpected_eof (e : rar_error) : bool :=
  match e with Io UnexpectedEof => true | _ => false end.

(** [read_vint_from]: at most ten single-byte reads. *)
Fixpoint read_vint_from_loop (todo : nat) (i result shift : Z) : io reader (Z * Z) :=
  match todo with
  | O => lift (Err (TruncatedHeader 0))
  | S todo =>
      buf ← map_err (fun e => if is_unexpected_eof e then TruncatedHeader 0 else e) (read_exact 1);
      b ← lift (index buf 0);
      let value_bits := Z.land (u8 b) 0x7F in
      let result := Z.lor result (wrap64 (Z.shiftl value_bits shift)) in
      if Z.land (u8 b) 0x80 =? 0 then mret (result, i + 1)
      else if i =? VINT_MAX_BYTES - 1 then lift (Err (InvalidVint 0))
      else read_vint_from_loop todo (i + 1) result (shift + 7)
  end.

Definition read_vint_from : io reader (Z * Z) := read_vint_from_loop 10 0 0 0.

(** * Short reads *)

Inductive HeaderScan := ForDecode | ForFacts | ThroughFile (limit : Z).

Definition reached_file_limit (scan : HeaderScan) (files : Z) : bool :=
  match scan with ThroughFile limit => limit <=? files | _ => false end.

Record ShortRead := mk_short { at_ : Z; strict_error : option rar_error }.
Definition at_boundary (at' : Z) : ShortRead := mk_short at' None.
Definition truncated (at' : Z) (e : rar_error) : ShortRead := mk_short at' (Some e).

Definition is_short_read (e : rar_error) : bool :=
  match e with
  | TruncatedHeader _ => true
  | Io UnexpectedEof => true
  | _ => false
  end.

Definition next_needed (floor : Z) (r : reader) : Z :=
  Z.max floor (sat_add_u64 (position r) 1).

(** The walk's state: the reader and the two [&mut] out-parameters. *)
Record walk_state := mk_walk { rd : reader; short : option ShortRead; stop : Z }.

Definition on_reader {A} (m : io reader A) : io walk_state A := fun w =>
  let '(o, r) := m (rd w) in (o, mk_walk r (short w) (stop w)).
Definition set_short (s : ShortRead) : io walk_state unit :=
  modify (fun w => mk_walk (rd w) (Some s) (stop w)).
Definition set_stop (n : Z) : io walk_state unit :=
  modify (fun w => mk_walk (rd w) (short w) n).

Definition is_for_facts (scan : HeaderScan) : bool :=
  match scan with ForFacts => true | _ => false end.

(** [absorb_short_read(m, scan, reader, floor, short)?]. *)
Definition absorb_short_read {A} (m : io reader A) (scan : HeaderScan) (floor : Z)
    : io walk_state (option A) :=
  result ← attempt (on_reader m);
  match result with
  | inr value => mret (Some value)
  | inl error =>
      if is_for_facts scan && is_short_read error then
        needed ← gets (fun w => next_needed floor (rd w));
        _ ← set_short (truncated needed error);
        mret None
      else lift (Err error)
  end.

(** * Laws *)

Lemma rest_of_advance r n : 0 <= position r -> 0 <= n ->
  rest_of (set_position (position r + n) r) = zdrop n (rest_of r).
Proof. intros. unfold rest_of. cbn. rewrite zdrop_zdrop by lia. done. Qed.

Lemma read_exact_ok r n :
  n <= zlen (rest_of r) ->
  read_exact n r = (Ok (ztake n (rest_of r)), set_position (position r + n) r).
Proof. intros. unfold read_exact. rewrite (proj2 (Z.leb_le _ _)) by lia. done. Qed.

Lemma read_exact_short r n :
  zlen (rest_of r) < n ->
  read_exact n r = (Err (Io UnexpectedEof), set_position (zlen (content r)) r).
Proof. intros. unfold read_exact. rewrite (proj2 (Z.leb_gt _ _)) by lia. done. Qed.

Lemma read_vint_from_loop_spec todo i result shift r :
  i + Z.of_nat todo = 10 -> 0 <= i -> 0 <= position r ->
  exists r', content r' = content r /\ 0 <= position r' /\
  match read_vint_loop (rest_of r) i result shift with
  | Ok (v, n) =>
      read_vint_from_loop todo i result shift r =
        (Ok (v, n), set_position (position r + (n - i)) r)
  | o => read_vint_from_loop todo i result shift r = (o, r')
  end.
Proof.
  revert i result shift r. induction todo as [|todo IH]; intros i result shift r Hi Hi0 Hp.
  - exists r. split; [done|]. split; [done|]. cbn [read_vint_from_loop]. unfold lift.
    destruct (rest_of r) as [|b l]; cbn [read_vint_loop]; [done|].
    unfold VINT_MAX_BYTES. rewrite (proj2 (Z.leb_le _ _)) by lia. done.
  - cbn [read_vint_from_loop]. destruct (rest_of r) as [|b l] eqn:Er; cbn [read_vint_loop].
    + exists (set_position (zlen (content r)) r). split; [done|]. split; [apply zlen_nonneg|].
      unfold mbind, io_bind, map_err. rewrite read_exact_short; [done|].
      rewrite Er. done.
    + assert (Hone : read_exact 1 r = (Ok [b], set_position (position r + 1) r)).
      { rewrite read_exact_ok; rewrite Er; [by rewrite ztake_nat|]. rewrite zlen_cons. pose proof (zlen_nonneg l). lia. }
      assert (Hnext : rest_of (set_position (position r + 1) r) = l).
      { rewrite rest_of_advance, Er by lia. rewrite zdrop_cons by lia. apply zdrop_0. }
      unfold VINT_MAX_BYTES. rewrite (proj2 (Z.leb_gt 10 i)) by lia.
      unfold mbind, io_bind, map_err at 1 2 3, lift. rewrite Hone. cbn [index get].
      change (index [b] 0) with (Ok (E := rar_error) b). cbv beta iota.
      destruct (Z.land (u8 b) 128 =? 0).
      { exists r. split; [done|]. split; [done|]. replace (i + 1 - i) with 1 by lia. done. }
      destruct (i =? 10 - 1).
      { exists (set_position (position r + 1) r). split; [done|]. split; [cbn; lia|done]. }
      destruct (IH (i + 1) (Z.lor result (wrap64 (Z.shiftl (Z.land (u8 b) 127) shift))) (shift + 7)
                  (set_position (position r + 1) r)) as (r' & Hc & Hp' & Hspec); [lia..|cbn; lia|].
      exists r'. split; [done|]. split; [done|]. rewrite Hnext in Hspec.
      destruct (read_vint_loop l _ _ _) as [[v n]| |]; rewrite Hspec; [|done..].
      f_equal. unfold set_position. cbn. f_equal. lia.
Qed.

(** [read_vint_from] on a reader is [read_vint] on the bytes ahead of it. *)
Lemma read_vint_from_spec r :
  0 <= position r ->
  exists r', content r' = content r /\ 0 <= position r' /\
  read_vint_from r =
    match read_vint (rest_of r) with
    | Ok (v, n) => (Ok (v, n), set_position (position r + n) r)
    | o => (o, r')
    end.
Proof.
  intros Hp. unfold read_vint_from, read_vint.
  destruct (read_vint_from_loop_spec 10 0 0 0 r) as (r' & Hc & Hp' & Hspec); [lia..|].
  exists r'. split; [done|]. split; [done|].
  destruct (read_vint_loop (rest_of r) 0 0 0) as [[v n]| |]; rewrite Hspec; [|done..].
  rewrite Z.sub_0_r. done.
Qed.

(** ** The reader invariant: a position is never negative and the bytes never
    change; [below n] also bounds the position. *)
Definition reader_ok (bytes : list byte) (r : reader) : Prop :=
  content r = bytes /\ 0 <= position r.

Lemma rest_of_len r : 0 <= position r -> zlen (rest_of r) = Z.max 0 (zlen (content r) - position r).
Proof. intros. unfold rest_of. rewrite zlen_drop by lia. done. Qed.

(** ** Reads of a reader that keeps its bytes *)

Lemma wp_read_exact n r (Q : list byte -> reader -> Prop) F :
  0 <= n -> 0 <= position r ->
  (n <= zlen (rest_of r) -> zlen (ztake n (rest_of r)) = n ->
     Q (ztake n (rest_of r)) (set_position (position r + n) r)) ->
  (forall r', reader_ok (content r) r' -> F (Io UnexpectedEof) r') ->
  wp (read_exact n) r Q F.
Proof.
  intros Hn Hp HQ HF. unfold wp. destruct (Z.le_gt_cases n (zlen (rest_of r))).
  - rewrite read_exact_ok by done. apply HQ; [done|]. rewrite zlen_take by lia. lia.
  - rewrite read_exact_short by done. apply HF. split; [done|]. apply zlen_nonneg.
Qed.

Lemma wp_on_reader {A} (m : io reader A) w (Q : A -> walk_state -> Prop) F :
  wp m (rd w) (fun a r => Q a (mk_walk r (short w) (stop w)))
    (fun e r => F e (mk_walk r (short w) (stop w))) ->
  wp (on_reader m) w Q F.
Proof. unfold wp, on_reader. destruct (m (rd w)) as [[a|e|] r]; auto. Qed.

(** A facts walk absorbs a short read; what it leaves is the reader of the
    failed read and a recorded [ShortRead]. *)
Lemma wp_absorb {A} (m : io reader A) scan floor w (Q : option A -> walk_state -> Prop) F :
  wp m (rd w) (fun a r => Q (Some a) (mk_walk r (short w) (stop w)))
    (fun e r => F e (mk_walk r (short w) (stop w)) /\
       (scan = ForFacts -> is_short_read e = true ->
          Q None (mk_walk r (Some (truncated (next_needed floor r) e)) (stop w)))) ->
  wp (absorb_short_read m scan floor) w Q F.
Proof.
  intros Hm. unfold absorb_short_read. apply wp_bind, wp_attempt, wp_on_reader.
  eapply wp_mono; [exact Hm| |].
  - intros a r HQ. by apply wp_ret.
  - intros e r [HF HQ]. destruct (is_for_facts scan && is_short_read e) eqn:Hc.
    + apply andb_true_iff in Hc as [Hs He]. destruct scan; try done.
      apply wp_bind, wp_gets, wp_bind, wp_modify, wp_ret. cbn. auto.
    + by apply wp_err.
Qed.
