(* ===== verification/HeaderCommon.v ===== *)
(** The general RAR5 header ([crates/unrar-rs/src/header/common.rs]): block
    framing, the common fields, the type-specific offset and the extra area. *)
From S2P Require Import Prelude.
From S2P Require Import RarTypes.
From S2P Require Import Vint.
From S2P Require Import Reader.

(** * Constants and types *)

Definition MAX_HEADER_BODY : Z := RAR5_MAX_HEADER_BODY.
Definition MAX_HEADER_SIZE_VINT_BYTES : Z := 3.

Module flags.
Definition EXTRA_AREA : Z := 0x0001.
Definition DATA_AREA : Z := 0x0002.
Definition SKIP_IF_UNKNOWN : Z := 0x0004.
Definition SPLIT_BEFORE : Z := 0x0008.
Definition SPLIT_AFTER : Z := 0x0010.
Definition CHILD : Z := 0x0020.
Definition INHERITED : Z := 0x0040.
End flags.

Module HeaderType.
Inductive t := MainArchive | File | Service | Encryption | EndArchive | Unknown (value : Z).
#[global] Instance eq_dec : EqDecision t.
Proof. solve_decision. Defined.
Definition from (value : Z) : t :=
  match value with
  | 1 => MainArchive | 2 => File | 3 => Service | 4 => Encryption | 5 => EndArchive
  | other => Unknown other
  end.
End HeaderType.

Module RawHeader.
Record t := mk {
  offset : Z;
  crc32 : Z;
  header_size : Z;
  header_size_vint_len : Z;
  header_type : HeaderType.t;
  flags : Z;
  extra_area_size : Z;
  data_area_size : Z;
  body : list byte;
}.
Definition is_split_before (raw : t) : bool := has (flags raw) flags.SPLIT_BEFORE.
Definition is_split_after (raw : t) : bool := has (flags raw) flags.SPLIT_AFTER.
Definition has_extra_area (raw : t) : bool := has (flags raw) flags.EXTRA_AREA.
Definition has_data_area (raw : t) : bool := has (flags raw) flags.DATA_AREA.
End RawHeader.

(** * Operations *)

Definition validate_header_size (offset header_size header_size_vint_len : Z) : result unit :=
  if header_size =? 0 then Err CorruptArchive
  else if MAX_HEADER_SIZE_VINT_BYTES <? header_size_vint_len then Err CorruptArchive
  else if MAX_HEADER_BODY <? header_size then Err CorruptArchive
  else Ok tt.

(** [vint::read_vint(&body[pos..])?] together with [pos += n]. *)
Definition read_vint_at (body : list byte) (pos : Z) : result (Z * Z) :=
  tail ← slice_from body pos;
  '(value, n) ← read_vint tail;
  mret (value, pos + n).

(** An optional size field: read when its flag is set, zero otherwise. *)
Definition read_optional_size (body : list byte) (present : bool) (pos : Z) : result (Z * Z) :=
  if present then read_vint_at body pos else mret (0, pos).

(** The common fields at the start of a header body. *)
Definition parse_common_fields (body : list byte) : result (Z * Z * Z * Z) :=
  '(header_type_val, pos) ← read_vint_at body 0;
  '(header_flags, pos) ← read_vint_at body pos;
  '(extra_area_size, pos) ← read_optional_size body (has header_flags flags.EXTRA_AREA) pos;
  '(data_area_size, _) ← read_optional_size body (has header_flags flags.DATA_AREA) pos;
  mret (header_type_val, header_flags, extra_area_size, data_area_size).

Definition parse_raw_header_from_parts (offset crc32 header_size header_size_vint_len : Z)
    (body : list byte) : result RawHeader.t :=
  _ ← validate_header_size offset header_size header_size_vint_len;
  '(header_type_val, header_flags, extra_area_size, data_area_size) ← parse_common_fields body;
  mret (RawHeader.mk offset crc32 header_size header_size_vint_len
          (HeaderType.from header_type_val) header_flags extra_area_size data_area_size body).

(** [read_raw_header]. The CRC-32 mismatch is only logged by the code, so the
    stored value is kept and not compared. *)
Definition read_raw_header : io reader (option RawHeader.t) :=
  offset ← stream_position;
  crc ← attempt (read_exact 4);
  match crc with
  | inl e => if is_unexpected_eof e then mret None else lift (Err e)
  | inr crc_buf =>
      let stored_crc := u32_le crc_buf in
      '(header_size, header_size_vint_len) ← read_vint_from;
      _ ← lift (validate_header_size offset header_size header_size_vint_len);
      body ← map_err (fun e => if is_unexpected_eof e then TruncatedHeader offset else e)
               (read_exact header_size);
      '(header_type_val, header_flags, extra_area_size, data_area_size) ←
        lift (parse_common_fields body);
      mret (Some (RawHeader.mk offset stored_crc header_size header_size_vint_len
                    (HeaderType.from header_type_val) header_flags
                    extra_area_size data_area_size body))
  end.

Definition skip_data_area (raw : RawHeader.t) : io reader unit :=
  if 0 <? RawHeader.data_area_size raw then
    if I64_MAX <? RawHeader.data_area_size raw then lift (Err CorruptArchive)
    else seek_current (RawHeader.data_area_size raw)
  else mret tt.

Definition type_specific_offset (raw : RawHeader.t) : result Z :=
  let body := RawHeader.body raw in
  '(_, pos) ← read_vint_at body 0;
  '(fl, pos) ← read_vint_at body pos;
  '(_, pos) ← read_optional_size body (has fl flags.EXTRA_AREA) pos;
  '(_, pos) ← read_optional_size body (has fl flags.DATA_AREA) pos;
  mret pos.

Definition extra_area_bytes (raw : RawHeader.t) : result (option (list byte)) :=
  if RawHeader.extra_area_size raw =? 0 then mret None
  else
    let ea_size := RawHeader.extra_area_size raw in
    let body_len := zlen (RawHeader.body raw) in
    if body_len <? ea_size then mret None
    else ea ← slice_from (RawHeader.body raw) (body_len - ea_size); mret (Some ea).

(** * Laws of the parsers *)

(** Positions inside a buffer. *)
Definition inside (body : list byte) (pos : Z) : Prop := 0 <= pos <= zlen body.

Lemma read_vint_at_safe body pos :
  inside body pos ->
  safe (read_vint_at body pos) (fun '(v, p) => 0 <= v < 2 ^ 64 /\ pos < p /\ inside body p).
Proof.
  unfold inside. intros Hpos. unfold read_vint_at. rewrite slice_from_ok by lia. cbn.
  eapply safe_bind; [apply read_vint_safe|]. intros [v n] _ (Hv & Hn & Hlen). cbn.
  rewrite zlen_drop in Hlen by lia. lia.
Qed.

Lemma read_optional_size_safe body b pos :
  inside body pos ->
  safe (read_optional_size body b pos)
    (fun '(v, p) => 0 <= v < 2 ^ 64 /\ (b = false -> v = 0) /\ pos <= p /\ inside body p).
Proof.
  intros Hpos. unfold read_optional_size. destruct b.
  - eapply safe_mono; [by apply read_vint_at_safe|]. intros [v p] _ (?&?&?). split_and!; done || lia.
  - cbn. lia || (split_and!; done || lia).
Qed.

Lemma parse_common_fields_safe body :
  safe (parse_common_fields body)
    (fun '(_, fl, ea, da) => 0 <= ea < 2 ^ 64 /\ 0 <= da < 2 ^ 64 /\
       (has fl flags.EXTRA_AREA = false -> ea = 0) /\ (has fl flags.DATA_AREA = false -> da = 0)).
Proof.
  unfold parse_common_fields.
  assert (inside body 0) by (unfold inside; pose proof (zlen_nonneg body); lia).
  eapply safe_bind; [by apply read_vint_at_safe|]. intros [ht p1] _ (_ & _ & Hp1).
  eapply safe_bind; [by apply read_vint_at_safe|]. intros [fl p2] _ (_ & _ & Hp2).
  eapply safe_bind; [by apply read_optional_size_safe|]. intros [ea p3] _ (Hea & Hea0 & _ & Hp3).
  eapply safe_bind; [by apply read_optional_size_safe|]. intros [da p4] _ (Hda & Hda0 & _ & _).
  cbn. auto.
Qed.

(** The offset of the type-specific fields exists for every body whose common
    fields parsed, and lies inside the body. *)
Lemma type_specific_offset_common raw ht fl ea da :
  parse_common_fields (RawHeader.body raw) = Ok (ht, fl, ea, da) ->
  exists pos, type_specific_offset raw = Ok pos /\ 0 < pos /\ inside (RawHeader.body raw) pos.
Proof.
  set (body := RawHeader.body raw). unfold parse_common_fields, type_specific_offset.
  fold body. intros H.
  assert (Hin0 : inside body 0) by (unfold inside; pose proof (zlen_nonneg body); lia).
  pose proof (read_vint_at_safe body 0 Hin0) as S1.
  inv_bind H. destruct r as [v1 p1]. rewrite Hr in S1 |- *. cbn in S1 |- *.
  destruct S1 as (_ & Hp1 & Hin1). pose proof (read_vint_at_safe body p1 Hin1) as S2.
  inv_bind H. destruct r as [v2 p2]. rewrite Hr0 in S2 |- *. cbn in S2 |- *.
  destruct S2 as (_ & Hp2 & Hin2).
  pose proof (read_optional_size_safe body (has v2 flags.EXTRA_AREA) p2 Hin2) as S3.
  inv_bind H. destruct r as [v3 p3]. rewrite Hr1 in S3 |- *. cbn in S3 |- *.
  destruct S3 as (_ & _ & Hp3 & Hin3).
  pose proof (read_optional_size_safe body (has v2 flags.DATA_AREA) p3 Hin3) as S4.
  inv_bind H. destruct r as [v4 p4]. rewrite Hr2 in S4 |- *. cbn in S4 |- *.
  destruct S4 as (_ & _ & Hp4 & Hin4). exists p4. split_and!; done || lia.
Qed.

Lemma extra_area_bytes_ok raw :
  0 <= RawHeader.extra_area_size raw ->
  exists ea, extra_area_bytes raw = Ok ea.
Proof.
  intros H. unfold extra_area_bytes. destruct (_ =? 0); [eexists; done|].
  destruct (Z.ltb_spec (zlen (RawHeader.body raw)) (RawHeader.extra_area_size raw)); [eexists; done|].
  rewrite slice_from_ok by lia. eexists; done.
Qed.

(** * Well-formed raw headers

    What every header has that the readers return: a validated size, a body of
    that size, and common fields that are the ones the body states. *)
Definition raw_ok (raw : RawHeader.t) : Prop :=
  0 <= RawHeader.offset raw /\
  0 < RawHeader.header_size raw <= MAX_HEADER_BODY /\
  0 < RawHeader.header_size_vint_len raw <= MAX_HEADER_SIZE_VINT_BYTES /\
  zlen (RawHeader.body raw) = RawHeader.header_size raw /\
  exists ht, RawHeader.header_type raw = HeaderType.from ht /\
    parse_common_fields (RawHeader.body raw) =
      Ok (ht, RawHeader.flags raw, RawHeader.extra_area_size raw, RawHeader.data_area_size raw).

Lemma raw_ok_sizes raw : raw_ok raw ->
  0 <= RawHeader.extra_area_size raw < 2 ^ 64 /\ 0 <= RawHeader.data_area_size raw < 2 ^ 64.
Proof.
  intros (_ & _ & _ & _ & ht & _ & H). pose proof (parse_common_fields_safe (RawHeader.body raw)) as S.
  rewrite H in S. cbn in S. tauto.
Qed.

Lemma raw_ok_offset raw : raw_ok raw ->
  exists pos, type_specific_offset raw = Ok pos /\ 0 < pos /\ inside (RawHeader.body raw) pos.
Proof. intros (_ & _ & _ & _ & ht & _ & H). by eapply type_specific_offset_common. Qed.

Lemma validate_header_size_ok o s n :
  validate_header_size o s n = Ok tt -> 0 <= s -> 0 < s <= MAX_HEADER_BODY /\ n <= MAX_HEADER_SIZE_VINT_BYTES.
Proof.
  unfold validate_header_size.
  destruct (Z.eqb_spec s 0), (Z.ltb_spec MAX_HEADER_SIZE_VINT_BYTES n),
    (Z.ltb_spec MAX_HEADER_BODY s); intros; done || lia.
Qed.
Lemma validate_header_size_no_panic o s n : no_panic (validate_header_size o s n).
Proof. unfold validate_header_size. repeat case_match; done. Qed.

Lemma parse_raw_header_from_parts_safe offset crc size n body :
  0 <= offset -> 0 <= size -> 0 < n -> zlen body = size ->
  safe (parse_raw_header_from_parts offset crc size n body)
    (fun raw => raw_ok raw /\ RawHeader.offset raw = offset /\ RawHeader.header_size raw = size /\
       RawHeader.header_size_vint_len raw = n /\ RawHeader.body raw = body).
Proof.
  intros Ho Hs Hn Hlen. unfold parse_raw_header_from_parts.
  eapply safe_bind; [apply validate_header_size_no_panic|]. intros [] Hval _.
  apply validate_header_size_ok in Hval; [|done].
  eapply safe_bind; [apply parse_common_fields_safe|]. intros [[[ht fl] ea] da] Hc _.
  cbn. split_and!; try done. unfold raw_ok; cbn. split_and!; try done || lia. eauto.
Qed.

(** * The reader of raw headers

    What [read_raw_header] does to the reader: a header is framed by its CRC
    field, its size vint and its body, and the reader is left right after it. *)
Definition header_end (raw : RawHeader.t) : Z :=
  RawHeader.offset raw + 4 + RawHeader.header_size_vint_len raw + RawHeader.header_size raw.

Lemma read_raw_header_spec r :
  0 <= position r ->
  match read_raw_header r with
  | (Ok (Some raw), r') =>
      raw_ok raw /\ RawHeader.offset raw = position r /\
      r' = set_position (header_end raw) r /\ header_end raw <= zlen (content r)
  | (Ok None, r') => content r' = content r /\ 0 <= position r'
  | (Err _, r') => content r' = content r /\ 0 <= position r'
  | (Panic, _) => False
  end.
Proof.
  intros Hp. unfold read_raw_header, stream_position, gets.
  unfold mbind, io_bind, attempt, lift, map_err.
  destruct (Z.le_gt_cases 4 (zlen (rest_of r))) as [H4|H4]; cycle 1.
  { rewrite read_exact_short by lia. cbn. split; [done|apply zlen_nonneg]. }
  rewrite read_exact_ok by lia. set (r1 := set_position (position r + 4) r).
  assert (Hp1 : 0 <= position r1) by (cbn; lia).
  destruct (read_vint_from_spec r1 Hp1) as (r1' & Hc1 & Hpos1 & ->).
  pose proof (read_vint_safe (rest_of r1)) as Sv.
  destruct (read_vint (rest_of r1)) as [[size n]|e|]; [|by cbn..].
  cbn in Sv. destruct Sv as (Hsize & Hn & Hnlen). cbv beta iota.
  pose proof (validate_header_size_no_panic (position r) size n) as Hvp.
  destruct (validate_header_size (position r) size n) as [[]|e|] eqn:Hval;
    [|cbn; split; [done|lia]|done].
  apply validate_header_size_ok in Hval; [|lia].
  set (r2 := set_position (position r1 + n) r1). assert (Hp2 : 0 <= position r2) by (cbn; lia).
  destruct (Z.le_gt_cases size (zlen (rest_of r2))) as [Hs|Hs]; cycle 1.
  { rewrite read_exact_short by lia. cbn. split; [done|apply zlen_nonneg]. }
  rewrite read_exact_ok by lia.
  set (body := ztake size (rest_of r2)).
  pose proof (parse_common_fields_safe body) as Sc.
  destruct (parse_common_fields body) as [[[[ht fl] ea] da]|e|] eqn:Hcf; [|cbn; split; [done|lia]|done].
  cbn. rewrite rest_of_len in Hs by lia. cbn in Hs.
  unfold header_end, raw_ok. cbn. split_and!; try done || lia.
  - unfold body. rewrite zlen_take by lia. rewrite rest_of_len by lia. cbn. lia.
  - eauto.
Qed.

(** The bytes of a header as the format frames it. *)
Definition frame (crc size n : Z) (body : list byte) : list byte :=
  le_split 4 crc ++ vint_encode_for_crc size n ++ body.

Lemma u32_le_prefix crc l : 0 <= crc < 2 ^ 32 -> u32_le (ztake 4 (le_split 4 crc ++ l)) = crc.
Proof.
  intros Hc. unfold u32_le. rewrite (ztake_app_zlen (le_split 4 crc)).
  rewrite ztake_all, le_combine_split by (rewrite zlen_le_split; lia).
  change (256 ^ Z.of_nat 4) with (2 ^ 32). apply Z.mod_small. lia.
Qed.

Lemma rest_of_at pre l : rest_of (mk_reader (pre ++ l) (zlen pre)) = l.
Proof. unfold rest_of. cbn. apply zdrop_app_zlen. Qed.

Lemma read_raw_header_frame pre tail crc size n body :
  0 <= crc < 2 ^ 32 -> 0 < n <= 3 -> 0 < size <= MAX_HEADER_BODY -> size < 2 ^ (7 * n) ->
  zlen body = size ->
  let bytes := pre ++ frame crc size n body ++ tail in
  read_raw_header (mk_reader bytes (zlen pre)) =
    (Some <$> parse_raw_header_from_parts (zlen pre) crc size n body,
     mk_reader bytes (zlen pre + 4 + n + size)).
Proof.
  intros Hcrc Hn Hsize Hpad Hbody bytes.
  unfold frame in bytes. subst bytes. rewrite <- !app_assoc.
  set (bytes := pre ++ _). unfold MAX_HEADER_BODY, RAR5_MAX_HEADER_BODY in Hsize.
  pose proof (zlen_nonneg pre). pose proof (zlen_nonneg tail).
  unfold read_raw_header, stream_position, gets, mbind, io_bind, attempt, lift, map_err. cbv beta iota.
  assert (Hr : rest_of (mk_reader bytes (zlen pre)) =
     le_split 4 crc ++ vint_encode_for_crc size n ++ body ++ tail) by apply rest_of_at.
  rewrite read_exact_ok; rewrite Hr;
    [|rewrite zlen_app, zlen_le_split; pose proof (zlen_nonneg (vint_encode_for_crc size n ++ body ++ tail)); lia].
  set (r1 := set_position _ _).
  assert (Hr1 : rest_of r1 = vint_encode_for_crc size n ++ body ++ tail).
  { unfold r1. rewrite rest_of_advance by (cbn; lia). rewrite Hr. apply (zdrop_app_zlen (le_split 4 crc)). }
  destruct (read_vint_from_spec r1) as (r' & _ & _ & ->); [cbn; lia|].
  rewrite Hr1, read_padded_vint by lia.
  assert (Hv : validate_header_size (zlen pre) size n = Ok tt).
  { unfold validate_header_size, MAX_HEADER_SIZE_VINT_BYTES, MAX_HEADER_BODY, RAR5_MAX_HEADER_BODY.
    rewrite (proj2 (Z.eqb_neq _ _)), !(proj2 (Z.ltb_ge _ _)) by lia. done. }
  cbn [position]. rewrite Hv. set (r2 := set_position (position r1 + n) r1).
  assert (Hr2 : rest_of r2 = body ++ tail).
  { unfold r2. rewrite rest_of_advance by (cbn; lia). rewrite Hr1.
    rewrite <- (zlen_vint_encode_for_crc size n) at 1 by lia. apply zdrop_app_zlen. }
  rewrite read_exact_ok; rewrite Hr2; [|rewrite zlen_app; lia].
  assert (Ht : ztake size (body ++ tail) = body) by (rewrite <- Hbody; apply ztake_app_zlen).
  rewrite !Ht, u32_le_prefix by done.
  unfold parse_raw_header_from_parts. rewrite Hv.
  destruct (parse_common_fields body) as [[[[ht fl] ea] da]|e|]; cbn; unfold set_position; cbn;
    f_equal; f_equal; lia.
Qed.

(** A header that was read is its frame, byte for byte. *)
Lemma read_raw_header_inv r raw r' :
  0 <= position r -> read_raw_header r = (Ok (Some raw), r') ->
  0 <= RawHeader.crc32 raw < 2 ^ 32 /\
  RawHeader.header_size raw < 2 ^ (7 * RawHeader.header_size_vint_len raw) /\
  exists tail, rest_of r =
    frame (RawHeader.crc32 raw) (RawHeader.header_size raw) (RawHeader.header_size_vint_len raw)
      (RawHeader.body raw) ++ tail.
Proof.
  intros Hp. unfold read_raw_header, stream_position, gets.
  unfold mbind, io_bind, attempt, lift, map_err.
  destruct (Z.le_gt_cases 4 (zlen (rest_of r))) as [H4|H4]; [|by rewrite read_exact_short by lia].
  rewrite read_exact_ok by lia. set (r1 := set_position (position r + 4) r).
  assert (Hp1 : 0 <= position r1) by (cbn; lia).
  assert (Hr1 : rest_of r1 = zdrop 4 (rest_of r)) by (apply rest_of_advance; lia).
  destruct (read_vint_from_spec r1 Hp1) as (r1' & Hc1 & Hpos1 & ->).
  pose proof (read_vint_safe (rest_of r1)) as Sv.
  destruct (read_vint (rest_of r1)) as [[size n]|e|] eqn:Hv; [|by cbn..].
  cbn in Sv. destruct Sv as (Hsize & Hn). cbv beta iota.
  destruct (validate_header_size (position r) size n) as [[]|e|] eqn:Hval; [|done..].
  apply validate_header_size_ok in Hval; [|lia]. unfold MAX_HEADER_SIZE_VINT_BYTES in Hval.
  set (r2 := set_position (position r1 + n) r1).
  assert (Hr2 : rest_of r2 = zdrop n (rest_of r1)) by (apply rest_of_advance; lia).
  destruct (Z.le_gt_cases size (zlen (rest_of r2))) as [Hs|Hs]; [|by rewrite read_exact_short by lia].
  rewrite read_exact_ok by lia. set (body := ztake size (rest_of r2)).
  destruct (parse_common_fields body) as [[[[ht fl] ea] da]|e|] eqn:Hcf; [|done..].
  intros [= <- _].
  cbn [RawHeader.crc32 RawHeader.header_size RawHeader.header_size_vint_len RawHeader.body].
  assert (H4' : zlen (ztake 4 (rest_of r)) = 4) by (rewrite zlen_take by lia; lia).
  split; [apply u32_le_range|]. split; [apply (read_vint_bound (rest_of r1)); [lia|done]|].
  exists (zdrop size (rest_of r2)). unfold frame.
  rewrite (vint_reencode (rest_of r1)) by (done || lia).
  assert (Hcrc : le_split 4 (u32_le (ztake 4 (rest_of r))) = ztake 4 (rest_of r)).
  { unfold u32_le. rewrite (ztake_all (ztake 4 (rest_of r))) by lia.
    rewrite <- (le_split_combine (ztake 4 (rest_of r))) at 2. f_equal. unfold zlen in H4'. lia. }
  rewrite Hcrc, <- !app_assoc. unfold body.
  rewrite ztake_zdrop, Hr2, ztake_zdrop, Hr1, ztake_zdrop by lia. done.
Qed.
