(* ===== verification/HeaderFields.v ===== *)
(** The small RAR5 headers and bit fields: the compression word
    ([crates/unrar-rs/src/header/compression_info.rs]), the end-of-archive
    header ([end_archive.rs]) and the archive encryption header
    ([encryption.rs]). *)
From S2P Require Import Prelude.
From S2P Require Import RarTypes.
From S2P Require Import Vint.
From S2P Require Import Reader.
From S2P Require Import HeaderCommon.

(** * Compression information *)

Definition RAR5_DICT_BASE : Z := 128 * 1024.
Definition FCI_RAR5_COMPAT : Z := 0x00100000.

(** [checked_shl] refuses a shift of 64 or more. *)
Definition rar5_dict_size (dict_code : Z) : result Z :=
  if dict_code <? 64 then Ok (wrap64 (Z.shiftl RAR5_DICT_BASE dict_code)) else Err CorruptArchive.

Definition rar7_dict_size (raw : Z) : result Z :=
  let dict_code := Z.land (Z.shiftr raw 10) 0x1F in
  let fraction := Z.land (Z.shiftr raw 15) 0x1F in
  base ← rar5_dict_size dict_code;
  add_u64 base (base / 32 * fraction).

Definition decode_compression_info_for_file (raw : Z) (is_directory : bool)
    : result CompressionInfo.t :=
  let raw_version := Z.land raw 0x3F in
  let solid := negb (Z.land (Z.shiftr raw 6) 1 =? 0) in
  let method_code := Z.land (Z.shiftr raw 7) 0x07 in
  '(version, dict_size) ←
    (if raw_version =? 0 then
       if is_directory then mret (0, 0)
       else size ← rar5_dict_size (Z.land (Z.shiftr raw 10) 0x0F); mret (0, size)
     else if raw_version =? 1 then
       if is_directory then mret (1, 0)
       else size ← rar7_dict_size raw;
            mret (if has raw FCI_RAR5_COMPAT then 0 else 1, size)
     else if method_code =? 0 then mret (raw_version, 0)
     else Err (UnsupportedCompression method_code raw_version));
  if RAR_UNPACK_MAX_DICT_SIZE <? dict_size
  then Err (DictionaryTooLarge dict_size RAR_UNPACK_MAX_DICT_SIZE)
  else mret (CompressionInfo.mk Rar5 version solid (CompressionMethod.from_code method_code) dict_size).

Definition decode_compression_info (raw : Z) : result CompressionInfo.t :=
  decode_compression_info_for_file raw false.

(** * End of archive *)

Module EndArchive.
Definition MORE_VOLUMES : Z := 0x0001.
Record t := mk { more_volumes : bool; end_flags : Z }.

Definition parse (raw : RawHeader.t) : result t :=
  offset ← type_specific_offset raw;
  body ← slice_from (RawHeader.body raw) offset;
  let '(end_flags, _) := read_raw_vint_lossy body in
  mret (mk (has end_flags MORE_VOLUMES) end_flags).
End EndArchive.

(** * Archive encryption *)

Definition CRYPT5_KDF_LG2_COUNT_MAX : Z := 24.

Module Encryption.
Definition CRYPT_VERSION : Z := 0.

(** [read_byte_lossy] and [read_bytes_lossy::<N>]: the value and the position
    after it. *)
Definition read_byte_lossy (data : list byte) (pos : Z) : byte * Z :=
  let value := default x00 (get data pos) in
  (value, if pos <? zlen data then pos + 1 else pos).
Definition read_bytes_lossy (n : Z) (data : list byte) (pos : Z) : list byte * Z :=
  let available := get_from data pos in
  let copied := Z.min (zlen available) n in
  (zero_filled n available, Z.min (sat_add_u64 pos copied) (zlen data)).

Record t := mk {
  version : Z;
  enc_flags : Z;
  kdf_count : Z;
  salt : list byte;
  has_password_check : bool;
  check_data : option (list byte);
}.

Section parse.
(** [crypto::sha256_digest], computed by a library. *)
Context (sha256_digest : list byte -> list byte).

(** The check value of a record is kept when its last four bytes are the
    first four of the digest of its first eight. *)
Definition validated_password_check (check_data : list byte) : option (list byte) :=
  let digest := sha256_digest (ztake 8 check_data) in
  if bool_decide (ztake 4 digest = ztake 4 (zdrop 8 check_data)) then Some check_data else None.

Definition parse (raw : RawHeader.t) : result t :=
  offset ← type_specific_offset raw;
  body ← slice_from (RawHeader.body raw) offset;
  tail ← slice_from body 0;
  let '(version, n) := read_vint_lossy tail in
  let pos := n in
  if CRYPT_VERSION <? version then Err (UnsupportedEncryption version)
  else
    tail ← slice_from body pos;
    let '(enc_flags, n) := read_vint_lossy tail in
    let pos := pos + n in
    let '(kdf_byte, pos) := read_byte_lossy body pos in
    let kdf_count := u8 kdf_byte in
    if CRYPT5_KDF_LG2_COUNT_MAX <? kdf_count
    then Err (UnsupportedEncryptionKdf kdf_count CRYPT5_KDF_LG2_COUNT_MAX)
    else
      let '(salt, pos) := read_bytes_lossy 16 body pos in
      let has_password_check := has enc_flags 0x0001 in
      let check_data :=
        if has_password_check
        then validated_password_check (read_bytes_lossy 12 body pos).1
        else None in
      mret (mk version enc_flags kdf_count salt has_password_check check_data).
End parse.
End Encryption.

(** * Laws *)

(** Decide the length side conditions of slices. *)
Ltac slen :=
  unfold inside in *;
  repeat match goal with
  | |- context [zlen (zdrop ?i ?l)] => rewrite (zlen_drop i l) by slen
  | |- context [zlen (ztake ?i ?l)] => rewrite (zlen_take i l) by slen
  | H : context [zlen (zdrop ?i ?l)] |- _ => rewrite (zlen_drop i l) in H by lia
  | H : context [zlen (ztake ?i ?l)] |- _ => rewrite (zlen_take i l) in H by lia
  end;
  repeat match goal with
  | |- context [zlen ?l] =>
      lazymatch goal with
      | _ : 0 <= zlen l |- _ => fail
      | _ => pose proof (zlen_nonneg l)
      end
  end; lia.

(** Step over a slice that is in range. *)
Ltac step_slice :=
  lazymatch goal with
  | |- no_panic (slice_from ?l ?a ≫= _) => rewrite (slice_from_ok l a) by slen
  | |- no_panic (slice ?l ?a ?b ≫= _) => rewrite (slice_ok l a b) by slen
  | |- safe (slice_from ?l ?a ≫= _) _ => rewrite (slice_from_ok l a) by slen
  | |- safe (slice ?l ?a ?b ≫= _) _ => rewrite (slice_ok l a b) by slen
  end; cbn [mbind outcome_bind].

(** Step over a lenient vint, keeping what is known of it. *)
Ltac step_lossy v n :=
  match goal with
  | |- context [read_raw_vint_lossy ?d] =>
      let E := fresh "E" in
      destruct (read_raw_vint_lossy d) as [v n] eqn:E; apply lossy_range in E;
      cbn beta iota
  end.

(** The type-specific bytes of a well-formed header. *)
Ltac step_type_specific raw Hraw :=
  let pos := fresh "off" in let Hoff := fresh "Hoff" in let Hin := fresh "Hin" in
  destruct (raw_ok_offset raw Hraw) as (pos & Hoff & ? & Hin); rewrite Hoff;
  cbn [mbind outcome_bind].

Lemma EndArchive_parse_no_panic raw : raw_ok raw -> no_panic (EndArchive.parse raw).
Proof.
  intros Hraw. unfold EndArchive.parse. step_type_specific raw Hraw. step_slice.
  step_lossy v n. done.
Qed.

Lemma Encryption_parse_no_panic sha raw : raw_ok raw -> no_panic (Encryption.parse sha raw).
Proof.
  intros Hraw. unfold Encryption.parse. step_type_specific raw Hraw.
  step_slice. step_slice. rewrite read_vint_lossy_eq. step_lossy version n1.
  destruct (_ <? version); [done|]. step_slice. rewrite read_vint_lossy_eq. step_lossy enc_flags n2.
  destruct (Encryption.read_byte_lossy _ _) as [b pos1].
  destruct (_ <? u8 b); [done|]. destruct (Encryption.read_bytes_lossy _ _ _) as [s pos2]. done.
Qed.

Lemma rar5_dict_size_range c : 0 <= c < 32 -> rar5_dict_size c = Ok (2 ^ 17 * 2 ^ c).
Proof.
  intros Hc. unfold rar5_dict_size. rewrite (proj2 (Z.ltb_lt _ _)) by lia. f_equal.
  unfold RAR5_DICT_BASE. rewrite Z.shiftl_mul_pow2 by lia.
  assert (2 ^ c <= 2 ^ 31) by (apply Z.pow_le_mono_r; lia).
  rewrite wrap64_small by lia. lia.
Qed.

(** The size a RAR7 word states: [32 + f] thirty-seconds of a power of two. *)
Lemma rar7_dict_size_eq raw :
  rar7_dict_size raw =
    Ok (2 ^ 12 * 2 ^ Z.land (Z.shiftr raw 10) 0x1F * (32 + Z.land (Z.shiftr raw 15) 0x1F)).
Proof.
  unfold rar7_dict_size.
  set (c := Z.land (Z.shiftr raw 10) 0x1F). set (f := Z.land (Z.shiftr raw 15) 0x1F).
  assert (Hc : 0 <= c < 32) by (apply (land_range _ 5); lia).
  assert (Hf : 0 <= f < 32) by (apply (land_range _ 5); lia).
  assert (0 < 2 ^ c <= 2 ^ 31) by (split; [lia|apply Z.pow_le_mono_r; lia]).
  rewrite rar5_dict_size_range by lia. cbn [mbind outcome_bind]. unfold add_u64.
  replace (2 ^ 17 * 2 ^ c / 32) with (2 ^ 12 * 2 ^ c) by (apply Z.div_unique_exact; lia).
  rewrite (proj2 (Z.ltb_lt _ _)) by nia. f_equal. lia.
Qed.

(** A decoded dictionary is absent, or of 128 KiB at least and 64 GiB at most. *)
Definition compression_ok (c : CompressionInfo.t) : Prop :=
  CompressionInfo.dict_size c = 0 \/
  2 ^ 17 <= CompressionInfo.dict_size c <= RAR_UNPACK_MAX_DICT_SIZE.

Lemma decode_compression_info_safe raw dir :
  safe (decode_compression_info_for_file raw dir) compression_ok.
Proof.
  unfold decode_compression_info_for_file. rewrite rar7_dict_size_eq.
  assert (Hc : 0 <= Z.land (Z.shiftr raw 10) 0x0F < 16) by (apply (land_range _ 4); lia).
  assert (Hc5 : 0 <= Z.land (Z.shiftr raw 10) 0x1F < 32) by (apply (land_range _ 5); lia).
  assert (Hf : 0 <= Z.land (Z.shiftr raw 15) 0x1F < 32) by (apply (land_range _ 5); lia).
  rewrite rar5_dict_size_range by lia.
  set (c := Z.land (Z.shiftr raw 10) 0x0F) in *. set (c5 := Z.land (Z.shiftr raw 10) 0x1F) in *.
  set (f := Z.land (Z.shiftr raw 15) 0x1F) in *.
  assert (0 < 2 ^ c) by lia. assert (0 < 2 ^ c5) by lia.
  assert (Hend : forall ci, CompressionInfo.dict_size ci = 0 \/ 2 ^ 17 <= CompressionInfo.dict_size ci ->
    CompressionInfo.dict_size ci <= RAR_UNPACK_MAX_DICT_SIZE -> compression_ok ci).
  { unfold compression_ok. lia. }
  destruct (Z.land raw 0x3F =? 0); [destruct dir|destruct (Z.land raw 0x3F =? 1);
    [destruct dir|destruct (Z.land (Z.shiftr raw 7) 0x07 =? 0); [|done]]];
    cbn [mbind outcome_bind mret outcome_ret];
    (destruct (RAR_UNPACK_MAX_DICT_SIZE <? _) eqn:E; [done|]; apply Z.ltb_ge in E; apply Hend; cbn; nia).
Qed.

Lemma decode_compression_info_no_panic raw dir :
  no_panic (decode_compression_info_for_file raw dir).
Proof. eapply safe_mono; [apply decode_compression_info_safe|done]. Qed.

(** * Properties *)

(** The 64-bit compression field of a file header is
    decoded arithmetically: six version bits, the solid bit, three method bits,
    then a dictionary of [2 ^ (17 + c)] bytes for RAR5 (four bits of [c]) or of
    [(32 + f) * 2 ^ (12 + c)] bytes for RAR7 (five bits each); a RAR7 size over
    64 GiB and a packed file of a later version are refused, and nothing
    overflows. *)
Theorem decode_compression_info_spec (raw : Z) :
  0 <= raw ->
  decode_compression_info raw =
    let solid := negb ((raw / 64) mod 2 =? 0) in
    let method := CompressionMethod.from_code ((raw / 128) mod 8) in
    let c4 := (raw / 1024) mod 16 in
    let c5 := (raw / 1024) mod 32 in
    let f := (raw / 32768) mod 32 in
    let rar7_size := (32 + f) * 2 ^ (12 + c5) in
    match raw mod 64 with
    | 0 => Ok (CompressionInfo.mk Rar5 0 solid method (2 ^ (17 + c4)))
    | 1 =>
        if 2 ^ 36 <? rar7_size then Err (DictionaryTooLarge rar7_size (2 ^ 36))
        else Ok (CompressionInfo.mk Rar5 (if has raw FCI_RAR5_COMPAT then 0 else 1) solid method rar7_size)
    | v =>
        if (raw / 128) mod 8 =? 0 then Ok (CompressionInfo.mk Rar5 v solid method 0)
        else Err (UnsupportedCompression ((raw / 128) mod 8) v)
    end.
Proof.
  intros Hraw. unfold decode_compression_info, decode_compression_info_for_file.
  rewrite rar7_dict_size_eq.
  assert (L6 : forall x, Z.land x 0x3F = x mod 64) by (intros x; by apply (Z.land_ones x 6)).
  assert (L5 : forall x, Z.land x 0x1F = x mod 32) by (intros x; by apply (Z.land_ones x 5)).
  assert (L4 : forall x, Z.land x 0x0F = x mod 16) by (intros x; by apply (Z.land_ones x 4)).
  assert (L3 : forall x, Z.land x 0x07 = x mod 8) by (intros x; by apply (Z.land_ones x 3)).
  assert (L1 : forall x, Z.land x 1 = x mod 2) by (intros x; by apply (Z.land_ones x 1)).
  rewrite L6, !L5, L4, !L3, L1, !Z.shiftr_div_pow2 by lia.
  change (2 ^ 6) with 64. change (2 ^ 7) with 128. change (2 ^ 10) with 1024.
  change (2 ^ 15) with 32768.
  pose proof (Z.mod_pos_bound (raw / 1024) 16 ltac:(lia)) as H4.
  pose proof (Z.mod_pos_bound (raw / 1024) 32 ltac:(lia)) as H5.
  rewrite rar5_dict_size_range by lia. cbv zeta.
  replace (2 ^ (17 + (raw / 1024) mod 16)) with (2 ^ 17 * 2 ^ ((raw / 1024) mod 16)) by (rewrite Z.pow_add_r; lia).
  replace ((32 + (raw / 32768) mod 32) * 2 ^ (12 + (raw / 1024) mod 32))
    with (2 ^ 12 * 2 ^ ((raw / 1024) mod 32) * (32 + (raw / 32768) mod 32)) by (rewrite (Z.pow_add_r 2 12); lia).
  set (c := (raw / 1024) mod 16) in *.
  assert (2 ^ c <= 2 ^ 15) by (apply Z.pow_le_mono_r; lia).
  destruct (raw mod 64) as [|[v|v|]|v] eqn:Ev; cbn [Z.eqb Pos.eqb mbind outcome_bind mret outcome_ret];
    unfold RAR_UNPACK_MAX_DICT_SIZE.
  - by rewrite (proj2 (Z.ltb_ge 0x1000000000 _)) by lia.
  - by destruct ((raw / 128) mod 8 =? 0).
  - by destruct ((raw / 128) mod 8 =? 0).
  - change 0x1000000000 with (2 ^ 36). done.
  - pose proof (Z.mod_pos_bound raw 64). lia.
Qed.

Lemma decode_compression_info_spec_witness :
  decode_compression_info 0x0B80 =
    Ok (CompressionInfo.mk Rar5 0 false (CompressionMethod.from_code 7) (2 ^ 19)).
Proof. exact (decode_compression_info_spec 0x0B80 ltac:(discriminate)). Defined.
