(* ===== verification/HeaderExtra.v ===== *)
(** Extra-area records of file and service headers
    ([crates/unrar-rs/src/header/extra.rs]) and the time conversions they and
    the main header share. *)
From S2P Require Import Prelude.
From S2P Require Import RarTypes.
From S2P Require Import Vint.
From S2P Require Import Utf8.
From S2P Require Import Reader.
From S2P Require Import HeaderCommon.
From S2P Require Import HeaderFields.

(** * Times *)

Definition WINDOWS_TICKS_PER_SECOND : Z := 10000000.
Definition WINDOWS_TO_UNIX_SECONDS : Z := 11644473600.

Definition system_time_from_unix (seconds nanos : Z) : option Z :=
  SystemTime.checked_add SystemTime.UNIX_EPOCH (SystemTime.duration seconds nanos).

Definition system_time_from_windows (filetime : Z) : option Z :=
  let seconds := filetime / WINDOWS_TICKS_PER_SECOND in
  let nanos := filetime mod WINDOWS_TICKS_PER_SECOND * 100 in
  if WINDOWS_TO_UNIX_SECONDS <=? seconds
  then SystemTime.checked_add SystemTime.UNIX_EPOCH
         (SystemTime.duration (seconds - WINDOWS_TO_UNIX_SECONDS) nanos)
  else SystemTime.checked_sub SystemTime.UNIX_EPOCH
         (SystemTime.duration (WINDOWS_TO_UNIX_SECONDS - seconds) nanos).

(** * Records *)

Module record_type.
Definition FILE_ENCRYPTION : Z := 0x01.
Definition FILE_HASH : Z := 0x02.
Definition FILE_TIME : Z := 0x03.
Definition FILE_VERSION : Z := 0x04.
Definition REDIRECTION : Z := 0x05.
Definition UNIX_OWNER : Z := 0x06.
Definition SERVICE_DATA : Z := 0x07.
End record_type.

Definition FHEXTRA_HTIME_UNIXTIME : Z := 0x01.
Definition FHEXTRA_HTIME_MTIME : Z := 0x02.
Definition FHEXTRA_HTIME_CTIME : Z := 0x04.
Definition FHEXTRA_HTIME_ATIME : Z := 0x08.
Definition FHEXTRA_HTIME_UNIX_NS : Z := 0x10.
Definition FHEXTRA_CRYPT_PSWCHECK : Z := 0x01.
Definition FHEXTRA_REDIR_DIR : Z := 0x01.
Definition MAXPATHSIZE : Z := 0x10000.
Definition UNIX_OWNER_NAME_MAX : Z := 255.
Definition OWNER_USER_NAME : Z := 0x01.
Definition OWNER_GROUP_NAME : Z := 0x02.
Definition OWNER_USER_UID : Z := 0x04.
Definition OWNER_GROUP_GID : Z := 0x08.

Inductive ExtraAreaOwner := OwnerFile | OwnerService.
Definition is_service (o : ExtraAreaOwner) : bool :=
  match o with OwnerService => true | OwnerFile => false end.

Inductive ExtraRecord :=
| FileEncryption (version enc_flags kdf_count : Z) (salt iv : list byte)
    (check_data : option (list byte))
| ExtraFileHash (hash : FileHash)
| FileTime (mtime ctime atime : option Z)
| FileVersion (version : Z)
| ExtraRedirection (redir_type : Z) (target : ustring) (target_raw : list byte)
    (target_is_directory : bool)
| UnixOwner (owner : UnixOwnerInfo.t)
| ServiceData (data : list byte)
| UnknownRecord (record_type : Z).

(** [dst[..k].copy_from_slice(&src[a..a + k])] with [k = min (len src - a) n],
    into [n] zero bytes, when [src] is longer than [a]. *)
Definition copy_field (n : Z) (src : list byte) (a : Z) : result (list byte) :=
  if a <? zlen src then
    let k := Z.min (zlen src - a) n in
    field ← slice src a (a + k);
    mret (zero_filled n field)
  else mret (zreplicate n x00).

Definition parse_file_hash (data : list byte) : result ExtraRecord :=
  let '(hash_type, n) := read_raw_vint_lossy data in
  if hash_type =? 0 then
    hash ← copy_field 32 data n;
    mret (ExtraFileHash (Blake2sp hash))
  else mret (UnknownRecord record_type.FILE_HASH).

(** One of the three times, in Unix seconds or in Windows ticks. *)
Definition read_time (unix_time : bool) (data : list byte) (pos : Z) : option Z * Z :=
  if unix_time then
    let '(seconds, pos) := read_raw_u32_lossy data pos in (system_time_from_unix seconds 0, pos)
  else
    let '(ticks, pos) := read_raw_u64_lossy data pos in (system_time_from_windows ticks, pos).

Definition read_time_if (present unix_time : bool) (data : list byte) (pos : Z) : option Z * Z :=
  if present then read_time unix_time data pos else (None, pos).

(** The nanosecond refinement of one time. *)
Definition refine_time_if (present : bool) (time : option Z) (data : list byte) (pos : Z)
    : option Z * Z :=
  if present then
    let '(raw, pos) := read_raw_u32_lossy data pos in
    let ns := Z.land raw 0x3fffffff in
    ((if ns <? 1000000000
      then match time with Some t => SystemTime.checked_add t ns | None => time end
      else time), pos)
  else (time, pos).

Definition parse_file_time (data : list byte) : ExtraRecord :=
  if zlen data <? 5 then FileTime None None None
  else
    let '(flags, pos) := read_raw_vint_lossy data in
    let unix_time := has flags FHEXTRA_HTIME_UNIXTIME in
    let '(mtime, pos) := read_time_if (has flags FHEXTRA_HTIME_MTIME) unix_time data pos in
    let '(ctime, pos) := read_time_if (has flags FHEXTRA_HTIME_CTIME) unix_time data pos in
    let '(atime, pos) := read_time_if (has flags FHEXTRA_HTIME_ATIME) unix_time data pos in
    if unix_time && has flags FHEXTRA_HTIME_UNIX_NS then
      let '(mtime, pos) := refine_time_if (has flags FHEXTRA_HTIME_MTIME) mtime data pos in
      let '(ctime, pos) := refine_time_if (has flags FHEXTRA_HTIME_CTIME) ctime data pos in
      let '(atime, _) := refine_time_if (has flags FHEXTRA_HTIME_ATIME) atime data pos in
      FileTime mtime ctime atime
    else FileTime mtime ctime atime.

Definition parse_file_version (data : list byte) : ExtraRecord :=
  match data with
  | [] => FileVersion 0
  | _ =>
      let '(_, n) := read_raw_vint_lossy data in
      let '(version, _) := read_raw_vint_lossy (get_from data n) in
      FileVersion version
  end.

Definition invalid_redirection_record : ExtraRecord := UnknownRecord record_type.REDIRECTION.

Definition parse_redirection (data : list byte) : result ExtraRecord :=
  let '(redir_type, n) := read_raw_vint_lossy data in
  rest ← slice_from data n;
  let '(flags, m) := read_raw_vint_lossy rest in
  rest ← slice_from rest m;
  let '(name_len, k) := read_raw_vint_lossy rest in
  if (name_len =? 0) || (MAXPATHSIZE <=? name_len) then mret invalid_redirection_record
  else
    target_bytes ← copy_field name_len rest k;
    let '(target, target_raw) := decode_utf8_prefix_until_nul_with_encoded_bytes target_bytes in
    mret (ExtraRedirection redir_type target target_raw (has flags FHEXTRA_REDIR_DIR)).

(** [bytes[..position of the first NUL]]. *)
Fixpoint until_nul (bytes : list byte) : list byte :=
  match bytes with
  | [] => []
  | b :: rest => if u8 b =? 0 then [] else b :: until_nul rest
  end.

Definition read_unix_owner_name (data : list byte) (pos : Z) : list byte * Z :=
  let '(name_len, n) := read_raw_vint_lossy (get_from data pos) in
  let pos := Z.min (sat_add_u64 pos n) (zlen data) in
  let copy_len := Z.min name_len UNIX_OWNER_NAME_MAX in
  let available := get_from data pos in
  let copied := Z.min (zlen available) copy_len in
  (until_nul (zero_filled copy_len available), Z.min (sat_add_u64 pos copied) (zlen data)).

Definition parse_unix_owner (data : list byte) : ExtraRecord :=
  let '(flags, pos) := read_raw_vint_lossy data in
  let '(user, pos) :=
    if has flags OWNER_USER_NAME
    then let '(name, pos) := read_unix_owner_name data pos in (Some name, pos) else (None, pos) in
  let '(group, pos) :=
    if has flags OWNER_GROUP_NAME
    then let '(name, pos) := read_unix_owner_name data pos in (Some name, pos) else (None, pos) in
  let '(uid, pos) :=
    if has flags OWNER_USER_UID then
      let '(uid, n) := read_raw_vint_lossy (get_from data pos) in
      (Some uid, Z.min (sat_add_u64 pos n) (zlen data))
    else (None, pos) in
  let gid :=
    if has flags OWNER_GROUP_GID then Some (read_raw_vint_lossy (get_from data pos)).1 else None in
  UnixOwner (UnixOwnerInfo.mk (from_utf8_lossy <$> user) (from_utf8_lossy <$> group)
               user group uid gid).

Section parse.
Context (sha256_digest : list byte -> list byte).

Definition parse_file_encryption (data : list byte) (owner : ExtraAreaOwner)
    : result ExtraRecord :=
  let '(version, n) := read_raw_vint_lossy data in
  rest ← slice_from data n;
  let '(enc_flags, n) := read_raw_vint_lossy rest in
  rest ← slice_from rest n;
  let kdf_count := u8 (default x00 (head rest)) in
  salt ← copy_field 16 rest 1;
  iv ← copy_field 16 rest 17;
  check_data ←
    (if (kdf_count <=? CRYPT5_KDF_LG2_COUNT_MAX) && has enc_flags FHEXTRA_CRYPT_PSWCHECK then
       check_data ← copy_field 12 rest 33;
       let validated := Encryption.validated_password_check sha256_digest check_data in
       mret (match owner, validated with
             | OwnerService, Some data =>
                 if bool_decide (ztake 8 data = zreplicate 8 x00) then None else validated
             | _, _ => validated
             end)
     else mret None);
  mret (FileEncryption version enc_flags kdf_count salt iv check_data).

Definition parse_record (record_type' : Z) (record_body : list byte) (owner : ExtraAreaOwner)
    : result ExtraRecord :=
  if record_type' =? record_type.FILE_ENCRYPTION then parse_file_encryption record_body owner
  else if record_type' =? record_type.FILE_HASH then parse_file_hash record_body
  else if record_type' =? record_type.FILE_TIME then mret (parse_file_time record_body)
  else if record_type' =? record_type.FILE_VERSION then mret (parse_file_version record_body)
  else if record_type' =? record_type.REDIRECTION then parse_redirection record_body
  else if record_type' =? record_type.UNIX_OWNER then mret (parse_unix_owner record_body)
  else if record_type' =? record_type.SERVICE_DATA then mret (ServiceData record_body)
  else mret (UnknownRecord record_type').

(** The loop of [parse_extra_area]. Every round moves [pos] forward, so one
    round more than the area has bytes is enough; running out of fuel is a
    [Panic], which the safety theorem excludes. *)
Fixpoint parse_extra_area_loop (fuel : nat) (data : list byte) (owner : ExtraAreaOwner) (pos : Z)
    : result (list ExtraRecord) :=
  match fuel with
  | O => Panic
  | S fuel =>
      if sat_sub_u64 (zlen data) pos <? 2 then mret []
      else
        tail ← slice_from data pos;
        let '(record_size, size_n) := read_raw_vint_lossy tail in
        let pos := pos + size_n in
        if (record_size =? 0) || (pos =? zlen data) then mret []
        else
          match checked_add_u64 pos record_size with
          | None => mret []
          | Some record_end =>
              if zlen data <? record_end then mret []
              else
                record_data ← slice data pos record_end;
                let '(record_type', type_n) := read_raw_vint_lossy record_data in
                '(record_end, record_data) ←
                  (if is_service owner && (record_type' =? record_type.SERVICE_DATA)
                      && (record_end + 1 =? zlen data) then
                     record_data ← slice data pos (record_end + 1);
                     mret (record_end + 1, record_data)
                   else mret (record_end, record_data));
                record_body ← slice_from record_data type_n;
                record ← parse_record record_type' record_body owner;
                records ← parse_extra_area_loop fuel data owner record_end;
                mret (record :: records)
          end
  end.

Definition parse_extra_area (data : list byte) (owner : ExtraAreaOwner)
    : result (list ExtraRecord) :=
  parse_extra_area_loop (S (length data)) data owner 0.
End parse.

Definition is_encrypted (records : list ExtraRecord) : bool :=
  existsb (fun r => match r with FileEncryption _ _ _ _ _ _ => true | _ => false end) records.

Fixpoint blake2_hash (records : list ExtraRecord) : option FileHash :=
  match records with
  | [] => None
  | ExtraFileHash hash :: _ => Some hash
  | _ :: rest => blake2_hash rest
  end.

(** * Laws *)

Lemma copy_field_safe n src a :
  0 <= n -> 0 <= a -> safe (copy_field n src a) (fun f => zlen f = n).
Proof.
  intros Hn Ha. unfold copy_field. destruct (Z.ltb_spec a (zlen src)); cbn; [|len].
  step_slice. cbn. len.
Qed.

Lemma parse_file_hash_no_panic data : no_panic (parse_file_hash data).
Proof.
  unfold parse_file_hash. step_lossy t n. destruct (t =? 0); [|done].
  eapply safe_bind; [apply copy_field_safe; lia|done].
Qed.

Lemma parse_redirection_no_panic data : no_panic (parse_redirection data).
Proof.
  unfold parse_redirection. step_lossy t n. step_slice. step_lossy fl m. step_slice.
  step_lossy name_len k. destruct (_ || _); [done|].
  eapply safe_bind; [apply copy_field_safe; lia|]. intros f _ _. by destruct (decode_utf8_prefix_until_nul_with_encoded_bytes f).
Qed.

Lemma parse_file_encryption_no_panic sha data owner :
  no_panic (parse_file_encryption sha data owner).
Proof.
  unfold parse_file_encryption. step_lossy v n. step_slice. step_lossy fl m. step_slice.
  eapply safe_bind; [apply copy_field_safe; lia|]. intros salt _ _.
  eapply safe_bind; [apply copy_field_safe; lia|]. intros iv _ _.
  eapply (safe_bind _ _ (fun _ => True)); [|done].
  destruct (_ && _); [|done]. eapply safe_bind; [apply copy_field_safe; lia|done].
Qed.

Lemma parse_record_no_panic sha t body owner : no_panic (parse_record sha t body owner).
Proof.
  unfold parse_record.
  repeat case_match; try done;
    [apply parse_file_encryption_no_panic|apply parse_file_hash_no_panic
    |apply parse_redirection_no_panic].
Qed.

Lemma checked_add_u64_Some a b c : checked_add_u64 a b = Some c -> c = a + b.
Proof. unfold checked_add_u64. case_match; intros; simplify_eq; done. Qed.

Lemma parse_extra_area_loop_no_panic sha fuel data owner pos :
  0 <= pos <= zlen data -> zlen data - pos < Z.of_nat fuel ->
  no_panic (parse_extra_area_loop sha fuel data owner pos).
Proof.
  revert pos. induction fuel as [|fuel IH]; intros pos Hpos Hfuel; [lia|].
  cbn [parse_extra_area_loop]. destruct (_ <? 2); [done|]. step_slice.
  step_lossy record_size size_n.
  destruct (Z.eqb_spec record_size 0) as [|Hnz]; cbn [orb]; [done|].
  destruct (_ =? _); [done|].
  destruct (checked_add_u64 _ _) as [record_end|] eqn:Hadd; [|done].
  apply checked_add_u64_Some in Hadd as ->.
  destruct (Z.ltb_spec (zlen data) (pos + size_n + record_size)) as [|Hfit]; [done|].
  assert (Hin : pos + size_n <= zlen data) by slen.
  step_slice. step_lossy t type_n.
  set (d := ztake _ _) in *. assert (Hd : zlen d = record_size) by (unfold d; slen).
  eapply (safe_bind _ _ (fun '(e, r) => pos < e <= zlen data /\ type_n <= zlen r)).
  { destruct (_ && _) eqn:Hsvc; [|cbn; lia].
    apply andb_true_iff in Hsvc as [_ He%Z.eqb_eq]. step_slice. cbn. slen. }
  intros [record_end record_data] _ [Hend Ht]. step_slice.
  eapply safe_bind; [apply parse_record_no_panic|]. intros record _ _.
  eapply safe_bind; [apply IH; lia|done].
Qed.

Lemma parse_extra_area_no_panic sha data owner : no_panic (parse_extra_area sha data owner).
Proof.
  apply parse_extra_area_loop_no_panic; pose proof (zlen_nonneg data); unfold zlen in *; lia.
Qed.

(** * The framing of records *)

Definition encode_record (r : Z * list byte) : list byte :=
  let payload := encode_vint r.1 ++ r.2 in encode_vint (zlen payload) ++ payload.

Lemma lossy_encode_vint v rest :
  0 <= v < 2 ^ 64 -> read_raw_vint_lossy (encode_vint v ++ rest) = (v, zlen (encode_vint v)).
Proof. intros Hv. by rewrite lossy_spec, read_encode_vint. Qed.

Lemma encode_vint_len v : 0 <= v < 2 ^ 64 -> 1 <= zlen (encode_vint v) <= 10.
Proof.
  intros Hv. pose proof (read_encode_vint v [] Hv) as H. apply read_vint_range in H. lia.
Qed.

(** One round of the loop over an encoded record; the service quirk aside. *)
Lemma parse_extra_area_step sha fuel pre t body rest owner :
  0 <= t < 2 ^ 64 -> zlen (pre ++ encode_record (t, body) ++ rest) <= 2 ^ 62 ->
  is_service owner && (t =? record_type.SERVICE_DATA) && (zlen rest =? 1) = false ->
  parse_extra_area_loop sha (S fuel) (pre ++ encode_record (t, body) ++ rest) owner (zlen pre) =
    record ← parse_record sha t body owner;
    records ← parse_extra_area_loop sha fuel (pre ++ encode_record (t, body) ++ rest) owner
                (zlen (pre ++ encode_record (t, body)));
    mret (record :: records).
Proof.
  intros Ht Hlen Hquirk. set (data := pre ++ encode_record (t, body) ++ rest) in *.
  pose proof (encode_vint_len t Ht) as Hvt.
  pose proof (zlen_nonneg pre) as Hpre. pose proof (zlen_nonneg rest) as Hrest.
  pose proof (zlen_nonneg body) as Hbody.
  set (payload := encode_vint t ++ body).
  assert (Hpl : zlen payload = zlen (encode_vint t) + zlen body) by apply zlen_app.
  assert (Hdl : zlen data = zlen pre + (zlen (encode_vint (zlen payload)) + zlen payload) + zlen rest).
  { unfold data, encode_record. cbn [fst snd]. fold payload. rewrite !zlen_app. lia. }
  assert (Hps : 0 <= zlen payload < 2 ^ 64) by (pose proof (zlen_nonneg (encode_vint (zlen payload))); lia).
  pose proof (encode_vint_len _ Hps) as Hvs.
  assert (Hdrop : zdrop (zlen pre) data = encode_vint (zlen payload) ++ payload ++ rest).
  { unfold data, encode_record. cbn [fst snd]. fold payload. rewrite <- !app_assoc. apply zdrop_app_zlen. }
  assert (Hdrop2 : zdrop (zlen pre + zlen (encode_vint (zlen payload))) data = payload ++ rest).
  { rewrite <- zdrop_zdrop by lia. rewrite Hdrop. apply zdrop_app_zlen. }
  cbn [parse_extra_area_loop]. unfold sat_sub_u64. rewrite Z.max_l by lia.
  rewrite (proj2 (Z.ltb_ge _ _)) by lia. rewrite slice_from_ok by lia. cbn [mbind outcome_bind].
  rewrite Hdrop, lossy_encode_vint by done.
  set (pos := zlen pre + zlen (encode_vint (zlen payload))) in *.
  assert (Hpos : pos = zlen pre + zlen (encode_vint (zlen payload))) by done.
  rewrite (proj2 (Z.eqb_neq _ _)), (proj2 (Z.eqb_neq _ _)) by lia. cbn [orb].
  unfold checked_add_u64. rewrite (proj2 (Z.ltb_lt _ _)) by lia.
  rewrite (proj2 (Z.ltb_ge (zlen data) _)) by lia.
  rewrite (slice_ok data pos (pos + zlen payload)) by lia. cbn [mbind outcome_bind]. rewrite Hdrop2.
  replace (pos + zlen payload - pos) with (zlen payload) by lia. rewrite ztake_app_zlen.
  change (read_raw_vint_lossy payload) with (read_raw_vint_lossy (encode_vint t ++ body)).
  rewrite lossy_encode_vint by done.
  replace (pos + zlen payload + 1 =? zlen data) with (zlen rest =? 1).
  2: { destruct (Z.eqb_spec (zlen rest) 1), (Z.eqb_spec (pos + zlen payload + 1) (zlen data)); done || lia. }
  rewrite Hquirk. cbn [mbind outcome_bind mret outcome_ret].
  rewrite slice_from_ok by lia. cbn [mbind outcome_bind].
  replace (zdrop (zlen (encode_vint t)) payload) with body by (symmetry; apply zdrop_app_zlen).
  replace (zlen (pre ++ encode_record (t, body))) with (pos + zlen payload); [done|].
  unfold encode_record. cbn [fst snd]. fold payload. rewrite !zlen_app. unfold pos. lia.
Qed.

Lemma parse_extra_area_stop sha fuel data owner pos :
  zlen data - pos < 2 -> parse_extra_area_loop sha (S fuel) data owner pos = Ok [].
Proof.
  intros Hp. cbn [parse_extra_area_loop]. unfold sat_sub_u64.
  by rewrite (proj2 (Z.ltb_lt _ _)) by lia.
Qed.

Fixpoint parse_all (sha : list byte -> list byte) (owner : ExtraAreaOwner) (records : list (Z * list byte))
    : result (list ExtraRecord) :=
  match records with
  | [] => mret []
  | (t, body) :: rest =>
      record ← parse_record sha t body owner;
      records ← parse_all sha owner rest;
      mret (record :: records)
  end.

Lemma encode_record_len t body : 0 <= t < 2 ^ 64 -> zlen body <= 2 ^ 62 -> 2 <= zlen (encode_record (t, body)).
Proof.
  intros Ht Hb. unfold encode_record. cbn [fst snd]. rewrite zlen_app.
  pose proof (encode_vint_len t Ht). pose proof (zlen_nonneg body).
  assert (Hp : zlen (encode_vint t ++ body) = zlen (encode_vint t) + zlen body) by apply zlen_app.
  pose proof (encode_vint_len (zlen (encode_vint t ++ body)) ltac:(lia)). lia.
Qed.

Lemma parse_extra_area_records sha records fuel pre tail owner :
  Forall (fun r => 0 <= r.1 < 2 ^ 64) records -> (length records < fuel)%nat ->
  zlen (pre ++ mjoin (encode_record <$> records) ++ tail) <= 2 ^ 62 -> zlen tail < 2 ->
  (tail = [] \/ is_service owner = false) ->
  parse_extra_area_loop sha fuel (pre ++ mjoin (encode_record <$> records) ++ tail) owner (zlen pre) =
    parse_all sha owner records.
Proof.
  revert fuel pre. induction records as [|[t body] records IH]; intros [|fuel] pre Hok Hfuel Hlen Htail Hq;
    cbn [length] in Hfuel; try lia.
  - apply parse_extra_area_stop. cbn. rewrite zlen_app. lia.
  - apply Forall_cons_1 in Hok as [Ht Hok]. cbn [fst] in Ht.
    change (mjoin (encode_record <$> (t, body) :: records)) with
      (encode_record (t, body) ++ mjoin (encode_record <$> records)) in *.
    rewrite <- (app_assoc (encode_record (t, body))) in *.
    set (rest := mjoin (encode_record <$> records) ++ tail) in *.
    rewrite parse_extra_area_step; [|done|done|].
    + cbn [parse_all]. destruct (parse_record sha t body owner) as [record|e|]; [|done..].
      cbn [mbind outcome_bind].
      assert (Hre : pre ++ encode_record (t, body) ++ rest =
        (pre ++ encode_record (t, body)) ++ mjoin (encode_record <$> records) ++ tail) by (by rewrite app_assoc).
      rewrite Hre in Hlen |- *. by rewrite IH by (done || lia).
    + destruct Hq as [-> | ->]; [|done]. subst rest. rewrite app_nil_r.
      destruct records as [|[t' body'] records]; [by rewrite andb_false_r|].
      apply Forall_cons_1 in Hok as [Ht' _]. cbn [fst] in Ht'.
      change (mjoin (encode_record <$> (t', body') :: records)) with
        (encode_record (t', body') ++ mjoin (encode_record <$> records)) in *.
      rewrite app_nil_r in Hlen.
      enough (zlen (encode_record (t', body') ++ mjoin (encode_record <$> records)) <> 1) as ->%Z.eqb_neq
        by apply andb_false_r.
      rewrite !zlen_app in *. pose proof (zlen_nonneg pre). pose proof (zlen_nonneg (encode_record (t, body))).
      pose proof (zlen_nonneg (mjoin (encode_record <$> records))).
      assert (Hb' : zlen body' <= zlen (encode_record (t', body'))).
      { unfold encode_record. cbn [fst snd]. rewrite !zlen_app.
        pose proof (zlen_nonneg (encode_vint t')).
        pose proof (zlen_nonneg (encode_vint (zlen (encode_vint t') + zlen body'))). lia. }
      pose proof (encode_record_len t' body' Ht' ltac:(lia)). lia.
Qed.

(** * Properties *)

(** C12 (extra area framing): records written one after the other as size, type
    and body are parsed back as exactly those records, in order, whatever their
    types; a last byte too short to be a record is ignored in a file header, and
    so nothing after the last record is made up. *)
Theorem extra_area_roundtrip (sha : list byte -> list byte) (records : list (Z * list byte))
    (tail : list byte) (owner : ExtraAreaOwner) :
  Forall (fun r => 0 <= r.1 < 2 ^ 64) records ->
  zlen (mjoin (encode_record <$> records) ++ tail) <= 2 ^ 62 -> zlen tail < 2 ->
  (tail = [] \/ owner = OwnerFile) ->
  parse_extra_area sha (mjoin (encode_record <$> records) ++ tail) owner = parse_all sha owner records.
Proof.
  intros Hok Hlen Htail Hq. unfold parse_extra_area.
  apply (parse_extra_area_records sha records _ [] tail owner); try done.
  - rewrite length_app. assert (length records <= length (mjoin (encode_record <$> records)))%nat; [|lia].
    clear Hlen Hq. induction Hok as [|[t body] records Ht Hok IH]; [done|]. cbn [fst] in Ht.
    change (mjoin (encode_record <$> (t, body) :: records)) with
      (encode_record (t, body) ++ mjoin (encode_record <$> records)).
    rewrite length_app. cbn [length]. unfold encode_record at 1. cbn [fst snd]. rewrite !length_app.
    pose proof (encode_vint_len t Ht) as Hv. unfold zlen in Hv. lia.
  - destruct Hq as [->| ->]; auto.
Qed.

Lemma extra_area_roundtrip_witness :
  parse_extra_area (fun _ => []) (mjoin (encode_record <$> [(4, [x00; x07]); (99, [xaa])]) ++ [x01]) OwnerFile =
    parse_all (fun _ => []) OwnerFile [(4, [x00; x07]); (99, [xaa])] /\
  parse_all (fun _ => []) OwnerFile [(4, [x00; x07]); (99, [xaa])] = Ok [FileVersion 7; UnknownRecord 99].
Proof.
  split; [|reflexivity].
  apply extra_area_roundtrip; [repeat constructor; discriminate|vm_compute; discriminate
    |reflexivity|right; reflexivity].
Defined.
