(* ===== verification/HeaderMain.v ===== *)
(** The main archive header and its locator and metadata records
    ([crates/unrar-rs/src/header/main_archive.rs]). *)
From S2P Require Import Prelude.
From S2P Require Import RarTypes.
From S2P Require Import Vint.
From S2P Require Import Utf8.
From S2P Require Import Reader.
From S2P Require Import HeaderCommon.
From S2P Require Import HeaderFields.
From S2P Require Import HeaderExtra.

Module main_flags.
Definition VOLUME : Z := 0x0001.
Definition VOLUME_NUMBER : Z := 0x0002.
Definition SOLID : Z := 0x0004.
Definition RECOVERY_RECORD : Z := 0x0008.
Definition LOCKED : Z := 0x0010.
End main_flags.

Module main_extra.
Definition LOCATOR : Z := 0x01.
Definition METADATA : Z := 0x02.
Definition LOCATOR_QLIST : Z := 0x01.
Definition LOCATOR_RR : Z := 0x02.
Definition METADATA_NAME : Z := 0x01.
Definition METADATA_CTIME : Z := 0x02.
Definition METADATA_UNIXTIME : Z := 0x04.
Definition METADATA_UNIX_NS : Z := 0x08.
End main_extra.

(** The accumulator of the extra-record loop. *)
Module MainExtraMetadata.
Record t := mk {
  has_locator : bool;
  quick_open_offset : option Z;
  recovery_record_offset : option Z;
  original_name : option ustring;
  original_name_raw : option (list byte);
  original_creation_time : option Z;
}.
Definition default : t := mk false None None None None None.
Definition set_locator (m : t) : t :=
  mk true (quick_open_offset m) (recovery_record_offset m) (original_name m)
    (original_name_raw m) (original_creation_time m).
Definition set_quick_open (o : option Z) (m : t) : t :=
  mk (has_locator m) o (recovery_record_offset m) (original_name m)
    (original_name_raw m) (original_creation_time m).
Definition set_recovery_record (o : option Z) (m : t) : t :=
  mk (has_locator m) (quick_open_offset m) o (original_name m)
    (original_name_raw m) (original_creation_time m).
Definition set_name (name : ustring) (raw : list byte) (m : t) : t :=
  mk (has_locator m) (quick_open_offset m) (recovery_record_offset m) (Some name)
    (Some raw) (original_creation_time m).
Definition set_creation_time (o : option Z) (m : t) : t :=
  mk (has_locator m) (quick_open_offset m) (recovery_record_offset m) (original_name m)
    (original_name_raw m) o.
End MainExtraMetadata.

Module MainArchiveHeader.
Record t := mk {
  is_volume : bool;
  volume_number : option Z;
  is_solid : bool;
  has_recovery_record : bool;
  is_locked : bool;
  archive_flags : Z;
  extras : MainExtraMetadata.t;
}.
Definition quick_open_offset (m : t) : option Z := MainExtraMetadata.quick_open_offset (extras m).
End MainArchiveHeader.

Definition system_time_from_unix_nanos (nanos_since_epoch : Z) : option Z :=
  let seconds := nanos_since_epoch / 1000000000 in
  let nanos := nanos_since_epoch mod 1000000000 in
  SystemTime.checked_add SystemTime.UNIX_EPOCH (SystemTime.duration seconds nanos).

Definition parse_locator_extra (data : list byte) (block_offset : Z) (m : MainExtraMetadata.t)
    : MainExtraMetadata.t :=
  let m := MainExtraMetadata.set_locator m in
  let '(locator_flags, pos) := read_raw_vint_lossy data in
  let '(m, pos) :=
    if has locator_flags main_extra.LOCATOR_QLIST then
      let '(offset, n) := read_raw_vint_lossy (get_from data pos) in
      let pos := Z.min (sat_add_u64 pos n) (zlen data) in
      (if negb (offset =? 0)
       then MainExtraMetadata.set_quick_open (checked_add_u64 block_offset offset) m else m, pos)
    else (m, pos) in
  if has locator_flags main_extra.LOCATOR_RR then
    let '(offset, _) := read_raw_vint_lossy (get_from data pos) in
    if negb (offset =? 0)
    then MainExtraMetadata.set_recovery_record (checked_add_u64 block_offset offset) m else m
  else m.

Definition parse_metadata_extra (data : list byte) (m : MainExtraMetadata.t)
    : MainExtraMetadata.t :=
  let '(metadata_flags, pos) := read_raw_vint_lossy data in
  let '(m, pos) :=
    if has metadata_flags main_extra.METADATA_NAME then
      let '(name_size, n) := read_raw_vint_lossy (get_from data pos) in
      let pos := Z.min (sat_add_u64 pos n) (zlen data) in
      if (0 <? name_size) && (name_size <? MAXPATHSIZE) then
        let available := get_from data pos in
        let copied := Z.min (zlen available) name_size in
        let name_bytes := zero_filled name_size available in
        let pos := Z.min (sat_add_u64 pos copied) (zlen data) in
        (if negb (u8 (default x00 (head name_bytes)) =? 0)
         then MainExtraMetadata.set_name (decode_utf8_prefix_until_nul name_bytes) name_bytes m
         else m, pos)
      else (m, pos)
    else (m, pos) in
  if has metadata_flags main_extra.METADATA_CTIME then
    let time :=
      if has metadata_flags main_extra.METADATA_UNIXTIME then
        if has metadata_flags main_extra.METADATA_UNIX_NS
        then system_time_from_unix_nanos (read_raw_u64_lossy data pos).1
        else SystemTime.checked_add SystemTime.UNIX_EPOCH
               (SystemTime.duration (read_raw_u32_lossy data pos).1 0)
      else system_time_from_windows (read_raw_u64_lossy data pos).1 in
    MainExtraMetadata.set_creation_time time m
  else m.

(** The loop of [parse_main_extra_records]; as in [parse_extra_area_loop],
    running out of fuel is a [Panic]. *)
Fixpoint parse_main_extra_loop (fuel : nat) (raw_offset : Z) (data : list byte) (pos : Z)
    (m : MainExtraMetadata.t) : result MainExtraMetadata.t :=
  match fuel with
  | O => Panic
  | S fuel =>
      if negb (pos <? zlen data) then mret m
      else
        tail ← slice_from data pos;
        match read_vint tail with
        | Err _ => mret m
        | Panic => Panic
        | Ok (record_size, size_n) =>
            let pos := pos + size_n in
            if record_size =? 0 then mret m
            else
              match checked_add_u64 pos record_size with
              | None => mret m
              | Some record_end =>
                  if zlen data <? record_end then mret m
                  else
                    record_data ← slice data pos record_end;
                    match read_vint record_data with
                    | Err _ => mret m
                    | Panic => Panic
                    | Ok (record_type', type_n) =>
                        record_body ← slice_from record_data type_n;
                        let m :=
                          if record_type' =? main_extra.LOCATOR
                          then parse_locator_extra record_body raw_offset m
                          else if record_type' =? main_extra.METADATA
                          then parse_metadata_extra record_body m
                          else m in
                        parse_main_extra_loop fuel raw_offset data record_end m
                    end
              end
        end
  end.

Definition parse_main_extra_records (raw : RawHeader.t) : result MainExtraMetadata.t :=
  ea ← extra_area_bytes raw;
  match ea with
  | None => mret MainExtraMetadata.default
  | Some data =>
      parse_main_extra_loop (S (length data)) (RawHeader.offset raw) data 0 MainExtraMetadata.default
  end.

Definition parse (raw : RawHeader.t) : result MainArchiveHeader.t :=
  offset ← type_specific_offset raw;
  body ← slice_from (RawHeader.body raw) offset;
  '(archive_flags, pos) ← read_vint_at body 0;
  volume_number ←
    (if has archive_flags main_flags.VOLUME_NUMBER
     then '(vn, _) ← read_vint_at body pos; mret (Some vn)
     else mret None);
  extras ← parse_main_extra_records raw;
  mret (MainArchiveHeader.mk
    (has archive_flags main_flags.VOLUME) volume_number
    (has archive_flags main_flags.SOLID) (has archive_flags main_flags.RECOVERY_RECORD)
    (has archive_flags main_flags.LOCKED) archive_flags extras).

(** * Laws *)

(** The Quick Open offset is a 64-bit position. *)
Definition offset_ok (m : MainExtraMetadata.t) : Prop :=
  forall o, MainExtraMetadata.quick_open_offset m = Some o -> 0 <= o < 2 ^ 64.

Lemma checked_add_offset_ok a b o :
  0 <= a -> 0 <= b -> checked_add_u64 a b = Some o -> 0 <= o < 2 ^ 64.
Proof. unfold checked_add_u64. destruct (Z.ltb_spec (a + b) (2 ^ 64)); intros; simplify_eq; lia. Qed.

Lemma parse_locator_extra_offset_ok data o m :
  0 <= o -> offset_ok m -> offset_ok (parse_locator_extra data o m).
Proof.
  intros Ho Hm. unfold parse_locator_extra.
  destruct (read_raw_vint_lossy data) as [fl pos]. 
  destruct (has fl main_extra.LOCATOR_QLIST).
  - destruct (read_raw_vint_lossy (get_from data pos)) as [qo n] eqn:Hl. apply lossy_range in Hl.
    assert (Hq : offset_ok (if negb (qo =? 0)
                  then MainExtraMetadata.set_quick_open (checked_add_u64 o qo) (MainExtraMetadata.set_locator m)
                  else MainExtraMetadata.set_locator m)).
    { destruct (negb _); [|exact Hm]. intros x Hx. cbn in Hx. eapply checked_add_offset_ok; [| |done]; lia. }
    destruct (has fl main_extra.LOCATOR_RR); [|exact Hq].
    destruct (read_raw_vint_lossy _) as [rr n']. destruct (negb (rr =? 0)); exact Hq.
  - destruct (has fl main_extra.LOCATOR_RR); [|exact Hm].
    destruct (read_raw_vint_lossy _) as [rr n']. destruct (negb (rr =? 0)); exact Hm.
Qed.

Lemma parse_metadata_extra_offset_ok data m : offset_ok m -> offset_ok (parse_metadata_extra data m).
Proof. intros Hm. unfold parse_metadata_extra. repeat case_match; simplify_eq; exact Hm. Qed.

Lemma parse_main_extra_loop_safe fuel o data pos m :
  0 <= pos <= zlen data -> zlen data - pos < Z.of_nat fuel -> 0 <= o -> offset_ok m ->
  safe (parse_main_extra_loop fuel o data pos m) offset_ok.
Proof.
  revert pos m. induction fuel as [|fuel IH]; intros pos m Hpos Hfuel Ho Hm; [lia|].
  cbn [parse_main_extra_loop]. destruct (negb _); [done|]. step_slice.
  pose proof (read_vint_safe (zdrop pos data)) as Hv.
  destruct (read_vint _) as [[record_size size_n]|e|]; [|done|done]. cbn in Hv.
  destruct Hv as (Hs & Hn & Hlen). destruct (Z.eqb_spec record_size 0) as [|Hnz]; [done|].
  destruct (checked_add_u64 _ _) as [record_end|] eqn:Hadd; [|done].
  apply checked_add_u64_Some in Hadd as ->.
  destruct (Z.ltb_spec (zlen data) (pos + size_n + record_size)) as [|Hfit]; [done|].
  step_slice. set (d := ztake _ _).
  pose proof (read_vint_safe d) as Hv2.
  destruct (read_vint d) as [[t type_n]|e|]; [|done|done]. cbn in Hv2.
  step_slice. apply IH; [lia|lia|done|].
  destruct (t =? _); [by apply parse_locator_extra_offset_ok|].
  destruct (t =? _); [by apply parse_metadata_extra_offset_ok|done].
Qed.

Lemma parse_main_extra_records_safe raw :
  raw_ok raw -> safe (parse_main_extra_records raw) offset_ok.
Proof.
  intros Hraw. unfold parse_main_extra_records.
  destruct (extra_area_bytes_ok raw) as [ea ->]; [by apply raw_ok_sizes|].
  cbn [mbind outcome_bind]. destruct ea as [data|]; [|done].
  apply parse_main_extra_loop_safe; [pose proof (zlen_nonneg data); unfold zlen in *; lia..| |done].
  apply Hraw.
Qed.

Lemma parse_safe raw : raw_ok raw ->
  safe (parse raw) (fun m => forall o, MainArchiveHeader.quick_open_offset m = Some o -> 0 <= o < 2 ^ 64).
Proof.
  intros Hraw. unfold parse. step_type_specific raw Hraw. step_slice.
  assert (Hz : inside (zdrop off (RawHeader.body raw)) 0) by slen.
  eapply safe_bind; [by apply read_vint_at_safe|]. intros [fl pos] _ (_ & _ & Hpos).
  eapply (safe_bind _ _ (fun _ => True)).
  { destruct (has _ _); [|done]. eapply safe_bind; [by apply read_vint_at_safe|]. by intros [] ? ?. }
  intros vn _ _. eapply safe_bind; [by apply parse_main_extra_records_safe|done].
Qed.

Lemma parse_no_panic raw : raw_ok raw -> no_panic (parse raw).
Proof. intros. eapply safe_mono; [by apply parse_safe|done]. Qed.
