(* ===== verification/HeaderFile.v ===== *)
(** File and service headers ([crates/unrar-rs/src/header/file.rs],
    [service.rs]). *)
From S2P Require Import Prelude.
From S2P Require Import RarTypes.
From S2P Require Import Vint.
From S2P Require Import Utf8.
From S2P Require Import Reader.
From S2P Require Import HeaderCommon.
From S2P Require Import HeaderFields.
From S2P Require Import HeaderExtra.

Module file_flags.
Definition DIRECTORY : Z := 0x0001.
Definition TIME_PRESENT : Z := 0x0002.
Definition CRC32_PRESENT : Z := 0x0004.
Definition UNPACKED_SIZE_UNKNOWN : Z := 0x0008.
End file_flags.

Module FileHeader.
Record t := mk {
  name : ustring;
  name_raw : option (list byte);
  unpacked_size : option Z;
  attributes : Z;
  mtime : option Z;
  ctime : option Z;
  atime : option Z;
  data_crc32 : option Z;
  data_hash : option DataHash.t;
  compression : CompressionInfo.t;
  host_os : HostOs.t;
  is_directory : bool;
  file_flags : Z;
  data_size : Z;
  split_before : bool;
  split_after : bool;
  data_offset : Z;
  is_encrypted : bool;
  version : option Z;
  service_subdata : option (list byte);
}.

(** The fields extra records fill in. *)
Definition set_times (m c a : option Z) (h : t) : t :=
  mk (name h) (name_raw h) (unpacked_size h) (attributes h)
    (match m with Some v => Some v | None => mtime h end)
    (match c with Some v => Some v | None => ctime h end)
    (match a with Some v => Some v | None => atime h end)
    (data_crc32 h) (data_hash h) (compression h) (host_os h) (is_directory h) (file_flags h)
    (data_size h) (split_before h) (split_after h) (data_offset h) (is_encrypted h)
    (version h) (service_subdata h).
Definition set_version (v : Z) (name' : ustring) (h : t) : t :=
  mk name' (name_raw h) (unpacked_size h) (attributes h) (mtime h) (ctime h) (atime h)
    (data_crc32 h) (data_hash h) (compression h) (host_os h) (is_directory h) (file_flags h)
    (data_size h) (split_before h) (split_after h) (data_offset h) (is_encrypted h)
    (Some v) (service_subdata h).
Definition set_service_subdata (d : list byte) (h : t) : t :=
  mk (name h) (name_raw h) (unpacked_size h) (attributes h) (mtime h) (ctime h) (atime h)
    (data_crc32 h) (data_hash h) (compression h) (host_os h) (is_directory h) (file_flags h)
    (data_size h) (split_before h) (split_after h) (data_offset h) (is_encrypted h)
    (version h) (Some d).

Definition parse (raw : RawHeader.t) (data_offset : Z) : result t :=
  offset ← type_specific_offset raw;
  body ← slice_from (RawHeader.body raw) offset;
  let ea_size := RawHeader.extra_area_size raw in
  if zlen body <? ea_size then Err (TruncatedHeader (RawHeader.offset raw))
  else
    let type_fields_len := sat_sub_u64 (zlen body) ea_size in
    type_fields ← slice body 0 type_fields_len;
    tail ← slice_from type_fields 0;
    let '(file_flags', n) := read_raw_vint_lossy tail in
    let pos := n in
    let is_directory := has file_flags' file_flags.DIRECTORY in
    let size_unknown := has file_flags' file_flags.UNPACKED_SIZE_UNKNOWN in
    tail ← slice_from type_fields pos;
    let '(raw_unpacked_size, n) := read_raw_vint_lossy tail in
    let pos := pos + n in
    let unpacked_size := if size_unknown then None else Some raw_unpacked_size in
    tail ← slice_from type_fields pos;
    let '(attrs, n) := read_raw_vint_lossy tail in
    let pos := pos + n in
    let '(mtime, pos) :=
      if has file_flags' file_flags.TIME_PRESENT then
        let '(ts, pos) := read_raw_u32_lossy type_fields pos in
        (Some (SystemTime.UNIX_EPOCH + SystemTime.duration ts 0), pos)
      else (None, pos) in
    let '(data_crc32, pos) :=
      if has file_flags' file_flags.CRC32_PRESENT then
        let '(crc, pos) := read_raw_u32_lossy type_fields pos in (Some crc, pos)
      else (None, pos) in
    tail ← slice_from type_fields pos;
    let '(comp_raw, n) := read_raw_vint_lossy tail in
    let pos := pos + n in
    compression ← decode_compression_info_for_file comp_raw is_directory;
    tail ← slice_from type_fields pos;
    let '(os_val, n) := read_raw_vint_lossy tail in
    let pos := pos + n in
    tail ← slice_from type_fields pos;
    let '(name_len, n) := read_raw_vint_lossy tail in
    let pos := pos + n in
    let read_name_len := Z.min name_len MAXPATHSIZE in
    let name_bytes := zero_filled read_name_len (get_from type_fields pos) in
    mret (mk (decode_rar5_name name_bytes) (Some name_bytes) unpacked_size attrs mtime None None
            data_crc32 (DataHash.Crc32 <$> data_crc32) compression (HostOs.from os_val)
            is_directory file_flags' (RawHeader.data_area_size raw)
            (RawHeader.is_split_before raw) (RawHeader.is_split_after raw) data_offset
            false None None).
End FileHeader.

Module ServiceHeader.
Record t := mk {
  inner : FileHeader.t;
  header_offset : Z;
  is_child : bool;
  is_inherited : bool;
}.
Definition service_name (s : t) : ustring := FileHeader.name (inner s).
Definition set_inner (h : FileHeader.t) (s : t) : t :=
  mk h (header_offset s) (is_child s) (is_inherited s).

Definition parse (raw : RawHeader.t) (data_offset : Z) : result t :=
  inner ← FileHeader.parse raw data_offset;
  mret (mk inner (RawHeader.offset raw) (has (RawHeader.flags raw) flags.CHILD)
          (has (RawHeader.flags raw) flags.INHERITED)).
End ServiceHeader.

(** * Laws *)

(** What a file header says of its data area. *)
Definition file_header_ok (raw : RawHeader.t) (d : Z) (h : FileHeader.t) : Prop :=
  FileHeader.data_offset h = d /\ FileHeader.data_size h = RawHeader.data_area_size raw /\
  compression_ok (FileHeader.compression h).

Lemma FileHeader_parse_safe raw d : raw_ok raw -> safe (FileHeader.parse raw d) (file_header_ok raw d).
Proof.
  intros Hraw. unfold FileHeader.parse. step_type_specific raw Hraw. step_slice.
  destruct (raw_ok_sizes raw Hraw) as [Hea _].
  destruct (Z.ltb_spec (zlen (zdrop off (RawHeader.body raw))) (RawHeader.extra_area_size raw)) as [|Hfit];
    [done|].
  unfold sat_sub_u64. rewrite Z.max_l by lia.
  set (body := zdrop off (RawHeader.body raw)) in *. step_slice.
  set (tf := ztake _ _). step_slice. step_lossy fl n1. rewrite zdrop_0 in *.
  step_slice. step_lossy us n2. step_slice. step_lossy attrs n3.
  set (mt := if has fl file_flags.TIME_PRESENT then _ else _).
  assert (Hmt : 0 <= mt.2 <= zlen tf).
  { unfold mt. destruct (has fl _); [|cbn; slen].
    destruct (read_raw_u32_lossy tf _) as [ts p] eqn:Eu. apply u32_lossy_range in Eu; cbn; slen. }
  destruct mt as [mtime p1]. cbn in Hmt.
  set (cr := if has fl file_flags.CRC32_PRESENT then _ else _).
  assert (Hcr : 0 <= cr.2 <= zlen tf).
  { unfold cr. destruct (has fl _); [|cbn; lia].
    destruct (read_raw_u32_lossy tf _) as [ts p] eqn:Eu. apply u32_lossy_range in Eu; cbn; lia. }
  destruct cr as [crc p2]. cbn in Hcr.
  step_slice. step_lossy comp n4.
  eapply safe_bind; [apply decode_compression_info_safe|]. intros ci _ Hci.
  step_slice. step_lossy os n5. step_slice. step_lossy nl n6. done.
Qed.

Lemma FileHeader_parse_no_panic raw d : raw_ok raw -> no_panic (FileHeader.parse raw d).
Proof. intros. eapply safe_mono; [by apply FileHeader_parse_safe|done]. Qed.

Lemma ServiceHeader_parse_no_panic raw d : raw_ok raw -> no_panic (ServiceHeader.parse raw d).
Proof.
  intros Hraw. eapply safe_bind; [by apply FileHeader_parse_no_panic|done].
Qed.
