(* ===== verification/HeaderWalk.v ===== *)
(** The header walk over one RAR5 volume ([crates/unrar-rs/src/header/mod.rs]):
    dispatch of each header to its parser, extra records applied to file and
    service headers, the Quick Open cache, and the encrypted-header walk. *)
From S2P Require Import Prelude.
From S2P Require Import RarTypes.
From S2P Require Import Vint.
From S2P Require Import Utf8.
From S2P Require Import Reader.
From S2P Require Import HeaderCommon.
From S2P Require Import HeaderFields.
From S2P Require Import HeaderExtra.
From S2P Require Import HeaderMain.
From S2P Require Import HeaderFile.

(** * What the walk needs from the crypto module

    Checksums, digests and ciphers come from libraries behind
    [crates/unrar-rs/src/crypto]; the walk relies on the lengths only. *)
Class HeaderCrypto := {
  sha256_digest : list byte -> list byte;
  crc32 : list byte -> Z;
  verify_password_rar5 : ustring -> list byte -> Z -> list byte -> bool;
  derive_key_rar5 : ustring -> list byte -> Z -> result (list byte);
  cbc_state : Type;
  cbc_new : list byte -> list byte -> cbc_state;
  decrypt_blocks : cbc_state -> list byte -> list byte * cbc_state;
}.

(** [decrypt_blocks] works in place, and deriving a key never panics. *)
Class HeaderCryptoLaws `{HeaderCrypto} : Prop := {
  decrypt_blocks_length : forall st data, zlen (decrypt_blocks st data).1 = zlen data;
  derive_key_no_panic : forall pw salt count, no_panic (derive_key_rar5 pw salt count);
}.

(** * Parsed headers *)

Module FileEncryptionParams.
Record t := mk {
  version : Z;
  kdf_count : Z;
  salt : list byte;
  iv : list byte;
  check_data : option (list byte);
  psw_check_present : bool;
  use_hash_mac : bool;
}.
End FileEncryptionParams.

Module RedirectionType.
Inductive t := UnixSymlink | WindowsSymlink | WindowsJunction | Hardlink | FileCopy
  | Unknown (value : Z).
Definition from (value : Z) : t :=
  match value with
  | 1 => UnixSymlink | 2 => WindowsSymlink | 3 => WindowsJunction | 4 => Hardlink
  | 5 => FileCopy | other => Unknown other
  end.
End RedirectionType.

Module Redirection.
Record t := mk {
  redir_type : RedirectionType.t;
  target : ustring;
  target_raw : option (list byte);
  target_is_directory : bool;
}.
End Redirection.

Module ParsedFile.
Record t := mk {
  header : FileHeader.t;
  is_encrypted : bool;
  file_encryption : option FileEncryptionParams.t;
  hash : option FileHash;
  redirection : option Redirection.t;
  owner : option UnixOwnerInfo.t;
}.
End ParsedFile.

Module ParsedService.
Record t := mk {
  header : ServiceHeader.t;
  is_encrypted : bool;
  file_encryption : option FileEncryptionParams.t;
  hash : option FileHash;
}.
End ParsedService.

Module ParsedHeaders.
Record t := mk {
  main : option MainArchiveHeader.t;
  files : list ParsedFile.t;
  services : list ParsedService.t;
  encryption : option Encryption.t;
  end_ : option EndArchive.t;
  is_encrypted : bool;
  headers_from_quick_open : bool;
}.
Definition empty_parsed_headers : t := mk None [] [] None None false false.
Definition set_main (m : MainArchiveHeader.t) (p : t) : t :=
  mk (Some m) (files p) (services p) (encryption p) (end_ p) (is_encrypted p)
    (headers_from_quick_open p).
Definition push_file (f : ParsedFile.t) (p : t) : t :=
  mk (main p) (files p ++ [f]) (services p) (encryption p) (end_ p) (is_encrypted p)
    (headers_from_quick_open p).
Definition push_service (s : ParsedService.t) (p : t) : t :=
  mk (main p) (files p) (services p ++ [s]) (encryption p) (end_ p) (is_encrypted p)
    (headers_from_quick_open p).
Definition set_encryption (e : Encryption.t) (p : t) : t :=
  mk (main p) (files p) (services p) (Some e) (end_ p) true (headers_from_quick_open p).
Definition set_end (e : EndArchive.t) (p : t) : t :=
  mk (main p) (files p) (services p) (encryption p) (Some e) (is_encrypted p)
    (headers_from_quick_open p).
(** The builder of a Quick Open answer. *)
Definition from_quick_open (m : MainArchiveHeader.t) : t := mk (Some m) [] [] None None false true.
End ParsedHeaders.

Record HeaderParseOptions := mk_options { allow_quick_open : bool }.
Definition default_options : HeaderParseOptions := mk_options true.

Inductive HeaderWalk :=
| Parsed (headers : ParsedHeaders.t)
| HeaderEncrypted (encryption : Encryption.t).

Definition MIN_RAR5_HEADER_BYTES : Z := 6.
Definition MIN_RAR5_ENCRYPTED_HEADER_BYTES : Z := 32.

(** * Extra records applied to a header *)

(** [u64::to_string]: decimal digits; twenty cover every 64-bit value. *)
Fixpoint decimal_loop (fuel : nat) (n : Z) (acc : ustring) : ustring :=
  match fuel with
  | O => acc
  | S fuel =>
      let acc := (48 + n mod 10) :: acc in
      if n / 10 =? 0 then acc else decimal_loop fuel (n / 10) acc
  end.
Definition to_decimal (n : Z) : ustring := decimal_loop 20 n [].

(** The locals of [apply_extra_records] and the header it updates. *)
Record extra_state := mk_extra {
  x_encrypted : bool;
  x_encryption : option FileEncryptionParams.t;
  x_hash : option FileHash;
  x_redirection : option Redirection.t;
  x_owner : option UnixOwnerInfo.t;
  x_header : FileHeader.t;
}.

Definition apply_extra_record (st : extra_state) (record : ExtraRecord) : extra_state :=
  let 'mk_extra enc params hash redir owner header := st in
  match record with
  | FileEncryption version enc_flags kdf_count salt iv check_data =>
      mk_extra true
        (Some (FileEncryptionParams.mk version kdf_count salt iv check_data
                 (has enc_flags FHEXTRA_CRYPT_PSWCHECK) (has enc_flags 0x0002)))
        hash redir owner header
  | ExtraFileHash file_hash => mk_extra enc params (Some file_hash) redir owner header
  | FileTime m c a => mk_extra enc params hash redir owner (FileHeader.set_times m c a header)
  | FileVersion version =>
      if version =? 0 then st
      else mk_extra enc params hash redir owner
             (FileHeader.set_version version
                (FileHeader.name header ++ [59] ++ to_decimal version) header)
  | ExtraRedirection redir_type target target_raw target_is_directory =>
      mk_extra enc params hash
        (Some (Redirection.mk (RedirectionType.from redir_type) target (Some target_raw)
                 target_is_directory)) owner header
  | UnixOwner unix_owner => mk_extra enc params hash redir (Some unix_owner) header
  | ServiceData data =>
      mk_extra enc params hash redir owner (FileHeader.set_service_subdata data header)
  | UnknownRecord _ => st
  end.

Section walk.
Context `{HeaderCrypto}.

Definition apply_extra_records (raw : RawHeader.t) (owner : ExtraAreaOwner)
    (header : FileHeader.t) : result extra_state :=
  let unchanged := mk_extra false None None None None header in
  ea ← extra_area_bytes raw;
  match ea with
  | None => mret unchanged
  | Some ea_bytes =>
      match parse_extra_area sha256_digest ea_bytes owner with
      | Ok records => mret (foldl apply_extra_record unchanged records)
      | Err _ => mret unchanged
      | Panic => Panic
      end
  end.

Definition parse_file_extra_records (raw : RawHeader.t) : result (list ExtraRecord) :=
  ea ← extra_area_bytes raw;
  match ea with
  | Some ea_bytes =>
      parse_extra_area sha256_digest ea_bytes
        (if bool_decide (RawHeader.header_type raw = HeaderType.Service) then OwnerService else OwnerFile)
  | None => mret []
  end.

Definition parse_service_from_raw (raw : RawHeader.t) (data_offset : Z)
    : result ParsedService.t :=
  svc ← ServiceHeader.parse raw data_offset;
  x ← apply_extra_records raw OwnerService (ServiceHeader.inner svc);
  mret (ParsedService.mk (ServiceHeader.set_inner (x_header x) svc)
          (x_encrypted x) (x_encryption x) (x_hash x)).

Definition dispatch_header (raw : RawHeader.t) (data_offset : Z) (parsed : ParsedHeaders.t)
    : result ParsedHeaders.t :=
  match RawHeader.header_type raw with
  | HeaderType.MainArchive =>
      main ← HeaderMain.parse raw;
      mret (ParsedHeaders.set_main main parsed)
  | HeaderType.File =>
      file_hdr ← FileHeader.parse raw data_offset;
      x ← apply_extra_records raw OwnerFile file_hdr;
      mret (ParsedHeaders.push_file
              (ParsedFile.mk (x_header x) (x_encrypted x) (x_encryption x) (x_hash x)
                 (x_redirection x) (x_owner x)) parsed)
  | HeaderType.Service =>
      svc ← parse_service_from_raw raw data_offset;
      mret (ParsedHeaders.push_service svc parsed)
  | HeaderType.Unknown _ =>
      if negb (has (RawHeader.flags raw) flags.SKIP_IF_UNKNOWN) then Err CorruptArchive
      else mret parsed
  | _ => mret parsed
  end.

(** [raw.offset + 4 + vint_len + header_size], with overflow checks. *)
Definition data_offset_of (raw : RawHeader.t) : result Z :=
  o ← add_u64 (RawHeader.offset raw) 4;
  o ← add_u64 o (RawHeader.header_size_vint_len raw);
  add_u64 o (RawHeader.header_size raw).

(** ** Quick Open *)

(** A reader together with the bytes left of the service payload. *)
Definition read_quick_open_exact (n remaining : Z) : io reader (list byte * Z) :=
  if remaining <? n then lift (Err CorruptArchive)
  else
    buf ← map_err (fun e => if is_unexpected_eof e then CorruptArchive else e) (read_exact n);
    mret (buf, remaining - n).

Fixpoint read_quick_open_vint_loop (todo : nat) (bytes : list byte) (remaining : Z)
    : io reader (list byte * Z) :=
  if remaining =? 0 then lift (Err CorruptArchive)
  else
    match todo with
    | O => lift (Err CorruptArchive)
    | S todo =>
        '(byte, remaining) ← read_quick_open_exact 1 remaining;
        b ← lift (index byte 0);
        let bytes := bytes ++ [b] in
        if Z.land (u8 b) 0x80 =? 0 then mret (bytes, remaining)
        else read_quick_open_vint_loop todo bytes remaining
    end.

(** Ten bytes at most: [bytes.len() >= 10] refuses the eleventh. *)
Definition read_quick_open_vint (remaining : Z) : io reader (list byte * Z) :=
  read_quick_open_vint_loop 10 [] remaining.

Definition parse_quick_open_cached_header (bytes : list byte) (offset : Z)
    : result RawHeader.t :=
  if zlen bytes <? 5 then Err CorruptArchive
  else
    crc_bytes ← slice bytes 0 4;
    let stored_crc := u32_le crc_bytes in
    tail ← slice_from bytes 4;
    '(header_size, header_size_vint_len) ← read_vint tail;
    if header_size =? 0 then Err CorruptArchive
    else
      _ ← validate_header_size offset header_size header_size_vint_len;
      let body_start := 4 + header_size_vint_len in
      match checked_add_u64 body_start header_size with
      | None => Err CorruptArchive
      | Some body_end =>
          if negb (body_end =? zlen bytes) then Err CorruptArchive
          else
            body ← slice bytes body_start body_end;
            parse_raw_header_from_parts offset stored_crc header_size header_size_vint_len body
      end.

(** [vint::read_vint(body.get(pos..).unwrap_or(&[]))?] with [pos += read]. *)
Definition read_vint_get (body : list byte) (pos : Z) : result (Z * Z) :=
  '(v, n) ← read_vint (get_from body pos);
  mret (v, pos + n).

(** The part of [read_quick_open_record] after the record's body is in. *)
Definition quick_open_record_header (body : list byte) (qopen_header_offset : Z)
    : result RawHeader.t :=
  '(_, pos) ← read_vint_get body 0;
  '(offset_from_qopen, pos) ← read_vint_get body pos;
  '(cached_header_size, pos) ← read_vint_get body pos;
  if MAX_HEADER_BODY <? cached_header_size then Err CorruptArchive
  else
    match checked_add_u64 pos cached_header_size with
    | None => Err CorruptArchive
    | Some cached_end =>
        if zlen body <? cached_end then Err CorruptArchive
        else
          match checked_sub_u64 qopen_header_offset offset_from_qopen with
          | None => Err CorruptArchive
          | Some original_offset =>
              bytes ← slice body pos cached_end;
              parse_quick_open_cached_header bytes original_offset
          end
    end.

Definition read_quick_open_record (remaining qopen_header_offset : Z)
    : io reader (option RawHeader.t * Z) :=
  if remaining =? 0 then mret (None, remaining)
  else if remaining <? 5 then lift (Err CorruptArchive)
  else
    '(stored_crc_bytes, remaining) ← read_quick_open_exact 4 remaining;
    let stored_crc := u32_le stored_crc_bytes in
    '(size_vint, remaining) ← read_quick_open_vint remaining;
    '(body_size, body_size_vint_len) ← lift (read_vint size_vint);
    if negb (body_size_vint_len =? zlen size_vint) || (body_size =? 0)
    then lift (Err CorruptArchive)
    else
      _ ← lift (validate_header_size qopen_header_offset body_size body_size_vint_len);
      if MAX_HEADER_BODY <? body_size then lift (Err CorruptArchive)
      else if remaining <? body_size then lift (Err CorruptArchive)
      else
        '(body, remaining) ← read_quick_open_exact body_size remaining;
        let computed_crc := crc32 (size_vint ++ body) in
        if negb (computed_crc =? stored_crc)
        then lift (Err (HeaderCrcMismatch stored_crc computed_crc))
        else
          raw ← lift (quick_open_record_header body qopen_header_offset);
          mret (Some raw, remaining).

Fixpoint parse_quick_open_loop (fuel : nat) (remaining qopen_header_offset : Z)
    (parsed : ParsedHeaders.t) : io reader (option ParsedHeaders.t) :=
  match fuel with
  | O => lift Panic
  | S fuel =>
      '(record, remaining) ← read_quick_open_record remaining qopen_header_offset;
      match record with
      | None => mret None
      | Some raw =>
          data_offset ← lift (data_offset_of raw);
          match RawHeader.header_type raw with
          | HeaderType.Encryption => mret None
          | HeaderType.EndArchive =>
              e ← lift (EndArchive.parse raw);
              mret (Some (ParsedHeaders.set_end e parsed))
          | _ =>
              parsed ← lift (dispatch_header raw data_offset parsed);
              parse_quick_open_loop fuel remaining qopen_header_offset parsed
          end
      end
  end.

(** Every record consumes bytes of the reader, so one round more than the
    reader has bytes is enough. *)
Definition parse_quick_open_records (remaining qopen_header_offset : Z)
    (main : MainArchiveHeader.t) : io reader (option ParsedHeaders.t) := fun r =>
  parse_quick_open_loop (S (length (rest_of r))) remaining qopen_header_offset
    (ParsedHeaders.from_quick_open main) r.

(** The payload of an encrypted Quick Open block: the decrypting reader over
    [take(data_area_size)] yields the plaintext of the whole blocks there
    are; a block cut short ends it. *)
Definition parse_encrypted_quick_open_records (qopen_raw : RawHeader.t)
    (qopen_service : ParsedService.t) (password : option ustring) (main : MainArchiveHeader.t)
    : io reader (option ParsedHeaders.t) :=
  match password, ParsedService.file_encryption qopen_service with
  | Some password, Some encryption =>
      let salt := FileEncryptionParams.salt encryption in
      let kdf_count := FileEncryptionParams.kdf_count encryption in
      if negb (FileEncryptionParams.version encryption =? 0) then mret None
      else if match FileEncryptionParams.check_data encryption with
              | Some check_data => negb (verify_password_rar5 password salt kdf_count check_data)
              | None => false
              end then mret None
      else
        let unpacked_size :=
          default (RawHeader.data_area_size qopen_raw)
            (FileHeader.unpacked_size (ServiceHeader.inner (ParsedService.header qopen_service))) in
        if negb (RawHeader.data_area_size qopen_raw mod 16 =? 0) then mret None
        else
          key ← lift (derive_key_rar5 password salt kdf_count);
          cipher ← gets (fun r => ztake (RawHeader.data_area_size qopen_raw) (rest_of r));
          let whole := ztake (zlen cipher - zlen cipher mod 16) cipher in
          let plain := (decrypt_blocks (cbc_new key (FileEncryptionParams.iv encryption)) whole).1 in
          lift (parse_quick_open_records unpacked_size (RawHeader.offset qopen_raw) main
                  (mk_reader plain 0)).1
  | _, _ => mret None
  end.

(** ['Q'; 'O']. *)
Definition QO : ustring := [81; 79].

Definition parse_quick_open_headers_at (quick_open_offset : Z) (main : MainArchiveHeader.t)
    (password : option ustring) : io reader (option ParsedHeaders.t) :=
  _ ← seek_start quick_open_offset;
  header ← read_raw_header;
  match header with
  | None => mret None
  | Some qopen_raw =>
      if negb (bool_decide (RawHeader.header_type qopen_raw = HeaderType.Service)) then mret None
      else
        qopen_data_offset ← lift (data_offset_of qopen_raw);
        qopen_service ← lift (parse_service_from_raw qopen_raw qopen_data_offset);
        let inner := ServiceHeader.inner (ParsedService.header qopen_service) in
        if negb (bool_decide (ServiceHeader.service_name (ParsedService.header qopen_service) = QO))
        then mret None
        else if negb (bool_decide (CompressionInfo.method (FileHeader.compression inner)
                                   = CompressionMethod.Store)) then mret None
        else if ParsedService.is_encrypted qopen_service then
          parse_encrypted_quick_open_records qopen_raw qopen_service password main
        else
          let unpacked_size :=
            default (RawHeader.data_area_size qopen_raw) (FileHeader.unpacked_size inner) in
          parse_quick_open_records unpacked_size (RawHeader.offset qopen_raw) main
  end.

Definition try_parse_quick_open_headers (parsed : ParsedHeaders.t) (password : option ustring)
    : io reader (option ParsedHeaders.t) :=
  match ParsedHeaders.main parsed with
  | None => mret None
  | Some main =>
      match MainArchiveHeader.quick_open_offset main with
      | None => mret None
      | Some quick_open_offset =>
          restore_pos ← stream_position;
          tried ← attempt (parse_quick_open_headers_at quick_open_offset main password);
          _ ← seek_start restore_pos;
          match tried with
          | inr answer => mret answer
          | inl _ => mret None
          end
      end
  end.

(** ** The encrypted walk *)

(** One decrypted header block: the IV, the first cipher block and as many
    more as the header needs. [None] is a [break] of the loop. *)
Definition read_encrypted_header (key : list byte) (scan : HeaderScan) (header_start floor : Z)
    : io walk_state (option (RawHeader.t * Z)) :=
  iv ← attempt (on_reader (read_exact 16));
  match iv with
  | inl e =>
      if is_unexpected_eof e then _ ← set_short (at_boundary floor); mret None
      else lift (Err e)
  | inr iv =>
      block0 ← absorb_short_read (read_exact 16) scan floor;
      match block0 with
      | None => mret None
      | Some block0 =>
          let '(dec0, st) := decrypt_blocks (cbc_new key iv) block0 in
          crc_bytes ← lift (slice dec0 0 4);
          let stored_crc := u32_le crc_bytes in
          tail ← lift (slice_from dec0 4);
          match read_vint tail with
          | Panic => lift Panic
          | Err _ => mret None
          | Ok (header_size, vint_len) =>
              if header_size =? 0 then mret None
              else
                _ ← lift (validate_header_size header_start header_size vint_len);
                let total := 4 + vint_len + header_size in
                let aligned := Z.land (total + 15) (Z.lnot 15) in
                more ← (if 16 <? aligned then absorb_short_read (read_exact (aligned - 16)) scan floor
                        else mret (Some []));
                match more with
                | None => mret None
                | Some more =>
                    let decrypted := dec0 ++ (decrypt_blocks st more).1 in
                    let body_start := 4 + vint_len in
                    let body_end := body_start + header_size in
                    if zlen decrypted <? body_end then lift (Err CorruptArchive)
                    else
                      body ← lift (slice decrypted body_start body_end);
                      let computed_crc := crc32 (vint_encode_for_crc header_size vint_len ++ body) in
                      if negb (computed_crc =? stored_crc)
                      then lift (Err (HeaderCrcMismatch stored_crc computed_crc))
                      else
                        raw ← lift (parse_raw_header_from_parts header_start stored_crc
                                      header_size vint_len body);
                        data_offset ← lift (o ← add_u64 header_start 16; add_u64 o aligned);
                        mret (Some (raw, data_offset))
                end
          end
      end
  end.

Fixpoint parse_encrypted_headers (fuel : nat) (key : list byte) (parsed : ParsedHeaders.t)
    (scan : HeaderScan) : io walk_state ParsedHeaders.t :=
  match fuel with
  | O => lift Panic
  | S fuel =>
      header_start ← on_reader stream_position;
      _ ← set_stop header_start;
      floor ← lift (add_u64 header_start MIN_RAR5_ENCRYPTED_HEADER_BYTES);
      header ← read_encrypted_header key scan header_start floor;
      match header with
      | None => mret parsed
      | Some (raw, data_offset) =>
          match RawHeader.header_type raw with
          | HeaderType.EndArchive =>
              e ← lift (EndArchive.parse raw);
              mret (ParsedHeaders.set_end e parsed)
          | _ =>
              parsed ← lift (dispatch_header raw data_offset parsed);
              if reached_file_limit scan (zlen (ParsedHeaders.files parsed)) then mret parsed
              else
                _ ← on_reader (skip_data_area raw);
                parse_encrypted_headers fuel key parsed scan
          end
      end
  end.

(** ** The plaintext walk *)

Fixpoint walk_headers_from (fuel : nat) (password : option ustring)
    (options : HeaderParseOptions) (scan : HeaderScan) (parsed : ParsedHeaders.t)
    : io walk_state HeaderWalk :=
  match fuel with
  | O => lift Panic
  | S fuel =>
      header_start ← on_reader stream_position;
      _ ← set_stop header_start;
      floor ← lift (add_u64 header_start MIN_RAR5_HEADER_BYTES);
      header ← absorb_short_read read_raw_header scan floor;
      match header with
      | None => mret (Parsed parsed)
      | Some None => _ ← set_short (at_boundary floor); mret (Parsed parsed)
      | Some (Some raw) =>
          data_offset ← lift (data_offset_of raw);
          match RawHeader.header_type raw with
          | HeaderType.Encryption =>
              enc ← lift (Encryption.parse sha256_digest raw);
              let parsed := ParsedHeaders.set_encryption enc parsed in
              match password with
              | None => mret (HeaderEncrypted enc)
              | Some pwd =>
                  let salt := Encryption.salt enc in
                  let kdf_count := Encryption.kdf_count enc in
                  if match Encryption.check_data enc with
                     | Some check_data => negb (verify_password_rar5 pwd salt kdf_count check_data)
                     | None => false
                     end then lift (Err InvalidPassword)
                  else
                    key ← lift (derive_key_rar5 pwd salt kdf_count);
                    parsed ← parse_encrypted_headers fuel key parsed scan;
                    mret (Parsed parsed)
              end
          | HeaderType.EndArchive =>
              e ← lift (EndArchive.parse raw);
              mret (Parsed (ParsedHeaders.set_end e parsed))
          | HeaderType.MainArchive =>
              parsed ← lift (dispatch_header raw data_offset parsed);
              quick_open ←
                (if allow_quick_open options
                 then on_reader (try_parse_quick_open_headers parsed password) else mret None);
              match quick_open with
              | Some quick_open => mret (Parsed quick_open)
              | None =>
                  _ ← on_reader (skip_data_area raw);
                  walk_headers_from fuel password options scan parsed
              end
          | _ =>
              parsed ← lift (dispatch_header raw data_offset parsed);
              if reached_file_limit scan (zlen (ParsedHeaders.files parsed))
              then mret (Parsed parsed)
              else
                _ ← on_reader (skip_data_area raw);
                walk_headers_from fuel password options scan parsed
          end
      end
  end.

(** One header takes at least a byte of the stream: a round more than the
    stream has bytes is enough for any walk. *)
Definition walk_fuel (bytes : list byte) : nat := S (S (length bytes)).

Definition walk_all_headers (password : option ustring) (options : HeaderParseOptions)
    (scan : HeaderScan) : io walk_state HeaderWalk := fun w =>
  walk_headers_from (walk_fuel (content (rd w))) password options scan
    ParsedHeaders.empty_parsed_headers w.

Definition parse_headers_with_scan (r : reader) (password : option ustring)
    (options : HeaderParseOptions) (scan : HeaderScan) : result ParsedHeaders.t :=
  walk ← (walk_all_headers password options scan (mk_walk r None 0)).1;
  match walk with
  | Parsed parsed => mret parsed
  | HeaderEncrypted _ => Err EncryptedArchive
  end.

Definition parse_all_headers_with_options (r : reader) (password : option ustring)
    (options : HeaderParseOptions) : result ParsedHeaders.t :=
  parse_headers_with_scan r password options ForDecode.

Definition parse_all_headers (r : reader) (password : option ustring) : result ParsedHeaders.t :=
  parse_all_headers_with_options r password default_options.

(** Continuing a walk at a header boundary, with the main and encryption
    headers read before it. *)
Definition resumed (main : option MainArchiveHeader.t) (encryption : option Encryption.t)
    : ParsedHeaders.t :=
  ParsedHeaders.mk main [] [] encryption None
    (match encryption with Some _ => true | None => false end) false.

Definition resume_headers_with_scan (r : reader) (password : option ustring)
    (scan : HeaderScan) (main : option MainArchiveHeader.t) (encryption : option Encryption.t)
    : result ParsedHeaders.t :=
  let w := mk_walk r None 0 in
  let fuel := walk_fuel (content r) in
  let result := resumed main encryption in
  match encryption with
  | Some enc =>
      match password with
      | None => Err EncryptedArchive
      | Some password =>
          key ← derive_key_rar5 password (Encryption.salt enc) (Encryption.kdf_count enc);
          (parse_encrypted_headers fuel key result scan w).1
      end
  | None =>
      walk ← (walk_headers_from fuel password (mk_options false) scan result w).1;
      match walk with
      | Parsed parsed => mret parsed
      | HeaderEncrypted _ => Err EncryptedArchive
      end
  end.

(** The physical part of a facts walk from [at], [parsed] being what is known
    of the headers before it. *)
Definition resume_headers_for_facts (password : option ustring) (options : HeaderParseOptions)
    (at' : Z) (main : option MainArchiveHeader.t) (encryption : option Encryption.t)
    : io walk_state ParsedHeaders.t := fun w0 =>
  let fuel := walk_fuel (content (rd w0)) in
  let result := resumed main encryption in
  (_ ← set_stop at';
   match encryption with
   | Some enc =>
       match password with
       | None => lift (Err EncryptedArchive)
       | Some password =>
           let salt := Encryption.salt enc in
           let kdf_count := Encryption.kdf_count enc in
           if match Encryption.check_data enc with
              | Some check_data => negb (verify_password_rar5 password salt kdf_count check_data)
              | None => false
              end then lift (Err InvalidPassword)
           else
             key ← lift (derive_key_rar5 password salt kdf_count);
             _ ← on_reader (seek_start at');
             parse_encrypted_headers fuel key result ForFacts
       end
   | None =>
       quick_open ←
         (if allow_quick_open options
          then on_reader (try_parse_quick_open_headers result password) else mret None);
       match quick_open with
       | Some quick_open => mret quick_open
       | None =>
           _ ← on_reader (seek_start at');
           walk ← walk_headers_from fuel password options ForFacts result;
           match walk with
           | Parsed parsed => mret parsed
           | HeaderEncrypted _ => lift (Err EncryptedArchive)
           end
       end
   end) w0.

Definition parse_header_encryption (r : reader) : result (option Encryption.t) :=
  walk ← (walk_all_headers None (mk_options false) ForDecode (mk_walk r None 0)).1;
  mret (match walk with HeaderEncrypted encryption => Some encryption | Parsed _ => None end).
End walk.

(** * Laws *)

Lemma wp_read_raw_header r (Q : option RawHeader.t -> reader -> Prop) F :
  0 <= position r ->
  (forall raw, raw_ok raw -> RawHeader.offset raw = position r ->
     header_end raw <= zlen (content r) -> Q (Some raw) (set_position (header_end raw) r)) ->
  (forall r', reader_ok (content r) r' -> Q None r') ->
  (forall e r', reader_ok (content r) r' -> F e r') ->
  wp read_raw_header r Q F.
Proof.
  intros Hp HS HN HF. pose proof (read_raw_header_spec r Hp) as Hspec. unfold wp.
  destruct (read_raw_header r) as [[[raw|]|e|] r']; [|by auto..].
  destruct Hspec as (Hok & Ho & -> & Hle). auto.
Qed.

Lemma wp_skip_data_area raw r (Q : unit -> reader -> Prop) F :
  0 <= position r -> 0 <= RawHeader.data_area_size raw ->
  (forall r', content r' = content r -> position r <= position r' <= position r + I64_MAX ->
     Q tt r') ->
  (forall e, F e r) -> wp (skip_data_area raw) r Q F.
Proof.
  intros Hp Hd HQ HF. unfold skip_data_area, I64_MAX in *.
  destruct (Z.ltb_spec 0 (RawHeader.data_area_size raw)).
  - destruct (Z.ltb_spec (2 ^ 63 - 1) (RawHeader.data_area_size raw)); [by apply wp_err|].
    unfold wp, seek_current. destruct (_ && _); [|apply HF]. apply HQ; cbn; [done|lia].
  - apply wp_ret, HQ; [done|lia].
Qed.

Section walk_laws.
Context `{HeaderCryptoLaws}.

Lemma apply_extra_records_no_panic raw owner h :
  raw_ok raw -> no_panic (apply_extra_records raw owner h).
Proof.
  intros Hraw. unfold apply_extra_records.
  destruct (extra_area_bytes_ok raw) as [ea ->]; [by apply raw_ok_sizes|].
  cbn [mbind outcome_bind]. destruct ea as [data|]; [|done].
  pose proof (parse_extra_area_no_panic sha256_digest data owner).
  by destruct (parse_extra_area _ _ _).
Qed.

Lemma parse_service_from_raw_no_panic raw d : raw_ok raw -> no_panic (parse_service_from_raw raw d).
Proof.
  intros Hraw. eapply safe_bind; [by apply ServiceHeader_parse_no_panic|]. intros svc _ _.
  eapply safe_bind; [by apply apply_extra_records_no_panic|done].
Qed.

Lemma dispatch_header_no_panic raw d parsed : raw_ok raw -> no_panic (dispatch_header raw d parsed).
Proof.
  intros Hraw. unfold dispatch_header. destruct (RawHeader.header_type raw); try done.
  - eapply safe_bind; [by apply parse_no_panic|done].
  - eapply safe_bind; [by apply FileHeader_parse_no_panic|]. intros fh _ _.
    eapply safe_bind; [by apply apply_extra_records_no_panic|done].
  - eapply safe_bind; [by apply parse_service_from_raw_no_panic|done].
  - by destruct (negb _).
Qed.

Lemma data_offset_of_ok raw :
  raw_ok raw -> header_end raw < 2 ^ 64 -> data_offset_of raw = Ok (header_end raw).
Proof.
  intros (Ho & Hs & Hn & _) Hlt. unfold header_end, data_offset_of, add_u64 in *.
  unfold MAX_HEADER_BODY, RAR5_MAX_HEADER_BODY in *.
  rewrite (proj2 (Z.ltb_lt _ _)) by lia. cbn [mbind outcome_bind].
  rewrite (proj2 (Z.ltb_lt _ _)) by lia. cbn [mbind outcome_bind].
  rewrite (proj2 (Z.ltb_lt _ _)) by lia. done.
Qed.

(** ** Quick Open records *)

Lemma wp_read_quick_open_exact n rem r (Q : list byte * Z -> reader -> Prop) F :
  0 <= n -> 0 <= position r ->
  (n <= rem -> n <= zlen (rest_of r) -> zlen (ztake n (rest_of r)) = n ->
     Q (ztake n (rest_of r), rem - n) (set_position (position r + n) r)) ->
  (forall e r', reader_ok (content r) r' -> F e r') ->
  wp (read_quick_open_exact n rem) r Q F.
Proof.
  intros Hn Hp HQ HF. unfold read_quick_open_exact. destruct (Z.ltb_spec rem n).
  { apply wp_err, HF. by split. }
  apply wp_bind, wp_map_err, wp_read_exact; [done|done| |intros; by apply HF].
  intros. apply wp_ret. auto.
Qed.

Lemma wp_read_quick_open_vint_loop todo bytes rem r (Q : list byte * Z -> reader -> Prop) F :
  0 <= position r ->
  (forall bs rem' r', content r' = content r -> position r < position r' ->
     position r' - position r <= zlen (rest_of r) -> rem' <= rem -> Q (bs, rem') r') ->
  (forall e r', reader_ok (content r) r' -> F e r') ->
  wp (read_quick_open_vint_loop todo bytes rem) r Q F.
Proof.
  revert bytes rem r. induction todo as [|todo IH]; intros bytes rem r Hp HQ HF;
    cbn [read_quick_open_vint_loop]; destruct (rem =? 0); try (apply wp_err, HF; by split).
  apply wp_bind, wp_read_quick_open_exact; [lia|done| |done].
  intros Hrem Hrest Hlen. cbn beta iota.
  destruct (ztake 1 (rest_of r)) as [|b [|b' l]] eqn:Et;
    [discriminate Hlen| |rewrite !zlen_cons in Hlen; pose proof (zlen_nonneg l); lia].
  apply wp_bind. change (index [b] 0) with (Ok (E := rar_error) b).
  apply (wp_lift _ _ (fun _ => True)); [done| |intros e; apply HF; split; [done|cbn; lia]].
  intros ? [= <-] _. destruct (_ =? 0).
  - apply wp_ret, HQ; cbn; done || lia.
  - apply IH; [cbn; lia| |cbn; done].
    rewrite rest_of_advance by lia. rewrite zlen_drop by lia. cbn. intros. apply HQ; [done|lia..].
Qed.

Lemma parse_quick_open_cached_header_safe bytes o :
  0 <= o -> safe (parse_quick_open_cached_header bytes o)
              (fun raw => raw_ok raw /\ RawHeader.offset raw = o).
Proof.
  intros Ho. unfold parse_quick_open_cached_header.
  destruct (Z.ltb_spec (zlen bytes) 5) as [|Hlen]; [done|]. step_slice. step_slice.
  pose proof (read_vint_safe (zdrop 4 bytes)) as Hv.
  destruct (read_vint (zdrop 4 bytes)) as [[size n]|e|]; [|done|done]. cbn in Hv |- *.
  destruct (size =? 0); [done|].
  eapply safe_bind; [apply validate_header_size_no_panic|]. intros [] Hval _.
  destruct (checked_add_u64 _ _) as [body_end|] eqn:Hadd; [|done].
  apply checked_add_u64_Some in Hadd as ->.
  destruct (Z.eqb_spec (4 + n + size) (zlen bytes)) as [Heq|]; [|done]. cbn [negb].
  step_slice. eapply safe_mono; [apply parse_raw_header_from_parts_safe|]; try lia.
  - slen.
  - intros raw _ (Hok & Hoff & _). done.
Qed.

Lemma read_vint_get_safe body pos :
  0 <= pos -> safe (read_vint_get body pos)
    (fun '(v, p) => 0 <= v < 2 ^ 64 /\ pos < p /\ p <= zlen body).
Proof.
  intros Hp. unfold read_vint_get, get_from.
  eapply safe_bind; [apply read_vint_safe|]. intros [v n] _ (? & ? & Hn). cbn.
  rewrite zlen_drop in Hn by lia. lia.
Qed.

Lemma quick_open_record_header_safe body q :
  safe (quick_open_record_header body q) (fun raw => raw_ok raw /\ RawHeader.offset raw <= q).
Proof.
  unfold quick_open_record_header.
  eapply safe_bind; [by apply read_vint_get_safe|]. intros [v1 p1] _ (_ & Hp1 & _).
  eapply safe_bind; [apply read_vint_get_safe; lia|]. intros [off p2] _ (Hoff & Hp2 & _).
  eapply safe_bind; [apply read_vint_get_safe; lia|]. intros [size p3] _ (Hs & Hp3 & Hl3).
  destruct (_ <? size); [done|].
  destruct (checked_add_u64 _ _) as [stop|] eqn:Hadd; [|done].
  apply checked_add_u64_Some in Hadd as ->.
  destruct (Z.ltb_spec (zlen body) (p3 + size)); [done|].
  unfold checked_sub_u64. destruct (Z.leb_spec off q); [|done]. step_slice.
  eapply safe_mono; [apply parse_quick_open_cached_header_safe; lia|]. intros raw _ [Hok Ho].
  split; [done|lia].
Qed.

Lemma wp_read_quick_open_record rem q r (Q : option RawHeader.t * Z -> reader -> Prop) F :
  0 <= position r ->
  (forall rem', Q (None, rem') r) ->
  (forall raw rem' r', raw_ok raw -> RawHeader.offset raw <= q -> content r' = content r ->
     position r < position r' -> position r' - position r <= zlen (rest_of r) ->
     Q (Some raw, rem') r') ->
  (forall e r', reader_ok (content r) r' -> F e r') ->
  wp (read_quick_open_record rem q) r Q F.
Proof.
  intros Hp HN HS HF. unfold read_quick_open_record.
  destruct (rem =? 0); [by apply wp_ret|].
  destruct (rem <? 5); [apply wp_err, HF; by split|].
  apply wp_bind, wp_read_quick_open_exact; [lia|done| |done]. intros _ Hr4 _. cbn beta iota.
  apply wp_bind, wp_read_quick_open_vint_loop; [cbn; lia| |cbn; done].
  rewrite rest_of_advance by lia. rewrite zlen_drop by lia. cbn.
  intros size_vint rem2 r2 Hc2 Hp2 Hlen2 _.
  assert (HF2 : forall e, F e r2) by (intros e; apply HF; split; [done|lia]).
  apply wp_bind, (wp_lift _ _ (fun '(v, n) => 0 <= v < 2 ^ 64)); [|intros [size n] _ Hsize|done].
  { eapply safe_mono; [apply read_vint_safe|]. intros [v n] _. tauto. }
  destruct (_ || _); [by apply wp_err|].
  apply wp_bind, (wp_lift _ _ (fun _ => True)); [apply validate_header_size_no_panic| |done].
  intros _ _ _. destruct (_ <? size); [by apply wp_err|]. destruct (_ <? size); [by apply wp_err|].
  apply wp_bind, wp_read_quick_open_exact; [lia|lia| |rewrite Hc2; done].
  intros _ Hr2 _. cbn beta iota.
  set (r3 := set_position (position r2 + size) r2).
  assert (HF3 : forall e, F e r3) by (intros e; apply HF; split; [done|cbn; lia]).
  destruct (negb _); [by apply wp_err|].
  apply wp_bind, (wp_lift _ _ _ _ _ (quick_open_record_header_safe _ _)); [|done].
  intros raw _ [Hok Ho]. apply wp_ret, HS; try done; cbn; try lia.
  rewrite !rest_of_len in * by lia. rewrite Hc2 in *. lia.
Qed.
End walk_laws.
