(* ===== verification/HeaderWalkLaws.v ===== *)
(** Laws of the header walk: on every byte string it ends and never panics,
    with no 64-bit overflow on the way; the Quick Open attempt leaves the
    reader where it was. *)
From S2P Require Import Prelude.
From S2P Require Import RarTypes.
From S2P Require Import Vint.
From S2P Require Import Utf8.
From S2P Require Import Reader.
From S2P Require Import HeaderCommon.
From S2P Require Import HeaderFields.
From S2P Require Import HeaderExtra.
From S2P Require Import HeaderMain.
From S2P Require Import HeaderFile.
From S2P Require Import HeaderWalk.

Section quick_open_laws.
Context `{HeaderCryptoLaws}.

Lemma end_archive_no_panic raw : raw_ok raw -> no_panic (EndArchive.parse raw).
Proof. apply EndArchive_parse_no_panic. Qed.

Lemma wp_parse_quick_open_loop fuel rem q parsed r (Q : option ParsedHeaders.t -> reader -> Prop) F :
  0 <= position r -> q + 2 ^ 22 < 2 ^ 64 -> zlen (rest_of r) < Z.of_nat fuel ->
  (forall a r', reader_ok (content r) r' -> Q a r') ->
  (forall e r', reader_ok (content r) r' -> F e r') ->
  wp (parse_quick_open_loop fuel rem q parsed) r Q F.
Proof.
  revert rem parsed r. induction fuel as [|fuel IH]; intros rem parsed r Hp Hq Hfuel HQ HF.
  { pose proof (zlen_nonneg (rest_of r)). lia. }
  cbn [parse_quick_open_loop]. apply wp_bind, wp_read_quick_open_record; [done| | |done].
  { intros rem'. by apply wp_ret, HQ. }
  intros raw rem' r' Hok Ho Hc Hp' Hl. cbn beta iota.
  assert (HF' : forall e, F e r') by (intros e; apply HF; split; [done|lia]).
  assert (HQ' : forall a, Q a r') by (intros a; apply HQ; split; [done|lia]).
  assert (Hend : header_end raw < 2 ^ 64).
  { destruct Hok as (_ & Hs & Hn & _). unfold header_end, MAX_HEADER_BODY, RAR5_MAX_HEADER_BODY,
      MAX_HEADER_SIZE_VINT_BYTES in *. lia. }
  apply wp_bind. rewrite data_offset_of_ok by done.
  apply (wp_lift _ _ (fun _ => True)); [done| |done]. intros d _ _.
  assert (Hnext : wp (parsed ← lift (dispatch_header raw d parsed);
                      parse_quick_open_loop fuel rem' q parsed) r' Q F).
  { apply wp_bind, (wp_lift _ _ (fun _ => True)); [by apply dispatch_header_no_panic| |done].
    intros parsed' _ _. rewrite <- Hc in HQ, HF. apply IH; [lia|done| |done..].
    rewrite rest_of_len in * by lia. rewrite Hc. lia. }
  destruct (RawHeader.header_type raw); try exact Hnext.
  - by apply wp_ret.
  - apply wp_bind, (wp_lift _ _ (fun _ => True)); [by apply end_archive_no_panic| |done].
    intros. by apply wp_ret.
Qed.

Lemma wp_parse_quick_open_records rem q main r (Q : option ParsedHeaders.t -> reader -> Prop) F :
  0 <= position r -> q + 2 ^ 22 < 2 ^ 64 ->
  (forall a r', reader_ok (content r) r' -> Q a r') ->
  (forall e r', reader_ok (content r) r' -> F e r') ->
  wp (parse_quick_open_records rem q main) r Q F.
Proof.
  intros. unfold parse_quick_open_records, wp.
  apply (wp_parse_quick_open_loop (S (length (rest_of r))) rem q _ r Q F); try done.
  unfold zlen. lia.
Qed.

Lemma wp_parse_encrypted_quick_open_records raw svc pw main r
    (Q : option ParsedHeaders.t -> reader -> Prop) F :
  RawHeader.offset raw + 2 ^ 22 < 2 ^ 64 ->
  (forall a, Q a r) -> (forall e, F e r) ->
  wp (parse_encrypted_quick_open_records raw svc pw main) r Q F.
Proof.
  intros Ho HQ HF. unfold parse_encrypted_quick_open_records.
  destruct pw as [pw|]; [|by apply wp_ret].
  destruct (ParsedService.file_encryption svc) as [enc|]; [|by apply wp_ret].
  destruct (negb _); [by apply wp_ret|].
  destruct (match FileEncryptionParams.check_data enc with Some _ => _ | None => _ end);
    [by apply wp_ret|].
  destruct (negb _); [by apply wp_ret|].
  apply wp_bind, (wp_lift _ _ (fun _ => True)); [by apply derive_key_no_panic| |done].
  intros key _ _. apply wp_bind, wp_gets.
  apply (wp_lift _ _ (fun _ => True)); [|done|done].
  match goal with |- safe (parse_quick_open_records ?a ?b ?c ?d).1 _ => 
    pose proof (wp_parse_quick_open_records a b c d (fun _ _ => True) (fun _ _ => True)) as Hwp;
    unfold wp in Hwp; destruct (parse_quick_open_records a b c d) as [[?|?|] ?] end;
    cbn; try done. apply Hwp; done.
Qed.

Lemma wp_parse_quick_open_headers_at off main pw r (Q : option ParsedHeaders.t -> reader -> Prop) F :
  0 <= off -> zlen (content r) <= 2 ^ 62 ->
  (forall a r', reader_ok (content r) r' -> Q a r') ->
  (forall e r', reader_ok (content r) r' -> F e r') ->
  wp (parse_quick_open_headers_at off main pw) r Q F.
Proof.
  intros Hoff Hlen HQ HF. unfold parse_quick_open_headers_at.
  apply wp_bind, wp_modify. set (r1 := set_position off r).
  apply wp_bind, wp_read_raw_header; [cbn; lia| | |cbn; done].
  2: { intros r' Hr'. apply wp_ret, HQ. done. }
  intros raw Hok Ho Hle. cbn in Ho, Hle. change (set_position (header_end raw) r1)
    with (set_position (header_end raw) r). set (r2 := set_position (header_end raw) r).
  assert (Hr2 : reader_ok (content r) r2).
  { split; [done|]. destruct Hok as (? & Hs & Hn & _). cbn. unfold header_end. lia. }
  assert (Hlo : RawHeader.offset raw <= header_end raw).
  { destruct Hok as (? & Hs & Hn & _). unfold header_end. lia. }
  destruct (negb _); [by apply wp_ret, HQ|].
  apply wp_bind. rewrite data_offset_of_ok by (done || lia).
  apply (wp_lift _ _ (fun _ => True)); [done| |intros; by apply HF]. intros d _ _.
  apply wp_bind, (wp_lift _ _ (fun _ => True));
    [by apply parse_service_from_raw_no_panic| |intros; by apply HF]. intros svc _ _.
  destruct (negb _); [by apply wp_ret, HQ|]. destruct (negb _); [by apply wp_ret, HQ|].
  destruct (ParsedService.is_encrypted svc).
  - apply wp_parse_encrypted_quick_open_records; [lia|intros; by apply HQ|intros; by apply HF].
  - apply wp_parse_quick_open_records; [apply Hr2|lia|done..].
Qed.

(** Whatever the attempt finds, the reader is back where it was. *)
Lemma wp_try_parse_quick_open_headers parsed pw r (Q : option ParsedHeaders.t -> reader -> Prop) F :
  (forall main off, ParsedHeaders.main parsed = Some main ->
     MainArchiveHeader.quick_open_offset main = Some off -> 0 <= off) ->
  zlen (content r) <= 2 ^ 62 -> (forall a, Q a r) ->
  wp (try_parse_quick_open_headers parsed pw) r Q F.
Proof.
  intros Hoff Hlen HQ. unfold try_parse_quick_open_headers.
  destruct (ParsedHeaders.main parsed) as [main|] eqn:Hm; [|by apply wp_ret].
  destruct (MainArchiveHeader.quick_open_offset main) as [off|] eqn:Ho; [|by apply wp_ret].
  apply wp_bind, wp_gets, wp_bind, wp_attempt.
  apply wp_parse_quick_open_headers_at; [by eapply Hoff|done|..];
    intros a r' [Hc _]; apply wp_bind, wp_modify;
    unfold set_position; rewrite Hc; destruct r; cbn; by apply wp_ret.
Qed.

Lemma try_parse_quick_open_headers_ok parsed pw r :
  (forall main off, ParsedHeaders.main parsed = Some main ->
     MainArchiveHeader.quick_open_offset main = Some off -> 0 <= off) ->
  zlen (content r) <= 2 ^ 62 ->
  exists q, try_parse_quick_open_headers parsed pw r = (Ok q, r).
Proof.
  intros Hoff Hlen.
  pose proof (wp_try_parse_quick_open_headers parsed pw r (fun _ r' => r' = r)
                (fun _ _ => False) Hoff Hlen (fun _ => eq_refl)) as Hwp.
  unfold wp in Hwp. destruct (try_parse_quick_open_headers parsed pw r) as [[q|e|] r'] eqn:Hq;
    try done. subst. eauto.
Qed.
End quick_open_laws.

(** [(x + 15) & !15]. *)
Lemma align16 x : Z.land x (Z.lnot 15) = 16 * (x / 16).
Proof.
  rewrite <- Z.ldiff_land. change 15 with (Z.ones 4).
  rewrite Z.ldiff_ones_r, Z.shiftl_mul_pow2, Z.shiftr_div_pow2 by lia.
  change (2 ^ 4) with 16. lia.
Qed.

(** * The walk rule

    An invariant [I] of the position and the headers gathered so far, and a
    property [R] of the headers returned. A step is a header read whole at the
    position, dispatched with the offset [d] of its data area; the walk goes on
    right after that area. *)
Section walk_rule.
Context `{HeaderCryptoLaws}.
Context (bytes : list byte) (scan : HeaderScan) (options : HeaderParseOptions).
Context (I : Z -> ParsedHeaders.t -> Prop) (R : ParsedHeaders.t -> Prop).

Definition at_position (w : walk_state) (pos : Z) : Prop :=
  content (rd w) = bytes /\ position (rd w) = pos /\ 0 <= pos <= zlen bytes + I64_MAX.

Record walk_step_laws : Prop := {
  step_dispatch : forall raw d p p',
    raw_ok raw -> I (RawHeader.offset raw) p -> RawHeader.offset raw < d <= zlen bytes ->
    dispatch_header raw d p = Ok p' ->
    R p' /\ (reached_file_limit scan (zlen (ParsedHeaders.files p')) = false \/
             RawHeader.header_type raw = HeaderType.MainArchive ->
             I (d + RawHeader.data_area_size raw) p');
  step_result : forall pos p, I pos p -> R p;
  step_end : forall pos p e, I pos p -> R (ParsedHeaders.set_end e p);
  step_encryption : forall pos pos' p e, I pos p -> pos <= pos' ->
    I pos' (ParsedHeaders.set_encryption e p);
  step_quick_open : allow_quick_open options = true -> forall pw p r r' q,
    content r = bytes -> try_parse_quick_open_headers p pw r = (Ok (Some q), r') -> R q;
}.

Context (Hlen : zlen bytes <= 2 ^ 62) (Hlaws : walk_step_laws).

Definition any_error : rar_error -> walk_state -> Prop := fun _ _ => True.

Lemma wp_skip_to raw w (Q : unit -> walk_state -> Prop) :
  content (rd w) = bytes -> 0 <= position (rd w) <= zlen bytes ->
  0 <= RawHeader.data_area_size raw ->
  (forall w', at_position w' (position (rd w) + RawHeader.data_area_size raw) -> Q tt w') ->
  wp (on_reader (skip_data_area raw)) w Q any_error.
Proof.
  intros Hc Hp Hd HQ. apply wp_on_reader. unfold skip_data_area, wp.
  destruct (Z.ltb_spec 0 (RawHeader.data_area_size raw)); unfold I64_MAX in *.
  - destruct (Z.ltb_spec (2 ^ 63 - 1) (RawHeader.data_area_size raw)); [done|].
    unfold seek_current. destruct (_ && _); [|done]. apply HQ. unfold at_position, I64_MAX. cbn. lia || (split_and!; done || lia).
  - apply HQ. unfold at_position, I64_MAX. cbn. split_and!; done || lia.
Qed.

Lemma wp_read_encrypted_header key header_start floor w
    (Q : option (RawHeader.t * Z) -> walk_state -> Prop) :
  at_position w header_start ->
  (forall w', Q None w') ->
  (forall raw d w', raw_ok raw -> RawHeader.offset raw = header_start ->
     header_start < d <= zlen bytes -> at_position w' d -> Q (Some (raw, d)) w') ->
  wp (read_encrypted_header key scan header_start floor) w Q any_error.
Proof.
  intros (Hc & Hpos & Hp) HN HS. unfold read_encrypted_header.
  apply wp_bind, wp_attempt, wp_on_reader, wp_read_exact; [lia|lia| |].
  2: { intros r' _. cbn. apply wp_bind, wp_modify, wp_ret, HN. }
  intros Hr16 _. apply wp_bind, wp_absorb, wp_read_exact; [lia|cbn; lia| |].
  2: { intros r' _. split; [done|]. intros _ _. apply wp_ret, HN. }
  cbn. rewrite rest_of_advance by lia. intros Hr32 Hl32.
  pose proof (decrypt_blocks_length (cbc_new key (ztake 16 (rest_of (rd w))))
                (ztake 16 (zdrop 16 (rest_of (rd w))))) as Hdl.
  destruct (decrypt_blocks _ _) as [dec0 st]. cbn in Hdl. rewrite Hl32 in Hdl.
  rewrite zlen_drop in Hr32 by lia. rewrite rest_of_len in Hr32 by lia.
  rewrite rest_of_len in Hr16 by lia. rewrite Hc in Hr16, Hr32.
  rewrite slice_ok by lia. apply wp_bind, (wp_lift _ _ (fun _ => True)); [done| |done].
  intros crc_bytes _ _. rewrite slice_from_ok by lia.
  apply wp_bind, (wp_lift _ _ (fun _ => True)); [done| |done]. intros tail [= <-] _.
  pose proof (read_vint_safe (zdrop 4 dec0)) as Hv.
  destruct (read_vint (zdrop 4 dec0)) as [[size n]|e|]; [|by apply wp_ret|done].
  cbn in Hv. destruct (Z.eqb_spec size 0) as [|Hsize]; [by apply wp_ret|].
  apply wp_bind, (wp_lift _ _ (fun _ => True)); [apply validate_header_size_no_panic| |done].
  intros [] Hval _. apply validate_header_size_ok in Hval; [|lia].
  unfold MAX_HEADER_BODY, RAR5_MAX_HEADER_BODY, MAX_HEADER_SIZE_VINT_BYTES in Hval.
  set (total := 4 + n + size). set (aligned := Z.land (total + 15) (Z.lnot 15)).
  assert (Hal : total <= aligned <= total + 15 /\ 16 <= aligned).
  { unfold aligned. rewrite align16. unfold total. dlia. }
  apply wp_bind, (wp_mono _ _ (fun more w' => forall more', more = Some more' ->
      at_position w' (header_start + 16 + aligned) /\
      header_start + 16 + aligned <= zlen bytes /\ zlen more' = aligned - 16) _ any_error);
    [| |done].
  { destruct (Z.ltb_spec 16 aligned).
    - apply wp_absorb, wp_read_exact; [lia|cbn; lia| |by split].
      rewrite rest_of_len by (cbn; lia). cbn. rewrite Hc. intros Hl Hl' more' [= <-].
      unfold at_position, I64_MAX. cbn. split_and!; done || lia.
    - apply wp_ret. intros more' [= <-]. unfold at_position, I64_MAX. cbn.
      assert (zlen (@nil byte) = 0) by done. split_and!; done || lia. }
  intros [more|] w2 Hmore; [|by apply wp_ret].
  destruct (Hmore more eq_refl) as (Hat & Hfit & Hml). clear Hmore.
  pose proof (decrypt_blocks_length st more) as Hdm.
  set (decrypted := dec0 ++ (decrypt_blocks st more).1).
  assert (Hdecl : zlen decrypted = aligned) by (unfold decrypted; rewrite zlen_app; lia).
  cbv beta iota zeta. fold decrypted. destruct (Z.ltb_spec (zlen decrypted) total); [by apply wp_err|].
  rewrite slice_ok by lia. apply wp_bind, (wp_lift _ _ (fun _ => True)); [done| |done].
  intros body [= <-] _. destruct (negb _); [by apply wp_err|].
  eapply wp_bind, wp_lift; [apply parse_raw_header_from_parts_safe; [lia..|]| |done].
  { rewrite zlen_take, zlen_drop by lia. lia. }
  intros raw _ (Hok & Ho & _). apply wp_bind. unfold add_u64.
  rewrite (proj2 (Z.ltb_lt _ _)) by lia. cbn [mbind outcome_bind].
  rewrite (proj2 (Z.ltb_lt _ _)) by lia.
  apply (wp_lift _ _ (fun _ => True)); [done| |done]. intros d [= <-] _.
  apply wp_ret, HS; done || lia.
Qed.

Lemma wp_parse_encrypted_headers fuel key p w pos :
  at_position w pos -> I pos p -> Z.max 0 (zlen bytes - pos) < Z.of_nat fuel ->
  wp (parse_encrypted_headers fuel key p scan) w (fun p' _ => R p') any_error.
Proof.
  revert p w pos. induction fuel as [|fuel IH]; intros p w pos Hat HI Hfuel; [lia|].
  cbn [parse_encrypted_headers]. apply wp_bind, wp_on_reader, wp_gets, wp_bind, wp_modify.
  pose proof Hat as (Hc & Hp & Hrange). unfold I64_MAX in Hrange.
  apply wp_bind. unfold add_u64 at 1, MIN_RAR5_ENCRYPTED_HEADER_BYTES.
  rewrite (proj2 (Z.ltb_lt _ _)) by lia.
  apply (wp_lift _ _ (fun _ => True)); [done| |done]. intros floor _ _.
  rewrite Hp. apply wp_bind, wp_read_encrypted_header; [done| |].
  { intros w'. apply wp_ret. by eapply step_result. }
  intros raw d w' Hok Ho Hd Hat'. cbv beta iota.
  pose proof (raw_ok_sizes raw Hok) as [_ Hds]. destruct Hat' as (Hc' & Hp' & Hr').
  assert (Hdisp : wp (parsed ← lift (dispatch_header raw d p);
      if reached_file_limit scan (zlen (ParsedHeaders.files parsed)) then mret parsed
      else _ ← on_reader (skip_data_area raw); parse_encrypted_headers fuel key parsed scan)
      w' (fun p' _ => R p') any_error).
  { apply wp_bind, (wp_lift _ _ (fun _ => True)); [by apply dispatch_header_no_panic| |done].
    intros p' Hp'' _. rewrite <- Ho in HI, Hd.
    destruct (step_dispatch Hlaws raw d p p' Hok HI Hd Hp'') as [HR HI'].
    destruct (reached_file_limit _ _) eqn:Hlim; [by apply wp_ret|].
    apply wp_bind, wp_skip_to; [done|lia|lia|]. intros w'' Hat''. rewrite Hp' in Hat''.
    eapply IH; [exact Hat''|apply HI'; by left|lia]. }
  destruct (RawHeader.header_type raw); try exact Hdisp.
  apply wp_bind, (wp_lift _ _ (fun _ => True)); [by apply end_archive_no_panic| |done].
  intros e _ _. apply wp_ret. by eapply step_end.
Qed.

(** What a plaintext walk returns. *)
Definition walk_result (password : option ustring) (res : HeaderWalk) : Prop :=
  match res with Parsed p => R p | HeaderEncrypted _ => password = None end.

Lemma wp_walk_headers_from fuel pw p w pos :
  at_position w pos -> I pos p -> Z.max 0 (zlen bytes - pos) < Z.of_nat fuel ->
  wp (walk_headers_from fuel pw options scan p) w (fun res _ => walk_result pw res) any_error.
Proof.
  revert p w pos. induction fuel as [|fuel IH]; intros p w pos Hat HI Hfuel; [lia|].
  cbn [walk_headers_from]. apply wp_bind, wp_on_reader, wp_gets, wp_bind, wp_modify.
  pose proof Hat as (Hc & Hp & Hrange). unfold I64_MAX in Hrange.
  apply wp_bind. unfold add_u64 at 1, MIN_RAR5_HEADER_BYTES.
  rewrite (proj2 (Z.ltb_lt _ _)) by lia.
  apply (wp_lift _ _ (fun _ => True)); [done| |done]. intros floor _ _.
  assert (HRp : R p) by by eapply step_result.
  apply wp_bind, wp_absorb, wp_read_raw_header; [cbn; lia| | |].
  2: { intros r' _. cbn. apply wp_bind, wp_modify, wp_ret. done. }
  2: { intros e r' _. split; [done|]. intros _ _. by apply wp_ret. }
  cbn [rd short stop]. rewrite Hp, Hc. intros raw Hok Ho Hle. cbv beta iota.
  set (w' := mk_walk _ _ _).
  pose proof (raw_ok_sizes raw Hok) as [_ Hds].
  assert (Hd : RawHeader.offset raw < header_end raw <= zlen bytes).
  { destruct Hok as (_ & ? & ? & _). unfold header_end in *. lia. }
  assert (Hc' : content (rd w') = bytes) by exact Hc.
  assert (Hp' : position (rd w') = header_end raw) by done.
  clearbody w'. apply wp_bind. rewrite data_offset_of_ok by (done || lia).
  apply (wp_lift _ _ (fun _ => True)); [done| |done]. intros d [= <-] _.
  rewrite <- Ho in HI.
  assert (Hnext : forall p', I (header_end raw + RawHeader.data_area_size raw) p' ->
    forall w'', content (rd w'') = bytes -> position (rd w'') = header_end raw ->
    wp (_ ← on_reader (skip_data_area raw); walk_headers_from fuel pw options scan p')
      w'' (fun res _ => walk_result pw res) any_error).
  { intros p' HI' w'' Hc'' Hp''. apply wp_bind, wp_skip_to; [done|lia|lia|].
    intros w3 Hat3. rewrite Hp'' in Hat3. eapply IH; [exact Hat3|done|lia]. }
  assert (Hdisp : wp (parsed ← lift (dispatch_header raw (header_end raw) p);
      if reached_file_limit scan (zlen (ParsedHeaders.files parsed)) then mret (Parsed parsed)
      else _ ← on_reader (skip_data_area raw); walk_headers_from fuel pw options scan parsed)
      w' (fun res _ => walk_result pw res) any_error).
  { apply wp_bind, (wp_lift _ _ (fun _ => True)); [by apply dispatch_header_no_panic| |done].
    intros p' Hp'' _. destruct (step_dispatch Hlaws raw _ p p' Hok HI Hd Hp'') as [HR HI'].
    destruct (reached_file_limit _ _) eqn:Hlim; [by apply wp_ret|].
    apply Hnext; [apply HI'; by left|done..]. }
  destruct (RawHeader.header_type raw) eqn:Htype; try exact Hdisp; clear Hdisp.
  - (* main archive header *)
    apply wp_bind, (wp_lift _ _ (fun p' => forall main off, ParsedHeaders.main p' = Some main ->
       MainArchiveHeader.quick_open_offset main = Some off -> 0 <= off)).
    { unfold dispatch_header. rewrite Htype. eapply safe_bind; [by apply parse_safe|].
      intros m _ Hm. cbn. intros main off [= ->] Hoff. by apply Hm in Hoff as []. }
    2: done.
    intros p' Hp'' Hmain.
    destruct (step_dispatch Hlaws raw _ p p' Hok HI Hd Hp'') as [_ HI'].
    specialize (HI' (or_intror Htype)). apply wp_bind.
    destruct (allow_quick_open options) eqn:Hqo.
    + apply wp_on_reader. unfold wp.
      destruct (try_parse_quick_open_headers_ok p' pw (rd w') Hmain) as [q Hq]; [by rewrite Hc'|].
      rewrite Hq. destruct q as [q|]; [apply wp_ret; by eapply (step_quick_open Hlaws Hqo _ _ (rd w'))|].
      by apply Hnext.
    + apply wp_ret. by apply Hnext.
  - (* encryption header *)
    apply wp_bind, (wp_lift _ _ (fun _ => True)); [by apply Encryption_parse_no_panic| |done].
    intros enc _ _. cbv zeta. destruct pw as [pwd|]; [|by apply wp_ret].
    destruct (match Encryption.check_data enc with Some _ => _ | None => _ end); [by apply wp_err|].
    apply wp_bind, (wp_lift _ _ (fun _ => True)); [by apply derive_key_no_panic| |done].
    intros key _ _. apply wp_bind. eapply wp_mono; [apply (wp_parse_encrypted_headers _ _ _ _ (header_end raw))| |done].
    + unfold at_position, I64_MAX. split_and!; done || lia.
    + eapply step_encryption; [done..|lia].
    + lia.
    + intros p' w'' HR. by apply wp_ret.
  - (* end of archive *)
    apply wp_bind, (wp_lift _ _ (fun _ => True)); [by apply end_archive_no_panic| |done].
    intros e _ _. apply wp_ret. by eapply step_end.
Qed.
End walk_rule.

(** The rule with nothing to maintain: the walks end without a panic. *)
Lemma trivial_step_laws `{HeaderCryptoLaws} bytes scan options :
  walk_step_laws bytes scan options (fun _ _ => True) (fun _ => True).
Proof. by split. Qed.

Lemma walk_no_panic `{HeaderCryptoLaws} bytes fuel pw options scan p pos s st :
  zlen bytes <= 2 ^ 62 -> 0 <= pos <= zlen bytes + I64_MAX -> Z.max 0 (zlen bytes - pos) < Z.of_nat fuel ->
  (walk_headers_from fuel pw options scan p (mk_walk (mk_reader bytes pos) s st)).1 <> Panic.
Proof.
  intros Hlen Hpos Hfuel.
  pose proof (wp_walk_headers_from bytes scan options _ _ Hlen (trivial_step_laws bytes scan options)
    fuel pw p (mk_walk (mk_reader bytes pos) s st) pos) as Hwp.
  unfold wp in Hwp. destruct (walk_headers_from _ _ _ _ _ _) as [[?|?|] ?]; cbn; [done|done|].
  exfalso. apply Hwp; [by unfold at_position|done|done].
Qed.

Lemma encrypted_no_panic `{HeaderCryptoLaws} bytes fuel key scan p pos s st :
  zlen bytes <= 2 ^ 62 -> 0 <= pos <= zlen bytes + I64_MAX -> Z.max 0 (zlen bytes - pos) < Z.of_nat fuel ->
  (parse_encrypted_headers fuel key p scan (mk_walk (mk_reader bytes pos) s st)).1 <> Panic.
Proof.
  intros Hlen Hpos Hfuel.
  pose proof (wp_parse_encrypted_headers bytes scan default_options _ _ Hlen
    (trivial_step_laws bytes scan default_options) fuel key p (mk_walk (mk_reader bytes pos) s st) pos) as Hwp.
  unfold wp in Hwp. destruct (parse_encrypted_headers _ _ _ _ _) as [[?|?|] ?]; cbn; [done|done|].
  exfalso. apply Hwp; [by unfold at_position|done|done].
Qed.

Lemma walk_fuel_enough bytes pos : 0 <= pos -> Z.max 0 (zlen bytes - pos) < Z.of_nat (walk_fuel bytes).
Proof. unfold walk_fuel, zlen. lia. Qed.
