(* ===== verification/HeaderFacts.v ===== *)
(** The two kinds of header walk compared: a facts walk over a volume that may
    still be arriving, and the strict walk over the same bytes
    ([crates/unrar-rs/src/short_read.rs]). *)
From S2P Require Import Prelude.
From S2P Require Import RarTypes.
From S2P Require Import Vint.
From S2P Require Import Utf8.
From S2P Require Import Reader.
From S2P Require Import HeaderCommon.
From S2P Require Import HeaderFields.
From S2P Require Import HeaderExtra.
From S2P Require Import HeaderMain.
From S2P Require Import HeaderFile.
From S2P Require Import HeaderWalk.
From S2P Require Import HeaderWalkLaws.

(** What a strict walk says where a facts walk gave [o] and recorded [s]. *)
Definition strict_outcome {A} (o : result A) (s : option ShortRead) : result A :=
  match o, s with
  | Ok _, Some (mk_short _ (Some e)) => Err e
  | _, _ => o
  end.

(** No strict error is recorded. *)
Definition no_truncation (w : walk_state) : Prop :=
  match short w with Some (mk_short _ (Some _)) => False | _ => True end.

(** One read of both walks: the same answer, nothing being recorded, or the
    strict walk's error recorded by the facts walk. *)
Definition reads_agree {A} (strict facts : result (option A) * walk_state) : Prop :=
  (strict = facts /\ no_truncation strict.2 /\
     (forall a, strict.1 = Ok (Some a) -> short strict.2 = None)) \/
  exists e ws wf at', strict = (Err e, ws) /\ facts = (Ok None, wf) /\
    short wf = Some (mk_short at' (Some e)).

Lemma absorb_agree {A} (m : io reader A) floor w :
  short w = None ->
  reads_agree (absorb_short_read m ForDecode floor w) (absorb_short_read m ForFacts floor w).
Proof.
  intros Hw. unfold absorb_short_read, mbind, io_bind, attempt, on_reader, reads_agree, no_truncation.
  destruct (m (rd w)) as [[a|e|] r]; cbn; rewrite ?Hw; auto.
  destruct (is_short_read e); cbn; rewrite ?Hw.
  - right. eexists _, _, _, _. done.
  - left. done.
Qed.

Lemma reads_agree_refl {A} (x : result (option A) * walk_state) :
  no_truncation x.2 -> (forall a, x.1 = Ok (Some a) -> short x.2 = None) -> reads_agree x x.
Proof. intros. by left. Qed.

Lemma reads_agree_err {A} e w : short w = None -> reads_agree (A := A) (Err e, w) (Err e, w).
Proof. intros Hw. apply reads_agree_refl; [unfold no_truncation; cbn; by rewrite Hw|done]. Qed.

Lemma reads_agree_panic {A} w : short w = None -> reads_agree (A := A) (Panic, w) (Panic, w).
Proof. intros Hw. apply reads_agree_refl; [unfold no_truncation; cbn; by rewrite Hw|done]. Qed.

Lemma reads_agree_ret {A} (a : option A) w : short w = None -> reads_agree (Ok a, w) (Ok a, w).
Proof. intros Hw. apply reads_agree_refl; [unfold no_truncation; cbn; by rewrite Hw|done]. Qed.

(** Agreement goes through a continuation the two walks share. *)
Lemma reads_agree_bind {A B} (md mf : io walk_state (option A)) (kd kf : option A -> io walk_state (option B)) w :
  reads_agree (md w) (mf w) ->
  (forall w', kf None w' = (Ok None, w')) ->
  (forall w', kd None w' = (Ok None, w')) ->
  (forall a w', short w' = None -> reads_agree (kd (Some a) w') (kf (Some a) w')) ->
  reads_agree ((md ≫= kd) w) ((mf ≫= kf) w).
Proof.
  intros [(Heq & Hn & Hs)|(e & ws & wf & at' & Hd & Hf & Hsh)] HN HN' HS; unfold mbind, io_bind.
  - rewrite <- Heq. destruct (md w) as [[[a|]|e|] w'] eqn:Em; cbn in *.
    + apply HS. by eapply Hs.
    + rewrite HN, HN'. apply reads_agree_refl; done.
    + apply reads_agree_refl; done.
    + apply reads_agree_refl; done.
  - rewrite Hd, Hf, HN. right. eauto 10.
Qed.

Lemma reads_agree_lift {A B} (m : result A) (kd kf : A -> io walk_state (option B)) w :
  short w = None -> (forall a, reads_agree (kd a w) (kf a w)) ->
  reads_agree ((lift m ≫= kd) w) ((lift m ≫= kf) w).
Proof.
  intros Hw Hk. unfold mbind, io_bind, lift.
  destruct m; [apply Hk|by apply reads_agree_err|by apply reads_agree_panic].
Qed.

Lemma reads_agree_attempt {A B} (m : io reader A) (kd kf : rar_error + A -> io walk_state (option B)) w :
  short w = None ->
  (forall x w', short w' = None -> reads_agree (kd x w') (kf x w')) ->
  reads_agree ((attempt (on_reader m) ≫= kd) w) ((attempt (on_reader m) ≫= kf) w).
Proof.
  intros Hw Hk. unfold mbind, io_bind, attempt, on_reader.
  destruct (m (rd w)) as [[a|e|] r]; [apply Hk|apply Hk|apply reads_agree_panic]; exact Hw.
Qed.

Section facts.
Context `{HeaderCrypto}.

Lemma read_encrypted_header_agree key header_start floor w :
  short w = None ->
  reads_agree (read_encrypted_header key ForDecode header_start floor w)
    (read_encrypted_header key ForFacts header_start floor w).
Proof.
  intros Hw. unfold read_encrypted_header. apply reads_agree_attempt; [done|].
  clear w Hw. intros [e|iv] w Hw.
  { destruct (is_unexpected_eof e); [|by apply reads_agree_err].
    apply reads_agree_refl; done. }
  apply reads_agree_bind; [by apply absorb_agree|done|done|]. clear w Hw. intros block0 w Hw.
  destruct (decrypt_blocks _ _) as [dec0 st].
  apply reads_agree_lift; [done|]. intros crc_bytes. apply reads_agree_lift; [done|]. intros tail.
  destruct (read_vint tail) as [[size n]|e|]; [|by apply reads_agree_ret|by apply reads_agree_panic].
  destruct (size =? 0); [by apply reads_agree_ret|].
  apply reads_agree_lift; [done|]. intros _.
  apply reads_agree_bind; [|done|done|].
  { destruct (16 <? _); [by apply absorb_agree|by apply reads_agree_ret]. }
  clear w Hw. intros more w Hw. cbv zeta. destruct (_ <? _); [by apply reads_agree_err|].
  apply reads_agree_lift; [done|]. intros body. destruct (negb _); [by apply reads_agree_err|].
  apply reads_agree_lift; [done|]. intros raw. apply reads_agree_lift; [done|]. intros d.
  by apply reads_agree_ret.
Qed.

(** Whole walks: the strict outcome is read off the facts walk. *)
Definition walks_agree {A} (strict facts : result A * walk_state) : Prop :=
  strict.1 = strict_outcome facts.1 (short facts.2).

Lemma walks_agree_same {A} (x : result A * walk_state) : no_truncation x.2 -> walks_agree x x.
Proof.
  destruct x as [[a|e|] w]; unfold walks_agree, no_truncation, strict_outcome; cbn; [|done..].
  destruct (short w) as [[? [?|]]|]; done.
Qed.

Lemma walks_agree_lift {A B} (m : result A) (kd kf : A -> io walk_state B) w :
  (forall a, walks_agree (kd a w) (kf a w)) ->
  walks_agree ((lift m ≫= kd) w) ((lift m ≫= kf) w).
Proof. intros Hk. unfold mbind, io_bind, lift. destruct m; [apply Hk|done|done]. Qed.

Lemma walks_agree_reader {A B} (m : io reader A) (kd kf : A -> io walk_state B) w :
  short w = None ->
  (forall a w', short w' = None -> walks_agree (kd a w') (kf a w')) ->
  walks_agree ((on_reader m ≫= kd) w) ((on_reader m ≫= kf) w).
Proof.
  intros Hw Hk. unfold mbind, io_bind, on_reader.
  destruct (m (rd w)) as [[a|e|] r]; [by apply Hk|done|done].
Qed.

Lemma walks_agree_stop {B} n (kd kf : io walk_state B) w :
  short w = None -> (forall w', short w' = None -> walks_agree (kd w') (kf w')) ->
  walks_agree ((_ ← set_stop n; kd) w) ((_ ← set_stop n; kf) w).
Proof. intros Hw Hk. by apply Hk. Qed.

(** After a read that two walks agree on, the walk ends or goes on; [kf None]
    is the end. *)
Lemma walks_agree_read {A B} (md mf : io walk_state (option A)) (k0 : B)
    (kd kf : option A -> io walk_state B) w :
  reads_agree (md w) (mf w) ->
  (forall w', kd None w' = (Ok k0, w')) -> (forall w', kf None w' = (Ok k0, w')) ->
  (forall a w', short w' = None -> walks_agree (kd (Some a) w') (kf (Some a) w')) ->
  walks_agree ((md ≫= kd) w) ((mf ≫= kf) w).
Proof.
  intros [(Heq & Hn & Hs)|(e & ws & wf & at' & Hd & Hf & Hsh)] HN HN' HS; unfold mbind, io_bind.
  - rewrite <- Heq. destruct (md w) as [[[a|]|e|] w'] eqn:Em; cbn in *; [|rewrite HN, HN'|done|done].
    + apply HS. by eapply Hs.
    + by apply walks_agree_same.
  - rewrite Hd, Hf, HN'. unfold walks_agree, strict_outcome. cbn. rewrite Hsh. done.
Qed.

Lemma walks_agree_ret {A} (a : A) w : short w = None -> walks_agree (Ok a, w) (Ok a, w).
Proof. intros Hw. apply walks_agree_same. unfold no_truncation. cbn. by rewrite Hw. Qed.

Lemma parse_encrypted_headers_agree fuel key p w :
  short w = None ->
  walks_agree (parse_encrypted_headers fuel key p ForDecode w)
    (parse_encrypted_headers fuel key p ForFacts w).
Proof.
  revert p w. induction fuel as [|fuel IH]; intros p w Hw; cbn [parse_encrypted_headers]; [done|].
  apply walks_agree_reader; [done|]. clear w Hw. intros start w Hw.
  apply walks_agree_stop; [done|]. clear w Hw. intros w Hw.
  apply walks_agree_lift. intros floor.
  eapply walks_agree_read; [by apply read_encrypted_header_agree|done|done|].
  clear w Hw. intros [raw d] w Hw.
  destruct (RawHeader.header_type raw); apply walks_agree_lift; intros x;
    try (by apply walks_agree_ret); cbn [reached_file_limit];
    (apply walks_agree_reader; [done|]); intros _ w' Hw'; by apply IH.
Qed.

Lemma walk_headers_from_agree fuel pw options p w :
  short w = None ->
  walks_agree (walk_headers_from fuel pw options ForDecode p w)
    (walk_headers_from fuel pw options ForFacts p w).
Proof.
  revert p w. induction fuel as [|fuel IH]; intros p w Hw; cbn [walk_headers_from]; [done|].
  apply walks_agree_reader; [done|]. clear w Hw. intros start w Hw.
  apply walks_agree_stop; [done|]. clear w Hw. intros w Hw.
  apply walks_agree_lift. intros floor.
  eapply walks_agree_read; [by apply absorb_agree|done|done|].
  clear w Hw. intros [raw|] w Hw; [|by apply walks_agree_same].
  apply walks_agree_lift. intros d.
  assert (Hdisp : walks_agree
    ((parsed ← lift (dispatch_header raw d p);
      if reached_file_limit ForDecode (zlen (ParsedHeaders.files parsed)) then mret (Parsed parsed)
      else _ ← on_reader (skip_data_area raw); walk_headers_from fuel pw options ForDecode parsed) w)
    ((parsed ← lift (dispatch_header raw d p);
      if reached_file_limit ForFacts (zlen (ParsedHeaders.files parsed)) then mret (Parsed parsed)
      else _ ← on_reader (skip_data_area raw); walk_headers_from fuel pw options ForFacts parsed) w)).
  { apply walks_agree_lift. intros p'. cbn [reached_file_limit].
    apply walks_agree_reader; [done|]. intros _ w' Hw'. by apply IH. }
  destruct (RawHeader.header_type raw); try exact Hdisp; clear Hdisp.
  - apply walks_agree_lift. intros p'.
    assert (Hskip : forall w', short w' = None -> walks_agree
      ((_ ← on_reader (skip_data_area raw); walk_headers_from fuel pw options ForDecode p') w')
      ((_ ← on_reader (skip_data_area raw); walk_headers_from fuel pw options ForFacts p') w')).
    { intros w' Hw'. apply walks_agree_reader; [done|]. intros _ w2 Hw2. by apply IH. }
    destruct (allow_quick_open options); [|by apply Hskip].
    apply walks_agree_reader; [done|]. clear w Hw. intros [q|] w Hw; [by apply walks_agree_ret|].
    by apply Hskip.
  - apply walks_agree_lift. intros enc. cbv zeta.
    destruct pw as [pwd|]; [|by apply walks_agree_ret].
    destruct (match Encryption.check_data enc with Some _ => _ | None => _ end); [done|].
    apply walks_agree_lift. intros key.
    pose proof (parse_encrypted_headers_agree fuel key (ParsedHeaders.set_encryption enc p) w Hw) as Hag.
    unfold walks_agree, mbind, io_bind in *.
    destruct (parse_encrypted_headers fuel key _ ForFacts w) as [outf wf],
      (parse_encrypted_headers fuel key _ ForDecode w) as [outd wd]; cbn in *. subst outd.
    unfold strict_outcome. destruct outf; [|done|done]. cbn.
    by destruct (short wf) as [[? [?|]]|].
  - apply walks_agree_lift. intros e. by apply walks_agree_ret.
Qed.
End facts.
