(* ===== verification/HeaderResume.v ===== *)
(** Resuming a facts walk ([resume_headers_for_facts] of
    [crates/unrar-rs/src/header/mod.rs]): over a volume that has grown, a walk
    begun again where an earlier one stopped finds what a walk from the
    signature finds past that point. *)
From S2P Require Import Prelude.
From S2P Require Import RarTypes.
From S2P Require Import Vint.
From S2P Require Import Utf8.
From S2P Require Import Reader.
From S2P Require Import HeaderCommon.
From S2P Require Import HeaderFields.
From S2P Require Import HeaderExtra.
From S2P Require Import HeaderMain.
From S2P Require Import HeaderFile.
From S2P Require Import HeaderWalk.
From S2P Require Import HeaderWalkLaws.

(** * Volumes with a common beginning *)

Definition agree_to (n : Z) (b1 b2 : list byte) : Prop := ztake n b1 = ztake n b2.

Lemma ztake_ztake {A} m n (l : list A) : 0 <= m <= n -> ztake m (ztake n l) = ztake m l.
Proof. intros. rewrite !ztake_nat by lia. rewrite take_take. f_equal. lia. Qed.

Lemma agree_to_le m n b1 b2 : 0 <= m <= n -> agree_to n b1 b2 -> agree_to m b1 b2.
Proof.
  unfold agree_to. intros Hm H. rewrite <- (ztake_ztake m n b1), <- (ztake_ztake m n b2) by lia.
  by rewrite H.
Qed.

Lemma agree_to_len n b1 b2 : 0 <= n <= zlen b1 -> agree_to n b1 b2 -> n <= zlen b2.
Proof.
  unfold agree_to. intros Hn H. apply (f_equal zlen) in H. rewrite !zlen_take in H by lia. lia.
Qed.

Lemma ztake_zdrop_comm {A} p k (l : list A) : 0 <= p -> 0 <= k ->
  ztake k (zdrop p l) = zdrop p (ztake (p + k) l).
Proof.
  intros. rewrite !ztake_nat, !zdrop_nat by lia. rewrite skipn_firstn_comm. f_equal. lia.
Qed.

Lemma read_exact_local k p b1 b2 x r :
  0 <= p -> 0 <= k -> read_exact k (mk_reader b1 p) = (Ok x, r) ->
  agree_to (p + k) b1 b2 -> read_exact k (mk_reader b2 p) = (Ok x, mk_reader b2 (p + k)).
Proof.
  intros Hp Hk H Hag. unfold read_exact, rest_of in *. cbn in *.
  destruct (Z.leb_spec k (zlen (zdrop p b1))) as [Hle|]; [|done]. injection H as <- _.
  rewrite zlen_drop in Hle by lia. destruct (Z.eq_dec k 0) as [->|Hk0].
  - rewrite (proj2 (Z.leb_le _ _)) by apply zlen_nonneg. rewrite !ztake_nat by lia. done.
  - pose proof (agree_to_len (p + k) b1 b2 ltac:(lia) Hag).
    rewrite (proj2 (Z.leb_le _ _)) by (rewrite zlen_drop by lia; lia).
    rewrite !ztake_zdrop_comm by lia. by rewrite Hag.
Qed.

Lemma read_raw_header_local b1 b2 p raw r :
  0 <= p -> read_raw_header (mk_reader b1 p) = (Ok (Some raw), r) ->
  agree_to (header_end raw) b1 b2 ->
  read_raw_header (mk_reader b2 p) = (Ok (Some raw), mk_reader b2 (header_end raw)).
Proof.
  intros Hp H Hag. pose proof (read_raw_header_spec (mk_reader b1 p) Hp) as Hspec. rewrite H in Hspec.
  destruct Hspec as (Hok & Ho & _ & Hle). cbn in Ho, Hle.
  destruct (read_raw_header_inv (mk_reader b1 p) raw r Hp H) as (Hcrc & Hsize & tail & Hrest).
  pose proof Hok as (_ & Hs & Hn & Hbody & _). unfold header_end in Hle, Hag |- *.
  unfold MAX_HEADER_SIZE_VINT_BYTES in Hn.
  set (fr := frame _ _ _ _) in *.
  assert (Hfr : zlen fr = 4 + RawHeader.header_size_vint_len raw + RawHeader.header_size raw).
  { unfold fr, frame. rewrite !zlen_app, zlen_le_split, zlen_vint_encode_for_crc by lia. lia. }
  assert (Hb : forall b, agree_to (RawHeader.offset raw + zlen fr) b1 b ->
     exists tl, b = ztake p b1 ++ fr ++ tl).
  { intros b Hb. exists (zdrop (p + zlen fr) b).
    assert (Ht : ztake (p + zlen fr) b = ztake p b1 ++ fr).
    { assert (Hsplit : b1 = (ztake p b1 ++ fr) ++ tail).
      { rewrite <- app_assoc, <- Hrest. unfold rest_of. cbn. symmetry. by apply ztake_zdrop. }
      rewrite Ho in Hb. unfold agree_to in Hb. rewrite <- Hb, Hsplit at 1.
      replace (p + zlen fr) with (zlen (ztake p b1 ++ fr)); [apply ztake_app_zlen|].
      rewrite zlen_app, zlen_take by lia. lia. }
    rewrite app_assoc, <- Ht, ztake_zdrop by (pose proof (zlen_nonneg fr); lia). done. }
  assert (Hpre : zlen (ztake p b1) = p) by (rewrite zlen_take by lia; lia).
  assert (Hframe : forall tl, read_raw_header (mk_reader (ztake p b1 ++ fr ++ tl) p) =
    (Some <$> parse_raw_header_from_parts p (RawHeader.crc32 raw) (RawHeader.header_size raw)
                (RawHeader.header_size_vint_len raw) (RawHeader.body raw),
     mk_reader (ztake p b1 ++ fr ++ tl)
       (p + 4 + RawHeader.header_size_vint_len raw + RawHeader.header_size raw))).
  { intros tl. pose proof (read_raw_header_frame (ztake p b1) tl (RawHeader.crc32 raw)
      (RawHeader.header_size raw) (RawHeader.header_size_vint_len raw) (RawHeader.body raw)
      Hcrc Hn Hs Hsize Hbody) as Hf.
    cbv zeta in Hf. fold fr in Hf. by rewrite Hpre in Hf. }
  destruct (Hb b1 eq_refl) as [tl1 Hb1]. destruct (Hb b2) as [tl2 Hb2].
  { rewrite Hfr. replace (_ + (4 + _ + _)) with (header_end raw) by (unfold header_end; lia). exact Hag. }
  pose proof (Hframe tl1) as H1. rewrite <- Hb1, H in H1.
  rewrite Hb2, Hframe. injection H1 as <- _. by rewrite Ho.
Qed.

(** Inversion of the monad's steps. *)
Lemma io_bind_Ok {S A B} (m : io S A) (k : A -> io S B) s b s' :
  (m ≫= k) s = (Ok b, s') -> exists a s1, m s = (Ok a, s1) /\ k a s1 = (Ok b, s').
Proof. unfold mbind, io_bind. destruct (m s) as [[a|e|] s1]; intros H; simplify_eq. eauto. Qed.

Lemma io_lift_Ok {S A} (m : outcome rar_error A) (s s' : S) a :
  lift m s = (Ok a, s') -> m = Ok a /\ s' = s.
Proof. unfold lift. by intros [= -> ->]. Qed.

Lemma on_reader_Ok {A} (m : io reader A) w a w' :
  on_reader m w = (Ok a, w') ->
  exists r, m (rd w) = (Ok a, r) /\ w' = mk_walk r (short w) (stop w).
Proof. unfold on_reader. destruct (m (rd w)) as [o r]. intros [= -> <-]. eauto. Qed.

Lemma absorb_Some {A} (m : io reader A) scan floor w a w' :
  absorb_short_read m scan floor w = (Ok (Some a), w') ->
  exists r, m (rd w) = (Ok a, r) /\ w' = mk_walk r (short w) (stop w).
Proof.
  unfold absorb_short_read, mbind, io_bind, attempt, on_reader.
  destruct (m (rd w)) as [[x|e|] r]; cbn; [intros [= <- <-]; eauto| |done].
  by destruct (is_for_facts scan && is_short_read e).
Qed.

Lemma absorb_ok {A} (m : io reader A) scan floor w a r :
  m (rd w) = (Ok a, r) ->
  absorb_short_read m scan floor w = (Ok (Some a), mk_walk r (short w) (stop w)).
Proof. intros H. unfold absorb_short_read, mbind, io_bind, attempt, on_reader. by rewrite H. Qed.

(** A read that must succeed. *)
Ltac inv_io H :=
  let a := fresh "v" in let s := fresh "w" in let Ha := fresh "Hv" in
  apply io_bind_Ok in H; destruct H as (a & s & Ha & H).

Lemma read_exact_Ok k r x r' :
  read_exact k r = (Ok x, r') -> 0 <= k -> r' = set_position (position r + k) r.
Proof. unfold read_exact. case_match; [|done]. by intros [= _ <-]. Qed.

Lemma read_exact_fits k r x r' :
  read_exact k r = (Ok x, r') -> 0 < k -> 0 <= position r -> position r + k <= zlen (content r).
Proof.
  unfold read_exact. destruct (Z.leb_spec k (zlen (rest_of r))); [|done]. intros _ Hk Hp.
  rewrite rest_of_len in *; lia.
Qed.

(** ** Computations that leave [stop] alone *)

Definition keeps_stop {A} (m : io walk_state A) : Prop := forall w, stop (m w).2 = stop w.

Lemma keeps_stop_bind {A B} (m : io walk_state A) (k : A -> io walk_state B) :
  keeps_stop m -> (forall a, keeps_stop (k a)) -> keeps_stop (m ≫= k).
Proof.
  intros Hm Hk w. specialize (Hm w). unfold mbind, io_bind.
  destruct (m w) as [[a|e|] w']; cbn in *; [rewrite (Hk a w')|..]; done.
Qed.
Lemma keeps_stop_lift {A} (m : result A) : keeps_stop (lift m).
Proof. done. Qed.
Lemma keeps_stop_reader {A} (m : io reader A) : keeps_stop (on_reader m).
Proof. intros w. unfold on_reader. by destruct (m (rd w)). Qed.
Lemma keeps_stop_attempt {A} (m : io walk_state A) : keeps_stop m -> keeps_stop (attempt m).
Proof. intros Hm w. specialize (Hm w). unfold attempt. by destruct (m w) as [[a|e|] w']. Qed.
Lemma keeps_stop_short s : keeps_stop (set_short s).
Proof. done. Qed.
Lemma keeps_stop_absorb {A} (m : io reader A) scan floor : keeps_stop (absorb_short_read m scan floor).
Proof.
  apply keeps_stop_bind; [apply keeps_stop_attempt, keeps_stop_reader|]. intros [e|a]; [|done].
  by destruct (_ && _).
Qed.

Section resume.
Context `{HeaderCryptoLaws}.

Lemma read_encrypted_header_local b1 b2 key scan start floor p s st raw d w1 :
  0 <= p -> read_encrypted_header key scan start floor (mk_walk (mk_reader b1 p) s st) =
    (Ok (Some (raw, d)), w1) ->
  exists q, p + 16 <= q <= zlen b1 /\ w1 = mk_walk (mk_reader b1 q) s st /\
    (agree_to q b1 b2 ->
     read_encrypted_header key scan start floor (mk_walk (mk_reader b2 p) s st) =
       (Ok (Some (raw, d)), mk_walk (mk_reader b2 q) s st)).
Proof.
  intros Hp Hread. unfold read_encrypted_header in Hread.
  apply io_bind_Ok in Hread as (iv' & w2 & Hiv & Hread).
  unfold attempt, on_reader in Hiv. cbn [rd short stop] in Hiv.
  destruct (read_exact 16 (mk_reader b1 p)) as [[iv|e|] r2] eqn:E1; [injection Hiv as <- <-|injection Hiv as <- <-|done];
    cbn beta iota in Hread; [|by destruct (is_unexpected_eof e)].
  pose proof (read_exact_Ok _ _ _ _ E1 ltac:(lia)) as ->. cbn in Hread.
  apply io_bind_Ok in Hread as ([block0|] & w3 & Hb0 & Hread); [|by simplify_eq].
  apply absorb_Some in Hb0 as (r3 & E2 & ->). cbn [rd short stop] in E2, Hread.
  pose proof (read_exact_Ok _ _ _ _ E2 ltac:(lia)) as ->. cbn in Hread.
  destruct (decrypt_blocks (cbc_new key iv) block0) as [dec0 st'] eqn:Edec.
  apply io_bind_Ok in Hread as (crc & w4 & Hcrc & Hread).
  apply io_lift_Ok in Hcrc as [Hcrc ->].
  apply io_bind_Ok in Hread as (tail & w5 & Htail & Hread).
  apply io_lift_Ok in Htail as [Htail ->].
  destruct (read_vint tail) as [[size n]|e|] eqn:Ev; [|by simplify_eq|by simplify_eq].
  destruct (size =? 0) eqn:Esz; [by simplify_eq|].
  apply io_bind_Ok in Hread as ([] & w6 & Hval & Hread). apply io_lift_Ok in Hval as [Hval ->].
  cbv zeta in Hread. set (aligned := Z.land _ _) in Hread.
  apply io_bind_Ok in Hread as ([more|] & w7 & Hmore & Hread); [|by simplify_eq].
  pose proof (read_exact_fits _ _ _ _ E2 ltac:(lia) ltac:(cbn; lia)) as Hfit. cbn in Hfit.
  assert (Hm : exists q, p + 32 <= q <= zlen b1 /\ w7 = mk_walk (mk_reader b1 q) s st /\
    (agree_to q b1 b2 ->
     (if 16 <? aligned then absorb_short_read (read_exact (aligned - 16)) scan floor
      else mret (Some [])) (mk_walk (mk_reader b2 (p + 16 + 16)) s st) =
       (Ok (Some more), mk_walk (mk_reader b2 q) s st))).
  { destruct (Z.ltb_spec 16 aligned).
    - apply absorb_Some in Hmore as (r7 & E3 & ->). cbn [rd short stop] in E3 |- *.
      pose proof (read_exact_Ok _ _ _ _ E3 ltac:(lia)) as ->. cbn.
      pose proof (read_exact_fits _ _ _ _ E3 ltac:(lia) ltac:(cbn; lia)) as Hfit3. cbn in Hfit3.
      exists (p + 16 + 16 + (aligned - 16)). split; [lia|]. split; [done|]. intros Hag.
      erewrite absorb_ok; [done|].
      by apply (read_exact_local (aligned - 16) (p + 16 + 16) b1 b2 _ _ ltac:(lia) ltac:(lia) E3).
    - injection Hmore as <- <-. exists (p + 16 + 16). split; [lia|]. done. }
  destruct Hm as (q & Hq & -> & Hm). exists q.
  match type of Hread with ?m ?w0 = _ => assert (Hpure : forall w, m w = ((m w0).1, w)) end.
  { clear. intros w. cbv beta iota zeta. destruct (_ <? _); [done|]. unfold mbind, io_bind, lift.
    destruct (slice _ _ _); [|done..]. destruct (negb _); [done|].
    destruct (parse_raw_header_from_parts _ _ _ _ _); [|done..].
    by destruct (outcome_bind _ _ _ _). }
  rewrite Hpure in Hread. injection Hread as Ho <-. rewrite Ho in Hpure.
  split; [lia|]. split; [done|]. intros Hag. unfold read_encrypted_header.
  assert (A1 : agree_to (p + 16) b1 b2) by (eapply agree_to_le; [|exact Hag]; lia).
  assert (A2 : agree_to (p + 16 + 16) b1 b2) by (eapply agree_to_le; [|exact Hag]; lia).
  unfold mbind at 1, io_bind at 1, attempt, on_reader. cbn [rd short stop].
  rewrite (read_exact_local 16 p b1 b2 _ _ Hp ltac:(lia) E1 A1).
  unfold mbind at 1, io_bind at 1. erewrite absorb_ok; cycle 1.
  { cbn [rd]. by apply (read_exact_local 16 (p + 16) b1 b2 _ _ ltac:(lia) ltac:(lia) E2). }
  cbn [short stop]. rewrite Edec. unfold mbind at 1, io_bind at 1. unfold lift at 1. rewrite Hcrc.
  unfold mbind at 1, io_bind at 1. unfold lift at 1. rewrite Htail, Ev, Esz.
  unfold mbind at 1, io_bind at 1. unfold lift at 1. rewrite Hval. cbv zeta. fold aligned.
  unfold mbind at 1, io_bind at 1. rewrite Hm by done.
  exact (Hpure _).
Qed.

Lemma keeps_stop_read_encrypted key scan start floor :
  keeps_stop (read_encrypted_header key scan start floor).
Proof.
  apply keeps_stop_bind; [apply keeps_stop_attempt, keeps_stop_reader|].
  intros [e|iv]; [by destruct (is_unexpected_eof e)|].
  apply keeps_stop_bind; [apply keeps_stop_absorb|]. intros [block0|]; [|done].
  destruct (decrypt_blocks _ _) as [dec0 st].
  do 2 (apply keeps_stop_bind; [apply keeps_stop_lift|]; intros ?).
  destruct (read_vint _) as [[size n]|e|]; [|done..]. destruct (_ =? 0); [done|].
  apply keeps_stop_bind; [apply keeps_stop_lift|]. intros ?.
  apply keeps_stop_bind; [destruct (16 <? _); [apply keeps_stop_absorb|done]|].
  intros [more|]; [|done]. cbv zeta. destruct (_ <? _); [done|].
  apply keeps_stop_bind; [apply keeps_stop_lift|]. intros ?. destruct (negb _); [done|].
  do 2 (apply keeps_stop_bind; [apply keeps_stop_lift|]; intros ?). done.
Qed.

(** ** More fuel changes nothing *)

Lemma fuel_bind {S A B} (m : io S A) (k1 k2 : A -> io S B) w :
  ((m ≫= k1) w).1 <> Panic ->
  (forall a w', (k1 a w').1 <> Panic -> k2 a w' = k1 a w') ->
  (m ≫= k2) w = (m ≫= k1) w.
Proof. unfold mbind, io_bind. destruct (m w) as [[a|e|] w']; auto. Qed.

Lemma encrypted_fuel n m key p scan w :
  (n <= m)%nat -> (parse_encrypted_headers n key p scan w).1 <> Panic ->
  parse_encrypted_headers m key p scan w = parse_encrypted_headers n key p scan w.
Proof.
  revert m p w. induction n as [|n IH]; intros [|m] p w Hnm Hnp; try done; [lia|].
  revert Hnp. cbn [parse_encrypted_headers]. intros Hnp.
  do 4 (apply fuel_bind; [exact Hnp|]; clear w Hnp; intros ? w Hnp).
  destruct a2 as [[raw d]|]; [|done].
  destruct (RawHeader.header_type raw); try done;
    (apply fuel_bind; [exact Hnp|]; clear w Hnp; intros ? w Hnp);
    (destruct (reached_file_limit _ _); [done|]);
    (apply fuel_bind; [exact Hnp|]; clear w Hnp; intros ? w Hnp); apply IH; (done || lia).
Qed.

Lemma walk_fuel_mono n m pw opts scan p w :
  (n <= m)%nat -> (walk_headers_from n pw opts scan p w).1 <> Panic ->
  walk_headers_from m pw opts scan p w = walk_headers_from n pw opts scan p w.
Proof.
  revert m p w. induction n as [|n IH]; intros [|m] p w Hnm Hnp; try done; [lia|].
  revert Hnp. cbn [walk_headers_from]. intros Hnp.
  do 4 (apply fuel_bind; [exact Hnp|]; clear w Hnp; intros ? w Hnp).
  destruct a2 as [[raw|]|]; [|done|done].
  (apply fuel_bind; [exact Hnp|]; clear w Hnp; intros ? w Hnp).
  destruct (RawHeader.header_type raw); try done;
    (apply fuel_bind; [exact Hnp|]; clear w Hnp; intros ? w Hnp);
    try (destruct (reached_file_limit _ _); [done|]);
    try ((apply fuel_bind; [exact Hnp|]; clear w Hnp; intros ? w Hnp); apply IH; (done || lia)).
  - apply fuel_bind; [exact Hnp|]. clear w Hnp. intros [q|] w Hnp; [done|].
    (apply fuel_bind; [exact Hnp|]; clear w Hnp; intros ? w Hnp); apply IH; (done || lia).
  - cbv zeta in *. destruct pw as [pw|]; [|done].
    destruct (match Encryption.check_data _ with Some _ => _ | None => _ end); [done|].
    apply fuel_bind; [exact Hnp|]. clear w Hnp. intros key w Hnp.
    unfold mbind, io_bind in *. rewrite (encrypted_fuel n m); [done|lia|].
    by destruct (parse_encrypted_headers n key _ scan w) as [[?|?|] ?].
Qed.

(** ** What has been gathered only rides along *)

Definition prepend (fs : list ParsedFile.t) (ss : list ParsedService.t) (p : ParsedHeaders.t)
    : ParsedHeaders.t :=
  ParsedHeaders.mk (ParsedHeaders.main p) (fs ++ ParsedHeaders.files p)
    (ss ++ ParsedHeaders.services p) (ParsedHeaders.encryption p) (ParsedHeaders.end_ p)
    (ParsedHeaders.is_encrypted p) (ParsedHeaders.headers_from_quick_open p).

Lemma dispatch_prepend fs ss raw d p :
  dispatch_header raw d (prepend fs ss p) = prepend fs ss <$> dispatch_header raw d p.
Proof.
  unfold dispatch_header. destruct (RawHeader.header_type raw); try done.
  - by destruct (HeaderMain.parse raw).
  - destruct (FileHeader.parse raw d) as [fh|e|]; [|done..]. cbn.
    destruct (apply_extra_records raw OwnerFile fh) as [x|e|]; [|done..]. cbn.
    unfold ParsedHeaders.push_file, prepend. cbn. by rewrite <- app_assoc.
  - destruct (parse_service_from_raw raw d) as [svc|e|]; [|done..]. cbn.
    unfold ParsedHeaders.push_service, prepend. cbn. by rewrite <- app_assoc.
  - by destruct (negb _).
Qed.

Definition map_io {S A B} (f : A -> B) (x : result A * S) : result B * S := (f <$> x.1, x.2).

Lemma map_io_bind {S A B C} (f : B -> C) (m : io S A) (k1 : A -> io S B) (k2 : A -> io S C) w :
  (forall a w', k2 a w' = map_io f (k1 a w')) -> (m ≫= k2) w = map_io f ((m ≫= k1) w).
Proof. intros Hk. unfold mbind, io_bind. by destruct (m w) as [[a|e|] w']. Qed.

Lemma map_io_bind_lift {S A B C D} (f : B -> C) (g : A -> D) (m : result A) (m' : result D)
    (k1 : A -> io S B) (k2 : D -> io S C) w :
  m' = g <$> m -> (forall a, k2 (g a) w = map_io f (k1 a w)) ->
  (lift m' ≫= k2) w = map_io f ((lift m ≫= k1) w).
Proof. intros -> Hk. unfold mbind, io_bind, lift. destruct m; [apply Hk|done..]. Qed.

Lemma encrypted_prepend fs ss n key p w :
  parse_encrypted_headers n key (prepend fs ss p) ForFacts w =
    map_io (prepend fs ss) (parse_encrypted_headers n key p ForFacts w).
Proof.
  revert p w. induction n as [|n IH]; intros p w; [done|]. cbn [parse_encrypted_headers].
  do 4 (apply map_io_bind; clear w; intros ? w). destruct a2 as [[raw d]|]; [|done].
  destruct (RawHeader.header_type raw);
    try (eapply map_io_bind_lift; [apply dispatch_prepend|]; intros p';
         cbn [reached_file_limit]; apply map_io_bind; intros; apply IH).
  by apply map_io_bind.
Qed.

Lemma skip_data_area_Ok raw b q u r' :
  skip_data_area raw (mk_reader b q) = (Ok u, r') ->
  r' = mk_reader b (q + Z.max 0 (RawHeader.data_area_size raw)) /\
  forall b2, skip_data_area raw (mk_reader b2 q) = (Ok u, mk_reader b2 (position r')).
Proof.
  unfold skip_data_area. destruct (Z.ltb_spec 0 (RawHeader.data_area_size raw)).
  - destruct (_ <? _); [done|]. unfold seek_current. cbn. destruct (_ && _); [|done].
    rewrite Z.max_r by lia. by intros [= <- <-].
  - rewrite Z.max_l, Z.add_0_r by lia. by intros [= <- <-].
Qed.

(** One round of the walk: the header read and the state after it. *)
Lemma walk_header_Ok scan floor w raw w' :
  0 <= position (rd w) -> absorb_short_read read_raw_header scan floor w = (Ok (Some (Some raw)), w') ->
  raw_ok raw /\ RawHeader.offset raw = position (rd w) /\ header_end raw <= zlen (content (rd w)) /\
  w' = mk_walk (mk_reader (content (rd w)) (header_end raw)) (short w) (stop w).
Proof.
  intros Hp Hread. apply absorb_Some in Hread as (r & Hr & ->).
  pose proof (read_raw_header_spec (rd w) Hp) as Hspec. rewrite Hr in Hspec.
  by destruct Hspec as (Hok & Ho & -> & Hle).
Qed.

(** The Quick Open cache of a volume is not answered from: it is switched
    off, or no attempt on these bytes succeeds. *)
Definition quick_open_silent (pw : option ustring) (options : HeaderParseOptions)
    (bytes : list byte) : Prop :=
  allow_quick_open options = true ->
  forall p r, content r = bytes -> try_parse_quick_open_headers p pw r = (Ok None, r).

Lemma silent_attempt pw options bytes p w :
  quick_open_silent pw options bytes -> content (rd w) = bytes ->
  (if allow_quick_open options then on_reader (try_parse_quick_open_headers p pw) else mret None) w =
    (Ok None, w).
Proof.
  intros Hs Hc. destruct (allow_quick_open options) eqn:Hq; [|done]. unfold on_reader.
  rewrite (Hs Hq p (rd w) Hc). by destruct w.
Qed.

Definition prepend_walk fs ss (res : HeaderWalk) : HeaderWalk :=
  match res with Parsed p => Parsed (prepend fs ss p) | HeaderEncrypted e => HeaderEncrypted e end.

Lemma map_io_bind_eq {S A B C} (f : B -> C) (m : io S A) (k1 : A -> io S B) (k2 : A -> io S C) w :
  (forall a w', m w = (Ok a, w') -> k2 a w' = map_io f (k1 a w')) ->
  (m ≫= k2) w = map_io f ((m ≫= k1) w).
Proof. intros Hk. unfold mbind, io_bind. destruct (m w) as [[a|e|] w']; auto. Qed.

Lemma walk_prepend fs ss n pw options p w :
  0 <= position (rd w) -> quick_open_silent pw options (content (rd w)) ->
  walk_headers_from n pw options ForFacts (prepend fs ss p) w =
    map_io (prepend_walk fs ss) (walk_headers_from n pw options ForFacts p w).
Proof.
  revert p w. induction n as [|n IH]; intros p w Hp Hs; [done|]. cbn [walk_headers_from].
  apply map_io_bind_eq. intros start w0 Hw0. unfold on_reader, stream_position, gets in Hw0.
  injection Hw0 as <- <-. apply map_io_bind_eq. intros [] w1 Hw1. injection Hw1 as <-.
  apply map_io_bind_eq. intros floor w2 [_ ->]%io_lift_Ok.
  apply map_io_bind_eq. intros [[raw|]|] w3 Hw3; [|by cbn..].
  apply walk_header_Ok in Hw3 as (Hok & _ & _ & ->); [|done]. cbn [rd short stop content].
  set (bytes := content (rd w)) in *. pose proof (raw_ok_sizes raw Hok) as [_ Hd].
  assert (He : 0 <= header_end raw) by (destruct Hok as (? & ? & ? & _); unfold header_end; lia).
  apply map_io_bind_eq. intros d w4 [_ ->]%io_lift_Ok.
  assert (Hskip : forall p', forall s st,
    (_ ← on_reader (skip_data_area raw); walk_headers_from n pw options ForFacts (prepend fs ss p'))
      (mk_walk (mk_reader bytes (header_end raw)) s st) =
    map_io (prepend_walk fs ss)
      ((_ ← on_reader (skip_data_area raw); walk_headers_from n pw options ForFacts p')
         (mk_walk (mk_reader bytes (header_end raw)) s st))).
  { intros p' s st. apply map_io_bind_eq. intros u w5 Hw5.
    apply on_reader_Ok in Hw5 as (r5 & Hr5 & ->). cbn [rd short stop] in *.
    apply skip_data_area_Ok in Hr5 as [-> _]. apply IH; cbn; [lia|done]. }
  destruct (RawHeader.header_type raw);
    try (eapply map_io_bind_lift; [apply dispatch_prepend|]; intros p';
         cbn [reached_file_limit]; apply Hskip).
  - eapply map_io_bind_lift; [apply dispatch_prepend|]. intros p'.
    unfold mbind at 1 3, io_bind at 1 3. rewrite !(silent_attempt pw options bytes) by done.
    apply Hskip.
  - apply map_io_bind_eq. intros enc w5 [_ ->]%io_lift_Ok. cbv zeta. destruct pw as [pwd|]; [|done].
    destruct (match Encryption.check_data enc with Some _ => _ | None => _ end); [done|].
    apply map_io_bind_eq. intros key w6 [_ ->]%io_lift_Ok.
    change (ParsedHeaders.set_encryption enc (prepend fs ss p))
      with (prepend fs ss (ParsedHeaders.set_encryption enc p)).
    unfold mbind, io_bind. rewrite encrypted_prepend.
    by destruct (parse_encrypted_headers n key _ ForFacts _) as [[?|?|] ?].
  - apply map_io_bind_eq. intros e w5 [_ ->]%io_lift_Ok. done.
Qed.

(** ** The part of a walk that is repeated *)

(** The end record is read again by a walk that begins at it. *)
Definition clear_end (p : ParsedHeaders.t) : ParsedHeaders.t :=
  ParsedHeaders.mk (ParsedHeaders.main p) (ParsedHeaders.files p) (ParsedHeaders.services p)
    (ParsedHeaders.encryption p) None (ParsedHeaders.is_encrypted p)
    (ParsedHeaders.headers_from_quick_open p).

Lemma clear_end_None p : ParsedHeaders.end_ p = None -> clear_end p = p.
Proof. destruct p; cbn. by intros ->. Qed.
Lemma clear_end_set_end e p : ParsedHeaders.end_ p = None -> clear_end (ParsedHeaders.set_end e p) = p.
Proof. destruct p; cbn. by intros ->. Qed.

(** What a walk in progress knows, before an end record. *)
Definition in_progress (p : ParsedHeaders.t) : Prop :=
  ParsedHeaders.end_ p = None /\ ParsedHeaders.headers_from_quick_open p = false /\
  ParsedHeaders.is_encrypted p = match ParsedHeaders.encryption p with Some _ => true | None => false end.

Lemma dispatch_keeps raw d p p' :
  dispatch_header raw d p = Ok p' ->
  ParsedHeaders.encryption p' = ParsedHeaders.encryption p /\ (in_progress p -> in_progress p').
Proof.
  unfold dispatch_header. intros Hd. destruct (RawHeader.header_type raw);
    try (injection Hd as <-; done).
  - inv_bind Hd. by injection Hd as <-.
  - inv_bind Hd. inv_bind Hd. by injection Hd as <-.
  - inv_bind Hd. by injection Hd as <-.
  - destruct (negb (has _ _)); [done|]. by injection Hd as <-.
Qed.

(** A state over [bytes]. *)
Definition over (bytes : list byte) (pos : Z) (s : option ShortRead) (st : Z) : walk_state :=
  mk_walk (mk_reader bytes pos) s st.

(** From [p] at [pos] over [b1] a walk stopped at [at'] with [p1]. Over [b2],
    which has the bytes it read, the walk [run] gets from [p] at [pos] to
    [clear_end p1] at [at']. *)
Definition repeats {A} (run : nat -> ParsedHeaders.t -> io walk_state A) (b1 b2 : list byte)
    (p : ParsedHeaders.t) (pos : Z) (s : option ShortRead) (p1 : ParsedHeaders.t) (at' : Z) : Prop :=
  pos <= at' /\ in_progress (clear_end p1) /\
  (agree_to (Z.min at' (zlen b1)) b1 b2 ->
   exists k, forall m st, run (k + S m)%nat p (over b2 pos s st) =
                     run (S m) (clear_end p1) (over b2 at' s st)).

Lemma encrypted_prefix n key p pos s st b1 b2 p1 w1 :
  in_progress p -> 0 <= pos ->
  parse_encrypted_headers n key p ForFacts (over b1 pos s st) = (Ok p1, w1) ->
  ParsedHeaders.encryption p1 = ParsedHeaders.encryption p /\
  repeats (fun n p => parse_encrypted_headers n key p ForFacts) b1 b2 p pos s p1 (stop w1).
Proof.
  revert p pos st. induction n as [|n IH]; intros p pos st Hin Hpos; [done|].
  cbn [parse_encrypted_headers]. intros Hwalk.
  apply io_bind_Ok in Hwalk as (start & w2 & Hs & Hwalk). injection Hs as <- <-.
  apply io_bind_Ok in Hwalk as ([] & w3 & Hs & Hwalk). injection Hs as <-.
  cbn [rd position short stop over] in Hwalk.
  apply io_bind_Ok in Hwalk as (floor & w4 & Hs & Hwalk). apply io_lift_Ok in Hs as [Hfloor ->].
  apply io_bind_Ok in Hwalk as (header & w5 & Hread & Hwalk).
  assert (Hstay : clear_end p1 = p -> stop w1 = pos ->
    ParsedHeaders.encryption p1 = ParsedHeaders.encryption p /\
    repeats (fun n p => parse_encrypted_headers n key p ForFacts) b1 b2 p pos s p1 (stop w1)).
  { intros Hp1 Hst. unfold repeats. rewrite Hp1, Hst. split_and!; [by rewrite <- Hp1|lia|done|].
    intros _. by exists 0%nat. }
  destruct header as [[raw d]|]; cycle 1.
  { injection Hwalk as <- <-. apply Hstay; [by apply clear_end_None, Hin|].
    pose proof (keeps_stop_read_encrypted key ForFacts pos floor (mk_walk (mk_reader b1 pos) s pos)) as Hk.
    by rewrite Hread in Hk. }
  apply (read_encrypted_header_local b1 b2) in Hread as (q & Hq & -> & Hlocal); [|done].
  destruct (bool_decide_reflect (RawHeader.header_type raw = HeaderType.EndArchive)) as [Htype|Htype].
  { rewrite Htype in Hwalk. apply io_bind_Ok in Hwalk as (e & w6 & Hs & Hwalk).
    apply io_lift_Ok in Hs as [_ ->]. injection Hwalk as <- <-.
    apply Hstay; [by apply clear_end_set_end, Hin|done]. }
  assert (Hgo : exists p' r5, dispatch_header raw d p = Ok p' /\
    skip_data_area raw (mk_reader b1 q) = (Ok tt, r5) /\
    parse_encrypted_headers n key p' ForFacts (mk_walk r5 s pos) = (Ok p1, w1)).
  { destruct (RawHeader.header_type raw); try done;
      (apply io_bind_Ok in Hwalk as (p' & w6 & Hs & Hwalk); apply io_lift_Ok in Hs as [Hd ->];
       cbn [reached_file_limit] in Hwalk;
       apply io_bind_Ok in Hwalk as ([] & w7 & Hs & Hwalk);
       apply on_reader_Ok in Hs as (r7 & Hr7 & ->); eauto). }
  destruct Hgo as (p' & r5 & Hd & Hskip & Hrest).
  apply skip_data_area_Ok in Hskip as [-> Hskip]. set (pos' := q + _) in *.
  destruct (dispatch_keeps _ _ _ _ Hd) as [Henc Hin']. specialize (Hin' Hin).
  destruct (IH p' pos' pos Hin' ltac:(lia) Hrest) as (Henc1 & Hle & Hin1 & Hrep).
  split; [by rewrite Henc1|]. split; [lia|]. split; [done|]. intros Hag.
  destruct (Hrep Hag) as [k Hk]. exists (S k). intros m st2.
  trans (parse_encrypted_headers (S m) key (clear_end p1) ForFacts (over b2 (stop w1) s pos)); [|done].
  rewrite <- (Hk m pos).
  cbn [Nat.add parse_encrypted_headers]. unfold mbind at 1, io_bind at 1.
  unfold on_reader at 1, stream_position, gets. cbn [rd position short stop over].
  unfold mbind at 1, io_bind at 1. unfold set_stop at 1, modify. cbn [rd position short stop].
  unfold mbind at 1, io_bind at 1. unfold lift at 1. rewrite Hfloor.
  unfold mbind at 1, io_bind at 1. rewrite Hlocal by (eapply agree_to_le; [|exact Hag]; lia).
  cbv beta iota.
  destruct (RawHeader.header_type raw); try done;
    (unfold mbind at 1, io_bind at 1; unfold lift at 1; rewrite Hd; cbn [reached_file_limit];
     unfold mbind at 1, io_bind at 1; unfold on_reader at 1; cbn [rd]; rewrite Hskip; done).
Qed.

(** The walk with the headers found so far: [resume_headers_for_facts] once
    the reader is in place. *)
Definition resume_loop (pw : option ustring) (options : HeaderParseOptions) (n : nat)
    (p : ParsedHeaders.t) : io walk_state ParsedHeaders.t :=
  pos ← on_reader stream_position;
  _ ← set_stop pos;
  match ParsedHeaders.encryption p with
  | Some enc =>
      match pw with
      | None => lift (Err EncryptedArchive)
      | Some pwd =>
          if match Encryption.check_data enc with
             | Some check_data =>
                 negb (verify_password_rar5 pwd (Encryption.salt enc) (Encryption.kdf_count enc) check_data)
             | None => false
             end then lift (Err InvalidPassword)
          else
            key ← lift (derive_key_rar5 pwd (Encryption.salt enc) (Encryption.kdf_count enc));
            parse_encrypted_headers n key p ForFacts
      end
  | None =>
      walk ← walk_headers_from n pw options ForFacts p;
      match walk with
      | Parsed parsed => mret parsed
      | HeaderEncrypted _ => lift (Err EncryptedArchive)
      end
  end.

Definition unwrap_walk (x : result HeaderWalk * walk_state) : result ParsedHeaders.t * walk_state :=
  (walk ← x.1; match walk with Parsed parsed => mret parsed | HeaderEncrypted _ => Err EncryptedArchive end,
   x.2).

Lemma resume_loop_plain pw options n p b pos s st :
  ParsedHeaders.encryption p = None ->
  resume_loop pw options n p (over b pos s st) =
    unwrap_walk (walk_headers_from n pw options ForFacts p (over b pos s pos)).
Proof.
  intros He. unfold resume_loop. rewrite He. unfold mbind at 1 2 3, io_bind, on_reader, unwrap_walk.
  cbn. unfold over. destruct (walk_headers_from n pw options ForFacts p _) as [[[q|e]|e|] w]; done.
Qed.

Lemma resume_loop_encrypted pwd options n p enc key b pos s st :
  ParsedHeaders.encryption p = Some enc ->
  match Encryption.check_data enc with
  | Some check_data =>
      negb (verify_password_rar5 pwd (Encryption.salt enc) (Encryption.kdf_count enc) check_data)
  | None => false
  end = false ->
  derive_key_rar5 pwd (Encryption.salt enc) (Encryption.kdf_count enc) = Ok key ->
  resume_loop (Some pwd) options n p (over b pos s st) =
    parse_encrypted_headers n key p ForFacts (over b pos s pos).
Proof.
  intros He Hv Hkey. unfold resume_loop. rewrite He. unfold mbind at 1 2, io_bind at 1 2, on_reader.
  cbn. rewrite Hv. unfold mbind, io_bind, lift. by rewrite Hkey.
Qed.

(** What a round of the plaintext walk does once it has its header. *)
Definition walk_dispatch (n : nat) (pw : option ustring) (options : HeaderParseOptions)
    (raw : RawHeader.t) (d : Z) (p : ParsedHeaders.t) : io walk_state HeaderWalk :=
  match RawHeader.header_type raw with
  | HeaderType.Encryption =>
      enc ← lift (Encryption.parse sha256_digest raw);
      match pw with
      | None => mret (HeaderEncrypted enc)
      | Some pwd =>
          if match Encryption.check_data enc with
             | Some check_data =>
                 negb (verify_password_rar5 pwd (Encryption.salt enc) (Encryption.kdf_count enc) check_data)
             | None => false
             end then lift (Err InvalidPassword)
          else
            key ← lift (derive_key_rar5 pwd (Encryption.salt enc) (Encryption.kdf_count enc));
            parsed ← parse_encrypted_headers n key (ParsedHeaders.set_encryption enc p) ForFacts;
            mret (Parsed parsed)
      end
  | HeaderType.EndArchive =>
      e ← lift (EndArchive.parse raw); mret (Parsed (ParsedHeaders.set_end e p))
  | HeaderType.MainArchive =>
      parsed ← lift (dispatch_header raw d p);
      quick_open ← (if allow_quick_open options
                    then on_reader (try_parse_quick_open_headers parsed pw) else mret None);
      match quick_open with
      | Some quick_open => mret (Parsed quick_open)
      | None => _ ← on_reader (skip_data_area raw); walk_headers_from n pw options ForFacts parsed
      end
  | _ =>
      parsed ← lift (dispatch_header raw d p);
      _ ← on_reader (skip_data_area raw);
      walk_headers_from n pw options ForFacts parsed
  end.

Lemma walk_round n pw options p b pos s st raw floor d :
  read_raw_header (mk_reader b pos) = (Ok (Some raw), mk_reader b (header_end raw)) ->
  add_u64 (E := rar_error) pos MIN_RAR5_HEADER_BYTES = Ok floor -> data_offset_of raw = Ok d ->
  walk_headers_from (S n) pw options ForFacts p (over b pos s st) =
    walk_dispatch n pw options raw d p (over b (header_end raw) s pos).
Proof.
  intros Hread Hfloor Hd. cbn [walk_headers_from]. unfold mbind at 1, io_bind at 1.
  unfold on_reader at 1, stream_position, gets. cbn [rd position short stop over].
  unfold mbind at 1, io_bind at 1. unfold set_stop at 1, modify. cbn [rd position short stop].
  unfold mbind at 1, io_bind at 1. unfold lift at 1. rewrite Hfloor.
  unfold mbind at 1, io_bind at 1. rewrite (absorb_ok _ _ _ _ (Some raw) (mk_reader b (header_end raw))) by done.
  unfold mbind at 1, io_bind at 1. unfold lift at 1. rewrite Hd. cbn [rd short stop].
  unfold walk_dispatch. by destruct (RawHeader.header_type raw).
Qed.

(** The round over the other volume. *)
Lemma walk_dispatch_prefix n pw options raw d p b1 b2 q s pos p1 w1 :
  quick_open_silent pw options b1 -> quick_open_silent pw options b2 ->
  RawHeader.header_type raw <> HeaderType.EndArchive ->
  ParsedHeaders.encryption p = None -> in_progress p -> 0 <= q ->
  (forall p' pos', ParsedHeaders.encryption p' = None -> in_progress p' -> q <= pos' ->
     walk_headers_from n pw options ForFacts p' (over b1 pos' s pos) = (Ok (Parsed p1), w1) ->
     repeats (resume_loop pw options) b1 b2 p' pos' s p1 (stop w1)) ->
  walk_dispatch n pw options raw d p (over b1 q s pos) = (Ok (Parsed p1), w1) ->
  q <= stop w1 /\ in_progress (clear_end p1) /\
  (agree_to (Z.min (stop w1) (zlen b1)) b1 b2 ->
   exists k, forall m st st2,
     unwrap_walk (walk_dispatch (k + S m)%nat pw options raw d p (over b2 q s st2)) =
       resume_loop pw options (S m) (clear_end p1) (over b2 (stop w1) s st)).
Proof.
  intros Hs1 Hs2 Htype Henc Hin Hq Hnext Hwalk.
  assert (Hgo : forall p' r5, dispatch_header raw d p = Ok p' ->
    skip_data_area raw (mk_reader b1 q) = (Ok tt, r5) ->
    walk_headers_from n pw options ForFacts p' (mk_walk r5 s pos) = (Ok (Parsed p1), w1) ->
    q <= stop w1 /\ in_progress (clear_end p1) /\
    (agree_to (Z.min (stop w1) (zlen b1)) b1 b2 ->
     exists k, forall m st st2,
       unwrap_walk ((_ ← on_reader (skip_data_area raw); walk_headers_from (k + S m)%nat pw options ForFacts p')
                      (over b2 q s st2)) =
         resume_loop pw options (S m) (clear_end p1) (over b2 (stop w1) s st))).
  { intros p' r5 Hd Hskip Hrest. apply skip_data_area_Ok in Hskip as [-> Hskip].
    destruct (dispatch_keeps _ _ _ _ Hd) as [Henc' Hin']. rewrite Henc in Henc'.
    destruct (Hnext p' (q + Z.max 0 (RawHeader.data_area_size raw)) Henc' (Hin' Hin) ltac:(lia) Hrest)
      as (Hle & Hin1 & Hrep).
    split; [lia|]. split; [done|]. intros Hag. destruct (Hrep Hag) as [k Hk]. exists k. intros m st st2.
    rewrite <- (Hk m st), resume_loop_plain by done.
    unfold mbind, io_bind, on_reader. cbn [rd over short stop]. rewrite Hskip. cbn [position].
    destruct k; done. }
  unfold walk_dispatch in *. destruct (RawHeader.header_type raw); try done;
    (apply io_bind_Ok in Hwalk as (x & w6 & Hs & Hwalk); apply io_lift_Ok in Hs as [Hd ->]).
  2-3, 5: (apply io_bind_Ok in Hwalk as ([] & w7 & Hs & Hwalk);
     apply on_reader_Ok in Hs as (r7 & Hr7 & ->);
     destruct (Hgo _ _ Hd Hr7 Hwalk) as (Hle & Hin1 & Hrep); split; [done|]; split; [done|];
     intros Hag; destruct (Hrep Hag) as [k Hk]; exists k; intros m st st2; rewrite <- (Hk m st st2);
     unfold mbind at 1, io_bind at 1; unfold lift at 1; by rewrite Hd).
  - apply io_bind_Ok in Hwalk as (qo & w7 & Hs & Hwalk).
    rewrite (silent_attempt pw options b1) in Hs by done. injection Hs as <- <-.
    apply io_bind_Ok in Hwalk as ([] & w8 & Hs & Hwalk).
    apply on_reader_Ok in Hs as (r7 & Hr7 & ->).
    destruct (Hgo _ _ Hd Hr7 Hwalk) as (Hle & Hin1 & Hrep). split; [done|]. split; [done|].
    intros Hag. destruct (Hrep Hag) as [k Hk]. exists k. intros m st st2. rewrite <- (Hk m st st2).
    unfold mbind at 1, io_bind at 1. unfold lift at 1. rewrite Hd.
    unfold mbind at 1, io_bind at 1. by rewrite (silent_attempt pw options b2).
  - destruct pw as [pwd|]; [|done].
    destruct (match Encryption.check_data x with Some _ => _ | None => _ end) eqn:Hv; [done|].
    apply io_bind_Ok in Hwalk as (key & w7 & Hs & Hwalk). apply io_lift_Ok in Hs as [Hkey ->].
    apply io_bind_Ok in Hwalk as (p1' & w8 & Hrest & Hwalk). injection Hwalk as -> ->.
    apply (encrypted_prefix _ _ _ _ _ _ _ b2) in Hrest as (Henc1 & Hle & Hin1 & Hrep); [|destruct Hin as (?&?&?); by split_and!|done].
    split; [done|]. split; [done|]. intros Hag. destruct (Hrep Hag) as [k Hk]. exists k. intros m st st2.
    unfold mbind at 1, io_bind at 1. unfold lift at 1. rewrite Hd, Hv.
    unfold mbind at 1, io_bind at 1. unfold lift at 1. rewrite Hkey.
    rewrite (resume_loop_encrypted pwd options (S m) (clear_end p1) x key) by done.
    unfold mbind at 1, io_bind at 1. rewrite (Hk m st2).
    change (over b2 (stop w1) s st2) with (over b2 (stop w1) s st2).
    trans (unwrap_walk (let '(o, w) := parse_encrypted_headers (S m) key (clear_end p1) ForFacts
                           (over b2 (stop w1) s (stop w1)) in (Parsed <$> o, w))).
    + destruct (parse_encrypted_headers (S m) key (clear_end p1) ForFacts (over b2 (stop w1) s st2))
        as [[q1|e|] w'] eqn:E1;
        change (parse_encrypted_headers (S m) key (clear_end p1) ForFacts (over b2 (stop w1) s st2))
          with (parse_encrypted_headers (S m) key (clear_end p1) ForFacts (over b2 (stop w1) s (stop w1))) in E1;
        by rewrite E1.
    + by destruct (parse_encrypted_headers (S m) key (clear_end p1) ForFacts _) as [[q1|e|] w'].
Qed.

Lemma walk_prefix n pw options p pos s st b1 b2 p1 w1 :
  ParsedHeaders.encryption p = None -> in_progress p -> 0 <= pos -> zlen b1 <= 2 ^ 62 ->
  quick_open_silent pw options b1 -> quick_open_silent pw options b2 ->
  walk_headers_from n pw options ForFacts p (over b1 pos s st) = (Ok (Parsed p1), w1) ->
  repeats (resume_loop pw options) b1 b2 p pos s p1 (stop w1).
Proof.
  intros Henc Hin Hpos Hlen Hs1 Hs2. revert p pos st Henc Hin Hpos.
  induction n as [|n IH]; intros p pos st Henc Hin Hpos; [done|]. intros Hwalk0.
  pose proof Hwalk0 as Hwalk. cbn [walk_headers_from] in Hwalk.
  apply io_bind_Ok in Hwalk as (start & w2 & Hs & Hwalk). injection Hs as <- <-.
  apply io_bind_Ok in Hwalk as ([] & w3 & Hs & Hwalk). injection Hs as <-.
  cbn [rd position short stop over] in Hwalk.
  apply io_bind_Ok in Hwalk as (floor & w4 & Hs & Hwalk). apply io_lift_Ok in Hs as [Hfloor ->].
  apply io_bind_Ok in Hwalk as (header & w5 & Hread & Hwalk).
  assert (Hstay : clear_end p1 = p -> stop w1 = pos ->
    repeats (resume_loop pw options) b1 b2 p pos s p1 (stop w1)).
  { intros Hp1 Hst. unfold repeats. rewrite Hp1, Hst. split_and!; [lia|done|].
    intros _. by exists 0%nat. }
  assert (Hst5 : stop w5 = pos).
  { pose proof (keeps_stop_absorb read_raw_header ForFacts floor (mk_walk (mk_reader b1 pos) s pos)) as Hk.
    by rewrite Hread in Hk. }
  destruct header as [[raw|]|]; cycle 1.
  { injection Hwalk as <- <-. apply Hstay; [by apply clear_end_None, Hin|done]. }
  { injection Hwalk as <- <-. apply Hstay; [by apply clear_end_None, Hin|done]. }
  pose proof Hread as Hraw. apply walk_header_Ok in Hraw as (Hok & Ho & Hle & ->); [|done].
  cbn [rd position content short stop] in Ho, Hle, Hwalk, Hread.
  apply absorb_Some in Hread as (r & Hread & Hr). cbn [rd short stop] in Hread, Hr.
  injection Hr as <-.
  assert (He : pos < header_end raw) by (destruct Hok as (? & ? & ? & _); unfold header_end; lia).
  assert (Hd : data_offset_of raw = Ok (header_end raw)) by (apply data_offset_of_ok; [done|lia]).
  destruct (bool_decide_reflect (RawHeader.header_type raw = HeaderType.EndArchive)) as [Htype|Htype].
  { rewrite Hd, Htype in Hwalk. apply io_bind_Ok in Hwalk as (d & w6 & Hs & Hwalk).
    apply io_lift_Ok in Hs as [_ ->]. apply io_bind_Ok in Hwalk as (e & w6 & Hs & Hwalk).
    apply io_lift_Ok in Hs as [_ ->]. injection Hwalk as <- <-.
    apply Hstay; [by apply clear_end_set_end, Hin|done]. }
  clear Hwalk. rewrite (walk_round n pw options p b1 pos s st raw floor (header_end raw)) in Hwalk0 by done.
  destruct (walk_dispatch_prefix n pw options raw _ p b1 b2 (header_end raw) s pos p1 w1 Hs1 Hs2 Htype Henc Hin ltac:(lia)
    (fun p' pos' He' Hi' Hp' => IH p' pos' pos He' Hi' ltac:(lia)) Hwalk0) as (Hle1 & Hin1 & Hrep).
  split; [lia|]. split; [done|]. intros Hag. destruct (Hrep Hag) as [k Hk]. exists (S k). intros m st2.
  rewrite resume_loop_plain by done. cbn [Nat.add].
  rewrite (walk_round (k + S m) pw options p b2 pos s pos raw floor (header_end raw)); [apply Hk| |done|done].
  apply (read_raw_header_local b1 b2 pos raw _ Hpos Hread).
  eapply agree_to_le; [|exact Hag]. lia.
Qed.

Lemma resume_loop_prepend fs ss pw options n p b pos s st :
  0 <= pos -> quick_open_silent pw options b ->
  resume_loop pw options n (prepend fs ss p) (over b pos s st) =
    map_io (prepend fs ss) (resume_loop pw options n p (over b pos s st)).
Proof.
  intros Hpos Hs. destruct (ParsedHeaders.encryption p) as [enc|] eqn:He.
  - unfold resume_loop. cbn [ParsedHeaders.encryption prepend]. rewrite He.
    apply map_io_bind. intros x w1. apply map_io_bind. intros y w2.
    destruct pw as [pwd|]; [|done].
    destruct (match Encryption.check_data enc with Some _ => _ | None => _ end); [done|].
    apply map_io_bind. intros key w3. apply encrypted_prepend.
  - rewrite !resume_loop_plain, walk_prepend by done. unfold unwrap_walk, map_io. cbn.
    by destruct (walk_headers_from n pw options ForFacts p _) as [[[q|e]|e|] w].
Qed.

Lemma resume_loop_fuel pw options k n p b pos s st :
  ParsedHeaders.encryption p = None ->
  zlen b <= 2 ^ 62 -> 0 <= pos <= zlen b + I64_MAX -> Z.max 0 (zlen b - pos) < Z.of_nat n ->
  resume_loop pw options (k + n) p (over b pos s st) = resume_loop pw options n p (over b pos s st).
Proof.
  intros He Hlen Hpos Hn. rewrite !resume_loop_plain by done. f_equal.
  apply walk_fuel_mono; [lia|]. by apply walk_no_panic.
Qed.

(** ** The function of the code *)

(** [resume_headers_for_facts] over a volume: the outcome, the short read it
    recorded and where it stopped. *)
Definition facts_walk (pw : option ustring) (options : HeaderParseOptions) (bytes : list byte)
    (at' : Z) (main : option MainArchiveHeader.t) (enc : option Encryption.t)
    : result ParsedHeaders.t * option ShortRead * Z :=
  let '(o, w) := resume_headers_for_facts pw options at' main enc
                   (mk_walk (mk_reader bytes at') None at') in
  (o, short w, stop w).

Definition observe (x : result ParsedHeaders.t * walk_state) : result ParsedHeaders.t * option ShortRead * Z :=
  (x.1, short x.2, stop x.2).

Lemma bind_lift_Ok {S A B} (m : result A) a (k : A -> io S B) s :
  m = Ok a -> (lift m ≫= k) s = k a s.
Proof. by intros ->. Qed.
Lemma bind_stop {B} n (k : io walk_state B) w :
  (_ ← set_stop n; k) w = k (mk_walk (rd w) (short w) n).
Proof. done. Qed.
Lemma bind_position {B} (k : Z -> io walk_state B) w :
  (on_reader stream_position ≫= k) w = k (position (rd w)) w.
Proof. by destruct w. Qed.
Lemma bind_seek {B} n (k : io walk_state B) w :
  (_ ← on_reader (seek_start n); k) w = k (mk_walk (set_position n (rd w)) (short w) (stop w)).
Proof. done. Qed.

Lemma facts_walk_loop pw options b at' main enc :
  quick_open_silent pw options b ->
  facts_walk pw options b at' main enc =
    observe (resume_loop pw options (walk_fuel b) (resumed main enc) (over b at' None at')).
Proof.
  intros Hs. set (w0 := over b at' None at').
  trans (observe (resume_headers_for_facts pw options at' main enc w0)).
  { unfold facts_walk, observe. by destruct (resume_headers_for_facts _ _ _ _ _ _). }
  f_equal. unfold resume_headers_for_facts, resume_loop. rewrite bind_position, !bind_stop.
  change (position (rd w0)) with at'. change (content (rd w0)) with b.
  cbn [ParsedHeaders.encryption resumed]. destruct enc as [enc|].
  - destruct pw as [pwd|]; [|done].
    destruct (match Encryption.check_data enc with Some _ => _ | None => _ end); [done|].
    destruct (derive_key_rar5 _ _ _) as [key|e|]; [|done..].
    by rewrite !(bind_lift_Ok _ key), bind_seek by done.
  - unfold mbind at 1, io_bind at 1.
    rewrite (silent_attempt pw options b); [|done|done]. by rewrite bind_seek.
Qed.

Lemma prepend_clear_end p :
  in_progress (clear_end p) ->
  clear_end p = prepend (ParsedHeaders.files p) (ParsedHeaders.services p)
                  (resumed (ParsedHeaders.main p) (ParsedHeaders.encryption p)).
Proof.
  destruct p as [m fs ss e en ie q]. intros (_ & Hq & Hi). cbn in *.
  unfold clear_end, prepend, resumed. cbn. by rewrite !app_nil_r, Hq, Hi.
Qed.

Lemma resume_core pw options b1 b2 start p1 s1 at' :
  zlen b1 <= 2 ^ 62 -> zlen b2 <= 2 ^ 62 -> 0 <= start <= 2 ^ 62 ->
  quick_open_silent pw options b1 -> quick_open_silent pw options b2 ->
  facts_walk pw options b1 start None None = (Ok p1, s1, at') ->
  agree_to (Z.min at' (zlen b1)) b1 b2 ->
  facts_walk pw options b2 start None None =
    let '(r, s, stop') := facts_walk pw options b2 at' (ParsedHeaders.main p1) (ParsedHeaders.encryption p1) in
    (prepend (ParsedHeaders.files p1) (ParsedHeaders.services p1) <$> r, s, stop').
Proof.
  intros H1 H2 Hstart Hs1 Hs2 Hwalk Hag. pose proof (zlen_nonneg b2).
  rewrite facts_walk_loop in Hwalk by done.
  rewrite resume_loop_plain in Hwalk by done.
  destruct (walk_headers_from (walk_fuel b1) pw options ForFacts (resumed None None) (over b1 start None start))
    as [[[p|e]|e|] w1] eqn:Hw; [|done..].
  injection Hwalk as -> <- <-.
  apply (walk_prefix _ _ _ _ _ _ _ _ b2) in Hw as (Hle & Hin & Hrep); [|done|done|lia|done|done|done].
  destruct (Hrep Hag) as [k Hk]. rewrite !facts_walk_loop by done.
  rewrite <- (resume_loop_fuel pw options k); [|done|done|unfold I64_MAX; lia|apply walk_fuel_enough; lia].
  change (walk_fuel b2) with (S (S (length b2))) at 1. rewrite Hk.
  rewrite (prepend_clear_end p1) by done. rewrite resume_loop_prepend by (done || lia).
  unfold map_io, observe. cbn [fst snd].
  change (S (S (length b2))) with (walk_fuel b2).
  assert (Hst : forall q, resume_loop pw options (walk_fuel b2) q (over b2 (stop w1) None start) =
    resume_loop pw options (walk_fuel b2) q (over b2 (stop w1) None (stop w1))) by done.
  by rewrite Hst.
Qed.
End resume.
