(* ===== verification/HeaderProps.v ===== *)
(** What the RAR5 header walk guarantees: it ends without a panic on any bytes,
    it is the fold of its block list, the members it reports lie in order inside
    the volume, the limits and options asked for are kept, and facts walks
    agree with strict walks and with walks resumed later. *)
From S2P Require Import Prelude.
From S2P Require Import RarTypes.
From S2P Require Import Vint.
From S2P Require Import Utf8.
From S2P Require Import Reader.
From S2P Require Import HeaderCommon.
From S2P Require Import HeaderFields.
From S2P Require Import HeaderExtra.
From S2P Require Import HeaderMain.
From S2P Require Import HeaderFile.
From S2P Require Import HeaderWalk.
From S2P Require Import HeaderWalkLaws.
From S2P Require Import HeaderFacts.
From S2P Require Import HeaderResume.

(** * A concrete crypto module for the witnesses: ciphertext is plaintext. *)

Definition plain_crypto : HeaderCrypto := {|
  sha256_digest := fun _ => zreplicate 32 x00;
  crc32 := fun _ => 0;
  verify_password_rar5 := fun _ _ _ _ => true;
  derive_key_rar5 := fun _ _ _ => Ok (zreplicate 32 x00);
  cbc_state := unit;
  cbc_new := fun _ _ => tt;
  decrypt_blocks := fun st data => (data, st);
|}.

Lemma plain_crypto_laws : @HeaderCryptoLaws plain_crypto.
Proof. by split. Qed.

(** * Members in order *)

Definition data_end (f : ParsedFile.t) : Z :=
  FileHeader.data_offset (ParsedFile.header f) + FileHeader.data_size (ParsedFile.header f).

(** A member of a volume of [len] bytes. *)
Definition member_ok (len : Z) (f : ParsedFile.t) : Prop :=
  0 < FileHeader.data_offset (ParsedFile.header f) <= len /\
  0 <= FileHeader.data_size (ParsedFile.header f) < 2 ^ 64 /\
  compression_ok (FileHeader.compression (ParsedFile.header f)).

(** Each member's data ends before the data of every later one begins. *)
Definition in_order (fs : list ParsedFile.t) : Prop :=
  forall i j a b, (i < j)%nat -> fs !! i = Some a -> fs !! j = Some b ->
    data_end a < FileHeader.data_offset (ParsedFile.header b).

Section props.
Context `{HeaderCrypto}.

Lemma apply_extra_record_header st rec :
  let h := x_header st in let h' := x_header (apply_extra_record st rec) in
  FileHeader.data_offset h' = FileHeader.data_offset h /\
  FileHeader.data_size h' = FileHeader.data_size h /\
  FileHeader.compression h' = FileHeader.compression h.
Proof. destruct st, rec; cbn; try done. by case_match. Qed.

Lemma apply_extra_records_header raw owner h x :
  apply_extra_records raw owner h = Ok x ->
  FileHeader.data_offset (x_header x) = FileHeader.data_offset h /\
  FileHeader.data_size (x_header x) = FileHeader.data_size h /\
  FileHeader.compression (x_header x) = FileHeader.compression h.
Proof.
  unfold apply_extra_records. intros Hx. inv_bind Hx. destruct r as [ea|]; [|by injection Hx as <-].
  destruct (parse_extra_area _ _ _) as [records|e|]; [|by injection Hx as <-|done].
  injection Hx as <-. set (st := mk_extra _ _ _ _ _ h).
  change h with (x_header st). clearbody st. clear.
  revert st. induction records as [|rec records IH]; intros st; [done|]. cbn.
  destruct (IH (apply_extra_record st rec)) as (-> & -> & ->). apply apply_extra_record_header.
Qed.

(** Dispatch adds at most one member, the one of this header. *)
Lemma dispatch_files raw d p p' :
  raw_ok raw -> dispatch_header raw d p = Ok p' ->
  ParsedHeaders.files p' = ParsedHeaders.files p \/
  exists f, ParsedHeaders.files p' = ParsedHeaders.files p ++ [f] /\
    RawHeader.header_type raw = HeaderType.File /\
    file_header_ok raw d (ParsedFile.header f).
Proof.
  intros Hraw. unfold dispatch_header. intros Hd. destruct (RawHeader.header_type raw).
  - inv_bind Hd. injection Hd as <-. by left.
  - inv_bind Hd. inv_bind Hd. injection Hd as <-. right. eexists. split; [done|]. split; [done|].
    pose proof (FileHeader_parse_safe raw d Hraw) as Hs. rewrite Hr in Hs. cbn in Hs |- *.
    apply apply_extra_records_header in Hr0 as (E1 & E2 & E3). unfold file_header_ok in *.
    by rewrite E1, E2, E3.
  - inv_bind Hd. injection Hd as <-. by left.
  - injection Hd as <-. by left.
  - injection Hd as <-. by left.
  - destruct (negb (has _ _)); [done|]. injection Hd as <-. by left.
Qed.

Definition layout_inv (len pos : Z) (p : ParsedHeaders.t) : Prop :=
  in_order (ParsedHeaders.files p) /\
  Forall (fun f => member_ok len f /\ data_end f <= pos) (ParsedHeaders.files p).

Lemma layout_push len pos p f d :
  layout_inv len pos p -> FileHeader.data_offset (ParsedFile.header f) = d -> pos < d ->
  member_ok len f ->
  in_order (ParsedHeaders.files p ++ [f]) /\
  Forall (member_ok len) (ParsedHeaders.files p ++ [f]) /\
  forall pos', data_end f <= pos' -> pos <= pos' ->
    Forall (fun f => member_ok len f /\ data_end f <= pos') (ParsedHeaders.files p ++ [f]).
Proof.
  intros [Hord Hall] Hd Hpos Hf. rewrite Forall_forall in Hall. split_and!.
  - intros i j a b Hij Ha Hb. apply lookup_lt_Some in Hb as Hj. rewrite length_app in Hj. cbn in Hj.
    destruct (decide (j < length (ParsedHeaders.files p))%nat) as [Hlt|Hge].
    + rewrite lookup_app_l in Hb by lia. rewrite lookup_app_l in Ha by lia. eauto.
    + rewrite lookup_app_r in Hb by lia.
      replace (j - length (ParsedHeaders.files p))%nat with 0%nat in Hb by lia. injection Hb as <-.
      rewrite lookup_app_l in Ha by lia. apply list_elem_of_lookup_2, list_elem_of_In in Ha.
      apply Hall in Ha as [_ Ha]. lia.
  - apply Forall_app; split; [apply Forall_forall; intros x Hx; by apply Hall|].
    by apply Forall_singleton.
  - intros pos' Hp1 Hp2. apply Forall_app; split; [apply Forall_forall; intros x Hx|].
    + apply Hall in Hx as [? ?]. split; [done|lia].
    + apply Forall_singleton. by split.
Qed.
End props.

(** * Invariants of the physical walk *)

Section physical.
Context `{HeaderCryptoLaws}.

(** With the Quick Open cache switched off: where the members lie, how many
    they are, and that none is a cached copy. *)
Definition limit_inv (scan : HeaderScan) (slack : Z) (p : ParsedHeaders.t) : Prop :=
  match scan with ThroughFile limit => zlen (ParsedHeaders.files p) <= limit - slack | _ => True end.

Definition physical_inv (len : Z) (scan : HeaderScan) (pos : Z) (p : ParsedHeaders.t) : Prop :=
  layout_inv len pos p /\ limit_inv scan 1 p /\ ParsedHeaders.headers_from_quick_open p = false.

Definition physical_result (len : Z) (scan : HeaderScan) (p : ParsedHeaders.t) : Prop :=
  in_order (ParsedHeaders.files p) /\ Forall (member_ok len) (ParsedHeaders.files p) /\
  limit_inv scan 0 p /\ ParsedHeaders.headers_from_quick_open p = false.

Lemma physical_inv_result len scan pos p : physical_inv len scan pos p -> physical_result len scan p.
Proof.
  intros ([Ho Ha] & Hl & Hq). split_and!; [done| | |done].
  - eapply Forall_impl; [|exact Ha]. by intros f [].
  - destruct scan; cbn in *; (lia || done).
Qed.

Lemma physical_inv_later len scan pos pos' p :
  physical_inv len scan pos p -> pos <= pos' -> physical_inv len scan pos' p.
Proof.
  intros ([Ho Ha] & Hl & Hq) Hle. split_and!; try done. split; [done|].
  eapply Forall_impl; [|exact Ha]. intros f []. split; [done|lia].
Qed.

Lemma dispatch_flag raw d p p' :
  dispatch_header raw d p = Ok p' ->
  ParsedHeaders.headers_from_quick_open p' = ParsedHeaders.headers_from_quick_open p /\
  (is_Some (ParsedHeaders.main p) -> is_Some (ParsedHeaders.main p')).
Proof.
  unfold dispatch_header. intros Hd. destruct (RawHeader.header_type raw).
  - inv_bind Hd. injection Hd as <-. cbn. eauto.
  - inv_bind Hd. inv_bind Hd. by injection Hd as <-.
  - inv_bind Hd. by injection Hd as <-.
  - by injection Hd as <-.
  - by injection Hd as <-.
  - destruct (negb (has _ _)); [done|]. by injection Hd as <-.
Qed.

Lemma physical_step_laws bytes scan :
  walk_step_laws bytes scan (mk_options false)
    (fun pos p => physical_inv (zlen bytes) scan pos p) (physical_result (zlen bytes) scan).
Proof.
  split.
  - intros raw d p p' Hraw Hinv Hd Hdisp. pose proof Hinv as (Hlay & Hlim & Hq).
    pose proof (raw_ok_sizes raw Hraw) as [_ Hda].
    destruct (dispatch_flag _ _ _ _ Hdisp) as [Hq' _]. rewrite Hq in Hq'.
    destruct (dispatch_files _ _ _ _ Hraw Hdisp) as [Hf|(f & Hf & Htype & (Ho & Hs & Hc))].
    + assert (Hinv' : physical_inv (zlen bytes) scan (RawHeader.offset raw) p').
      { unfold physical_inv, layout_inv, limit_inv in *. by rewrite Hf, Hq'. }
      split; [by eapply physical_inv_result|]. intros _. eapply physical_inv_later; [done|lia].
    + assert (Hmem : member_ok (zlen bytes) f).
      { unfold member_ok. rewrite Ho, Hs. split_and!; try done; try lia.
        destruct Hraw as (? & _). lia. }
      destruct (layout_push _ _ _ _ _ Hlay Ho ltac:(lia) Hmem) as (Hord & Hall & Hend).
      split.
      * split_and!; rewrite ?Hf; try done. unfold limit_inv in *. rewrite Hf, zlen_app.
        change (zlen [f]) with 1. destruct scan; (lia || done).
      * intros Hgo. split_and!; try done.
        -- split; rewrite Hf; [done|]. apply Hend; [|lia].
           unfold data_end. rewrite Ho, Hs. lia.
        -- destruct Hgo as [Hgo|Hgo]; [|congruence]. unfold limit_inv, reached_file_limit in *.
           destruct scan; try done. apply Z.leb_gt in Hgo. lia.
  - apply physical_inv_result.
  - intros pos p e Hinv. by apply physical_inv_result in Hinv.
  - intros pos pos' p e Hinv Hle. by eapply physical_inv_later in Hinv.
  - done.
Qed.

Lemma physical_walk r pw scan p :
  0 <= position r <= zlen (content r) -> zlen (content r) <= 2 ^ 62 ->
  match scan with ThroughFile limit => 0 < limit | _ => True end ->
  parse_headers_with_scan r pw (mk_options false) scan = Ok p ->
  physical_result (zlen (content r)) scan p.
Proof.
  intros Hpos Hlen Hscan. unfold parse_headers_with_scan, walk_all_headers. cbn [rd].
  pose proof (wp_walk_headers_from (content r) scan (mk_options false) _ _ Hlen
    (physical_step_laws (content r) scan) (walk_fuel (content r)) pw ParsedHeaders.empty_parsed_headers
    (mk_walk r None 0) (position r)) as Hwp.
  unfold wp in Hwp. destruct (walk_headers_from _ _ _ _ _ _) as [[[q|e]|e|] w]; cbn; try done.
  intros [= <-]. apply Hwp.
  - unfold at_position, I64_MAX. cbn. split_and!; done || lia.
  - unfold physical_inv, layout_inv, limit_inv. split_and!; try done.
    destruct scan; cbn; try done. change (zlen []) with 0. lia.
  - apply walk_fuel_enough. lia.
Qed.
End physical.

(** * Quick Open answers *)

Section provenance.
Context `{HeaderCryptoLaws}.

(** An answer from the cache is flagged, and was read through its cached
    end-of-archive record. *)
Definition cached_answer (p : ParsedHeaders.t) : Prop :=
  ParsedHeaders.headers_from_quick_open p = true /\ is_Some (ParsedHeaders.main p) /\
  is_Some (ParsedHeaders.end_ p).

Lemma quick_open_loop_answer fuel rem q p r o r' :
  ParsedHeaders.headers_from_quick_open p = true -> is_Some (ParsedHeaders.main p) ->
  parse_quick_open_loop fuel rem q p r = (Ok o, r') ->
  forall a, o = Some a -> cached_answer a.
Proof.
  revert rem p r. induction fuel as [|fuel IH]; intros rem p r Hq Hm; [done|].
  cbn [parse_quick_open_loop]. intros Hrun a ->.
  apply io_bind_Ok in Hrun as ([record rem'] & r1 & _ & Hrun). destruct record as [raw|]; [|done].
  apply io_bind_Ok in Hrun as (d & r2 & _ & Hrun).
  destruct (RawHeader.header_type raw);
    try (apply io_bind_Ok in Hrun as (p' & r3 & Hd & Hrun); apply io_lift_Ok in Hd as [Hd ->];
         apply dispatch_flag in Hd as [Hf Hm']; eapply (IH rem' p'); [by rewrite Hf|auto|exact Hrun|done]).
  - done.
  - apply io_bind_Ok in Hrun as (e & r3 & Hd & Hrun). injection Hrun as <- _.
    split; [done|]. split; [done|]. by eexists.
Qed.

Lemma quick_open_answer p pw r a r' :
  try_parse_quick_open_headers p pw r = (Ok (Some a), r') -> cached_answer a.
Proof.
  unfold try_parse_quick_open_headers. intros Hrun.
  destruct (ParsedHeaders.main p) as [main|]; [|done].
  destruct (MainArchiveHeader.quick_open_offset main) as [off|]; [|done].
  apply io_bind_Ok in Hrun as (pos & r1 & _ & Hrun).
  apply io_bind_Ok in Hrun as (tried & r2 & Htry & Hrun).
  apply io_bind_Ok in Hrun as ([] & r3 & _ & Hrun).
  destruct tried as [e|answer]; [done|]. injection Hrun as -> _.
  unfold attempt in Htry.
  destruct (parse_quick_open_headers_at off main pw r1) as [[b|e|] r4] eqn:Hat; [|done..].
  injection Htry as -> ->. unfold parse_quick_open_headers_at in Hat.
  apply io_bind_Ok in Hat as ([] & r5 & _ & Hat).
  apply io_bind_Ok in Hat as ([raw|] & r6 & _ & Hat); [|done].
  destruct (negb _); [done|].
  apply io_bind_Ok in Hat as (d & r7 & _ & Hat). apply io_bind_Ok in Hat as (svc & r8 & _ & Hat).
  cbv zeta in Hat. destruct (negb _); [done|]. destruct (negb _); [done|].
  assert (Hloop : forall rem o r0 r9, parse_quick_open_records rem (RawHeader.offset raw) main r0 = (Ok o, r9) ->
    forall x, o = Some x -> cached_answer x).
  { intros rem o r0 r9 Hl. eapply quick_open_loop_answer; [..|exact Hl]; [done|by eexists]. }
  destruct (ParsedService.is_encrypted svc); [|by eapply Hloop].
  unfold parse_encrypted_quick_open_records in Hat. destruct pw as [pw|]; [|done].
  destruct (ParsedService.file_encryption svc) as [enc|]; [|done]. cbv zeta in Hat.
  destruct (negb _); [done|].
  destruct (match FileEncryptionParams.check_data enc with Some _ => _ | None => _ end); [done|].
  destruct (negb _); [done|].
  apply io_bind_Ok in Hat as (key & r9 & _ & Hat). apply io_bind_Ok in Hat as (cipher & r10 & _ & Hat).
  apply io_lift_Ok in Hat as [Hat _].
  match type of Hat with (parse_quick_open_records ?x ?y ?z ?w).1 = _ =>
    destruct (parse_quick_open_records x y z w) as [o rr] eqn:El end.
  cbn in Hat. subst o. by eapply Hloop.
Qed.

Definition provenance (options : HeaderParseOptions) (p : ParsedHeaders.t) : Prop :=
  ParsedHeaders.headers_from_quick_open p = true ->
  allow_quick_open options = true /\ cached_answer p.

Lemma provenance_step_laws bytes scan options :
  walk_step_laws bytes scan options
    (fun _ p => ParsedHeaders.headers_from_quick_open p = false) (provenance options).
Proof.
  unfold provenance. split.
  - intros raw d p p' _ Hp _ Hd. apply dispatch_flag in Hd as [Hf _]. rewrite Hp in Hf.
    split; [|done]. by rewrite Hf.
  - intros _ p ->. done.
  - intros _ p e Hp. cbn. by rewrite Hp.
  - done.
  - intros Hallow pw p r r' q _ Hq _. apply quick_open_answer in Hq. done.
Qed.
End provenance.

(** * The walk as a fold over blocks *)

(** A block of a volume: its header as framed, and its data area. *)
Record block := mk_block {
  b_crc : Z;
  b_size : Z;
  b_vint_len : Z;
  b_body : list byte;
  b_data : list byte;
}.

Definition encode_block (b : block) : list byte :=
  frame (b_crc b) (b_size b) (b_vint_len b) (b_body b) ++ b_data b.

(** The header field ranges, a data area of the size the header states, and no
    archive encryption header. *)
Definition block_ok (b : block) : Prop :=
  0 <= b_crc b < 2 ^ 32 /\ 0 < b_vint_len b <= 3 /\ 0 < b_size b <= MAX_HEADER_BODY /\
  b_size b < 2 ^ (7 * b_vint_len b) /\ zlen (b_body b) = b_size b /\
  forall ht fl ea da, parse_common_fields (b_body b) = Ok (ht, fl, ea, da) ->
    zlen (b_data b) = da /\ HeaderType.from ht <> HeaderType.Encryption.

Section blocks.
Context `{HeaderCrypto}.

(** What a volume says, block by block. *)
Fixpoint fold_blocks (pos : Z) (blocks : list block) (p : ParsedHeaders.t) : result ParsedHeaders.t :=
  match blocks with
  | [] => mret p
  | b :: rest =>
      raw ← parse_raw_header_from_parts pos (b_crc b) (b_size b) (b_vint_len b) (b_body b);
      let d := pos + 4 + b_vint_len b + b_size b in
      match RawHeader.header_type raw with
      | HeaderType.EndArchive => e ← EndArchive.parse raw; mret (ParsedHeaders.set_end e p)
      | _ => p ← dispatch_header raw d p; fold_blocks (d + zlen (b_data b)) rest p
      end
  end.
End blocks.

Section refinement.
Context `{HeaderCryptoLaws}.

Lemma zlen_encode_block b :
  block_ok b -> zlen (encode_block b) = 4 + b_vint_len b + b_size b + zlen (b_data b).
Proof.
  intros (_ & Hn & _ & _ & Hbody & _). unfold encode_block, frame.
  rewrite !zlen_app, zlen_le_split, zlen_vint_encode_for_crc by lia. lia.
Qed.

Lemma walk_blocks blocks fuel pw pre p s st :
  Forall block_ok blocks ->
  zlen (pre ++ mjoin (encode_block <$> blocks)) <= 2 ^ 62 -> (length blocks < fuel)%nat ->
  (walk_headers_from fuel pw (mk_options false) ForDecode p
     (mk_walk (mk_reader (pre ++ mjoin (encode_block <$> blocks)) (zlen pre)) s st)).1 =
  Parsed <$> fold_blocks (zlen pre) blocks p.
Proof.
  intros Hok. revert fuel pre p s st.
  induction Hok as [|b blocks Hb Hok IH]; intros [|fuel] pre p s st Hlen Hfuel; cbn in Hfuel; try lia.
  - cbn [fmap list_fmap mjoin list_join] in *. rewrite app_nil_r in *. cbn [walk_headers_from fold_blocks].
    unfold mbind at 1 2 3, io_bind at 1 2 3. unfold on_reader at 1, stream_position, gets, set_stop, modify, lift.
    cbn [rd position short stop]. unfold add_u64, MIN_RAR5_HEADER_BYTES.
    pose proof (zlen_nonneg pre). rewrite (proj2 (Z.ltb_lt _ _)) by lia.
    unfold mbind at 1, io_bind at 1, absorb_short_read.
    assert (Heof : exists r, read_raw_header (mk_reader pre (zlen pre)) = (Ok None, r)).
    { unfold read_raw_header, stream_position, gets, mbind, io_bind, attempt.
      rewrite read_exact_short by (unfold rest_of; cbn; rewrite zdrop_ge by lia; rewrite zlen_nil; lia).
      cbn. by eexists. }
    destruct Heof as [r Heof]. unfold mbind, io_bind, attempt, on_reader. cbn [rd]. by rewrite Heof.
  - assert (Hsplit : pre ++ mjoin (encode_block <$> b :: blocks) =
       pre ++ frame (b_crc b) (b_size b) (b_vint_len b) (b_body b) ++
         (b_data b ++ mjoin (encode_block <$> blocks))).
    { cbn. unfold encode_block at 1. by rewrite <- app_assoc. }
    pose proof Hb as (Hcrc & Hn & Hs & Hpad & Hbody & Hcommon).
    pose proof (zlen_encode_block b Hb) as Hlb. pose proof (zlen_nonneg pre) as Hpre.
    pose proof (zlen_nonneg (b_data b)) as Hdata.
    set (pre' := pre ++ encode_block b).
    assert (Hpre' : zlen pre' = zlen pre + 4 + b_vint_len b + b_size b + zlen (b_data b)).
    { unfold pre'. rewrite zlen_app. lia. }
    assert (Hsplit' : pre ++ mjoin (encode_block <$> b :: blocks) = pre' ++ mjoin (encode_block <$> blocks)).
    { unfold pre'. by rewrite <- (app_assoc pre). }
    pose proof (read_raw_header_frame pre (b_data b ++ mjoin (encode_block <$> blocks)) (b_crc b) (b_size b)
      (b_vint_len b) (b_body b) Hcrc Hn Hs Hpad Hbody) as Hread. cbv zeta in Hread.
    rewrite <- Hsplit in Hread. set (bytes := pre ++ mjoin (encode_block <$> b :: blocks)) in *.
    assert (Hlen' : zlen pre' <= zlen bytes).
    { rewrite Hsplit', zlen_app. pose proof (zlen_nonneg (mjoin (encode_block <$> blocks))). lia. }
    pose proof (parse_raw_header_from_parts_safe (zlen pre) (b_crc b) (b_size b) (b_vint_len b) (b_body b)
      Hpre ltac:(lia) ltac:(lia) Hbody) as Hraw.
    cbn [walk_headers_from fold_blocks].
    rewrite bind_position, bind_stop. cbn [rd position short].
    unfold add_u64 at 1, MIN_RAR5_HEADER_BYTES. rewrite (proj2 (Z.ltb_lt _ _)) by lia.
    rewrite (bind_lift_Ok _ (zlen pre + 6)) by done.
    destruct (parse_raw_header_from_parts (zlen pre) (b_crc b) (b_size b) (b_vint_len b) (b_body b))
      as [raw|e|] eqn:Eraw; [| |done].
    2: { unfold mbind at 1, io_bind at 1, absorb_short_read, mbind, io_bind, attempt, on_reader. cbn [rd].
         by rewrite Hread. }
    cbn [fmap outcome_fmap] in Hread. cbn [safe] in Hraw. destruct Hraw as (Hok' & Ho & Hsz & Hvl & Hbd).
    unfold mbind at 1, io_bind at 1.
    rewrite (absorb_ok _ _ _ _ (Some raw) (mk_reader bytes (zlen pre + 4 + b_vint_len b + b_size b))) by done.
    cbn [short stop].
    rewrite (bind_lift_Ok _ (zlen pre + 4 + b_vint_len b + b_size b)).
    2: { rewrite data_offset_of_ok; [unfold header_end; f_equal; lia|done|unfold header_end; lia]. }
    assert (Hda : zlen (b_data b) = RawHeader.data_area_size raw /\
                  RawHeader.header_type raw <> HeaderType.Encryption).
    { destruct Hok' as (_ & _ & _ & _ & ht & Hht & Hpc). rewrite Hbd in Hpc.
      rewrite Hht. eapply Hcommon, Hpc. }
    destruct Hda as [Hda Hnenc].
    assert (Hgo : forall p' s' st',
      ((_ ← on_reader (skip_data_area raw); walk_headers_from fuel pw (mk_options false) ForDecode p')
        (mk_walk (mk_reader bytes (zlen pre + 4 + b_vint_len b + b_size b)) s' st')).1 =
      Parsed <$> fold_blocks (zlen pre + 4 + b_vint_len b + b_size b + zlen (b_data b)) blocks p').
    { intros p' s' st'. rewrite <- Hpre', <- (IH fuel pre' p' s' st'); [|by rewrite <- Hsplit'|lia].
      rewrite <- Hsplit'. unfold mbind at 1, io_bind at 1, on_reader at 1. cbn [rd short stop].
      unfold skip_data_area. rewrite <- Hda. unfold I64_MAX.
      destruct (Z.ltb_spec 0 (zlen (b_data b))).
      - rewrite (proj2 (Z.ltb_ge _ _)) by lia. unfold seek_current. cbn [position].
        rewrite (proj2 (Z.leb_le _ _)), (proj2 (Z.ltb_lt _ _)) by lia. cbn [andb].
        unfold set_position. cbn [content]. by rewrite Hpre'.
      - cbn. rewrite Hpre'. by replace (zlen (b_data b)) with 0 by lia; rewrite Z.add_0_r. }
    assert (Hdisp : ((parsed ← lift (dispatch_header raw (zlen pre + 4 + b_vint_len b + b_size b) p);
        if reached_file_limit ForDecode (zlen (ParsedHeaders.files parsed)) then mret (Parsed parsed)
        else _ ← on_reader (skip_data_area raw);
             walk_headers_from fuel pw (mk_options false) ForDecode parsed)
        (mk_walk (mk_reader bytes (zlen pre + 4 + b_vint_len b + b_size b)) s (zlen pre))).1 =
      Parsed <$> (p ← dispatch_header raw (zlen pre + 4 + b_vint_len b + b_size b) p;
        fold_blocks (zlen pre + 4 + b_vint_len b + b_size b + zlen (b_data b)) blocks p)).
    { destruct (dispatch_header raw _ p) as [p'|e|]; [|done..].
      rewrite (bind_lift_Ok _ p') by done. apply Hgo. }
    cbn [mbind outcome_bind]. destruct (RawHeader.header_type raw); try exact Hdisp; try done.
    by destruct (EndArchive.parse raw).
Qed.
End refinement.

(** Every block takes bytes, so the walk's fuel is enough for them. *)
Lemma walk_fuel_blocks pre blocks :
  Forall block_ok blocks -> (length blocks < walk_fuel (pre ++ mjoin (encode_block <$> blocks)))%nat.
Proof.
  intros Hok. unfold walk_fuel. rewrite length_app.
  enough (length blocks <= length (mjoin (encode_block <$> blocks)))%nat by lia.
  induction Hok as [|b blocks Hb _ IH]; [done|].
  change (mjoin (encode_block <$> b :: blocks)) with (encode_block b ++ mjoin (encode_block <$> blocks)).
  pose proof (zlen_encode_block b Hb) as Hlen. rewrite length_app. unfold zlen in Hlen.
  destruct Hb as (_ & ? & ? & _). cbn [length]. lia.
Qed.

(** * A sample volume

    A main header, two stored members of four bytes and an end record. *)
Definition main_block : block := mk_block 0 3 1 [x01; x00; x00] [].
Definition file_block (name : byte) : block :=
  mk_block 0 10 1 [x02; x02; x04; x00; x04; x00; x00; x00; x01; name] [x01; x02; x03; x04].
Definition end_block : block := mk_block 0 3 1 [x05; x00; x00] [].
Definition sample_blocks : list block := [main_block; file_block x61; file_block x62; end_block].
Definition sample_volume : list byte := mjoin (encode_block <$> sample_blocks).

Lemma sample_blocks_ok : Forall block_ok sample_blocks.
Proof.
  repeat constructor; cbn; try lia; try done;
    match goal with H : parse_common_fields _ = _ |- _ => vm_compute in H; injection H; intros; subst; done end.
Qed.

(** A volume whose main header points at a Quick Open block right after it,
    which caches an end record. *)
Definition qo_main_block : block := mk_block 0 8 1 [x01; x01; x04; x00; x03; x01; x01; x0d] [].
Definition qo_record : list byte :=
  [x00; x00; x00; x00; x0b; x00; x00; x08; x00; x00; x00; x00; x03; x05; x00; x00].
Definition qo_block : block :=
  mk_block 0 11 1 [x03; x02; x10; x00; x10; x00; x00; x00; x02; x51; x4f] qo_record.
Definition quick_open_volume : list byte := mjoin (encode_block <$> [qo_main_block; qo_block]).

(** The members a sample walk returns. *)
Definition sample_files (o : result ParsedHeaders.t) : list ustring :=
  match o with
  | Ok p => (fun f => FileHeader.name (ParsedFile.header f)) <$> ParsedHeaders.files p
  | _ => []
  end.

(** * Properties *)

(** C4 (the walk ends, without a panic, on every volume): on any bytes up to
    2^62, with any password, options and kind of scan, the RAR5 header walk
    returns headers or an error; in particular the fuel given to the loops is
    enough, no slice is out of range and no 64-bit addition overflows. *)
Theorem parse_headers_total `{HeaderCryptoLaws} (r : reader) (pw : option ustring)
    (options : HeaderParseOptions) (scan : HeaderScan) :
  0 <= position r <= zlen (content r) -> zlen (content r) <= 2 ^ 62 ->
  (exists p, parse_headers_with_scan r pw options scan = Ok p) \/
  (exists e, parse_headers_with_scan r pw options scan = Err e).
Proof.
  intros Hpos Hlen. unfold parse_headers_with_scan, walk_all_headers. cbn [rd].
  pose proof (walk_no_panic (content r) (walk_fuel (content r)) pw options scan
    ParsedHeaders.empty_parsed_headers (position r) None 0 Hlen) as Hnp.
  replace (mk_reader (content r) (position r)) with r in Hnp by (by destruct r).
  destruct (walk_headers_from _ _ _ _ _ _) as [[[p|e]|e|] w]; cbn in *; eauto.
  exfalso. apply Hnp; [unfold I64_MAX; lia| |done]. apply walk_fuel_enough. lia.
Qed.

Lemma parse_headers_total_witness :
  (exists p, @parse_headers_with_scan plain_crypto (mk_reader sample_volume 0) None default_options ForDecode = Ok p) \/
  (exists e, @parse_headers_with_scan plain_crypto (mk_reader sample_volume 0) None default_options ForDecode = Err e).
Proof.
  apply (@parse_headers_total plain_crypto plain_crypto_laws); vm_compute; [split|]; discriminate.
Defined.

(** C5 (the walk refines the block list): over the encoding of any list of
    well-framed blocks the physical walk returns the fold of the dispatcher
    over them, whatever that outcome is: each block's header parsed at its
    offset, dispatched with the offset of its data, the data skipped, and an
    end-of-archive header ending it. *)
Theorem walk_refines_blocks `{HeaderCryptoLaws} (pre : list byte) (blocks : list block)
    (pw : option ustring) :
  Forall block_ok blocks ->
  zlen (pre ++ mjoin (encode_block <$> blocks)) <= 2 ^ 62 ->
  parse_headers_with_scan (mk_reader (pre ++ mjoin (encode_block <$> blocks)) (zlen pre)) pw
    (mk_options false) ForDecode =
  fold_blocks (zlen pre) blocks ParsedHeaders.empty_parsed_headers.
Proof.
  intros Hok Hlen. unfold parse_headers_with_scan, walk_all_headers. cbn [rd content].
  rewrite walk_blocks by (try done; apply walk_fuel_blocks; done).
  by destruct (fold_blocks _ _ _).
Qed.

Lemma walk_refines_blocks_witness :
  @parse_headers_with_scan plain_crypto (mk_reader ([] ++ sample_volume) (zlen (@nil byte))) None
    (mk_options false) ForDecode =
  @fold_blocks plain_crypto (zlen (@nil byte)) sample_blocks ParsedHeaders.empty_parsed_headers /\
  sample_files (@fold_blocks plain_crypto 0 sample_blocks ParsedHeaders.empty_parsed_headers) = [[97]; [98]].
Proof.
  split; [|reflexivity].
  apply (@walk_refines_blocks plain_crypto plain_crypto_laws [] sample_blocks None sample_blocks_ok).
  vm_compute. discriminate.
Defined.

(** C7 (members lie in order inside the volume): a physical walk that succeeds
    reports members whose data begins inside the volume and, data areas being
    skipped, each after the end of the one before; a member's dictionary is
    within bounds, no more members are reported than the limit asked for, and
    nothing is marked as read from the Quick Open cache. *)
Theorem physical_members_in_order `{HeaderCryptoLaws} (r : reader) (pw : option ustring)
    (scan : HeaderScan) (p : ParsedHeaders.t) :
  0 <= position r <= zlen (content r) -> zlen (content r) <= 2 ^ 62 ->
  match scan with ThroughFile limit => 0 < limit | _ => True end ->
  parse_headers_with_scan r pw (mk_options false) scan = Ok p ->
  in_order (ParsedHeaders.files p) /\ Forall (member_ok (zlen (content r))) (ParsedHeaders.files p) /\
  match scan with ThroughFile limit => zlen (ParsedHeaders.files p) <= limit | _ => True end /\
  ParsedHeaders.headers_from_quick_open p = false.
Proof.
  intros Hpos Hlen Hscan Hparse.
  destruct (physical_walk r pw scan p Hpos Hlen Hscan Hparse) as (Ho & Ha & Hl & Hq).
  split_and!; try done. unfold limit_inv in Hl. destruct scan; (done || lia).
Qed.

Definition sample_walk (scan : HeaderScan) : ParsedHeaders.t :=
  match @parse_headers_with_scan plain_crypto (mk_reader sample_volume 0) None (mk_options false) scan with
  | Ok p => p
  | _ => ParsedHeaders.empty_parsed_headers
  end.

Lemma physical_members_in_order_witness :
  let p := sample_walk (ThroughFile 1) in
  in_order (ParsedHeaders.files p) /\ Forall (member_ok (zlen sample_volume)) (ParsedHeaders.files p) /\
  zlen (ParsedHeaders.files p) <= 1 /\ ParsedHeaders.headers_from_quick_open p = false.
Proof.
  apply (@physical_members_in_order plain_crypto plain_crypto_laws (mk_reader sample_volume 0) None
           (ThroughFile 1));
    [vm_compute; split; discriminate|vm_compute; discriminate|reflexivity|vm_compute; reflexivity].
Defined.

(** Provenance: headers marked as coming from the Quick Open cache are only
    ever returned when the caller allowed the cache, and then with a main header
    and the cached end-of-archive record the cache was read through. *)
Theorem quick_open_provenance `{HeaderCryptoLaws} (r : reader) (pw : option ustring)
    (options : HeaderParseOptions) (scan : HeaderScan) (p : ParsedHeaders.t) :
  0 <= position r <= zlen (content r) -> zlen (content r) <= 2 ^ 62 ->
  parse_headers_with_scan r pw options scan = Ok p ->
  ParsedHeaders.headers_from_quick_open p = true ->
  allow_quick_open options = true /\ is_Some (ParsedHeaders.main p) /\ is_Some (ParsedHeaders.end_ p).
Proof.
  intros Hpos Hlen Hparse Hq. unfold parse_headers_with_scan, walk_all_headers in Hparse. cbn [rd] in Hparse.
  pose proof (wp_walk_headers_from (content r) scan options _ _ Hlen
    (provenance_step_laws (content r) scan options) (walk_fuel (content r)) pw
    ParsedHeaders.empty_parsed_headers (mk_walk r None 0) (position r)) as Hwp.
  unfold wp in Hwp. destruct (walk_headers_from _ _ _ _ _ _) as [[[q|e]|e|] w]; cbn in Hparse; try done.
  injection Hparse as ->. destruct Hwp as (Ha & _ & Hm & He); try done.
  - unfold at_position, I64_MAX. split_and!; done || lia.
  - apply walk_fuel_enough. lia.
Qed.

Lemma quick_open_provenance_witness :
  exists p, @parse_headers_with_scan plain_crypto (mk_reader quick_open_volume 0) None default_options ForDecode = Ok p /\
    allow_quick_open default_options = true /\ is_Some (ParsedHeaders.main p) /\ is_Some (ParsedHeaders.end_ p).
Proof.
  eexists. split; [vm_compute; reflexivity|].
  eapply (@quick_open_provenance plain_crypto plain_crypto_laws (mk_reader quick_open_volume 0) None
           default_options ForDecode);
    [vm_compute; split; discriminate|vm_compute; discriminate|vm_compute; reflexivity|reflexivity].
Defined.

(** A Quick Open attempt leaves no trace: after a main header the attempt,
    whether it answers, fails or is refused, puts the reader back exactly where
    the physical walk goes on, and its errors are never the walk's. *)
Theorem quick_open_attempt_restores `{HeaderCryptoLaws} (raw : RawHeader.t) (d : Z)
    (p p' : ParsedHeaders.t) (pw : option ustring) (r : reader) :
  raw_ok raw -> RawHeader.header_type raw = HeaderType.MainArchive ->
  dispatch_header raw d p = Ok p' -> zlen (content r) <= 2 ^ 62 ->
  exists answer, try_parse_quick_open_headers p' pw r = (Ok answer, r) /\
    forall q, answer = Some q -> cached_answer q.
Proof.
  intros Hraw Htype Hd Hlen.
  destruct (try_parse_quick_open_headers_ok p' pw r) as [q Hq]; [|done|].
  - unfold dispatch_header in Hd. rewrite Htype in Hd. inv_bind Hd. injection Hd as <-.
    intros main off [= <-] Ho. pose proof (parse_safe raw Hraw) as Hs. rewrite Hr in Hs. by apply Hs in Ho as [].
  - exists q. split; [done|]. intros a ->. by eapply quick_open_answer.
Qed.

Definition qo_main_raw : RawHeader.t :=
  match parse_raw_header_from_parts 0 0 8 1 (b_body qo_main_block) with
  | Ok raw => raw
  | _ => RawHeader.mk 0 0 0 0 HeaderType.File 0 0 0 []
  end.
Definition qo_main_parsed : ParsedHeaders.t :=
  match @dispatch_header plain_crypto qo_main_raw 13 ParsedHeaders.empty_parsed_headers with
  | Ok p => p
  | _ => ParsedHeaders.empty_parsed_headers
  end.

Lemma quick_open_attempt_restores_witness :
  exists answer, @try_parse_quick_open_headers plain_crypto qo_main_parsed None (mk_reader quick_open_volume 13) =
    (Ok answer, mk_reader quick_open_volume 13) /\ forall q, answer = Some q -> cached_answer q.
Proof.
  apply (@quick_open_attempt_restores plain_crypto plain_crypto_laws qo_main_raw 13
           ParsedHeaders.empty_parsed_headers).
  - unfold raw_ok. vm_compute. repeat split; try discriminate. by exists 1.
  - reflexivity.
  - vm_compute. reflexivity.
  - vm_compute. discriminate.
Defined.

(** C8 (a facts walk knows what the strict walk says): over any bytes, what the
    strict walk returns is read off a facts walk: the error recorded with its
    short read if there is one, its own outcome otherwise. *)
Theorem facts_walk_predicts_strict_walk `{HeaderCrypto} (r : reader) (pw : option ustring)
    (options : HeaderParseOptions) :
  let facts := walk_all_headers pw options ForFacts (mk_walk r None 0) in
  (walk_all_headers pw options ForDecode (mk_walk r None 0)).1 =
    match facts.1, short facts.2 with
    | Ok _, Some (mk_short _ (Some e)) => Err e
    | o, _ => o
    end.
Proof.
  cbv zeta. pose proof (walk_headers_from_agree (walk_fuel (content r)) pw options
    ParsedHeaders.empty_parsed_headers (mk_walk r None 0) eq_refl) as Hag.
  unfold walks_agree in Hag. unfold walk_all_headers. cbn [rd]. rewrite Hag.
  destruct (walk_headers_from _ pw options ForFacts _ _) as [[a|e|] w]; cbn; [|done..].
  by destruct (short w) as [[? [?|]]|].
Qed.

(** C6 (a resumed walk finds what a full walk finds): a volume was walked while
    it was still arriving and the walk stopped at [at']. Over a longer volume
    with the bytes that walk read, resuming at [at'] with the main and
    encryption headers it found gives, after the members and services it found,
    exactly what a walk from the start of the longer volume gives: the same
    headers in the same order or the same error, the same short read and the
    same stop. The Quick Open cache must not answer for either volume. *)
Theorem resumed_walk_agrees `{HeaderCryptoLaws} (pw : option ustring) (options : HeaderParseOptions)
    (early late : list byte) (start : Z) (found : ParsedHeaders.t) (s : option ShortRead) (at' : Z) :
  zlen early <= 2 ^ 62 -> zlen late <= 2 ^ 62 -> 0 <= start <= 2 ^ 62 ->
  quick_open_silent pw options early -> quick_open_silent pw options late ->
  facts_walk pw options early start None None = (Ok found, s, at') ->
  ztake (Z.min at' (zlen early)) early = ztake (Z.min at' (zlen early)) late ->
  facts_walk pw options late start None None =
    let '(rest, s', stop') :=
      facts_walk pw options late at' (ParsedHeaders.main found) (ParsedHeaders.encryption found) in
    (prepend (ParsedHeaders.files found) (ParsedHeaders.services found) <$> rest, s', stop').
Proof. intros H1 H2 H3 H4 H5 H6 H7. exact (resume_core _ _ _ _ _ _ _ _ H1 H2 H3 H4 H5 H6 H7). Qed.

Definition early_volume : list byte := ztake 25 sample_volume.

Lemma resumed_walk_agrees_witness :
  let '(rest, s', stop') :=
    @facts_walk plain_crypto None (mk_options false) sample_volume 27
      (ParsedHeaders.main (sample_walk (ThroughFile 1))) None in
  @facts_walk plain_crypto None (mk_options false) sample_volume 0 None None =
    (prepend (ParsedHeaders.files (sample_walk (ThroughFile 1))) [] <$> rest, s', stop').
Proof.
  apply (@resumed_walk_agrees plain_crypto plain_crypto_laws None (mk_options false)
    early_volume sample_volume 0 (sample_walk (ThroughFile 1)) (Some (at_boundary 33)) 27);
    [vm_compute; discriminate|vm_compute; discriminate|lia|discriminate|discriminate
    |vm_compute; reflexivity|vm_compute; reflexivity].
Defined.

(** A header read is its frame: what [read_raw_header] accepts is, byte for
    byte, a CRC field, the header size in the vint bytes the checksum is taken
    over, and a body of that size; the reader is left right behind it, and the
    header returned states the body's own fields. *)
Theorem raw_header_is_framed (r r' : reader) (raw : RawHeader.t) :
  0 <= position r -> read_raw_header r = (Ok (Some raw), r') ->
  exists tail,
    rest_of r = le_split 4 (RawHeader.crc32 raw) ++
      vint_encode_for_crc (RawHeader.header_size raw) (RawHeader.header_size_vint_len raw) ++
      RawHeader.body raw ++ tail /\
    r' = mk_reader (content r) (position r + (zlen (rest_of r) - zlen tail)) /\
    zlen (RawHeader.body raw) = RawHeader.header_size raw /\
    0 < RawHeader.header_size raw <= MAX_HEADER_BODY /\
    (has (RawHeader.flags raw) flags.EXTRA_AREA = false -> RawHeader.extra_area_size raw = 0) /\
    (has (RawHeader.flags raw) flags.DATA_AREA = false -> RawHeader.data_area_size raw = 0).
Proof.
  intros Hp Hread. destruct (read_raw_header_inv r raw r' Hp Hread) as (_ & _ & tail & Hrest).
  pose proof (read_raw_header_spec r Hp) as Hspec. rewrite Hread in Hspec.
  destruct Hspec as (Hok & Ho & -> & _). exists tail.
  pose proof Hok as (_ & Hs & Hn & Hb & ht & _ & Hc).
  pose proof (parse_common_fields_safe (RawHeader.body raw)) as Hsafe. rewrite Hc in Hsafe.
  destruct Hsafe as (_ & _ & Hea & Hda).
  split; [rewrite Hrest; unfold frame; by rewrite <- !app_assoc|]. split; [|done].
  unfold set_position. f_equal. rewrite Hrest. unfold header_end, frame.
  rewrite !zlen_app, zlen_le_split, zlen_vint_encode_for_crc by lia. lia.
Qed.

Lemma raw_header_is_framed_witness :
  exists tail, rest_of (mk_reader sample_volume 8) = le_split 4 0 ++ vint_encode_for_crc 10 1 ++
      b_body (file_block x61) ++ tail.
Proof.
  destruct (raw_header_is_framed (mk_reader sample_volume 8) (mk_reader sample_volume 23)
    (RawHeader.mk 8 0 10 1 HeaderType.File 2 0 4 (b_body (file_block x61)))) as (tail & Heq & _);
    [discriminate|vm_compute; reflexivity|].
  exists tail. exact Heq.
Defined.

(** A header-encrypted volume whose second block deciphers to zeros. *)
Definition hp_volume : list byte :=
  encode_block (mk_block 0 21 1
    ([x04; x00; x00; x00; x00] ++ zreplicate 16 x00) []) ++ zreplicate 32 x00.

