(* ===== verification/GaloisField.v ===== *)
(** The interface between field arithmetic and the matrix code: a field of
    16-bit words with exclusive or as addition, and the exclusive-or sums the
    matrix theorems are stated with. *)
From S2P Require Import Prelude.

Class GaloisField := {
  gf_elem : Z -> Prop;
  gf_mul : Z -> Z -> Z;
  gf_inv : forall {E}, Z -> outcome E Z;
  gf_pow : Z -> Z -> Z;
}.

Class GaloisFieldLaws (F : GaloisField) := {
  gf_elem_0 : gf_elem 0;
  gf_elem_1 : gf_elem 1;
  gf_elem_lxor a b : gf_elem a -> gf_elem b -> gf_elem (Z.lxor a b);
  gf_mul_range a b : gf_elem a -> gf_elem b -> gf_elem (gf_mul a b);
  gf_mul_comm a b : gf_mul a b = gf_mul b a;
  gf_mul_assoc a b c : gf_elem a -> gf_elem b -> gf_elem c -> gf_mul a (gf_mul b c) = gf_mul (gf_mul a b) c;
  gf_mul_0_l a : gf_mul 0 a = 0;
  gf_mul_1_l a : gf_elem a -> gf_mul 1 a = a;
  gf_mul_lxor_r a b c : gf_elem a -> gf_elem b -> gf_elem c ->
    gf_mul a (Z.lxor b c) = Z.lxor (gf_mul a b) (gf_mul a c);
  gf_inv_spec a : gf_elem a -> a <> 0 ->
    exists b, (forall E, gf_inv (E := E) a = Ok b) /\ gf_elem b /\ gf_mul b a = 1;
  gf_pow_range a e : gf_elem a -> 0 <= e -> gf_elem (gf_pow a e);
  gf_pow_0 a : gf_pow a 0 = 1;
  gf_pow_succ a e : gf_elem a -> 0 <= e -> gf_pow a (e + 1) = gf_mul a (gf_pow a e);
}.

(** * Elements *)

Create HintDb gf.

#[export] Hint Resolve gf_elem_0 gf_elem_1 gf_elem_lxor gf_mul_range gf_pow_range : gf.

Lemma lxor_cancel a b : Z.lxor a (Z.lxor a b) = b.
Proof. rewrite <- Z.lxor_assoc, Z.lxor_nilpotent. apply Z.lxor_0_l. Qed.
Lemma lxor_exchange a b c d : Z.lxor (Z.lxor a b) (Z.lxor c d) = Z.lxor (Z.lxor a c) (Z.lxor b d).
Proof.
  rewrite !Z.lxor_assoc. f_equal. rewrite <- !Z.lxor_assoc. f_equal. apply Z.lxor_comm.
Qed.

(** * Exclusive-or sums *)

Fixpoint xsum (n : nat) (f : nat -> Z) : Z :=
  match n with O => 0 | S n => Z.lxor (xsum n f) (f n) end.

Lemma xsum_ext n f g : (forall i, (i < n)%nat -> f i = g i) -> xsum n f = xsum n g.
Proof.
  induction n as [|n IH]; [done|]. intros H. cbn [xsum]. rewrite H by lia. f_equal.
  apply IH. intros i Hi. apply H. lia.
Qed.
Lemma xsum_0 n f : (forall i, (i < n)%nat -> f i = 0) -> xsum n f = 0.
Proof.
  intros H. rewrite (xsum_ext n f (fun _ => 0)) by done. clear H.
  induction n as [|n IH]; [done|]. cbn [xsum]. rewrite IH. done.
Qed.
Lemma xsum_lxor n f g : xsum n (fun i => Z.lxor (f i) (g i)) = Z.lxor (xsum n f) (xsum n g).
Proof.
  induction n as [|n IH]; [done|]. cbn [xsum]. rewrite IH. apply lxor_exchange.
Qed.
Lemma xsum_swap n m (f : nat -> nat -> Z) :
  xsum n (fun i => xsum m (f i)) = xsum m (fun j => xsum n (fun i => f i j)).
Proof.
  induction n as [|n IH]; cbn [xsum]; [by rewrite xsum_0|]. rewrite IH, <- xsum_lxor. done.
Qed.
Lemma xsum_add n m f : xsum (n + m) f = Z.lxor (xsum n f) (xsum m (fun i => f (n + i)%nat)).
Proof.
  induction m as [|m IH]; cbn [xsum]; [rewrite Nat.add_0_r, Z.lxor_0_r; done|].
  rewrite Nat.add_succ_r. cbn [xsum]. rewrite IH, Z.lxor_assoc. done.
Qed.
(** A sum with a single nonzero term. *)
Lemma xsum_single n k f :
  (k < n)%nat -> (forall i, (i < n)%nat -> i <> k -> f i = 0) -> xsum n f = f k.
Proof.
  induction n as [|n IH]; [lia|]. intros Hk H. cbn [xsum].
  destruct (decide (k = n)) as [->|].
  - rewrite xsum_0; [apply Z.lxor_0_l|]. intros. apply H; lia.
  - rewrite (H n), Z.lxor_0_r by lia. apply IH; [lia|]. intros. apply H; lia.
Qed.

(** Words given bit by bit. *)
Definition word_of (n : nat) (p : nat -> bool) : Z :=
  xsum n (fun i => if p i then 2 ^ Z.of_nat i else 0).

Lemma word_of_testbit n p j :
  Z.testbit (word_of n p) (Z.of_nat j) = (j <? n)%nat && p j.
Proof.
  unfold word_of. induction n as [|n IH]; cbn [xsum]; [by rewrite Z.bits_0|].
  rewrite Z.lxor_spec, IH. destruct (decide (j = n)) as [->|Hne].
  - rewrite Nat.ltb_irrefl, (proj2 (Nat.ltb_lt n (S n))) by lia. cbn [andb xorb].
    destruct (p n); [apply Z.pow2_bits_true; lia|apply Z.bits_0].
  - replace (j <? S n)%nat with (j <? n)%nat
      by (destruct (Nat.ltb_spec j n), (Nat.ltb_spec j (S n)); lia).
    assert (Z.testbit (if p n then 2 ^ Z.of_nat n else 0) (Z.of_nat j) = false) as ->;
      [|by rewrite xorb_false_r].
    destruct (p n); [apply Z.pow2_bits_false; lia|apply Z.bits_0].
Qed.

Lemma word_of_range n p : 0 <= word_of n p < 2 ^ Z.of_nat n.
Proof.
  unfold word_of. induction n as [|n IH]; cbn [xsum]; [lia|].
  rewrite Nat2Z.inj_succ, Z.pow_succ_r by lia. pose proof (Z.pow_pos_nonneg 2 (Z.of_nat n)).
  replace (2 * 2 ^ Z.of_nat n) with (2 ^ (Z.of_nat n + 1)) by (rewrite Z.pow_add_r by lia; lia).
  apply lxor_range; [lia| |]; rewrite Z.pow_add_r by lia; destruct (p n); lia.
Qed.

Lemma word_eq n a b : 0 <= a < 2 ^ Z.of_nat n -> 0 <= b < 2 ^ Z.of_nat n ->
  (forall j, (j < n)%nat -> Z.testbit a (Z.of_nat j) = Z.testbit b (Z.of_nat j)) -> a = b.
Proof.
  intros Ha Hb H. apply Z.bits_inj'. intros j Hj. destruct (Z.ltb_spec j (Z.of_nat n)).
  - rewrite <- (Z2Nat.id j) by lia. apply H. lia.
  - rewrite !(testbit_high _ (Z.of_nat n)) by lia. done.
Qed.

(** The bits of a number below [2 ^ n]. *)
Lemma xsum_bits n a : 0 <= a < 2 ^ Z.of_nat n ->
  a = xsum n (fun i => if Z.testbit a (Z.of_nat i) then 2 ^ Z.of_nat i else 0).
Proof.
  intros Ha. fold (word_of n (fun i => Z.testbit a (Z.of_nat i))).
  apply (word_eq n); [done|apply word_of_range|]. intros j Hj.
  rewrite word_of_testbit, (proj2 (Nat.ltb_lt _ _)) by done. done.
Qed.

Lemma xsum_testbit n f j :
  Z.b2z (Z.testbit (xsum n f) j) = xsum n (fun i => Z.b2z (Z.testbit (f i) j)).
Proof.
  induction n as [|n IH]; cbn [xsum]; [by rewrite Z.bits_0|]. rewrite <- IH, Z.lxor_spec.
  destruct (Z.testbit (xsum n f) j), (Z.testbit (f n) j); done.
Qed.

Section sums.
Context {F : GaloisField} {L : GaloisFieldLaws F}.

Lemma xsum_elem n f : (forall i, (i < n)%nat -> gf_elem (f i)) -> gf_elem (xsum n f).
Proof using L.
  induction n as [|n IH]; intros H; cbn [xsum]; [apply gf_elem_0|].
  apply gf_elem_lxor; [apply IH|]; intros; apply H; lia.
Qed.
#[local] Hint Resolve xsum_elem : gf.

Lemma gf_mul_0_r a : gf_mul a 0 = 0.
Proof using L. rewrite gf_mul_comm. apply gf_mul_0_l. Qed.
Lemma gf_mul_lxor_l a b c : gf_elem a -> gf_elem b -> gf_elem c ->
  gf_mul (Z.lxor a b) c = Z.lxor (gf_mul a c) (gf_mul b c).
Proof using L.
  intros. rewrite gf_mul_comm, gf_mul_lxor_r by done. rewrite (gf_mul_comm c a), (gf_mul_comm c b). done.
Qed.
Lemma gf_mul_xsum a n f : gf_elem a -> (forall i, (i < n)%nat -> gf_elem (f i)) ->
  gf_mul a (xsum n f) = xsum n (fun i => gf_mul a (f i)).
Proof using L.
  intros Ha. induction n as [|n IH]; intros Hf; cbn [xsum]; [apply gf_mul_0_r|].
  rewrite gf_mul_lxor_r; auto with gf. rewrite IH; auto.
Qed.
Lemma gf_mul_eq_0 a b : gf_elem a -> gf_elem b -> gf_mul a b = 0 -> a = 0 \/ b = 0.
Proof using L.
  intros Ha Hb H. destruct (decide (a = 0)) as [|Hn]; [by left|right].
  destruct (gf_inv_spec a Ha Hn) as (i & _ & Hi & Hia).
  rewrite <- (gf_mul_1_l b Hb), <- Hia, <- gf_mul_assoc, H by done. apply gf_mul_0_r.
Qed.
End sums.
#[export] Hint Resolve xsum_elem : gf.

(** * Row reduction over a field: row operations on matrices, what they keep, and dependent columns. Shared by the PAR2 repair matrix (GF(2^16)) and the CRC-32 operators (GF(2)). *)

Definition matrix : Type := nat -> nat -> Z.

Definition same (r c : nat) (M N : matrix) : Prop :=
  forall i j, (i < r)%nat -> (j < c)%nat -> M i j = N i j.

(** * Row operations

    A row operation makes row [i] the combination of two rows: [ca i] times
    row [pa i] and [cb i] times row [pb i]. *)
Record row_op := mk_row_op { ca : nat -> Z; pa : nat -> nat; cb : nat -> Z; pb : nat -> nat }.

Section row_ops.
Context {F : GaloisField} {L : GaloisFieldLaws F}.

Definition elem_matrix (r c : nat) (M : matrix) : Prop :=
  forall i j, (i < r)%nat -> (j < c)%nat -> gf_elem (M i j).
Definition elem_vector (n : nat) (x : nat -> Z) : Prop := forall i, (i < n)%nat -> gf_elem (x i).

Definition apply_op (o : row_op) (M : matrix) : matrix :=
  fun i j => Z.lxor (gf_mul (ca o i) (M (pa o i) j)) (gf_mul (cb o i) (M (pb o i) j)).
Definition apply_vec (o : row_op) (y : nat -> Z) : nat -> Z :=
  fun i => Z.lxor (gf_mul (ca o i) (y (pa o i))) (gf_mul (cb o i) (y (pb o i))).

(** The product of a row of [A], [n] entries long, with [x]. *)
Definition dot (n : nat) (a x : nat -> Z) : Z := xsum n (fun k => gf_mul (a k) (x k)).

Definition identity : matrix := fun i j => if decide (i = j) then 1 else 0.

(** Some combination of the columns with a coefficient other than zero vanishes. *)
Definition singular (n : nat) (M : matrix) : Prop :=
  exists x, elem_vector n x /\ (exists j, (j < n)%nat /\ x j <> 0) /\
    forall i, (i < n)%nat -> dot n (M i) x = 0.

Record op_ok (n : nat) (o : row_op) : Prop := {
  op_coef i : (i < n)%nat -> gf_elem (ca o i) /\ gf_elem (cb o i);
  op_row i : (i < n)%nat -> (pa o i < n)%nat /\ (pb o i < n)%nat;
  op_reversible y : elem_vector n y -> (forall i, (i < n)%nat -> apply_vec o y i = 0) ->
    forall i, (i < n)%nat -> y i = 0;
}.

Lemma dot_elem n a x : elem_vector n a -> elem_vector n x -> gf_elem (dot n a x).
Proof using L. intros Ha Hx. apply xsum_elem. auto with gf. Qed.

Lemma dot_comb n c d a b x : gf_elem c -> gf_elem d ->
  elem_vector n a -> elem_vector n b -> elem_vector n x ->
  dot n (fun j => Z.lxor (gf_mul c (a j)) (gf_mul d (b j))) x =
    Z.lxor (gf_mul c (dot n a x)) (gf_mul d (dot n b x)).
Proof using L.
  intros Hc Hd Ha Hb Hx. unfold dot. rewrite !gf_mul_xsum by auto with gf. rewrite <- xsum_lxor.
  apply xsum_ext. intros k Hk. specialize (Ha k Hk). specialize (Hb k Hk). specialize (Hx k Hk).
  rewrite gf_mul_lxor_l by auto with gf. rewrite <- !gf_mul_assoc by done. done.
Qed.

(** The state of the elimination: [V] applied to the input gives [A], and a
    vector that [A] cancels is cancelled by the input. *)
Record reduces (n : nat) (mat A V : matrix) : Prop := {
  red_A : elem_matrix n n A;
  red_V : elem_matrix n n V;
  red_product i j : (i < n)%nat -> (j < n)%nat -> dot n (V i) (fun k => mat k j) = A i j;
  red_kernel x : elem_vector n x -> (forall i, (i < n)%nat -> dot n (A i) x = 0) ->
    forall i, (i < n)%nat -> dot n (mat i) x = 0;
}.

Lemma reduces_op n mat A V A' V' o :
  elem_matrix n n mat -> reduces n mat A V -> op_ok n o ->
  same n n (apply_op o A) A' -> same n n (apply_op o V) V' -> reduces n mat A' V'.
Proof using L.
  intros Hmat [HA HV Hprod Hker] [Hcoef Hrow Hrev] HA' HV'.
  assert (Hrows : forall M, elem_matrix n n M -> forall M', same n n (apply_op o M) M' ->
    forall i x, (i < n)%nat -> elem_vector n x -> dot n (M' i) x = apply_vec o (fun k => dot n (M k) x) i).
  { intros M HM M' HM' i x Hi Hx. destruct (Hcoef i Hi), (Hrow i Hi). unfold apply_vec.
    rewrite <- dot_comb; [|done|done|intros k Hk; by apply HM|intros k Hk; by apply HM|done].
    apply xsum_ext. intros k Hk. rewrite <- HM' by done. done. }
  assert (Hu : forall M, elem_matrix n n M -> forall M', same n n (apply_op o M) M' -> elem_matrix n n M').
  { intros M HM M' HM' i j Hi Hj. rewrite <- HM' by done. destruct (Hcoef i Hi), (Hrow i Hi).
    unfold apply_op. auto with gf. }
  split; [exact (Hu A HA A' HA')|exact (Hu V HV V' HV')| |].
  - intros i j Hi Hj. rewrite (Hrows V HV V' HV') by (done || (intros k Hk; by apply Hmat)).
    rewrite <- HA' by done. destruct (Hrow i Hi). unfold apply_vec, apply_op. rewrite !Hprod by done. done.
  - intros x Hx H. apply Hker; [done|]. apply (Hrev (fun k => dot n (A k) x)).
    + intros k Hk. apply dot_elem; [|done]. intros j Hj. by apply HA.
    + intros i Hi. rewrite <- (Hrows A HA A' HA') by done. auto.
Qed.

(** The three operations of the inversion. *)
Definition swap_op (a b : nat) : row_op :=
  mk_row_op (fun _ => 1) (fun i => if decide (i = a) then b else if decide (i = b) then a else i)
    (fun _ => 0) (fun i => i).
Definition scale_op (a : nat) (c : Z) : row_op :=
  mk_row_op (fun i => if decide (i = a) then c else 1) (fun i => i) (fun _ => 0) (fun i => i).
Definition add_op (a b : nat) (c : Z) : row_op :=
  mk_row_op (fun _ => 1) (fun i => i) (fun i => if decide (i = a) then c else 0) (fun _ => b).

Lemma swap_op_ok n a b : (a < n)%nat -> (b < n)%nat -> op_ok n (swap_op a b).
Proof using L.
  intros Ha Hb. split; cbn.
  - auto with gf.
  - intros i Hi. repeat case_decide; lia.
  - intros y Hy H i Hi.
    assert (H' : forall k, (k < n)%nat -> y (if decide (k = a) then b else if decide (k = b) then a else k) = 0).
    { intros k Hk. specialize (H k Hk). unfold apply_vec in H. cbn in H.
      rewrite gf_mul_0_l, Z.lxor_0_r, gf_mul_1_l in H; [done|]. apply Hy. repeat case_decide; lia. }
    pose proof (H' a Ha). pose proof (H' b Hb). pose proof (H' i Hi).
    repeat case_decide; subst; congruence || lia.
Qed.
Lemma scale_op_ok n a c : (a < n)%nat -> gf_elem c -> c <> 0 -> op_ok n (scale_op a c).
Proof using L.
  intros Ha Hc Hn. split; cbn; [intros i Hi; case_decide; auto with gf|auto|].
  intros y Hy H i Hi. specialize (H i Hi). unfold apply_vec in H. cbn in H.
  rewrite gf_mul_0_l, Z.lxor_0_r in H. specialize (Hy i Hi).
  case_decide; [|rewrite gf_mul_1_l in H; done]. destruct (gf_mul_eq_0 c (y i)); done.
Qed.
Lemma add_op_ok n a b c : (a < n)%nat -> (b < n)%nat -> a <> b -> gf_elem c -> op_ok n (add_op a b c).
Proof using L.
  intros Ha Hb Hab Hc. split; cbn; [intros i Hi; case_decide; auto with gf|auto|].
  intros y Hy H.
  assert (H' : forall k, (k < n)%nat -> k <> a -> y k = 0).
  { intros k Hk Hka. specialize (H k Hk). unfold apply_vec in H. cbn in H. rewrite decide_False in H by done.
    rewrite gf_mul_0_l, Z.lxor_0_r, gf_mul_1_l in H; [done|auto]. }
  intros i Hi. destruct (decide (i = a)) as [->|]; [|auto]. specialize (H a Ha). unfold apply_vec in H.
  cbn in H. rewrite decide_True, (H' b), gf_mul_0_r, Z.lxor_0_r, gf_mul_1_l in H; auto.
Qed.

Definition swap_rows_of (a b : nat) (M : matrix) : matrix :=
  fun i j => if decide (i = a) then M b j else if decide (i = b) then M a j else M i j.
Definition with_row (M : matrix) (a : nat) (g : nat -> Z) : matrix :=
  fun i j => if decide (i = a) then g j else M i j.

Lemma apply_swap n a b M : (a < n)%nat -> (b < n)%nat -> elem_matrix n n M ->
  same n n (apply_op (swap_op a b) M) (swap_rows_of a b M).
Proof using L.
  intros Ha Hb HM i j Hi Hj. unfold apply_op, swap_rows_of. cbn.
  rewrite gf_mul_0_l, Z.lxor_0_r. repeat case_decide; apply gf_mul_1_l; auto.
Qed.
Lemma apply_scale n a c M : elem_matrix n n M ->
  same n n (apply_op (scale_op a c) M) (with_row M a (fun j => gf_mul (M a j) c)).
Proof using L.
  intros HM i j Hi Hj. unfold apply_op, with_row. cbn. rewrite gf_mul_0_l, Z.lxor_0_r.
  case_decide; [subst; apply gf_mul_comm|apply gf_mul_1_l; auto].
Qed.
Lemma apply_add n a b c M : elem_matrix n n M ->
  same n n (apply_op (add_op a b c) M) (with_row M a (fun j => Z.lxor (M a j) (gf_mul c (M b j)))).
Proof using L.
  intros HM i j Hi Hj. unfold apply_op, with_row. cbn. rewrite gf_mul_1_l by auto.
  case_decide; [subst; done|]. rewrite gf_mul_0_l, Z.lxor_0_r. done.
Qed.

(** ** Columns already cleared *)

Definition unit_columns (n col : nat) (A : matrix) : Prop :=
  forall i j, (i < n)%nat -> (j < col)%nat -> A i j = identity i j.

Lemma unit_columns_with_row n col A row g :
  unit_columns n col A -> (row < n)%nat -> (forall j, (j < col)%nat -> g j = A row j) ->
  unit_columns n col (with_row A row g).
Proof.
  intros HA Hr Hg i j Hi Hj. unfold with_row. case_decide; [subst; rewrite Hg by done|]; auto.
Qed.

(** Without a pivot the columns up to [col] are dependent. *)
Lemma no_pivot_singular n mat col A V :
  (col < n)%nat -> reduces n mat A V -> unit_columns n col A ->
  (forall i, (col <= i < n)%nat -> A i col = 0) -> singular n mat.
Proof using L.
  intros Hc Hred Hunit H0.
  set (x := fun j => if decide (j < col)%nat then A j col else if decide (j = col) then 1 else 0).
  assert (Hx : elem_vector n x).
  { intros j Hj. unfold x. repeat case_decide; auto with gf. by apply Hred. }
  exists x. split; [done|]. split.
  { exists col. split; [done|]. unfold x. rewrite decide_False, decide_True by lia. done. }
  apply (red_kernel _ _ _ _ Hred); [done|]. intros i Hi. unfold dot.
  assert (HA : gf_elem (A i col)) by (by apply Hred).
  destruct (decide (i < col)%nat) as [Hic|Hic].
  - rewrite (xsum_ext _ _ (fun j => Z.lxor (if decide (j = i) then A i col else 0)
                                     (if decide (j = col) then A i col else 0))).
    + rewrite xsum_lxor, (xsum_single _ i), (xsum_single _ col); try done.
      * rewrite !decide_True by done. apply Z.lxor_nilpotent.
      * intros j _ Hj. by rewrite decide_False.
      * intros j _ Hj. by rewrite decide_False.
    + intros j Hj. unfold x. destruct (decide (j < col)%nat) as [Hjc|].
      * rewrite Hunit by done. unfold identity. rewrite (decide_False (P := j = col)) by lia.
        rewrite Z.lxor_0_r. destruct (decide (i = j)) as [->|].
        { rewrite decide_True by done. apply gf_mul_1_l. by apply Hred. }
        rewrite decide_False by done. apply gf_mul_0_l.
      * rewrite (decide_False (P := j = i)) by lia. rewrite Z.lxor_0_l.
        case_decide; [subst; rewrite gf_mul_comm; by apply gf_mul_1_l|apply gf_mul_0_r].
  - apply xsum_0. intros j Hj. unfold x. repeat case_decide; [| |apply gf_mul_0_r].
    + rewrite Hunit by done. unfold identity. rewrite decide_False by lia. apply gf_mul_0_l.
    + subst. rewrite H0 by lia. apply gf_mul_0_l.
Qed.
(** ** Products *)

Lemma xsum_dot n m (v : nat -> Z) (M : matrix) (x : nat -> Z) :
  elem_vector n v -> elem_matrix n m M -> elem_vector m x ->
  dot m (fun s => dot n v (fun k => M k s)) x = dot n v (fun k => dot m (M k) x).
Proof using L.
  intros Hv HM Hx. unfold dot.
  rewrite (xsum_ext m _ (fun s => xsum n (fun k => gf_mul (v k) (gf_mul (M k s) (x s))))).
  - rewrite xsum_swap. apply xsum_ext. intros k Hk. rewrite gf_mul_xsum; auto.
    intros s Hs. apply gf_mul_range; auto.
  - intros s Hs. rewrite gf_mul_comm, gf_mul_xsum; auto; [|intros k Hk; apply gf_mul_range; auto].
    apply xsum_ext. intros k Hk. rewrite (gf_mul_comm (x s)). symmetry. apply gf_mul_assoc; auto.
Qed.

Lemma dot_ext n a b x y : (forall k, (k < n)%nat -> a k = b k) -> (forall k, (k < n)%nat -> x k = y k) ->
  dot n a x = dot n b y.
Proof. intros Ha Hx. apply xsum_ext. intros k Hk. rewrite Ha, Hx by done. done. Qed.

Lemma dot_identity n i x : (i < n)%nat -> elem_vector n x -> dot n (identity i) x = x i.
Proof using L.
  intros Hi Hx. unfold dot. rewrite (xsum_single _ i); [|done|].
  - unfold identity. rewrite decide_True by done. apply gf_mul_1_l. auto.
  - intros k Hk Hne. unfold identity. rewrite decide_False by done. apply gf_mul_0_l.
Qed.

(** ** The start of a reduction *)

Lemma identity_elem n : elem_matrix n n identity.
Proof using L. intros i j Hi Hj. unfold identity. case_decide; auto with gf. Qed.

Lemma reduces_refl n mat : elem_matrix n n mat -> reduces n mat mat identity.
Proof using L.
  intros Hmat. split; [done|apply identity_elem| |done].
  intros i j Hi Hj. apply (dot_identity n i (fun k => mat k j)); [done|]. intros k Hk. by apply Hmat.
Qed.
End row_ops.
