(* ===== verification/Gf16.v ===== *)
(** Field arithmetic of [crates/reedsolomon-rs/src/gf.rs]: GF(2^16) with the
    PAR2 polynomial, by logarithm and antilogarithm tables.

    A field element is a [u16]: an integer of [Z] in [0, 65536). The two
    tables are finite maps that read 0 where nothing was stored, as the
    zero-filled boxed arrays do; every index the code computes is below 65536.
    The static [TABLES] is an argument of the operations, so that the laws are
    proved from what [tables_ok] checks of the tables and not by unfolding them. *)
From stdpp Require Import gmap.
From Stdlib Require Import Zdivisibility Sorting.Sorted.
From S2P Require Import Prelude.
From S2P Require Import GaloisField.

(** A field element: a Rust [u16]. *)
Definition u16 (a : Z) : Prop := 0 <= a < 65536.

Lemma u16_0 : u16 0.
Proof. unfold u16. lia. Qed.
Lemma u16_1 : u16 1.
Proof. unfold u16. lia. Qed.
Lemma u16_lxor a b : u16 a -> u16 b -> u16 (Z.lxor a b).
Proof. unfold u16. change 65536 with (2 ^ 16). apply lxor_range. lia. Qed.
#[export] Hint Resolve u16_0 u16_1 u16_lxor : gf.

(** * Tables *)

Definition PRIMITIVE_POLY : Z := 0x1100B.
Definition ORDER : Z := 65535.

Definition table : Type := gmap Z Z.
Definition zeroed_table : table := ∅.
Definition read (t : table) (i : Z) : Z := default 0 (t !! i).

Record GfTables := mk_tables { log_table : table; antilog_table : table }.

(** Multiplication by the generator [x] (the number 2). *)
Definition xtime (val : Z) : Z :=
  let val := Z.shiftl val 1 in
  if Z.land val 0x10000 =? 0 then val else Z.lxor val PRIMITIVE_POLY.

Fixpoint fill_tables (todo : nat) (i val : Z) (t : GfTables) : GfTables :=
  match todo with
  | O => t
  | S todo =>
      fill_tables todo (i + 1) (xtime val)
        (mk_tables (<[val := i]> (log_table t)) (<[i := val]> (antilog_table t)))
  end.

Definition TABLES : GfTables :=
  let t := fill_tables (Z.to_nat ORDER) 0 1 (mk_tables zeroed_table zeroed_table) in
  mk_tables (log_table t) (<[ORDER := read (antilog_table t) 0]> (antilog_table t)).

(** * Operations *)

Definition add (a b : Z) : Z := Z.lxor a b.

Definition is_divisible_by_suborder_factor (exp : Z) : bool :=
  (exp mod 3 =? 0) || (exp mod 5 =? 0) || (exp mod 17 =? 0) || (exp mod 257 =? 0).

Section operations.
Variable tables : GfTables.

Definition log (value : Z) : Z := read (log_table tables) value.
Definition antilog (i : Z) : Z := read (antilog_table tables) i.

Definition mul (a b : Z) : Z :=
  if (a =? 0) || (b =? 0) then 0
  else
    let log_sum := log a + log b in
    antilog (if ORDER <=? log_sum then log_sum - ORDER else log_sum).

(** [inv] asserts that its argument is not zero. *)
Definition inv {E} (a : Z) : outcome E Z :=
  if a =? 0 then Panic else Ok (antilog (ORDER - log a)).

Definition pow (base exp : Z) : Z :=
  if exp =? 0 then 1
  else if base =? 0 then 0
  else antilog ((log base * exp) mod ORDER).

Definition pow_from_log (log_base exp : Z) : Z := antilog ((log_base * exp) mod ORDER).

(** The loop of [input_slice_constants] with [remaining] constants to go; the
    assertion on [exp] runs after every step. *)
Fixpoint input_slice_constants_loop {E} (fuel : nat) (remaining exp : Z) : outcome E (list Z) :=
  if remaining <=? 0 then Ok []
  else match fuel with
  | O => Panic
  | S fuel =>
      if is_divisible_by_suborder_factor exp
      then if exp + 1 <=? ORDER then input_slice_constants_loop fuel remaining (exp + 1) else Panic
      else
        if exp + 1 <=? ORDER then
          rest ← input_slice_constants_loop fuel (remaining - 1) (exp + 1);
          Ok (antilog exp :: rest)
        else Panic
  end.

(** [exp] starts at 1 and never exceeds [ORDER], so 65,535 steps are enough. *)
Definition input_slice_constants {E} (count : Z) : outcome E (list Z) :=
  input_slice_constants_loop (Z.to_nat ORDER) count 1.

(** * What the tables hold *)

Fixpoint forall_below (todo : nat) (i : Z) (p : Z -> bool) : bool :=
  match todo with O => true | S todo => p i && forall_below todo (i + 1) p end.

(** The tables are inverse bijections between [0, 65535) and the nonzero
    elements, consecutive antilogarithms differ by one multiplication by the
    generator, and the first sixteen are the single bits. *)
Definition antilog_entry_ok (i : Z) : bool :=
  (log (antilog i) =? i) && (antilog (i + 1) =? xtime (antilog i))
    && (0 <? antilog i) && (antilog i <? 65536).
Definition log_entry_ok (a : Z) : bool :=
  (0 <=? log a) && (log a <? ORDER) && (antilog (log a) =? a).
Definition low_entry_ok (i : Z) : bool := antilog i =? 2 ^ i.

Definition tables_ok : bool :=
  forall_below (Z.to_nat ORDER) 0 antilog_entry_ok && forall_below (Z.to_nat ORDER) 1 log_entry_ok
    && forall_below 16 0 low_entry_ok && (antilog ORDER =? 1).
End operations.

Lemma tables_checked : tables_ok TABLES = true.
Proof. vm_compute. reflexivity. Qed.

Lemma forall_below_spec todo i p :
  forall_below todo i p = true -> forall j, i <= j < i + Z.of_nat todo -> p j = true.
Proof.
  revert i. induction todo as [|todo IH]; intros i; cbn [forall_below]; [lia|].
  intros [Hi Hrest]%andb_true_iff j Hj. destruct (decide (j = i)) as [->|]; [done|].
  apply (IH (i + 1)); [done|lia].
Qed.

Lemma mod_ORDER k : 0 <= k mod ORDER < ORDER.
Proof. apply Z.mod_pos_bound. done. Qed.

(** ** The specification: polynomials over GF(2), one bit per coefficient

    [poly_step i] cancels the coefficient of degree [16 + i] with a multiple
    of the PAR2 polynomial; the product of two elements has degree 30 at most. *)
Definition poly_step (i : nat) (v : Z) : Z :=
  Z.lxor v (if Z.testbit v (16 + Z.of_nat i) then Z.shiftl PRIMITIVE_POLY (Z.of_nat i) else 0).
Fixpoint poly_reduce (todo : nat) (v : Z) : Z :=
  match todo with O => v | S i => poly_reduce i (poly_step i v) end.
Definition poly_mul (a b : Z) : Z :=
  poly_reduce 15 (xsum 16 (fun i => if Z.testbit a (Z.of_nat i) then Z.shiftl b (Z.of_nat i) else 0)).

(** The prime factors of 65535. *)
Lemma prime_by_check p :
  1 < p -> forall_below (Z.to_nat (p - 2)) 2 (fun n => negb (p mod n =? 0)) = true -> Z.prime p.
Proof.
  intros Hp H. split; [done|]. intros n Hn Hd%Z.mod_divide; [|lia].
  pose proof (forall_below_spec _ _ _ H n ltac:(lia)) as Hc. cbv beta in Hc. rewrite Hd in Hc. done.
Qed.
Lemma prime_5 : Z.prime 5.
Proof. apply prime_by_check; [done|vm_compute; done]. Qed.
Lemma prime_17 : Z.prime 17.
Proof. apply prime_by_check; [done|vm_compute; done]. Qed.
Lemma prime_257 : Z.prime 257.
Proof. apply prime_by_check; [done|vm_compute; done]. Qed.

(** * Laws *)

Section laws.
Context (T : GfTables) (HT : tables_ok T = true).

(** [gexp k] is the k-th power of the generator. *)
Definition gexp (k : Z) : Z := antilog T (k mod ORDER).

Lemma tables_parts :
  (forall i, 0 <= i < ORDER -> antilog_entry_ok T i = true) /\
  (forall a, 1 <= a < 65536 -> log_entry_ok T a = true) /\
  (forall i, 0 <= i < 16 -> low_entry_ok T i = true) /\ antilog T ORDER = 1.
Proof using HT.
  pose proof HT as H. unfold tables_ok in H. rewrite !andb_true_iff in H.
  destruct H as [[[H1 H2] H3] H4]. apply Z.eqb_eq in H4. split_and!; [| | |done].
  - intros i Hi. apply (forall_below_spec _ _ _ H1). unfold ORDER in *. lia.
  - intros i Hi. apply (forall_below_spec _ _ _ H2). unfold ORDER in *. lia.
  - intros i Hi. apply (forall_below_spec _ _ _ H3). lia.
Qed.

Lemma gexp_mod k : gexp (k mod ORDER) = gexp k.
Proof. unfold gexp. rewrite Z.mod_mod by done. done. Qed.

Lemma antilog_gexp i : 0 <= i <= ORDER -> antilog T i = gexp i.
Proof using HT.
  intros Hi. unfold gexp. destruct (decide (i = ORDER)) as [->|].
  - rewrite Z.mod_same by done. destruct tables_parts as (_ & _ & H3 & ->).
    specialize (H3 0 ltac:(lia)). apply Z.eqb_eq in H3. done.
  - rewrite Z.mod_small by lia. done.
Qed.

Lemma antilog_ok i : 0 <= i < ORDER ->
  log T (gexp i) = i /\ gexp (i + 1) = xtime (gexp i) /\ 0 < gexp i < 65536.
Proof using HT.
  intros Hi. pose proof (proj1 tables_parts i Hi) as H. unfold antilog_entry_ok in H.
  rewrite !andb_true_iff in H. rewrite <- !antilog_gexp by lia. lia.
Qed.

Lemma gexp_range k : 0 < gexp k < 65536.
Proof using HT. rewrite <- gexp_mod. apply antilog_ok, mod_ORDER. Qed.
Lemma log_gexp k : log T (gexp k) = k mod ORDER.
Proof using HT. rewrite <- gexp_mod. apply antilog_ok, mod_ORDER. Qed.
Lemma gexp_low i : 0 <= i < 16 -> gexp i = 2 ^ i.
Proof using HT.
  intros Hi. rewrite <- antilog_gexp by (unfold ORDER; lia).
  apply Z.eqb_eq. by apply tables_parts.
Qed.
Lemma gexp_0 : gexp 0 = 1.
Proof using HT. by apply (gexp_low 0). Qed.

Lemma log_ok a : 0 < a < 65536 -> 0 <= log T a < ORDER /\ gexp (log T a) = a.
Proof using HT.
  intros Ha. destruct tables_parts as (_ & H & _). specialize (H a ltac:(lia)).
  unfold log_entry_ok in H. rewrite !andb_true_iff in H. rewrite <- antilog_gexp; lia.
Qed.

(** Two exponents name the same element exactly when they agree modulo 65535. *)
Lemma gexp_inj j k : gexp j = gexp k -> j mod ORDER = k mod ORDER.
Proof using HT. intros H. rewrite <- (log_gexp j), <- (log_gexp k). by rewrite H. Qed.

Lemma gexp_succ k : gexp (k + 1) = xtime (gexp k).
Proof using HT.
  rewrite <- (gexp_mod k). destruct (antilog_ok _ (mod_ORDER k)) as (_ & <- & _).
  rewrite <- gexp_mod, Z.add_mod by done. rewrite <- (gexp_mod (k mod ORDER + 1)).
  rewrite (Z.add_mod (k mod ORDER)), Z.mod_mod by done. done.
Qed.

Lemma u16_cases a : u16 a -> a = 0 \/ exists k, 0 <= k < ORDER /\ a = gexp k.
Proof using HT.
  intros Ha. destruct (decide (a = 0)) as [|Hn]; [by left|right].
  destruct (log_ok a) as [Hl Ha']; [unfold u16 in Ha; lia|]. eauto.
Qed.

Lemma mul_gexp i j : mul T (gexp i) (gexp j) = gexp (i + j).
Proof using HT.
  unfold mul. pose proof (gexp_range i). pose proof (gexp_range j).
  rewrite (proj2 (Z.eqb_neq _ _)), (proj2 (Z.eqb_neq _ _)) by lia. cbn [orb].
  rewrite !log_gexp. pose proof (mod_ORDER i). pose proof (mod_ORDER j).
  rewrite <- (gexp_mod (i + j)), Z.add_mod by done. rewrite gexp_mod.
  destruct (Z.leb_spec ORDER (i mod ORDER + j mod ORDER)); [|by rewrite antilog_gexp by lia].
  rewrite antilog_gexp by lia. rewrite <- gexp_mod. rewrite <- (Z_mod_plus_full _ 1).
  rewrite Z.mul_1_l, Z.sub_add. apply gexp_mod.
Qed.

Lemma mul_0_l a : mul T 0 a = 0.
Proof. done. Qed.
Lemma mul_0_r a : mul T a 0 = 0.
Proof. unfold mul. rewrite Z.eqb_refl, orb_true_r. done. Qed.
Lemma mul_comm a b : mul T a b = mul T b a.
Proof. unfold mul. rewrite orb_comm, Z.add_comm. done. Qed.

Lemma mul_1_l a : u16 a -> mul T 1 a = a.
Proof using HT.
  intros [->|(k & _ & ->)]%u16_cases; [apply mul_0_r|]. rewrite <- gexp_0, mul_gexp. done.
Qed.
Lemma mul_assoc a b c : u16 a -> u16 b -> u16 c -> mul T a (mul T b c) = mul T (mul T a b) c.
Proof using HT.
  intros [->|(i & _ & ->)]%u16_cases [->|(j & _ & ->)]%u16_cases [->|(k & _ & ->)]%u16_cases;
    rewrite ?mul_gexp, ?mul_0_r, ?mul_0_l, ?mul_gexp, ?mul_0_r, ?mul_0_l; try done.
  by rewrite Z.add_assoc.
Qed.

Lemma inv_spec a : u16 a -> a <> 0 ->
  exists b, (forall E, inv T (E := E) a = Ok b) /\ u16 b /\ mul T b a = 1.
Proof using HT.
  intros [->|(k & Hk & ->)]%u16_cases Hn; [done|]. exists (gexp (ORDER - k)). split_and!.
  - intros E. unfold inv. rewrite (proj2 (Z.eqb_neq _ _)) by done. rewrite log_gexp.
    rewrite Z.mod_small by lia. rewrite antilog_gexp by lia. done.
  - pose proof (gexp_range (ORDER - k)). unfold u16. lia.
  - rewrite mul_gexp, Z.sub_add, <- gexp_mod. apply gexp_0.
Qed.

(** Powers *)
Lemma pow_gexp k e : 0 <= e -> pow T (gexp k) e = gexp (k * e).
Proof using HT.
  intros He. unfold pow. destruct (Z.eqb_spec e 0) as [->|].
  { rewrite Z.mul_0_r. symmetry. apply gexp_0. }
  pose proof (gexp_range k). rewrite (proj2 (Z.eqb_neq _ _)) by lia. rewrite log_gexp.
  rewrite Zmult_mod_idemp_l. pose proof (mod_ORDER (k * e)). rewrite antilog_gexp by lia.
  apply gexp_mod.
Qed.
Lemma pow_0 a : pow T a 0 = 1.
Proof. done. Qed.
Lemma pow_0_l e : 0 < e -> pow T 0 e = 0.
Proof. intros. unfold pow. rewrite (proj2 (Z.eqb_neq _ _)) by lia. done. Qed.
Lemma pow_succ a e : u16 a -> 0 <= e -> pow T a (e + 1) = mul T a (pow T a e).
Proof using HT.
  intros [->|(k & _ & ->)]%u16_cases He; [rewrite pow_0_l by lia; done|].
  rewrite !pow_gexp, mul_gexp by lia. f_equal. lia.
Qed.

(** Multiplication by the generator is linear. *)
Lemma xtime_spec a : xtime a = Z.lxor (Z.shiftl a 1) (if Z.testbit a 15 then PRIMITIVE_POLY else 0).
Proof.
  unfold xtime. replace (Z.land (Z.shiftl a 1) 65536) with (if Z.testbit a 15 then 65536 else 0).
  - destruct (Z.testbit a 15); [done|]. rewrite Z.lxor_0_r. done.
  - apply Z.bits_inj'. intros i Hi. rewrite Z.land_spec, Z.shiftl_spec by lia.
    change 65536 with (2 ^ 16). rewrite Z.pow2_bits_eqb by lia.
    destruct (Z.eqb_spec 16 i) as [<-|Hne].
    + change (16 - 1) with 15. destruct (Z.testbit a 15); done.
    + rewrite andb_false_r. destruct (Z.testbit a 15); [|apply Z.bits_0].
      rewrite Z.pow2_bits_eqb by lia. by apply Z.eqb_neq.
Qed.
Lemma xtime_lxor a b : xtime (Z.lxor a b) = Z.lxor (xtime a) (xtime b).
Proof.
  rewrite !xtime_spec, Z.shiftl_lxor, Z.lxor_spec, (lxor_exchange (Z.shiftl a 1)). f_equal.
  destruct (Z.testbit a 15), (Z.testbit b 15); done.
Qed.

Lemma mul_gexp_succ k b : u16 b -> mul T (gexp (k + 1)) b = xtime (mul T (gexp k) b).
Proof using HT.
  intros [->|(j & _ & ->)]%u16_cases; [rewrite !mul_0_r; done|].
  rewrite !mul_gexp, <- gexp_succ. f_equal. lia.
Qed.
Lemma mul_lxor_r a b c : u16 a -> u16 b -> u16 c ->
  mul T a (Z.lxor b c) = Z.lxor (mul T a b) (mul T a c).
Proof using HT.
  intros [->|(k & Hk & ->)]%u16_cases Hb Hc; [done|].
  destruct Hk as [Hk _]. revert k Hk. apply natlike_ind.
  - rewrite gexp_0, !mul_1_l by auto with gf. done.
  - intros k _ IH. unfold Z.succ. rewrite !mul_gexp_succ by auto with gf.
    rewrite IH. apply xtime_lxor.
Qed.

Lemma gexp_u16 k : u16 (gexp k).
Proof using HT. pose proof (gexp_range k). unfold u16. lia. Qed.
Lemma mul_range a b : u16 a -> u16 b -> u16 (mul T a b).
Proof using HT.
  intros [->|(i & _ & ->)]%u16_cases [->|(j & _ & ->)]%u16_cases;
    rewrite ?mul_gexp, ?mul_0_r, ?mul_0_l; auto using gexp_u16 with gf.
Qed.
Lemma pow_range a e : u16 a -> 0 <= e -> u16 (pow T a e).
Proof using HT.
  intros [->|(k & _ & ->)]%u16_cases He; [|rewrite pow_gexp by done; apply gexp_u16].
  unfold pow. destruct (e =? 0); auto with gf.
Qed.

#[local] Instance gf16_ops : GaloisField :=
  {| gf_elem := u16; gf_mul := mul T; gf_inv := @inv T; gf_pow := pow T |}.

#[local] Instance gf16_laws : GaloisFieldLaws gf16_ops.
Proof using HT.
  split.
  - exact u16_0.
  - exact u16_1.
  - exact u16_lxor.
  - exact mul_range.
  - exact mul_comm.
  - exact mul_assoc.
  - exact mul_0_l.
  - exact mul_1_l.
  - exact mul_lxor_r.
  - exact inv_spec.
  - exact pow_range.
  - exact pow_0.
  - exact pow_succ.
Qed.

(** ** Multiplication is polynomial multiplication modulo the PAR2 polynomial *)

Lemma poly_reduce_shift i w :
  poly_reduce (S i) (Z.shiftl w 1) = xtime (poly_reduce i w).
Proof.
  revert w. induction i as [|i IH]; intros w.
  - cbn [poly_reduce]. unfold poly_step. rewrite xtime_spec, Z.shiftl_spec by lia. done.
  - change (poly_reduce (S (S i)) (Z.shiftl w 1)) with
      (poly_reduce (S i) (poly_step (S i) (Z.shiftl w 1))).
    change (poly_reduce (S i) w) with (poly_reduce i (poly_step i w)).
    rewrite <- IH. f_equal. unfold poly_step. rewrite Z.shiftl_lxor, Z.shiftl_spec by lia.
    replace (16 + Z.of_nat (S i) - 1) with (16 + Z.of_nat i) by lia. f_equal.
    destruct (Z.testbit w (16 + Z.of_nat i)); [|done].
    rewrite Z.shiftl_shiftl by lia. f_equal. lia.
Qed.

Lemma poly_reduce_high k i w : 0 <= w < 2 ^ (16 + Z.of_nat i) -> poly_reduce (k + i) w = poly_reduce i w.
Proof.
  intros Hw. induction k as [|k IH]; [done|]. cbn [Nat.add poly_reduce]. rewrite <- IH. f_equal.
  unfold poly_step. rewrite (testbit_high w (16 + Z.of_nat i)) by lia. apply Z.lxor_0_r.
Qed.

Lemma poly_reduce_lxor i v w : poly_reduce i (Z.lxor v w) = Z.lxor (poly_reduce i v) (poly_reduce i w).
Proof.
  revert v w. induction i as [|i IH]; intros v w; [done|]. cbn [poly_reduce]. rewrite <- IH. f_equal.
  unfold poly_step. rewrite Z.lxor_spec, lxor_exchange. f_equal.
  destruct (Z.testbit v _), (Z.testbit w _); cbn [xorb]; rewrite ?Z.lxor_nilpotent, ?Z.lxor_0_r; done.
Qed.
Lemma poly_reduce_xsum i n f : poly_reduce i (xsum n f) = xsum n (fun j => poly_reduce i (f j)).
Proof.
  induction n as [|n IH]; cbn [xsum]; [|by rewrite poly_reduce_lxor, IH].
  induction i as [|i IH]; [done|]. cbn [poly_reduce]. unfold poly_step. rewrite Z.bits_0. apply IH.
Qed.

Lemma poly_reduce_monomial i b : u16 b -> (i <= 15)%nat ->
  poly_reduce 15 (Z.shiftl b (Z.of_nat i)) = mul T (2 ^ Z.of_nat i) b.
Proof using HT.
  intros Hb Hi. replace 15%nat with ((15 - i) + i)%nat by lia. rewrite poly_reduce_high.
  - rewrite <- gexp_low by lia. clear Hi. induction i as [|i IH].
    + change (Z.of_nat 0) with 0. rewrite gexp_0, mul_1_l, Z.shiftl_0_r by done. done.
    + replace (Z.of_nat (S i)) with (Z.of_nat i + 1) by lia.
      rewrite <- Z.shiftl_shiftl, poly_reduce_shift, IH by lia. rewrite mul_gexp_succ by done. done.
  - unfold u16 in Hb. rewrite Z.shiftl_mul_pow2, Z.pow_add_r by lia.
    pose proof (Z.pow_pos_nonneg 2 (Z.of_nat i)). nia.
Qed.

Lemma mul_poly a b : u16 a -> u16 b -> mul T a b = poly_mul a b.
Proof using HT.
  intros Ha Hb. unfold poly_mul. rewrite poly_reduce_xsum.
  rewrite (xsum_bits 16 a) at 1 by (unfold u16 in Ha; lia).
  rewrite mul_comm. change (mul T) with (gf_mul (GaloisField := gf16_ops)). rewrite gf_mul_xsum.
  2: done. 2: { intros i Hi. cbn [gf_elem gf16_ops]. destruct (Z.testbit a _); auto with gf.
    rewrite <- gexp_low by lia. apply gexp_u16. }
  apply xsum_ext. intros i Hi. change (gf_mul b) with (mul T b). rewrite mul_comm.
  destruct (Z.testbit a (Z.of_nat i)); [symmetry; apply poly_reduce_monomial; [done|lia]|].
  rewrite mul_0_l. symmetry. cbn. done.
Qed.

(** ** Slice constants *)

Definition is_slice_exponent (e : Z) : Prop :=
  1 <= e < ORDER /\ is_divisible_by_suborder_factor e = false.

(** How many valid exponents there are from [exp] on, in [todo] steps. *)
Fixpoint valid_exponents (todo : nat) (exp : Z) : Z :=
  match todo with
  | O => 0
  | S todo =>
      (if is_divisible_by_suborder_factor exp then 0 else 1) + valid_exponents todo (exp + 1)
  end.

Lemma valid_exponents_nonneg todo exp : 0 <= valid_exponents todo exp.
Proof.
  revert exp. induction todo as [|todo IH]; intros exp; cbn [valid_exponents]; [lia|].
  specialize (IH (exp + 1)). destruct (is_divisible_by_suborder_factor exp); lia.
Qed.

Lemma slice_exponent_count : valid_exponents (Z.to_nat (ORDER - 1)) 1 = 32768.
Proof. vm_compute. reflexivity. Qed.

(** The loop from [exp] finds its constants when enough valid exponents are
    left and fails its assertion otherwise. *)
Lemma slice_constants_loop_spec {E} todo remaining exp :
  1 <= exp -> exp + Z.of_nat todo = ORDER ->
  let o := input_slice_constants_loop (E := E) T (S todo) remaining exp in
  if remaining <=? valid_exponents todo exp then
    exists es, o = Ok (gexp <$> es) /\ zlen es = Z.max 0 remaining /\ StronglySorted Z.lt es /\
      Forall (fun e => is_slice_exponent e /\ exp <= e) es
  else o = Panic.
Proof using HT.
  revert remaining exp. induction todo as [|todo IH]; intros remaining exp Hexp Hsum.
  - cbn [valid_exponents input_slice_constants_loop]. destruct (Z.leb_spec remaining 0).
    { exists []. rewrite zlen_nil. split_and!; [done|lia|constructor|constructor]. }
    rewrite (proj2 (Z.leb_gt (exp + 1) ORDER)) by lia.
    destruct (is_divisible_by_suborder_factor exp); done.
  - cbn zeta. change (input_slice_constants_loop T (S (S todo)) remaining exp) with
      (if remaining <=? 0 then Ok (E := E) []
       else if is_divisible_by_suborder_factor exp
       then if exp + 1 <=? ORDER then input_slice_constants_loop T (S todo) remaining (exp + 1) else Panic
       else if exp + 1 <=? ORDER then
         rest ← input_slice_constants_loop T (S todo) (remaining - 1) (exp + 1);
         Ok (antilog T exp :: rest) else Panic).
    pose proof (valid_exponents_nonneg (S todo) exp) as Hnn.
    destruct (Z.leb_spec remaining 0) as [Hr|Hr].
    { rewrite (proj2 (Z.leb_le _ _)) by lia. exists []. rewrite zlen_nil. split_and!; [done|lia|constructor|constructor]. }
    rewrite (proj2 (Z.leb_le (exp + 1) ORDER)) by lia. cbn [valid_exponents] in *.
    destruct (is_divisible_by_suborder_factor exp) eqn:Hd.
    + specialize (IH remaining (exp + 1) ltac:(lia) ltac:(lia)). rewrite Z.add_0_l in *.
      destruct (remaining <=? _); [|done]. destruct IH as (es & -> & Hlen & Hsort & Hes).
      exists es. split_and!; [done..|]. eapply Forall_impl; [|exact Hes]. cbn. intros e [? ?]. split; [done|lia].
    + specialize (IH (remaining - 1) (exp + 1) ltac:(lia) ltac:(lia)).
      replace (remaining <=? 1 + valid_exponents todo (exp + 1))
        with (remaining - 1 <=? valid_exponents todo (exp + 1)) by lia.
      destruct (remaining - 1 <=? _); [|by rewrite IH].
      destruct IH as (es & -> & Hlen & Hsort & Hes). exists (exp :: es). split_and!.
      * cbn [mbind outcome_bind fmap list_fmap]. rewrite antilog_gexp by lia. done.
      * rewrite zlen_cons. lia.
      * constructor; [done|]. eapply Forall_impl; [|exact Hes]. cbn. intros e [? ?]. lia.
      * constructor; [split; [split; [lia|done]|lia]|].
        eapply Forall_impl; [|exact Hes]. cbn. intros e [? ?]. split; [done|lia].
Qed.

Lemma slice_exponent_order e k :
  is_slice_exponent e -> 0 <= k -> (pow T (gexp e) k = 1 <-> k mod ORDER = 0).
Proof using HT.
  intros [He Hd] Hk. rewrite pow_gexp by done.
  unfold is_divisible_by_suborder_factor in Hd. rewrite !orb_false_iff in Hd.
  destruct Hd as [[[H3 H5] H17] H257]. rewrite Z.eqb_neq in *.
  split; intros H.
  - rewrite <- gexp_0 in H. apply gexp_inj in H. change (0 mod ORDER) with 0 in H.
    assert (Hp : forall p, ORDER mod p = 0 -> Z.prime p -> e mod p <> 0 -> k mod p = 0).
    { intros p Hop Hp Hep. pose proof (Z.prime_ge_2 p Hp). apply Z.mod_divide; [lia|].
      apply Z.mod_divide in Hop; [|lia]. apply Z.mod_divide in H; [|done].
      destruct (proj1 (Z.divide_prime_mul e k p Hp) ltac:(etrans; [exact Hop|exact H])) as [Hpe|Hpk]; [|done].
      apply Z.mod_divide in Hpe; [done|lia]. }
    pose proof (Hp 3 eq_refl Z.prime_3 H3). pose proof (Hp 5 eq_refl prime_5 H5).
    pose proof (Hp 17 eq_refl prime_17 H17). pose proof (Hp 257 eq_refl prime_257 H257).
    unfold ORDER. clear -H0 H1 H2 H4. dlia.
  - rewrite <- gexp_mod, <- Zmult_mod_idemp_r, H, Z.mul_0_r. change (0 mod ORDER) with 0. apply gexp_0.
Qed.

Lemma pow_from_log_spec a e : u16 a -> a <> 0 -> 0 <= e -> pow_from_log T (log T a) e = pow T a e.
Proof using HT.
  intros [->|(k & Hk & ->)]%u16_cases Hn He; [done|].
  rewrite pow_gexp, log_gexp by done. unfold pow_from_log.
  pose proof (mod_ORDER (k mod ORDER * e)). rewrite antilog_gexp by lia.
  rewrite Zmult_mod_idemp_l. apply gexp_mod.
Qed.

Lemma slice_constants_spec {E} (count : Z) :
  0 <= count ->
  if count <=? 32768 then
    exists constants, input_slice_constants (E := E) T count = Ok constants /\
      zlen constants = count /\ NoDup constants /\
      Forall (fun c => u16 c /\ c <> 0 /\
                forall k, 0 <= k -> (pow T c k = 1 <-> k mod ORDER = 0)) constants
  else input_slice_constants (E := E) T count = Panic.
Proof using HT.
  intros Hc. unfold input_slice_constants.
  assert (Hn : forall z, 1 <= z -> Z.to_nat z = S (Z.to_nat (z - 1)) /\ 1 + Z.of_nat (Z.to_nat (z - 1)) = z) by lia.
  destruct (Hn ORDER ltac:(done)) as [-> Hsum].
  pose proof (slice_constants_loop_spec (E := E) _ count 1 (Z.le_refl 1) Hsum) as H.
  cbv zeta in H. revert H. rewrite slice_exponent_count.
  destruct (count <=? 32768); [|done]. intros (es & -> & Hlen & Hsort & Hes).
  exists (gexp <$> es). split_and!; [done| | |].
  - unfold zlen in *. rewrite length_fmap. lia.
  - clear Hlen. induction Hsort as [|e es Hsort IH He]; [constructor|].
    apply Forall_cons_1 in Hes as [[[He1 _] _] Hes]. cbn. constructor; [|by apply IH].
    intros (e' & Heq & Hin)%list_elem_of_fmap. apply gexp_inj in Heq.
    rewrite Stdlib.Lists.List.Forall_forall in He, Hes. apply list_elem_of_In in Hin.
    specialize (He e' Hin). destruct (Hes e' Hin) as [[He' _] _].
    rewrite !Z.mod_small in Heq by lia. lia.
  - apply Stdlib.Lists.List.Forall_forall. intros c (e & -> & Hin%list_elem_of_In)%list_elem_of_In%list_elem_of_fmap.
    rewrite Stdlib.Lists.List.Forall_forall in Hes. destruct (Hes e Hin) as [He _].
    split_and!; [by apply gexp_u16|pose proof (gexp_range e); lia|].
    intros k Hk. by apply slice_exponent_order.
Qed.
End laws.

(** The field the matrix code computes in. *)
#[export] Instance gf16 : GaloisField := gf16_ops TABLES.
#[export] Instance gf16_field : GaloisFieldLaws gf16 := gf16_laws TABLES tables_checked.

(** * Properties *)

(** C23 (multiplication): the product read from the logarithm tables is the
    product of polynomials over GF(2) reduced modulo
    x^16 + x^12 + x^3 + x + 1. *)
Theorem mul_is_polynomial_product (a b : Z) :
  u16 a -> u16 b -> mul TABLES a b = poly_mul a b.
Proof. apply mul_poly, tables_checked. Qed.

Lemma mul_is_polynomial_product_witness : mul TABLES 0x1234 0xABCD = poly_mul 0x1234 0xABCD.
Proof. apply mul_is_polynomial_product; unfold u16; lia. Defined.

(** C24 (field laws): exclusive or, [mul] and [inv] make the 65,536 words a
    field; [pow] is iterated multiplication, zero to the zero being one, and
    [pow_from_log] computes it from a logarithm looked up before. *)
Theorem gf16_is_a_field (a b c e : Z) :
  u16 a -> u16 b -> u16 c -> 0 <= e ->
  mul TABLES a (mul TABLES b c) = mul TABLES (mul TABLES a b) c /\
  mul TABLES a b = mul TABLES b a /\ mul TABLES 1 a = a /\
  mul TABLES a (add b c) = add (mul TABLES a b) (mul TABLES a c) /\
  (forall E, if a =? 0 then inv (E := E) TABLES a = Panic
             else exists i, inv (E := E) TABLES a = Ok i /\ u16 i /\ mul TABLES i a = 1) /\
  pow TABLES a 0 = 1 /\ pow TABLES a (e + 1) = mul TABLES a (pow TABLES a e) /\
  (a <> 0 -> pow_from_log TABLES (log TABLES a) e = pow TABLES a e).
Proof.
  pose proof tables_checked as HT. intros Ha Hb Hc He. split_and!.
  - by apply mul_assoc.
  - apply mul_comm.
  - by apply mul_1_l.
  - by apply mul_lxor_r.
  - intros E. destruct (Z.eqb_spec a 0) as [->|Hn]; [done|].
    destruct (inv_spec _ HT a Ha Hn) as (i & Hi & ? & ?). eauto.
  - apply pow_0.
  - by apply pow_succ.
  - intros Hn. by apply pow_from_log_spec.
Qed.

Lemma gf16_is_a_field_witness :
  mul TABLES 2 (mul TABLES 0x8000 7) = mul TABLES (mul TABLES 2 0x8000) 7.
Proof.
  refine (proj1 (gf16_is_a_field 2 0x8000 7 0 _ _ _ _)); unfold u16; lia.
Defined.

(** Slice constants: for up to 32,768 input slices the assignment
    sequence yields that many distinct nonzero constants, each of
    multiplicative order exactly 65,535; for more it fails its assertion. *)
Theorem input_slice_constants_spec {E} (count : Z) :
  0 <= count ->
  if count <=? 32768 then
    exists constants, input_slice_constants (E := E) TABLES count = Ok constants /\
      zlen constants = count /\ NoDup constants /\
      Forall (fun c => u16 c /\ c <> 0 /\
                forall k, 0 <= k -> (pow TABLES c k = 1 <-> k mod ORDER = 0)) constants
  else input_slice_constants (E := E) TABLES count = Panic.
Proof. apply slice_constants_spec, tables_checked. Qed.

Lemma input_slice_constants_spec_witness :
  exists constants, input_slice_constants (E := unit) TABLES 3 = Ok constants /\ zlen constants = 3 /\
    NoDup constants /\ Forall (fun c => u16 c /\ c <> 0 /\
                forall k, 0 <= k -> (pow TABLES c k = 1 <-> k mod ORDER = 0)) constants.
Proof.
  pose proof (input_slice_constants_spec (E := unit) 3 ltac:(lia)) as H.
  change (3 <=? 32768) with true in H. cbv iota in H. exact H.
Defined.
