(* ===== verification/RepairMatrix.v ===== *)
(** The repair-coefficient matrix of [crates/reedsolomon-rs/src/matrix.rs]:
    Vandermonde rows of the recovery exponents, Gauss-Jordan inversion with
    row pivoting, and the product that gives each missing slice as a
    combination of the slices and recovery blocks that survived.

    A [Vec<u16>] is a list, an index out of range panics, and indices are
    [nat]. The field is the interface [GaloisField]; [Gf16.gf16] is the
    instance the code uses. *)
From S2P Require Import Prelude.
From S2P Require Import GaloisField.
From S2P Require Import GaloisField.

Record RepairCoefficients := mk_coefficients { rows : nat; cols : nat; data : list Z }.
Record SingularMatrix := mk_singular { bad_row : option nat }.

Definition row {E} (c : RepairCoefficients) (r : nat) : outcome E (list Z) :=
  let start := (r * cols c)%nat in
  if (start + cols c <=? length (data c))%nat then Ok (take (cols c) (drop start (data c))) else Panic.
Definition get {E} (c : RepairCoefficients) (r col : nat) : outcome E Z :=
  get_at (data c) (r * cols c + col).

Section operations.
Context {F : GaloisField}.
#[local] Abbreviation result := (outcome SingularMatrix).

(** [(col..n).find(|&r| a[r * n + col] != 0)]. *)
Fixpoint find_pivot (a : list Z) (n col r todo : nat) : result (option nat) :=
  match todo with
  | O => Ok None
  | S todo =>
      v ← get_at a (r * n + col);
      if v =? 0 then find_pivot a n col (S r) todo else Ok (Some r)
  end.

(** The loops of the inversion change [a] and [inv] in step. *)
Definition on_both (op : list Z -> result (list Z)) (s : list Z * list Z)
    : result (list Z * list Z) :=
  a ← op s.1; inv ← op s.2; Ok (a, inv).

Definition swap_step (n col piv k : nat) (m : list Z) : result (list Z) :=
  swap_at m (col * n + k) (piv * n + k).
Definition scale_step (n col : nat) (pivot_inv : Z) (k : nat) (m : list Z) : result (list Z) :=
  v ← get_at m (col * n + k); set_at m (col * n + k) (gf_mul v pivot_inv).
Definition add_step (n row col : nat) (f : Z) (k : nat) (m : list Z) : result (list Z) :=
  v ← get_at m (row * n + k); p ← get_at m (col * n + k);
  set_at m (row * n + k) (Z.lxor v (gf_mul f p)).

Definition eliminate_row (n col row : nat) (s : list Z * list Z) : result (list Z * list Z) :=
  if (row =? col)%nat then Ok s
  else
    f ← get_at s.1 (row * n + col);
    if f =? 0 then Ok s else for_range 0 n (fun k => on_both (add_step n row col f k)) s.

Definition eliminate_column (n col : nat) (s : list Z * list Z) : result (list Z * list Z) :=
  pivot ← find_pivot s.1 n col col (n - col);
  match pivot with
  | None => Err (mk_singular (Some col))
  | Some piv =>
      s ← (if (piv =? col)%nat then Ok s
           else for_range 0 n (fun k => on_both (swap_step n col piv k)) s);
      v ← get_at s.1 (col * n + col);
      pivot_inv ← gf_inv v;
      s ← for_range 0 n (fun k => on_both (scale_step n col pivot_inv k)) s;
      for_range 0 n (eliminate_row n col) s
  end.

Definition gf_invert (mat : list Z) (n : nat) : result (list Z) :=
  inv ← for_range 0 n (fun i inv => set_at inv (i * n + i) 1) (replicate (n * n) 0);
  s ← for_range 0 n (eliminate_column n) (mat, inv);
  Ok s.2.

Definition gf_matmul (a b : list Z) (r k c : nat) : result (list Z) :=
  for_range 0 r (fun i out =>
    for_range 0 k (fun x out =>
      av ← get_at a (i * k + x);
      if av =? 0 then Ok out
      else for_range 0 c (fun j out =>
             v ← get_at out (i * c + j); p ← get_at b (x * c + j);
             set_at out (i * c + j) (Z.lxor v (gf_mul av p))) out) out)
    (replicate (r * c) 0).

(** One row of [m]: [m[i * width + j] = pow(constants[idx_j], exp)]. *)
Fixpoint fill_powers (width i j : nat) (indices : list nat) (exp : Z) (constants m : list Z)
    : result (list Z) :=
  match indices with
  | [] => Ok m
  | idx :: indices =>
      c ← get_at constants idx;
      m ← set_at m (i * width + j) (gf_pow c exp);
      fill_powers width i (S j) indices exp constants m
  end.

Fixpoint fill_sub (n i : nat) (missing_indices : list nat) (exps constants sub : list Z)
    : result (list Z) :=
  match exps with
  | [] => Ok sub
  | exp :: exps =>
      sub ← fill_powers n i 0 missing_indices exp constants sub;
      fill_sub n (S i) missing_indices exps constants sub
  end.

Fixpoint fill_pre (n_src n_avail i : nat) (available_indices : list nat)
    (exps constants pre : list Z) : result (list Z) :=
  match exps with
  | [] => Ok pre
  | exp :: exps =>
      pre ← fill_powers n_src i 0 available_indices exp constants pre;
      pre ← set_at pre (i * n_src + n_avail + i) 1;
      fill_pre n_src n_avail (S i) available_indices exps constants pre
  end.

Definition build_repair_matrix (available_indices missing_indices : list nat)
    (recovery_exponents constants : list Z) : result RepairCoefficients :=
  let n := length missing_indices in
  if negb (length recovery_exponents =? n)%nat then Err (mk_singular None)
  else
    let n_avail := length available_indices in
    let n_src := (n_avail + n)%nat in
    if (n =? 0)%nat then Ok (mk_coefficients 0 n_src [])
    else
      sub ← fill_sub n 0 missing_indices recovery_exponents constants (replicate (n * n) 0);
      pre ← fill_pre n_src n_avail 0 available_indices recovery_exponents constants
              (replicate (n * n_src) 0);
      inv ← gf_invert sub n;
      data ← gf_matmul inv pre n n n_src;
      Ok (mk_coefficients n n_src data).
End operations.

(** * Arrays as matrices *)

(** [m] holds the [r] by [c] matrix [M], row by row. *)
Definition rep (m : list Z) (r c : nat) (M : matrix) : Prop :=
  length m = (r * c)%nat /\ forall i j, (i < r)%nat -> (j < c)%nat -> m !! (i * c + j)%nat = Some (M i j).

Lemma index_inj c i j i' j' :
  (j < c)%nat -> (j' < c)%nat -> (i * c + j = i' * c + j')%nat -> i = i' /\ j = j'.
Proof. intros. assert (i = i') by nia. subst. lia. Qed.

Lemma rep_same m r c M N : rep m r c M -> same r c M N -> rep m r c N.
Proof. intros [Hl Hm] H. split; [done|]. intros i j Hi Hj. rewrite <- H by done. auto. Qed.

Lemma rep_get {E} m r c M i j : rep m r c M -> (i < r)%nat -> (j < c)%nat ->
  get_at (E := E) m (i * c + j) = Ok (M i j).
Proof. intros [_ Hm] Hi Hj. unfold get_at. rewrite Hm by done. done. Qed.

Definition upd (M : matrix) (i j : nat) (v : Z) : matrix :=
  fun i' j' => if decide (i' = i /\ j' = j) then v else M i' j'.

Lemma rep_set {E} m r c M i j v : rep m r c M -> (i < r)%nat -> (j < c)%nat ->
  spec (set_at (E := E) m (i * c + j) v) (fun m' => rep m' r c (upd M i j v)) (fun _ => False).
Proof.
  intros [Hl Hm] Hi Hj. unfold set_at. rewrite (proj2 (Nat.ltb_lt _ _)) by nia.
  split; [by rewrite length_insert|]. intros i' j' Hi' Hj'. unfold upd.
  destruct (decide (i' = i /\ j' = j)) as [[-> ->]|Hne].
  - apply list_lookup_insert_eq. nia.
  - rewrite list_lookup_insert_ne; [auto|]. intros Heq.
    destruct (index_inj c i j i' j' Hj Hj' Heq). naive_solver.
Qed.

Lemma rep_zero r c : rep (replicate (r * c) 0) r c (fun _ _ => 0).
Proof. split; [apply length_replicate|]. intros. apply lookup_replicate_2. nia. Qed.

(** A loop that rewrites one row, one column after the other. *)
Definition row_upto (M : matrix) (row k : nat) (g : nat -> Z) : matrix :=
  fun i j => if decide (i = row /\ (j < k)%nat) then g j else M i j.

Lemma spec_row_loop {E} (body : nat -> list Z -> outcome E (list Z)) m r c M row g lo n F :
  rep m r c (row_upto M row lo g) -> (row < r)%nat -> (lo + n <= c)%nat ->
  (forall k m', (lo <= k < lo + n)%nat -> rep m' r c (row_upto M row k g) ->
     body k m' = set_at m' (row * c + k) (g k)) ->
  spec (for_range lo n body m) (fun m' => rep m' r c (row_upto M row (lo + n) g)) F.
Proof.
  intros Hm Hr Hn Hbody.
  apply (spec_for_range (fun k m' => rep m' r c (row_upto M row k g))); [done|].
  intros k m' Hk Hrep. rewrite (Hbody k m') by done.
  eapply spec_never; [apply (rep_set _ r c); [exact Hrep|done|lia]|].
  intros m'' H. eapply rep_same; [exact H|]. intros i j Hi Hj. unfold upd, row_upto.
  repeat case_decide; destruct_and?; subst; done || lia.
Qed.

Lemma row_upto_0 M row g i j : row_upto M row 0 g i j = M i j.
Proof. unfold row_upto. destruct decide; [lia|done]. Qed.

(** * The loops *)

Section loops.
Context {F : GaloisField} {L : GaloisFieldLaws F}.
#[local] Abbreviation result := (outcome SingularMatrix).
#[local] Abbreviation never := (fun _ : SingularMatrix => False).

Lemma spec_for_both lo n (body : nat -> list Z -> result (list Z)) s (P Q : list Z -> Prop) :
  spec (for_range lo n body s.1) P never -> spec (for_range lo n body s.2) Q never ->
  spec (for_range lo n (fun k => on_both (body k)) s) (fun s' => P s'.1 /\ Q s'.2) never.
Proof.
  revert lo s. induction n as [|n IH]; intros lo [a v]; cbn [for_range fst snd]; [done|].
  intros Ha Hv. change (on_both (body lo) (a, v)) with (a' ← body lo a; v' ← body lo v; Ok (a', v')).
  destruct (body lo a) as [a'| |]; try done. destruct (body lo v) as [v'| |]; try done.
  by apply (IH (S lo) (a', v')).
Qed.

Lemma with_row_same n M row g : same n n (row_upto M row n g) (with_row M row g).
Proof. intros i j Hi Hj. unfold row_upto, with_row. repeat case_decide; done || lia. Qed.

Lemma spec_scale n col c m M : rep m n n M -> (col < n)%nat ->
  spec (for_range 0 n (scale_step n col c) m)
    (fun m' => rep m' n n (with_row M col (fun j => gf_mul (M col j) c))) never.
Proof.
  intros Hm Hc. eapply spec_post; [|intros m' H; eapply rep_same; [exact H|apply with_row_same]].
  apply spec_row_loop; [|done|lia|].
  { eapply rep_same; [exact Hm|]. intros i j _ _. by rewrite row_upto_0. }
  intros k m' Hk Hrep. unfold scale_step. rewrite (rep_get _ _ _ _ _ _ Hrep) by lia. cbn [mbind outcome_bind].
  unfold row_upto. rewrite decide_False by lia. done.
Qed.

Lemma spec_add n row col f m M : rep m n n M -> (row < n)%nat -> (col < n)%nat -> row <> col ->
  spec (for_range 0 n (add_step n row col f) m)
    (fun m' => rep m' n n (with_row M row (fun j => Z.lxor (M row j) (gf_mul f (M col j))))) never.
Proof.
  intros Hm Hr Hc Hne. eapply spec_post; [|intros m' H; eapply rep_same; [exact H|apply with_row_same]].
  apply spec_row_loop; [|done|lia|].
  { eapply rep_same; [exact Hm|]. intros i j _ _. by rewrite row_upto_0. }
  intros k m' Hk Hrep. unfold add_step. rewrite !(rep_get _ _ _ _ _ _ Hrep) by lia. cbn [mbind outcome_bind].
  unfold row_upto. rewrite !decide_False by lia. done.
Qed.

Definition swap_upto (M : matrix) (a b k : nat) : matrix :=
  fun i j => if decide (j < k)%nat then swap_rows_of a b M i j else M i j.

Lemma spec_swap n a b m M : rep m n n M -> (a < n)%nat -> (b < n)%nat ->
  spec (for_range 0 n (swap_step n a b) m) (fun m' => rep m' n n (swap_rows_of a b M)) never.
Proof.
  intros Hm Ha Hb.
  eapply (spec_post _ (fun m' => rep m' n n (swap_upto M a b n))).
  2: { intros m' H. eapply rep_same; [exact H|]. intros i j Hi Hj. unfold swap_upto. by rewrite decide_True. }
  apply (spec_for_range (fun k m' => rep m' n n (swap_upto M a b k))).
  { eapply rep_same; [exact Hm|]. intros i j Hi Hj. unfold swap_upto. by rewrite decide_False by lia. }
  intros k m' Hk Hrep. unfold swap_step, swap_at.
  rewrite !(rep_get _ _ _ _ _ _ Hrep) by lia. cbn [mbind outcome_bind].
  eapply spec_bind; [apply (rep_set _ n n); [exact Hrep|done|lia]|]. intros m1 H1.
  eapply spec_post; [apply (rep_set _ n n); [exact H1|done|lia]|]. intros m2 H2.
  eapply rep_same; [exact H2|]. intros i j Hi Hj. unfold upd, swap_upto, swap_rows_of.
  repeat case_decide; destruct_and?; subst; done || lia.
Qed.

(** ** One column *)

(** The state before column [col]. *)
Definition elim_state (n : nat) (mat : matrix) (col : nat) (s : list Z * list Z) : Prop :=
  exists A V, rep s.1 n n A /\ rep s.2 n n V /\ reduces n mat A V /\ unit_columns n col A.

Lemma find_pivot_spec a n col M : rep a n n M -> (col < n)%nat -> forall todo r, (r + todo = n)%nat ->
  exists o, find_pivot a n col r todo = Ok o /\
    match o with
    | Some p => (r <= p < n)%nat /\ M p col <> 0
    | None => forall i, (r <= i < n)%nat -> M i col = 0
    end.
Proof.
  intros Ha Hc. induction todo as [|todo IH]; intros r Hr; cbn [find_pivot].
  { exists None. split; [done|]. lia. }
  rewrite (rep_get _ _ _ _ _ _ Ha) by lia. cbn [mbind outcome_bind].
  destruct (Z.eqb_spec (M r col) 0) as [H0|Hn].
  - destruct (IH (S r) ltac:(lia)) as (o & -> & Ho). exists o. split; [done|].
    destruct o as [p|]; [split; [lia|apply Ho]|]. intros i Hi.
    destruct (decide (i = r)) as [->|]; [done|]. apply Ho. lia.
  - exists (Some r). split; [done|]. split; [lia|done].
Qed.

End loops.

Section elimination.
Context {F : GaloisField} {L : GaloisFieldLaws F}.
#[local] Abbreviation never := (fun _ : SingularMatrix => False).

(** While column [col] is cleared, rows below [i] are done. *)
Definition clear_state (n : nat) (mat : matrix) (col i : nat) (s : list Z * list Z) : Prop :=
  exists A V, rep s.1 n n A /\ rep s.2 n n V /\ reduces n mat A V /\ unit_columns n col A /\
    A col col = 1 /\ forall i', (i' < i)%nat -> i' <> col -> A i' col = 0.

Lemma spec_row_op n mat A V s body o (upd_of : matrix -> matrix) :
  elem_matrix n n mat -> reduces n mat A V -> rep s.1 n n A -> rep s.2 n n V -> op_ok n o ->
  (forall M, elem_matrix n n M -> same n n (apply_op o M) (upd_of M)) ->
  (forall m M, rep m n n M -> spec (for_range 0 n body m) (fun m' => rep m' n n (upd_of M)) never) ->
  spec (for_range 0 n (fun k => on_both (body k)) s)
    (fun s' => rep s'.1 n n (upd_of A) /\ rep s'.2 n n (upd_of V) /\
               reduces n mat (upd_of A) (upd_of V)) never.
Proof using L.
  intros Hmat Hred HA HV Ho Hsame Hbody.
  eapply spec_post; [apply (spec_for_both 0 n body s _ _ (Hbody _ _ HA) (Hbody _ _ HV))|].
  cbn. intros s' [H1 H2]. split_and!; [done..|].
  apply (reduces_op n mat A V _ _ o); auto; apply Hsame; apply Hred.
Qed.

Lemma eliminate_row_spec n mat col row s :
  elem_matrix n n mat -> (col < n)%nat -> (row < n)%nat -> clear_state n mat col row s ->
  spec (eliminate_row n col row s) (clear_state n mat col (S row)) never.
Proof using L.
  intros Hmat Hc Hr (A & V & HA & HV & Hred & Hunit & Hpiv & Hdone). unfold eliminate_row.
  destruct (Nat.eqb_spec row col) as [->|Hne].
  { exists A, V. split_and!; try done. intros i' Hi' Hne. apply Hdone; lia. }
  rewrite (rep_get _ _ _ _ _ _ HA) by lia. cbn [mbind outcome_bind].
  assert (Hu : elem_matrix n n A) by apply Hred.
  destruct (Z.eqb_spec (A row col) 0) as [H0|Hn].
  { exists A, V. split_and!; try done. intros i' Hi' Hne'.
    destruct (decide (i' = row)) as [->|]; [done|]. apply Hdone; lia. }
  eapply spec_post.
  { apply (spec_row_op n mat A V s _ (add_op row col (A row col))
      (fun M => with_row M row (fun j => Z.lxor (M row j) (gf_mul (A row col) (M col j))))); try done.
    - apply add_op_ok; auto.
    - intros M HM. by apply apply_add.
    - intros m M HM. by apply spec_add. }
  intros s' (H1 & H2 & Hred'). eexists _, _. split; [exact H1|]. split; [exact H2|]. split; [exact Hred'|].
  split_and!.
  - apply unit_columns_with_row; [done|done|]. intros j Hj. rewrite (Hunit col j) by lia.
    unfold identity. rewrite decide_False, gf_mul_0_r by lia. apply Z.lxor_0_r.
  - unfold with_row. rewrite decide_False by done. done.
  - intros i' Hi' Hne'. unfold with_row. case_decide as Hrow; [|apply Hdone; lia].
    rewrite Hpiv, gf_mul_comm, gf_mul_1_l by auto. apply Z.lxor_nilpotent.
Qed.

(** Moving the pivot into place. *)
Lemma swap_pivot_spec n mat col piv s A V :
  elem_matrix n n mat -> (col <= piv < n)%nat -> rep s.1 n n A -> rep s.2 n n V ->
  reduces n mat A V -> unit_columns n col A ->
  spec (if (piv =? col)%nat then Ok s else for_range 0 n (fun k => on_both (swap_step n col piv k)) s)
    (fun s' => exists A' V', rep s'.1 n n A' /\ rep s'.2 n n V' /\ reduces n mat A' V' /\
                 unit_columns n col A' /\ A' col col = A piv col) never.
Proof using L.
  intros Hmat Hp HA HV Hred Hunit. destruct (Nat.eqb_spec piv col) as [->|Hne]; [by exists A, V|].
  eapply spec_post.
  { apply (spec_row_op n mat A V s _ (swap_op col piv) (swap_rows_of col piv)); try done.
    - apply swap_op_ok; lia.
    - intros M HM. apply apply_swap; [lia..|done].
    - intros m M HM. apply spec_swap; [done|lia..]. }
  intros s' (H1 & H2 & Hred'). eexists _, _. split_and!; [exact H1|exact H2|exact Hred'| |].
  - intros i j Hi Hj. unfold swap_rows_of. repeat case_decide; subst; rewrite ?Hunit by lia; try done;
      unfold identity; rewrite !decide_False by lia; done.
  - unfold swap_rows_of. by rewrite decide_True.
Qed.

Lemma eliminate_column_spec n mat col s :
  elem_matrix n n mat -> (col < n)%nat -> elim_state n mat col s ->
  spec (eliminate_column n col s) (elim_state n mat (S col))
    (fun e => e = mk_singular (Some col) /\ singular n mat).
Proof using L.
  intros Hmat Hc (A & V & HA & HV & Hred & Hunit). unfold eliminate_column.
  destruct (find_pivot_spec _ n col A HA Hc (n - col) col ltac:(lia)) as (o & -> & Ho).
  cbn [mbind outcome_bind]. destruct o as [piv|].
  2: { split; [done|]. by eapply no_pivot_singular. }
  destruct Ho as [Hp Hpiv].
  eapply spec_bind. { eapply spec_never; [by apply (swap_pivot_spec n mat col piv s A V)|done]. }
  clear HA HV. intros s1 (A1 & V1 & HA & HV & Hred1 & Hunit1 & Hpc).
  assert (Hu : elem_matrix n n A1) by apply Hred1.
  rewrite (rep_get _ _ _ _ _ _ HA) by done. cbn [mbind outcome_bind].
  destruct (gf_inv_spec (A1 col col)) as (i & Hi & Hiu & Hia); [auto|congruence|].
  rewrite (Hi SingularMatrix). cbn [mbind outcome_bind].
  assert (Hi0 : i <> 0). { intros ->. rewrite gf_mul_0_l in Hia. done. }
  eapply spec_bind.
  { eapply spec_never; [|intros a Ha; exact Ha].
    apply (spec_row_op n mat A1 V1 s1 _ (scale_op col i)
      (fun M => with_row M col (fun j => gf_mul (M col j) i))); try done.
    - by apply scale_op_ok.
    - intros M HM. by apply apply_scale.
    - intros m M HM. by apply spec_scale. }
  intros s2 (HA2 & HV2 & Hred2).
  eapply spec_never; [apply (spec_for_range (clear_state n mat col) never)|].
  - eexists _, _. split; [exact HA2|]. split; [exact HV2|]. split; [exact Hred2|]. split_and!; [| |lia].
    + apply unit_columns_with_row; [done|done|]. intros j Hj. rewrite Hunit1 by lia.
      unfold identity. rewrite decide_False by lia. apply gf_mul_0_l.
    + unfold with_row. rewrite decide_True by done. rewrite gf_mul_comm. done.
  - intros r s' Hr Hs'. apply eliminate_row_spec; [done|done|lia|done].
  - intros s' (A3 & V3 & HA3 & HV3 & Hred3 & Hunit3 & Hpiv3 & Hdone3). exists A3, V3. split_and!; try done.
    intros i' j Hi' Hj. destruct (decide (j = col)) as [->|]; [|apply Hunit3; lia].
    unfold identity. case_decide; [by subst|]. apply Hdone3; [lia|done].
Qed.

(** [gf_invert] returns a left inverse, or the matrix is singular. *)
Lemma gf_invert_spec m n mat :
  rep m n n mat -> elem_matrix n n mat ->
  spec (gf_invert m n)
    (fun inv => exists V, rep inv n n V /\ elem_matrix n n V /\
       forall i j, (i < n)%nat -> (j < n)%nat -> dot n (V i) (fun k => mat k j) = identity i j)
    (fun e => (exists col, (col < n)%nat /\ e = mk_singular (Some col)) /\ singular n mat).
Proof using L.
  intros Hm Hmat. unfold gf_invert.
  eapply spec_bind.
  { eapply spec_never; [apply (spec_for_range (fun k inv => rep inv n n
        (fun i j => if decide (i = j /\ (i < k)%nat) then 1 else 0)) never)|].
    - eapply rep_same; [apply rep_zero|]. intros i j _ _. rewrite decide_False by lia. done.
    - intros i inv Hi Hinv. eapply spec_post; [apply (rep_set _ n n); [exact Hinv|lia..]|].
      intros inv' H. eapply rep_same; [exact H|]. intros i' j' _ _. unfold upd.
      repeat case_decide; destruct_and?; subst; done || lia.
    - intros inv H. exact H. }
  cbn [Nat.add]. intros inv Hinv. eapply spec_bind.
  { apply (spec_for_range (elim_state n mat)
      (fun e => (exists col, (col < n)%nat /\ e = mk_singular (Some col)) /\ singular n mat)).
    - eexists mat, identity. cbn [fst snd]. split_and!; [done| | |intros i j; lia].
      + eapply rep_same; [exact Hinv|]. intros i j Hi Hj. unfold identity. repeat case_decide; done || lia.
      + by apply reduces_refl.
    - intros col s Hcol Hs. eapply spec_mono; [by apply eliminate_column_spec; [|lia|]|done|].
      intros e [-> He]. split; [|done]. exists col. split; [lia|done]. }
  intros s (A & V & HA & HV & Hred & Hunit). exists V. split_and!; [done|apply Hred|].
  intros i j Hi Hj. rewrite (red_product _ _ _ _ Hred) by done. by apply Hunit.
Qed.
End elimination.

(** * Product and Vandermonde rows *)

Section building.
Context {F : GaloisField} {L : GaloisFieldLaws F}.
#[local] Abbreviation never := (fun _ : SingularMatrix => False).

Definition product_entry (k : nat) (A B : matrix) : matrix := fun i j => dot k (A i) (fun x => B x j).

(** Rows below [i] of the product are complete, row [i] is summed up to [x]. *)
Definition partial_product (k : nat) (A B : matrix) (i x : nat) : matrix :=
  fun i' j => if decide (i' < i)%nat then product_entry k A B i' j
              else if decide (i' = i) then product_entry x A B i' j else 0.

Lemma gf_matmul_spec a b r k c A B :
  rep a r k A -> rep b k c B ->
  spec (gf_matmul a b r k c) (fun out => rep out r c (product_entry k A B)) never.
Proof using L.
  intros Ha Hb. unfold gf_matmul.
  eapply spec_post; [apply (spec_for_range (fun i out => rep out r c (partial_product k A B i 0)))|].
  - eapply rep_same; [apply rep_zero|]. intros i j _ _. unfold partial_product.
    rewrite decide_False by lia. case_decide; done.
  - intros i out Hi Hout.
    eapply spec_post; [apply (spec_for_range (fun x out => rep out r c (partial_product k A B i x)))|];
      [exact Hout| |].
    + intros x out' Hx Hout'. rewrite (rep_get _ _ _ _ _ _ Ha) by lia. cbn [mbind outcome_bind].
      assert (Hnext : same r c (row_upto (partial_product k A B i x) i c
          (fun j => Z.lxor (product_entry x A B i j) (gf_mul (A i x) (B x j))))
        (partial_product k A B i (S x))).
      { intros i' j Hi' Hj. unfold row_upto, partial_product.
        repeat case_decide; destruct_and?; subst; try lia; done. }
      destruct (Z.eqb_spec (A i x) 0) as [H0|Hn].
      * cbn. eapply rep_same; [exact Hout'|]. intros i' j Hi' Hj. rewrite <- Hnext by done.
        unfold row_upto, partial_product. repeat case_decide; destruct_and?; subst; try done; try lia.
        rewrite H0, gf_mul_0_l, Z.lxor_0_r. done.
      * eapply spec_post; [apply (spec_row_loop _ _ r c (partial_product k A B i x) i
            (fun j => Z.lxor (product_entry x A B i j) (gf_mul (A i x) (B x j))) 0 c)|]; [|lia|lia| |].
        { eapply rep_same; [exact Hout'|]. intros i' j _ _. by rewrite row_upto_0. }
        { intros j m' Hj Hrep. rewrite (rep_get _ _ _ _ _ _ Hrep), (rep_get _ _ _ _ _ _ Hb) by lia.
          cbn [mbind outcome_bind]. unfold row_upto, partial_product.
          rewrite decide_False, decide_False, decide_True by lia. done. }
        intros m' Hm'. eapply rep_same; [exact Hm'|exact Hnext].
    + cbn [Nat.add]. intros out' Hout'. eapply rep_same; [exact Hout'|]. intros i' j _ _.
      unfold partial_product. repeat case_decide; subst; done || lia.
  - cbn [Nat.add]. intros out Hout. eapply rep_same; [exact Hout|]. intros i j Hi _.
    unfold partial_product. by rewrite decide_True.
Qed.

(** [cst idx] is the constant of slice [idx]. *)
Context (constants : list Z) (cst : nat -> Z).
Definition covers (indices : list nat) : Prop :=
  forall idx, idx ∈ indices -> constants !! idx = Some (cst idx).

Definition vander (indices : list nat) (exps : list Z) : matrix :=
  fun i j => gf_pow (cst (nth j indices 0%nat)) (nth i exps 0).

Lemma fill_powers_spec indices width r i exp : covers indices -> (i < r)%nat ->
  forall j m M, (j + length indices <= width)%nat -> rep m r width M ->
  spec (fill_powers width i j indices exp constants m)
    (fun m' => rep m' r width (fun i' j' =>
       if decide (i' = i /\ (j <= j' < j + length indices)%nat)
       then gf_pow (cst (nth (j' - j) indices 0%nat)) exp else M i' j')) never.
Proof.
  intros Hcov Hi. induction indices as [|idx indices IH]; intros j m M Hw Hm; cbn [fill_powers length] in *.
  { eapply rep_same; [exact Hm|]. intros i' j' _ _. rewrite decide_False by lia. done. }
  unfold get_at. rewrite (Hcov idx) by (apply list_elem_of_here). cbn [mbind outcome_bind].
  eapply spec_bind; [apply (rep_set _ r width); [exact Hm|lia..]|]. intros m' Hm'.
  eapply spec_post; [apply (IH (fun x Hx => Hcov x (list_elem_of_further _ _ _ Hx)) (S j) m' _ ltac:(lia) Hm')|].
  intros m2 H2. eapply rep_same; [exact H2|]. intros i' j' _ _. cbv beta. unfold upd.
  destruct (decide (i' = i)) as [->|]; [|rewrite !decide_False by lia; done].
  destruct (decide (j' = j)) as [->|].
  - rewrite decide_False by lia. rewrite decide_True by done. rewrite decide_True by lia.
    rewrite Nat.sub_diag. done.
  - destruct (decide (S j <= j' < S j + length indices)%nat).
    + rewrite decide_True by lia. rewrite decide_True by lia.
      replace (j' - j)%nat with (S (j' - S j)) by lia. done.
    + rewrite decide_False by lia. rewrite decide_False by lia. rewrite decide_False by lia. done.
Qed.

Lemma fill_sub_spec missing n : covers missing -> length missing = n ->
  forall exps i m M, (i + length exps <= n)%nat -> rep m n n M ->
  spec (fill_sub n i missing exps constants m)
    (fun m' => rep m' n n (fun i' j =>
       if decide (i <= i' < i + length exps)%nat
       then gf_pow (cst (nth j missing 0%nat)) (nth (i' - i) exps 0) else M i' j)) never.
Proof.
  intros Hcov Hn. induction exps as [|exp exps IH]; intros i m M Hle Hm; cbn [fill_sub length] in *.
  { eapply rep_same; [exact Hm|]. intros i' j _ _. rewrite decide_False by lia. done. }
  eapply spec_bind; [apply (fill_powers_spec missing n n i exp Hcov ltac:(lia) 0 m M ltac:(lia) Hm)|].
  intros m' Hm'. eapply spec_post; [apply (IH (S i) m' _ ltac:(lia) Hm')|].
  intros m2 H2. eapply rep_same; [exact H2|]. intros i' j _ Hj. cbv beta.
  destruct (decide (i' = i)) as [->|].
  - rewrite decide_False by lia. rewrite decide_True by lia. rewrite decide_True by lia.
    rewrite Nat.sub_0_r, Nat.sub_diag. done.
  - destruct (decide (S i <= i' < S i + length exps)%nat).
    + rewrite decide_True by lia. replace (i' - i)%nat with (S (i' - S i)) by lia. done.
    + rewrite decide_False by lia. rewrite decide_False by lia. done.
Qed.

Lemma fill_pre_spec avail n_src n_avail r : covers avail -> length avail = n_avail ->
  (n_src = n_avail + r)%nat ->
  forall exps i m M, (i + length exps <= r)%nat -> rep m r n_src M ->
  spec (fill_pre n_src n_avail i avail exps constants m)
    (fun m' => rep m' r n_src (fun i' j =>
       if decide (i <= i' < i + length exps)%nat
       then if decide (j < n_avail)%nat then gf_pow (cst (nth j avail 0%nat)) (nth (i' - i) exps 0)
            else if decide (j = n_avail + i')%nat then 1 else M i' j
       else M i' j)) never.
Proof.
  intros Hcov Hn Hsrc. induction exps as [|exp exps IH]; intros i m M Hle Hm; cbn [fill_pre length] in *.
  { eapply rep_same; [exact Hm|]. intros i' j _ _. rewrite decide_False by lia. done. }
  eapply spec_bind; [apply (fill_powers_spec avail n_src r i exp Hcov ltac:(lia) 0 m M ltac:(lia) Hm)|].
  intros m1 Hm1.
  eapply spec_bind.
  { replace (i * n_src + n_avail + i)%nat with (i * n_src + (n_avail + i))%nat by lia.
    apply (rep_set _ r n_src); [exact Hm1|lia..]. }
  intros m' Hm'. eapply spec_post; [apply (IH (S i) m' _ ltac:(lia) Hm')|].
  intros m2 H2. eapply rep_same; [exact H2|]. intros i' j _ Hj. cbv beta. unfold upd.
  destruct (decide (i' = i)) as [->|].
  - rewrite (decide_False (P := (S i <= i < _)%nat)), (decide_True (P := (i <= i < _)%nat)) by lia.
    rewrite Nat.sub_0_r, Nat.sub_diag. repeat case_decide; destruct_and?; subst; done || lia.
  - destruct (decide (S i <= i' < S i + length exps)%nat).
    + rewrite (decide_True (P := (i <= i' < _)%nat)) by lia.
      replace (i' - i)%nat with (S (i' - S i)) by lia.
      repeat case_decide; destruct_and?; subst; done || lia.
    + rewrite (decide_False (P := (i <= i' < _)%nat)) by lia.
      repeat case_decide; destruct_and?; subst; done || lia.
Qed.

(** ** The whole construction *)

Definition pre_matrix (avail : list nat) (exps : list Z) : matrix := fun i j =>
  if decide (j < length avail)%nat then vander avail exps i j
  else if decide (j = length avail + i)%nat then 1 else 0.

Lemma build_repair_matrix_spec avail missing exps :
  (forall idx, gf_elem (cst idx)) -> Forall (fun e => 0 <= e) exps ->
  covers avail -> covers missing -> length exps = length missing ->
  let n := length missing in
  spec (build_repair_matrix avail missing exps constants)
    (fun c => rows c = n /\ cols c = (length avail + n)%nat /\
       exists V, elem_matrix n n V /\
         (forall i j, (i < n)%nat -> (j < n)%nat ->
            dot n (V i) (fun k => vander missing exps k j) = identity i j) /\
         rep (data c) n (length avail + n) (product_entry n V (pre_matrix avail exps)))
    (fun e => (exists col, (col < n)%nat /\ e = mk_singular (Some col)) /\
       singular n (vander missing exps)).
Proof using L.
  intros Hcst Hexps Hav Hmis Hlen n. unfold build_repair_matrix. rewrite Hlen, Nat.eqb_refl.
  cbn [negb]. fold n. destruct (Nat.eqb_spec n 0) as [Hn|Hn].
  { cbn. split_and!; [done|by rewrite Hn|]. exists (fun _ _ => 0). rewrite Hn.
    split; [intros i j; lia|]. split; [intros i j; lia|]. split; [done|]. intros i j; lia. }
  assert (Hu : elem_matrix n n (vander missing exps)).
  { intros i j Hi Hj. apply gf_pow_range; [done|]. rewrite Stdlib.Lists.List.Forall_forall in Hexps.
    apply Hexps, nth_In. lia. }
  eapply spec_bind.
  { eapply spec_never; [apply (fill_sub_spec missing n Hmis eq_refl exps 0 _ _ ltac:(lia) (rep_zero n n))|].
    intros sub H. exact H. }
  intros sub Hsub. apply (rep_same _ _ _ _ (vander missing exps)) in Hsub.
  2: { intros i j Hi Hj. rewrite decide_True by lia. rewrite Nat.sub_0_r. done. }
  eapply spec_bind.
  { eapply spec_never; [apply (fill_pre_spec avail (length avail + n) (length avail) n Hav eq_refl eq_refl
      exps 0 _ _ ltac:(lia) (rep_zero n _))|]. intros pre H. exact H. }
  intros pre Hpre. apply (rep_same _ _ _ _ (pre_matrix avail exps)) in Hpre.
  2: { intros i j Hi Hj. rewrite decide_True by lia. rewrite Nat.sub_0_r. done. }
  eapply spec_bind; [apply (gf_invert_spec sub n _ Hsub Hu)|].
  intros inv (V & HV & HVu & Hprod).
  eapply spec_bind; [eapply spec_never; [apply (gf_matmul_spec _ _ _ _ _ _ _ HV Hpre)|intros d H; exact H]|].
  intros d Hd. cbn. split_and!; [done..|]. exists V. done.
Qed.
End building.
