(* ===== verification/RepairProps.v ===== *)
(** Properties of the PAR2 repair solve over GF(2^16): the coefficient matrix
    of [RepairMatrix] reconstructs the missing slices, and an error means that
    the chosen recovery exponents do not determine them. *)
From S2P Require Import Prelude.
From S2P Require Import GaloisField.
From S2P Require Import Gf16.
From S2P Require Import GaloisField.
From S2P Require Import RepairMatrix.

(** * Encoding and reconstruction of one 16-bit word per slice *)

Definition xor_all (l : list Z) : Z := foldr Z.lxor 0 l.

(** A recovery block with exponent [e]: every input word times its slice's
    constant to the power [e]. *)
Definition recovery_word (constants words : list Z) (e : Z) : Z :=
  xor_all (zip_with (fun c w => mul TABLES (pow TABLES c e) w) constants words).

(** [out ^= coeff * source] over the sources of one missing slice. *)
Definition reconstruct (coefficients sources : list Z) : Z :=
  xor_all (zip_with (mul TABLES) coefficients sources).

(** What survives: the available slices, then the recovery blocks. *)
Definition surviving (constants words : list Z) (available : list nat) (exps : list Z) : list Z :=
  ((fun i => nth i words 0) <$> available) ++ (recovery_word constants words <$> exps).

(** * Sums over lists *)

Lemma xsum_succ_l n f : xsum (S n) f = Z.lxor (f 0%nat) (xsum n (fun i => f (S i))).
Proof. rewrite (xsum_add 1 n). cbn [xsum]. rewrite Z.lxor_0_l. done. Qed.

Lemma xor_all_xsum l : xor_all l = xsum (length l) (fun i => nth i l 0).
Proof.
  induction l as [|x l IH]; [done|]. cbn [length]. rewrite xsum_succ_l. cbn [nth]. rewrite <- IH. done.
Qed.

Lemma xor_all_app l k : xor_all (l ++ k) = Z.lxor (xor_all l) (xor_all k).
Proof.
  unfold xor_all. induction l as [|x l IH]; cbn; [by rewrite Z.lxor_0_l|]. by rewrite IH, Z.lxor_assoc.
Qed.

Lemma xor_all_perm l k : l ≡ₚ k -> xor_all l = xor_all k.
Proof.
  induction 1; cbn; unfold xor_all in *; try congruence.
  rewrite <- !Z.lxor_assoc, (Z.lxor_comm y x). done.
Qed.

Lemma xor_all_zip {A B} (f : A -> B -> Z) l k a b :
  length l = length k ->
  xor_all (zip_with f l k) = xsum (length l) (fun i => f (nth i l a) (nth i k b)).
Proof.
  intros Hl. rewrite xor_all_xsum, length_zip_with, <- Hl, Nat.min_id.
  apply xsum_ext. intros i Hi. apply nth_zip_with; lia.
Qed.

Lemma xor_all_fmap {A} (f : A -> Z) l a :
  xor_all (f <$> l) = xsum (length l) (fun i => f (nth i l a)).
Proof.
  rewrite xor_all_xsum, length_fmap. apply xsum_ext. intros i Hi.
  rewrite (nth_indep _ 0 (f a)) by (rewrite length_fmap; lia). apply map_nth.
Qed.

(** * The algebra of the solve *)

Section solve.
Context {F : GaloisField} {L : GaloisFieldLaws F}.

(** A left inverse of the Vandermonde rows solves for the missing words: [pre]
    applied to what survives is those rows applied to what is missing. *)
Lemma solve_missing n na (V M P : matrix) (src miss : nat -> Z) :
  elem_matrix n n V -> elem_matrix n n M -> elem_matrix n (na + n) P ->
  elem_vector (na + n) src -> elem_vector n miss ->
  (forall i j, (i < n)%nat -> (j < n)%nat -> dot n (V i) (fun k => M k j) = identity i j) ->
  (forall k, (k < n)%nat -> dot (na + n) (P k) src = dot n (M k) miss) ->
  forall j, (j < n)%nat -> dot (na + n) (product_entry n V P j) src = miss j.
Proof using L.
  intros HV HM HP Hsrc Hmiss Hinv Heq j Hj. unfold product_entry.
  rewrite (xsum_dot n (na + n) (V j) P src) by (auto; intros k Hk; by apply HV).
  rewrite (dot_ext n (V j) (V j) _ (fun k => dot n (M k) miss)) by auto.
  rewrite <- (xsum_dot n n (V j) M miss) by (auto; intros k Hk; by apply HV).
  rewrite <- (dot_identity n j miss Hj Hmiss). apply dot_ext; auto.
Qed.
End solve.

(** * Properties *)

Lemma nth_u16 l i : Forall u16 l -> u16 (nth i l 0).
Proof.
  intros Hl. destruct (nth_in_or_default i l 0) as [Hin| ->]; [|apply u16_0].
  by apply (proj1 (Stdlib.Lists.List.Forall_forall u16 l) Hl).
Qed.
Lemma surviving_spec constants words available exps s :
  nth s (surviving constants words available exps) 0 =
    if decide (s < length available)%nat then nth (nth s available 0%nat) words 0
    else if decide (s < length available + length exps)%nat
    then recovery_word constants words (nth (s - length available) exps 0) else 0.
Proof.
  unfold surviving. case_decide as Hs.
  - rewrite app_nth1 by (rewrite length_fmap; lia).
    rewrite (nth_indep _ 0 (nth 0%nat words 0)) by (rewrite length_fmap; lia).
    apply (map_nth (fun i => nth i words 0)).
  - case_decide as Hs2.
    + rewrite app_nth2 by (rewrite length_fmap; lia). rewrite length_fmap.
      rewrite (nth_indep _ 0 (recovery_word constants words 0)) by (rewrite length_fmap; lia).
      apply (map_nth (recovery_word constants words)).
    + apply nth_overflow. rewrite length_app, !length_fmap. lia.
Qed.

Section words.
Context (constants words : list Z) (available missing : list nat) (exps : list Z).
Context (Hpart : available ++ missing ≡ₚ seq 0 (length constants)).
Context (Hwords : length words = length constants).
Context (Hlen : length exps = length missing).
Context (Hcu : Forall u16 constants) (Hwu : Forall u16 words) (Hexps : Forall (fun e => 0 <= e) exps).
#[local] Abbreviation cst := (fun i => nth i constants 0).
#[local] Abbreviation word := (fun i => nth i words 0).

Lemma nth_exps i : 0 <= nth i exps 0.
Proof.
  destruct (nth_in_or_default i exps 0) as [Hin| ->]; [|lia].
  by apply (proj1 (Stdlib.Lists.List.Forall_forall _ exps) Hexps).
Qed.

Lemma index_in_range idx : idx ∈ available ++ missing -> (idx < length constants)%nat.
Proof. rewrite Hpart. rewrite elem_of_seq. lia. Qed.

Lemma available_covered : covers constants cst available /\ covers constants cst missing.
Proof.
  assert (H : forall idx, idx ∈ available ++ missing -> constants !! idx = Some (nth idx constants 0)).
  { intros idx Hidx%index_in_range. destruct (nth_lookup_or_length constants idx 0); [done|lia]. }
  split; intros idx Hidx; apply H; apply elem_of_app; auto.
Qed.

Lemma recovery_word_u16 e : 0 <= e -> u16 (recovery_word constants words e).
Proof.
  intros He. unfold recovery_word. rewrite (xor_all_zip _ _ _ 0 0) by done.
  apply (xsum_elem (F := gf16)). intros i Hi. apply (gf_mul_range (F := gf16)).
  - apply (gf_pow_range (F := gf16)); [by apply nth_u16|done].
  - by apply nth_u16.
Qed.

(** A recovery word splits into the part the available slices contribute and
    the part of the missing ones. *)
Lemma recovery_word_split e :
  recovery_word constants words e =
    Z.lxor (xor_all ((fun i => mul TABLES (pow TABLES (cst i) e) (word i)) <$> available))
           (xor_all ((fun i => mul TABLES (pow TABLES (cst i) e) (word i)) <$> missing)).
Proof.
  rewrite <- xor_all_app, <- fmap_app. rewrite (xor_all_perm _ _ (fmap_Permutation _ _ _ Hpart)).
  unfold recovery_word. rewrite (xor_all_zip _ _ _ 0 0) by done.
  rewrite (xor_all_fmap _ _ 0%nat), length_seq. apply xsum_ext. intros i Hi.
  rewrite seq_nth by done. done.
Qed.

Lemma pre_is_missing k : (k < length missing)%nat ->
  dot (length available + length missing) (pre_matrix cst available exps k)
      (fun s => nth s (surviving constants words available exps) 0) =
  dot (length missing) (vander cst missing exps k) (fun t => word (nth t missing 0%nat)).
Proof.
  intros Hk. unfold dot. rewrite xsum_add.
  rewrite (xsum_ext (length available) _ (fun s =>
    mul TABLES (pow TABLES (cst (nth s available 0%nat)) (nth k exps 0)) (word (nth s available 0%nat)))).
  2: { intros s Hs. rewrite surviving_spec. unfold pre_matrix, vander. rewrite !decide_True by done. done. }
  rewrite (xsum_single (length missing) k); [|done|].
  2: { intros t Ht Hne. unfold pre_matrix. rewrite decide_False, decide_False by lia. apply gf_mul_0_l. }
  unfold pre_matrix. rewrite decide_False, decide_True by lia.
  rewrite surviving_spec, decide_False, decide_True by lia.
  rewrite (Nat.add_comm (length available) k), Nat.add_sub.
  rewrite gf_mul_1_l by (apply recovery_word_u16, nth_exps).
  rewrite recovery_word_split, (xor_all_fmap _ available 0%nat), lxor_cancel, (xor_all_fmap _ missing 0%nat).
  done.
Qed.
End words.

(** C21 (repair): given the slices that survived and as many recovery blocks as
    slices are missing, the coefficient matrix either reconstructs every
    missing word exactly, or is refused with a column for which the chosen
    Vandermonde rows are truly dependent. The construction never panics. *)
Theorem repair_recovers_missing_slices (constants words : list Z) (available missing : list nat)
    (exps : list Z) :
  available ++ missing ≡ₚ seq 0 (length constants) -> length words = length constants ->
  length exps = length missing ->
  Forall u16 constants -> Forall u16 words -> Forall (fun e => 0 <= e) exps ->
  spec (build_repair_matrix available missing exps constants)
    (fun c => rows c = length missing /\ cols c = (length available + length missing)%nat /\
       forall j, (j < length missing)%nat ->
         exists coefficients, row (E := unit) c j = Ok coefficients /\
           reconstruct coefficients (surviving constants words available exps) =
             nth (nth j missing 0%nat) words 0)
    (fun e => (exists col, (col < length missing)%nat /\ bad_row e = Some col) /\
       singular (length missing) (vander (fun i => nth i constants 0) missing exps)).
Proof.
  intros Hpart Hwords Hlen Hcu Hwu Hexps.
  assert (Hcov : covers constants (fun i => nth i constants 0) available /\
                 covers constants (fun i => nth i constants 0) missing) by (by eapply available_covered).
  destruct Hcov as [Hav Hmis].
  eapply spec_mono.
  - apply (build_repair_matrix_spec constants (fun i => nth i constants 0)); try done.
    intros idx. by eapply nth_u16.
  - intros c (Hr & Hc & V & HV & Hinv & Hrep). split_and!; [done..|]. intros j Hj.
    destruct Hrep as [Hdl Hrep]. unfold row. rewrite Hc, (proj2 (Nat.leb_le _ _)) by nia.
    eexists. split; [done|].
    set (n := length missing) in *. set (na := length available) in *.
    set (coeffs := take (na + n) (drop (j * (na + n)) (data c))).
    assert (Hcl : length coeffs = (na + n)%nat) by (unfold coeffs; rewrite length_take, length_drop; nia).
    unfold reconstruct. rewrite (xor_all_zip _ _ _ 0 0).
    2: { unfold surviving. rewrite Hcl, length_app, !length_fmap. lia. }
    rewrite Hcl. etrans; [|apply (solve_missing n na V (vander (fun i => nth i constants 0) missing exps)
      (pre_matrix (fun i => nth i constants 0) available exps)
      (fun s => nth s (surviving constants words available exps) 0)
      (fun t => nth (nth t missing 0%nat) words 0)); try done].
    + apply xsum_ext. intros s Hs. specialize (Hrep j s Hj Hs). cbn [gf_mul gf16].
      f_equal. apply nth_lookup_Some. unfold coeffs. rewrite lookup_take_lt, lookup_drop by done. exact Hrep.
    + intros i k Hi Hk. apply (gf_pow_range (F := gf16)); [by apply nth_u16|]. by eapply nth_exps.
    + intros i k Hi Hk. unfold pre_matrix. cbn [gf_elem gf16 gf16_ops]. repeat case_decide; auto with gf.
      apply (gf_pow_range (F := gf16)); [by apply nth_u16|]. by eapply nth_exps.
    + intros s Hs. cbn [gf_elem gf16 gf16_ops]. rewrite surviving_spec. repeat case_decide; auto with gf; [by eapply nth_u16|].
      eapply recovery_word_u16; try done. by eapply nth_exps.
    + intros t Ht. by eapply nth_u16.
    + intros k Hk. by eapply pre_is_missing.
  - intros e [(col & Hcol & ->) Hs]. split; [|done]. by exists col.
Qed.

(** Three slices, the first and the third lost, two recovery blocks. *)
Lemma repair_recovers_missing_slices_witness :
  spec (build_repair_matrix [1%nat] [0%nat; 2%nat] [0; 1] [2; 4; 16])
    (fun c => rows c = 2%nat /\ cols c = 3%nat /\
       forall j, (j < 2)%nat ->
         exists coefficients, row (E := unit) c j = Ok coefficients /\
           reconstruct coefficients (surviving [2; 4; 16] [10; 20; 30] [1%nat] [0; 1]) =
             nth (nth j [0%nat; 2%nat] 0%nat) [10; 20; 30] 0)
    (fun e => (exists col, (col < 2)%nat /\ bad_row e = Some col) /\
       singular 2 (vander (fun i => nth i [2; 4; 16] 0) [0%nat; 2%nat] [0; 1])).
Proof.
  apply (repair_recovers_missing_slices [2; 4; 16] [10; 20; 30] [1%nat] [0%nat; 2%nat] [0; 1]).
  - apply (Permutation_swap 0%nat 1%nat [2%nat]).
  - reflexivity.
  - reflexivity.
  - repeat constructor; unfold u16; lia.
  - repeat constructor; unfold u16; lia.
  - repeat constructor; lia.
Defined.

(** C22 (inversion): on a matrix of field elements [gf_invert] returns a matrix
    whose product with the input is the identity, or reports a column when and
    only when some nonzero vector is cancelled by the input. *)
Theorem gf_invert_inverts (m : list Z) (n : nat) (M : matrix) :
  rep m n n M -> elem_matrix n n M ->
  (exists inv V, gf_invert m n = Ok inv /\ rep inv n n V /\ ~ singular n M /\
     forall i j, (i < n)%nat -> (j < n)%nat -> dot n (V i) (fun k => M k j) = identity i j) \/
  (exists col, gf_invert m n = Err (mk_singular (Some col)) /\ (col < n)%nat /\ singular n M).
Proof.
  intros Hm HM. pose proof (gf_invert_spec m n M Hm HM) as H. unfold spec in H.
  destruct (gf_invert m n) as [inv|e|]; [left|right|done].
  - destruct H as (V & HV & HVu & Hprod). exists inv, V. split_and!; try done.
    intros (x & Hx & (j & Hj & Hxj) & Hker). apply Hxj.
    rewrite <- (dot_identity n j x Hj Hx).
    rewrite (dot_ext n _ (fun s => dot n (V j) (fun k => M k s)) _ x); [|by intros; rewrite Hprod|done].
    rewrite xsum_dot; auto; [|intros k Hk; by apply HVu].
    apply xsum_0. intros k Hk. rewrite Hker by done. apply gf_mul_0_r.
  - destruct H as [(col & Hcol & ->) Hs]. by exists col.
Qed.

Lemma gf_invert_inverts_witness :
  (exists inv V, gf_invert [1; 1; 2; 4] 2 = Ok inv /\ rep inv 2 2 V /\
     ~ singular 2 (fun i j => nth (i * 2 + j) [1; 1; 2; 4] 0) /\
     forall i j, (i < 2)%nat -> (j < 2)%nat ->
       dot 2 (V i) (fun k => nth (k * 2 + j) [1; 1; 2; 4] 0) = identity i j) \/
  (exists col, gf_invert [1; 1; 2; 4] 2 = Err (mk_singular (Some col)) /\ (col < 2)%nat /\
     singular 2 (fun i j => nth (i * 2 + j) [1; 1; 2; 4] 0)).
Proof.
  apply (gf_invert_inverts [1; 1; 2; 4] 2 (fun i j => nth (i * 2 + j) [1; 1; 2; 4] 0)).
  - split; [reflexivity|]. intros [|[|i]] [|[|j]] Hi Hj; try lia; reflexivity.
  - intros [|[|i]] [|[|j]] Hi Hj; try lia; cbn; unfold u16; lia.
Defined.

(** The reported row: the row number of an error counts rows after the pivot
    swaps. With slice constants 2, 16 and 128 and exponents 0, 21845 and 1 the
    second Vandermonde row is a multiple of the first, yet the error names
    index 2, the exponent 1, instead of index 1. *)
Theorem bad_row_counts_swapped_rows :
  let constants := [2; 16; 128] in
  build_repair_matrix [] [0; 1; 2]%nat [0; 21845; 1] constants = Err (mk_singular (Some 2%nat)) /\
  (fun c => pow TABLES c 21845) <$> constants =
    (fun c => mul TABLES (pow TABLES 2 21845) (pow TABLES c 0)) <$> constants.
Proof.
  cbv zeta. vm_compute. split; reflexivity.
Qed.
