(* ===== verification/Crc32.v ===== *)
(** CRC-32 concatenation operators of [crates/par2-rs/src/checksum.rs]: the
    CRC of a concatenation from the CRCs of its parts, and its inverse, by 32
    by 32 matrices over GF(2) stored one column per word.

    The CRC itself comes from the [crc_turbo] crate; [crc32_iso_hdlc] is the
    function that crate documents (CRC-32/ISO-HDLC) and what the theorems
    assume of it. *)
From S2P Require Import Prelude.
From S2P Require Import GaloisField.
From S2P Require Import GaloisField.

(** * Operators *)

Definition CRC32_COMBINE_POLY : Z := 0xEDB88320.

(** A [[u32; 32]]. *)
Definition crc_matrix : Type := list Z.

Section operators.
Context {E : Type}.
#[local] Abbreviation result := (outcome E).

(** The loop of [crc32_mat_vec]; a [u32] has at most 32 bits to shift out. *)
Fixpoint crc32_mat_vec_loop (fuel : nat) (mat : crc_matrix) (v : Z) (i : nat) (acc : Z) : result Z :=
  if v =? 0 then Ok acc
  else match fuel with
  | O => Panic
  | S fuel =>
      acc ← (if Z.land v 1 =? 0 then Ok acc else m ← get_at mat i; Ok (Z.lxor acc m));
      crc32_mat_vec_loop fuel mat (Z.shiftr v 1) (S i) acc
  end.
Definition crc32_mat_vec (mat : crc_matrix) (vec : Z) : result Z :=
  crc32_mat_vec_loop 32 mat vec 0 0.

(** [for n in 0..32 { out[n] = crc32_mat_vec(mat, arg[n]) }]. *)
Definition mat_mat (mat arg out : crc_matrix) : result crc_matrix :=
  for_range 0 32 (fun n out => a ← get_at arg n; r ← crc32_mat_vec mat a; set_at out n r) out.

Definition crc32_mat_square (square mat : crc_matrix) : result crc_matrix := mat_mat mat mat square.

Record Crc32CombineOp := mk_combine { op : option crc_matrix }.

(** The binary powers of the one-byte operator; a [u64] length has 64 bits. *)
Fixpoint combine_loop (fuel : nat) (remaining : Z) (op tmp combined : crc_matrix) : result crc_matrix :=
  if remaining =? 0 then Ok combined
  else match fuel with
  | O => Panic
  | S fuel =>
      combined ← (if Z.land remaining 1 =? 0 then Ok combined else mat_mat op combined combined);
      let remaining := Z.shiftr remaining 1 in
      if 0 <? remaining then
        tmp ← crc32_mat_square tmp op;
        combine_loop fuel remaining tmp tmp combined
      else combine_loop fuel remaining op tmp combined
  end.

(** The operator of one zero bit, and the identity. *)
Definition one_bit_op : crc_matrix :=
  CRC32_COMBINE_POLY :: ((fun n => Z.shiftl 1 (Z.of_nat n - 1)) <$> seq 1 31).
Definition identity_op : crc_matrix := (fun n => Z.shiftl 1 (Z.of_nat n)) <$> seq 0 32.

(** [for _ in 0..3 { crc32_mat_square(&mut tmp, &op); op = tmp; }]: one byte. *)
Definition byte_op (op tmp : crc_matrix) : result (crc_matrix * crc_matrix) :=
  for_range 0 3 (fun _ s => tmp ← crc32_mat_square s.2 s.1; Ok (tmp, tmp)) (op, tmp).

Definition Crc32CombineOp_new (len2 : Z) : result Crc32CombineOp :=
  if len2 =? 0 then Ok (mk_combine None)
  else
    s ← byte_op one_bit_op (replicate 32 0);
    combined ← combine_loop 64 len2 s.1 s.2 identity_op;
    Ok (mk_combine (Some combined)).

Definition combine (self : Crc32CombineOp) (crc1 crc2 : Z) : result Z :=
  match op self with
  | Some op => v ← crc32_mat_vec op crc1; Ok (Z.lxor v crc2)
  | None => Ok crc1
  end.

(** ** Inversion

    [bit_set w j] is the test [w & (1 << j) != 0]. *)
Definition bit_set (w : Z) (j : nat) : bool := negb (Z.land w (Z.shiftl 1 (Z.of_nat j)) =? 0).

(** [out[j]] gets bit [i] where word [i] of [m] has bit [j]. *)
Definition transpose (m out : crc_matrix) : result crc_matrix :=
  for_range 0 32 (fun i out =>
    w ← get_at m i;
    for_range 0 32 (fun j out =>
      if bit_set w j
      then o ← get_at out j; set_at out j (Z.lor o (Z.shiftl 1 (Z.of_nat i)))
      else Ok out) out) out.

(** The second transposition of the source runs over the output first. *)
Definition transpose_back (m out : crc_matrix) : result crc_matrix :=
  for_range 0 32 (fun j out =>
    for_range 0 32 (fun i out =>
      w ← get_at m i;
      if bit_set w j
      then o ← get_at out j; set_at out j (Z.lor o (Z.shiftl 1 (Z.of_nat i)))
      else Ok out) out) out.

Fixpoint find_bit_row (lhs : crc_matrix) (column r todo : nat) : result (option nat) :=
  match todo with
  | O => Ok None
  | S todo =>
      w ← get_at lhs r;
      if bit_set w column then Ok (Some r) else find_bit_row lhs column (S r) todo
  end.

Definition clear_row (column row : nat) (s : crc_matrix * crc_matrix) : result (crc_matrix * crc_matrix) :=
  if (row =? column)%nat then Ok s
  else
    w ← get_at s.1 row;
    if bit_set w column then
      lc ← get_at s.1 column; lhs ← set_at s.1 row (Z.lxor w lc);
      r ← get_at s.2 row; rc ← get_at s.2 column; rhs ← set_at s.2 row (Z.lxor r rc);
      Ok (lhs, rhs)
    else Ok s.

(** The loop over the columns; [None] when a column has no pivot. *)
Fixpoint invert_columns (todo column : nat) (s : crc_matrix * crc_matrix)
    : result (option (crc_matrix * crc_matrix)) :=
  match todo with
  | O => Ok (Some s)
  | S todo =>
      pivot ← find_bit_row s.1 column column (32 - column);
      match pivot with
      | None => Ok None
      | Some pivot =>
          lhs ← swap_at s.1 column pivot;
          rhs ← swap_at s.2 column pivot;
          s ← for_range 0 32 (clear_row column) (lhs, rhs);
          invert_columns todo (S column) s
      end
  end.

Definition crc32_mat_invert (mat : crc_matrix) : result (option crc_matrix) :=
  lhs ← transpose mat (replicate 32 0);
  let rhs := (fun row => Z.shiftl 1 (Z.of_nat row)) <$> seq 0 32 in
  r ← invert_columns 32 0 (lhs, rhs);
  match r with
  | None => Ok None
  | Some (lhs, rhs) =>
      if forallb (fun '(row, bits) => bits =? Z.shiftl 1 (Z.of_nat row)) (zip (seq 0 (length lhs)) lhs)
      then inverse ← transpose_back rhs (replicate 32 0); Ok (Some inverse)
      else Panic
  end.

Record Crc32UncombineOp := mk_uncombine { inverse : option crc_matrix }.

Definition Crc32UncombineOp_new (len2 : Z) : result Crc32UncombineOp :=
  c ← Crc32CombineOp_new len2;
  match op c with
  | None => Ok (mk_uncombine None)
  | Some m => inv ← crc32_mat_invert m; Ok (mk_uncombine inv)
  end.

Definition uncombine (self : Crc32UncombineOp) (combined crc2 : Z) : result Z :=
  match inverse self with
  | Some inverse => crc32_mat_vec inverse (Z.lxor combined crc2)
  | None => Ok combined
  end.

Definition crc32_combine (crc1 crc2 len2 : Z) : result Z :=
  c ← Crc32CombineOp_new len2; combine c crc1 crc2.
Definition crc32_uncombine (combined crc2 len2 : Z) : result Z :=
  u ← Crc32UncombineOp_new len2; uncombine u combined crc2.
End operators.

(** * CRC-32/ISO-HDLC

    The register shifts right; a bit shifted out adds the reflected polynomial. *)
Definition crc_shift (r : Z) : Z :=
  Z.lxor (Z.shiftr r 1) (if Z.testbit r 0 then CRC32_COMBINE_POLY else 0).
Definition crc_byte (r : Z) (b : byte) : Z := Nat.iter 8 crc_shift (Z.lxor r (u8 b)).
Definition crc_update (r : Z) (data : list byte) : Z := foldl crc_byte r data.
Definition crc32_iso_hdlc (data : list byte) : Z := Z.lxor (crc_update 0xFFFFFFFF data) 0xFFFFFFFF.

Example crc32_check_value :
  crc32_iso_hdlc [x31; x32; x33; x34; x35; x36; x37; x38; x39] = 0xCBF43926.
Proof. vm_compute. reflexivity. Qed.
Example crc32_combine_check :
  crc32_combine (E := unit) (crc32_iso_hdlc [x31; x32; x33; x34]) (crc32_iso_hdlc [x35; x36; x37; x38; x39]) 5
    = Ok 0xCBF43926.
Proof. vm_compute. reflexivity. Qed.
Example crc32_uncombine_check :
  crc32_uncombine (E := unit) 0xCBF43926 (crc32_iso_hdlc [x35; x36; x37; x38; x39]) 5
    = Ok (crc32_iso_hdlc [x31; x32; x33; x34]).
Proof. vm_compute. reflexivity. Qed.
