(* ===== verification/Crc32Props.v ===== *)
(** Properties of the CRC-32 operators of [Crc32]: a matrix is a linear map on
    32-bit words, the combine operator is the map that feeds zero bytes, and
    the inverse operator undoes it. *)
From S2P Require Import Prelude.
From S2P Require Import GaloisField.
From S2P Require Import GaloisField.
From S2P Require Import Crc32.

Definition u32 (v : Z) : Prop := 0 <= v < 2 ^ 32.

Lemma u32_lxor a b : u32 a -> u32 b -> u32 (Z.lxor a b).
Proof. apply lxor_range. lia. Qed.
Lemma u32_pow2 i : (i < 32)%nat -> u32 (2 ^ Z.of_nat i).
Proof. intros. split; [lia|]. apply Z.pow_lt_mono_r; lia. Qed.
Lemma u32_0 : u32 0.
Proof. unfold u32. lia. Qed.
#[export] Hint Resolve u32_lxor u32_pow2 u32_0 : gf.
Lemma xsum_u32 n f : (forall i, (i < n)%nat -> u32 (f i)) -> u32 (xsum n f).
Proof.
  induction n as [|n IH]; intros H; cbn [xsum]; [apply u32_0|].
  apply u32_lxor; [apply IH|]; intros; apply H; lia.
Qed.

(** * Matrices as linear maps *)

Definition column_at (m : crc_matrix) (v : Z) (i : nat) : Z :=
  if Z.testbit v (Z.of_nat i) then nth i m 0 else 0.

(** The value of a column matrix: the columns at the set bits, added up. *)
Definition apply_mat (m : crc_matrix) (v : Z) : Z :=
  xsum 32 (column_at m v).

Lemma land_1 x : (Z.land x 1 =? 0) = negb (Z.testbit x 0).
Proof.
  change (Z.land x 1) with (Z.land x (Z.ones 1)). rewrite Z.land_ones by lia. change (2 ^ 1) with 2.
  rewrite <- Z.bit0_mod. destruct (Z.testbit x 0); done.
Qed.

Lemma mat_vec_loop_spec {E} m V fuel i n :
  length m = n -> 0 <= V < 2 ^ Z.of_nat n -> (i + fuel = n)%nat ->
  crc32_mat_vec_loop (E := E) fuel m (Z.shiftr V (Z.of_nat i)) i (xsum i (column_at m V)) =
    Ok (xsum n (column_at m V)).
Proof.
  intros Hm HV. revert i. induction fuel as [|fuel IH]; intros i Hi; cbn [crc32_mat_vec_loop].
  - assert (i = n) as -> by lia. rewrite Z.shiftr_div_pow2, Z.div_small by lia. done.
  - destruct (Z.eqb_spec (Z.shiftr V (Z.of_nat i)) 0) as [H0|Hn].
    { f_equal. replace n with (i + (n - i))%nat by lia. rewrite xsum_add.
      rewrite (xsum_0 (n - i)); [by rewrite Z.lxor_0_r|]. intros k Hk. unfold column_at.
      replace (Z.of_nat (i + k)) with (Z.of_nat k + Z.of_nat i) by lia.
      rewrite <- Z.shiftr_spec, H0, Z.bits_0 by lia. done. }
    rewrite land_1, Z.shiftr_spec, Z.add_0_l by lia.
    rewrite Z.shiftr_shiftr by lia. replace (Z.of_nat i + 1) with (Z.of_nat (S i)) by lia.
    rewrite <- (IH (S i)) by lia. cbn [xsum].
    assert (Hc : column_at m V i = if Z.testbit V (Z.of_nat i) then nth i m 0 else 0) by done.
    rewrite Hc. destruct (Z.testbit V (Z.of_nat i)); cbn [negb].
    + rewrite (get_at_nth _ _ 0) by lia. done.
    + rewrite Z.lxor_0_r. done.
Qed.

Lemma mat_vec_spec {E} m v : length m = 32%nat -> u32 v ->
  crc32_mat_vec (E := E) m v = Ok (apply_mat m v).
Proof.
  intros Hm Hv. unfold crc32_mat_vec. rewrite <- (Z.shiftr_0_r v) at 1.
  by apply (mat_vec_loop_spec (E := E) m v 32 0).
Qed.

(** A map on words that respects exclusive or. *)
Record linear (f : Z -> Z) : Prop := {
  lin_range v : u32 v -> u32 (f v);
  lin_lxor a b : u32 a -> u32 b -> f (Z.lxor a b) = Z.lxor (f a) (f b);
}.

Lemma lin_0 f : linear f -> f 0 = 0.
Proof.
  intros Hf. change 0 with (Z.lxor 0 0) at 1. rewrite lin_lxor by auto with gf. apply Z.lxor_nilpotent.
Qed.
Lemma lin_xsum f n g : linear f -> (forall i, (i < n)%nat -> u32 (g i)) ->
  f (xsum n g) = xsum n (fun i => f (g i)).
Proof.
  intros Hf. induction n as [|n IH]; intros Hg; cbn [xsum]; [by apply lin_0|].
  rewrite lin_lxor; [rewrite IH; auto|done| |auto]. apply xsum_u32. auto.
Qed.
Lemma linear_compose f g : linear f -> linear g -> linear (fun v => f (g v)).
Proof.
  intros Hf Hg. split; intros.
  - by apply Hf, Hg.
  - rewrite (lin_lxor g), (lin_lxor f); auto; by apply Hg.
Qed.

(** [m] stores the images of the single bits. *)
Definition represents (m : crc_matrix) (f : Z -> Z) : Prop :=
  length m = 32%nat /\ forall i, (i < 32)%nat -> nth i m 0 = f (2 ^ Z.of_nat i).

Lemma represents_ext m f g : represents m f -> (forall v, f v = g v) -> represents m g.
Proof. intros [Hm H] Hfg. split; [done|]. intros. rewrite <- Hfg. auto. Qed.

Lemma apply_represents m f v : represents m f -> linear f -> u32 v -> apply_mat m v = f v.
Proof.
  intros [Hm H] Hf Hv. rewrite (xsum_bits 32 v Hv) at 2. rewrite lin_xsum; [|done|].
  - apply xsum_ext. intros i Hi. unfold column_at. rewrite H by done.
    destruct (Z.testbit v _); [done|]. by rewrite lin_0.
  - intros i Hi. destruct (Z.testbit v _); auto with gf.
Qed.

Lemma mat_mat_spec {E} m arg out f g :
  represents m f -> represents arg g -> linear f -> linear g -> length out = 32%nat ->
  exists res, mat_mat (E := E) m arg out = Ok res /\ represents res (fun v => f (g v)).
Proof.
  intros Hm Harg Hf Hg Hout.
  assert (H : spec (mat_mat (E := E) m arg out) (fun res => represents res (fun v => f (g v))) (fun _ => False)).
  { unfold mat_mat. eapply spec_post.
    - apply (spec_for_range (fun n out => length out = 32%nat /\
        forall i, (i < n)%nat -> nth i out 0 = f (g (2 ^ Z.of_nat i)))).
      + split; [done|lia].
      + intros n o Hn [Hl Ho]. destruct Harg as [Ha Harg]. rewrite (get_at_nth _ _ 0) by lia.
        cbn [mbind outcome_bind]. rewrite Harg by lia.
        rewrite mat_vec_spec; [|apply Hm|apply Hg, u32_pow2; lia].
        cbn [mbind outcome_bind]. rewrite set_at_ok by lia. split; [by rewrite length_insert|].
        intros i Hi. rewrite nth_insert by lia. case_decide as Hin; [subst|apply Ho; lia].
        apply apply_represents; [done|done|]. apply Hg. apply u32_pow2. lia.
    - cbn [Nat.add]. intros res [Hl Hr]. split; [done|exact Hr]. }
  destruct (mat_mat m arg out) as [res| |]; try done. by exists res.
Qed.

(** * Feeding zero bits *)

Lemma crc_shift_linear : linear crc_shift.
Proof.
  split.
  - intros v Hv. apply u32_lxor.
    + unfold u32 in *. rewrite Z.shiftr_div_pow2 by lia. dlia.
    + destruct (Z.testbit v 0); unfold u32, CRC32_COMBINE_POLY; lia.
  - intros a b _ _. unfold crc_shift. rewrite Z.shiftr_lxor, Z.lxor_spec, lxor_exchange. f_equal.
    destruct (Z.testbit a 0), (Z.testbit b 0); done.
Qed.

(** [zero_bits n] is the register after [n] zero bits. *)
Definition zero_bits (n : Z) (r : Z) : Z := Nat.iter (Z.to_nat n) crc_shift r.

Lemma iter_linear n f : linear f -> linear (Nat.iter n f).
Proof.
  intros Hf. induction n as [|n IH]; [split; done|]. apply (linear_compose f (Nat.iter n f)); done.
Qed.
Lemma zero_bits_linear n : linear (zero_bits n).
Proof. apply iter_linear, crc_shift_linear. Qed.
Lemma zero_bits_add a b r : 0 <= a -> 0 <= b -> zero_bits (a + b) r = zero_bits a (zero_bits b r).
Proof. intros. unfold zero_bits. rewrite Z2Nat.inj_add by lia. apply Nat.iter_add. Qed.
Lemma zero_bits_0 r : zero_bits 0 r = r.
Proof. done. Qed.

Lemma zero_bits_square {E} m k out : 0 <= k -> represents m (zero_bits k) -> length out = 32%nat ->
  exists res, mat_mat (E := E) m m out = Ok res /\ represents res (zero_bits (2 * k)).
Proof.
  intros Hk Hm Ho. destruct (mat_mat_spec (E := E) m m out _ _ Hm Hm (zero_bits_linear k) (zero_bits_linear k) Ho)
    as (res & Hres & Hr). exists res. split; [done|]. eapply represents_ext; [exact Hr|].
  intros v. cbv beta. rewrite <- zero_bits_add by lia. f_equal. lia.
Qed.

(** The loop over the bits of the length. *)
Lemma combine_loop_spec {E} len2 fuel k op tmp combined :
  0 <= len2 < 2 ^ 64 -> 0 <= k -> k + Z.of_nat fuel = 64 ->
  represents op (zero_bits (8 * 2 ^ k)) -> length tmp = 32%nat ->
  represents combined (zero_bits (8 * (len2 mod 2 ^ k))) ->
  exists res, combine_loop (E := E) fuel (Z.shiftr len2 k) op tmp combined = Ok res /\
    represents res (zero_bits (8 * len2)).
Proof.
  intros Hlen. revert k op tmp combined.
  induction fuel as [|fuel IH]; intros k op tmp combined Hk Hsum Hop Htmp Hcomb; cbn [combine_loop].
  - assert (k = 64) as -> by lia. rewrite Z.mod_small in Hcomb by lia.
    rewrite Z.shiftr_div_pow2, Z.div_small by lia. by exists combined.
  - assert (Hshift : Z.shiftr len2 k = len2 / 2 ^ k) by (apply Z.shiftr_div_pow2; lia).
    pose proof (Z.pow_pos_nonneg 2 k ltac:(lia) ltac:(lia)) as Hpow.
    pose proof (Z.div_mod len2 (2 ^ k) ltac:(lia)) as Hdm. pose proof (Z.mod_pos_bound len2 (2 ^ k) ltac:(lia)) as Hmb.
    destruct (Z.eqb_spec (Z.shiftr len2 k) 0) as [H0|Hn].
    { exists combined. split; [done|]. rewrite Hshift in H0. rewrite H0 in Hdm.
      assert (Heq : len2 mod 2 ^ k = len2) by lia. rewrite Heq in Hcomb. exact Hcomb. }
    rewrite land_1, Z.shiftr_spec, Z.add_0_l, Z.shiftr_shiftr by lia.
    (* the new combined operator *)
    assert (Hstep : exists c', (if negb (Z.testbit len2 k) then Ok combined else mat_mat op combined combined)
        = Ok (E := E) c' /\ represents c' (zero_bits (8 * (len2 mod 2 ^ (k + 1))))).
    { assert (Hm : len2 mod 2 ^ (k + 1) = len2 mod 2 ^ k + (if Z.testbit len2 k then 2 ^ k else 0)).
      { rewrite Z.pow_add_r by lia. change (2 ^ 1) with 2. rewrite Z.rem_mul_r by lia. f_equal.
        rewrite <- Hshift, <- Z.bit0_mod, Z.shiftr_spec, Z.add_0_l by lia. destruct (Z.testbit len2 k); cbn; lia. }
      destruct (Z.testbit len2 k); cbn [negb].
      - destruct (mat_mat_spec (E := E) op combined combined _ _ Hop Hcomb) as (c' & -> & Hc');
          [apply zero_bits_linear..|apply Hcomb|].
        exists c'. split; [done|]. eapply represents_ext; [exact Hc'|]. intros v. cbv beta.
        rewrite <- zero_bits_add by lia. f_equal. lia.
      - exists combined. split; [done|]. rewrite Hm, Z.add_0_r. done. }
    destruct Hstep as (c' & -> & Hc'). cbn [mbind outcome_bind].
    destruct (Z.ltb_spec 0 (Z.shiftr len2 (k + 1))).
    + destruct (zero_bits_square (E := E) op (8 * 2 ^ k) tmp ltac:(lia) Hop Htmp) as (t' & Ht & Hrep).
      unfold crc32_mat_square. rewrite Ht. cbn [mbind outcome_bind].
      assert (Hrep' : represents t' (zero_bits (8 * 2 ^ (k + 1)))).
      { eapply represents_ext; [exact Hrep|]. intros v. f_equal. rewrite Z.pow_add_r by lia. lia. }
      apply IH; [lia|lia|done|apply Hrep'|done].
    + assert (Hs : Z.shiftr len2 (k + 1) = 0).
      { assert (0 <= Z.shiftr len2 (k + 1)) by (apply Z.shiftr_nonneg; lia). lia. }
      rewrite Hs. rewrite Z.shiftr_div_pow2 in Hs by lia.
      assert (Heq : len2 mod 2 ^ (k + 1) = len2).
      { pose proof (Z.pow_pos_nonneg 2 (k + 1) ltac:(lia) ltac:(lia)).
        pose proof (Z.div_mod len2 (2 ^ (k + 1)) ltac:(lia)) as Hd. rewrite Hs in Hd. lia. }
      rewrite Heq in Hc'.
      exists c'. split; [destruct fuel; done|exact Hc'].
Qed.

(** The one-bit operator and the identity. *)
Lemma represents_by_check m f :
  length m = 32%nat -> forallb (fun i => nth i m 0 =? f (2 ^ Z.of_nat i)) (seq 0 32) = true -> represents m f.
Proof.
  intros Hm H. split; [done|]. intros i Hi. rewrite forallb_forall in H. apply Z.eqb_eq, H, in_seq. lia.
Qed.

Lemma one_bit_matrix : represents one_bit_op (zero_bits 1).
Proof. apply represents_by_check; vm_compute; reflexivity. Qed.
Lemma identity_matrix : represents identity_op (zero_bits 0).
Proof. apply represents_by_check; vm_compute; reflexivity. Qed.

Lemma byte_op_spec {E} m tmp : represents m (zero_bits 1) -> length tmp = 32%nat ->
  exists m8, byte_op (E := E) m tmp = Ok (m8, m8) /\ represents m8 (zero_bits 8).
Proof.
  intros H1 Ht.
  destruct (zero_bits_square (E := E) m 1 tmp ltac:(lia) H1 Ht) as (m2 & E2 & H2).
  destruct (zero_bits_square (E := E) m2 2 m2 ltac:(lia) H2 (proj1 H2)) as (m4 & E4 & H4).
  destruct (zero_bits_square (E := E) m4 4 m4 ltac:(lia) H4 (proj1 H4)) as (m8 & E8 & H8).
  exists m8. split; [|exact H8]. unfold byte_op. cbn [for_range fst snd]. unfold crc32_mat_square.
  rewrite E2. cbn [mbind outcome_bind fst snd]. rewrite E4. cbn [mbind outcome_bind fst snd].
  rewrite E8. done.
Qed.

Lemma combine_new_spec {E} len2 : 0 <= len2 < 2 ^ 64 ->
  if len2 =? 0 then Crc32CombineOp_new (E := E) len2 = Ok (mk_combine None)
  else exists m, Crc32CombineOp_new (E := E) len2 = Ok (mk_combine (Some m)) /\
         represents m (zero_bits (8 * len2)).
Proof.
  intros Hlen. unfold Crc32CombineOp_new. destruct (len2 =? 0) eqn:Hn; [done|].
  destruct (byte_op_spec (E := E) one_bit_op (replicate 32 0) one_bit_matrix (length_replicate _ _))
    as (m8 & -> & H8). rewrite bind_Ok.
  pose proof identity_matrix as Hone.
  replace 0 with (8 * (len2 mod 2 ^ 0)) in Hone by (change (2 ^ 0) with 1; rewrite Z.mod_1_r; lia).
  destruct (combine_loop_spec (E := E) len2 64 0 m8 m8 identity_op Hlen ltac:(lia) ltac:(lia) H8 (proj1 H8) Hone)
    as (res & Hres & Hr).
  rewrite Z.shiftr_0_r in Hres. cbn [fst snd]. rewrite Hres, bind_Ok. exists res. split; [reflexivity|exact Hr].
Qed.

(** * The register *)

Lemma crc_byte_range r b : u32 r -> u32 (crc_byte r b).
Proof.
  intros Hr. apply (lin_range _ (iter_linear 8 _ crc_shift_linear)). apply u32_lxor; [done|].
  pose proof (u8_range b). unfold u32. lia.
Qed.
Lemma crc_update_range r d : u32 r -> u32 (crc_update r d).
Proof. revert r. induction d as [|b d IH]; intros r Hr; [done|]. apply IH, crc_byte_range, Hr. Qed.

Lemma crc_update_lxor d r s : u32 r -> u32 s ->
  crc_update (Z.lxor r s) d = Z.lxor (zero_bits (8 * zlen d) r) (crc_update s d).
Proof.
  revert r s. induction d as [|b d IH]; intros r s Hr Hs; [done|].
  change (crc_update ?x (b :: d)) with (crc_update (crc_byte x b) d).
  assert (Hb : u32 (Z.lxor s (u8 b))).
  { apply u32_lxor; [done|]. pose proof (u8_range b). unfold u32. lia. }
  assert (crc_byte (Z.lxor r s) b = Z.lxor (zero_bits 8 r) (crc_byte s b)) as ->.
  { unfold crc_byte. rewrite Z.lxor_assoc. by apply (lin_lxor _ (iter_linear 8 _ crc_shift_linear)). }
  rewrite IH; [|by apply zero_bits_linear|by apply crc_byte_range].
  pose proof (zlen_nonneg d). rewrite <- zero_bits_add, zlen_cons by lia. f_equal. f_equal. lia.
Qed.

Lemma crc_range d : u32 (crc32_iso_hdlc d).
Proof. apply u32_lxor; [apply crc_update_range|]; unfold u32; lia. Qed.

(** The CRC of a concatenation. *)
Lemma crc_app a b :
  crc32_iso_hdlc (a ++ b) = Z.lxor (zero_bits (8 * zlen b) (crc32_iso_hdlc a)) (crc32_iso_hdlc b).
Proof.
  unfold crc32_iso_hdlc. unfold crc_update at 1. rewrite foldl_app.
  fold (crc_update 0xFFFFFFFF a). fold (crc_update (crc_update 0xFFFFFFFF a) b).
  assert (HF : u32 0xFFFFFFFF) by (unfold u32; lia).
  pose proof (crc_update_range 0xFFFFFFFF a HF) as Ha.
  rewrite <- (Z.lxor_assoc _ (crc_update 0xFFFFFFFF b)). f_equal.
  rewrite <- crc_update_lxor by auto with gf. f_equal.
  rewrite Z.lxor_assoc, Z.lxor_nilpotent, Z.lxor_0_r. done.
Qed.

Lemma combine_crc {E} a b : zlen b < 2 ^ 64 ->
  crc32_combine (E := E) (crc32_iso_hdlc a) (crc32_iso_hdlc b) (zlen b) = Ok (crc32_iso_hdlc (a ++ b)).
Proof.
  intros Hb. pose proof (zlen_nonneg b). unfold crc32_combine.
  pose proof (combine_new_spec (E := E) (zlen b) ltac:(lia)) as H1.
  destruct (Z.eqb_spec (zlen b) 0) as [H0|Hn].
  - rewrite H1. cbn. apply zlen_0_nil in H0 as ->. by rewrite app_nil_r.
  - destruct H1 as (m & -> & Hm). cbn [mbind outcome_bind]. unfold combine. cbn [op].
    rewrite mat_vec_spec; [|apply Hm|apply crc_range]. cbn [mbind outcome_bind].
    rewrite (apply_represents _ _ _ Hm) by (apply zero_bits_linear || apply crc_range).
    by rewrite crc_app.
Qed.

(** * Inversion over GF(2) *)

(** The field of two elements, for the row reduction. *)
#[local] Instance gf2 : GaloisField := {|
  gf_elem a := a = 0 \/ a = 1;
  gf_mul := Z.land;
  gf_inv E a := if a =? 0 then Panic else Ok a;
  gf_pow a e := if e =? 0 then 1 else a;
|}.
#[local] Instance gf2_laws : GaloisFieldLaws gf2.
Proof.
  split; cbn.
  - lia.
  - lia.
  - intros a b [->| ->] [->| ->]; vm_compute; auto.
  - intros a b [->| ->] [->| ->]; vm_compute; auto.
  - apply Z.land_comm.
  - intros. apply Z.land_assoc.
  - done.
  - intros a [->| ->]; done.
  - intros a b c [->| ->] [->| ->] [->| ->]; done.
  - intros a [->| ->] Hn; [done|]. exists 1. split_and!; [done|lia|done].
  - intros a e [->| ->] He; destruct (e =? 0); lia.
  - done.
  - intros a e [->| ->] He; destruct (Z.eqb_spec (e + 1) 0), (Z.eqb_spec e 0); done || lia.
Qed.

Lemma gf2_bit b : gf_elem (Z.b2z b).
Proof. destruct b; cbn; lia. Qed.
Lemma land_bits a b : Z.land (Z.b2z a) (Z.b2z b) = Z.b2z (a && b).
Proof. destruct a, b; done. Qed.

Definition bits_of (v : Z) : nat -> Z := fun j => Z.b2z (Z.testbit v (Z.of_nat j)).

Lemma bits_elem v n : elem_vector n (bits_of v).
Proof. intros j _. apply gf2_bit. Qed.

Lemma bit_set_spec w j : bit_set w j = Z.testbit w (Z.of_nat j).
Proof.
  unfold bit_set. rewrite Z.shiftl_1_l. destruct (Z.testbit w (Z.of_nat j)) eqn:Hb.
  - apply negb_true_iff, Z.eqb_neq. intros H.
    assert (Z.testbit (Z.land w (2 ^ Z.of_nat j)) (Z.of_nat j) = true) as Ht.
    { rewrite Z.land_spec, Hb, Z.pow2_bits_true by lia. done. }
    rewrite H, Z.bits_0 in Ht. done.
  - apply negb_false_iff, Z.eqb_eq. apply Z.bits_inj'. intros i Hi.
    rewrite Z.land_spec, Z.bits_0. destruct (decide (i = Z.of_nat j)) as [->|]; [by rewrite Hb|].
    rewrite Z.pow2_bits_false by lia. apply andb_false_r.
Qed.

(** [l] holds the bit matrix [A], one row per word. *)
Definition bit_rows (l : crc_matrix) (A : matrix) : Prop :=
  length l = 32%nat /\ (forall i, (i < 32)%nat -> u32 (nth i l 0)) /\
  forall i j, (i < 32)%nat -> (j < 32)%nat -> bits_of (nth i l 0) j = A i j.

(** Column [j] of [m] read as a word, up to row [i]. *)
Definition column_word (m : crc_matrix) (j i : nat) : Z :=
  word_of i (fun k => Z.testbit (nth k m 0) (Z.of_nat j)).

Lemma column_word_succ m j i :
  (if bit_set (nth i m 0) j then Z.lor (column_word m j i) (Z.shiftl 1 (Z.of_nat i))
   else column_word m j i) = column_word m j (S i).
Proof.
  rewrite bit_set_spec. unfold column_word, word_of. cbn [xsum].
  fold (word_of i (fun k => Z.testbit (nth k m 0) (Z.of_nat j))).
  destruct (Z.testbit (nth i m 0) (Z.of_nat j)); [|by rewrite Z.lxor_0_r].
  rewrite Z.shiftl_1_l. apply Z.bits_inj'. intros k Hk. rewrite Z.lor_spec, Z.lxor_spec.
  destruct (decide (k = Z.of_nat i)) as [->|].
  - rewrite word_of_testbit, Nat.ltb_irrefl. destruct (Z.testbit (2 ^ _) _); done.
  - rewrite Z.pow2_bits_false by lia. rewrite orb_false_r, xorb_false_r. done.
Qed.

(** A loop over rows [i] that adds bit [i] to column [j] of the output. *)
Definition columns_upto (m out : crc_matrix) (i : nat) : Prop :=
  length out = 32%nat /\ forall j, (j < 32)%nat -> nth j out 0 = column_word m j i.

Lemma transpose_spec {E} m : length m = 32%nat ->
  spec (transpose (E := E) m (replicate 32 0)) (fun out => columns_upto m out 32) (fun _ => False).
Proof.
  intros Hm. unfold transpose.
  apply (spec_for_range (fun i out => columns_upto m out i)).
  { split; [apply length_replicate|]. intros j Hj. rewrite nth_lookup, lookup_replicate_2 by done. done. }
  intros i out Hi [Hl Hout]. rewrite (get_at_nth m i 0), bind_Ok by lia. cbv beta.
  eapply spec_post.
  - apply (spec_for_range (fun j out => length out = 32%nat /\ forall j', (j' < 32)%nat ->
      nth j' out 0 = column_word m j' (if decide (j' < j)%nat then S i else i))).
    + split; [done|]. intros j' Hj'. rewrite decide_False by lia. auto.
    + intros j o Hj [Hlo Ho].
      assert (Hstep : forall j', (j' < 32)%nat ->
        (if decide (j' = j) then column_word m j (S i) else nth j' o 0) =
          column_word m j' (if decide (j' < S j)%nat then S i else i)).
      { intros j' Hj'. case_decide as He; [subst; by rewrite decide_True by lia|].
        rewrite Ho by done. repeat case_decide; done || lia. }
      rewrite <- (column_word_succ m j i) in Hstep.
      pose proof (Ho j ltac:(lia)) as Hoj. rewrite decide_False in Hoj by lia.
      destruct (bit_set (nth i m 0) j).
      * rewrite (get_at_nth _ _ 0), bind_Ok, set_at_ok by lia. split; [by rewrite length_insert|].
        intros j' Hj'. rewrite nth_insert by lia. rewrite Hoj. auto.
      * split; [done|]. intros j' Hj'. rewrite <- Hstep by done. case_decide; [by subst|done].
  - cbn [Nat.add]. intros o [Hlo Ho]. split; [done|]. intros j Hj. rewrite Ho by done.
    by rewrite decide_True by lia.
Qed.

Lemma transpose_back_spec {E} m : length m = 32%nat ->
  spec (transpose_back (E := E) m (replicate 32 0)) (fun out => columns_upto m out 32) (fun _ => False).
Proof.
  intros Hm. unfold transpose_back.
  eapply spec_post.
  - apply (spec_for_range (fun j out => length out = 32%nat /\ forall j', (j' < 32)%nat ->
      nth j' out 0 = column_word m j' (if decide (j' < j)%nat then 32 else 0))).
    { split; [apply length_replicate|]. intros j Hj. rewrite nth_lookup, lookup_replicate_2 by done.
      rewrite decide_False by lia. done. }
    intros j out Hj Hout.
    eapply spec_post.
    + apply (spec_for_range (fun i o => length o = 32%nat /\ forall j', (j' < 32)%nat ->
        nth j' o 0 = column_word m j' (if decide (j' = j) then i else if decide (j' < j)%nat then 32 else 0))).
      * destruct Hout as [Hl Ho]. split; [done|]. intros j' Hj'. rewrite Ho by done.
        repeat case_decide; done || lia.
      * intros i o Hi [Hlo Ho]. rewrite (get_at_nth m i 0), bind_Ok by lia. cbv beta.
        pose proof (Ho j ltac:(lia)) as Hoj. rewrite decide_True in Hoj by done.
        assert (Hstep : forall j', (j' < 32)%nat ->
          (if decide (j' = j) then column_word m j (S i) else nth j' o 0) =
            column_word m j' (if decide (j' = j) then S i else if decide (j' < j)%nat then 32 else 0)).
        { intros j' Hj'. case_decide; [by subst|]. rewrite Ho by done. by rewrite decide_False. }
        rewrite <- (column_word_succ m j i) in Hstep.
        destruct (bit_set (nth i m 0) j).
        -- rewrite (get_at_nth _ _ 0), bind_Ok, set_at_ok by lia. split; [by rewrite length_insert|].
           intros j' Hj'. rewrite nth_insert by lia. rewrite Hoj. auto.
        -- split; [done|]. intros j' Hj'. rewrite <- Hstep by done. case_decide; [by subst|done].
    + cbn [Nat.add]. intros o [Hlo Ho]. split; [done|]. intros j' Hj'. rewrite Ho by done.
      repeat case_decide; subst; done || lia.
  - cbn [Nat.add]. intros o [Hlo Ho]. split; [done|]. intros j Hj. rewrite Ho by done.
    by rewrite decide_True by lia.
Qed.

Lemma columns_upto_bits m out i j : columns_upto m out 32 -> (i < 32)%nat -> (j < 32)%nat ->
  bits_of (nth j out 0) i = bits_of (nth i m 0) j.
Proof.
  intros [_ Ho] Hi Hj. unfold bits_of. rewrite Ho by done. unfold column_word.
  rewrite word_of_testbit, (proj2 (Nat.ltb_lt _ _)) by done. done.
Qed.

(** ** Row reduction on words *)

Lemma bit_rows_xor (l : list Z) A row col : bit_rows l A -> (row < 32)%nat -> (col < 32)%nat ->
  bit_rows (<[row := Z.lxor (nth row l 0) (nth col l 0)]> l)
    (with_row A row (fun j => Z.lxor (A row j) (gf_mul 1 (A col j)))).
Proof.
  intros (Hl & Hu & Hb) Hr Hc. split; [by rewrite length_insert|]. split.
  - intros i Hi. rewrite nth_insert by lia. case_decide; auto with gf.
  - intros i j Hi Hj. rewrite nth_insert by lia. unfold with_row. case_decide; [subst|auto].
    rewrite <- !Hb by done. unfold bits_of. rewrite Z.lxor_spec. change 1 with (Z.b2z true).
    cbn [gf_mul gf2]. rewrite land_bits. destruct (Z.testbit _ _), (Z.testbit _ _); done.
Qed.

Lemma bit_rows_swap {E} (l : list Z) A a b : bit_rows l A -> (a < 32)%nat -> (b < 32)%nat ->
  spec (swap_at (E := E) l a b) (fun l' => bit_rows l' (swap_rows_of a b A)) (fun _ => False).
Proof.
  intros (Hl & Hu & Hb) Ha Hb'. unfold swap_at.
  rewrite !(get_at_nth _ _ 0), !bind_Ok, set_at_ok, bind_Ok, set_at_ok by (rewrite ?length_insert; lia).
  assert (Hn : forall i, nth i (<[b := nth a l 0]> (<[a := nth b l 0]> l)) 0 =
    if decide (i = a) then nth b l 0 else if decide (i = b) then nth a l 0 else nth i l 0).
  { intros i. rewrite !nth_insert by (rewrite ?length_insert; lia). repeat case_decide; subst; done. }
  split_and!; [by rewrite !length_insert| |].
  - intros i Hi. rewrite Hn. repeat case_decide; auto.
  - intros i j Hi Hj. rewrite Hn. unfold swap_rows_of. repeat case_decide; auto.
Qed.

Lemma find_bit_row_spec {E} l A col : bit_rows l A -> (col < 32)%nat -> forall todo r, (r + todo = 32)%nat ->
  exists o, find_bit_row (E := E) l col r todo = Ok o /\
    match o with
    | Some p => (r <= p < 32)%nat /\ A p col = 1
    | None => forall i, (r <= i < 32)%nat -> A i col = 0
    end.
Proof.
  intros (Hl & Hu & Hb) Hc. induction todo as [|todo IH]; intros r Hr; cbn [find_bit_row].
  { exists None. split; [done|]. lia. }
  rewrite (get_at_nth _ _ 0), bind_Ok, bit_set_spec by lia.
  pose proof (Hb r col ltac:(lia) Hc) as Hbit. unfold bits_of in Hbit.
  destruct (Z.testbit (nth r l 0) (Z.of_nat col)).
  - exists (Some r). split; [done|]. split; [lia|done].
  - destruct (IH (S r) ltac:(lia)) as (o & -> & Ho). exists o. split; [done|].
    destruct o as [p|]; [split; [lia|apply Ho]|]. intros i Hi.
    destruct (decide (i = r)) as [->|]; [done|]. apply Ho. lia.
Qed.

(** While column [col] is cleared, rows below [i] are done. *)
Definition clearing (mat : matrix) (col i : nat) (s : crc_matrix * crc_matrix) : Prop :=
  exists A V, bit_rows s.1 A /\ bit_rows s.2 V /\ reduces 32 mat A V /\ unit_columns 32 col A /\
    A col col = 1 /\ forall i', (i' < i)%nat -> i' <> col -> A i' col = 0.

Lemma clear_row_spec {E} mat col row s :
  elem_matrix 32 32 mat -> (col < 32)%nat -> (row < 32)%nat -> clearing mat col row s ->
  spec (clear_row (E := E) col row s) (clearing mat col (S row)) (fun _ => False).
Proof.
  intros Hmat Hc Hr (A & V & HA & HV & Hred & Hunit & Hpiv & Hdone). unfold clear_row.
  destruct (Nat.eqb_spec row col) as [->|Hne].
  { exists A, V. split_and!; try done. intros i' Hi' Hne. apply Hdone; lia. }
  pose proof HA as (HlA & HuA & HbA). pose proof HV as (HlV & _ & _).
  rewrite (get_at_nth s.1 row 0), bind_Ok by lia. cbv beta. rewrite bit_set_spec.
  pose proof (HbA row col Hr Hc) as Hbit. unfold bits_of in Hbit.
  destruct (Z.testbit (nth row s.1 0) (Z.of_nat col)).
  - rewrite (get_at_nth s.1 col 0), bind_Ok, set_at_ok, bind_Ok by lia.
    rewrite (get_at_nth s.2 row 0), bind_Ok, (get_at_nth s.2 col 0), bind_Ok, set_at_ok, bind_Ok by lia.
    eexists _, _. cbn [fst snd].
    split; [by apply bit_rows_xor|]. split; [by apply bit_rows_xor|]. split.
    { apply (reduces_op 32 mat A V _ _ (add_op row col 1)); [done|done| | |].
      - apply add_op_ok; [done..|]. cbn. auto.
      - apply apply_add, Hred.
      - apply apply_add, Hred. }
    split_and!.
    + apply unit_columns_with_row; [done|done|]. intros j Hj. rewrite (Hunit col j) by lia.
      unfold identity. rewrite decide_False by lia. apply Z.lxor_0_r.
    + unfold with_row. by rewrite decide_False.
    + intros i' Hi' Hne'. unfold with_row. case_decide as Hrow; [|apply Hdone; lia].
      rewrite Hpiv, <- Hbit. done.
  - exists A, V. split_and!; try done. intros i' Hi' Hne'.
    destruct (decide (i' = row)) as [->|]; [by rewrite <- Hbit|]. apply Hdone; lia.
Qed.

(** The state before column [col]. *)
Definition reduced_upto (mat : matrix) (col : nat) (s : crc_matrix * crc_matrix) : Prop :=
  exists A V, bit_rows s.1 A /\ bit_rows s.2 V /\ reduces 32 mat A V /\ unit_columns 32 col A.

Lemma swap_spec {E} mat col piv (l r : list Z) A V :
  elem_matrix 32 32 mat -> (col <= piv < 32)%nat -> bit_rows l A -> bit_rows r V ->
  reduces 32 mat A V -> unit_columns 32 col A -> A piv col = 1 ->
  spec (l' ← swap_at (E := E) l col piv; r' ← swap_at r col piv; Ok (l', r'))
    (clearing mat col 0) (fun _ => False).
Proof.
  intros Hmat Hp Hl Hr Hred Hunit Hpiv.
  eapply spec_bind; [apply (bit_rows_swap l A); [done|lia..]|]. intros l' Hl'.
  eapply spec_bind; [apply (bit_rows_swap r V); [done|lia..]|]. intros r' Hr'.
  eexists _, _. cbn [fst snd]. split; [exact Hl'|]. split; [exact Hr'|]. split_and!; [| | |lia].
  - apply (reduces_op 32 mat A V _ _ (swap_op col piv)); [done|done| | |].
    + apply swap_op_ok; lia.
    + apply apply_swap; [lia..|apply Hred].
    + apply apply_swap; [lia..|apply Hred].
  - intros i j Hi Hj. unfold swap_rows_of. repeat case_decide; subst; rewrite ?Hunit by lia; try done;
      unfold identity; rewrite !decide_False by lia; done.
  - unfold swap_rows_of. by rewrite decide_True.
Qed.

Lemma invert_columns_spec {E} mat todo col s :
  elem_matrix 32 32 mat -> (col + todo = 32)%nat -> reduced_upto mat col s ->
  spec (invert_columns (E := E) todo col s)
    (fun o => match o with
              | Some s' => reduced_upto mat 32 s'
              | None => singular 32 mat
              end) (fun _ => False).
Proof.
  intros Hmat. revert col s. induction todo as [|todo IH]; intros col s Hsum Hs; cbn [invert_columns].
  { cbn. by replace 32%nat with col by lia. }
  destruct Hs as (A & V & HA & HV & Hred & Hunit).
  destruct (find_bit_row_spec (E := E) s.1 A col HA ltac:(lia) (32 - col) col ltac:(lia)) as (o & -> & Ho).
  rewrite bind_Ok. destruct o as [piv|]; [|by eapply (no_pivot_singular 32 mat col A V); [lia|..]].
  destruct Ho as [Hp Hpiv].
  pose proof (swap_spec (E := E) mat col piv s.1 s.2 A V Hmat Hp HA HV Hred Hunit Hpiv) as Hswap.
  destruct (swap_at s.1 col piv) as [l'| |]; [|done..]. cbn [mbind outcome_bind] in *.
  destruct (swap_at s.2 col piv) as [r'| |]; [|done..]. cbn [mbind outcome_bind] in *.
  eapply spec_bind.
  { apply (spec_for_range (clearing mat col) _ 0 32); [exact Hswap|].
    intros i s' Hi Hs'. apply clear_row_spec; [done|lia|lia|done]. }
  intros s' (A' & V' & HA' & HV' & Hred' & Hunit' & Hpiv' & Hdone').
  apply IH; [lia|]. exists A', V'. split_and!; try done.
  intros i' j Hi' Hj. destruct (decide (j = col)) as [->|]; [|apply Hunit'; lia].
  unfold identity. case_decide; [by subst|]. apply Hdone'; [lia|done].
Qed.

(** ** The inverse operator *)

Lemma apply_mat_bits m w i (N : matrix) :
  (forall k, (k < 32)%nat -> bits_of (nth k m 0) i = N i k) ->
  bits_of (apply_mat m w) i = dot 32 (N i) (bits_of w).
Proof.
  intros HN. unfold bits_of, apply_mat. rewrite xsum_testbit. apply xsum_ext. intros k Hk.
  rewrite <- HN by done. unfold column_at, bits_of. cbn [gf_mul gf2]. rewrite land_bits.
  destruct (Z.testbit w (Z.of_nat k)); [by rewrite andb_true_r|]. rewrite Z.bits_0, andb_false_r. done.
Qed.

Lemma bits_of_eq a b : u32 a -> u32 b -> (forall i, (i < 32)%nat -> bits_of a i = bits_of b i) -> a = b.
Proof.
  intros Ha Hb H. apply (word_eq 32); [done..|]. intros j Hj. specialize (H j Hj). unfold bits_of in H.
  destruct (Z.testbit a _), (Z.testbit b _); done.
Qed.

Lemma bits_of_pow2 i j : bits_of (2 ^ Z.of_nat i) j = identity i j.
Proof.
  unfold bits_of, identity. rewrite Z.pow2_bits_eqb by lia.
  case_decide; [subst; by rewrite Z.eqb_refl|]. rewrite (proj2 (Z.eqb_neq _ _)) by lia. done.
Qed.

Lemma apply_mat_u32 m v : (forall i, (i < 32)%nat -> u32 (nth i m 0)) -> u32 (apply_mat m v).
Proof.
  intros H. apply xsum_u32. intros i Hi. unfold column_at. destruct (Z.testbit v _); auto with gf.
Qed.

Lemma identity_rows : bit_rows identity_op identity.
Proof.
  destruct identity_matrix as [Hl Hi]. split; [done|]. split.
  - intros i Hi'. rewrite Hi by done. by apply u32_pow2.
  - intros i j Hi' Hj. rewrite Hi by done. apply bits_of_pow2.
Qed.

(** The rows of the matrix that [m] stores by columns. *)
Definition rows_of (m : crc_matrix) : matrix := fun i j => bits_of (nth j m 0) i.

Lemma rows_of_elem m : elem_matrix 32 32 (rows_of m).
Proof. intros i j _ _. apply gf2_bit. Qed.

Lemma columns_rows m out : columns_upto m out 32 -> bit_rows out (rows_of m).
Proof.
  intros Hc. destruct (Hc) as [Hl Ho]. split; [done|]. split.
  - intros i Hi. rewrite Ho by done. apply word_of_range.
  - intros i j Hi Hj. unfold rows_of. by apply columns_upto_bits.
Qed.

Lemma unit_rows_check l A : bit_rows l A -> unit_columns 32 32 A ->
  forallb (fun '(row, bits) => bits =? Z.shiftl 1 (Z.of_nat row)) (zip (seq 0 (length l)) l) = true.
Proof.
  intros (Hl & Hu & Hb) Hunit. apply forallb_forall. intros [row bits] Hin%list_elem_of_In.
  apply list_elem_of_lookup_1 in Hin as [k Hk]. apply lookup_zip_with_Some in Hk as (x & y & [= -> ->] & Hx & Hy).
  apply lookup_seq in Hx as [-> Hlt]. rewrite Nat.add_0_l. apply Z.eqb_eq. rewrite Z.shiftl_1_l.
  apply (nth_lookup_Some _ _ 0) in Hy. rewrite <- Hy. rewrite Hl in Hlt.
  apply bits_of_eq; [by apply Hu|by apply u32_pow2|]. intros j Hj.
  rewrite Hb by done. rewrite Hunit by done. symmetry. apply bits_of_pow2.
Qed.

Lemma mat_invert_spec {E} m : length m = 32%nat -> (forall i, (i < 32)%nat -> u32 (nth i m 0)) ->
  exists o, crc32_mat_invert (E := E) m = Ok o /\
    match o with
    | Some inv => length inv = 32%nat /\ forall v, u32 v -> apply_mat inv (apply_mat m v) = v
    | None => singular 32 (rows_of m)
    end.
Proof.
  intros Hm Hu. unfold crc32_mat_invert. fold identity_op.
  pose proof (transpose_spec (E := E) m Hm) as Ht. destruct (transpose m _) as [lhs| |]; [|done..].
  rewrite bind_Ok. cbv beta zeta.
  assert (Hstart : reduced_upto (rows_of m) 0 (lhs, identity_op)).
  { exists (rows_of m), identity. cbn [fst snd].
    split_and!; [by apply columns_rows|apply identity_rows|apply reduces_refl, rows_of_elem|intros i j; lia]. }
  pose proof (invert_columns_spec (E := E) (rows_of m) 32 0 _ (rows_of_elem m) eq_refl Hstart) as Hinv.
  destruct (invert_columns 32 0 _) as [[[l r]|]| |]; [| |done..].
  2: { exists None. split; [done|exact Hinv]. }
  rewrite bind_Ok. destruct Hinv as (A & V & HA & HV & Hred & Hunit). cbn [fst snd] in *.
  rewrite (unit_rows_check l A HA Hunit).
  pose proof (transpose_back_spec (E := E) r (proj1 HV)) as Hb.
  destruct (transpose_back r _) as [inv| |]; [|done..]. rewrite bind_Ok.
  exists (Some inv). split; [done|]. destruct (Hb) as [Hl Hc]. split; [done|]. intros v Hv.
  apply bits_of_eq; [|done|].
  { apply apply_mat_u32. intros i Hi. rewrite Hc by done. apply word_of_range. }
  intros i Hi. rewrite (apply_mat_bits inv _ i V).
  2: { intros k Hk. rewrite (columns_upto_bits r inv i k Hb Hi Hk). destruct HV as (_ & _ & HV). auto. }
  transitivity (dot 32 (V i) (fun k => dot 32 (rows_of m k) (bits_of v))).
  { apply xsum_ext. intros k Hk. f_equal. apply apply_mat_bits. done. }
  assert (HVi : elem_vector 32 (V i)) by (intros k Hk; by apply Hred).
  rewrite <- (xsum_dot 32 32 (V i) (rows_of m) (bits_of v) HVi (rows_of_elem m) (bits_elem v 32)).
  rewrite <- (dot_identity 32 i (bits_of v) Hi (bits_elem v 32)).
  apply xsum_ext. intros s Hs. f_equal. rewrite (red_product _ _ _ _ Hred) by done. by apply Hunit.
Qed.

(** Feeding zero bits loses nothing. *)
Lemma crc_shift_injective v : u32 v -> crc_shift v = 0 -> v = 0.
Proof.
  intros Hv H. unfold crc_shift in H. unfold u32 in Hv.
  assert (H31 : Z.testbit (Z.lxor (Z.shiftr v 1) (if Z.testbit v 0 then CRC32_COMBINE_POLY else 0)) 31 = false)
    by (by rewrite H, Z.bits_0).
  rewrite Z.lxor_spec, Z.shiftr_spec in H31 by lia. rewrite (testbit_high v 32) in H31 by lia.
  destruct (Z.testbit v 0) eqn:Hb; [done|]. rewrite Z.lxor_0_r in H.
  assert (Hodd : v mod 2 = 0) by (rewrite <- Z.bit0_mod, Hb; done).
  rewrite Z.shiftr_div_pow2 in H by lia. dlia.
Qed.
Lemma zero_bits_injective n v : u32 v -> zero_bits n v = 0 -> v = 0.
Proof.
  intros Hv. unfold zero_bits. induction (Z.to_nat n) as [|k IH]; [done|].
  cbn [Nat.iter nat_rect]. intros H. apply IH. apply crc_shift_injective; [|exact H].
  by apply (lin_range _ (iter_linear k _ crc_shift_linear)).
Qed.

Lemma zero_bits_nonsingular m n : represents m (zero_bits n) -> ~ singular 32 (rows_of m).
Proof.
  intros Hm (x & Hx & (j & Hj & Hxj) & Hker).
  set (v := word_of 32 (fun k => x k =? 1)).
  assert (Hbits : forall k, (k < 32)%nat -> bits_of v k = x k).
  { intros k Hk. unfold bits_of, v. rewrite word_of_testbit, (proj2 (Nat.ltb_lt _ _)) by done.
    destruct (Hx k Hk) as [-> | ->]; done. }
  assert (Hv : u32 v) by apply word_of_range.
  assert (H0 : apply_mat m v = 0).
  { apply bits_of_eq; [|apply u32_0|].
    - apply apply_mat_u32. intros i Hi. destruct Hm as [_ Hm]. rewrite Hm by done.
      apply zero_bits_linear. by apply u32_pow2.
    - intros i Hi. rewrite (apply_mat_bits m v i (rows_of m)) by done.
      transitivity (dot 32 (rows_of m i) x); [|rewrite Hker by done; unfold bits_of; by rewrite Z.bits_0].
      apply xsum_ext. intros k Hk. by rewrite Hbits. }
  rewrite (apply_represents m (zero_bits n)) in H0 by (done || apply zero_bits_linear).
  apply zero_bits_injective in H0; [|done].
  apply Hxj. rewrite <- Hbits by done. rewrite H0. unfold bits_of. by rewrite Z.bits_0.
Qed.

Lemma uncombine_crc {E} a b : zlen b < 2 ^ 64 ->
  crc32_uncombine (E := E) (crc32_iso_hdlc (a ++ b)) (crc32_iso_hdlc b) (zlen b) = Ok (crc32_iso_hdlc a).
Proof.
  intros Hb. pose proof (zlen_nonneg b). unfold crc32_uncombine, Crc32UncombineOp_new.
  pose proof (combine_new_spec (E := E) (zlen b) ltac:(lia)) as H1.
  destruct (Z.eqb_spec (zlen b) 0) as [H0|Hn].
  - rewrite H1. cbn. apply zlen_0_nil in H0 as ->. by rewrite app_nil_r.
  - destruct H1 as (m & -> & Hm). rewrite bind_Ok. cbn [op].
    destruct (mat_invert_spec (E := E) m (proj1 Hm)) as (o & -> & Ho).
    { intros i Hi. destruct Hm as [_ Hm]. rewrite Hm by done. apply zero_bits_linear. by apply u32_pow2. }
    rewrite !bind_Ok. destruct o as [inv|]; [|by destruct (zero_bits_nonsingular m _ Hm Ho)].
    destruct Ho as [Hl Hinv]. unfold uncombine. cbn [inverse].
    rewrite crc_app, Z.lxor_assoc, Z.lxor_nilpotent, Z.lxor_0_r.
    rewrite mat_vec_spec; [|done|apply zero_bits_linear, crc_range].
    f_equal. rewrite <- (Hinv (crc32_iso_hdlc a)) at 2 by apply crc_range. f_equal. symmetry.
    apply apply_represents; [done|apply zero_bits_linear|apply crc_range].
Qed.

(** * Properties *)

(** C25 (CRC of a concatenation): where the CRC routine computes
    CRC-32/ISO-HDLC, combining the CRCs of two byte strings with the length of
    the second gives the CRC of the two written one after the other, for any
    length a [u64] holds. *)
Theorem crc32_combine_concatenates {E} (crc32 : list byte -> Z) (a b : list byte) :
  (forall data, crc32 data = crc32_iso_hdlc data) -> zlen b < 2 ^ 64 ->
  crc32_combine (E := E) (crc32 a) (crc32 b) (zlen b) = Ok (crc32 (a ++ b)).
Proof. intros Hcrc Hb. rewrite !Hcrc. by apply combine_crc. Qed.

Lemma crc32_combine_concatenates_witness :
  crc32_combine (E := unit) (crc32_iso_hdlc [x61; x62]) (crc32_iso_hdlc [x63]) (zlen [x63]) =
    Ok (crc32_iso_hdlc [x61; x62; x63]).
Proof. apply (crc32_combine_concatenates (E := unit) crc32_iso_hdlc [x61; x62] [x63]); [reflexivity|reflexivity]. Defined.

(** From the CRC of a concatenation and the CRC and
    length of its suffix the CRC of the prefix is recovered; the matrix of the
    suffix is always inverted. *)
Theorem crc32_uncombine_recovers_prefix {E} (crc32 : list byte -> Z) (a b : list byte) :
  (forall data, crc32 data = crc32_iso_hdlc data) -> zlen b < 2 ^ 64 ->
  crc32_uncombine (E := E) (crc32 (a ++ b)) (crc32 b) (zlen b) = Ok (crc32 a).
Proof. intros Hcrc Hb. rewrite !Hcrc. by apply uncombine_crc. Qed.

Lemma crc32_uncombine_recovers_prefix_witness :
  crc32_uncombine (E := unit) (crc32_iso_hdlc [x61; x62; x63]) (crc32_iso_hdlc [x63]) (zlen [x63]) =
    Ok (crc32_iso_hdlc [x61; x62]).
Proof. apply (crc32_uncombine_recovers_prefix (E := unit) crc32_iso_hdlc [x61; x62] [x63]); [reflexivity|reflexivity]. Defined.
