(* ===== verification/Md5Spec.v ===== *)
(** MD5 as a function of the whole message: the padding, the blocks and the
    64 rounds of RFC 1321, against which the streaming hasher of
    [crates/par2-rs/src/md5_asm.rs] and the multi-buffer kernels of
    [crates/par2-rs/src/md5_simd.rs] are proved. The round schedule is the
    [md5_block_rounds!] macro of the latter, shared by every kernel; the
    plain instance of its operations is [scalar_op!]. *)
From S2P Require Import Prelude.

(** The four state words [a], [b], [c], [d]: of [u32]s or of vectors. *)
Record quad (V : Type) : Type := Quad { qa : V; qb : V; qc : V; qd : V }.
Arguments Quad {V}. Arguments qa {V}. Arguments qb {V}. Arguments qc {V}. Arguments qd {V}.

(** * Primitive operations of a kernel

    One arm of an [$op!] macro per field. [store] writes the lanes of a vector
    into an array; [load] reads one 64-byte block per pointer and transposes
    the words, lane [l]'s word [w] landing in element [l] of word [w]. *)
Class Md5Ops := {
  vec : Type;
  lanes : nat;
  op_add : vec -> vec -> vec;
  op_splat : Z -> vec;
  op_splat_i : Z -> vec;
  op_acc_f : vec -> vec -> vec -> vec -> vec;
  op_acc_g : vec -> vec -> vec -> vec -> vec;
  op_acc_h : vec -> vec -> vec -> vec -> vec;
  op_acc_i : vec -> vec -> vec -> vec -> vec;
  op_rotl : vec -> Z -> Z -> vec;
  op_store : vec -> list Z;
  op_load : list (list byte) -> list vec;
}.

(** * The round schedule *)

Inductive step_kind := StepF | StepG | StepH | StepI.

Section rounds.
Context {ops : Md5Ops}.

(** [md5_step_f!] to [md5_step_i!]: [a = b + rotl(a + F(b, c, d) + K + M, s)],
    with the roles rotated for the next step. *)
Definition md5_step (kind : step_kind) (q : quad vec) (m : vec) (k s rs : Z) : quad vec :=
  let '(Quad a b c d) := q in
  let a := op_add a (op_add (match kind with StepI => op_splat_i k | _ => op_splat k end) m) in
  let a := match kind with
           | StepF => op_acc_f a b c d | StepG => op_acc_g a b c d
           | StepH => op_acc_h a b c d | StepI => op_acc_i a b c d
           end in
  let a := op_add b (op_rotl a s rs) in
  Quad d a b c.
End rounds.

(** One line of [md5_block_rounds!]: the message word, the constant and the
    rotation with its complement. *)
Record round := Round { r_kind : step_kind; r_word : nat; r_const : Z; r_rot : Z; r_rot' : Z }.

Definition schedule : list round := [
  Round StepF 0 0xd76aa478 7 25; Round StepF 1 0xe8c7b756 12 20; Round StepF 2 0x242070db 17 15; Round StepF 3 0xc1bdceee 22 10;
  Round StepF 4 0xf57c0faf 7 25; Round StepF 5 0x4787c62a 12 20; Round StepF 6 0xa8304613 17 15; Round StepF 7 0xfd469501 22 10;
  Round StepF 8 0x698098d8 7 25; Round StepF 9 0x8b44f7af 12 20; Round StepF 10 0xffff5bb1 17 15; Round StepF 11 0x895cd7be 22 10;
  Round StepF 12 0x6b901122 7 25; Round StepF 13 0xfd987193 12 20; Round StepF 14 0xa679438e 17 15; Round StepF 15 0x49b40821 22 10;
  Round StepG 1 0xf61e2562 5 27; Round StepG 6 0xc040b340 9 23; Round StepG 11 0x265e5a51 14 18; Round StepG 0 0xe9b6c7aa 20 12;
  Round StepG 5 0xd62f105d 5 27; Round StepG 10 0x02441453 9 23; Round StepG 15 0xd8a1e681 14 18; Round StepG 4 0xe7d3fbc8 20 12;
  Round StepG 9 0x21e1cde6 5 27; Round StepG 14 0xc33707d6 9 23; Round StepG 3 0xf4d50d87 14 18; Round StepG 8 0x455a14ed 20 12;
  Round StepG 13 0xa9e3e905 5 27; Round StepG 2 0xfcefa3f8 9 23; Round StepG 7 0x676f02d9 14 18; Round StepG 12 0x8d2a4c8a 20 12;
  Round StepH 5 0xfffa3942 4 28; Round StepH 8 0x8771f681 11 21; Round StepH 11 0x6d9d6122 16 16; Round StepH 14 0xfde5380c 23 9;
  Round StepH 1 0xa4beea44 4 28; Round StepH 4 0x4bdecfa9 11 21; Round StepH 7 0xf6bb4b60 16 16; Round StepH 10 0xbebfbc70 23 9;
  Round StepH 13 0x289b7ec6 4 28; Round StepH 0 0xeaa127fa 11 21; Round StepH 3 0xd4ef3085 16 16; Round StepH 6 0x04881d05 23 9;
  Round StepH 9 0xd9d4d039 4 28; Round StepH 12 0xe6db99e5 11 21; Round StepH 15 0x1fa27cf8 16 16; Round StepH 2 0xc4ac5665 23 9;
  Round StepI 0 0xf4292244 6 26; Round StepI 7 0x432aff97 10 22; Round StepI 14 0xab9423a7 15 17; Round StepI 5 0xfc93a039 21 11;
  Round StepI 12 0x655b59c3 6 26; Round StepI 3 0x8f0ccc92 10 22; Round StepI 10 0xffeff47d 15 17; Round StepI 1 0x85845dd1 21 11;
  Round StepI 8 0x6fa87e4f 6 26; Round StepI 15 0xfe2ce6e0 10 22; Round StepI 6 0xa3014314 15 17; Round StepI 13 0x4e0811a1 21 11;
  Round StepI 4 0xf7537e82 6 26; Round StepI 11 0xbd3af235 10 22; Round StepI 2 0x2ad7d2bb 15 17; Round StepI 9 0xeb86d391 21 11 ].

Section block.
Context {ops : Md5Ops}.

Definition run_round (m : list vec) (q : quad vec) (r : round) : quad vec :=
  md5_step (r_kind r) q (nth (r_word r) m (op_splat 0)) (r_const r) (r_rot r) (r_rot' r).
Definition md5_block_rounds (q : quad vec) (m : list vec) : quad vec :=
  foldl (run_round m) q schedule.

(** The rounds and the addition of the state they started from. *)
Definition md5_block (q : quad vec) (m : list vec) : quad vec :=
  let r := md5_block_rounds q m in
  Quad (op_add (qa r) (qa q)) (op_add (qb r) (qb q)) (op_add (qc r) (qc q)) (op_add (qd r) (qd q)).
End block.

(** * The scalar kernel *)

Definition not32 (x : Z) : Z := Z.lxor x 0xFFFFFFFF.
Definition wadd (x y : Z) : Z := wrap32 (x + y).
Definition rotate_left (x s : Z) : Z := Z.lor (wrap32 (Z.shiftl x s)) (Z.shiftr x (32 - s)).

(** The four auxiliary functions of RFC 1321, as [scalar_op!] has them. *)
Definition mix (kind : step_kind) (b c d : Z) : Z :=
  match kind with
  | StepF => Z.lor (Z.land b c) (Z.land (not32 b) d)
  | StepG => Z.lor (Z.land d b) (Z.land (not32 d) c)
  | StepH => Z.lxor (Z.lxor b c) d
  | StepI => Z.lxor c (Z.lor b (not32 d))
  end.

(** The 16 little-endian words of a 64-byte block. *)
Definition block_words (block : list byte) : list Z :=
  (fun i => u32_le (drop (4 * i) block)) <$> seq 0 16.

(** [scalar_op!] and [scalar_load!]. *)
#[export] Instance scalar_op : Md5Ops := {|
  vec := Z;
  lanes := 1;
  op_add := wadd;
  op_splat := wrap32;
  op_splat_i := wrap32;
  op_acc_f a b c d := wadd a (mix StepF b c d);
  op_acc_g a b c d := wadd a (mix StepG b c d);
  op_acc_h a b c d := wadd a (mix StepH b c d);
  op_acc_i a b c d := wadd a (mix StepI b c d);
  op_rotl v s _ := rotate_left v s;
  op_store v := [v];
  op_load ptrs := block_words (nth 0 ptrs []);
|}.

(** One block through the textbook rounds. *)
Definition md5_compress (q : quad Z) (block : list byte) : quad Z :=
  md5_block (ops := scalar_op) q (block_words block).

(** * The function of a whole message *)

Definition INIT : quad Z := Quad 0x67452301 0xefcdab89 0x98badcfe 0x10325476.

Definition block_at (l : list byte) (i : nat) : list byte := take 64 (drop (64 * i) l).
Definition whole_blocks (l : list byte) : list (list byte) := block_at l <$> seq 0 (length l / 64).

Definition le_words (q : quad Z) : list byte :=
  le_split 4 (qa q) ++ le_split 4 (qb q) ++ le_split 4 (qc q) ++ le_split 4 (qd q).

(** The message, [0x80], zeros up to 8 bytes short of a block, the length in
    bits modulo [2^64]. *)
Definition md_pad (l : list byte) : list byte :=
  l ++ [x80] ++ zreplicate ((55 - zlen l) mod 64) x00 ++ le_split 8 (8 * zlen l).

(** Over any block function, as the assembly one is a parameter. *)
Definition absorb (compress : quad Z -> list byte -> quad Z) (q : quad Z) (l : list byte) : quad Z :=
  foldl compress q (whole_blocks l).
Definition md_digest (compress : quad Z -> list byte -> quad Z) (l : list byte) : list byte :=
  le_words (absorb compress INIT (md_pad l)).
Definition md5 : list byte -> list byte := md_digest md5_compress.

Example md5_abc :
  le_combine (rev (md5 [x61; x62; x63])) = 0x900150983cd24fb0d6963f7d28e17f72.
Proof. vm_compute. reflexivity. Qed.
Example md5_empty : le_combine (rev (md5 [])) = 0xd41d8cd98f00b204e9800998ecf8427e.
Proof. vm_compute. reflexivity. Qed.

(** * Blocks of a concatenation *)

Lemma length_whole_blocks l : length (whole_blocks l) = (length l / 64)%nat.
Proof. unfold whole_blocks. by rewrite length_fmap, length_seq. Qed.

Lemma block_at_app_l a b i : (64 * i + 64 <= length a)%nat -> block_at (a ++ b) i = block_at a i.
Proof.
  intros Hi. unfold block_at. rewrite drop_app, take_app, length_drop.
  replace (64 - (length a - 64 * i))%nat with 0%nat by lia. by rewrite take_0, app_nil_r.
Qed.
Lemma block_at_app_r a b n i : length a = (64 * n)%nat -> block_at (a ++ b) (n + i) = block_at b i.
Proof.
  intros Ha. unfold block_at. rewrite drop_app, (drop_ge a) by lia.
  replace (64 * (n + i) - length a)%nat with (64 * i)%nat by lia. done.
Qed.

Lemma whole_blocks_app a b n : length a = (64 * n)%nat ->
  whole_blocks (a ++ b) = whole_blocks a ++ whole_blocks b.
Proof.
  intros Ha. unfold whole_blocks. rewrite length_app, Ha.
  replace ((64 * n + length b) / 64)%nat with (n + length b / 64)%nat
    by (rewrite (Nat.mul_comm 64 n), (Nat.div_add_l n 64); lia).
  replace (64 * n / 64)%nat with n by (rewrite Nat.mul_comm, Nat.div_mul; lia).
  rewrite seq_app, fmap_app. f_equal.
  - apply list_fmap_ext. intros i j Hj. apply lookup_seq in Hj. apply block_at_app_l. lia.
  - replace (0 + n)%nat with (n + 0)%nat by lia. rewrite <- fmap_add_seq, <- list_fmap_compose.
    apply list_fmap_ext. intros i j Hj. unfold compose. by apply block_at_app_r.
Qed.

Lemma whole_blocks_short a b n : length a = (64 * n)%nat -> (length b < 64)%nat ->
  whole_blocks (a ++ b) = whole_blocks a.
Proof.
  intros Ha Hb. rewrite (whole_blocks_app a b n Ha). unfold whole_blocks at 2.
  rewrite (Nat.div_small (length b)) by lia. apply app_nil_r.
Qed.

Lemma absorb_app compress q a b n : length a = (64 * n)%nat ->
  absorb compress q (a ++ b) = absorb compress (absorb compress q a) b.
Proof. intros Ha. unfold absorb. by rewrite (whole_blocks_app a b n Ha), foldl_app. Qed.
Lemma absorb_short compress q a b n : length a = (64 * n)%nat -> (length b < 64)%nat ->
  absorb compress q (a ++ b) = absorb compress q a.
Proof. intros Ha Hb. unfold absorb. by rewrite (whole_blocks_short a b n). Qed.
Lemma absorb_lt compress q b : (length b < 64)%nat -> absorb compress q b = q.
Proof. intros Hb. apply (absorb_short compress q [] b 0); [done|done]. Qed.

Lemma zlen_md_pad l : zlen (md_pad l) = zlen l + 9 + (55 - zlen l) mod 64.
Proof.
  pose proof (Z.mod_pos_bound (55 - zlen l) 64 ltac:(lia)).
  unfold md_pad. rewrite !zlen_app, zlen_replicate, zlen_le_split by lia. change (zlen [x80]) with 1. lia.
Qed.

(** * The last blocks

    The scratch in which both hashers assemble the end of a message: what is
    left of it [t], the terminator, zeros and the length [n] in bits, in
    [len] of 128 bytes. *)
Definition last_blocks (t : list byte) (len n : Z) : list byte :=
  t ++ [x80] ++ zreplicate (len - 9 - zlen t) x00 ++ le_split 8 n.

Lemma zlen_last_blocks t len n : zlen t + 9 <= len <= 128 -> zlen (last_blocks t len n) = len.
Proof.
  intros. unfold last_blocks. rewrite !zlen_app, zlen_replicate, zlen_le_split by lia.
  change (zlen [x80]) with 1. lia.
Qed.

Lemma tail_scratch {E} t len n : zlen t + 9 <= len <= 128 ->
  (tail ← set_at (t ++ zreplicate (128 - zlen t) x00) (Z.to_nat (zlen t)) x80;
   copy_range tail (len - 8) len (le_split 8 n)) = Ok (E := E) (last_blocks t len n ++ zreplicate (128 - len) x00).
Proof.
  intros Hl. pose proof (zlen_nonneg t). rewrite (zreplicate_S (128 - zlen t)) by lia.
  rewrite set_at_ok, bind_Ok by (rewrite length_app; simpl; unfold zlen; lia).
  rewrite insert_app_r_alt by (unfold zlen; lia). rewrite zlen_of_nat, Nat.sub_diag. cbn [insert list_insert].
  set (h := t ++ [x80]). change (t ++ x80 :: ?z) with (t ++ [x80] ++ z). rewrite app_assoc. fold h.
  assert (zlen h = zlen t + 1) as Hh by (unfold h; rewrite zlen_app; done).
  rewrite copy_range_ok by (rewrite ?zlen_app, ?zlen_replicate, ?zlen_le_split by lia; lia).
  rewrite (ztake_app_ge (len - 8)), ztake_replicate, (zdrop_app_ge len), zdrop_replicate by lia.
  f_equal. unfold last_blocks. rewrite (app_assoc t). fold h. rewrite <- !app_assoc.
  repeat (f_equal; try lia).
Qed.
