(* ===== verification/Md5Stream.v ===== *)
(** The streaming MD5 of [crates/par2-rs/src/md5_asm.rs] and its paired
    update over [crates/par2-rs/src/md5_pair_asm.rs]: buffering, padding and
    length are the Rust code; the assembly block functions are parameters
    ([Md5Asm]) with what those files document of them ([Md5AsmLaws]). *)
From S2P Require Import Prelude Md5Spec.

(** * The assembly

    [compress] advances a state by one 64-byte block; [rounds2] runs the 64
    rounds of two independent chains, without the final addition, which the
    Rust code does. *)
Class Md5Asm := {
  compress : quad Z -> list byte -> quad Z;
  rounds2 : quad Z -> quad Z -> list byte -> list byte -> quad Z * quad Z;
}.

Definition feed_forward (r q : quad Z) : quad Z :=
  Quad (wadd (qa r) (qa q)) (wadd (qb r) (qb q)) (wadd (qc r) (qc q)) (wadd (qd r) (qd q)).

Class Md5AsmLaws (A : Md5Asm) : Prop := {
  rounds2_left l r x y : feed_forward (rounds2 l r x y).1 l = compress l x;
  rounds2_right l r x y : feed_forward (rounds2 l r x y).2 r = compress r y;
}.

(** * Streaming state *)

Record Md5 := mk_md5 { state : quad Z; buffer : list byte; buffered : Z; length_ : Z }.

Definition Md5_new : Md5 := mk_md5 INIT (zreplicate 64 x00) 0 0.

Section stream.
Context {A : Md5Asm} {E : Type}.
#[local] Abbreviation result := (outcome E).

Definition block_data_order (state : quad Z) (data : list byte) (nblocks : Z) : quad Z :=
  foldl compress state (block_at data <$> seq 0 (Z.to_nat nblocks)).

Definition blocks (state : quad Z) (data : list byte) : result (quad Z) :=
  if negb (zlen data mod 64 =? 0) then Panic
  else Ok (foldl (fun state chunk =>
    let nblocks := zlen chunk / 64 in
    if 0 <? nblocks then block_data_order state chunk nblocks else state)
    state (chunks (Z.shiftl 64 20) data)).

(** The end of [update]: whole blocks straight from the input, the rest buffered. *)
Definition update_rest (self : Md5) (data : list byte) : result Md5 :=
  let whole := Z.land (zlen data) (Z.lnot 63) in
  d ← slice data 0 whole;
  st ← blocks (state self) d;
  rest ← slice_from data whole;
  buf ← copy_range (buffer self) 0 (zlen rest) rest;
  Ok (mk_md5 st buf (zlen rest) (length_ self)).

Definition update (self : Md5) (data : list byte) : result Md5 :=
  let self := mk_md5 (state self) (buffer self) (buffered self) (wrap64 (length_ self + zlen data)) in
  if 0 <? buffered self then
    let take := Z.min (64 - buffered self) (zlen data) in
    d ← slice data 0 take;
    buf ← copy_range (buffer self) (buffered self) (buffered self + take) d;
    let self := mk_md5 (state self) buf (buffered self + take) (length_ self) in
    data ← slice_from data take;
    if buffered self <? 64 then Ok self
    else
      st ← blocks (state self) (buffer self);
      update_rest (mk_md5 st (buffer self) 0 (length_ self)) data
  else update_rest self data.

(** [compress_pair] of [md5_pair_asm.rs]. *)
Definition pair_step (s : quad Z * quad Z) (xy : list byte * list byte) : quad Z * quad Z :=
  let r := rounds2 s.1 s.2 xy.1 xy.2 in (feed_forward r.1 s.1, feed_forward r.2 s.2).
Definition compress_pair (left right : quad Z) (x y : list byte) : result (quad Z * quad Z) :=
  if negb (zlen x =? zlen y) then Panic
  else if negb (zlen x mod 64 =? 0) then Panic
  else match x with
  | [] => Ok (left, right)
  | _ => Ok (foldl pair_step (left, right) (zip (whole_blocks x) (whole_blocks y)))
  end.

Definition update_pair_rest (self other : Md5) (data : list byte) : result (Md5 * Md5) :=
  let whole := Z.land (zlen data) (Z.lnot 63) in
  d ← slice data 0 whole;
  st ← compress_pair (state self) (state other) d d;
  rest ← slice_from data whole;
  buf ← copy_range (buffer self) 0 (zlen rest) rest;
  buf' ← copy_range (buffer other) 0 (zlen rest) rest;
  Ok (mk_md5 st.1 buf (zlen rest) (length_ self), mk_md5 st.2 buf' (zlen rest) (length_ other)).

Definition update_pair (self other : Md5) (data : list byte) : result (Md5 * Md5) :=
  if negb (buffered self =? buffered other) then
    self ← update self data; other ← update other data; Ok (self, other)
  else
    let self := mk_md5 (state self) (buffer self) (buffered self) (wrap64 (length_ self + zlen data)) in
    let other := mk_md5 (state other) (buffer other) (buffered other) (wrap64 (length_ other + zlen data)) in
    if 0 <? buffered self then
      let take := Z.min (64 - buffered self) (zlen data) in
      d ← slice data 0 take;
      buf ← copy_range (buffer self) (buffered self) (buffered self + take) d;
      buf' ← copy_range (buffer other) (buffered other) (buffered other + take) d;
      let self := mk_md5 (state self) buf (buffered self + take) (length_ self) in
      let other := mk_md5 (state other) buf' (buffered other + take) (length_ other) in
      data ← slice_from data take;
      if buffered self <? 64 then Ok (self, other)
      else
        st ← compress_pair (state self) (state other) (buffer self) (buffer other);
        update_pair_rest (mk_md5 st.1 (buffer self) 0 (length_ self))
          (mk_md5 st.2 (buffer other) 0 (length_ other)) data
    else update_pair_rest self other data.

Definition finalize (self : Md5) : result (list byte) :=
  let bits := wrap64 (length_ self * 8) in
  let tail := zreplicate 128 x00 in
  b ← slice (buffer self) 0 (buffered self);
  tail ← copy_range tail 0 (buffered self) b;
  tail ← set_at tail (Z.to_nat (buffered self)) x80;
  let len := if buffered self <? 56 then 64 else 128 in
  tail ← copy_range tail (len - 8) len (le_split 8 bits);
  d ← slice tail 0 len;
  st ← blocks (state self) d;
  Ok (le_words st).
End stream.

(** The assembly as the textbook rounds. *)
#[export] Instance textbook : Md5Asm := {|
  compress := md5_compress;
  rounds2 l r x y :=
    (md5_block_rounds (ops := scalar_op) l (block_words x),
     md5_block_rounds (ops := scalar_op) r (block_words y));
|}.
#[export] Instance textbook_laws : Md5AsmLaws textbook.
Proof. by split. Qed.

(** * The streaming hasher computes MD5 of everything it was fed, however the bytes were cut into updates and whether they went through [update] or [update_pair]. *)

(** * Whole blocks of a buffer *)

Lemma land_lnot63 a : Z.land a (Z.lnot 63) = 64 * (a / 64).
Proof.
  change (Z.land a (Z.lnot 63)) with (Z.land a (Z.lnot (Z.ones 6))).
  rewrite <- Z.ldiff_land, Z.ldiff_ones_r, Z.shiftr_div_pow2, Z.shiftl_mul_pow2 by lia.
  change (2 ^ 6) with 64. lia.
Qed.

Section props.
Context {A : Md5Asm} {laws : Md5AsmLaws A} {E : Type}.
#[local] Abbreviation result := (outcome E).
Implicit Types (q : quad Z) (d p : list byte).

(** A list of a whole number of blocks. *)
Definition whole d : Prop := exists n, length d = (64 * n)%nat.

Lemma whole_zlen d : zlen d mod 64 = 0 -> whole d.
Proof. intros H. exists (Z.to_nat (zlen d / 64)). unfold zlen in *. dlia. Qed.
Lemma whole_mod d : whole d -> zlen d mod 64 = 0.
Proof. intros [n Hn]. unfold zlen. rewrite Hn. dlia. Qed.

Lemma absorb_whole q d d' : whole d -> absorb compress q (d ++ d') = absorb compress (absorb compress q d) d'.
Proof. intros [n Hn]. by apply (absorb_app _ _ _ _ n). Qed.

Lemma block_data_order_absorb q d : whole d -> block_data_order q d (zlen d / 64) = absorb compress q d.
Proof.
  intros [n Hn]. unfold block_data_order, absorb, whole_blocks. f_equal. f_equal. f_equal.
  unfold zlen. rewrite Hn, (Nat.mul_comm 64 n), Nat.div_mul by lia. dlia.
Qed.

Lemma chunks_absorb fuel q d : (length d <= fuel)%nat -> whole d ->
  foldl (fun q chunk => let nblocks := zlen chunk / 64 in
          if 0 <? nblocks then block_data_order q chunk nblocks else q)
    q (chunks_loop fuel (Z.shiftl 64 20) d) = absorb compress q d.
Proof.
  change (Z.shiftl 64 20) with 67108864.
  revert q d. induction fuel as [|fuel IH]; intros q d Hd Hw.
  - destruct d; [done|simpl in Hd; lia].
  - destruct (decide (d = [])) as [->|Hne]; [done|]. rewrite chunks_loop_S by done. cbn [foldl].
    pose proof (whole_mod d Hw) as Hm.
    assert (0 < zlen d) by (destruct d; [done|]; rewrite zlen_cons; pose proof (zlen_nonneg d); lia).
    assert (zlen (ztake 67108864 d) mod 64 = 0) as Ht by (rewrite zlen_take by lia; dlia).
    assert (zlen (zdrop 67108864 d) mod 64 = 0) as Hr by (rewrite zlen_drop by lia; dlia).
    assert (whole (ztake 67108864 d)) as Hwt by (by apply whole_zlen).
    rewrite (proj2 (Z.ltb_lt _ _)) by (rewrite zlen_take in * by lia; dlia).
    rewrite (block_data_order_absorb _ _ Hwt), IH.
    + rewrite <- absorb_whole by done. by rewrite ztake_zdrop by lia.
    + rewrite zdrop_nat, length_drop by lia. unfold zlen in *. lia.
    + by apply whole_zlen.
Qed.

Lemma blocks_absorb q d : whole d -> blocks (E := E) q d = Ok (absorb compress q d).
Proof.
  intros Hw. unfold blocks. rewrite (proj2 (Z.eqb_eq _ _)) by (by apply whole_mod). cbn [negb].
  f_equal. by apply chunks_absorb.
Qed.

Lemma pair_fold l r bs bs' : length bs = length bs' ->
  foldl pair_step (l, r) (zip bs bs') = (foldl compress l bs, foldl compress r bs').
Proof.
  revert l r bs'. induction bs as [|b bs IH]; intros l r [|b' bs']; try done. intros Hl.
  cbn [zip zip_with foldl]. unfold pair_step at 2. cbn [fst snd].
  rewrite rounds2_left, rounds2_right. apply IH. simpl in Hl. lia.
Qed.

Lemma compress_pair_absorb l r x y : whole x -> zlen x = zlen y ->
  compress_pair (E := E) l r x y = Ok (absorb compress l x, absorb compress r y).
Proof.
  intros Hw Hl. unfold compress_pair. rewrite Hl, Z.eqb_refl, <- Hl. cbn [negb].
  rewrite (proj2 (Z.eqb_eq _ _)) by (by apply whole_mod). cbn [negb].
  destruct x as [|b x].
  - destruct y; [done|]. rewrite zlen_cons in Hl. pose proof (zlen_nonneg y). rewrite zlen_nil in Hl. lia.
  - f_equal. apply pair_fold. rewrite !length_whole_blocks. f_equal. unfold zlen in Hl. lia.
Qed.

(** * What a hasher has absorbed

    The message so far is its whole blocks, which the state is of, and less
    than a block, which the buffer begins with. *)
Record fed (self : Md5) (p : list byte) : Prop := {
  fed_length : length_ self = wrap64 (zlen p);
  fed_size : zlen (buffer self) = 64;
  fed_split : exists w t, p = w ++ t /\ whole w /\ zlen t < 64 /\ buffered self = zlen t /\
    ztake (zlen t) (buffer self) = t /\ state self = absorb compress INIT w;
}.

Lemma fed_new : fed Md5_new [].
Proof. split; [done|done|]. exists [], []. repeat split; try done. by exists 0%nat. Qed.

(** The split is a function of the message. *)
Lemma fed_buffered self p : fed self p -> buffered self = zlen p mod 64.
Proof.
  intros [_ _ (w & t & -> & Hw & Ht & -> & _)]. pose proof (whole_mod w Hw).
  rewrite zlen_app. pose proof (zlen_nonneg t). dlia.
Qed.

(** Splitting an input at its last whole block. *)
Lemma split_whole d : let n := Z.land (zlen d) (Z.lnot 63) in
  0 <= n <= zlen d /\ whole (ztake n d) /\ zlen (zdrop n d) < 64 /\ d = ztake n d ++ zdrop n d.
Proof.
  intros n. subst n. rewrite land_lnot63. pose proof (zlen_nonneg d).
  assert (0 <= 64 * (zlen d / 64) <= zlen d) by dlia. repeat split; [lia|lia| | |].
  - apply whole_zlen. rewrite zlen_take by lia. dlia.
  - rewrite zlen_drop by lia. dlia.
  - by rewrite ztake_zdrop by lia.
Qed.

Lemma fed_rest st buf n w rest : whole w -> zlen buf = 64 -> n = wrap64 (zlen (w ++ rest)) ->
  st = absorb compress INIT w -> zlen rest < 64 ->
  fed (mk_md5 st (ztake 0 buf ++ rest ++ zdrop (zlen rest) buf) (zlen rest) n) (w ++ rest).
Proof.
  intros Hw Hbuf -> -> Hrest. pose proof (zlen_nonneg rest).
  assert (ztake 0 buf = []) as -> by (apply zlen_0_nil; rewrite zlen_take by lia; lia).
  split; cbn [length_ buffer buffered state app]; [done| |].
  - rewrite zlen_app, zlen_drop by lia. lia.
  - exists w, rest. repeat split; try done. apply ztake_app_zlen.
Qed.

Lemma update_rest_fed self w d :
  whole w -> state self = absorb compress INIT w -> zlen (buffer self) = 64 ->
  length_ self = wrap64 (zlen (w ++ d)) ->
  spec (update_rest (E := E) self d) (fun self => fed self (w ++ d)) (fun _ => False).
Proof.
  intros Hw Hs Hb Hn. unfold update_rest. destruct (split_whole d) as (Hr & Hwd & Ht & Hd).
  set (n := Z.land (zlen d) (Z.lnot 63)) in *.
  rewrite slice_ok, bind_Ok, zdrop_0, Z.sub_0_r by lia. rewrite blocks_absorb, bind_Ok by done.
  rewrite slice_from_ok, bind_Ok by lia.
  rewrite copy_range_ok, bind_Ok by (pose proof (zlen_nonneg (zdrop n d)); lia). cbn [spec].
  assert (w ++ d = (w ++ ztake n d) ++ zdrop n d) as Heq by (rewrite <- app_assoc; by f_equal).
  rewrite Heq in *.
  apply fed_rest; [|done|done| |done].
  - destruct Hw as [a Ha], Hwd as [b Hb']. exists (a + b)%nat. rewrite length_app. lia.
  - by rewrite Hs, absorb_whole.
Qed.

Lemma wrap64_add a b : wrap64 (wrap64 a + b) = wrap64 (a + b).
Proof. unfold wrap64. by rewrite Zplus_mod_idemp_l. Qed.

Lemma whole_app w d : whole w -> whole d -> whole (w ++ d).
Proof. intros [n Hn] [m Hm]. exists (n + m)%nat. rewrite length_app. lia. Qed.

(** The buffer after the input that fits in it was copied behind the tail. *)
Lemma fill_buffer buf t d n : zlen buf = 64 -> ztake (zlen t) buf = t -> 0 <= n <= zlen d -> zlen t + n <= 64 ->
  exists buf', copy_range (E := E) buf (zlen t) (zlen t + n) (ztake n d) = Ok buf' /\
    zlen buf' = 64 /\ ztake (zlen t + n) buf' = t ++ ztake n d.
Proof.
  intros Hb Ht Hn Hs. pose proof (zlen_nonneg t). eexists. split; [|split].
  - rewrite copy_range_ok; [reflexivity|lia| |lia]. rewrite zlen_take; lia.
  - rewrite Ht, !zlen_app, zlen_take, zlen_drop by lia. lia.
  - rewrite Ht, app_assoc.
    replace (zlen t + n) with (zlen (t ++ ztake n d)) at 1 by (rewrite zlen_app, zlen_take by lia; lia).
    apply ztake_app_zlen.
Qed.

(** A buffer that is not yet full keeps everything. *)
Lemma fed_short self w t d buf n : whole w -> state self = absorb compress INIT w ->
  zlen buf = 64 -> zlen t + zlen d < 64 -> n = zlen t + zlen d ->
  ztake n buf = t ++ ztake (zlen d) d -> length_ self = wrap64 (zlen ((w ++ t) ++ d)) ->
  fed (mk_md5 (state self) buf n (length_ self)) ((w ++ t) ++ d).
Proof.
  intros Hw Hs Hb Hlt -> Ht Hl. rewrite (ztake_all d) in Ht by lia.
  split; cbn [length_ buffer buffered state]; [done|done|].
  exists w, (t ++ d). rewrite zlen_app, app_assoc. repeat split; done.
Qed.

Lemma update_fed self p d : fed self p ->
  spec (update (E := E) self d) (fun self => fed self (p ++ d)) (fun _ => False).
Proof.
  intros [Hl Hb (w & t & -> & Hw & Ht & Hn & Htk & Hs)]. unfold update.
  pose proof (zlen_nonneg t). pose proof (zlen_nonneg d).
  cbn [buffered state buffer length_]. rewrite Hl, Hn, wrap64_add, <- zlen_app.
  destruct (Z.ltb_spec 0 (zlen t)).
  2: { assert (t = []) as -> by (apply zlen_0_nil; lia). rewrite !app_nil_r in *.
       by apply update_rest_fed. }
  set (n := Z.min (64 - zlen t) (zlen d)). assert (0 <= n <= zlen d /\ zlen t + n <= 64) as [Hnr Hnt] by lia.
  rewrite slice_ok, bind_Ok, zdrop_0, Z.sub_0_r by lia.
  destruct (fill_buffer (buffer self) t d n) as (buf & -> & Hbl & Hbt); [done..|]. rewrite bind_Ok.
  rewrite slice_from_ok, bind_Ok by lia. cbn [buffered state buffer length_].
  destruct (Z.ltb_spec (zlen t + n) 64).
  - cbn [spec]. replace n with (zlen d) in * by lia.
    apply (fed_short (mk_md5 (state self) buf 0 (wrap64 (zlen ((w ++ t) ++ d)))) w t d buf); try done; lia.
  - rewrite ztake_all in Hbt by lia. assert (whole buf) as Hwb by (apply whole_zlen; by rewrite Hbl).
    rewrite blocks_absorb, bind_Ok by done.
    assert ((w ++ t) ++ d = (w ++ buf) ++ zdrop n d) as Heq
      by (rewrite Hbt, <- !app_assoc; by rewrite ztake_zdrop by lia).
    rewrite Heq. apply update_rest_fed; cbn [state buffer length_]; [by apply whole_app| |done|done].
    by rewrite Hs, absorb_whole.
Qed.

(** ** Two chains at once *)

Definition fed2 (s : Md5 * Md5) (p p' : list byte) : Prop := fed s.1 p /\ fed s.2 p'.

Lemma update_pair_rest_fed self other w w' d :
  whole w -> state self = absorb compress INIT w -> zlen (buffer self) = 64 ->
  length_ self = wrap64 (zlen (w ++ d)) ->
  whole w' -> state other = absorb compress INIT w' -> zlen (buffer other) = 64 ->
  length_ other = wrap64 (zlen (w' ++ d)) ->
  spec (update_pair_rest (E := E) self other d) (fun s => fed2 s (w ++ d) (w' ++ d)) (fun _ => False).
Proof.
  intros Hw Hs Hb Hn Hw' Hs' Hb' Hn'. unfold update_pair_rest.
  destruct (split_whole d) as (Hr & Hwd & Ht & Hd).
  set (n := Z.land (zlen d) (Z.lnot 63)) in *. pose proof (zlen_nonneg (zdrop n d)).
  rewrite slice_ok, bind_Ok, zdrop_0, Z.sub_0_r by lia. rewrite compress_pair_absorb, bind_Ok by done.
  rewrite slice_from_ok, bind_Ok by lia.
  rewrite (copy_range_ok (buffer self)), bind_Ok by lia. rewrite copy_range_ok, bind_Ok by lia. cbn [spec].
  assert (forall w, w ++ d = (w ++ ztake n d) ++ zdrop n d) as Heq by (intros; rewrite <- app_assoc; by f_equal).
  rewrite !Heq in *. split; (apply fed_rest; [by apply whole_app|done|done| |done]); cbn [fst snd].
  - by rewrite Hs, absorb_whole.
  - by rewrite Hs', absorb_whole.
Qed.

Lemma update_pair_fed self other p p' d : fed self p -> fed other p' ->
  spec (update_pair (E := E) self other d) (fun s => fed2 s (p ++ d) (p' ++ d)) (fun _ => False).
Proof.
  intros Hf Hf'. unfold update_pair. destruct (Z.eqb_spec (buffered self) (buffered other)) as [Heq|_]; cbn [negb].
  2: { eapply spec_bind; [by apply update_fed|]. intros a Ha. eapply spec_bind; [by apply update_fed|].
       intros b Hb. by split. }
  destruct Hf as [Hl Hb (w & t & -> & Hw & Ht & Hn & Htk & Hs)].
  destruct Hf' as [Hl' Hb' (w' & t' & -> & Hw' & Ht' & Hn' & Htk' & Hs')].
  pose proof (zlen_nonneg t). pose proof (zlen_nonneg d).
  cbn [buffered state buffer length_]. rewrite Hl, Hl', !wrap64_add, <- !zlen_app.
  assert (zlen t' = zlen t) as Htt by lia. rewrite Htt in *. rewrite Hn, Hn'.
  destruct (Z.ltb_spec 0 (zlen t)).
  2: { assert (t = []) as -> by (apply zlen_0_nil; lia). assert (t' = []) as -> by (apply zlen_0_nil; lia).
       rewrite !app_nil_r in *. by apply update_pair_rest_fed. }
  set (n := Z.min (64 - zlen t) (zlen d)). assert (0 <= n <= zlen d /\ zlen t + n <= 64) as [Hnr Hnt] by lia.
  rewrite slice_ok, bind_Ok, zdrop_0, Z.sub_0_r by lia.
  destruct (fill_buffer (buffer self) t d n) as (buf & -> & Hbl & Hbt); [done..|]. rewrite bind_Ok.
  destruct (fill_buffer (buffer other) t' d n) as (buf' & Hc & Hbl' & Hbt'); [by rewrite ?Htt..|].
  rewrite Htt in Hc, Hbt'. rewrite Hc, bind_Ok. clear Hc.
  rewrite slice_from_ok, bind_Ok by lia. cbn [buffered state buffer length_].
  destruct (Z.ltb_spec (zlen t + n) 64).
  - cbn [spec]. replace n with (zlen d) in * by lia. split; cbn [fst snd].
    + apply (fed_short (mk_md5 (state self) buf 0 (wrap64 (zlen ((w ++ t) ++ d)))) w t d buf); try done; lia.
    + apply (fed_short (mk_md5 (state other) buf' 0 (wrap64 (zlen ((w' ++ t') ++ d)))) w' t' d buf'); try done; lia.
  - rewrite ztake_all in Hbt, Hbt' by lia. assert (whole buf) as Hwb by (apply whole_zlen; by rewrite Hbl).
    rewrite compress_pair_absorb, bind_Ok by (done || lia).
    assert ((w ++ t) ++ d = (w ++ buf) ++ zdrop n d) as ->
      by (rewrite Hbt, <- !app_assoc; by rewrite ztake_zdrop by lia).
    assert ((w' ++ t') ++ d = (w' ++ buf') ++ zdrop n d) as ->
      by (rewrite Hbt', <- !app_assoc; by rewrite ztake_zdrop by lia).
    assert (whole buf') as Hwb' by (apply whole_zlen; by rewrite Hbl').
    apply update_pair_rest_fed; cbn [state buffer length_ fst snd]; try done; try (by apply whole_app).
    + by rewrite Hs, absorb_whole.
    + by rewrite Hs', absorb_whole.
Qed.

(** ** The end of the message *)

Lemma finalize_tail t len n : 0 <= zlen t < 64 -> (len = if zlen t <? 56 then 64 else 128) ->
  (tail ← copy_range (zreplicate 128 x00) 0 (zlen t) t;
   tail ← set_at tail (Z.to_nat (zlen t)) x80;
   tail ← copy_range tail (len - 8) len (le_split 8 n);
   slice tail 0 len) = Ok (E := E) (last_blocks t len n).
Proof.
  intros Ht Hlen. assert (zlen t + 9 <= len <= 128) as Hl by (destruct (Z.ltb_spec (zlen t) 56); lia).
  rewrite copy_range_ok, bind_Ok by (rewrite ?zlen_replicate; lia).
  assert (ztake 0 (zreplicate 128 x00) = []) as -> by done. cbn [app].
  rewrite zdrop_replicate by lia. pose proof (tail_scratch (E := E) t len n Hl) as Hs.
  destruct (set_at _ _ x80) as [a| |]; [|done|done]. rewrite bind_Ok in Hs |- *. rewrite Hs, bind_Ok.
  pose proof (zlen_last_blocks t len n Hl) as Hz.
  rewrite slice_ok, zdrop_0, Z.sub_0_r; [|lia|lia|rewrite zlen_app, zlen_replicate by lia; lia].
  f_equal. rewrite <- Hz at 1. apply ztake_app_zlen.
Qed.

Lemma last_blocks_pad w t len : whole w -> zlen t < 64 -> (len = if zlen t <? 56 then 64 else 128) ->
  md_pad (w ++ t) = w ++ last_blocks t len (8 * zlen (w ++ t)) /\ whole (last_blocks t len (8 * zlen (w ++ t))).
Proof.
  intros Hw Ht Hlen. pose proof (whole_mod w Hw) as Hm. pose proof (zlen_nonneg t).
  assert ((55 - zlen (w ++ t)) mod 64 = len - 9 - zlen t) as Hz
    by (rewrite zlen_app; destruct (Z.ltb_spec (zlen t) 56); dlia).
  split; [unfold md_pad, last_blocks; rewrite Hz; by rewrite <- !app_assoc|].
  apply whole_zlen. rewrite zlen_last_blocks; destruct (Z.ltb_spec (zlen t) 56); subst len; done || lia.
Qed.

Lemma finalize_fed self p : fed self p -> finalize (E := E) self = Ok (md_digest compress p).
Proof.
  intros [Hl Hb (w & t & -> & Hw & Ht & Hn & Htk & Hs)]. pose proof (zlen_nonneg t).
  unfold finalize. rewrite Hl, Hn. rewrite slice_ok, bind_Ok, zdrop_0, Z.sub_0_r, Htk by lia.
  set (len := if zlen t <? 56 then 64 else 128).
  destruct (last_blocks_pad w t len Hw Ht eq_refl) as [Hp Hwl].
  assert (le_split 8 (wrap64 (wrap64 (zlen (w ++ t)) * 8)) = le_split 8 (8 * zlen (w ++ t))) as ->.
  { rewrite <- (le_split_mod 8 (8 * _) (2 ^ 64)) by done. unfold wrap64.
    rewrite Zmult_mod_idemp_l, (le_split_mod 8) by done. by rewrite Z.mul_comm, le_split_mod. }
  pose proof (finalize_tail t len (8 * zlen (w ++ t)) (conj H Ht) eq_refl) as Hf.
  destruct (copy_range _ 0 (zlen t) t) as [a| |]; [|done|done]. rewrite bind_Ok in Hf |- *.
  destruct (set_at a _ _) as [b| |]; [|done|done]. rewrite bind_Ok in Hf |- *.
  destruct (copy_range b _ _ _) as [c| |]; [|done|done]. rewrite bind_Ok in Hf |- *.
  rewrite Hf, bind_Ok, blocks_absorb, bind_Ok by done. unfold md_digest. rewrite Hp, Hs.
  by rewrite <- absorb_whole.
Qed.
End props.

(** * Correctness *)

(** The calls the checksum code makes on two hashers. *)
Inductive feed := Left (d : list byte) | Right (d : list byte) | Both (d : list byte).

Definition run_feed {A : Md5Asm} {E} (s : Md5 * Md5) (f : feed) : outcome E (Md5 * Md5) :=
  match f with
  | Left d => self ← update s.1 d; Ok (self, s.2)
  | Right d => other ← update s.2 d; Ok (s.1, other)
  | Both d => update_pair s.1 s.2 d
  end.
Fixpoint run_feeds {A : Md5Asm} {E} (s : Md5 * Md5) (fs : list feed) : outcome E (Md5 * Md5) :=
  match fs with
  | [] => Ok s
  | f :: fs => s ← run_feed s f; run_feeds s fs
  end.

Definition left_of (f : feed) : list byte := match f with Left d | Both d => d | Right _ => [] end.
Definition right_of (f : feed) : list byte := match f with Right d | Both d => d | Left _ => [] end.

Lemma run_feeds_fed {A : Md5Asm} {laws : Md5AsmLaws A} {E} fs (s : Md5 * Md5) p p' :
  fed2 s p p' ->
  spec (run_feeds (E := E) s fs)
    (fun s => fed2 s (p ++ concat (left_of <$> fs)) (p' ++ concat (right_of <$> fs))) (fun _ => False).
Proof.
  revert s p p'. induction fs as [|f fs IH]; intros s p p' Hs; cbn [run_feeds fmap list_fmap concat].
  { rewrite !app_nil_r. done. }
  eapply (spec_bind _ _ (fun s => fed2 s (p ++ left_of f) (p' ++ right_of f))).
  - destruct f as [d|d|d], Hs as [H1 H2]; cbn [run_feed left_of right_of]; rewrite ?app_nil_r.
    + eapply spec_bind; [by apply update_fed|]. intros a Ha. by split.
    + eapply spec_bind; [by apply update_fed|]. intros a Ha. by split.
    + by apply update_pair_fed.
  - intros s' Hs'. rewrite !app_assoc. by apply IH.
Qed.


