(* ===== verification/Md5Simd.v ===== *)
(** The multi-buffer MD5 of [crates/par2-rs/src/md5_simd.rs]: the block plan
    of a lane, the kernel driver over any vector operations, the NEON, SSE2,
    AVX2 and simd128 operations, and the dispatch of batches to them.

    A vector is the list of its 32-bit lanes; an intrinsic is the function of
    the lanes its documentation gives. A pointer is the 64 bytes behind it,
    read with the bounds of the buffer it points into. *)
From S2P Require Import Prelude.
From S2P Require Import Md5Spec.

Definition BLOCK : Z := 64.
Definition TAIL_BLOCKS : Z := 2.
Definition ZERO_BLOCK : list byte := zreplicate BLOCK x00.

(** * Intrinsics *)

Module Lanes.
Definition map2 (f : Z -> Z -> Z) (x y : list Z) : list Z := zip_with f x y.
Definition add := map2 wadd.
Definition sub := map2 (fun x y => wrap32 (x - y)).
Definition and := map2 Z.land.
Definition or := map2 Z.lor.
Definition xor := map2 Z.lxor.
(** [!x & y], [x | !y] and [(m & x) | (!m & y)]. *)
Definition andnot := map2 (fun x y => Z.land (not32 x) y).
Definition orn := map2 (fun x y => Z.lor x (not32 y)).
Definition not (x : list Z) : list Z := not32 <$> x.
Definition bitselect (m x y : list Z) : list Z := or (and m x) (andnot m y).
Definition splat (n : nat) (k : Z) : list Z := replicate n (wrap32 k).
Definition shl (s : Z) (x : list Z) : list Z := (fun v => wrap32 (Z.shiftl v s)) <$> x.
Definition shr (s : Z) (x : list Z) : list Z := (fun v => Z.shiftr v s) <$> x.
(** Shift [y] right and insert it below the top [s] bits of [x]. *)
Definition sri (s : Z) (x y : list Z) : list Z :=
  map2 (fun x y => Z.lor (Z.shiftl (Z.shiftr x (32 - s)) (32 - s)) (Z.shiftr y s)) x y.
(** The lanes of two vectors picked by index. *)
Definition shuffle (idx : list nat) (x y : list Z) : list Z := (fun i => nth i (x ++ y) 0) <$> idx.
(** Halfwords, low first, and a 128-bit shuffle of four of them by a
    two-bit-per-element control. *)
Definition halves (v : Z) : list Z := [v mod 65536; v / 65536].
Definition word_of_halves (h : list Z) (i : nat) : Z := nth (2 * i) h 0 + 65536 * nth (2 * i + 1) h 0.
Definition control (imm : Z) (i : nat) : nat := Z.to_nat (Z.land (Z.shiftr imm (2 * Z.of_nat i)) 3).
Definition shuffle_halves (lo : nat) (imm : Z) (x : list Z) : list Z :=
  let h := concat (halves <$> x) in
  let h' := (fun i => if (lo <=? i)%nat && (i <? lo + 4)%nat then nth (lo + control imm (i - lo)) h 0 else nth i h 0)
    <$> seq 0 (length h) in
  word_of_halves h' <$> seq 0 (length x).
Definition shufflelo := shuffle_halves 0.
Definition shufflehi := shuffle_halves 4.
(** Reverse the halfwords of every word. *)
Definition rev32_u16 (x : list Z) : list Z := (fun v => v / 65536 + 65536 * (v mod 65536)) <$> x.
(** Bytes picked by index within each 128-bit half. *)
Definition bytes_of (x : list Z) : list byte := concat (le_split 4 <$> x).
Definition shuffle_bytes (ctrl : list nat) (x : list Z) : list Z :=
  let b := bytes_of x in
  let b' := (fun '(i, c) => nth (16 * (i / 16) + c) b x00) <$> zip (seq 0 (length ctrl)) ctrl in
  (fun i => u32_le (drop (4 * i) b')) <$> seq 0 (length x).
(** [n] words loaded from a block at a byte offset. *)
Definition loadu (n : nat) (block : list byte) (offset : nat) : list Z :=
  (fun i => u32_le (drop (offset + 4 * i) block)) <$> seq 0 n.
End Lanes.

(** * Kernels *)

(** The 4 by 4 transposition of one group of words, as the NEON, SSE2 and
    simd128 loads do it: the interleavings [zip1]/[unpacklo] and
    [zip2]/[unpackhi] of words, then of pairs. *)
Definition transpose4 (p : nat -> list byte) (group : nat) : list (list Z) :=
  let offset := (group * 16)%nat in
  let r0 := Lanes.loadu 4 (p 0%nat) offset in
  let r1 := Lanes.loadu 4 (p 1%nat) offset in
  let r2 := Lanes.loadu 4 (p 2%nat) offset in
  let r3 := Lanes.loadu 4 (p 3%nat) offset in
  let t0 := Lanes.shuffle [0; 4; 1; 5]%nat r0 r1 in
  let t1 := Lanes.shuffle [2; 6; 3; 7]%nat r0 r1 in
  let t2 := Lanes.shuffle [0; 4; 1; 5]%nat r2 r3 in
  let t3 := Lanes.shuffle [2; 6; 3; 7]%nat r2 r3 in
  [Lanes.shuffle [0; 1; 4; 5]%nat t0 t2; Lanes.shuffle [2; 3; 6; 7]%nat t0 t2;
   Lanes.shuffle [0; 1; 4; 5]%nat t1 t3; Lanes.shuffle [2; 3; 6; 7]%nat t1 t3].
Definition load4 (ptrs : list (list byte)) : list (list Z) :=
  concat (transpose4 (fun i => nth i ptrs []) <$> seq 0 4).

(** The 8 by 8 transposition of [avx2_load!]. *)
Definition transpose8 (p : nat -> list byte) (group : nat) : list (list Z) :=
  let offset := (group * 32)%nat in
  let r i := Lanes.loadu 8 (p i) offset in
  let lo32 := Lanes.shuffle [0; 8; 1; 9; 4; 12; 5; 13]%nat in
  let hi32 := Lanes.shuffle [2; 10; 3; 11; 6; 14; 7; 15]%nat in
  let lo64 := Lanes.shuffle [0; 1; 8; 9; 4; 5; 12; 13]%nat in
  let hi64 := Lanes.shuffle [2; 3; 10; 11; 6; 7; 14; 15]%nat in
  let perm20 := Lanes.shuffle [0; 1; 2; 3; 8; 9; 10; 11]%nat in
  let perm31 := Lanes.shuffle [4; 5; 6; 7; 12; 13; 14; 15]%nat in
  let t0 := lo32 (r 0%nat) (r 1%nat) in let t1 := hi32 (r 0%nat) (r 1%nat) in
  let t2 := lo32 (r 2%nat) (r 3%nat) in let t3 := hi32 (r 2%nat) (r 3%nat) in
  let t4 := lo32 (r 4%nat) (r 5%nat) in let t5 := hi32 (r 4%nat) (r 5%nat) in
  let t6 := lo32 (r 6%nat) (r 7%nat) in let t7 := hi32 (r 6%nat) (r 7%nat) in
  let s0 := lo64 t0 t2 in let s1 := hi64 t0 t2 in
  let s2 := lo64 t1 t3 in let s3 := hi64 t1 t3 in
  let s4 := lo64 t4 t6 in let s5 := hi64 t4 t6 in
  let s6 := lo64 t5 t7 in let s7 := hi64 t5 t7 in
  [perm20 s0 s4; perm20 s1 s5; perm20 s2 s6; perm20 s3 s7;
   perm31 s0 s4; perm31 s1 s5; perm31 s2 s6; perm31 s3 s7].
Definition load8 (ptrs : list (list byte)) : list (list Z) :=
  concat (transpose8 (fun i => nth i ptrs []) <$> seq 0 2).

Definition is_half_turn (s rs : Z) : bool := (s =? 16) && (rs =? 16).

Definition neon_op : Md5Ops := {|
  vec := list Z;
  lanes := 4;
  op_add := Lanes.add;
  op_splat := Lanes.splat 4;
  op_splat_i := Lanes.splat 4;
  op_acc_f a b c d := Lanes.add a (Lanes.bitselect b c d);
  op_acc_g a b c d := Lanes.add a (Lanes.bitselect d b c);
  op_acc_h a b c d := Lanes.add a (Lanes.xor (Lanes.xor c d) b);
  op_acc_i a b c d := Lanes.add a (Lanes.xor c (Lanes.orn b d));
  op_rotl v s rs := if is_half_turn s rs then Lanes.rev32_u16 v else Lanes.sri rs (Lanes.shl s v) v;
  op_store v := v;
  op_load := load4;
|}.

Definition sse2_op : Md5Ops := {|
  vec := list Z;
  lanes := 4;
  op_add := Lanes.add;
  op_splat := Lanes.splat 4;
  op_splat_i := Lanes.splat 4;
  op_acc_f a b c d := Lanes.add a (Lanes.xor (Lanes.and (Lanes.xor c d) b) d);
  op_acc_g a b c d := Lanes.add (Lanes.add a (Lanes.andnot d c)) (Lanes.and d b);
  op_acc_h a b c d := Lanes.add a (Lanes.xor (Lanes.xor c d) b);
  op_acc_i a b c d := Lanes.add a (Lanes.xor c (Lanes.or b (Lanes.andnot d (Lanes.splat 4 (-1)))));
  op_rotl v s rs :=
    if is_half_turn s rs then Lanes.shufflehi 177 (Lanes.shufflelo 177 v)
    else Lanes.or (Lanes.shl s v) (Lanes.shr rs v);
  op_store v := v;
  op_load := load4;
|}.

Definition half_turn_bytes : list nat := [2; 3; 0; 1; 6; 7; 4; 5; 10; 11; 8; 9; 14; 15; 12; 13]%nat.

Definition avx2_op : Md5Ops := {|
  vec := list Z;
  lanes := 8;
  op_add := Lanes.add;
  op_splat := Lanes.splat 8;
  op_splat_i k := Lanes.splat 8 (wrap32 (k - 1));
  op_acc_f a b c d := Lanes.add a (Lanes.xor (Lanes.and (Lanes.xor c d) b) d);
  op_acc_g a b c d := Lanes.add (Lanes.add a (Lanes.andnot d c)) (Lanes.and d b);
  op_acc_h a b c d := Lanes.add a (Lanes.xor (Lanes.xor c d) b);
  op_acc_i a b c d := Lanes.sub a (Lanes.xor c (Lanes.andnot b d));
  op_rotl v s rs :=
    if is_half_turn s rs then Lanes.shuffle_bytes (half_turn_bytes ++ half_turn_bytes) v
    else Lanes.or (Lanes.shl s v) (Lanes.shr rs v);
  op_store v := v;
  op_load := load8;
|}.

Definition simd128_op : Md5Ops := {|
  vec := list Z;
  lanes := 4;
  op_add := Lanes.add;
  op_splat := Lanes.splat 4;
  op_splat_i := Lanes.splat 4;
  op_acc_f a b c d := Lanes.add a (Lanes.bitselect b c d);
  op_acc_g a b c d := Lanes.add a (Lanes.bitselect d b c);
  op_acc_h a b c d := Lanes.add a (Lanes.xor (Lanes.xor c d) b);
  op_acc_i a b c d := Lanes.add a (Lanes.xor c (Lanes.or b (Lanes.not d)));
  op_rotl v s rs := Lanes.or (Lanes.shl s v) (Lanes.shr rs v);
  op_store v := v;
  op_load := load4;
|}.

(** * Block planning *)

Record LanePlan := mk_plan {
  data : list byte;
  data_full_blocks : Z;
  straddle_index : Z;
  straddle : list byte;
  tail_start : Z;
  tail : list byte;
  total_blocks : Z;
}.

Section plans.
Context {E : Type}.
#[local] Abbreviation result := (outcome E).

Definition effective_len (raw : Z) (pad_to : option Z) : Z :=
  match pad_to with Some target => if raw <? target then target else raw | None => raw end.

(** The tail scratch: real bytes, the terminator and the length. *)
Definition plan_tail (data : list byte) (effective_len tail_start total_blocks : Z) : result (list byte) :=
  let raw := zlen data in
  let tail_start_byte := tail_start * BLOCK in
  tail ← (if tail_start_byte <? raw
    then
      let len := zlen data - tail_start_byte in
      d ← slice_from data tail_start_byte;
      copy_range (zreplicate (TAIL_BLOCKS * BLOCK) x00) 0 len d
    else Ok (zreplicate (TAIL_BLOCKS * BLOCK) x00));
  tail ← set_at tail (Z.to_nat (effective_len - tail_start_byte)) x80;
  let tail_len_blocks := total_blocks - tail_start in
  let length_at := tail_len_blocks * BLOCK - 8 in
  bits ← (if effective_len * 8 <? 2 ^ 64 then Ok (effective_len * 8) else Panic);
  copy_range tail length_at (length_at + 8) (le_split 8 bits).

Definition LanePlan_new (data : list byte) (pad_to : option Z) : result LanePlan :=
  let raw := zlen data in
  let effective_len := effective_len raw pad_to in
  padded ← add_u64 effective_len 9;
  let total_blocks := (padded + 63) / BLOCK in
  let tail_start := sat_sub_u64 total_blocks TAIL_BLOCKS in
  let data_full_blocks := raw / BLOCK in
  tail ← plan_tail data effective_len tail_start total_blocks;
  if negb (raw mod BLOCK =? 0) && (data_full_blocks <? tail_start) then
    let from := data_full_blocks * BLOCK in
    let len := zlen data - from in
    d ← slice_from data from;
    straddle ← copy_range ZERO_BLOCK 0 len d;
    Ok (mk_plan data data_full_blocks data_full_blocks straddle tail_start tail total_blocks)
  else Ok (mk_plan data data_full_blocks (2 ^ 64 - 1) ZERO_BLOCK tail_start tail total_blocks).

Definition block_ptr (self : LanePlan) (index : Z) : result (list byte) :=
  if total_blocks self <=? index then Ok ZERO_BLOCK
  else if tail_start self <=? index then
    let offset := (index - tail_start self) * BLOCK in
    slice (tail self) offset (offset + BLOCK)
  else if index <? data_full_blocks self then
    slice (data self) (index * BLOCK) (index * BLOCK + BLOCK)
  else if index =? straddle_index self then slice (straddle self) 0 BLOCK
  else Ok ZERO_BLOCK.

Definition in_place_blocks (self : LanePlan) : Z := Z.min (data_full_blocks self) (tail_start self).

(** * The kernel driver *)

(** [iter().map(f).max()] and [.min()] of plans, zero when there are none. *)
Definition max_of (f : LanePlan -> Z) (plans : list LanePlan) : Z := foldr Z.max 0 (f <$> plans).
Definition min_of (f : LanePlan -> Z) (plans : list LanePlan) : Z :=
  match f <$> plans with [] => 0 | x :: l => foldr Z.min x l end.

Section kernel.
Context {ops : Md5Ops}.

Record kernel_state := mk_kernel { k_words : quad vec; k_ptrs : list (list byte); k_out : list (list byte) }.

(** The pointers of one block index. *)
Definition resolve_ptrs (plans : list LanePlan) (in_place : Z) (index : Z) (ptrs : list (list byte))
    : result (list (list byte)) :=
  new ← mapM (fun plan =>
    if index <? in_place then slice (data plan) (index * BLOCK) (index * BLOCK + BLOCK)
    else block_ptr plan index) plans;
  Ok (new ++ drop (length plans) ptrs).

(** The digests of the lanes that end at this block. *)
Definition extract_lane (q : quad vec) (plans : list LanePlan) (index : Z) (lane : nat) (out : list (list byte))
    : result (list (list byte)) :=
  plan ← get_at plans lane;
  if total_blocks plan =? index + 1 then
    a ← get_at (op_store (qa q)) lane; b ← get_at (op_store (qb q)) lane;
    c ← get_at (op_store (qc q)) lane; d ← get_at (op_store (qd q)) lane;
    set_at out lane (le_words (Quad a b c d))
  else Ok out.

Definition kernel_step (plans : list LanePlan) (min_blocks in_place : Z) (i : nat) (s : kernel_state)
    : result kernel_state :=
  let index := Z.of_nat i in
  ptrs ← resolve_ptrs plans in_place index (k_ptrs s);
  let q := md5_block (k_words s) (op_load ptrs) in
  out ← (if min_blocks <=? index + 1
    then for_range 0 (length plans) (extract_lane q plans index) (k_out s)
    else Ok (k_out s));
  Ok (mk_kernel q ptrs out).

Definition md5_multi_kernel (plans : list LanePlan) (out : list (list byte)) : result (list (list byte)) :=
  if (lanes <? length plans)%nat then Panic
  else if negb (length plans =? length out)%nat then Panic
  else match plans with
  | [] => Ok out
  | _ =>
      let max_blocks := max_of total_blocks plans in
      let min_blocks := min_of total_blocks plans in
      let in_place := min_of in_place_blocks plans in
      let init := Quad (op_splat (qa INIT)) (op_splat (qb INIT)) (op_splat (qc INIT)) (op_splat (qd INIT)) in
      s ← for_range 0 (Z.to_nat max_blocks) (kernel_step plans min_blocks in_place)
            (mk_kernel init (replicate lanes ZERO_BLOCK) out);
      Ok (k_out s)
  end.
End kernel.
Arguments md5_multi_kernel : clear implicits.

(** * Dispatch *)

(** The configurations of the dispatch, with what detection answers. *)
Inductive target :=
| X86_64 (avx2 : bool) | X86 (avx2 sse2 : bool) | Aarch64 | Wasm32 (simd128 : bool) | OtherTarget.

Definition max_lanes (t : target) : Z :=
  match t with
  | X86_64 avx2 => if avx2 then 8 else 4
  | X86 avx2 sse2 => if avx2 then 8 else if sse2 then 4 else 1
  | Aarch64 => 4
  | Wasm32 simd128 => if simd128 then 4 else 1
  | OtherTarget => 1
  end.

(** [for (plan, digest) in plans.iter().zip(out.iter_mut())]. *)
Fixpoint md5_batch_scalar (plans : list LanePlan) (out : list (list byte)) : result (list (list byte)) :=
  match plans, out with
  | plan :: plans, digest :: out =>
      d ← md5_multi_kernel scalar_op [plan] [digest];
      out ← md5_batch_scalar plans out;
      Ok (d ++ out)
  | _, _ => Ok out
  end.

(** The x86 batches wider than SSE2 takes are split; the fuel bounds the
    number of splits. *)
Fixpoint md5_batch_x86 (fuel : nat) (avx2 : bool) (sse2 : bool) (plans : list LanePlan) (out : list (list byte))
    : result (list (list byte)) :=
  if (4 <? length plans)%nat then
    if avx2 then md5_multi_kernel avx2_op plans out
    else match fuel with
    | O => Panic
    | S fuel =>
        if (length out <? 4)%nat then Panic
        else
          head ← md5_batch_x86 fuel avx2 sse2 (take 4 plans) (take 4 out);
          tail ← md5_batch_x86 fuel avx2 sse2 (drop 4 plans) (drop 4 out);
          Ok (head ++ tail)
    end
  else if sse2 then md5_multi_kernel sse2_op plans out
  else md5_batch_scalar plans out.

Definition md5_batch (t : target) (plans : list LanePlan) (out : list (list byte)) : result (list (list byte)) :=
  match t with
  | X86_64 avx2 => md5_batch_x86 (length plans) avx2 true plans out
  | X86 avx2 sse2 => md5_batch_x86 (length plans) avx2 sse2 plans out
  | Aarch64 => md5_multi_kernel neon_op plans out
  | Wasm32 simd128 => if simd128 then md5_multi_kernel simd128_op plans out else md5_batch_scalar plans out
  | OtherTarget => md5_batch_scalar plans out
  end.

(** The digests written into the caller's slots, batch by batch. *)
Definition md5_multi_into (t : target) (inputs : list (list byte)) (pad_to : option Z) (out : list (list byte))
    : result (list (list byte)) :=
  if negb (length inputs =? length out)%nat then Panic
  else match inputs with
  | [] => Ok out
  | _ =>
      let n := max_lanes t in
      digests ← mapM (fun '(chunk, digests) =>
        plans ← mapM (fun input => LanePlan_new input pad_to) chunk;
        md5_batch t plans digests) (zip (chunks n inputs) (chunks n out));
      Ok (concat digests)
  end.

Definition md5_multi (t : target) (inputs : list (list byte)) (pad_to : option Z) : result (list (list byte)) :=
  md5_multi_into t inputs pad_to (replicate (length inputs) (zreplicate 16 x00)).
End plans.
Arguments md5_multi_kernel {E} ops plans out.

Example multi_abc : forall t, In t [X86_64 true; X86_64 false; X86 false false; Aarch64; Wasm32 true] ->
  md5_multi (E := unit) t [[x61; x62; x63]; []; [x61]; []; replicate 100 x37] (Some 3)
    = Ok (md5 <$> [[x61; x62; x63]; [x00; x00; x00]; [x61; x00; x00]; [x00; x00; x00]; replicate 100 x37]).
Proof. intros t Ht. repeat (destruct Ht as [<-|Ht]; [vm_compute; reflexivity|]). destruct Ht. Qed.
