(* ===== verification/Md5Lanes.v ===== *)
(** Every vector kernel of [md5_simd.rs] runs the scalar rounds in each lane:
    an interface of lane-wise laws ([LaneWise]), the identities behind the
    rewritten operations of each instruction set, and one block of any such
    kernel as one block of [md5_compress] per lane. *)
From S2P Require Import Prelude.
From S2P Require Import Md5Spec.
From S2P Require Import Md5Simd.

(** * Words *)

Definition u32 (x : Z) : Prop := 0 <= x < 2 ^ 32.

Lemma wadd_u32 x y : u32 (wadd x y).
Proof. apply wrap32_range. Qed.

Lemma not32_bit x i : 0 <= i -> Z.testbit (not32 x) i = xorb (Z.testbit x i) (i <? 32).
Proof.
  intros Hi. unfold not32. rewrite Z.lxor_spec. f_equal. change 0xFFFFFFFF with (Z.ones 32).
  destruct (Z.ltb_spec i 32); [apply Z.ones_spec_low; lia|apply Z.ones_spec_high; lia].
Qed.

(** Equality of words bit by bit. *)
Ltac words :=
  apply Z.bits_inj'; intros i Hi;
  repeat first [ rewrite Z.lxor_spec | rewrite Z.lor_spec | rewrite Z.land_spec
               | rewrite not32_bit by assumption | rewrite Z.bits_0 ];
  unfold u32 in *;
  destruct (Z.ltb_spec i 32) as [Hlt|Hge];
  repeat match goal with
  | |- context [Z.testbit ?x i] => first [rewrite (testbit_high x 32 i) by lia | destruct (Z.testbit x i)]
  end; try reflexivity.

Lemma not32_sub x : u32 x -> not32 x = 2 ^ 32 - 1 - x.
Proof.
  intros Hx. assert (Z.land x (not32 x) = 0) as H by words.
  pose proof (Z.add_nocarry_lxor x (not32 x) H) as Ha.
  assert (Z.lxor x (not32 x) = 2 ^ 32 - 1) as Hb.
  { unfold not32. rewrite <- Z.lxor_assoc, Z.lxor_nilpotent. reflexivity. }
  lia.
Qed.
Lemma u32_not x : u32 x -> u32 (not32 x).
Proof. intros Hx. rewrite not32_sub by done. unfold u32 in *. lia. Qed.
Lemma u32_and x y : u32 y -> u32 (Z.land x y).
Proof. intros. apply land_range_r; [lia|done]. Qed.
Lemma u32_or x y : u32 x -> u32 y -> u32 (Z.lor x y).
Proof. intros. apply lor_range; [lia|done|done]. Qed.
Lemma u32_xor x y : u32 x -> u32 y -> u32 (Z.lxor x y).
Proof. intros. apply lxor_range; [lia|done|done]. Qed.
Create HintDb words.
#[export] Hint Resolve wadd_u32 u32_not u32_and u32_or u32_xor : words.

(** ** The rewritten mixing functions *)

Lemma select_f b c d : Z.lor (Z.land b c) (Z.land (not32 b) d) = mix StepF b c d.
Proof. done. Qed.
Lemma select_g b c d : Z.lor (Z.land d b) (Z.land (not32 d) c) = mix StepG b c d.
Proof. done. Qed.
Lemma xor_form_f b c d : u32 b -> u32 c -> u32 d -> Z.lxor (Z.land (Z.lxor c d) b) d = mix StepF b c d.
Proof. intros. unfold mix. words. Qed.
Lemma xor_form_h b c d : Z.lxor (Z.lxor c d) b = mix StepH b c d.
Proof. unfold mix. rewrite (Z.lxor_comm b c), !Z.lxor_assoc. f_equal. apply Z.lxor_comm. Qed.

(** G's two terms share no bit, so the [or] splits into additions. *)
Lemma split_form_g a b c d : u32 b -> u32 c -> u32 d ->
  wadd (wadd a (Z.land (not32 d) c)) (Z.land d b) = wadd a (mix StepG b c d).
Proof.
  intros. assert (mix StepG b c d = Z.land d b + Z.land (not32 d) c) as ->.
  { assert (Z.land (Z.land d b) (Z.land (not32 d) c) = 0) as Hz by words.
    unfold mix. rewrite Z.add_nocarry_lxor by done. words. }
  unfold wadd, wrap32. rewrite Zplus_mod_idemp_l. f_equal. lia.
Qed.

(** [!x = -x - 1]: subtracting instead of adding, with the constant lowered. *)
Lemma sub_form_i a b c d : u32 b -> u32 c -> u32 d ->
  wrap32 (a - Z.lxor c (Z.land (not32 b) d)) = wrap32 (a + 1 + mix StepI b c d).
Proof.
  intros. assert (mix StepI b c d = not32 (Z.lxor c (Z.land (not32 b) d))) as ->
    by (unfold mix; words).
  rewrite (not32_sub (Z.lxor _ _)) by auto with words. unfold wrap32.
  replace (a + 1 + _) with (a - Z.lxor c (Z.land (not32 b) d) + 1 * 2 ^ 32) by lia.
  by rewrite Z.mod_add.
Qed.

(** ** Rotations *)

Lemma rotate_u32 x s : u32 x -> 0 < s < 32 -> u32 (rotate_left x s).
Proof.
  intros Hx Hs. apply u32_or; [apply wrap32_range|]. unfold u32 in *.
  rewrite Z.shiftr_div_pow2 by lia. split; [apply Z.div_pos; lia|].
  apply Z.div_lt_upper_bound; [lia|]. assert (1 <= 2 ^ (32 - s)) by (apply (Z.pow_le_mono_r 2 0); lia). nia.
Qed.
Lemma half_turn x : u32 x -> x / 65536 + 65536 * (x mod 65536) = rotate_left x 16.
Proof.
  intros Hx. unfold rotate_left, u32 in *. change (32 - 16) with 16.
  rewrite Z.lor_comm, Z.shiftr_div_pow2, Z.shiftl_mul_pow2 by lia. change (2 ^ 16) with 65536.
  assert (wrap32 (x * 65536) = Z.shiftl (x mod 65536) 16) as ->.
  { rewrite Z.shiftl_mul_pow2 by lia. unfold wrap32. dlia. }
  rewrite lor_shiftl_add by (lia || dlia). dlia.
Qed.

(** [sri] inserts below the bits [shl] left free. *)
Lemma shift_insert x s : u32 x -> 0 < s < 32 ->
  Z.lor (Z.shiftl (Z.shiftr (wrap32 (Z.shiftl x s)) (32 - (32 - s))) (32 - (32 - s))) (Z.shiftr x (32 - s))
    = rotate_left x s.
Proof.
  intros Hx Hs. unfold rotate_left. replace (32 - (32 - s)) with s by lia. f_equal.
  apply Z.bits_inj'. intros i Hi. rewrite Z.shiftl_spec by lia.
  destruct (Z.ltb_spec i s).
  - rewrite (Z.testbit_neg_r _ (i - s)) by lia. unfold wrap32. rewrite Z.testbit_mod_pow2 by lia.
    rewrite Z.shiftl_spec, (Z.testbit_neg_r x) by lia. by rewrite andb_false_r.
  - rewrite Z.shiftr_spec by lia. f_equal. lia.
Qed.

Lemma u32_shr x s : 0 <= s -> u32 x -> u32 (Z.shiftr x s).
Proof.
  intros Hs Hx. unfold u32 in *. rewrite Z.shiftr_div_pow2 by lia. split; [apply Z.div_pos; lia|].
  apply Z.div_lt_upper_bound; [lia|]. assert (1 <= 2 ^ s) by (apply (Z.pow_le_mono_r 2 0); lia). nia.
Qed.
Lemma u32_wrap x : u32 (wrap32 x).
Proof. apply wrap32_range. Qed.
Lemma u32_insert x y s : u32 x -> u32 y -> 0 < s < 32 ->
  u32 (Z.lor (Z.shiftl (Z.shiftr x s) s) (Z.shiftr y (32 - s))).
Proof.
  intros Hx Hy Hs. apply u32_or; [|by apply u32_shr; [lia|]]. unfold u32 in *.
  rewrite Z.shiftr_div_pow2, Z.shiftl_mul_pow2 by lia.
  assert (0 < 2 ^ s) by (apply Z.pow_pos_nonneg; lia). pose proof (Z.mul_div_le x (2 ^ s)).
  assert (0 <= x / 2 ^ s) by (apply Z.div_pos; lia). nia.
Qed.
#[export] Hint Resolve u32_wrap u32_shr : words.

(** * The interface *)

Definition vlane {ops : Md5Ops} (v : vec) (i : nat) : Z := nth i (op_store v) 0.
(** [v] has in its lanes the words [f i]. *)
Definition holds {ops : Md5Ops} (v : vec) (f : nat -> Z) : Prop :=
  length (op_store v) = lanes /\ forall i, (i < lanes)%nat -> vlane v i = f i /\ u32 (f i).
Definition vec_ok {ops : Md5Ops} (v : vec) : Prop := holds v (vlane v).

(** What the driver needs of a set of operations: each acts on the lanes as
    [scalar_op!] does, up to the bias [splat_i] and [acc_i] agree on. *)
Class LaneWise (ops : Md5Ops) : Prop := {
  lane_add x y f g : holds x f -> holds y g -> holds (op_add x y) (fun i => wadd (f i) (g i));
  lane_splat k : u32 k -> holds (op_splat k) (fun _ => k);
  lane_f a b c d fa fb fc fd : holds a fa -> holds b fb -> holds c fc -> holds d fd ->
    holds (op_acc_f a b c d) (fun i => wadd (fa i) (mix StepF (fb i) (fc i) (fd i)));
  lane_g a b c d fa fb fc fd : holds a fa -> holds b fb -> holds c fc -> holds d fd ->
    holds (op_acc_g a b c d) (fun i => wadd (fa i) (mix StepG (fb i) (fc i) (fd i)));
  lane_h a b c d fa fb fc fd : holds a fa -> holds b fb -> holds c fc -> holds d fd ->
    holds (op_acc_h a b c d) (fun i => wadd (fa i) (mix StepH (fb i) (fc i) (fd i)));
  lane_i a b c d m k fa fb fc fd fm : u32 k ->
    holds a fa -> holds b fb -> holds c fc -> holds d fd -> holds m fm ->
    holds (op_acc_i (op_add a (op_add (op_splat_i k) m)) b c d)
      (fun i => wadd (wadd (fa i) (wadd k (fm i))) (mix StepI (fb i) (fc i) (fd i)));
  lane_rotl v s f : 0 < s < 32 -> holds v f -> holds (op_rotl v s (32 - s)) (fun i => rotate_left (f i) s);
  lane_load ptrs : length ptrs = lanes ->
    length (op_load ptrs) = 16%nat /\
    forall j, (j < 16)%nat -> holds (nth j (op_load ptrs) (op_splat 0)) (fun i => nth j (block_words (nth i ptrs [])) 0);
}.

(** * Vectors of lanes

    [has n x f]: the list [x] of [n] lanes holds [f]. *)
Definition has_lanes (n : nat) (x : list Z) (f : nat -> Z) : Prop :=
  length x = n /\ forall i, (i < n)%nat -> nth i x 0 = f i /\ u32 (f i).

Section vectors.
Context (n : nat).
Implicit Types (x y : list Z) (f g : nat -> Z).

Lemma lanes_ext x f g : has_lanes n x f -> (forall i, (i < n)%nat -> u32 (f i) -> f i = g i) -> has_lanes n x g.
Proof.
  intros [Hl H] Hfg. split; [done|]. intros i Hi. destruct (H i Hi) as [-> Hu].
  rewrite <- Hfg by done. done.
Qed.
Lemma lanes_map2 h x y f g : has_lanes n x f -> has_lanes n y g ->
  (forall a b, u32 a -> u32 b -> u32 (h a b)) -> has_lanes n (Lanes.map2 h x y) (fun i => h (f i) (g i)).
Proof.
  intros [Hx Hf] [Hy Hg] Hh. unfold Lanes.map2. split; [rewrite length_zip_with; lia|].
  intros i Hi. destruct (Hf i Hi) as [Ef Uf], (Hg i Hi) as [Eg Ug].
  rewrite (nth_zip_with _ _ _ _ 0 0) by lia. rewrite Ef, Eg. auto.
Qed.
Lemma lanes_map h x f : has_lanes n x f -> (forall a, u32 a -> u32 (h a)) -> has_lanes n (h <$> x) (fun i => h (f i)).
Proof.
  intros [Hx Hf] Hh. split; [by rewrite length_fmap|]. intros i Hi. destruct (Hf i Hi) as [Ef Uf].
  rewrite (nth_indep _ 0 (h 0)) by (rewrite length_fmap; lia).
  change (h <$> x) with (map h x). rewrite map_nth, Ef. auto.
Qed.
Lemma lanes_splat k : has_lanes n (Lanes.splat n k) (fun _ => wrap32 k).
Proof.
  split; [apply length_replicate|]. intros i Hi. split; [|apply wrap32_range].
  rewrite nth_lookup. unfold Lanes.splat. by rewrite lookup_replicate_2.
Qed.
End vectors.

(** Discharge the lane-wise reading of an expression over known vectors. *)
Ltac lane_wise :=
  match goal with
  | |- has_lanes _ (Lanes.splat _ _) _ => apply lanes_splat
  | H : has_lanes ?n ?x _ |- has_lanes ?n ?x _ => exact H
  | |- has_lanes _ (Lanes.not _) _ => eapply (lanes_map _ not32); [lane_wise|auto with words]
  | |- has_lanes _ (Lanes.shl ?s _) _ => eapply (lanes_map _ (fun v => wrap32 (Z.shiftl v s))); [lane_wise|auto with words]
  | |- has_lanes _ (Lanes.shr ?s _) _ => eapply (lanes_map _ (fun v => Z.shiftr v s)); [lane_wise|intros; apply u32_shr; [lia|assumption]]
  | |- has_lanes _ (Lanes.bitselect _ _ _) _ => unfold Lanes.bitselect; lane_wise
  | |- has_lanes _ (_ _ _) _ => eapply lanes_map2; [lane_wise|lane_wise|auto with words]
  end.

(** Prove a law of one operation: read off the lanes, then an identity of words. *)
Ltac lane_law := eapply lanes_ext; [lane_wise|cbv beta; intros i Hi Hu].

(** The words a law speaks of are words. *)
Ltac lane_words :=
  repeat match goal with
  | H : has_lanes _ _ ?f, Hi : (?i < _)%nat |- _ =>
      lazymatch goal with
      | _ : u32 (f i) |- _ => fail
      | _ => pose proof (proj2 (proj2 H i Hi))
      end
  end.

Lemma wrap32_u32 k : u32 k -> wrap32 k = k.
Proof. apply Z.mod_small. Qed.

(** The loads of four lanes. *)
Lemma load4_lanes ptrs : length ptrs = 4%nat ->
  length (load4 ptrs) = 16%nat /\
  forall j, (j < 16)%nat ->
    has_lanes 4 (nth j (load4 ptrs) (Lanes.splat 4 0)) (fun i => nth j (block_words (nth i ptrs [])) 0).
Proof.
  intros Hl. destruct ptrs as [|p0 [|p1 [|p2 [|p3 [|]]]]]; try done. split; [reflexivity|].
  intros j Hj. do 16 (destruct j as [|j]; [split; [reflexivity|];
    intros i Hi; do 4 (destruct i as [|i]; [split; [reflexivity|apply u32_le_range]|]); lia|]). lia.
Qed.
Lemma load8_lanes ptrs : length ptrs = 8%nat ->
  length (load8 ptrs) = 16%nat /\
  forall j, (j < 16)%nat ->
    has_lanes 8 (nth j (load8 ptrs) (Lanes.splat 8 0)) (fun i => nth j (block_words (nth i ptrs [])) 0).
Proof.
  intros Hl. destruct ptrs as [|p0 [|p1 [|p2 [|p3 [|p4 [|p5 [|p6 [|p7 [|]]]]]]]]]; try done.
  split; [reflexivity|].
  intros j Hj. do 16 (destruct j as [|j]; [split; [reflexivity|];
    intros i Hi; do 8 (destruct i as [|i]; [split; [reflexivity|apply u32_le_range]|]); lia|]). lia.
Qed.

(** ** The half turns *)

Lemma neon_half_turn n v f : has_lanes n v f -> has_lanes n (Lanes.rev32_u16 v) (fun i => rotate_left (f i) 16).
Proof.
  intros H. eapply lanes_ext.
  - apply (lanes_map _ (fun v => v / 65536 + 65536 * (v mod 65536)) _ _ H).
    intros a Ha. rewrite half_turn by done. apply rotate_u32; [done|lia].
  - cbv beta. intros i Hi _. apply half_turn. exact (proj2 (proj2 H i Hi)).
Qed.

Lemma sse2_half_turn v f : has_lanes 4 v f ->
  has_lanes 4 (Lanes.shufflehi 177 (Lanes.shufflelo 177 v)) (fun i => rotate_left (f i) 16).
Proof.
  intros [Hl H]. destruct v as [|x0 [|x1 [|x2 [|x3 [|]]]]]; try done.
  set (turn x := x / 65536 + 65536 * (x mod 65536)). set (keep x := x mod 65536 + 65536 * (x / 65536)).
  assert (Lanes.shufflehi 177 (Lanes.shufflelo 177 [x0; x1; x2; x3]) =
    [keep (turn x0); keep (turn x1); turn (keep x2); turn (keep x3)]) as -> by reflexivity.
  assert (forall x, keep x = x) as Hk by (intros x; unfold keep; pose proof (Z_div_mod_eq_full x 65536); lia).
  rewrite !Hk. split; [reflexivity|]. intros i Hi. destruct (H i Hi) as [E U].
  do 4 (destruct i as [|i]; [cbn [nth] in *; rewrite <- E; subst turn; cbv beta; rewrite half_turn by (rewrite E; done);
    split; [done|apply rotate_u32; [by rewrite E|lia]]|]). lia.
Qed.

Lemma avx2_half_turn v f : has_lanes 8 v f ->
  has_lanes 8 (Lanes.shuffle_bytes (half_turn_bytes ++ half_turn_bytes) v) (fun i => rotate_left (f i) 16).
Proof.
  intros [Hl H]. destruct v as [|x0 [|x1 [|x2 [|x3 [|x4 [|x5 [|x6 [|x7 [|]]]]]]]]]; try done.
  set (turn x := le_combine [byte_of (x / 256 / 256); byte_of (x / 256 / 256 / 256); byte_of x; byte_of (x / 256)]).
  assert (Lanes.shuffle_bytes (half_turn_bytes ++ half_turn_bytes) [x0; x1; x2; x3; x4; x5; x6; x7] =
    turn <$> [x0; x1; x2; x3; x4; x5; x6; x7]) as -> by reflexivity.
  assert (forall x, u32 x -> turn x = rotate_left x 16) as Ht.
  { intros x Hx. rewrite <- half_turn by done. unfold turn, u32 in *. cbn [le_combine]. rewrite !u8_byte_of. dlia. }
  split; [reflexivity|]. intros i Hi. destruct (H i Hi) as [E U].
  do 8 (destruct i as [|i]; [cbn [nth fmap list_fmap] in *; rewrite Ht by (rewrite E; done); rewrite E;
    split; [done|apply rotate_u32; [done|lia]]|]). lia.
Qed.

(** * The kernels *)

#[export] Instance scalar_lanes : LaneWise scalar_op.
Proof.
  split; unfold holds; cbn; intros.
  1-7: split; [reflexivity|]; intros i Hi;
    repeat match goal with H : _ = 1%nat /\ (forall i, _) |- _ => destruct (proj2 H i Hi) as [? ?]; clear H end;
    assert (i = 0)%nat as -> by lia; unfold vlane in *; cbn in *; subst.
  - split; [done|apply wadd_u32].
  - rewrite wrap32_u32 by done. done.
  - split; [done|apply wadd_u32].
  - split; [done|apply wadd_u32].
  - split; [done|apply wadd_u32].
  - rewrite wrap32_u32 by done. split; [done|apply wadd_u32].
  - split; [done|]. apply rotate_u32; [done|lia].
  - destruct ptrs as [|p [|]]; try done. split; [reflexivity|]. intros j Hj. cbn [nth].
    split; [reflexivity|]. intros i Hi. unfold vlane. cbn [op_store scalar_op].
    assert (i = 0)%nat as -> by lia. cbn [nth].
    do 16 (destruct j as [|j]; [split; [reflexivity|apply u32_le_range]|]). lia.
Qed.

(** ** Laws the vector instruction sets share *)
Section common.
Context (n : nat) (a b c d : list Z) (fa fb fc fd : nat -> Z).
Context (Ha : has_lanes n a fa) (Hb : has_lanes n b fb) (Hc : has_lanes n c fc) (Hd : has_lanes n d fd).

Lemma common_add : has_lanes n (Lanes.add a b) (fun i => wadd (fa i) (fb i)).
Proof. lane_law. done. Qed.
Lemma common_splat k : u32 k -> has_lanes n (Lanes.splat n k) (fun _ => k).
Proof. intros Hk. lane_law. by apply wrap32_u32. Qed.
Lemma common_select_f : has_lanes n (Lanes.add a (Lanes.bitselect b c d)) (fun i => wadd (fa i) (mix StepF (fb i) (fc i) (fd i))).
Proof. lane_law. done. Qed.
Lemma common_select_g : has_lanes n (Lanes.add a (Lanes.bitselect d b c)) (fun i => wadd (fa i) (mix StepG (fb i) (fc i) (fd i))).
Proof. lane_law. done. Qed.
Lemma common_xor_f : has_lanes n (Lanes.add a (Lanes.xor (Lanes.and (Lanes.xor c d) b) d))
  (fun i => wadd (fa i) (mix StepF (fb i) (fc i) (fd i))).
Proof. lane_law. lane_words. by rewrite xor_form_f. Qed.
Lemma common_split_g : has_lanes n (Lanes.add (Lanes.add a (Lanes.andnot d c)) (Lanes.and d b))
  (fun i => wadd (fa i) (mix StepG (fb i) (fc i) (fd i))).
Proof. lane_law. lane_words. by apply split_form_g. Qed.
Lemma common_h : has_lanes n (Lanes.add a (Lanes.xor (Lanes.xor c d) b)) (fun i => wadd (fa i) (mix StepH (fb i) (fc i) (fd i))).
Proof. lane_law. by rewrite xor_form_h. Qed.
Lemma common_rotl s : 0 < s < 32 ->
  has_lanes n (Lanes.or (Lanes.shl s a) (Lanes.shr (32 - s) a)) (fun i => rotate_left (fa i) s).
Proof. intros Hs. lane_law. done. Qed.
Lemma common_insert s : 0 < s < 32 ->
  has_lanes n (Lanes.sri (32 - s) (Lanes.shl s a) a) (fun i => rotate_left (fa i) s).
Proof.
  intros Hs. eapply lanes_ext.
  - unfold Lanes.sri. eapply lanes_map2; [lane_wise|exact Ha|]. intros x y Hx Hy. cbv beta.
    replace (32 - (32 - s)) with s by lia. by apply u32_insert.
  - cbv beta. intros i Hi _. apply shift_insert; [|done]. exact (proj2 (proj2 Ha i Hi)).
Qed.

(** [c ^ (b | !d)] as written with [orn], with an or of a complement, and
    with the complement spelled as an and-not of all ones. *)
Lemma common_orn_i : has_lanes n (Lanes.add a (Lanes.xor c (Lanes.orn b d))) (fun i => wadd (fa i) (mix StepI (fb i) (fc i) (fd i))).
Proof. lane_law. done. Qed.
Lemma common_not_i : has_lanes n (Lanes.add a (Lanes.xor c (Lanes.or b (Lanes.not d)))) (fun i => wadd (fa i) (mix StepI (fb i) (fc i) (fd i))).
Proof. lane_law. done. Qed.
Lemma common_andnot_i : has_lanes n (Lanes.add a (Lanes.xor c (Lanes.or b (Lanes.andnot d (Lanes.splat n (-1))))))
  (fun i => wadd (fa i) (mix StepI (fb i) (fc i) (fd i))).
Proof.
  lane_law. lane_words. cbn [mix]. change (wrap32 (-1)) with (Z.ones 32).
  rewrite Z.land_ones, Z.mod_small by (lia || (apply u32_not; done)). done.
Qed.
End common.

(** The three instruction sets whose [splat_i] is plain. *)
Lemma plain_i n a b c d m k fa fb fc fd fm acc_i :
  u32 k -> has_lanes n a fa -> has_lanes n b fb -> has_lanes n c fc -> has_lanes n d fd -> has_lanes n m fm ->
  (forall a fa, has_lanes n a fa ->
    has_lanes n (acc_i a b c d) (fun i => wadd (fa i) (mix StepI (fb i) (fc i) (fd i)))) ->
  has_lanes n (acc_i (Lanes.add a (Lanes.add (Lanes.splat n k) m)) b c d)
    (fun i => wadd (wadd (fa i) (wadd k (fm i))) (mix StepI (fb i) (fc i) (fd i))).
Proof.
  intros Hk Ha Hb Hc Hd Hm H. apply (H _ (fun i => wadd (fa i) (wadd k (fm i)))).
  lane_law. by rewrite wrap32_u32.
Qed.

#[export] Instance neon_lanes : LaneWise neon_op.
Proof.
  split; intros.
  - by apply common_add.
  - by apply common_splat.
  - by apply common_select_f.
  - by apply common_select_g.
  - by apply common_h.
  - apply (plain_i 4 _ _ _ _ _ _ _ _ _ _ _ (fun a b c d => Lanes.add a (Lanes.xor c (Lanes.orn b d)))); try done.
    intros. by apply common_orn_i.
  - cbn [op_rotl neon_op]. unfold is_half_turn. destruct (Z.eqb_spec s 16) as [->|]; cbn [andb].
    + by apply neon_half_turn.
    + by apply common_insert.
  - by apply load4_lanes.
Qed.

#[export] Instance sse2_lanes : LaneWise sse2_op.
Proof.
  split; intros.
  - by apply common_add.
  - by apply common_splat.
  - by apply common_xor_f.
  - by apply common_split_g.
  - by apply common_h.
  - apply (plain_i 4 _ _ _ _ _ _ _ _ _ _ _
      (fun a b c d => Lanes.add a (Lanes.xor c (Lanes.or b (Lanes.andnot d (Lanes.splat 4 (-1))))))); try done.
    intros. by apply common_andnot_i.
  - cbn [op_rotl sse2_op]. unfold is_half_turn. destruct (Z.eqb_spec s 16) as [->|]; cbn [andb].
    + by apply sse2_half_turn.
    + by apply common_rotl.
  - by apply load4_lanes.
Qed.

#[export] Instance simd128_lanes : LaneWise simd128_op.
Proof.
  split; intros.
  - by apply common_add.
  - by apply common_splat.
  - by apply common_select_f.
  - by apply common_select_g.
  - by apply common_h.
  - apply (plain_i 4 _ _ _ _ _ _ _ _ _ _ _ (fun a b c d => Lanes.add a (Lanes.xor c (Lanes.or b (Lanes.not d))))); try done.
    intros. by apply common_not_i.
  - by apply common_rotl.
  - by apply load4_lanes.
Qed.

#[export] Instance avx2_lanes : LaneWise avx2_op.
Proof.
  split; intros.
  - by apply common_add.
  - by apply common_splat.
  - by apply common_xor_f.
  - by apply common_split_g.
  - by apply common_h.
  - change (has_lanes 8 (Lanes.sub (Lanes.add a (Lanes.add (Lanes.splat 8 (wrap32 (k - 1))) m)) (Lanes.xor c (Lanes.andnot b d)))
      (fun i => wadd (wadd (fa i) (wadd k (fm i))) (mix StepI (fb i) (fc i) (fd i)))).
    change (has_lanes 8 a fa) in H0. change (has_lanes 8 b fb) in H1. change (has_lanes 8 c fc) in H2.
    change (has_lanes 8 d fd) in H3. change (has_lanes 8 m fm) in H4.
    lane_law. lane_words. rewrite sub_form_i by done. unfold wadd, wrap32.
    generalize (mix StepI (fb i) (fc i) (fd i)); intros y. change (2 ^ 32) with 4294967296. dlia.
  - cbn [op_rotl avx2_op]. unfold is_half_turn. destruct (Z.eqb_spec s 16) as [->|]; cbn [andb].
    + by apply avx2_half_turn.
    + by apply common_rotl.
  - by apply load8_lanes.
Qed.

(** * One block in every lane *)

Section blocks.
Context {ops : Md5Ops} {lw : LaneWise ops}.

Definition qholds (q : quad vec) (f : nat -> quad Z) : Prop :=
  holds (qa q) (fun i => qa (f i)) /\ holds (qb q) (fun i => qb (f i)) /\
  holds (qc q) (fun i => qc (f i)) /\ holds (qd q) (fun i => qd (f i)).

Lemma holds_ext v f g : holds v f -> (forall i, (i < lanes)%nat -> f i = g i) -> holds v g.
Proof. intros [Hl H] Hfg. split; [done|]. intros i Hi. rewrite <- Hfg by done. by apply H. Qed.

Lemma step_lanes kind q m k s f fm : u32 k -> 0 < s < 32 -> qholds q f -> holds m fm ->
  qholds (md5_step kind q m k s (32 - s))
    (fun i => md5_step (ops := scalar_op) kind (f i) (fm i) k s (32 - s)).
Proof.
  intros Hk Hs (Ha & Hb & Hc & Hd) Hm. destruct q as [a b c d]. cbn [qa qb qc qd] in *.
  assert (holds (op_add a (op_add (op_splat k) m)) (fun i => wadd (qa (f i)) (wadd k (fm i)))) as Hacc
    by (apply lane_add; [done|]; apply lane_add; [by apply lane_splat|done]).
  assert (forall g (v : vec), holds v g -> holds (op_add b (op_rotl v s (32 - s))) (fun i => wadd (qb (f i)) (rotate_left (g i) s))) as Hrot
    by (intros g v Hv; apply lane_add; [done|]; by apply lane_rotl).
  destruct kind; (split; [|split; [|split]]); cbn [md5_step qa qb qc qd];
    (eapply holds_ext; [first [exact Hd | exact Hb | exact Hc
      | apply Hrot; first [apply lane_f | apply lane_g | apply lane_h]; eassumption
      | apply Hrot; apply lane_i; eassumption] | ]);
    intros i Hi; cbv beta; destruct (f i) as [fa fb fc fd]; cbn; rewrite ?wrap32_u32 by done; reflexivity.
Qed.

(** The schedule's constants are words and its rotations proper. *)
Definition round_ok (r : round) : bool :=
  (0 <=? r_const r) && (r_const r <? 2 ^ 32) && (0 <? r_rot r) && (r_rot r <? 32) &&
  (r_rot' r =? 32 - r_rot r) && (r_word r <? 16)%nat.
Lemma schedule_ok : Forall (fun r => round_ok r = true) schedule.
Proof. by repeat constructor. Qed.

Lemma rounds_lanes m fm rs q f :
  (forall j, (j < 16)%nat -> holds (nth j m (op_splat 0)) (fun i => nth j (fm i) 0)) ->
  Forall (fun r => round_ok r = true) rs -> qholds q f ->
  qholds (foldl (run_round m) q rs) (fun i => foldl (run_round (ops := scalar_op) (fm i)) (f i) rs).
Proof.
  intros Hm Hrs. revert q f. induction Hrs as [|r rs Hr _ IH]; intros q f Hq; [done|].
  cbn [foldl]. apply (IH _ (fun i => run_round (ops := scalar_op) (fm i) (f i) r)).
  unfold round_ok in Hr. rewrite !andb_true_iff in Hr. destruct Hr as [[[[[H1 H2] H3] H4] H5] H6].
  apply Z.eqb_eq in H5. apply Nat.ltb_lt in H6. unfold run_round. rewrite H5.
  apply step_lanes; [unfold u32; lia|lia|done|by apply Hm].
Qed.

Lemma block_lanes q f ptrs : qholds q f -> length ptrs = lanes ->
  qholds (md5_block q (op_load ptrs)) (fun i => md5_compress (f i) (nth i ptrs [])).
Proof.
  intros Hq Hp. destruct (lane_load ptrs Hp) as [_ Hm].
  pose proof (rounds_lanes (op_load ptrs) (fun i => block_words (nth i ptrs [])) schedule q f Hm schedule_ok Hq)
    as (Ra & Rb & Rc & Rd). destruct Hq as (Ha & Hb & Hc & Hd).
  unfold md5_block, md5_compress, qholds. cbn [qa qb qc qd].
  split; [|split; [|split]].
  - exact (lane_add _ _ _ _ Ra Ha).
  - exact (lane_add _ _ _ _ Rb Hb).
  - exact (lane_add _ _ _ _ Rc Hc).
  - exact (lane_add _ _ _ _ Rd Hd).
Qed.
End blocks.
