(* ===== verification/Md5Multi.v ===== *)
(** The multi-buffer hasher computes MD5 of every input, zero-extended to the
    padding target, on every target: the planned blocks are the blocks of the
    padded message, the driver runs each lane over its own blocks and takes
    its digest where it ends, and the batches cover the inputs in order. *)
From S2P Require Import Prelude.
From S2P Require Import Md5Spec.
From S2P Require Import Md5Simd.
From S2P Require Import Md5Lanes.

Definition bytes_at (l : list byte) (i : Z) : list byte := ztake 64 (zdrop (64 * i) l).

Lemma block_at_bytes l i : block_at l i = bytes_at l (Z.of_nat i).
Proof. unfold block_at, bytes_at. rewrite ztake_nat, zdrop_nat by lia. f_equal. f_equal. lia. Qed.

(** The message of PAR2's short final slice. *)
Definition zero_extend (data : list byte) (pad_to : option Z) : list byte :=
  data ++ zreplicate (effective_len (zlen data) pad_to - zlen data) x00.

Lemma effective_len_ge raw pad_to : raw <= effective_len raw pad_to.
Proof. unfold effective_len. destruct pad_to as [target|]; [destruct (Z.ltb_spec raw target)|]; lia. Qed.
Lemma zlen_zero_extend data pad_to : zlen (zero_extend data pad_to) = effective_len (zlen data) pad_to.
Proof.
  pose proof (effective_len_ge (zlen data) pad_to). unfold zero_extend. rewrite zlen_app, zlen_replicate by lia. lia.
Qed.

(** * The plan of a lane *)

Record planned (plan : LanePlan) (msg : list byte) : Prop := {
  planned_total : zlen (md_pad msg) = 64 * total_blocks plan;
  planned_blocks index : 0 <= index < total_blocks plan ->
    forall {E}, block_ptr (E := E) plan index = Ok (bytes_at (md_pad msg) index);
  planned_in_place index : 0 <= index < in_place_blocks plan ->
    index < total_blocks plan /\
    forall {E}, slice (E := E) (data plan) (index * BLOCK) (index * BLOCK + BLOCK) = Ok (bytes_at (md_pad msg) index);
}.

Section plan.
Context (d : list byte) (pad_to : option Z).
#[local] Abbreviation raw := (zlen d).
#[local] Abbreviation eff := (effective_len raw pad_to).
#[local] Abbreviation msg := (zero_extend d pad_to).

(** The sizes [LanePlan::new] works out. *)
Record sizes (total ts : Z) : Prop := {
  size_total : 64 * total = eff + 9 + (55 - eff) mod 64;
  size_one : 1 <= total;
  size_start : ts = Z.max (total - 2) 0;
  size_tail : 64 * ts <= eff;
}.

Lemma sizes_of : sizes ((eff + 9 + 63) / 64) (sat_sub_u64 ((eff + 9 + 63) / 64) 2).
Proof.
  pose proof (effective_len_ge raw pad_to). pose proof (zlen_nonneg d). unfold sat_sub_u64.
  split; [dlia|dlia|done|dlia].
Qed.

Lemma md_pad_msg : md_pad msg =
  d ++ zreplicate (eff - raw) x00 ++ [x80] ++ zreplicate ((55 - eff) mod 64) x00 ++ le_split 8 (8 * eff).
Proof. unfold md_pad. rewrite zlen_zero_extend. unfold zero_extend. by rewrite <- app_assoc. Qed.

Lemma zlen_pad_msg : zlen (md_pad msg) = eff + 9 + (55 - eff) mod 64.
Proof. by rewrite zlen_md_pad, zlen_zero_extend. Qed.

(** The tail scratch holds the padded message from [ts] on. *)
Lemma plan_tail_spec {E} total ts : sizes total ts -> eff * 8 < 2 ^ 64 ->
  exists rest, plan_tail (E := E) d eff ts total = Ok (zdrop (64 * ts) (md_pad msg) ++ rest).
Proof.
  intros [Ht H1 Hs Hts] Hov. pose proof (effective_len_ge raw pad_to). pose proof (zlen_nonneg d).
  set (t := zdrop (64 * ts) msg). assert (zlen t = eff - 64 * ts) as Hlt
    by (unfold t; rewrite zlen_drop, zlen_zero_extend by lia; lia).
  set (len := 64 * total - 64 * ts).
  assert (zlen t + 9 <= len <= 128) as Hlen by (pose proof (Z.mod_pos_bound (55 - eff) 64); lia).
  assert (0 <= ts) as Hts0 by lia.
  assert (zdrop (64 * ts) (md_pad msg) = last_blocks t len (8 * eff)) as ->.
  { unfold md_pad. rewrite zdrop_app_le by (rewrite zlen_zero_extend; lia). fold t. unfold last_blocks.
    rewrite zlen_zero_extend. do 3 f_equal. f_equal. lia. }
  exists (zreplicate (128 - len) x00). unfold plan_tail, BLOCK, TAIL_BLOCKS. change (2 * 64) with 128.
  rewrite (Z.mul_comm ts). rewrite <- tail_scratch by done.
  assert ((if 64 * ts <? raw
      then d' ← slice_from d (64 * ts); copy_range (zreplicate 128 x00) 0 (raw - 64 * ts) d'
      else Ok (zreplicate 128 x00)) = Ok (E := E) (t ++ zreplicate (128 - zlen t) x00)) as Hhead.
  { unfold t, zero_extend. destruct (Z.ltb_spec (64 * ts) raw).
    - rewrite slice_from_ok, bind_Ok by lia.
      rewrite copy_range_ok by (rewrite ?zlen_replicate, ?zlen_drop by lia; lia).
      rewrite zdrop_app_le, zdrop_replicate by lia.
      assert (ztake 0 (zreplicate 128 x00) = []) as -> by done. cbn [app]. rewrite <- app_assoc.
      rewrite zlen_app, zlen_drop, zlen_replicate, zreplicate_app by lia. do 3 f_equal. lia.
    - rewrite zdrop_app_ge, zdrop_replicate, zlen_replicate, zreplicate_app by lia. do 2 f_equal. lia. }
  rewrite Hhead, bind_Ok. replace (eff - 64 * ts) with (zlen t) by lia.
  destruct (set_at _ _ x80) as [a| |]; [|done|done]. rewrite !bind_Ok.
  rewrite (proj2 (Z.ltb_lt _ _)), bind_Ok by lia. rewrite (Z.mul_comm eff).
  f_equal; [lia|lia].
Qed.

(** ** The blocks of the padded message *)

Lemma pad_block_data i : 0 <= i -> 64 * i + 64 <= raw -> bytes_at (md_pad msg) i = ztake 64 (zdrop (64 * i) d).
Proof.
  intros. unfold bytes_at. rewrite md_pad_msg. rewrite zdrop_app_le by lia.
  apply ztake_app_le. rewrite zlen_drop by lia. lia.
Qed.
Lemma pad_block_straddle i : 0 <= i -> 64 * i <= raw < 64 * i + 64 -> 64 * i + 64 <= eff ->
  bytes_at (md_pad msg) i = zdrop (64 * i) d ++ zreplicate (64 * i + 64 - raw) x00.
Proof.
  intros. unfold bytes_at. rewrite md_pad_msg. rewrite zdrop_app_le by lia.
  rewrite ztake_app_ge, zlen_drop by (rewrite ?zlen_drop by lia; lia). f_equal.
  rewrite ztake_app_le by (rewrite zlen_replicate by lia; lia). rewrite ztake_replicate by lia. f_equal. lia.
Qed.
Lemma pad_block_zero i : 0 <= i -> raw <= 64 * i -> 64 * i + 64 <= eff -> bytes_at (md_pad msg) i = ZERO_BLOCK.
Proof.
  intros. pose proof (zlen_nonneg d). unfold bytes_at. rewrite md_pad_msg. rewrite zdrop_app_ge by lia.
  rewrite zdrop_app_le, zdrop_replicate by (rewrite ?zlen_replicate by lia; lia).
  rewrite ztake_app_le by (rewrite zlen_replicate by lia; lia). by rewrite ztake_replicate by lia.
Qed.

Lemma straddle_copy {E} i : 64 * i <= raw < 64 * i + 64 -> 0 <= i ->
  copy_range ZERO_BLOCK 0 (raw - 64 * i) (zdrop (64 * i) d)
    = Ok (E := E) (zdrop (64 * i) d ++ zreplicate (64 * i + 64 - raw) x00).
Proof.
  intros. unfold ZERO_BLOCK, BLOCK. rewrite copy_range_ok by (rewrite ?zlen_replicate, ?zlen_drop by lia; lia).
  assert (ztake 0 (zreplicate 64 x00) = []) as -> by done. cbn [app].
  rewrite zdrop_replicate by lia. do 3 f_equal. lia.
Qed.

(** Every shape of the plan reads the same blocks. *)
Lemma plan_reads total ts si st rest : sizes total ts -> eff * 8 < 2 ^ 64 ->
  (raw / 64 < ts -> raw mod 64 <> 0 ->
    si = raw / 64 /\ st = zdrop (64 * (raw / 64)) d ++ zreplicate (64 * (raw / 64) + 64 - raw) x00) ->
  (raw mod 64 = 0 \/ ts <= raw / 64 -> si = 2 ^ 64 - 1) ->
  planned (mk_plan d (raw / 64) si st ts (zdrop (64 * ts) (md_pad msg) ++ rest) total) msg.
Proof.
  intros [Ht H1 Hs Hts] Hov Hst Hsi. pose proof zlen_pad_msg as Hpad. pose proof (zlen_nonneg d).
  pose proof (effective_len_ge raw pad_to) as Hge.
  assert (64 * (raw / 64) <= raw < 64 * (raw / 64) + 64) as Hfull by dlia. set (full := raw / 64) in *.
  split; cbn [total_blocks data data_full_blocks]; [lia| |].
  - intros index Hi E. unfold block_ptr, BLOCK.
    cbn [total_blocks tail_start tail data_full_blocks data straddle_index straddle].
    destruct (Z.leb_spec total index); [lia|]. destruct (Z.leb_spec ts index).
    + rewrite slice_ok; [|lia|lia|rewrite zlen_app, zlen_drop by lia; pose proof (zlen_nonneg rest); lia].
      rewrite zdrop_app_le by (rewrite zlen_drop by lia; lia). rewrite zdrop_zdrop by lia.
      rewrite ztake_app_le by (rewrite zlen_drop by lia; lia). unfold bytes_at. do 3 f_equal; lia.
    + destruct (Z.ltb_spec index full).
      { rewrite slice_ok, pad_block_data by lia. do 3 f_equal; lia. }
      destruct (decide (raw mod 64 = 0)) as [Hm|Hm].
      { rewrite Hsi, (proj2 (Z.eqb_neq _ _)), pad_block_zero by (auto || dlia). done. }
      destruct (Hst ltac:(lia) Hm) as [-> ->]. destruct (Z.eqb_spec index full) as [->|].
      * rewrite pad_block_straddle by lia. pose proof (zlen_drop (64 * full) d).
        rewrite slice_ok, zdrop_0, Z.sub_0_r by (rewrite ?zlen_app, ?zlen_replicate by lia; lia).
        rewrite ztake_all; [done|]. rewrite zlen_app, zlen_replicate by lia. lia.
      * rewrite pad_block_zero by lia. done.
  - unfold in_place_blocks. cbn [data_full_blocks tail_start]. intros index Hi. split; [lia|].
    intros E. unfold BLOCK. rewrite slice_ok, pad_block_data by lia. do 3 f_equal; lia.
Qed.
End plan.

Lemma LanePlan_new_ok d pad_to {E} : effective_len (zlen d) pad_to * 8 < 2 ^ 64 ->
  exists plan, LanePlan_new (E := E) d pad_to = Ok plan /\ planned plan (zero_extend d pad_to).
Proof.
  intros Hov. pose proof (effective_len_ge (zlen d) pad_to) as Hge. pose proof (zlen_nonneg d).
  unfold LanePlan_new, add_u64. rewrite (proj2 (Z.ltb_lt _ _)), bind_Ok by lia. unfold BLOCK, TAIL_BLOCKS.
  pose proof (sizes_of d pad_to) as Hsz.
  destruct (plan_tail_spec (E := E) d pad_to _ _ Hsz Hov) as [rest ->]. rewrite bind_Ok.
  assert (64 * (zlen d / 64) <= zlen d < 64 * (zlen d / 64) + 64) as Hfull by dlia.
  destruct (Z.eqb_spec (zlen d mod 64) 0) as [Hm|Hm]; cbn [negb andb].
  { eexists. split; [reflexivity|]. by apply plan_reads. }
  destruct (Z.ltb_spec (zlen d / 64) (sat_sub_u64 ((effective_len (zlen d) pad_to + 9 + 63) / 64) 2)).
  - rewrite (Z.mul_comm (zlen d / 64)). rewrite slice_from_ok, bind_Ok by lia.
    rewrite straddle_copy, bind_Ok by lia. eexists. split; [reflexivity|]. apply plan_reads; [done..|lia].
  - eexists. split; [reflexivity|]. apply plan_reads; [done|done|lia|done].
Qed.

(** * The kernel driver *)

(** The state of a lane after [k] blocks of its message. *)
Definition state_after (m : list byte) (k : nat) : quad Z :=
  foldl md5_compress INIT (take k (whole_blocks (md_pad m))).

Lemma state_after_S m k total : zlen (md_pad m) = 64 * total -> Z.of_nat k < total ->
  state_after m (S k) = md5_compress (state_after m k) (bytes_at (md_pad m) (Z.of_nat k)).
Proof.
  intros Ht Hk. unfold state_after. rewrite (take_S_r _ _ (block_at (md_pad m) k)).
  - by rewrite foldl_snoc, block_at_bytes.
  - unfold whole_blocks. rewrite list_lookup_fmap, lookup_seq_lt; [done|].
    apply Nat.div_le_lower_bound; [lia|]. unfold zlen in Ht. lia.
Qed.
Lemma state_after_all m k : (length (md_pad m) <= 64 * k)%nat -> le_words (state_after m k) = md5 m.
Proof.
  intros Hk. unfold state_after, md5, md_digest, absorb. rewrite take_ge; [done|].
  rewrite length_whole_blocks. apply Nat.Div0.div_le_upper_bound. lia.
Qed.

Lemma max_of_ge f plans plan : plan ∈ plans -> f plan <= max_of f plans.
Proof.
  unfold max_of. induction plans as [|p plans IH]; [by intros ?%elem_of_nil|].
  cbn [fmap list_fmap foldr]. intros [->|Hin]%elem_of_cons; [lia|]. specialize (IH Hin). lia.
Qed.
Lemma min_of_le f plans plan : plan ∈ plans -> min_of f plans <= f plan.
Proof.
  unfold min_of. destruct plans as [|p plans]; [by intros ?%elem_of_nil|]. cbn [fmap list_fmap].
  assert (forall l x, foldr Z.min x l <= x /\ forall y, y ∈ l -> foldr Z.min x l <= y) as H.
  { induction l as [|z l IH]; intros x; cbn [foldr]; [split; [lia|by intros y ?%elem_of_nil]|].
    destruct (IH x) as [H1 H2]. split; [lia|]. intros y [->|Hy]%elem_of_cons; [lia|]. specialize (H2 y Hy). lia. }
  destruct (H (f <$> plans) (f p)) as [H1 H2]. intros [->|Hin]%elem_of_cons; [done|].
  apply H2. by apply list_elem_of_fmap_2.
Qed.

Section kernel.
Context {ops : Md5Ops} {lw : LaneWise ops} {E : Type}.
Context (plans : list LanePlan) (msgs : list (list byte)).
Context (Hplans : Forall2 planned plans msgs) (Hlanes : (length plans <= lanes)%nat).

Lemma plan_at i plan : plans !! i = Some plan -> exists m, msgs !! i = Some m /\ planned plan m.
Proof using Hplans. intros Hi. exact (Forall2_lookup_l _ _ _ _ _ Hplans Hi). Qed.

(** The driver's invariant before block [k]. *)
Record running (k : nat) (s : kernel_state) : Prop := {
  run_words : exists f, qholds (k_words s) f /\
    forall i plan m, plans !! i = Some plan -> msgs !! i = Some m -> Z.of_nat k <= total_blocks plan ->
      f i = state_after m k;
  run_ptrs : length (k_ptrs s) = lanes;
  run_len : length (k_out s) = length plans;
  run_out : forall i plan m, plans !! i = Some plan -> msgs !! i = Some m -> total_blocks plan <= Z.of_nat k ->
    k_out s !! i = Some (md5 m);
}.

(** Every lane still running is pointed at its next block. *)
Lemma resolve_ptrs_ok k ptrs : length ptrs = lanes ->
  exists new, resolve_ptrs (E := E) plans (min_of in_place_blocks plans) (Z.of_nat k) ptrs = Ok new /\
    length new = lanes /\
    forall i plan m, plans !! i = Some plan -> msgs !! i = Some m -> Z.of_nat k < total_blocks plan ->
      nth i new [] = bytes_at (md_pad m) (Z.of_nat k).
Proof using Hplans Hlanes.
  intros Hp. unfold resolve_ptrs.
  destruct (mapM_Forall2 (E := E) (fun plan =>
      if Z.of_nat k <? min_of in_place_blocks plans
      then slice (data plan) (Z.of_nat k * BLOCK) (Z.of_nat k * BLOCK + BLOCK) else block_ptr plan (Z.of_nat k))
    (fun plan b => forall m, planned plan m -> Z.of_nat k < total_blocks plan -> b = bytes_at (md_pad m) (Z.of_nat k))
    plans) as (new & -> & Hnew).
  { apply Forall_lookup. intros i plan Hi. destruct (plan_at i plan Hi) as (m & Hm & Hpl).
    assert (forall m', planned plan m' -> Z.of_nat k < total_blocks plan ->
      block_ptr (E := E) plan (Z.of_nat k) = Ok (bytes_at (md_pad m') (Z.of_nat k))) as Hb
      by (intros m' Hm' Hk; apply planned_blocks; [done|lia]).
    destruct (Z.ltb_spec (Z.of_nat k) (min_of in_place_blocks plans)) as [Hin|_].
    - pose proof (min_of_le in_place_blocks plans plan ltac:(by eapply list_elem_of_lookup_2)).
      destruct (planned_in_place _ _ Hpl (Z.of_nat k) ltac:(lia)) as [_ Hs]. rewrite Hs.
      eexists. split; [reflexivity|]. intros m' Hm' Hk.
      destruct (planned_in_place _ _ Hm' (Z.of_nat k) ltac:(lia)) as [_ Hs'].
      pose proof (Hs E) as H1. pose proof (Hs' E) as H2. congruence.
    - destruct (Z.leb_spec (total_blocks plan) (Z.of_nat k)) as [Hd|Hd].
      + exists ZERO_BLOCK. split; [|intros; lia]. unfold block_ptr. by rewrite (proj2 (Z.leb_le _ _)).
      + rewrite (Hb m Hpl Hd). eexists. split; [reflexivity|]. intros m' Hm' Hk.
        pose proof (Hb m Hpl Hd) as H1. pose proof (Hb m' Hm' Hk) as H2. congruence. }
  rewrite bind_Ok. eexists. split; [reflexivity|].
  pose proof (Forall2_length Hnew) as Hl. split; [rewrite length_app, length_drop; lia|].
  intros i plan m Hi Hm Hk. destruct (Forall2_lookup_l _ _ _ _ _ Hnew Hi) as (b & Hb & HR).
  rewrite app_nth1 by (apply lookup_lt_Some in Hb; lia). rewrite nth_lookup, Hb. cbn [default from_option].
  destruct (plan_at i plan Hi) as (m' & Hm' & Hpl). simplify_eq. by apply HR.
Qed.

Lemma extract_ok q f k out : qholds q f -> length out = length plans ->
  spec (for_range (E := E) 0 (length plans) (extract_lane q plans (Z.of_nat k)) out)
    (fun out' => length out' = length plans /\ forall i plan, plans !! i = Some plan ->
      out' !! i = if total_blocks plan =? Z.of_nat k + 1 then Some (le_words (f i)) else out !! i) (fun _ => False).
Proof using Hlanes.
  intros (Ha & Hb & Hc & Hd) Hlen.
  eapply spec_post; [apply (spec_for_range (fun n out' => length out' = length plans /\
    forall i plan, plans !! i = Some plan -> out' !! i =
      if (i <? n)%nat && (total_blocks plan =? Z.of_nat k + 1) then Some (le_words (f i)) else out !! i))|].
  - split; [done|]. by intros.
  - intros n out' Hn [Hl Hout]. unfold extract_lane.
    destruct (lookup_lt_is_Some_2 plans n ltac:(lia)) as [plan Hplan].
    assert (get_at (E := E) plans n = Ok plan) as -> by (unfold get_at; by rewrite Hplan). rewrite bind_Ok.
    assert (forall v g, holds v g -> get_at (E := E) (op_store v) n = Ok (g n)) as Hget.
    { intros v g [Hv Hg]. rewrite (get_at_nth (op_store v) n 0) by lia. f_equal. apply Hg. lia. }
    destruct (Z.eqb_spec (total_blocks plan) (Z.of_nat k + 1)) as [Heq|Hne].
    + rewrite (Hget _ _ Ha), bind_Ok, (Hget _ _ Hb), bind_Ok, (Hget _ _ Hc), bind_Ok, (Hget _ _ Hd), bind_Ok.
      rewrite set_at_ok by lia. cbn [spec]. split; [by rewrite length_insert|]. intros i plan' Hi.
      destruct (decide (i = n)) as [->|Hin].
      * simplify_eq. rewrite list_lookup_insert_eq by lia. rewrite (proj2 (Nat.ltb_lt _ _)), Heq, Z.eqb_refl by lia.
        cbn [andb]. by destruct (f n).
      * rewrite list_lookup_insert_ne by done. rewrite (Hout i plan' Hi).
        destruct (Nat.ltb_spec i n), (Nat.ltb_spec i (S n)); try lia; done.
    + cbn [spec]. split; [done|]. intros i plan' Hi. rewrite (Hout i plan' Hi).
      destruct (Nat.ltb_spec i n), (Nat.ltb_spec i (S n)); try lia; try done.
      replace i with n in * by lia. simplify_eq. by rewrite (proj2 (Z.eqb_neq _ _)).
  - cbv beta. rewrite Nat.add_0_l. intros out' [Hl Hout]. split; [done|]. intros i plan Hi. rewrite (Hout i plan Hi).
    by rewrite (proj2 (Nat.ltb_lt _ _)) by (apply lookup_lt_Some in Hi; lia).
Qed.

Lemma kernel_step_ok k s : running k s ->
  spec (kernel_step (E := E) plans (min_of total_blocks plans) (min_of in_place_blocks plans) k s)
    (running (S k)) (fun _ => False).
Proof using Hplans Hlanes lw.
  intros [(f & Hf & Hfm) Hp Hl Hout]. unfold kernel_step.
  destruct (resolve_ptrs_ok k (k_ptrs s) Hp) as (new & -> & Hnew & Hptr). rewrite bind_Ok.
  pose proof (block_lanes _ _ _ Hf Hnew) as Hq.
  assert (forall i plan m, plans !! i = Some plan -> msgs !! i = Some m -> Z.of_nat (S k) <= total_blocks plan ->
    md5_compress (f i) (nth i new []) = state_after m (S k)) as Hnext.
  { intros i plan m Hi Hm Hk. destruct (plan_at i plan Hi) as (m' & Hm' & Hpl). simplify_eq.
    rewrite (state_after_S m k (total_blocks plan)) by (exact (planned_total _ _ Hpl) || lia).
    rewrite (Hptr i plan m), (Hfm i plan m) by (done || lia). done. }
  set (q := md5_block (k_words s) (op_load new)) in *.
  eapply (spec_bind _ _ (fun out' => length out' = length plans /\ forall i plan, plans !! i = Some plan ->
      out' !! i = if total_blocks plan =? Z.of_nat k + 1
                  then Some (le_words (md5_compress (f i) (nth i new []))) else k_out s !! i)).
  - destruct (Z.leb_spec (min_of total_blocks plans) (Z.of_nat k + 1)); [by apply (extract_ok _ _ _ _ Hq)|].
    split; [done|]. intros i plan Hi.
    pose proof (min_of_le total_blocks plans plan ltac:(by eapply list_elem_of_lookup_2)).
    by rewrite (proj2 (Z.eqb_neq _ _)) by lia.
  - intros out' [Hl' Hout']. split; cbn [k_words k_ptrs k_out]; [|done|done|].
    + exists (fun i => md5_compress (f i) (nth i new [])). by split.
    + intros i plan m Hi Hm Hk. rewrite (Hout' i plan Hi).
      destruct (Z.eqb_spec (total_blocks plan) (Z.of_nat k + 1)) as [Heq|Hne]; [|apply (Hout i plan m); done || lia].
      destruct (plan_at i plan Hi) as (m' & Hm' & Hpl). simplify_eq.
      rewrite (Hnext i plan m) by (done || lia). f_equal. apply state_after_all.
      pose proof (planned_total _ _ Hpl). unfold zlen in *. lia.
Qed.

Lemma md5_multi_kernel_ok out : length out = length plans ->
  md5_multi_kernel (E := E) ops plans out = Ok (md5 <$> msgs).
Proof using Hplans Hlanes lw.
  intros Hout. unfold md5_multi_kernel. rewrite (proj2 (Nat.ltb_ge _ _)) by done.
  rewrite Hout, Nat.eqb_refl. cbn [negb]. pose proof (Forall2_length Hplans) as Hlm.
  destruct (decide (plans = [])) as [Hnil|Hne].
  { rewrite Hnil in Hlm, Hout |- *. apply symmetry, length_zero_iff_nil in Hlm.
    apply length_zero_iff_nil in Hout. by rewrite Hlm, Hout. }
  assert (forall a b : outcome E (list (list byte)), match plans with [] => a | _ => b end = b) as Hm
    by (clear - Hne; by destruct plans). rewrite Hm. clear Hm.
  assert (running 0 (mk_kernel (Quad (op_splat (qa INIT)) (op_splat (qb INIT)) (op_splat (qc INIT)) (op_splat (qd INIT)))
    (replicate lanes ZERO_BLOCK) out)) as H0.
  { split; cbn [k_words k_ptrs k_out]; [| by rewrite length_replicate | done |].
    - exists (fun _ => INIT). split; [|done].
      split; [|split; [|split]]; apply lane_splat; unfold u32; cbn; lia.
    - intros i plan m Hi Hm Hk. destruct (plan_at i plan Hi) as (m' & Hm' & Hpl).
      pose proof (planned_total _ _ Hpl) as Ht. rewrite zlen_md_pad in Ht.
      pose proof (zlen_nonneg m'). pose proof (Z.mod_pos_bound (55 - zlen m') 64). lia. }
  pose proof (spec_for_range (E := E) running (fun _ => False) 0 (Z.to_nat (max_of total_blocks plans)) _ _ H0
    (fun k s _ => kernel_step_ok k s)) as Hr.
  destruct (for_range _ _ _ _) as [s| |]; [|done|done]. rewrite bind_Ok. f_equal.
  destruct Hr as [_ _ Hl Hall]. apply list_eq. intros i. rewrite list_lookup_fmap.
  destruct (msgs !! i) as [m|] eqn:Hm.
  - destruct (Forall2_lookup_r _ _ _ _ _ Hplans Hm) as (plan & Hi & Hpl). apply (Hall i plan m Hi Hm).
    pose proof (max_of_ge total_blocks plans plan ltac:(by eapply list_elem_of_lookup_2)). lia.
  - apply lookup_ge_None in Hm. apply lookup_ge_None. lia.
Qed.
End kernel.

(** * Batches *)

Lemma batch_scalar_ok {E} plans msgs out : Forall2 planned plans msgs -> length out = length plans ->
  md5_batch_scalar (E := E) plans out = Ok (md5 <$> msgs).
Proof.
  intros H. revert out. induction H as [|plan m plans msgs Hpl H IH]; intros [|o out] Hout; try done.
  cbn [md5_batch_scalar]. rewrite (md5_multi_kernel_ok (ops := scalar_op) [plan] [m]); [|constructor; [done|constructor]|done|done].
  rewrite bind_Ok, IH, bind_Ok by (simpl in Hout; lia). done.
Qed.

Lemma batch_x86_ok {E} fuel avx2 sse2 plans msgs out :
  Forall2 planned plans msgs -> length out = length plans -> (length plans <= fuel)%nat ->
  (avx2 = true -> (length plans <= 8)%nat) -> (avx2 = false -> sse2 = false -> (length plans <= 1)%nat) ->
  md5_batch_x86 (E := E) fuel avx2 sse2 plans out = Ok (md5 <$> msgs).
Proof.
  revert plans msgs out. induction fuel as [|fuel IH]; intros plans msgs out H Hout Hfuel Havx Hno.
  { destruct plans; [|simpl in Hfuel; lia]. inversion H; subst. cbn [md5_batch_x86].
    destruct (Nat.ltb_spec 4 (length (@nil LanePlan))); [simpl in *; lia|].
    destruct sse2; [by apply (md5_multi_kernel_ok (ops := sse2_op) [] [])|by apply batch_scalar_ok]. }
  cbn [md5_batch_x86]. destruct (Nat.ltb_spec 4 (length plans)).
  - destruct avx2; [apply (md5_multi_kernel_ok (ops := avx2_op) plans msgs H (Havx eq_refl)); done|].
    rewrite (proj2 (Nat.ltb_ge _ _)) by lia. pose proof (Forall2_length H) as Hlm.
    assert (sse2 = true) as -> by (destruct sse2; [done|]; specialize (Hno eq_refl eq_refl); lia).
    rewrite (IH (take 4 plans) (take 4 msgs) (take 4 out)), bind_Ok;
      [|by apply Forall2_take|rewrite !length_take; lia|rewrite length_take; lia|done|done].
    rewrite (IH (drop 4 plans) (drop 4 msgs) (drop 4 out)), bind_Ok;
      [|by apply Forall2_drop|rewrite !length_drop; lia|rewrite length_drop; lia|done|done].
    by rewrite <- fmap_app, take_drop.
  - destruct sse2; [by apply (md5_multi_kernel_ok (ops := sse2_op))|by apply batch_scalar_ok].
Qed.

Lemma max_lanes_range t : 1 <= max_lanes t <= 8.
Proof. destruct t as [[]|[] []| |[]|]; simpl; lia. Qed.

Lemma md5_batch_ok {E} t plans msgs out :
  Forall2 planned plans msgs -> length out = length plans -> zlen plans <= max_lanes t ->
  md5_batch (E := E) t plans out = Ok (md5 <$> msgs).
Proof.
  intros H Hout Hn. pose proof (max_lanes_range t). unfold zlen in Hn.
  destruct t as [avx2|avx2 sse2| |simd|]; cbn [md5_batch].
  - apply batch_x86_ok; try done; destruct avx2; simpl in *; try lia; done.
  - apply batch_x86_ok; try done; destruct avx2, sse2; simpl in *; try lia; try done; intros; lia.
  - apply (md5_multi_kernel_ok (ops := neon_op)); [done|simpl in *; lia|done].
  - destruct simd; [|by apply batch_scalar_ok].
    apply (md5_multi_kernel_ok (ops := simd128_op)); [done|simpl in *; lia|done].
  - by apply batch_scalar_ok.
Qed.

(** A function over equal chunks of two lists. *)
Lemma mapM_chunks {E A B C} (f : list A * list B -> outcome E (list C)) (h : A -> C) n (P : A -> Prop) fuel l k :
  0 < n -> length l = length k -> Forall P l -> (length l <= fuel)%nat ->
  (forall c o, length c = length o -> zlen c <= n -> Forall P c -> f (c, o) = Ok (h <$> c)) ->
  (r ← mapM f (zip (chunks_loop fuel n l) (chunks_loop fuel n k)); Ok (concat r)) = Ok (h <$> l).
Proof.
  intros Hn Hl HP Hfuel Hf. enough (mapM f (zip (chunks_loop fuel n l) (chunks_loop fuel n k))
    = Ok (fmap h <$> chunks_loop fuel n l)) as ->.
  { rewrite bind_Ok. f_equal. rewrite <- (concat_chunks_loop fuel n l) at 2 by done. symmetry. apply concat_map. }
  revert l k Hl HP Hfuel. induction fuel as [|fuel IH]; intros l k Hl HP Hfuel; [done|].
  destruct (decide (l = [])) as [->|Hne]; [done|].
  assert (k <> []) as Hnk by (destruct l, k; done).
  rewrite !chunks_loop_S by done. cbn [zip zip_with mapM fmap list_fmap].
  rewrite Hf, bind_Ok, IH, bind_Ok; [done| | | | | |].
  - rewrite !zdrop_nat, !length_drop by lia. lia.
  - rewrite zdrop_nat by lia. by apply Forall_drop.
  - rewrite zdrop_nat, length_drop by lia. destruct l; [done|]. simpl in *. lia.
  - rewrite !ztake_nat, !length_take by lia. lia.
  - rewrite zlen_take by lia. lia.
  - rewrite ztake_nat by lia. by apply Forall_take.
Qed.

(** C39 (multi-buffer MD5): on every target, whatever detection answers, each
    input's digest is MD5 of the input zero-extended to the padding target,
    in order and for batches of any size and raggedness; nothing is read
    outside a buffer and no lane count is exceeded, as long as the padded
    lengths in bits fit 64 bits. *)
Theorem md5_multi_is_md5 {E} (t : target) (inputs : list (list byte)) (pad_to : option Z) (out : list (list byte)) :
  length inputs = length out ->
  Forall (fun d => effective_len (zlen d) pad_to * 8 < 2 ^ 64) inputs ->
  md5_multi_into (E := E) t inputs pad_to out = Ok ((fun d => md5 (zero_extend d pad_to)) <$> inputs).
Proof.
  intros Hlen Hfit. unfold md5_multi_into. rewrite (proj2 (Nat.eqb_eq _ _) Hlen). cbn [negb].
  destruct (decide (inputs = [])) as [->|Hne]; [by destruct out|].
  pose proof (max_lanes_range t) as Hl. transitivity (r ← mapM (fun '(chunk, digests) =>
      plans ← mapM (fun input => LanePlan_new input pad_to) chunk; md5_batch t plans digests)
    (zip (chunks (max_lanes t) inputs) (chunks (max_lanes t) out)); Ok (E := E) (concat r)); [by destruct inputs|].
  unfold chunks. rewrite <- Hlen. eapply mapM_chunks; [lia|done|exact Hfit|done|].
  intros c o Hco Hcn Hc.
  destruct (mapM_Forall2 (E := E) (fun input => LanePlan_new input pad_to)
    (fun d plan => planned plan (zero_extend d pad_to)) c) as (plans & -> & Hpl).
  { eapply Forall_impl; [|exact Hc]. cbv beta. intros d Hd. by apply LanePlan_new_ok. }
  rewrite bind_Ok. pose proof (Forall2_length Hpl) as Hpn.
  change ((fun d => md5 (zero_extend d pad_to)) <$> c) with ((md5 ∘ (fun d => zero_extend d pad_to)) <$> c).
  rewrite list_fmap_compose. apply md5_batch_ok; [|lia|unfold zlen in *; lia].
  apply Forall2_fmap_r, Forall2_flip. exact Hpl.
Qed.

Lemma md5_multi_is_md5_witness :
  md5_multi_into (E := unit) (X86_64 true) [[x61]; []; [x62; x63]; [x61]; [x61; x62; x63]] (Some 2) (replicate 5 [])
    = Ok ((fun d => md5 (zero_extend d (Some 2))) <$> [[x61]; []; [x62; x63]; [x61]; [x61; x62; x63]]).
Proof.
  apply (md5_multi_is_md5 (X86_64 true) [[x61]; []; [x62; x63]; [x61]; [x61; x62; x63]] (Some 2) (replicate 5 [])).
  - reflexivity.
  - repeat constructor.
Defined.
