(* ===== verification/Checksum.v ===== *)
(** The checksum states of [crates/par2-rs/src/checksum.rs]: CRC-32 and MD5 of
    a slice fed piece by piece, the MD5 of its whole file alongside, and the
    zero padding of a file's short last slice. CRC-32 comes from the
    [crc_turbo] crate and one of the two MD5 backends from [md-5]; both are
    parameters with the documented laws of a streaming digest. *)
From S2P Require Import Prelude.
From S2P Require Import Crc32.
From S2P Require Import Crc32Props.
From S2P Require Import Md5Spec.
From S2P Require Import Md5Stream.
From S2P Require Import Md5Stream.
From S2P Require Import Md5Simd.
From S2P Require Import Md5Multi.

(** * Digests of other crates *)

Class StreamDigest (D : Type) := {
  digest : Type;
  digest_new : digest;
  digest_update : digest -> list byte -> digest;
  digest_finalize : digest -> D;
}.
(** A digest computes [h] of everything it was given. *)
Class Digests {D} (S : StreamDigest D) (h : list byte -> D) : Prop :=
  digest_of pieces : digest_finalize (foldl digest_update digest_new pieces) = h (concat pieces).

(** [crc_turbo::Digest] and the [Md5] of the [md-5] crate, and the assembly. *)
Class Backends := {
  crc_turbo : StreamDigest Z;
  rust_crypto : StreamDigest (list byte);
  asm : Md5Asm;
}.
#[export] Existing Instance asm.
Class BackendLaws (B : Backends) : Prop := {
  crc_turbo_law : Digests crc_turbo crc32_iso_hdlc;
  rust_crypto_law : Digests rust_crypto md5;
  asm_law : Md5AsmLaws asm;
  asm_block q b : compress q b = md5_compress q b;
}.
#[export] Existing Instance asm_law.

(** * The states *)

Definition ZERO_PAD_CHUNK : list byte := zreplicate 8192 x00.

Section checksum.
Context {B : Backends} {E : Type}.
#[local] Abbreviation result := (outcome E).

Record Crc32Hasher := mk_crc { inner : digest (StreamDigest := crc_turbo) }.
Definition Crc32Hasher_new : Crc32Hasher := mk_crc digest_new.
Definition hasher_update (self : Crc32Hasher) (data : list byte) : Crc32Hasher :=
  mk_crc (digest_update (StreamDigest := crc_turbo) (inner self) data).
Definition hasher_finalize (self : Crc32Hasher) : Z := wrap32 (digest_finalize (StreamDigest := crc_turbo) (inner self)).

Inductive Par2Md5Backend := BackendRustCrypto | BackendNative.
Inductive Md5State :=
| RustCrypto (state : digest (StreamDigest := rust_crypto))
| Native (state : Md5).

Definition Md5State_new (backend : Par2Md5Backend) : Md5State :=
  match backend with BackendRustCrypto => RustCrypto digest_new | BackendNative => Native Md5_new end.
Definition md5_update (self : Md5State) (data : list byte) : result Md5State :=
  match self with
  | RustCrypto state => Ok (RustCrypto (digest_update (StreamDigest := rust_crypto) state data))
  | Native state => state ← update state data; Ok (Native state)
  end.
Definition md5_update_pair (self other : Md5State) (data : list byte) : result (Md5State * Md5State) :=
  match self, other with
  | Native lhs, Native rhs => s ← update_pair lhs rhs data; Ok (Native s.1, Native s.2)
  | _, _ => self ← md5_update self data; other ← md5_update other data; Ok (self, other)
  end.
Definition md5_finalize (self : Md5State) : result (list byte) :=
  match self with
  | RustCrypto state => Ok (digest_finalize (StreamDigest := rust_crypto) state)
  | Native state => finalize state
  end.
Definition md5_with_backend (backend : Par2Md5Backend) (data : list byte) : result (list byte) :=
  hasher ← md5_update (Md5State_new backend) data; md5_finalize hasher.

Record SliceChecksumState := mk_slice { crc32 : Crc32Hasher; md5_of : Md5State; bytes_fed : Z }.
Record FileHashState := mk_file { file_md5 : Md5State; file_bytes_fed : Z }.

Definition SliceChecksumState_new (backend : Par2Md5Backend) : SliceChecksumState :=
  mk_slice Crc32Hasher_new (Md5State_new backend) 0.
Definition FileHashState_new (backend : Par2Md5Backend) : FileHashState := mk_file (Md5State_new backend) 0.

Definition slice_update (self : SliceChecksumState) (data : list byte) : result SliceChecksumState :=
  let c := hasher_update (crc32 self) data in
  m ← md5_update (md5_of self) data;
  n ← add_u64 (bytes_fed self) (zlen data);
  Ok (mk_slice c m n).

Definition update_with_file_hash (self : SliceChecksumState) (file : FileHashState) (data : list byte)
    : result (SliceChecksumState * FileHashState) :=
  let c := hasher_update (crc32 self) data in
  s ← md5_update_pair (md5_of self) (file_md5 file) data;
  n ← add_u64 (bytes_fed self) (zlen data);
  n' ← add_u64 (file_bytes_fed file) (zlen data);
  Ok (mk_slice c s.1 n, mk_file s.2 n').

(** The loop that feeds zeros, [chunk] at a time, to the hashers [st]. *)
Fixpoint pad_loop {S} (fuel : nat) (feed : S -> list byte -> result S) (remaining : Z) (st : S) : result S :=
  if remaining <=? 0 then Ok st
  else match fuel with
  | O => Panic
  | Datatypes.S fuel =>
      let take := Z.min remaining (zlen ZERO_PAD_CHUNK) in
      d ← slice ZERO_PAD_CHUNK 0 take;
      st ← feed st d;
      pad_loop fuel feed (remaining - take) st
  end.
(** Enough iterations for [remaining] zeros. *)
Definition pad_fuel (remaining : Z) : nat := Z.to_nat (remaining / 8192 + 1).

Definition slice_finalize (self : SliceChecksumState) (pad_to : option Z) : result (Z * list byte) :=
  s ← (match pad_to with
    | Some target =>
        if bytes_fed self <? target then
          let remaining := target - bytes_fed self in
          pad_loop (pad_fuel remaining)
            (fun s d => m ← md5_update s.2 d; Ok (hasher_update s.1 d, m))
            remaining (crc32 self, md5_of self)
        else Ok (crc32 self, md5_of self)
    | None => Ok (crc32 self, md5_of self)
    end);
  m ← md5_finalize s.2;
  Ok (hasher_finalize s.1, m).

Definition file_update (self : FileHashState) (data : list byte) : result FileHashState :=
  m ← md5_update (file_md5 self) data;
  n ← add_u64 (file_bytes_fed self) (zlen data);
  Ok (mk_file m n).
Definition file_finalize (self : FileHashState) : result (list byte) := md5_finalize (file_md5 self).

Definition crc32_padded (data : list byte) (pad_to : Z) : result Z :=
  let hasher := hasher_update Crc32Hasher_new data in
  let remaining := sat_sub_u64 pad_to (zlen data) in
  hasher ← pad_loop (pad_fuel remaining) (fun h d => Ok (hasher_update h d)) remaining hasher;
  Ok (hasher_finalize hasher).
End checksum.

(** * What the states hold *)

Section props.
Context {B : Backends} {laws : BackendLaws B} {E : Type}.
Implicit Types (p d : list byte).

Definition crc_fed (h : Crc32Hasher) p : Prop :=
  exists pieces, concat pieces = p /\
    inner h = foldl (digest_update (StreamDigest := crc_turbo)) digest_new pieces.
Definition md5_fed (s : Md5State) p : Prop :=
  match s with
  | RustCrypto s => exists pieces, concat pieces = p /\
      s = foldl (digest_update (StreamDigest := rust_crypto)) digest_new pieces
  | Native s => fed s p
  end.

Lemma crc_fed_new : crc_fed Crc32Hasher_new [].
Proof. by exists []. Qed.
Lemma md5_fed_new backend : md5_fed (Md5State_new backend) [].
Proof. destruct backend; [by exists []|apply fed_new]. Qed.

Lemma hasher_update_fed h p d : crc_fed h p -> crc_fed (hasher_update h d) (p ++ d).
Proof.
  intros (ps & <- & Hs). exists (ps ++ [d]). rewrite concat_app, foldl_snoc, <- Hs. cbn [concat].
  by rewrite app_nil_r.
Qed.
Lemma md5_update_fed s p d : md5_fed s p ->
  spec (md5_update (E := E) s d) (fun s => md5_fed s (p ++ d)) (fun _ => False).
Proof.
  destruct s as [s|s]; cbn [md5_update md5_fed].
  - intros (ps & <- & ->). exists (ps ++ [d]). rewrite concat_app, foldl_snoc. cbn [concat]. by rewrite app_nil_r.
  - intros H. eapply spec_bind; [by apply (update_fed s p d)|]. by intros.
Qed.
Lemma md5_update_pair_fed s s' p p' d : md5_fed s p -> md5_fed s' p' ->
  spec (md5_update_pair (E := E) s s' d) (fun r => md5_fed r.1 (p ++ d) /\ md5_fed r.2 (p' ++ d)) (fun _ => False).
Proof.
  intros H H'.
  assert (spec (E := E) (s ← md5_update s d; s' ← md5_update s' d; Ok (s, s'))
    (fun r => md5_fed r.1 (p ++ d) /\ md5_fed r.2 (p' ++ d)) (fun _ => False)) as Hseq.
  { eapply spec_bind; [by apply md5_update_fed|]. intros a Ha.
    eapply spec_bind; [by apply md5_update_fed|]. by intros b Hb. }
  destruct s as [s|s], s' as [s'|s']; cbn [md5_update_pair]; try exact Hseq.
  eapply spec_bind; [apply (update_pair_fed s s' p p' d H H')|]. intros [a b] [Ha Hb]. by split.
Qed.

Lemma absorb_md5 q p : absorb compress q p = absorb md5_compress q p.
Proof.
  unfold absorb. generalize (whole_blocks p) as bs. intros bs. revert q.
  induction bs as [|b bs IH]; intros q; [done|]. cbn [foldl]. by rewrite asm_block, IH.
Qed.
Lemma md5_finalize_fed s p : md5_fed s p -> md5_finalize (E := E) s = Ok (md5 p).
Proof.
  destruct s as [s|s]; cbn [md5_finalize md5_fed].
  - intros (ps & <- & ->). f_equal. apply rust_crypto_law.
  - intros H. rewrite (finalize_fed _ _ H). unfold md5, md_digest. by rewrite absorb_md5.
Qed.
Lemma hasher_finalize_fed h p : crc_fed h p -> hasher_finalize h = crc32_iso_hdlc p.
Proof.
  intros (ps & <- & Hs). unfold hasher_finalize. rewrite Hs, crc_turbo_law.
  apply Z.mod_small. apply crc_range.
Qed.

(** The padding loop feeds exactly the zeros asked for. *)
Lemma pad_loop_fed {S} (R : S -> list byte -> Prop) feed fuel n st p :
  (forall st p d, R st p -> spec (feed st d) (fun st => R st (p ++ d)) (fun _ : E => False)) ->
  0 <= n <= 8192 * Z.of_nat fuel -> R st p ->
  spec (pad_loop fuel feed n st) (fun st => R st (p ++ zreplicate n x00)) (fun _ => False).
Proof.
  intros Hfeed. revert n st p.
  induction fuel as [|fuel IH]; intros n st p Hn HR; cbn [pad_loop]; destruct (Z.leb_spec n 0); try lia.
  1, 2: replace n with 0 by lia; change (zreplicate 0 x00) with (@nil byte); by rewrite app_nil_r.
  change (zlen ZERO_PAD_CHUNK) with 8192. unfold ZERO_PAD_CHUNK.
  rewrite slice_ok, bind_Ok, zdrop_0, Z.sub_0_r, ztake_replicate by (rewrite ?zlen_replicate by lia; lia).
  eapply spec_bind; [by apply Hfeed|]. intros st' HR'.
  cbv beta in HR'.
  eapply spec_post; [apply (fun H => IH (n - Z.min n 8192) _ _ H HR'); lia|]. cbv beta. intros st'' HR''.
  rewrite <- app_assoc, zreplicate_app in HR'' by lia. by replace (Z.min n 8192 + _) with n in HR'' by lia.
Qed.

Lemma pad_fuel_enough n : 0 <= n -> n <= 8192 * Z.of_nat (pad_fuel n).
Proof. intros. unfold pad_fuel. dlia. Qed.

Definition slice_fed (s : SliceChecksumState) p : Prop :=
  crc_fed (crc32 s) p /\ md5_fed (md5_of s) p /\ bytes_fed s = zlen p.
Definition file_fed (f : FileHashState) p : Prop := md5_fed (file_md5 f) p /\ file_bytes_fed f = zlen p.

Lemma add_u64_len a d : a + zlen d < 2 ^ 64 -> add_u64 (E := E) a (zlen d) = Ok (a + zlen d).
Proof. intros H. unfold add_u64. by rewrite (proj2 (Z.ltb_lt _ _)). Qed.

Lemma slice_update_fed s p d : slice_fed s p -> zlen (p ++ d) < 2 ^ 64 ->
  spec (slice_update (E := E) s d) (fun s => slice_fed s (p ++ d)) (fun _ => False).
Proof.
  intros (Hc & Hm & Hn) Hlen. unfold slice_update. rewrite zlen_app in Hlen.
  eapply spec_bind; [by apply md5_update_fed|]. intros m Hm'. rewrite Hn, add_u64_len, bind_Ok by lia.
  split; [by apply hasher_update_fed|]. split; [done|]. cbn [bytes_fed]. by rewrite zlen_app.
Qed.
Lemma file_update_fed f p d : file_fed f p -> zlen (p ++ d) < 2 ^ 64 ->
  spec (file_update (E := E) f d) (fun f => file_fed f (p ++ d)) (fun _ => False).
Proof.
  intros (Hm & Hn) Hlen. unfold file_update. rewrite zlen_app in Hlen.
  eapply spec_bind; [by apply md5_update_fed|]. intros m Hm'. rewrite Hn, add_u64_len, bind_Ok by lia.
  split; [done|]. cbn [file_bytes_fed]. by rewrite zlen_app.
Qed.
Lemma both_update_fed s f p q d : slice_fed s p -> file_fed f q ->
  zlen (p ++ d) < 2 ^ 64 -> zlen (q ++ d) < 2 ^ 64 ->
  spec (update_with_file_hash (E := E) s f d) (fun r => slice_fed r.1 (p ++ d) /\ file_fed r.2 (q ++ d)) (fun _ => False).
Proof.
  intros (Hc & Hm & Hn) (Hm' & Hn') Hlen Hlen'. unfold update_with_file_hash. rewrite zlen_app in Hlen, Hlen'.
  eapply spec_bind; [by apply (md5_update_pair_fed _ _ p q d)|]. intros [m m'] [H1 H2].
  rewrite Hn, Hn', !add_u64_len, !bind_Ok by lia. cbn [fst snd] in *.
  split; (split; [|split]) || split; try done; cbn [crc32 md5_of bytes_fed file_md5 file_bytes_fed].
  - by apply hasher_update_fed.
  - by rewrite zlen_app.
  - by rewrite zlen_app.
Qed.

Lemma slice_finalize_fed s p pad_to : slice_fed s p ->
  slice_finalize (E := E) s pad_to = Ok (crc32_iso_hdlc (zero_extend p pad_to), md5 (zero_extend p pad_to)).
Proof.
  intros (Hc & Hm & Hn). unfold slice_finalize, zero_extend. rewrite Hn.
  set (n := effective_len (zlen p) pad_to - zlen p).
  set (pad := match pad_to with Some _ => _ | None => _ end).
  assert (spec pad (fun r => crc_fed r.1 (p ++ zreplicate n x00) /\ md5_fed r.2 (p ++ zreplicate n x00)) (fun _ => False)) as Hpad.
  { subst pad n. unfold effective_len.
    assert (spec (E := E) (Ok (crc32 s, md5_of s)) (fun r => crc_fed r.1 (p ++ zreplicate (zlen p - zlen p) x00) /\
      md5_fed r.2 (p ++ zreplicate (zlen p - zlen p) x00)) (fun _ => False)) as Hnone.
    { rewrite Z.sub_diag. change (zreplicate 0 x00) with (@nil byte). rewrite app_nil_r. by split. }
    destruct pad_to as [target|]; [|done]. destruct (Z.ltb_spec (zlen p) target); [|done].
    apply (pad_loop_fed (fun r p => crc_fed r.1 p /\ md5_fed r.2 p)); [| |done].
    - intros st q d [H1 H2]. eapply spec_bind; [by apply md5_update_fed|]. intros m H3.
      split; [by apply hasher_update_fed|done].
    - split; [lia|apply pad_fuel_enough; lia]. }
  destruct pad as [r| |]; [|done|done]. destruct Hpad as [H1 H2].
  by rewrite bind_Ok, (md5_finalize_fed _ _ H2), bind_Ok, (hasher_finalize_fed _ _ H1).
Qed.

Lemma crc32_padded_ok d n : crc32_padded (E := E) d n = Ok (crc32_iso_hdlc (zero_extend d (Some n))).
Proof.
  unfold crc32_padded, zero_extend. pose proof (zlen_nonneg d).
  assert (effective_len (zlen d) (Some n) - zlen d = sat_sub_u64 n (zlen d)) as ->
    by (unfold effective_len, sat_sub_u64; destruct (Z.ltb_spec (zlen d) n); lia).
  assert (0 <= sat_sub_u64 n (zlen d)) by (unfold sat_sub_u64; lia).
  pose proof (pad_loop_fed crc_fed (fun h d => Ok (E := E) (hasher_update h d)) (pad_fuel (sat_sub_u64 n (zlen d)))
    (sat_sub_u64 n (zlen d)) (hasher_update Crc32Hasher_new d) d
    (fun st p d H => hasher_update_fed _ _ _ H) (conj H0 (pad_fuel_enough _ H0))
    (hasher_update_fed _ _ _ crc_fed_new)) as Hp.
  destruct (pad_loop _ _ _ _) as [h| |]; [|done|done]. by rewrite bind_Ok, (hasher_finalize_fed _ _ Hp).
Qed.
End props.

(** * Correctness *)

(** What a reader of a file does with one slice's state and the file's. *)
Inductive call := SliceUpdate (d : list byte) | FileUpdate (d : list byte) | UpdateBoth (d : list byte).
Definition to_slice (c : call) : list byte := match c with SliceUpdate d | UpdateBoth d => d | FileUpdate _ => [] end.
Definition to_file (c : call) : list byte := match c with FileUpdate d | UpdateBoth d => d | SliceUpdate _ => [] end.

Fixpoint run_calls {B : Backends} {E} (s : SliceChecksumState) (f : FileHashState) (cs : list call)
    : outcome E (SliceChecksumState * FileHashState) :=
  match cs with
  | [] => Ok (s, f)
  | SliceUpdate d :: cs => s ← slice_update s d; run_calls s f cs
  | FileUpdate d :: cs => f ← file_update f d; run_calls s f cs
  | UpdateBoth d :: cs => r ← update_with_file_hash s f d; run_calls r.1 r.2 cs
  end.

Lemma run_calls_fed {B : Backends} {laws : BackendLaws B} {E} cs s f p q :
  slice_fed s p -> file_fed f q ->
  zlen (p ++ concat (to_slice <$> cs)) < 2 ^ 64 -> zlen (q ++ concat (to_file <$> cs)) < 2 ^ 64 ->
  spec (run_calls (E := E) s f cs)
    (fun r => slice_fed r.1 (p ++ concat (to_slice <$> cs)) /\ file_fed r.2 (q ++ concat (to_file <$> cs))) (fun _ => False).
Proof.
  revert s f p q. induction cs as [|c cs IH]; intros s f p q Hs Hf Hp Hq.
  { cbn [run_calls fmap list_fmap concat]. rewrite !app_nil_r. by split. }
  cbn [fmap list_fmap concat] in *. rewrite !app_assoc in *.
  pose proof (zlen_nonneg (concat (to_slice <$> cs))). pose proof (zlen_nonneg (concat (to_file <$> cs))).
  rewrite (zlen_app (p ++ _)) in Hp. rewrite (zlen_app (q ++ _)) in Hq.
  destruct c as [d|d|d]; cbn [run_calls to_slice to_file] in *; rewrite ?app_nil_r in *.
  - eapply spec_bind; [apply (slice_update_fed _ _ _ Hs); lia|]. intros s' Hs'.
    apply IH; [done|done|rewrite zlen_app; lia|rewrite zlen_app; lia].
  - eapply spec_bind; [apply (file_update_fed _ _ _ Hf); lia|]. intros f' Hf'.
    apply IH; [done|done|rewrite zlen_app; lia|rewrite zlen_app; lia].
  - eapply spec_bind; [apply (both_update_fed _ _ _ _ _ Hs Hf); lia|]. intros [s' f'] [Hs' Hf'].
    apply IH; [done|done|rewrite zlen_app; lia|rewrite zlen_app; lia].
Qed.

(** Slice checksums: a slice's state and its file's, fed by any sequence
    of single and joint updates over either MD5 backend each, finalize to
    CRC-32 and MD5 of the slice's bytes zero-extended to [pad_to] and to MD5
    of the file's bytes; [crc32_padded] is the same CRC; none of the loops
    runs out and nothing panics while the byte counts fit 64 bits. *)
Theorem slice_checksums {B : Backends} {laws : BackendLaws B} {E} (slice_md5 file_md5 : Par2Md5Backend)
    (cs : list call) (pad_to : option Z) :
  let data := concat (to_slice <$> cs) in
  let whole := concat (to_file <$> cs) in
  zlen data < 2 ^ 64 -> zlen whole < 2 ^ 64 ->
  (r ← run_calls (SliceChecksumState_new slice_md5) (FileHashState_new file_md5) cs;
   slice ← slice_finalize r.1 pad_to; file ← file_finalize r.2;
   padded ← (match pad_to with Some n => crc32_padded data n | None => Ok slice.1 end);
   Ok (bytes_fed r.1, slice, file, padded))
  = Ok (E := E) (zlen data, (crc32_iso_hdlc (zero_extend data pad_to), md5 (zero_extend data pad_to)), md5 whole,
      crc32_iso_hdlc (zero_extend data pad_to)).
Proof.
  intros data whole Hd Hw.
  pose proof (run_calls_fed (E := E) cs (SliceChecksumState_new slice_md5) (FileHashState_new file_md5) [] []
    (conj crc_fed_new (conj (md5_fed_new _) eq_refl)) (conj (md5_fed_new _) eq_refl) Hd Hw) as H.
  destruct (run_calls _ _ cs) as [[s f]| |]; [|done|done]. destruct H as [Hs Hf]. cbn [app fst snd] in *.
  rewrite bind_Ok. cbn [fst snd]. rewrite (slice_finalize_fed _ _ _ Hs), bind_Ok.
  unfold file_finalize. rewrite (md5_finalize_fed _ _ (proj1 Hf)), bind_Ok, (proj2 (proj2 Hs)). fold data whole.
  destruct pad_to as [n|]; [|by rewrite bind_Ok]. by rewrite crc32_padded_ok.
Qed.

(** Backends by definition: the CRC register, and the bytes so far. *)
#[export] Instance reference_backends : Backends := {|
  crc_turbo := {| digest := Z; digest_new := 0xFFFFFFFF; digest_update := Crc32.crc_update;
                  digest_finalize r := Z.lxor r 0xFFFFFFFF |};
  rust_crypto := {| digest := list byte; digest_new := []; digest_update := app; digest_finalize := md5 |};
  asm := textbook;
|}.
#[export] Instance reference_laws : BackendLaws reference_backends.
Proof.
  split; [| |apply textbook_laws|done].
  - intros pieces. cbn. unfold crc32_iso_hdlc. f_equal. generalize 0xFFFFFFFF as r.
    induction pieces as [|d pieces IH]; intros r; [done|]. cbn [foldl concat].
    rewrite IH. unfold Crc32.crc_update. by rewrite foldl_app.
  - intros pieces. change (md5 (foldl app [] pieces) = md5 (concat pieces)). f_equal.
    assert (forall acc, foldl app acc pieces = acc ++ concat pieces) as H.
    { induction pieces as [|d pieces IH]; intros acc; cbn [foldl concat]; [by rewrite app_nil_r|].
      by rewrite IH, app_assoc. }
    apply H.
Qed.

Lemma slice_checksums_witness :
  (r ← run_calls (SliceChecksumState_new BackendNative) (FileHashState_new BackendNative)
     [UpdateBoth [x61; x62]; SliceUpdate [x63]; FileUpdate [x64]];
   slice ← slice_finalize r.1 (Some 5); file ← file_finalize r.2; padded ← crc32_padded [x61; x62; x63] 5;
   Ok (bytes_fed r.1, slice, file, padded))
  = Ok (E := unit) (3, (crc32_iso_hdlc [x61; x62; x63; x00; x00], md5 [x61; x62; x63; x00; x00]), md5 [x61; x62; x64],
      crc32_iso_hdlc [x61; x62; x63; x00; x00]).
Proof.
  exact (slice_checksums (E := unit) BackendNative BackendNative
    [UpdateBoth [x61; x62]; SliceUpdate [x63]; FileUpdate [x64]] (Some 5) eq_refl eq_refl).
Defined.
