(* ===== verification/Par2Types.v ===== *)
(** Data types of the PAR2 reader ([crates/par2-rs/src/types.rs] and
    [error.rs]). Identifiers and hashes are 16-byte strings; the text of an
    error's reason is not modelled, its constructor and numbers are. *)
From S2P Require Import Prelude.
From S2P Require Import RarTypes.

Inductive par2_error :=
| InvalidMagic (offset : Z)
| PacketTooShort (expected actual : Z)
| InvalidPacketLength (length : Z)
| PacketHashMismatch (offset : Z)
| InvalidMainPacket
| InvalidFileDescPacket
| InvalidIfscPacket
| InvalidRecoveryPacket
| InvalidCreatorPacket
| ConflictingRecoverySet
| NoMainPacket
| InsufficientCriticalData
| ResourceLimitExceeded
| FileNotFound
| FileDamaged
| InsufficientRecoveryData (needed available deficit : Z)
| ReedSolomonError
| RepairWriteFailed
| Cancelled
| Par2Io (kind : io_error_kind)
| CreationError.

#[global] Abbreviation par2_result := (outcome par2_error).

Definition MAX_FILES_PER_SET : Z := 32768.
Definition MAX_TOTAL_INPUT_SLICES : Z := 32768.

(** [FileId] and [RecoverySetId]: the raw 16 bytes. *)
#[global] Abbreviation FileId := (list byte).
Definition RecoverySetId : Type := list byte.

Record SliceChecksum := mk_checksum { sc_crc32 : Z; sc_md5 : list byte }.
