(* ===== verification/Par2Path.v ===== *)
(** PAR2 filename translation, [crates/par2-rs/src/path.rs]: names out of
    untrusted packets become paths that stay under the directory they are
    joined to. A string is the list of its scalars; a path is its string, and
    [components] and [join] are those of [std::path] on Unix. *)
From Stdlib Require Import Strings.String.
From S2P Require Import Prelude.
From S2P Require Import RarTypes.
From S2P Require Import Utf8.
From S2P Require Import Par2Types.

(** * Definitions *)

Definition SLASH : Z := 47.
Definition BACKSLASH : Z := 92.
Definition DOT : Z := 46.
Definition PERCENT : Z := 37.

Definition HEX : list Z := [48; 49; 50; 51; 52; 53; 54; 55; 56; 57; 65; 66; 67; 68; 69; 70].
Definition encode_byte (b : byte) (out : ustring) : ustring :=
  out ++ [PERCENT; nth (Z.to_nat (Z.shiftr (u8 b) 4)) HEX 0; nth (Z.to_nat (Z.land (u8 b) 0x0F)) HEX 0].
Definition encode_char (ch : Z) (out : ustring) : ustring :=
  foldl (fun out b => encode_byte b out) out (append_lenient_utf8 ch).

(** [char::is_control]: the Unicode category Cc. *)
Definition is_control (ch : Z) : bool :=
  ((0 <=? ch) && (ch <=? 0x1f)) || ((0x7f <=? ch) && (ch <=? 0x9f)).
(** Windows also forbids double quote, star, colon, angle brackets, question
    mark and bar. *)
Definition is_illegal_local_char (windows : bool) (ch : Z) : bool :=
  is_control ch || (windows && existsb (Z.eqb ch) [34; 42; 58; 60; 62; 63; 124; 0]).

Definition encode_component (windows : bool) (component : ustring) : ustring :=
  foldl (fun encoded ch => if is_illegal_local_char windows ch then encode_char ch encoded else encoded ++ [ch])
    [] component.

(** [str::split] at a character, and [join]. *)
Fixpoint split (c : Z) (s : ustring) : list ustring :=
  match s with
  | [] => [[]]
  | x :: s =>
      if x =? c then [] :: split c s
      else match split c s with part :: parts => (x :: part) :: parts | [] => [[x]] end
  end.
Fixpoint join (c : Z) (parts : list ustring) : ustring :=
  match parts with
  | [] => []
  | [part] => part
  | part :: parts => part ++ c :: join c parts
  end.
Definition starts_with (p : Z) (s : ustring) : bool := match s with x :: _ => x =? p | [] => false end.
Definition is_nil {A} (l : list A) : bool := match l with [] => true | _ => false end.

(** The loop over the parts: what is pushed and whether a name was seen. *)
Definition push_part (windows : bool) (normalized : ustring) (s : list ustring * bool) (indexed : nat * ustring)
    : list ustring * bool :=
  let '(parts, saw_name_component) := s in
  let '(index, part) := indexed in
  if is_nil part then
    if (index =? 0)%nat && starts_with SLASH normalized
    then (parts ++ [[PERCENT; 50; 70]], true)
    else (parts, saw_name_component)
  else
    let encoded := if bool_decide (part = [DOT; DOT]) then [PERCENT; 50; 69; PERCENT; 50; 69]
                   else encode_component windows part in
    (if is_nil encoded then parts else parts ++ [encoded], true).

Definition translate_par2_name_to_relative (windows : bool) (par2_name : ustring) : par2_result ustring :=
  let normalized := (fun ch => if ch =? BACKSLASH then SLASH else ch) <$> par2_name in
  let pieces := split SLASH normalized in
  let '(parts, saw_name_component) :=
    foldl (push_part windows normalized) ([], false) (zip (seq 0 (length pieces)) pieces) in
  if negb saw_name_component then Err InvalidFileDescPacket
  else Ok (join SLASH parts).

(** ** Paths *)

Inductive component := RootDir | CurDir | ParentDir | Normal (name : ustring).

(** The component of a part that is not the first of a relative path. *)
Definition later_component (part : ustring) : list component :=
  if is_nil part || bool_decide (part = [DOT]) then []
  else if bool_decide (part = [DOT; DOT]) then [ParentDir] else [Normal part].
Definition components (path : ustring) : list component :=
  if starts_with SLASH path then RootDir :: concat (later_component <$> split SLASH path)
  else match split SLASH path with
  | first :: rest =>
      (if bool_decide (first = [DOT]) then [CurDir] else later_component first)
        ++ concat (later_component <$> rest)
  | [] => []
  end.

(** [Path::join]. *)
Definition path_join (base path : ustring) : ustring :=
  if starts_with SLASH path then path
  else match base with
  | [] => path
  | _ => if starts_with SLASH (rev base) then base ++ path else base ++ SLASH :: path
  end.

Definition is_rooted (c : component) : bool := match c with ParentDir | RootDir => true | _ => false end.

Definition translate_par2_name_to_local_path (par2_name base_dir : ustring) : par2_result ustring :=
  relative ← translate_par2_name_to_relative false par2_name;
  if existsb is_rooted (components relative) then Err InvalidFileDescPacket
  else Ok (path_join base_dir relative).

Fixpoint is_prefix (p s : ustring) : bool :=
  match p, s with
  | [], _ => true
  | x :: p, y :: s => (x =? y) && is_prefix p s
  | _, [] => false
  end.
Fixpoint contains (p s : ustring) : bool :=
  is_prefix p s || match s with [] => false | _ :: s => contains p s end.

(** The text of an ASCII literal. *)
Definition text (s : String.string) : ustring := u8 <$> String.list_byte_of_string s.

Definition is_generated_par2_artifact_name (name : ustring) : bool :=
  is_prefix (text ".swap.") name || is_prefix (text ".chunk.") name
  || is_prefix (text ".weaver-par2-repair") name || contains (text ".weaver-par2-backup.") name.

Example absolute_and_parent :
  translate_par2_name_to_relative false (text "/tmp/../episode.rar") = Ok (text "%2F/tmp/%2E%2E/episode.rar").
Proof. reflexivity. Qed.
Example windows_punctuation :
  translate_par2_name_to_relative true (text "bad:name*.rar") = Ok (text "bad%3Aname%2A.rar").
Proof. reflexivity. Qed.

(** * Splitting and joining *)

Lemma split_not_nil c s : split c s <> [].
Proof. destruct s as [|x s]; [done|]. cbn [split]. destruct (x =? c); [done|]. by destruct (split c s). Qed.

Lemma split_app c a b : split c (a ++ c :: b) = split c a ++ split c b.
Proof.
  induction a as [|x a IH]; cbn [app split]; [by rewrite Z.eqb_refl|].
  destruct (x =? c); [by rewrite IH|]. rewrite IH.
  pose proof (split_not_nil c a). by destruct (split c a).
Qed.
Lemma split_no_sep c s : ~ In c s -> split c s = [s].
Proof.
  induction s as [|x s IH]; intros H; [done|]. cbn [split]. simpl in H.
  rewrite (proj2 (Z.eqb_neq x c)) by intuition. by rewrite IH by intuition.
Qed.
Lemma split_join c parts : parts <> [] -> Forall (fun p => ~ In c p) parts -> split c (join c parts) = parts.
Proof.
  intros Hne H. induction H as [|p parts Hp Hps IH]; [done|]. cbn [join].
  destruct parts as [|p' parts]; [by apply split_no_sep|].
  rewrite split_app, split_no_sep by done. cbn [app]. by rewrite IH.
Qed.
Lemma join_split c s : join c (split c s) = s.
Proof.
  induction s as [|x s IH]; [done|]. cbn [split]. pose proof (split_not_nil c s) as Hne.
  destruct (Z.eqb_spec x c) as [->|].
  - cbn [join]. rewrite IH. by destruct (split c s).
  - destruct (split c s) as [|p ps]; [done|]. cbn [join] in *. destruct ps; by rewrite <- IH.
Qed.
Lemma split_parts_no_sep c s : Forall (fun p => ~ In c p) (split c s).
Proof.
  induction s as [|x s IH]; [by repeat constructor; intros []|]. cbn [split].
  destruct (Z.eqb_spec x c); [constructor; [by intros []|done]|].
  destruct (split c s) as [|p ps]; [constructor; [|done]; intros [?|[]]; done|].
  inversion IH; subst. constructor; [|done]. intros [?|?]; [done|intuition].
Qed.
Lemma split_chars c (P : Z -> Prop) s : Forall P s -> Forall (Forall P) (split c s).
Proof.
  induction 1 as [|x s Hx _ IH]; [by repeat constructor|]. cbn [split].
  destruct (x =? c); [by constructor|]. destruct (split c s); [by repeat constructor|].
  inversion IH; subst. by repeat constructor.
Qed.

(** * Encoding *)

(** A character a translated component may hold. *)
Definition clean (windows : bool) (c : Z) : Prop :=
  is_illegal_local_char windows c = false /\ c <> SLASH /\ c <> BACKSLASH.

Definition hex3 (b : byte) : ustring :=
  [PERCENT; nth (Z.to_nat (Z.shiftr (u8 b) 4)) HEX 0; nth (Z.to_nat (Z.land (u8 b) 0x0F)) HEX 0].
Definition enc_char (ch : Z) : ustring := concat (hex3 <$> append_lenient_utf8 ch).
Definition enc (windows : bool) (ch : Z) : ustring :=
  if is_illegal_local_char windows ch then enc_char ch else [ch].

Lemma encode_char_app ch out : encode_char ch out = out ++ enc_char ch.
Proof.
  unfold encode_char, enc_char. generalize (append_lenient_utf8 ch) as bs. intros bs. revert out.
  induction bs as [|b bs IH]; intros out; cbn [foldl fmap list_fmap concat]; [by rewrite app_nil_r|].
  rewrite IH. unfold encode_byte. fold (hex3 b). by rewrite app_assoc.
Qed.
Lemma encode_component_concat windows s : encode_component windows s = concat (enc windows <$> s).
Proof.
  unfold encode_component. assert (forall out, foldl (fun encoded ch =>
    if is_illegal_local_char windows ch then encode_char ch encoded else encoded ++ [ch]) out s
    = out ++ concat (enc windows <$> s)) as H; [|apply H].
  induction s as [|c s IH]; intros out; cbn [foldl fmap list_fmap concat]; [by rewrite app_nil_r|].
  rewrite IH. unfold enc. destruct (is_illegal_local_char windows c); [rewrite encode_char_app|]; by rewrite app_assoc.
Qed.

Lemma HEX_clean windows i : (i < 16)%nat -> clean windows (nth i HEX 0) /\ nth i HEX 0 <> DOT.
Proof.
  intros Hi. do 16 (destruct i as [|i]; [destruct windows; vm_compute; repeat split; discriminate|]). lia.
Qed.
Lemma percent_clean windows : clean windows PERCENT /\ PERCENT <> DOT.
Proof. destruct windows; vm_compute; repeat split; discriminate. Qed.

Lemma hex3_clean windows b : Forall (fun c => clean windows c /\ c <> DOT) (hex3 b).
Proof.
  pose proof (u8_range b). constructor; [apply percent_clean|].
  constructor; [apply HEX_clean|constructor; [apply HEX_clean|constructor]].
  - rewrite Z.shiftr_div_pow2 by lia. dlia.
  - change 0x0F with (Z.ones 4). rewrite Z.land_ones by lia. dlia.
Qed.
Lemma enc_char_clean windows ch : Forall (fun c => clean windows c /\ c <> DOT) (enc_char ch).
Proof.
  unfold enc_char. induction (append_lenient_utf8 ch) as [|b bs IH]; [constructor|].
  cbn [fmap list_fmap concat]. apply Forall_app. split; [apply hex3_clean|done].
Qed.
Lemma enc_char_not_nil windows ch : is_illegal_local_char windows ch = true -> enc_char ch <> [].
Proof.
  intros H. assert (ch <= 0x7f \/ ch <= 0x7ff) as Hle.
  { unfold is_illegal_local_char, is_control in H. rewrite orb_true_iff, orb_true_iff, !andb_true_iff in H.
    rewrite !Z.leb_le in H. destruct H as [H|[_ H]]; [lia|].
    apply existsb_exists in H as (x & Hx & ->%Z.eqb_eq). simpl in Hx. lia. }
  unfold enc_char, append_lenient_utf8.
  destruct (Z.leb_spec ch 0x7f); [done|]. destruct (Z.leb_spec ch 0x7ff); [done|lia].
Qed.

(** A part of a translated name. *)
Definition good_part (windows : bool) (p : ustring) : Prop :=
  p <> [] /\ p <> [DOT; DOT] /\ Forall (clean windows) p.

Definition encode_part (windows : bool) (part : ustring) : ustring :=
  if bool_decide (part = [DOT; DOT]) then [PERCENT; 50; 69; PERCENT; 50; 69] else encode_component windows part.

Lemma encode_clean windows p : Forall (clean windows) p -> encode_component windows p = p.
Proof.
  intros H. rewrite encode_component_concat. induction H as [|c p (Hc & _ & _) _ IH]; [done|].
  cbn [fmap list_fmap concat]. unfold enc at 1. by rewrite Hc, IH.
Qed.

Lemma encode_component_good windows p :
  p <> [] -> p <> [DOT; DOT] -> ~ In SLASH p -> ~ In BACKSLASH p -> good_part windows (encode_component windows p).
Proof.
  intros Hne Hdd Hs Hb. rewrite encode_component_concat.
  assert (Forall (clean windows) (concat (enc windows <$> p))) as Hclean.
  { clear Hne Hdd. induction p as [|c p IH]; [constructor|]. cbn [fmap list_fmap concat].
    apply Forall_app. split; [|apply IH; simpl in *; intuition]. unfold enc.
    destruct (is_illegal_local_char windows c) eqn:Hi.
    - eapply Forall_impl; [|apply enc_char_clean]. by intros a [Ha _].
    - constructor; [|done]. split; [done|]. split; intros ->; simpl in *; intuition. }
  split; [|split; [|done]].
  - destruct p as [|c p]; [done|]. cbn [fmap list_fmap concat]. unfold enc at 1.
    destruct (is_illegal_local_char windows c) eqn:Hi; [|done].
    pose proof (enc_char_not_nil windows c Hi). by destruct (enc_char c).
  - intros Heq. destruct (decide (Forall (fun c => is_illegal_local_char windows c = false) p)) as [Hall|Hex].
    + apply Hdd. rewrite <- Heq. clear -Hall. induction Hall as [|c p Hc _ IH]; [done|].
      cbn [fmap list_fmap concat]. unfold enc at 1. rewrite Hc. cbn [app]. by rewrite <- IH.
    + apply not_Forall_Exists in Hex; [|intros; apply _]. apply Stdlib.Lists.List.Exists_exists in Hex as (c & Hc & Hi).
      apply not_false_is_true in Hi.
      assert (Forall (fun c => c = DOT) (concat (enc windows <$> p))) as Hdots by (rewrite Heq; by repeat constructor).
      assert (Forall (fun x => x = DOT) (enc windows c)) as Hc'.
      { apply (proj1 (Stdlib.Lists.List.Forall_concat _ _)) in Hdots.
        rewrite Stdlib.Lists.List.Forall_forall in Hdots. apply Hdots. by apply in_map. }
      unfold enc in Hc'. rewrite Hi in Hc'. pose proof (enc_char_not_nil windows c Hi).
      pose proof (enc_char_clean windows c) as He. destruct (enc_char c); [done|].
      inversion Hc'; inversion He; subst. intuition.
Qed.

Lemma encode_part_good windows p : p <> [] -> ~ In SLASH p -> ~ In BACKSLASH p -> good_part windows (encode_part windows p).
Proof.
  intros Hne Hs Hb. unfold encode_part. case_bool_decide.
  - split; [done|]. split; [done|]. repeat constructor; destruct windows; done.
  - by apply encode_component_good.
Qed.
Lemma encode_part_id windows p : good_part windows p -> encode_part windows p = p.
Proof. intros (Hne & Hdd & Hc). unfold encode_part. rewrite bool_decide_false by done. by apply encode_clean. Qed.

(** * Translation *)

(** A name that translation leaves alone. *)
Definition safe_name (windows : bool) (r : ustring) : Prop :=
  r <> [] /\ ~ In BACKSLASH r /\ Forall (good_part windows) (split SLASH r).

Lemma push_rest windows n ps i parts saw : (0 < i)%nat -> Forall (fun p => ~ In SLASH p /\ ~ In BACKSLASH p) ps ->
  foldl (push_part windows n) (parts, saw) (zip (seq i (length ps)) ps) =
    (parts ++ (encode_part windows <$> filter (fun p => p <> []) ps),
     saw || existsb (fun p => negb (is_nil p)) ps).
Proof.
  intros Hi H. revert i parts saw Hi. induction H as [|p ps [Hs Hb] _ IH]; intros i parts saw Hi.
  { cbn. by rewrite app_nil_r, orb_false_r. }
  cbn [length seq zip zip_with foldl existsb]. unfold push_part at 2.
  destruct p as [|c p]; cbn [is_nil negb].
  - rewrite (proj2 (Nat.eqb_neq i 0)) by lia. cbn [andb]. rewrite IH by lia.
    by rewrite filter_cons_False by auto.
  - fold (encode_part windows (c :: p)).
    destruct (encode_part_good windows (c :: p)) as (Hne & _); [done..|].
    assert (is_nil (encode_part windows (c :: p)) = false) as -> by (by destruct (encode_part windows (c :: p))).
    rewrite IH by lia. rewrite filter_cons_True by done. cbn [fmap list_fmap].
    by rewrite <- app_assoc, orb_true_r.
Qed.

Definition normalize (name : ustring) : ustring := (fun ch => if ch =? BACKSLASH then SLASH else ch) <$> name.

(** The parts of the translated name. *)
Definition translated_parts (windows : bool) (name : ustring) : list ustring :=
  (if starts_with SLASH (normalize name) then [[PERCENT; 50; 70]] else [])
    ++ (encode_part windows <$> filter (fun p => p <> []) (split SLASH (normalize name))).

Lemma normalize_no_backslash name : ~ In BACKSLASH (normalize name).
Proof.
  intros H. apply in_map_iff in H as (c & Hc & _). destruct (Z.eqb_spec c BACKSLASH); done.
Qed.
Lemma split_normal name : Forall (fun p => ~ In SLASH p /\ ~ In BACKSLASH p) (split SLASH (normalize name)).
Proof.
  pose proof (split_parts_no_sep SLASH (normalize name)) as H1.
  assert (Forall (fun c => c <> BACKSLASH) (normalize name)) as H2.
  { apply Stdlib.Lists.List.Forall_forall. intros c Hc ->. by apply (normalize_no_backslash name). }
  apply (split_chars SLASH) in H2. apply Stdlib.Lists.List.Forall_and; [exact H1|].
  eapply Forall_impl; [|exact H2]. cbv beta. intros p Hp Hin.
  rewrite Stdlib.Lists.List.Forall_forall in Hp. by apply (Hp _ Hin).
Qed.

(** The loop over all the parts of a name that is not empty. *)
Lemma push_all windows c n : Forall (fun p => ~ In SLASH p /\ ~ In BACKSLASH p) (split SLASH (c :: n)) ->
  foldl (push_part windows (c :: n)) ([], false) (zip (seq 0 (length (split SLASH (c :: n)))) (split SLASH (c :: n))) =
    ((if c =? SLASH then [[PERCENT; 50; 70]] else [])
       ++ (encode_part windows <$> filter (fun p => p <> []) (split SLASH (c :: n))), true).
Proof.
  cbn [split]. destruct (Z.eqb_spec c SLASH) as [->|Hc].
  - intros H. inversion H as [|p ps _ Hps]; subst. cbn [length seq zip zip_with foldl push_part is_nil].
    cbn [Nat.eqb andb starts_with]. rewrite Z.eqb_refl. rewrite push_rest by (lia || done).
    by rewrite filter_cons_False by auto.
  - pose proof (split_not_nil SLASH n). destruct (split SLASH n) as [|p ps]; [done|].
    intros H'. inversion H' as [|? ? [Hs Hb] Hps]; subst.
    cbn [length seq zip zip_with foldl]. unfold push_part at 2. cbn [is_nil]. fold (encode_part windows (c :: p)).
    destruct (encode_part_good windows (c :: p)) as (Hne & _); [done..|].
    assert (is_nil (encode_part windows (c :: p)) = false) as -> by (by destruct (encode_part windows (c :: p))).
    rewrite push_rest by (lia || done). by rewrite filter_cons_True by done.
Qed.

Lemma translate_eq windows name : translate_par2_name_to_relative windows name =
  if is_nil name then Err InvalidFileDescPacket else Ok (join SLASH (translated_parts windows name)).
Proof.
  unfold translate_par2_name_to_relative, translated_parts. fold (normalize name).
  pose proof (split_normal name) as Hsp.
  destruct name as [|a name]; [done|]. cbn [is_nil].
  change (normalize (a :: name)) with ((if a =? BACKSLASH then SLASH else a) :: normalize name) in *.
  rewrite (push_all windows _ _ Hsp). done.
Qed.

Lemma translated_parts_good windows name : name <> [] ->
  translated_parts windows name <> [] /\ Forall (good_part windows) (translated_parts windows name).
Proof.
  intros Hne. unfold translated_parts. pose proof (split_normal name) as Hsp. split.
  - destruct name as [|a name]; [done|].
    change (normalize (a :: name)) with ((if a =? BACKSLASH then SLASH else a) :: normalize name) in *.
    cbn [starts_with split]. destruct (Z.eqb_spec (if a =? BACKSLASH then SLASH else a) SLASH); [done|].
    pose proof (split_not_nil SLASH (normalize name)). destruct (split SLASH (normalize name)); [done|].
    by rewrite filter_cons_True by done.
  - apply Forall_app. split.
    + destruct (starts_with SLASH (normalize name)); [|constructor]. constructor; [|constructor].
      split; [done|]. split; [done|]. repeat constructor; destruct windows; done.
    + apply Forall_fmap. induction Hsp as [|p ps [Hs Hb] _ IH]; [constructor|].
      destruct (decide (p = [])); [rewrite filter_cons_False by auto; done|].
      rewrite filter_cons_True by done. constructor; [by apply encode_part_good|done].
Qed.

Lemma good_no_slash windows p : good_part windows p -> ~ In SLASH p /\ ~ In BACKSLASH p.
Proof.
  intros (_ & _ & H). rewrite Stdlib.Lists.List.Forall_forall in H.
  split; intros Hin; apply H in Hin; destruct Hin as (_ & ? & ?); done.
Qed.

Lemma join_in x parts : In x (join SLASH parts) -> x = SLASH \/ Exists (In x) parts.
Proof.
  induction parts as [|p parts IH]; [done|]. cbn [join]. destruct parts as [|p' parts].
  - intros H. right. by constructor.
  - rewrite in_app_iff. intros [H|[->|H]]; [right; by constructor|by left|].
    destruct (IH H); [by left|right; by constructor 2].
Qed.

Lemma join_safe windows parts : parts <> [] -> Forall (good_part windows) parts ->
  split SLASH (join SLASH parts) = parts /\ safe_name windows (join SLASH parts).
Proof.
  intros Hne H. assert (split SLASH (join SLASH parts) = parts) as Hsp.
  { apply split_join; [done|]. eapply Forall_impl; [|exact H]. intros p Hp. by apply good_no_slash in Hp as []. }
  split; [done|]. split; [|split; [|by rewrite Hsp]].
  - destruct parts as [|p ps]; [done|]. inversion H as [|? ? (Hp & _) _]; subst. cbn [join].
    destruct p; [done|]. by destruct ps.
  - intros [Hx|Hx]%join_in; [done|]. apply Stdlib.Lists.List.Exists_exists in Hx as (p & Hp & Hin).
    rewrite Stdlib.Lists.List.Forall_forall in H. by apply (good_no_slash windows p (H p Hp)).
Qed.

Lemma translate_is_safe windows name : safe (translate_par2_name_to_relative windows name) (safe_name windows).
Proof.
  rewrite translate_eq. destruct name as [|c name]; [exact I|]. cbn [is_nil safe].
  destruct (translated_parts_good windows (c :: name)) as [Hne Hgood]; [done|]. by apply join_safe.
Qed.

Lemma translate_safe windows name : safe_name windows name -> translate_par2_name_to_relative windows name = Ok name.
Proof.
  intros (Hne & Hb & Hparts). rewrite translate_eq. assert (is_nil name = false) as -> by (by destruct name).
  f_equal. unfold translated_parts.
  assert (normalize name = name) as ->.
  { unfold normalize. clear Hne Hparts. induction name as [|c name IH]; [done|]. cbn [fmap list_fmap].
    rewrite (proj2 (Z.eqb_neq c BACKSLASH)) by (intros ->; apply Hb; by left).
    f_equal. apply IH. intros ?; apply Hb. by right. }
  assert (starts_with SLASH name = false) as ->.
  { destruct name as [|c name]; [done|]. cbn [starts_with]. destruct (Z.eqb_spec c SLASH) as [->|]; [|done].
    cbn [split] in Hparts. rewrite Z.eqb_refl in Hparts. inversion Hparts as [|? ? (? & _)]; done. }
  assert (encode_part windows <$> filter (fun p => p <> []) (split SLASH name) = split SLASH name) as ->; [|apply join_split].
  induction Hparts as [|p ps Hp _ IH]; [done|]. pose proof Hp as (Hpn & _).
  rewrite filter_cons_True by done. cbn [fmap list_fmap]. by rewrite encode_part_id, IH.
Qed.

(** The empty name is the only one refused; every other
    name is translated to a safe one (parts that are not empty, not [..], with
    no separator, control or locally illegal character), and translation
    leaves exactly what is already safe alone, so it is idempotent. *)
Theorem translate_par2_name_spec (windows : bool) (name : ustring) :
  match translate_par2_name_to_relative windows name with
  | Ok r => name <> [] /\ safe_name windows r /\ translate_par2_name_to_relative windows r = Ok r /\
      (safe_name windows name <-> r = name)
  | Err e => name = [] /\ e = InvalidFileDescPacket
  | Panic => False
  end.
Proof.
  rewrite translate_eq. destruct name as [|c name]; [done|]. cbn [is_nil].
  destruct (translated_parts_good windows (c :: name)) as [Hne Hgood]; [done|].
  destruct (join_safe windows _ Hne Hgood) as [_ Hsafe].
  split; [done|]. split; [done|]. split; [by apply translate_safe|]. split; [|by intros <-].
  intros Hs. apply translate_safe in Hs. rewrite translate_eq in Hs. cbn [is_nil] in Hs. congruence.
Qed.

(** ** Paths *)

(** Joining puts one slash between the two. *)
Lemma join_slash base r : base <> [] -> starts_with SLASH r = false ->
  exists b, path_join base r = b ++ SLASH :: r /\ (base = b ++ [SLASH] \/ base = b).
Proof.
  intros Hb Hr. unfold path_join. rewrite Hr. destruct base as [|c base]; [done|].
  destruct (starts_with SLASH (rev (c :: base))) eqn:Hs; [|by exists (c :: base); auto].
  destruct (rev (c :: base)) as [|x l] eqn:Hrev; [done|]. cbn [starts_with] in Hs. apply Z.eqb_eq in Hs.
  assert (c :: base = rev l ++ [SLASH]) as Heq by (rewrite <- (rev_involutive (c :: base)), Hrev, Hs; done).
  exists (rev l). split; [|by left]. by rewrite Heq, <- app_assoc.
Qed.

Lemma components_join base r : base <> [] -> starts_with SLASH r = false ->
  components (path_join base r) = components base ++ concat (later_component <$> split SLASH r).
Proof.
  intros Hb Hr. destruct (join_slash base r Hb Hr) as (b & -> & Hbase).
  assert (starts_with SLASH (b ++ SLASH :: r) = starts_with SLASH base) as Hst.
  { destruct Hbase as [-> | ->]; [by destruct b|]. by destruct b. }
  assert (forall first rest, split SLASH b = first :: rest -> exists tail, split SLASH base = first :: rest ++ tail /\
    concat (later_component <$> tail) = []) as Hsb.
  { intros first rest Hf. destruct Hbase as [-> | ->].
    - exists [[]]. rewrite (split_app SLASH b []), Hf. done.
    - exists []. by rewrite Hf, app_nil_r. }
  pose proof (split_not_nil SLASH b) as Hn. destruct (split SLASH b) as [|first rest] eqn:Hf; [done|].
  destruct (Hsb first rest eq_refl) as (tail & Ht & Htail).
  unfold components. rewrite Hst, (split_app SLASH b r), Ht, Hf. cbn [app].
  destruct (starts_with SLASH base); cbn [fmap list_fmap concat app];
    rewrite !fmap_app, !concat_app, Htail, app_nil_r; by rewrite <- ?app_assoc.
Qed.

Lemma good_components windows parts : Forall (good_part windows) parts ->
  concat (later_component <$> parts) = Normal <$> filter (fun p => p <> [DOT]) parts.
Proof.
  induction 1 as [|p ps (Hne & Hdd & _) _ IH]; [done|]. cbn [fmap list_fmap concat]. rewrite IH.
  unfold later_component. assert (is_nil p = false) as -> by (by destruct p). cbn [orb].
  destruct (decide (p = [DOT])) as [->|Hd].
  - by rewrite filter_cons_False by auto.
  - rewrite filter_cons_True, !bool_decide_false by done. done.
Qed.

(** C38 (names stay local): a PAR2 name, whatever it holds, joined to a base
    directory gives a path whose components are the base's followed by plain
    names only: no root, no parent, no separator and no control character
    inside a component. The check on the translated path never fires. *)
Theorem par2_name_stays_local (name base : ustring) :
  base <> [] -> name <> [] ->
  exists path names, translate_par2_name_to_local_path name base = Ok path /\
    components path = components base ++ (Normal <$> names) /\
    Forall (fun n => good_part false n /\ n <> [DOT]) names.
Proof.
  intros Hb Hn. unfold translate_par2_name_to_local_path. rewrite translate_eq.
  assert (is_nil name = false) as -> by (by destruct name). rewrite bind_Ok.
  destruct (translated_parts_good false name Hn) as [Hne Hgood].
  destruct (join_safe false _ Hne Hgood) as (Hsp & Hsafe & _ & _).
  set (parts := translated_parts false name) in *.
  assert (starts_with SLASH (join SLASH parts) = false) as Hst.
  { destruct parts as [|p ps]; [done|]. inversion Hgood as [|? ? Hp _]; subst.
    pose proof (good_no_slash _ _ Hp) as [Hs _]. destruct Hp as (Hpn & _).
    destruct p as [|c p]; [done|]. cbn [join].
    assert (c <> SLASH) as Hc by (intros ->; apply Hs; by left). apply Z.eqb_neq in Hc.
    by destruct ps. }
  assert (existsb is_rooted (components (join SLASH parts)) = false) as ->.
  { unfold components. rewrite Hst, Hsp. destruct parts as [|p ps]; [done|].
    inversion Hgood as [|? ? Hp Hps]; subst. rewrite existsb_app, (good_components false ps) by done.
    assert (existsb is_rooted (Normal <$> filter (fun p => p <> [DOT]) ps) = false) as ->
      by (generalize (filter (fun p => p <> [DOT]) ps) as l; induction l; done).
    rewrite orb_false_r. case_bool_decide; [done|]. pose proof (good_components false [p]) as Hg.
    cbn [fmap list_fmap concat] in Hg. rewrite app_nil_r in Hg. rewrite Hg by (by constructor).
    by rewrite filter_cons_True by done. }
  exists (path_join base (join SLASH parts)), (filter (fun p => p <> [DOT]) parts). split; [done|].
  rewrite components_join, Hsp, (good_components false) by done. split; [done|].
  apply Stdlib.Lists.List.Forall_forall. intros p Hp. apply list_elem_of_In, list_elem_of_filter in Hp as [Hd Hp].
  split; [|done]. rewrite Stdlib.Lists.List.Forall_forall in Hgood. apply Hgood. by apply list_elem_of_In.
Qed.

Lemma par2_name_stays_local_witness :
  exists path names, translate_par2_name_to_local_path (text "../../etc/passwd") (text "/data/job") = Ok path /\
    components path = components (text "/data/job") ++ (Normal <$> names) /\
    Forall (fun n => good_part false n /\ n <> [DOT]) names.
Proof. apply (par2_name_stays_local (text "../../etc/passwd") (text "/data/job")); discriminate. Defined.
