(* ===== verification/Par2Packet.v ===== *)
(** PAR2 packets, [crates/par2-rs/src/packet/]: the 64-byte header
    ([header.rs]), the bodies ([main.rs], [file_desc.rs], [file_verify.rs],
    [recovery.rs], [creator.rs], [unicode_filename.rs]), a whole packet
    ([mod.rs]) and the encoder ([encode.rs], and the critical packets of
    [create/output.rs]). MD5 goes through the hasher of [Checksum]. *)
From S2P Require Import Prelude.
From S2P Require Import RarTypes.
From S2P Require Import Utf8.
From S2P Require Import Checksum.
From S2P Require Import Par2Types.
From S2P Require Import Par2Path.

(** * Header *)

Definition bytes (l : list Z) : list byte := byte_of <$> l.

Definition MAGIC : list byte := bytes [80; 65; 82; 50; 0; 80; 75; 84].
Definition HEADER_SIZE : Z := 64.

Definition PAR2_0 : list Z := [80; 65; 82; 32; 50; 46; 48; 0].
Definition TYPE_MAIN : list byte := bytes (PAR2_0 ++ [77; 97; 105; 110; 0; 0; 0; 0]).
Definition TYPE_FILE_DESC : list byte := bytes (PAR2_0 ++ [70; 105; 108; 101; 68; 101; 115; 99]).
Definition TYPE_IFSC : list byte := bytes (PAR2_0 ++ [73; 70; 83; 67; 0; 0; 0; 0]).
Definition TYPE_RECOVERY : list byte := bytes (PAR2_0 ++ [82; 101; 99; 118; 83; 108; 105; 99]).
Definition TYPE_CREATOR : list byte := bytes (PAR2_0 ++ [67; 114; 101; 97; 116; 111; 114; 0]).
Definition TYPE_UNICODE_FILENAME : list byte := bytes (PAR2_0 ++ [85; 110; 105; 70; 105; 108; 101; 78]).

Inductive PacketType :=
| TMain | TFileDescription | TInputFileSliceChecksum | TRecoverySlice | TCreator | TUnicodeFilename
| TUnknown (sig : list byte).

Definition from_signature (sig : list byte) : PacketType :=
  if bool_decide (sig = TYPE_MAIN) then TMain
  else if bool_decide (sig = TYPE_FILE_DESC) then TFileDescription
  else if bool_decide (sig = TYPE_IFSC) then TInputFileSliceChecksum
  else if bool_decide (sig = TYPE_RECOVERY) then TRecoverySlice
  else if bool_decide (sig = TYPE_CREATOR) then TCreator
  else if bool_decide (sig = TYPE_UNICODE_FILENAME) then TUnicodeFilename
  else TUnknown sig.

Module PacketHeader.
Record t := mk {
  length : Z;
  packet_hash : list byte;
  recovery_set_id : RecoverySetId;
  packet_type : PacketType;
}.

Definition parse (data : list byte) (offset : Z) : par2_result t :=
  if zlen data <? HEADER_SIZE then Err (PacketTooShort HEADER_SIZE (zlen data))
  else
    magic ← slice data 0 8;
    if negb (bool_decide (magic = MAGIC)) then Err (InvalidMagic offset)
    else
      len ← slice data 8 16;
      let length := u64_le len in
      if length <? HEADER_SIZE then Err (PacketTooShort HEADER_SIZE length)
      else if negb (length mod 4 =? 0) then Err (InvalidPacketLength length)
      else
        packet_hash ← slice data 16 32;
        recovery_set_id ← slice data 32 48;
        type_sig ← slice data 48 64;
        Ok (mk length packet_hash recovery_set_id (from_signature type_sig)).

Definition body_length (self : t) : par2_result Z :=
  if HEADER_SIZE <=? length self then Ok (length self - HEADER_SIZE) else Panic.
End PacketHeader.

(** * Bodies *)

Module MainPacket.
Record t := mk {
  recovery_set_id : RecoverySetId;
  slice_size : Z;
  recovery_file_ids : list FileId;
  non_recovery_file_ids : list FileId;
}.

(** [for i in lo..lo + n]: the identifiers at 16-byte offsets. *)
Definition read_ids (area : list byte) (lo n : nat) : par2_result (list FileId) :=
  mapM (fun i => slice area (Z.of_nat i * 16) (Z.of_nat i * 16 + 16)) (seq lo n).

Definition parse (body : list byte) (recovery_set_id : RecoverySetId) : par2_result t :=
  if zlen body <? 12 then Err InvalidMainPacket
  else
    s ← slice body 0 8;
    let slice_size := u64_le s in
    if slice_size =? 0 then Err InvalidMainPacket
    else if negb (slice_size mod 4 =? 0) then Err InvalidMainPacket
    else
      c ← slice body 8 12;
      let recovery_file_count := u32_le c in
      file_id_area ← slice_from body 12;
      if negb (zlen file_id_area mod 16 =? 0) then Err InvalidMainPacket
      else
        let total_ids := zlen file_id_area / 16 in
        if MAX_FILES_PER_SET <? total_ids then Err InvalidMainPacket
        else if total_ids <? recovery_file_count then Err InvalidMainPacket
        else
          ids ← read_ids file_id_area 0 (Z.to_nat recovery_file_count);
          rest ← read_ids file_id_area (Z.to_nat recovery_file_count) (Z.to_nat (total_ids - recovery_file_count));
          Ok (mk recovery_set_id slice_size ids rest).
End MainPacket.

(** [iter().position(|&b| b == 0).unwrap_or(len)]. *)
Fixpoint nul_position (l : list byte) : Z :=
  match l with
  | [] => 0
  | b :: l => if u8 b =? 0 then 0 else 1 + nul_position l
  end.

(** UTF-8, or one character per byte. *)
Definition decode_par2_name (bytes : list byte) : ustring :=
  match from_utf8 bytes with Some text => text | None => u8 <$> bytes end.

Module FileDescriptionPacket.
Definition FIXED_BODY_SIZE : Z := 56.
Definition MAX_FILENAME_BYTES : Z := 100000.

Record t := mk {
  file_id : FileId;
  hash_full : list byte;
  hash_16k : list byte;
  file_length : Z;
  filename : ustring;
  par2_name : ustring;
  par2_name_bytes : list byte;
}.

Definition parse (windows : bool) (body : list byte) : par2_result t :=
  if zlen body <=? FIXED_BODY_SIZE then Err InvalidFileDescPacket
  else
    file_id ← slice body 0 16;
    hash_full ← slice body 16 32;
    hash_16k ← slice body 32 48;
    len ← slice body 48 56;
    let file_length := u64_le len in
    if (file_length <=? 16384) && negb (bool_decide (hash_16k = hash_full)) then Err InvalidFileDescPacket
    else
      name_bytes ← slice_from body 56;
      if MAX_FILENAME_BYTES <? zlen name_bytes then Err InvalidFileDescPacket
      else
        let name_end := nul_position name_bytes in
        if name_end =? 0 then Err InvalidFileDescPacket
        else
          par2_name_bytes ← slice name_bytes 0 name_end;
          let par2_name := decode_par2_name par2_name_bytes in
          filename ← translate_par2_name_to_relative windows par2_name;
          Ok (mk file_id hash_full hash_16k file_length filename par2_name par2_name_bytes).
End FileDescriptionPacket.

Module IfscPacket.
Definition CHECKSUM_ENTRY_SIZE : Z := 20.
Definition MAX_CHECKSUM_ENTRIES : Z := 32768.

Record t := mk { file_id : FileId; checksums : list SliceChecksum }.

Definition read_entry (area : list byte) (i : nat) : par2_result SliceChecksum :=
  let offset := Z.of_nat i * CHECKSUM_ENTRY_SIZE in
  md5 ← slice area offset (offset + 16);
  crc ← slice area (offset + 16) (offset + 20);
  Ok (mk_checksum (u32_le crc) md5).

Definition parse (body : list byte) : par2_result t :=
  if zlen body <? 16 then Err InvalidIfscPacket
  else
    file_id ← slice body 0 16;
    checksum_area ← slice_from body 16;
    if negb (zlen checksum_area mod CHECKSUM_ENTRY_SIZE =? 0) then Err InvalidIfscPacket
    else
      let count := zlen checksum_area / CHECKSUM_ENTRY_SIZE in
      if MAX_CHECKSUM_ENTRIES <? count then Err InvalidIfscPacket
      else
        checksums ← mapM (read_entry checksum_area) (seq 0 (Z.to_nat count));
        Ok (mk file_id checksums).
End IfscPacket.

(** Where a recovery payload is: paths are opaque strings here. *)
Inductive RecoverySliceData :=
| InMemory (data : list byte)
| FileBacked (path : ustring) (offset len : Z) (packet_hash : option (list byte)).
Definition data_len (self : RecoverySliceData) : Z :=
  match self with InMemory data => zlen data | FileBacked _ _ len _ => len end.

Module RecoverySlicePacket.
Record t := mk { exponent : Z; data : RecoverySliceData }.

Definition parse (body : list byte) : par2_result t :=
  if zlen body <=? 4 then Err InvalidRecoveryPacket
  else
    e ← slice body 0 4;
    d ← slice_from body 4;
    Ok (mk (u32_le e) (InMemory d)).
End RecoverySlicePacket.

Module CreatorPacket.
Definition MAX_CREATOR_BYTES : Z := 100000.
Record t := mk { creator_id : ustring }.

Definition parse (body : list byte) : par2_result t :=
  if zlen body =? 0 then Err InvalidCreatorPacket
  else if MAX_CREATOR_BYTES <? zlen body then Err InvalidCreatorPacket
  else
    text ← slice body 0 (nul_position body);
    Ok (mk (from_utf8_lossy text)).
End CreatorPacket.

Module UnicodeFilenamePacket.
Definition MAX_UNICODE_FILENAME_BODY_BYTES : Z := 16 + 2 * 100000.
Record t := mk { file_id : FileId; name : ustring }.

(** [String::from_utf16]. *)
Fixpoint from_utf16 (units : list Z) : option ustring :=
  match units with
  | [] => Some []
  | u :: units =>
      if (u <? 0xD800) || (0xDFFF <? u) then cons u <$> from_utf16 units
      else if 0xDC00 <=? u then None
      else match units with
      | v :: units =>
          if (0xDC00 <=? v) && (v <=? 0xDFFF)
          then cons (0x10000 + (u - 0xD800) * 1024 + (v - 0xDC00)) <$> from_utf16 units
          else None
      | [] => None
      end
  end.

(** [chunks_exact(2)] as code units. *)
Fixpoint code_units (little_endian : bool) (raw : list byte) : list Z :=
  match raw with
  | a :: b :: raw => (if little_endian then u8 a + 256 * u8 b else u8 b + 256 * u8 a) :: code_units little_endian raw
  | _ => []
  end.

(** A byte-order mark is stripped. *)
Definition strip_mark (raw : list byte) : list byte * bool :=
  match raw with
  | a :: b :: rest =>
      if (u8 a =? 0xFF) && (u8 b =? 0xFE) then (rest, true)
      else if (u8 a =? 0xFE) && (u8 b =? 0xFF) then (rest, false)
      else (raw, true)
  | _ => (raw, true)
  end.

(** [trim_end_matches] of NUL. *)
Fixpoint drop_nuls (l : ustring) : ustring :=
  match l with c :: l' => if c =? 0 then drop_nuls l' else l | [] => [] end.
Definition trim_end_nuls (l : ustring) : ustring := rev (drop_nuls (rev l)).

Definition parse (body : list byte) : par2_result t :=
  if zlen body <? 18 then Err InvalidFileDescPacket
  else if MAX_UNICODE_FILENAME_BODY_BYTES <? zlen body then Err InvalidFileDescPacket
  else
    file_id ← slice body 0 16;
    raw ← slice_from body 16;
    if negb (zlen raw mod 2 =? 0) then Err InvalidFileDescPacket
    else
      let '(raw, little_endian) := strip_mark raw in
      match from_utf16 (code_units little_endian raw) with
      | None => Err InvalidFileDescPacket
      | Some decoded =>
          let name := trim_end_nuls decoded in
          if is_nil name then Err InvalidFileDescPacket
          else if existsb (Z.eqb 0) name then Err InvalidFileDescPacket
          else Ok (mk file_id name)
      end.
End UnicodeFilenamePacket.

(** * Packets *)

Inductive Packet :=
| PMain (p : MainPacket.t)
| PFileDescription (p : FileDescriptionPacket.t)
| PInputFileSliceChecksum (p : IfscPacket.t)
| PRecoverySlice (p : RecoverySlicePacket.t)
| PCreator (p : CreatorPacket.t)
| PUnicodeFilename (p : UnicodeFilenamePacket.t)
| PUnknown (packet_type body : list byte).

Definition parse_packet_body (windows : bool) (header : PacketHeader.t) (body : list byte) : par2_result Packet :=
  match PacketHeader.packet_type header with
  | TMain => PMain <$> MainPacket.parse body (PacketHeader.recovery_set_id header)
  | TFileDescription => PFileDescription <$> FileDescriptionPacket.parse windows body
  | TInputFileSliceChecksum => PInputFileSliceChecksum <$> IfscPacket.parse body
  | TRecoverySlice => PRecoverySlice <$> RecoverySlicePacket.parse body
  | TCreator => PCreator <$> CreatorPacket.parse body
  | TUnicodeFilename => PUnicodeFilename <$> UnicodeFilenamePacket.parse body
  | TUnknown sig => Ok (PUnknown sig body)
  end.

Section hashed.
Context {B : Backends} (backend : Par2Md5Backend) (windows : bool).

(** [Md5State::new], updates in order, [finalize]. *)
Fixpoint md5_feed (hasher : Md5State) (pieces : list (list byte)) : par2_result Md5State :=
  match pieces with
  | [] => Ok hasher
  | d :: pieces => hasher ← md5_update hasher d; md5_feed hasher pieces
  end.
Definition md5_pieces (pieces : list (list byte)) : par2_result (list byte) :=
  hasher ← md5_feed (Md5State_new backend) pieces; md5_finalize hasher.

Definition validate_hash (self : PacketHeader.t) (full_packet : list byte) (offset : Z) : par2_result unit :=
  if zlen full_packet <? PacketHeader.length self
  then Err (PacketTooShort (PacketHeader.length self) (zlen full_packet))
  else
    hash_input ← slice full_packet 32 (PacketHeader.length self);
    computed ← md5_with_backend backend hash_input;
    if negb (bool_decide (computed = PacketHeader.packet_hash self)) then Err (PacketHashMismatch offset)
    else Ok tt.

Definition parse_packet_internal (data : list byte) (offset : Z) (recovery_path : option ustring)
    : par2_result (Packet * Z) :=
  header ← PacketHeader.parse data offset;
  let total_len := PacketHeader.length header in
  if zlen data <? total_len then Err (PacketTooShort total_len (zlen data))
  else
    full ← slice data 0 total_len;
    _ ← validate_hash header full offset;
    body ← slice data HEADER_SIZE total_len;
    packet ← (match PacketHeader.packet_type header, recovery_path with
      | TRecoverySlice, Some path =>
          if zlen body <=? 4 then Err InvalidRecoveryPacket
          else
            e ← slice body 0 4;
            payload ← add_u64 offset (HEADER_SIZE + 4);
            Ok (PRecoverySlice (RecoverySlicePacket.mk (u32_le e) (FileBacked path payload (zlen body - 4) None)))
      | _, _ => parse_packet_body windows header body
      end);
    Ok (packet, total_len).
Definition parse_packet (data : list byte) (offset : Z) : par2_result (Packet * Z) :=
  parse_packet_internal data offset None.

(** * Encoding *)

Definition packet_hash (recovery_set_id : RecoverySetId) (packet_type body : list byte) : par2_result (list byte) :=
  md5_pieces [recovery_set_id; packet_type; body].

Definition encode_packet (packet_type : list byte) (recovery_set_id : RecoverySetId) (body : list byte)
    : par2_result (list byte) :=
  if 2 ^ 64 <=? HEADER_SIZE + zlen body then Err ResourceLimitExceeded
  else
    let length := HEADER_SIZE + zlen body in
    if negb (length mod 4 =? 0) then Err (InvalidPacketLength length)
    else
      hash ← packet_hash recovery_set_id packet_type body;
      Ok (MAGIC ++ le_split 8 length ++ hash ++ recovery_set_id ++ packet_type ++ body).

Definition encode_header (packet_type : list byte) (recovery_set_id : RecoverySetId) (length : Z) (packet_hash : list byte)
    : par2_result (list byte) :=
  if (length <? HEADER_SIZE) || negb (length mod 4 =? 0) then Err (InvalidPacketLength length)
  else
    header ← copy_range (zreplicate HEADER_SIZE x00) 0 8 MAGIC;
    header ← copy_range header 8 16 (le_split 8 length);
    header ← copy_range header 16 32 packet_hash;
    header ← copy_range header 32 48 recovery_set_id;
    copy_range header 48 64 packet_type.

(** ** The critical packets of a set being created *)

Record CreationSource := mk_source {
  cs_par2_name : ustring;
  cs_file_id : FileId;
  cs_file_length : Z;
  cs_hash_full : list byte;
  cs_hash_16k : list byte;
  cs_slice_checksums : list SliceChecksum;
}.

Definition pad_body (body : list byte) : list byte := body ++ zreplicate ((4 - zlen body mod 4) mod 4) x00.

Definition main_body (slice_size : Z) (sources : list CreationSource) : list byte :=
  le_split 8 slice_size ++ le_split 4 (wrap32 (zlen sources)) ++ concat (cs_file_id <$> sources).
Definition file_desc_body (source : CreationSource) : list byte :=
  pad_body (cs_file_id source ++ cs_hash_full source ++ cs_hash_16k source
    ++ le_split 8 (cs_file_length source) ++ encode_utf8 (cs_par2_name source)).
Definition ifsc_body (source : CreationSource) : list byte :=
  pad_body (cs_file_id source
    ++ concat ((fun c => sc_md5 c ++ le_split 4 (sc_crc32 c)) <$> cs_slice_checksums source)).

(** What is written, next to its bytes. *)
Inductive ExpectedPacket :=
| EMain | EFileDescription (id : FileId) | EInputFileSliceChecksum (id : FileId) | ERecovery (exponent : Z) | ECreator.

Definition build_critical_packets (slice_size : Z) (recovery_set_id : RecoverySetId) (sources : list CreationSource)
    : par2_result (list (ExpectedPacket * list byte)) :=
  main ← encode_packet TYPE_MAIN recovery_set_id (main_body slice_size sources);
  descs ← mapM (fun source =>
    p ← encode_packet TYPE_FILE_DESC recovery_set_id (file_desc_body source);
    Ok (EFileDescription (cs_file_id source), p)) sources;
  ifscs ← mapM (fun source =>
    p ← encode_packet TYPE_IFSC recovery_set_id (ifsc_body source);
    Ok (EInputFileSliceChecksum (cs_file_id source), p)) sources;
  Ok ((EMain, main) :: descs ++ ifscs).

Definition CREATOR_ID : list byte := bytes [112; 97; 114; 50; 45; 114; 115].
Definition encode_creator_packet (set_id : RecoverySetId) : par2_result (list byte) :=
  encode_packet TYPE_CREATOR set_id (pad_body CREATOR_ID).
End hashed.

Example creator_packet_parses :
  (p ← encode_creator_packet BackendNative (zreplicate 16 x61); parse_packet BackendNative false p 0)
    = Ok (PCreator (CreatorPacket.mk [112; 97; 114; 50; 45; 114; 115]), 72).
Proof. vm_compute. reflexivity. Qed.
