(* ===== verification/Par2PacketProps.v ===== *)
(** PAR2 packets: the parser accepts exactly what the encoder writes, every
    accepted packet is well formed, and nothing makes it panic. *)
From S2P Require Import Prelude.
From S2P Require Import RarTypes.
From S2P Require Import Utf8.
From S2P Require Import Md5Spec.
From S2P Require Import Checksum.
From S2P Require Import Par2Types.
From S2P Require Import Par2Path.
From S2P Require Import Par2Packet.

(** * Hashes and slices *)

Lemma zlen_md5 d : zlen (md5 d) = 16.
Proof. unfold md5, md_digest, le_words. by rewrite !zlen_app, !zlen_le_split. Qed.

(** A slice of a concatenation, by the lengths of what comes before. *)
Lemma slice_app_skip {E} (l k : list byte) a b : zlen l <= a ->
  slice (E := E) (l ++ k) a b = slice k (a - zlen l) (b - zlen l).
Proof.
  intros Ha. pose proof (zlen_nonneg l). unfold slice. rewrite zlen_app.
  destruct (Z.leb_spec 0 a), (Z.leb_spec a b), (Z.leb_spec b (zlen l + zlen k)),
    (Z.leb_spec 0 (a - zlen l)), (Z.leb_spec (a - zlen l) (b - zlen l)), (Z.leb_spec (b - zlen l) (zlen k));
    cbn [andb]; try lia; try done.
  rewrite zdrop_app_ge by lia. do 2 f_equal. lia.
Qed.
Lemma slice_app_take {E} (l k : list byte) a b : a = 0 -> b = zlen l -> slice (E := E) (l ++ k) a b = Ok l.
Proof.
  intros -> ->. pose proof (zlen_nonneg l). pose proof (zlen_nonneg k).
  rewrite slice_ok, zdrop_0, Z.sub_0_r by (rewrite ?zlen_app; lia). by rewrite ztake_app_zlen.
Qed.
Lemma slice_from_app {E} (l k : list byte) a : a = zlen l -> slice_from (E := E) (l ++ k) a = Ok k.
Proof.
  intros ->. pose proof (zlen_nonneg l). pose proof (zlen_nonneg k).
  rewrite slice_from_ok by (rewrite zlen_app; lia). by rewrite zdrop_app_zlen.
Qed.

(** Read one field of a concatenation. *)
Ltac field :=
  repeat (rewrite slice_app_skip by lia);
  apply slice_app_take; lia.

Lemma u64_le_split n : 0 <= n < 2 ^ 64 -> u64_le (le_split 8 n) = n.
Proof.
  intros. unfold u64_le. rewrite ztake_all by (rewrite zlen_le_split; lia).
  rewrite le_combine_split. by apply Z.mod_small.
Qed.
Lemma u32_le_split n : 0 <= n < 2 ^ 32 -> u32_le (le_split 4 n) = n.
Proof.
  intros. unfold u32_le. rewrite ztake_all by (rewrite zlen_le_split; lia).
  rewrite le_combine_split. by apply Z.mod_small.
Qed.
Lemma le_split_u64 l : zlen l = 8 -> le_split 8 (u64_le l) = l.
Proof.
  intros Hl. unfold u64_le. rewrite ztake_all by lia.
  replace 8%nat with (length l) by (unfold zlen in Hl; lia). apply le_split_combine.
Qed.

(** The pieces of a slice that is in range. *)
Lemma slice_inv {E} (l : list byte) a b s : slice (E := E) l a b = Ok s ->
  0 <= a <= b /\ b <= zlen l /\ s = ztake (b - a) (zdrop a l) /\ zlen s = b - a.
Proof.
  unfold slice. destruct (Z.leb_spec 0 a), (Z.leb_spec a b), (Z.leb_spec b (zlen l)); cbn [andb]; try done.
  intros [= <-]. split; [lia|]. split; [lia|]. split; [done|].
  rewrite zlen_take, zlen_drop by lia. lia.
Qed.
Lemma zdrop_split a b (l : list byte) : 0 <= a <= b -> b <= zlen l -> zdrop a l = ztake (b - a) (zdrop a l) ++ zdrop b l.
Proof.
  intros. replace (zdrop b l) with (zdrop (b - a) (zdrop a l)) by (rewrite zdrop_zdrop by lia; f_equal; lia).
  by rewrite ztake_zdrop by lia.
Qed.

(** * A packet on the wire *)

Definition packet_bytes (packet_type : list byte) (set_id : RecoverySetId) (body : list byte) : list byte :=
  MAGIC ++ le_split 8 (64 + zlen body) ++ md5 (set_id ++ packet_type ++ body) ++ set_id ++ packet_type ++ body.

Section packets.
Context {B : Backends} {laws : BackendLaws B} (backend : Par2Md5Backend) (windows : bool).

Lemma md5_feed_ok s p pieces : md5_fed s p ->
  spec (E := par2_error) (md5_feed s pieces) (fun s => md5_fed s (p ++ concat pieces)) (fun _ => False).
Proof.
  revert s p. induction pieces as [|d pieces IH]; intros s p Hs; cbn [md5_feed concat].
  { by rewrite app_nil_r. }
  eapply spec_bind; [by apply md5_update_fed|]. intros s' Hs'. rewrite app_assoc. by apply IH.
Qed.
Lemma md5_pieces_ok pieces : md5_pieces backend pieces = Ok (md5 (concat pieces)).
Proof.
  unfold md5_pieces. pose proof (md5_feed_ok _ _ pieces (md5_fed_new backend)) as H.
  destruct (md5_feed _ _) as [s| |]; [|done|done]. by rewrite bind_Ok, (md5_finalize_fed _ _ H).
Qed.
Lemma md5_with_backend_ok d : md5_with_backend (E := par2_error) backend d = Ok (md5 d).
Proof.
  unfold md5_with_backend. pose proof (md5_update_fed (E := par2_error) _ _ d (md5_fed_new backend)) as H.
  destruct (md5_update _ _) as [s| |]; [|done|done]. by rewrite bind_Ok, (md5_finalize_fed _ _ H).
Qed.

Section wire.
Context (ty id body : list byte).
Context (Hty : zlen ty = 16) (Hid : zlen id = 16) (Hlen : 64 + zlen body < 2 ^ 64) (H4 : zlen body mod 4 = 0).

Definition header_of : PacketHeader.t :=
  PacketHeader.mk (64 + zlen body) (md5 (id ++ ty ++ body)) id (from_signature ty).

Lemma zlen_packet_bytes : zlen (packet_bytes ty id body) = 64 + zlen body.
Proof using Hty Hid.
  unfold packet_bytes. rewrite !zlen_app, zlen_le_split, zlen_md5, Hty, Hid. change (zlen MAGIC) with 8. lia.
Qed.

Lemma encode_packet_ok : encode_packet backend ty id body = Ok (packet_bytes ty id body).
Proof using Hlen H4 laws.
  unfold encode_packet, HEADER_SIZE, packet_hash. rewrite (proj2 (Z.leb_gt _ _)) by lia.
  rewrite (proj2 (Z.eqb_eq _ _)) by dlia. cbn [negb]. rewrite md5_pieces_ok, bind_Ok.
  cbn [concat]. by rewrite app_nil_r.
Qed.

Lemma parse_header_bytes rest offset :
  PacketHeader.parse (packet_bytes ty id body ++ rest) offset = Ok header_of.
Proof using Hty Hid Hlen H4.
  pose proof zlen_packet_bytes as Hz. pose proof (zlen_nonneg rest). pose proof (zlen_nonneg body).
  unfold PacketHeader.parse, HEADER_SIZE. rewrite zlen_app, (proj2 (Z.ltb_ge _ _)) by lia.
  unfold packet_bytes. rewrite <- !app_assoc. pose proof (zlen_md5 (id ++ ty ++ body)) as Hmd.
  unfold header_of. set (h := md5 (id ++ ty ++ body)) in *.
  pose proof (zlen_le_split 8 (64 + zlen body)) as Hn. set (n := le_split 8 (64 + zlen body)) in *.
  assert (zlen MAGIC = 8) as Hm by done. set (data := MAGIC ++ n ++ h ++ id ++ ty ++ body ++ rest).
  assert (slice (E := par2_error) data 0 8 = Ok MAGIC) as -> by (subst data; field).
  rewrite bind_Ok, bool_decide_true by done. cbn [negb].
  assert (slice (E := par2_error) data 8 16 = Ok n) as -> by (subst data; field).
  assert (slice (E := par2_error) data 16 32 = Ok h) as -> by (subst data; field).
  assert (slice (E := par2_error) data 32 48 = Ok id) as -> by (subst data; field).
  assert (slice (E := par2_error) data 48 64 = Ok ty) as -> by (subst data; field).
  rewrite !bind_Ok. unfold n. rewrite (u64_le_split (64 + zlen body)) by lia.
  rewrite (proj2 (Z.ltb_ge _ _)), (proj2 (Z.eqb_eq _ _)) by dlia. done.
Qed.

Lemma parse_packet_bytes rest offset :
  parse_packet backend windows (packet_bytes ty id body ++ rest) offset =
    (packet ← parse_packet_body windows header_of body; Ok (packet, 64 + zlen body)).
Proof using Hty Hid Hlen H4 laws.
  pose proof zlen_packet_bytes as Hz. pose proof (zlen_nonneg rest). pose proof (zlen_nonneg body).
  unfold parse_packet, parse_packet_internal. rewrite parse_header_bytes, bind_Ok.
  cbn [PacketHeader.length header_of]. rewrite zlen_app, (proj2 (Z.ltb_ge _ _)) by lia.
  rewrite (slice_app_take _ _ 0), bind_Ok by lia.
  unfold validate_hash. cbn [PacketHeader.length PacketHeader.packet_hash header_of].
  rewrite Hz, (proj2 (Z.ltb_ge _ _)) by lia.
  assert (packet_bytes ty id body =
    (MAGIC ++ le_split 8 (64 + zlen body) ++ md5 (id ++ ty ++ body)) ++ (id ++ ty ++ body)) as Hsplit
    by (unfold packet_bytes; by rewrite <- !app_assoc).
  assert (zlen (MAGIC ++ le_split 8 (64 + zlen body) ++ md5 (id ++ ty ++ body)) = 32) as H32
    by (rewrite !zlen_app, zlen_le_split, zlen_md5; done).
  assert (slice (E := par2_error) (packet_bytes ty id body) 32 (64 + zlen body) = Ok (id ++ ty ++ body)) as ->.
  { rewrite Hsplit, slice_app_skip by lia. rewrite H32.
    rewrite <- (app_nil_r (id ++ ty ++ body)) at 1. apply slice_app_take; [done|]. rewrite !zlen_app. lia. }
  rewrite bind_Ok, md5_with_backend_ok, bind_Ok, bool_decide_true by done. cbn [negb]. rewrite bind_Ok.
  assert (slice (E := par2_error) (packet_bytes ty id body ++ rest) HEADER_SIZE (64 + zlen body) = Ok body) as ->.
  { unfold packet_bytes, HEADER_SIZE. rewrite !app_assoc, <- (app_assoc _ body rest).
    rewrite slice_app_skip by (rewrite !zlen_app, Hty, Hid, zlen_le_split, zlen_md5; change (zlen MAGIC) with 8; lia).
    apply slice_app_take; rewrite !zlen_app, Hty, Hid, zlen_le_split, zlen_md5; change (zlen MAGIC) with 8; lia. }
  rewrite bind_Ok. destruct (PacketHeader.packet_type header_of); done.
Qed.
End wire.

(** ** Whatever is accepted was encoded *)

Lemma parse_header_inv data offset h : PacketHeader.parse data offset = Ok h ->
  exists ty body_len, h = PacketHeader.mk (64 + body_len) (ztake 16 (zdrop 16 data)) (ztake 16 (zdrop 32 data)) (from_signature ty) /\
    0 <= body_len /\ body_len mod 4 = 0 /\ 64 + body_len < 2 ^ 64 /\ 64 <= zlen data /\
    ty = ztake 16 (zdrop 48 data) /\
    ztake 64 data = MAGIC ++ le_split 8 (64 + body_len) ++ ztake 16 (zdrop 16 data) ++ ztake 16 (zdrop 32 data) ++ ty.
Proof.
  unfold PacketHeader.parse, HEADER_SIZE. destruct (Z.ltb_spec (zlen data) 64) as [|Hge]; [done|]. intros H.
  inv_bind H. apply slice_inv in Hr as (_ & _ & Hm & _). rewrite zdrop_0, Z.sub_0_r in Hm.
  case_bool_decide as Hmagic; [|done]. cbn [negb] in H. inv_bind H.
  apply slice_inv in Hr as (_ & _ & Hlen & Hl8). set (n := u64_le r0) in *.
  destruct (Z.ltb_spec n 64); [done|]. destruct (Z.eqb_spec (n mod 4) 0); [|done]. cbn [negb] in H.
  do 3 (inv_bind H; apply slice_inv in Hr as (_ & _ & -> & _)). injection H as <-.
  change (32 - 16) with 16. change (48 - 32) with 16. change (64 - 48) with 16.
  pose proof (le_combine_range (ztake 8 r0)) as Hn. fold (u64_le r0) in Hn. fold n in Hn.
  rewrite zlen_take, Hl8 in Hn by lia. change (256 ^ Z.min 8 (16 - 8)) with (2 ^ 64) in Hn.
  exists (ztake 16 (zdrop 48 data)), (n - 64). replace (64 + (n - 64)) with n by lia.
  split; [done|]. split; [lia|]. split; [dlia|]. split; [lia|]. split; [lia|]. split; [done|].
  assert (r0 = le_split 8 n) as Hr0 by (unfold n; symmetry; apply le_split_u64; lia).
  rewrite <- Hr0, Hlen, <- Hmagic, Hm. change (16 - 8) with 8.
  pose proof (ztake_zdrop 64 data ltac:(lia)) as Hd.
  apply (app_inv_tail (zdrop 64 data)). rewrite Hd, <- !app_assoc.
  rewrite <- (ztake_zdrop 8 data) at 1 by lia. f_equal.
  rewrite (zdrop_split 8 16 data) at 1 by lia. f_equal. rewrite (zdrop_split 16 32 data) at 1 by lia. f_equal.
  rewrite (zdrop_split 32 48 data) at 1 by lia. f_equal. apply (zdrop_split 48 64); lia.
Qed.

Lemma parse_packet_inv data offset p n : parse_packet backend windows data offset = Ok (p, n) ->
  exists ty id body rest, data = packet_bytes ty id body ++ rest /\ zlen ty = 16 /\ zlen id = 16 /\
    zlen body mod 4 = 0 /\ n = 64 + zlen body /\ n < 2 ^ 64 /\
    parse_packet_body windows (header_of ty id body) body = Ok p.
Proof.
  unfold parse_packet, parse_packet_internal. intros H. apply bind_Ok_inv in H as (h & Hh & H).
  destruct (parse_header_inv _ _ _ Hh) as (ty & m & -> & Hm & Hm4 & Hmax & Hd64 & Hty & Hwire). clear Hh.
  cbn [PacketHeader.length] in H. destruct (Z.ltb_spec (zlen data) (64 + m)); [done|].
  apply bind_Ok_inv in H as (full & Hfull & H).
  apply slice_inv in Hfull as (_ & _ & Hfull & Hzf). rewrite zdrop_0, Z.sub_0_r in Hfull.
  apply bind_Ok_inv in H as (u & Hv & H). unfold validate_hash in Hv.
  cbn [PacketHeader.length PacketHeader.packet_hash] in Hv.
  destruct (zlen full <? 64 + m); [done|]. apply bind_Ok_inv in Hv as (input & Hin & Hv).
  apply slice_inv in Hin as (_ & _ & Hin & _).
  rewrite md5_with_backend_ok, bind_Ok in Hv. case_bool_decide as Hmd; [|done]. clear Hv u.
  apply bind_Ok_inv in H as (body & Hbody & H).
  apply slice_inv in Hbody as (_ & _ & Hbody & Hzb). unfold HEADER_SIZE in *.
  apply bind_Ok_inv in H as (packet & Hpk & H). injection H as -> <-.
  assert (zlen body = m) as Hlb by lia. replace (64 + m - 64) with m in Hbody by lia.
  assert (zlen (ztake 16 (zdrop 32 data)) = 16) as Hid by (rewrite zlen_take, zlen_drop by lia; lia).
  assert (zlen ty = 16) as Ht16 by (rewrite Hty, zlen_take, zlen_drop by lia; lia).
  assert (input = ztake 16 (zdrop 32 data) ++ ty ++ body) as Hinput.
  { rewrite Hin, Hfull, Hbody, Hty. pose proof (zlen_take (64 + m) data).
    rewrite (ztake_all (zdrop 32 _)) by (rewrite zlen_drop by lia; lia).
    assert (zdrop 32 (ztake (64 + m) data) = ztake (32 + m) (zdrop 32 data)) as ->.
    { rewrite !zdrop_nat, !ztake_nat by lia. rewrite skipn_firstn_comm. f_equal. lia. }
    rewrite (zdrop_split 32 48 data) at 1 by lia. rewrite (zdrop_split 48 64 data) at 1 by lia.
    rewrite ztake_app_ge by (rewrite zlen_take, zlen_drop by lia; lia). f_equal.
    rewrite ztake_app_ge by (rewrite !zlen_take, !zlen_drop by lia; lia). f_equal.
    f_equal. rewrite !zlen_take, !zlen_drop by lia. lia. }
  exists ty, (ztake 16 (zdrop 32 data)), body, (zdrop (64 + m) data).
  rewrite Hlb. split; [|split; [done|split; [done|split; [done|split; [done|split; [lia|]]]]]].
  - unfold packet_bytes. rewrite <- Hinput, Hmd, Hlb. rewrite <- (ztake_zdrop 64 data) at 1 by lia.
    rewrite Hwire, Hinput, <- !app_assoc. do 5 f_equal. rewrite Hbody.
    rewrite (zdrop_split 64 (64 + m) data) at 1 by lia. do 2 f_equal. lia.
  - unfold header_of. rewrite <- Hinput, Hmd, Hlb. destruct (from_signature ty); exact Hpk.
Qed.
End packets.

(** C26 (packets on the wire): the parser accepts exactly the packets the
    encoder writes, with anything behind them: type, set and body are
    recovered, the packet's length is consumed and the hash verified; any
    other bytes are refused. *)
Theorem parser_inverts_encoder {B : Backends} {laws : BackendLaws B} (backend : Par2Md5Backend) (windows : bool)
    (data : list byte) (offset : Z) (p : Packet) (n : Z) :
  parse_packet backend windows data offset = Ok (p, n) <->
  exists ty id body rest packet,
    zlen ty = 16 /\ zlen id = 16 /\ 64 + zlen body < 2 ^ 64 /\
    encode_packet backend ty id body = Ok packet /\ data = packet ++ rest /\ n = zlen packet /\
    parse_packet_body windows
      (PacketHeader.mk (64 + zlen body) (md5 (id ++ ty ++ body)) id (from_signature ty)) body = Ok p.
Proof.
  split.
  - intros H. apply parse_packet_inv in H as (ty & id & body & rest & -> & Ht & Hi & H4 & -> & Hn & Hp).
    exists ty, id, body, rest, (packet_bytes ty id body). rewrite (encode_packet_ok backend), zlen_packet_bytes by done.
    repeat split; done.
  - intros (ty & id & body & rest & packet & Ht & Hi & Hn & He & -> & -> & Hp).
    assert (zlen body mod 4 = 0) as H4.
    { unfold encode_packet, HEADER_SIZE in He. destruct (2 ^ 64 <=? _); [done|].
      destruct (Z.eqb_spec ((64 + zlen body) mod 4) 0); [|done]. dlia. }
    rewrite (encode_packet_ok backend) in He by done. injection He as <-.
    rewrite parse_packet_bytes, zlen_packet_bytes by done. unfold header_of. rewrite Hp. done.
Qed.

(** * Well-formed packets *)

Definition id_ok (id : list byte) : Prop := zlen id = 16.

Definition packet_ok (windows : bool) (p : Packet) : Prop :=
  match p with
  | PMain m =>
      id_ok (MainPacket.recovery_set_id m) /\ 0 < MainPacket.slice_size m < 2 ^ 64 /\
      MainPacket.slice_size m mod 4 = 0 /\
      Forall id_ok (MainPacket.recovery_file_ids m) /\ Forall id_ok (MainPacket.non_recovery_file_ids m) /\
      zlen (MainPacket.recovery_file_ids m) + zlen (MainPacket.non_recovery_file_ids m) <= MAX_FILES_PER_SET
  | PFileDescription d =>
      id_ok (FileDescriptionPacket.file_id d) /\ id_ok (FileDescriptionPacket.hash_full d) /\
      id_ok (FileDescriptionPacket.hash_16k d) /\ 0 <= FileDescriptionPacket.file_length d < 2 ^ 64 /\
      (FileDescriptionPacket.file_length d <= 16384 ->
        FileDescriptionPacket.hash_16k d = FileDescriptionPacket.hash_full d) /\
      safe_name windows (FileDescriptionPacket.filename d) /\
      FileDescriptionPacket.par2_name d = decode_par2_name (FileDescriptionPacket.par2_name_bytes d) /\
      0 < zlen (FileDescriptionPacket.par2_name_bytes d) <= 100000 /\ ~ In x00 (FileDescriptionPacket.par2_name_bytes d)
  | PInputFileSliceChecksum i =>
      id_ok (IfscPacket.file_id i) /\ zlen (IfscPacket.checksums i) <= MAX_TOTAL_INPUT_SLICES /\
      Forall (fun c => 0 <= sc_crc32 c < 2 ^ 32 /\ id_ok (sc_md5 c)) (IfscPacket.checksums i)
  | PRecoverySlice r => 0 <= RecoverySlicePacket.exponent r < 2 ^ 32 /\ 0 < data_len (RecoverySlicePacket.data r)
  | PCreator c => True
  | PUnicodeFilename u => id_ok (UnicodeFilenamePacket.file_id u) /\ UnicodeFilenamePacket.name u <> [] /\
      ~ In 0 (UnicodeFilenamePacket.name u)
  | PUnknown sig body => id_ok sig
  end.

(** A traversal whose steps are safe is, and its results hold. *)
Lemma safe_mapM {E A B} (f : A -> outcome E B) (P : B -> Prop) l :
  Forall (fun x => safe (f x) P) l -> safe (mapM f l) (fun ys => Forall P ys /\ zlen ys = zlen l).
Proof.
  induction 1 as [|x l Hx _ IH]; [by split; [constructor|]|]. cbn [mapM].
  eapply safe_bind; [exact Hx|]. intros y _ Hy. eapply safe_bind; [exact IH|]. intros ys _ [Hys Hl].
  split; [by constructor|]. rewrite !zlen_cons. lia.
Qed.

(** A slice in range, with its length. *)
Lemma safe_piece {E} (l : list byte) a b : 0 <= a -> a <= b -> b <= zlen l ->
  safe (slice (E := E) l a b) (fun s => zlen s = b - a).
Proof. intros. rewrite slice_ok by lia. cbn [safe]. rewrite zlen_take, zlen_drop by lia. lia. Qed.

Lemma u64_le_range l : 0 <= u64_le l < 2 ^ 64.
Proof.
  unfold u64_le. pose proof (le_combine_range (ztake 8 l)) as H.
  assert (zlen (ztake 8 l) <= 8) by (rewrite zlen_take by lia; lia).
  pose proof (zlen_nonneg (ztake 8 l)).
  pose proof (Z.pow_le_mono_r 256 (zlen (ztake 8 l)) 8 ltac:(lia) ltac:(lia)).
  change (2 ^ 64) with (256 ^ 8). lia.
Qed.

Lemma nul_position_range l : 0 <= nul_position l <= zlen l.
Proof.
  induction l as [|b l IH]; cbn [nul_position]; [done|]. rewrite zlen_cons.
  destruct (u8 b =? 0); pose proof (zlen_nonneg l); lia.
Qed.
Lemma nul_position_before l : ~ In x00 (ztake (nul_position l) l).
Proof.
  induction l as [|b l IH]; [intros []|]. cbn [nul_position].
  destruct (Z.eqb_spec (u8 b) 0) as [Hb|Hb]; [rewrite ztake_nat by lia; intros []|].
  pose proof (nul_position_range l). rewrite ztake_nat by lia.
  replace (Z.to_nat (1 + nul_position l)) with (S (Z.to_nat (nul_position l))) by lia.
  cbn [take]. rewrite <- ztake_nat by lia. intros [-> |Hin]; [by apply Hb|by apply IH].
Qed.

(** One branch of a parser: either branch. *)
Ltac branch := match goal with |- safe (if ?c then _ else _) _ => destruct c eqn:?; [exact I|] end.
(** One field of fixed size. *)
Ltac piece := eapply safe_bind; [apply safe_piece; lia|]; intros ? _ ?; cbv beta in *.

Lemma main_safe body id : id_ok id -> safe (MainPacket.parse body id) (fun m => packet_ok false (PMain m)).
Proof.
  intros Hid. unfold MainPacket.parse. branch. apply Z.ltb_ge in Heqb.
  piece. branch. branch. apply Z.eqb_neq in Heqb0. apply negb_false_iff, Z.eqb_eq in Heqb1. piece.
  rewrite slice_from_ok, bind_Ok by lia. set (area := zdrop 12 body).
  do 3 branch. apply negb_false_iff, Z.eqb_eq in Heqb2. apply Z.ltb_ge in Heqb3, Heqb4.
  pose proof (u32_le_range a0). pose proof (u64_le_range a). pose proof (zlen_nonneg area).
  assert (forall lo n, Z.of_nat lo + Z.of_nat n <= zlen area / 16 ->
    safe (MainPacket.read_ids area lo n) (fun ids => Forall id_ok ids /\ zlen ids = Z.of_nat n)) as Hids.
  { intros lo n Hn. eapply safe_mono; [apply (safe_mapM _ id_ok)|].
    - apply Stdlib.Lists.List.Forall_forall. intros i Hi%in_seq.
      eapply safe_mono; [apply safe_piece; dlia|]. cbv beta. unfold id_ok. intros; lia.
    - cbv beta. intros ids _ [Hx1 Hx2]. split; [done|]. etrans; [exact Hx2|]. unfold zlen. by rewrite length_seq. }
  eapply safe_bind; [apply Hids; lia|]. intros ids _ [Hi1 Hi2].
  eapply safe_bind; [apply Hids; lia|]. intros rest _ [Hr1 Hr2]. cbn. split_and!; try done; lia.
Qed.

Lemma file_desc_safe windows body :
  safe (FileDescriptionPacket.parse windows body) (fun d => packet_ok windows (PFileDescription d)).
Proof.
  unfold FileDescriptionPacket.parse, FileDescriptionPacket.FIXED_BODY_SIZE, FileDescriptionPacket.MAX_FILENAME_BYTES.
  branch. apply Z.leb_gt in Heqb. do 4 piece. branch. rewrite slice_from_ok, bind_Ok by lia.
  set (names := zdrop 56 body). branch. branch. apply Z.ltb_ge in Heqb1. apply Z.eqb_neq in Heqb2.
  pose proof (nul_position_range names). pose proof (nul_position_before names).
  rewrite slice_ok, bind_Ok, zdrop_0, Z.sub_0_r by lia. set (name := ztake (nul_position names) names) in *.
  assert (zlen name = nul_position names) by (unfold name; rewrite zlen_take by lia; lia).
  pose proof (translate_is_safe windows (decode_par2_name name)) as Ht. pose proof (u64_le_range a2).
  destruct (translate_par2_name_to_relative _ _) as [fname| |]; [|exact I|done]. cbn [safe] in Ht.
  cbn. unfold id_ok. split_and!; try done; try lia.
  intros Hle. apply andb_false_iff in Heqb0 as [Hx|Hx]; [apply Z.leb_gt in Hx; lia|].
  apply negb_false_iff, bool_decide_eq_true in Hx. done.
Qed.

Lemma ifsc_safe body : safe (IfscPacket.parse body) (fun i => packet_ok false (PInputFileSliceChecksum i)).
Proof.
  unfold IfscPacket.parse, IfscPacket.CHECKSUM_ENTRY_SIZE, IfscPacket.MAX_CHECKSUM_ENTRIES.
  branch. apply Z.ltb_ge in Heqb. piece. rewrite slice_from_ok, bind_Ok by lia. set (area := zdrop 16 body).
  branch. branch. apply negb_false_iff, Z.eqb_eq in Heqb0. apply Z.ltb_ge in Heqb1. pose proof (zlen_nonneg area).
  eapply safe_bind; [apply (safe_mapM _ (fun c => 0 <= sc_crc32 c < 2 ^ 32 /\ id_ok (sc_md5 c)))|].
  - apply Stdlib.Lists.List.Forall_forall. intros i Hi%in_seq. unfold IfscPacket.read_entry, IfscPacket.CHECKSUM_ENTRY_SIZE.
    eapply safe_bind; [apply safe_piece; dlia|]. intros m _ Hm. cbv beta in Hm.
    eapply safe_bind; [apply safe_piece; dlia|]. intros c _ Hc. cbn [sc_crc32 sc_md5 safe].
    split; [apply u32_le_range|]. unfold id_ok. lia.
  - intros cs _ [H1 H2]. cbn. unfold id_ok, MAX_TOTAL_INPUT_SLICES. split_and!; [lia| |done].
    rewrite H2. unfold zlen at 1. rewrite length_seq. dlia.
Qed.

Lemma recovery_safe body : safe (RecoverySlicePacket.parse body) (fun r => packet_ok false (PRecoverySlice r)).
Proof.
  unfold RecoverySlicePacket.parse. branch. apply Z.leb_gt in Heqb. piece.
  rewrite slice_from_ok, bind_Ok by lia. cbn. split; [apply u32_le_range|]. rewrite zlen_drop by lia. lia.
Qed.
Lemma creator_safe body : safe (CreatorPacket.parse body) (fun c => True).
Proof.
  unfold CreatorPacket.parse. branch. branch. pose proof (nul_position_range body).
  rewrite slice_ok, bind_Ok by lia. exact I.
Qed.
Lemma unicode_safe body : safe (UnicodeFilenamePacket.parse body) (fun u => packet_ok false (PUnicodeFilename u)).
Proof.
  unfold UnicodeFilenamePacket.parse. branch. branch. apply Z.ltb_ge in Heqb. piece.
  rewrite slice_from_ok, bind_Ok by lia. branch. destruct (UnicodeFilenamePacket.strip_mark _) as [raw le].
  destruct (UnicodeFilenamePacket.from_utf16 _) as [text|]; [|exact I]. branch. branch. cbn. unfold id_ok.
  split; [lia|]. split; [intros Hn; by rewrite Hn in Heqb2|]. intros Hin.
  assert (existsb (Z.eqb 0) (UnicodeFilenamePacket.trim_end_nuls text) = true) as Hx
    by (apply existsb_exists; by exists 0). congruence.
Qed.

Lemma body_safe windows h body : id_ok (PacketHeader.recovery_set_id h) ->
  (forall sig, PacketHeader.packet_type h = TUnknown sig -> id_ok sig) ->
  safe (parse_packet_body windows h body) (packet_ok windows).
Proof.
  intros Hid Hsig. unfold parse_packet_body.
  destruct (PacketHeader.packet_type h) as [| | | | | |sig] eqn:Hty.
  - pose proof (main_safe body _ Hid). by destruct (MainPacket.parse _ _).
  - pose proof (file_desc_safe windows body). by destruct (FileDescriptionPacket.parse _ _).
  - pose proof (ifsc_safe body). by destruct (IfscPacket.parse _).
  - pose proof (recovery_safe body). by destruct (RecoverySlicePacket.parse _).
  - pose proof (creator_safe body). by destruct (CreatorPacket.parse _).
  - pose proof (unicode_safe body). by destruct (UnicodeFilenamePacket.parse _).
  - cbn. by apply Hsig.
Qed.

Lemma from_signature_unknown ty sig : from_signature ty = TUnknown sig -> sig = ty.
Proof. unfold from_signature. repeat case_bool_decide; try done. by intros [= ->]. Qed.

Section typed.
Context {B : Backends} {laws : BackendLaws B} (backend : Par2Md5Backend) (windows : bool).

Lemma header_safe data offset : safe (PacketHeader.parse data offset) (fun h =>
  id_ok (PacketHeader.recovery_set_id h) /\ id_ok (PacketHeader.packet_hash h) /\
  64 <= PacketHeader.length h < 2 ^ 64 /\ PacketHeader.length h mod 4 = 0 /\
  forall sig, PacketHeader.packet_type h = TUnknown sig -> id_ok sig).
Proof.
  unfold PacketHeader.parse, HEADER_SIZE. branch. apply Z.ltb_ge in Heqb. piece. branch. piece.
  branch. apply Z.ltb_ge in Heqb1. branch. apply negb_false_iff, Z.eqb_eq in Heqb2. do 3 piece.
  pose proof (u64_le_range a0). cbn. unfold id_ok. split_and!; try done; try lia.
  intros sig ->%from_signature_unknown. lia.
Qed.

Lemma validate_safe h full offset : 64 <= PacketHeader.length h -> no_panic (validate_hash backend h full offset).
Proof using laws.
  intros H. unfold validate_hash, no_panic. branch. apply Z.ltb_ge in Heqb. piece.
  rewrite md5_with_backend_ok, bind_Ok. by destruct (negb _).
Qed.

(** A packet that is returned is well formed and inside the input. *)
Lemma parse_packet_safe data offset : safe (parse_packet backend windows data offset) (fun pn =>
  packet_ok windows pn.1 /\ 64 <= pn.2 <= zlen data /\ pn.2 mod 4 = 0).
Proof using laws.
  unfold parse_packet, parse_packet_internal. eapply safe_bind; [apply header_safe|].
  intros h _ (Hid & Hhash & Hlen & H4 & Hsig). branch. apply Z.ltb_ge in Heqb. piece.
  eapply safe_bind; [by apply validate_safe; lia|]. intros u _ _. unfold HEADER_SIZE. piece.
  assert (safe (parse_packet_body windows h a0) (packet_ok windows)) as Hbody by by apply body_safe.
  destruct (PacketHeader.packet_type h); (eapply safe_bind; [exact Hbody|]; intros p _ Hp; cbn; split_and!; done || lia).
Qed.
End typed.

(** C27 (types of packets): on any input the packet parser returns a packet or
    an error, never a panic; a packet it returns satisfies its type's
    invariant (slice size positive and a multiple of four, counts within the
    limits, 16-byte digests, equal hashes for files of at most 16 KiB, a local
    name), and lies inside the input. *)
Theorem parsed_packets_well_formed {B : Backends} {laws : BackendLaws B} (backend : Par2Md5Backend) (windows : bool)
    (data : list byte) (offset : Z) :
  match parse_packet backend windows data offset with
  | Ok (p, n) => packet_ok windows p /\ 64 <= n <= zlen data /\ n mod 4 = 0
  | Err _ => True
  | Panic => False
  end.
Proof.
  pose proof (parse_packet_safe backend windows data offset) as H.
  by destruct (parse_packet _ _ _ _) as [[p n]| |].
Qed.

Lemma parser_inverts_encoder_witness :
  parse_packet BackendNative false
    (packet_bytes TYPE_CREATOR (zreplicate 16 x61) (bytes [97; 98; 99; 0]) ++ [x00]) 5
    = Ok (PCreator (CreatorPacket.mk [97; 98; 99]), 68).
Proof.
  refine (proj2 (parser_inverts_encoder (laws := reference_laws) BackendNative false _ 5 _ 68) _).
  exists TYPE_CREATOR, (zreplicate 16 x61), (bytes [97; 98; 99; 0]), [x00],
    (packet_bytes TYPE_CREATOR (zreplicate 16 x61) (bytes [97; 98; 99; 0])).
  split; [reflexivity|]. split; [reflexivity|]. split; [reflexivity|].
  split; [vm_compute; reflexivity|]. split; [reflexivity|]. split; [vm_compute; reflexivity|]. vm_compute. reflexivity.
Defined.

(** A Main packet of no files. *)
Definition empty_set_packet : list byte :=
  packet_bytes TYPE_MAIN (zreplicate 16 x61) (zreplicate 8 x04 ++ zreplicate 4 x00).

Lemma parsed_packets_well_formed_witness :
  match parse_packet (B := reference_backends) BackendRustCrypto false empty_set_packet 0 with
  | Ok (p, n) => packet_ok false p /\ 64 <= n <= zlen empty_set_packet /\ n mod 4 = 0
  | Err _ => True
  | Panic => False
  end.
Proof. exact (@parsed_packets_well_formed reference_backends reference_laws BackendRustCrypto false empty_set_packet 0). Defined.
