(* ===== verification/Par2Created.v ===== *)
(** The critical packets of a new set: what [build_critical_packets] writes,
    the parser reads back, field by field. *)
From S2P Require Import Prelude.
From S2P Require Import RarTypes.
From S2P Require Import Utf8.
From S2P Require Import Md5Spec.
From S2P Require Import Checksum.
From S2P Require Import Par2Types.
From S2P Require Import Par2Path.
From S2P Require Import Par2Packet.
From S2P Require Import Par2PacketProps.

(** * Tables of fixed-width entries *)

Lemma zlen_concat {A} w (ps : list (list A)) : Forall (fun p => zlen p = w) ps -> zlen (concat ps) = w * zlen ps.
Proof.
  induction 1 as [|p ps Hp _ IH]; cbn [concat]; [unfold zlen; simpl; lia|].
  rewrite zlen_app, zlen_cons, IH, Hp. ring.
Qed.

(** Entry [i] of the table. *)
Lemma slice_entry {E} w (ps : list (list byte)) i p a b : Forall (fun p => zlen p = w) ps -> ps !! i = Some p ->
  0 <= a -> a <= b -> b <= w ->
  slice (E := E) (concat ps) (Z.of_nat i * w + a) (Z.of_nat i * w + b) = Ok (ztake (b - a) (zdrop a p)).
Proof.
  intros Hw Hi Ha Hab Hb. rewrite <- (take_drop_middle ps i p Hi), concat_app. cbn [concat].
  assert (i < length ps)%nat by (apply lookup_lt_is_Some; by eexists).
  assert (zlen (concat (take i ps)) = Z.of_nat i * w) as Hl.
  { rewrite (zlen_concat w) by by apply Forall_take. unfold zlen. rewrite length_take, Nat.min_l by lia. lia. }
  assert (zlen p = w) as Hp by (rewrite Forall_lookup in Hw; by apply (Hw i)).
  rewrite slice_app_skip by lia. rewrite Hl. pose proof (zlen_nonneg (concat (drop (S i) ps))).
  rewrite slice_ok by (rewrite ?zlen_app; lia).
  rewrite zdrop_app_le, ztake_app_le by (rewrite ?zlen_drop by lia; lia).
  f_equal. f_equal; [lia|f_equal; lia].
Qed.

(** Read a table entry by entry. *)
Lemma mapM_entries {E A} (f : nat -> outcome E A) k (l : list A) :
  (forall i x, l !! i = Some x -> f (k + i)%nat = Ok x) -> mapM f (seq k (length l)) = Ok l.
Proof.
  revert k. induction l as [|x l IH]; intros k H; [done|]. cbn [length seq mapM].
  rewrite <- (Nat.add_0_r k) at 1. rewrite (H 0%nat x), bind_Ok by done.
  rewrite (IH (S k)), bind_Ok; [done|]. intros i y Hi.
  replace (S k + i)%nat with (k + S i)%nat by lia. by apply H.
Qed.

(** * Sources of a set *)

Definition checksum_ok (c : SliceChecksum) : Prop := 0 <= sc_crc32 c < 2 ^ 32 /\ id_ok (sc_md5 c).

(** What the creator has established of a source when it writes packets. *)
Definition source_ok (windows : bool) (s : CreationSource) : Prop :=
  id_ok (cs_file_id s) /\ id_ok (cs_hash_full s) /\ id_ok (cs_hash_16k s) /\
  0 <= cs_file_length s < 2 ^ 64 /\
  (cs_file_length s <= 16384 -> cs_hash_16k s = cs_hash_full s) /\
  safe_name windows (cs_par2_name s) /\ Forall (fun c => is_scalar c = true) (cs_par2_name s) /\ ~ In 0 (cs_par2_name s) /\
  zlen (pad_body (encode_utf8 (cs_par2_name s))) <= 100000 /\
  Forall checksum_ok (cs_slice_checksums s) /\ zlen (cs_slice_checksums s) <= MAX_TOTAL_INPUT_SLICES.

(** The packets as the reader sees them. *)
Definition desc_of (s : CreationSource) : Packet :=
  PFileDescription (FileDescriptionPacket.mk (cs_file_id s) (cs_hash_full s) (cs_hash_16k s) (cs_file_length s)
    (cs_par2_name s) (cs_par2_name s) (encode_utf8 (cs_par2_name s))).
Definition ifsc_of (s : CreationSource) : Packet :=
  PInputFileSliceChecksum (IfscPacket.mk (cs_file_id s) (cs_slice_checksums s)).
Definition main_of (slice_size : Z) (id : RecoverySetId) (sources : list CreationSource) : Packet :=
  PMain (MainPacket.mk id slice_size (cs_file_id <$> sources) []).

(** ** Padding *)

Definition padding (body : list byte) : list byte := zreplicate ((4 - zlen body mod 4) mod 4) x00.
Lemma zlen_padding body : 0 <= zlen (padding body) < 4 /\ (zlen body + zlen (padding body)) mod 4 = 0.
Proof. unfold padding. rewrite zlen_replicate by dlia. dlia. Qed.
Lemma zlen_pad_body body : zlen (pad_body body) mod 4 = 0 /\ zlen (pad_body body) < zlen body + 4.
Proof. unfold pad_body. fold (padding body). pose proof (zlen_padding body). rewrite zlen_app. lia. Qed.
Lemma pad_body_whole body : zlen body mod 4 = 0 -> pad_body body = body.
Proof. intros H. unfold pad_body. rewrite H. apply app_nil_r. Qed.
Lemma pad_body_app l k : zlen l mod 4 = 0 -> pad_body (l ++ k) = l ++ pad_body k.
Proof.
  intros H. unfold pad_body. rewrite zlen_app, <- app_assoc. do 3 f_equal.
  rewrite Zplus_mod, H, Z.add_0_l, Z.mod_mod by lia. done.
Qed.

(** The name ends at its padding. *)
Lemma nul_position_padded l body : ~ In x00 l -> nul_position (l ++ padding body) = zlen l.
Proof.
  intros Hl. induction l as [|b l IH]; cbn [nul_position app].
  - pose proof (zlen_padding body). unfold padding in *. rewrite zlen_replicate in * by dlia.
    destruct (Z.eq_dec ((4 - zlen body mod 4) mod 4) 0) as [->|]; [done|].
    rewrite zreplicate_S by lia. done.
  - destruct (Z.eqb_spec (u8 b) 0) as [Hb|_].
    + destruct Hl. simpl. left. apply u8_inj. by rewrite Hb.
    + rewrite zlen_cons, IH by (intros Hin; apply Hl; by constructor 2). done.
Qed.

(** A name without NUL is encoded without zero bytes. *)
Lemma u8_of_ne z : 0 < z < 256 -> byte_of z <> x00.
Proof. intros Hz H. apply (f_equal u8) in H. rewrite u8_byte_of_small in H by lia. change (u8 x00) with 0 in H. lia. Qed.

Lemma scalar_range c : is_scalar c = true -> 0 <= c <= 0x10ffff.
Proof.
  unfold is_scalar. intros Hs. apply orb_true_iff in Hs as [Hs|Hs]; apply andb_true_iff in Hs as [H1%Z.leb_le H2];
    [apply Z.ltb_lt in H2|apply Z.leb_le in H2]; lia.
Qed.

Lemma append_no_nul c : is_scalar c = true -> c <> 0 -> ~ In x00 (append_lenient_utf8 c).
Proof.
  intros Hs%scalar_range Hc Hin.
  rewrite append_lenient_spec in Hin.
  destruct (Z.leb_spec c 0x7f); [destruct Hin as [Hin|[]]; by apply (u8_of_ne c); [lia|]|].
  assert (forall k n, 0 < k < 256 -> 0 < n -> k + n <= 256 -> forall x, byte_of (k + x mod n) <> x00) as Hne.
  { intros k n Hk Hn Hkn x. apply u8_of_ne. pose proof (Z.mod_pos_bound x n Hn). lia. }
  destruct (c <=? 0x7ff); [|destruct (c <=? 0xffff); [|destruct (c <=? 0x10ffff)]]; cbn [In] in Hin;
    repeat (destruct Hin as [Hin|Hin]; [revert Hin; apply Hne; lia|]); done.
Qed.

Lemma encode_no_nul cs : Forall (fun c => is_scalar c = true) cs -> ~ In 0 cs -> ~ In x00 (encode_utf8 cs).
Proof.
  unfold encode_utf8. induction 1 as [|c cs Hc _ IH]; cbn [fmap list_fmap concat]; [by intros _ []|].
  intros Hn [Hin|Hin]%in_app_or.
  - apply (append_no_nul c); [done| |done]. intros ->. apply Hn. by constructor.
  - apply IH; [|done]. intros H0. apply Hn. by constructor 2.
Qed.
Lemma encode_not_nil cs : Forall (fun c => is_scalar c = true) cs -> cs <> [] -> 0 < zlen (encode_utf8 cs).
Proof.
  intros [|c cs' Hc%scalar_range _]; [done|]. intros _. unfold encode_utf8. cbn [fmap list_fmap concat].
  rewrite zlen_app. pose proof (zlen_nonneg (concat (append_lenient_utf8 <$> cs'))).
  assert (0 < zlen (append_lenient_utf8 c)); [|lia].
  rewrite append_lenient_spec. destruct (c <=? 0x7f); [done|]. destruct (c <=? 0x7ff); [done|].
  destruct (c <=? 0xffff); [done|]. by rewrite (proj2 (Z.leb_le _ _)) by lia.
Qed.

(** * Bodies read back *)

Lemma main_body_reads slice_size id sources : 0 < slice_size < 2 ^ 64 -> slice_size mod 4 = 0 ->
  Forall (fun s => id_ok (cs_file_id s)) sources -> zlen sources <= MAX_FILES_PER_SET ->
  PMain <$> MainPacket.parse (main_body slice_size sources) id = Ok (main_of slice_size id sources).
Proof.
  intros Hs Hs4 Hids Hn. unfold MAX_FILES_PER_SET in Hn. unfold main_body, MainPacket.parse.
  pose proof (zlen_nonneg sources) as Hn0. unfold wrap32. rewrite (Z.mod_small (zlen sources)) by lia.
  set (ids := cs_file_id <$> sources).
  assert (Forall (fun p => zlen p = 16) ids) as Hw by (apply Forall_fmap; exact Hids).
  assert (zlen ids = zlen sources) as Hz by (unfold zlen, ids; by rewrite length_fmap).
  assert (zlen (concat ids) = 16 * zlen sources) as Hc by (rewrite <- Hz; apply (zlen_concat 16 ids Hw)).
  pose proof (zlen_le_split 8 slice_size) as H8. pose proof (zlen_le_split 4 (zlen sources)) as H4.
  set (a := le_split 8 slice_size) in *. set (b := le_split 4 (zlen sources)) in *.
  rewrite (proj2 (Z.ltb_ge _ _)) by (rewrite !zlen_app; lia).
  assert (slice (E := par2_error) (a ++ b ++ concat ids) 0 8 = Ok a) as -> by field.
  assert (slice (E := par2_error) (a ++ b ++ concat ids) 8 12 = Ok b) as -> by field.
  rewrite app_assoc, (slice_from_app (E := par2_error)) by (rewrite zlen_app; lia).
  rewrite !bind_Ok. unfold a, b. rewrite u64_le_split, u32_le_split by lia.
  rewrite (proj2 (Z.eqb_neq _ _)), (proj2 (Z.eqb_eq _ _)) by lia. cbn [negb]. rewrite Hc.
  replace (16 * zlen sources) with (zlen sources * 16) by ring. rewrite Z.mod_mul, Z.div_mul by lia.
  rewrite (proj2 (Z.ltb_ge _ _)), (proj2 (Z.ltb_ge _ _)) by (unfold MAX_FILES_PER_SET; lia). cbn [Z.eqb negb].
  rewrite Z.sub_diag. replace (Z.to_nat (zlen sources)) with (length ids) by (unfold zlen in *; lia).
  assert (MainPacket.read_ids (concat ids) 0 (length ids) = Ok ids) as ->; [|done].
  apply mapM_entries. intros i x Hi. rewrite <- (Z.add_0_r (Z.of_nat (0 + i) * 16)) at 1.
  rewrite (slice_entry 16 ids i x 0 16) by (done || lia). f_equal.
  rewrite zdrop_0, ztake_all; [done|]. rewrite Forall_lookup in Hw. rewrite (Hw i) by done. lia.
Qed.

Lemma ifsc_body_reads s windows : source_ok windows s ->
  PInputFileSliceChecksum <$> IfscPacket.parse (ifsc_body s) = Ok (ifsc_of s).
Proof.
  intros (Hid & _ & _ & _ & _ & _ & _ & _ & _ & Hcs & Hn). unfold id_ok, MAX_TOTAL_INPUT_SLICES in *.
  unfold ifsc_body, IfscPacket.parse, IfscPacket.CHECKSUM_ENTRY_SIZE, IfscPacket.MAX_CHECKSUM_ENTRIES.
  set (entries := (fun c => sc_md5 c ++ le_split 4 (sc_crc32 c)) <$> cs_slice_checksums s).
  assert (Forall (fun p => zlen p = 20) entries) as Hw.
  { apply Forall_fmap. eapply Forall_impl; [|exact Hcs]. intros c [_ Hc]. unfold id_ok in Hc. unfold compose. cbv beta.
    rewrite zlen_app, zlen_le_split. lia. }
  pose proof (zlen_concat 20 entries Hw) as Hc. pose proof (zlen_nonneg (cs_slice_checksums s)) as Hn0.
  assert (zlen entries = zlen (cs_slice_checksums s)) as Hz by (unfold zlen, entries; by rewrite length_fmap).
  rewrite Hz in Hc. rewrite pad_body_whole by (rewrite zlen_app, Hid, Hc; dlia).
  rewrite (proj2 (Z.ltb_ge _ _)) by (rewrite zlen_app; lia).
  rewrite (slice_app_take _ _ 0), slice_from_app by lia. rewrite !bind_Ok, Hc.
  replace (20 * zlen (cs_slice_checksums s)) with (zlen (cs_slice_checksums s) * 20) by ring.
  rewrite Z.mod_mul, Z.div_mul by lia. cbn [Z.eqb negb]. rewrite (proj2 (Z.ltb_ge _ _)) by lia.
  rewrite zlen_of_nat.
  assert (mapM (IfscPacket.read_entry (concat entries)) (seq 0 (length (cs_slice_checksums s))) = Ok (cs_slice_checksums s))
    as ->; [|done].
  apply mapM_entries. intros i c Hi. unfold IfscPacket.read_entry, IfscPacket.CHECKSUM_ENTRY_SIZE.
  rewrite Forall_lookup in Hcs. destruct (Hcs i c Hi) as [Hcrc Hmd]. unfold id_ok in Hmd.
  assert (entries !! i = Some (sc_md5 c ++ le_split 4 (sc_crc32 c))) as He
    by (unfold entries; rewrite list_lookup_fmap, Hi; done).
  rewrite <- (Z.add_0_r (Z.of_nat (0 + i) * 20)) at 1.
  rewrite (slice_entry 20 entries i _ 0 16) by (done || lia). rewrite bind_Ok.
  rewrite (slice_entry 20 entries i _ 16 20) by (done || lia). rewrite bind_Ok.
  pose proof (zlen_le_split 4 (sc_crc32 c)) as H4. set (crc := le_split 4 (sc_crc32 c)) in *.
  assert (ztake (20 - 16) (zdrop 16 (sc_md5 c ++ crc)) = crc) as ->
    by (rewrite <- Hmd, zdrop_app_zlen, ztake_all by lia; done).
  assert (ztake (16 - 0) (zdrop 0 (sc_md5 c ++ crc)) = sc_md5 c) as ->
    by (rewrite zdrop_0, Z.sub_0_r, <- Hmd at 1; apply ztake_app_zlen).
  unfold crc. rewrite u32_le_split by lia. by destruct c.
Qed.

Lemma file_desc_body_reads s windows : source_ok windows s ->
  PFileDescription <$> FileDescriptionPacket.parse windows (file_desc_body s) = Ok (desc_of s).
Proof.
  intros (Hid & Hfull & H16 & Hlen & Hsmall & Hsafe & Hsc & Hnul & Hmax & _). unfold id_ok in *.
  unfold file_desc_body, FileDescriptionPacket.parse, FileDescriptionPacket.FIXED_BODY_SIZE, FileDescriptionPacket.MAX_FILENAME_BYTES.
  set (name := encode_utf8 (cs_par2_name s)) in *. pose proof (zlen_le_split 8 (cs_file_length s)) as H8.
  assert (0 < zlen name) as Hpos by (apply encode_not_nil; [done|apply Hsafe]).
  rewrite !app_assoc, pad_body_app by (rewrite !zlen_app; rewrite Hid, Hfull, H16, H8; done). rewrite <- !app_assoc.
  set (len := le_split 8 (cs_file_length s)) in *.
  assert (pad_body name = name ++ padding name) as Hpad by done.
  pose proof (zlen_nonneg (padding name)). assert (zlen (pad_body name) = zlen name + zlen (padding name)) as Hzp
    by (rewrite Hpad; apply zlen_app).
  set (padded := pad_body name) in *. set (body := cs_file_id s ++ cs_hash_full s ++ cs_hash_16k s ++ len ++ padded).
  assert (zlen body = 56 + zlen padded) as Hb by (unfold body; rewrite !zlen_app; lia).
  rewrite (proj2 (Z.leb_gt _ _)) by lia.
  assert (slice (E := par2_error) body 0 16 = Ok (cs_file_id s)) as -> by (unfold body; field).
  assert (slice (E := par2_error) body 16 32 = Ok (cs_hash_full s)) as -> by (unfold body; field).
  assert (slice (E := par2_error) body 32 48 = Ok (cs_hash_16k s)) as -> by (unfold body; field).
  assert (slice (E := par2_error) body 48 56 = Ok len) as -> by (unfold body; field).
  rewrite !bind_Ok. unfold len. rewrite u64_le_split by lia.
  assert ((cs_file_length s <=? 16384) && negb (bool_decide (cs_hash_16k s = cs_hash_full s)) = false) as ->.
  { destruct (Z.leb_spec (cs_file_length s) 16384); [|done]. by rewrite bool_decide_true by auto. }
  assert (slice_from (E := par2_error) body 56 = Ok padded) as ->.
  { unfold body. rewrite !app_assoc. apply slice_from_app. rewrite !zlen_app. lia. }
  rewrite bind_Ok, (proj2 (Z.ltb_ge _ _)) by lia. rewrite Hpad, nul_position_padded by by apply encode_no_nul.
  rewrite (proj2 (Z.eqb_neq _ _)) by lia. rewrite (slice_app_take _ _ 0), bind_Ok by done.
  unfold decode_par2_name. unfold name. rewrite from_utf8_encoded, translate_safe, bind_Ok by done. done.
Qed.

(** * The set *)

Section created.
Context {B : Backends} {laws : BackendLaws B} (backend : Par2Md5Backend) (windows : bool).

(** A packet that is read back as [p] wherever it stands. *)
Definition reads_as (packet : list byte) (p : Packet) : Prop :=
  forall rest offset, parse_packet backend windows (packet ++ rest) offset = Ok (p, zlen packet).

Lemma encoded_reads_as ty id body p : zlen ty = 16 -> zlen id = 16 -> 64 + zlen body < 2 ^ 64 -> zlen body mod 4 = 0 ->
  (forall h, PacketHeader.packet_type h = from_signature ty -> PacketHeader.recovery_set_id h = id ->
    parse_packet_body windows h body = Ok p) ->
  exists packet, encode_packet backend ty id body = Ok packet /\ reads_as packet p.
Proof using laws.
  intros Ht Hi Hn H4 Hp. exists (packet_bytes ty id body). split; [by apply encode_packet_ok|].
  intros rest offset. rewrite parse_packet_bytes, zlen_packet_bytes by done. by rewrite Hp.
Qed.

(** One packet per source. *)
Lemma each_reads_as (tag : CreationSource -> ExpectedPacket) (enc : CreationSource -> par2_result (list byte))
    (view : CreationSource -> Packet) sources :
  Forall (fun s => exists packet, enc s = Ok packet /\ reads_as packet (view s)) sources ->
  exists packets, mapM (fun s => p ← enc s; Ok (tag s, p)) sources = Ok packets /\
    Forall2 (fun s '(e, packet) => e = tag s /\ reads_as packet (view s)) sources packets.
Proof.
  intros H. apply (mapM_Forall2 _ (fun s '(e, packet) => e = tag s /\ reads_as packet (view s))).
  eapply Forall_impl; [|exact H]. intros s (packet & He & Hr). exists (tag s, packet). rewrite He. done.
Qed.

Lemma file_desc_packet id s : zlen id = 16 -> source_ok windows s ->
  exists packet, encode_packet backend TYPE_FILE_DESC id (file_desc_body s) = Ok packet /\ reads_as packet (desc_of s).
Proof using laws.
  intros Hid Hs. pose proof (file_desc_body_reads s windows Hs) as Hr.
  destruct Hs as (Hf & Hfull & H16 & _ & _ & _ & _ & _ & Hmax & _). unfold id_ok in *.
  assert (zlen (file_desc_body s) = 56 + zlen (pad_body (encode_utf8 (cs_par2_name s)))) as Hz.
  { unfold file_desc_body. rewrite !app_assoc, pad_body_app by (rewrite !zlen_app, zlen_le_split, Hf, Hfull, H16; done).
    rewrite !zlen_app, zlen_le_split, Hf, Hfull, H16. lia. }
  pose proof (zlen_pad_body (encode_utf8 (cs_par2_name s))).
  apply encoded_reads_as; [done|done|lia|rewrite Hz; dlia|].
  intros h Hty _. unfold parse_packet_body. rewrite Hty. exact Hr.
Qed.

Lemma ifsc_packet id s : zlen id = 16 -> source_ok windows s ->
  exists packet, encode_packet backend TYPE_IFSC id (ifsc_body s) = Ok packet /\ reads_as packet (ifsc_of s).
Proof using laws.
  intros Hid Hs. pose proof (ifsc_body_reads s windows Hs) as Hr.
  destruct Hs as (Hf & _ & _ & _ & _ & _ & _ & _ & _ & Hcs & Hn). unfold id_ok, MAX_TOTAL_INPUT_SLICES in *.
  set (entries := (fun c => sc_md5 c ++ le_split 4 (sc_crc32 c)) <$> cs_slice_checksums s).
  assert (zlen (concat entries) = 20 * zlen (cs_slice_checksums s)) as Hc.
  { rewrite (zlen_concat 20); [unfold zlen, entries; by rewrite length_fmap|]. apply Forall_fmap.
    eapply Forall_impl; [|exact Hcs]. intros c [_ Hc]. unfold id_ok in Hc. unfold compose.
    rewrite zlen_app, zlen_le_split. lia. }
  assert (zlen (ifsc_body s) < 20 + zlen (cs_file_id s ++ concat entries)) as Hz
    by (pose proof (zlen_pad_body (cs_file_id s ++ concat entries)); unfold ifsc_body; fold entries; lia).
  rewrite zlen_app in Hz. apply encoded_reads_as; [done|done|lia|apply zlen_pad_body|].
  intros h Hty _. unfold parse_packet_body. rewrite Hty. exact Hr.
Qed.
End created.

(** C28 (created packets): for sources whose fields are what a creator
    establishes, the critical packets are built without error, in the order
    Main, file descriptions, slice checksums, and each of them is parsed back,
    whatever follows it, to the packet holding exactly the fields written: the
    padding, the widths and the name's encoding lose nothing. *)
Theorem created_packets_parse_back {B : Backends} {laws : BackendLaws B} (backend : Par2Md5Backend) (windows : bool)
    (slice_size : Z) (id : RecoverySetId) (sources : list CreationSource) :
  zlen id = 16 -> 0 < slice_size < 2 ^ 64 -> slice_size mod 4 = 0 ->
  zlen sources <= MAX_FILES_PER_SET -> Forall (source_ok windows) sources ->
  exists main descs ifscs,
    build_critical_packets backend slice_size id sources = Ok ((EMain, main) :: descs ++ ifscs) /\
    reads_as backend windows main (main_of slice_size id sources) /\
    Forall2 (fun s '(e, packet) => e = EFileDescription (cs_file_id s) /\ reads_as backend windows packet (desc_of s))
      sources descs /\
    Forall2 (fun s '(e, packet) => e = EInputFileSliceChecksum (cs_file_id s) /\ reads_as backend windows packet (ifsc_of s))
      sources ifscs.
Proof.
  intros Hid Hs Hs4 Hn Hsrc.
  assert (Forall (fun s => id_ok (cs_file_id s)) sources) as Hids
    by (eapply Forall_impl; [|exact Hsrc]; intros s Hok; apply Hok).
  assert (zlen (main_body slice_size sources) = 12 + 16 * zlen sources) as Hm
    by (unfold main_body; rewrite !zlen_app, !zlen_le_split, (zlen_concat 16) by (apply Forall_fmap; exact Hids);
        unfold zlen; rewrite length_fmap; lia).
  unfold MAX_FILES_PER_SET in Hn. pose proof (zlen_nonneg sources).
  destruct (encoded_reads_as backend windows TYPE_MAIN id (main_body slice_size sources) (main_of slice_size id sources))
    as (main & Hmain & Hrmain); [done|done|lia|rewrite Hm; dlia| |].
  { intros h Hty Hset. unfold parse_packet_body. rewrite Hty, Hset. by apply main_body_reads. }
  destruct (each_reads_as backend windows (fun s => EFileDescription (cs_file_id s))
    (fun s => encode_packet backend TYPE_FILE_DESC id (file_desc_body s)) desc_of sources) as (descs & Hd & Hrd).
  { eapply Forall_impl; [|exact Hsrc]. intros s Hok. by apply file_desc_packet. }
  destruct (each_reads_as backend windows (fun s => EInputFileSliceChecksum (cs_file_id s))
    (fun s => encode_packet backend TYPE_IFSC id (ifsc_body s)) ifsc_of sources) as (ifscs & Hi & Hri).
  { eapply Forall_impl; [|exact Hsrc]. intros s Hok. by apply ifsc_packet. }
  exists main, descs, ifscs. unfold build_critical_packets. rewrite Hmain, bind_Ok, Hd, bind_Ok, Hi. done.
Qed.

(** A source named [a/é] of 5 bytes in two slices. *)
Definition sample_source : CreationSource :=
  mk_source [97; 47; 233] (zreplicate 16 x01) 5 (zreplicate 16 x02) (zreplicate 16 x02)
    [mk_checksum 7 (zreplicate 16 x03); mk_checksum (2 ^ 32 - 1) (zreplicate 16 x04)].

Lemma sample_source_ok : source_ok false sample_source.
Proof.
  split; [reflexivity|]. split; [reflexivity|]. split; [reflexivity|]. split; [cbn; lia|]. split; [reflexivity|].
  split.
  { split; [discriminate|]. split; [intros Hin; cbn in Hin; intuition discriminate|].
    repeat constructor; cbn; intuition discriminate. }
  split; [repeat constructor|]. split; [cbn; intuition discriminate|]. split; [vm_compute; discriminate|].
  split; [|vm_compute; discriminate].
  repeat (constructor; [split; [cbn; lia|reflexivity]|]). constructor.
Qed.

Lemma created_packets_parse_back_witness : exists main descs ifscs,
  build_critical_packets (B := reference_backends) BackendNative 4 (zreplicate 16 x05) [sample_source]
    = Ok ((EMain, main) :: descs ++ ifscs) /\
  reads_as BackendNative false main (main_of 4 (zreplicate 16 x05) [sample_source]) /\
  Forall2 (fun s '(e, packet) => e = EFileDescription (cs_file_id s) /\ reads_as BackendNative false packet (desc_of s))
    [sample_source] descs /\
  Forall2 (fun s '(e, packet) => e = EInputFileSliceChecksum (cs_file_id s) /\ reads_as BackendNative false packet (ifsc_of s))
    [sample_source] ifscs.
Proof.
  apply (@created_packets_parse_back reference_backends reference_laws BackendNative false 4 (zreplicate 16 x05) [sample_source]);
    [reflexivity|lia|reflexivity|vm_compute; discriminate|].
  constructor; [exact sample_source_ok|constructor].
Defined.
