(* ===== verification/StateM.v ===== *)
(** State with errors: code that mutates shared cells and may fail keeps what
    it wrote before it failed, so an action returns the new state next to its
    outcome. *)
From S2P Require Import Prelude.

Definition stateM (S E A : Type) : Type := S -> outcome E A * S.

#[export] Instance stateM_ret {S E} : MRet (stateM S E) := fun A a s => (Ok a, s).
#[export] Instance stateM_bind {S E} : MBind (stateM S E) := fun A B k m s =>
  match m s with
  | (Ok a, s) => k a s
  | (Err e, s) => (Err e, s)
  | (Panic, s) => (Panic, s)
  end.

Definition fails {S E A} (e : E) : stateM S E A := fun s => (Err e, s).
Definition gets {S E A} (f : S -> A) : stateM S E A := fun s => (Ok (f s), s).
Definition modify {S E} (f : S -> S) : stateM S E unit := fun s => (Ok tt, f s).
(** A computation that does not touch the state. *)
Definition lift {S E A} (m : outcome E A) : stateM S E A := fun s => (m, s).
(** An action on the first half of the state, and on the second. *)
Definition on_fst {S T E A} (m : stateM S E A) : stateM (S * T) E A :=
  fun st => let '(r, s) := m st.1 in (r, (s, st.2)).
Definition on_snd {S T E A} (m : stateM T E A) : stateM (S * T) E A :=
  fun st => let '(r, t) := m st.2 in (r, (st.1, t)).

Section run.
Context {S E : Type}.

Lemma bind_run {A B} (m : stateM S E A) (k : A -> stateM S E B) s a t : m s = (Ok a, t) -> (m ≫= k) s = k a t.
Proof. intros H. unfold mbind, stateM_bind. by rewrite H. Qed.
Lemma bind_run_err {A B} (m : stateM S E A) (k : A -> stateM S E B) s e t : m s = (Err e, t) -> (m ≫= k) s = (Err e, t).
Proof. intros H. unfold mbind, stateM_bind. by rewrite H. Qed.
Lemma bind_gets {A B} (f : S -> A) (k : A -> stateM S E B) s : (gets f ≫= k) s = k (f s) s.
Proof. done. Qed.
Lemma bind_modify {B} (f : S -> S) (k : unit -> stateM S E B) s : (modify f ≫= k) s = k tt (f s).
Proof. done. Qed.
Lemma bind_mret {A B} (a : A) (k : A -> stateM S E B) s : ((mret a : stateM S E A) ≫= k) s = k a s.
Proof. done. Qed.
End run.
