(* ===== verification/Par2Budget.v ===== *)
(** The resource budget of a packet scan, [crates/par2-rs/src/packet/budget.rs].
    A cancellation token is another thread's flag: the [k]-th poll of it
    answers [token k]. The sizes the compiler gives to structures are a
    parameter ([Layout]). The fingerprints kept for recovery payloads are not
    modelled. *)
From S2P Require Import Prelude.
From S2P Require Import RarTypes.
From S2P Require Import Utf8.
From S2P Require Import Par2Types.
From S2P Require Import Par2Packet.
From S2P Require Import StateM.

Definition MAX_RECOVERY_EXPONENT : Z := 65535.
Definition RECOVERY_EXPONENT_DOMAIN : Z := MAX_RECOVERY_EXPONENT + 1.
Definition DEFAULT_MAX_RETAINED_PACKETS : Z := 2 + 2 * MAX_FILES_PER_SET + RECOVERY_EXPONENT_DOMAIN.
Definition DEFAULT_INVENTORY_REDUNDANCY : Z := 32.
Definition DEFAULT_MAX_EXAMINED_PACKETS : Z := DEFAULT_MAX_RETAINED_PACKETS * DEFAULT_INVENTORY_REDUNDANCY.
Definition DEFAULT_MAX_RETAINED_METADATA_BYTES : Z := 128 * 1024 * 1024.
Definition RETAINED_SLOT_OVERHEAD_BYTES : Z := 64.

Record PacketScanLimits := mk_limits {
  max_retained_packets : Z;
  max_examined_packets : Z;
  max_retained_metadata_bytes : Z;
}.
Definition default_limits : PacketScanLimits :=
  mk_limits DEFAULT_MAX_RETAINED_PACKETS DEFAULT_MAX_EXAMINED_PACKETS DEFAULT_MAX_RETAINED_METADATA_BYTES.

Record PacketScanBudget := mk_budget {
  limits : PacketScanLimits;
  cancel : option (nat -> bool);
  polls : nat;
  examined : Z;
  retained_packets : Z;
  retained_bytes : Z;
}.

Definition set_polls (n : nat) (b : PacketScanBudget) : PacketScanBudget :=
  mk_budget (limits b) (cancel b) n (examined b) (retained_packets b) (retained_bytes b).
Definition set_examined (n : Z) (b : PacketScanBudget) : PacketScanBudget :=
  mk_budget (limits b) (cancel b) (polls b) n (retained_packets b) (retained_bytes b).
Definition set_packets (n : Z) (b : PacketScanBudget) : PacketScanBudget :=
  mk_budget (limits b) (cancel b) (polls b) (examined b) n (retained_bytes b).
Definition set_bytes (n : Z) (b : PacketScanBudget) : PacketScanBudget :=
  mk_budget (limits b) (cancel b) (polls b) (examined b) (retained_packets b) n.

Definition with_cancellation (limits : PacketScanLimits) (cancel : option (nat -> bool)) : PacketScanBudget :=
  mk_budget limits cancel 0 0 0 0.
Definition budget_new (limits : PacketScanLimits) : PacketScanBudget := with_cancellation limits None.

Definition budgeted : Type -> Type := stateM PacketScanBudget par2_error.

Definition check_cancelled : budgeted unit := fun b =>
  match cancel b with
  | None => (Ok tt, b)
  | Some token => (if token (polls b) then Err Cancelled else Ok tt, set_polls (S (polls b)) b)
  end.

(** [checked_add(..).ok_or_else(limit_error)]. *)
Definition checked_meter (a b : Z) : budgeted Z :=
  match checked_add_u64 a b with Some n => mret n | None => fails ResourceLimitExceeded end.

Definition charge_examined : budgeted unit :=
  _ ← check_cancelled;
  old ← gets examined;
  n ← checked_meter old 1;
  l ← gets limits;
  if max_examined_packets l <? n then fails ResourceLimitExceeded else modify (set_examined n).

Definition charge_bytes (bytes : Z) : budgeted unit :=
  _ ← check_cancelled;
  old ← gets retained_bytes;
  n ← checked_meter old bytes;
  l ← gets limits;
  if max_retained_metadata_bytes l <? n then fails ResourceLimitExceeded else modify (set_bytes n).

Definition charge_retained (bytes : Z) : budgeted unit :=
  old ← gets retained_packets;
  n ← checked_meter old 1;
  l ← gets limits;
  if max_retained_packets l <? n then fails ResourceLimitExceeded
  else _ ← charge_bytes bytes; modify (set_packets n).

Definition release_bytes (bytes : Z) : budgeted unit :=
  modify (fun b => set_bytes (sat_sub_u64 (retained_bytes b) bytes) b).
Definition release_retained (bytes : Z) : budgeted unit :=
  _ ← modify (fun b => set_packets (sat_sub_u64 (retained_packets b) 1) b);
  release_bytes bytes.

(** [size_of] of the structures the meters count. *)
Class Layout := {
  size_of_main : Z;
  size_of_file_desc : Z;
  size_of_ifsc : Z;
  size_of_recovery : Z;
  size_of_creator : Z;
  size_of_unicode : Z;
  size_of_packet : Z;
  size_of_scanned : Z;
  size_of_file_id : Z;
  size_of_checksum : Z;
}.

Definition sat_mul_u64 (a b : Z) : Z := Z.min (a * b) (2 ^ 64 - 1).
(** [String::len]. *)
Definition text_len (s : ustring) : Z := zlen (encode_utf8 s).

Definition packet_retained_bytes `{Layout} (packet : Packet) : Z :=
  let contents :=
    match packet with
    | PMain main => sat_add_u64 size_of_main
        (sat_mul_u64 (sat_add_u64 (zlen (MainPacket.recovery_file_ids main)) (zlen (MainPacket.non_recovery_file_ids main)))
          size_of_file_id)
    | PFileDescription desc => sat_add_u64 (sat_add_u64 (sat_add_u64 size_of_file_desc
        (text_len (FileDescriptionPacket.filename desc))) (text_len (FileDescriptionPacket.par2_name desc)))
        (zlen (FileDescriptionPacket.par2_name_bytes desc))
    | PInputFileSliceChecksum ifsc => sat_add_u64 size_of_ifsc
        (sat_mul_u64 (zlen (IfscPacket.checksums ifsc)) size_of_checksum)
    | PRecoverySlice _ => size_of_recovery
    | PCreator creator => sat_add_u64 size_of_creator (text_len (CreatorPacket.creator_id creator))
    | PUnicodeFilename name => sat_add_u64 size_of_unicode (sat_mul_u64 (text_len (UnicodeFilenamePacket.name name)) 5)
    | PUnknown _ body => sat_add_u64 size_of_packet (zlen body)
    end in
  sat_add_u64 contents RETAINED_SLOT_OVERHEAD_BYTES.

Example default_budget : default_limits = mk_limits 131074 4194368 134217728.
Proof. reflexivity. Qed.

(** * What the meters guarantee *)

Inductive BudgetOp :=
| Examine
| ChargeBytes (bytes : Z)
| Retain (bytes : Z)
| ReleaseBytes (bytes : Z)
| ReleaseRetained (bytes : Z).

Definition run_op (o : BudgetOp) : budgeted unit :=
  match o with
  | Examine => charge_examined
  | ChargeBytes n => charge_bytes n
  | Retain n => charge_retained n
  | ReleaseBytes n => release_bytes n
  | ReleaseRetained n => release_retained n
  end.

(** Amounts are [usize]s. *)
Definition op_ok (o : BudgetOp) : Prop :=
  match o with
  | Examine => True
  | ChargeBytes n | Retain n | ReleaseBytes n | ReleaseRetained n => 0 <= n < 2 ^ 64
  end.
Definition limits_ok (l : PacketScanLimits) : Prop :=
  0 <= max_retained_packets l < 2 ^ 64 /\ 0 <= max_examined_packets l < 2 ^ 64 /\
  0 <= max_retained_metadata_bytes l < 2 ^ 64.

Definition meters (b : PacketScanBudget) : Z * Z * Z := (examined b, retained_packets b, retained_bytes b).

Definition in_bounds (b : PacketScanBudget) : Prop :=
  0 <= examined b <= max_examined_packets (limits b) /\
  0 <= retained_packets b <= max_retained_packets (limits b) /\
  0 <= retained_bytes b <= max_retained_metadata_bytes (limits b).

(** What an operation asks for, and the plain arithmetic of its effect. *)
Definition fits (b : PacketScanBudget) (o : BudgetOp) : Prop :=
  match o with
  | Examine => examined b + 1 <= max_examined_packets (limits b)
  | ChargeBytes n => retained_bytes b + n <= max_retained_metadata_bytes (limits b)
  | Retain n => retained_packets b + 1 <= max_retained_packets (limits b) /\
      retained_bytes b + n <= max_retained_metadata_bytes (limits b)
  | ReleaseBytes _ | ReleaseRetained _ => True
  end.
Definition meters_after (b : PacketScanBudget) (o : BudgetOp) : Z * Z * Z :=
  match o with
  | Examine => (examined b + 1, retained_packets b, retained_bytes b)
  | ChargeBytes n => (examined b, retained_packets b, retained_bytes b + n)
  | Retain n => (examined b, retained_packets b + 1, retained_bytes b + n)
  | ReleaseBytes n => (examined b, retained_packets b, Z.max 0 (retained_bytes b - n))
  | ReleaseRetained n => (examined b, Z.max 0 (retained_packets b - 1), Z.max 0 (retained_bytes b - n))
  end.

(** The budgets a load can reach. *)
Inductive reachable (l : PacketScanLimits) (token : option (nat -> bool)) : PacketScanBudget -> Prop :=
| reach_new : reachable l token (with_cancellation l token)
| reach_op b o : reachable l token b -> op_ok o -> reachable l token (run_op o b).2.

(** The poll before a charge: the meters stay, and only a token cancels. *)
Lemma check_cancelled_run b : exists r n, check_cancelled b = (r, set_polls n b) /\
  (r = Ok tt \/ r = Err Cancelled /\ is_Some (cancel b)).
Proof.
  unfold check_cancelled. destruct (cancel b) as [token|] eqn:Hc.
  - exists (if token (polls b) then Err Cancelled else Ok tt), (S (polls b)). split; [done|].
    destruct (token (polls b)); [right|left]; eauto.
  - exists (Ok tt), (polls b). split; [by destruct b|by left].
Qed.

(** How an operation ends. *)
Definition op_outcome (b : PacketScanBudget) (o : BudgetOp) (r : par2_result unit) (b' : PacketScanBudget) : Prop :=
  limits b' = limits b /\ cancel b' = cancel b /\
  (r = Ok tt /\ fits b o /\ meters b' = meters_after b o \/
   r = Err ResourceLimitExceeded /\ ~ fits b o /\ meters b' = meters b \/
   r = Err Cancelled /\ is_Some (cancel b) /\ meters b' = meters b).

(** Overflow of a meter is an exceeded limit. *)
Lemma meter_step (max : PacketScanLimits -> Z) old d (k : Z -> budgeted unit) b : max (limits b) < 2 ^ 64 ->
  (n ← checked_meter old d; l ← gets limits; if max l <? n then fails ResourceLimitExceeded else k n) b =
  if max (limits b) <? old + d then (Err ResourceLimitExceeded, b) else k (old + d) b.
Proof.
  intros Hmax. unfold checked_meter, checked_add_u64. destruct (Z.ltb_spec (old + d) (2 ^ 64)).
  - rewrite (bind_run _ _ b (old + d) b), (bind_run _ _ b (limits b) b) by done. by destruct (_ <? _).
  - rewrite (bind_run_err _ _ b ResourceLimitExceeded b) by done. by rewrite (proj2 (Z.ltb_lt _ _)) by lia.
Qed.

(** The poll, then a meter. *)
Lemma polled_meter (read : PacketScanBudget -> Z) (max : PacketScanLimits -> Z) d (write : Z -> PacketScanBudget -> PacketScanBudget) b :
  max (limits b) < 2 ^ 64 -> (forall n b, read (set_polls n b) = read b) ->
  exists k,
  (_ ← check_cancelled; old ← gets read; n ← checked_meter old d; l ← gets limits;
   if max l <? n then fails ResourceLimitExceeded else modify (write n)) b =
    (Err Cancelled, set_polls k b) /\ is_Some (cancel b) \/
  (_ ← check_cancelled; old ← gets read; n ← checked_meter old d; l ← gets limits;
   if max l <? n then fails ResourceLimitExceeded else modify (write n)) b =
    if max (limits b) <? read b + d then (Err ResourceLimitExceeded, set_polls k b)
    else (Ok tt, write (read b + d) (set_polls k b)).
Proof.
  intros Hmax Hread. destruct (check_cancelled_run b) as (r & k & Hrun & [-> | [-> Hc]]); exists k.
  - right. rewrite (bind_run _ _ _ _ _ Hrun), (bind_run _ _ _ (read b) (set_polls k b)) by (unfold gets; by rewrite Hread).
    by rewrite meter_step by done.
  - left. by rewrite (bind_run_err _ _ _ _ _ Hrun).
Qed.

Lemma charge_bytes_outcome b n : limits_ok (limits b) ->
  op_outcome b (ChargeBytes n) (charge_bytes n b).1 (charge_bytes n b).2.
Proof.
  intros (_ & _ & Hl). unfold charge_bytes, op_outcome.
  destruct (polled_meter retained_bytes max_retained_metadata_bytes n set_bytes b) as (k & [[-> Hc]| ->]); [lia|done| |].
  - auto 10.
  - destruct (Z.ltb_spec (max_retained_metadata_bytes (limits b)) (retained_bytes b + n)); cbn; auto 10 with lia.
Qed.

Lemma charge_examined_outcome b : limits_ok (limits b) ->
  op_outcome b Examine (charge_examined b).1 (charge_examined b).2.
Proof.
  intros (_ & Hl & _). unfold charge_examined, op_outcome.
  destruct (polled_meter examined max_examined_packets 1 set_examined b) as (k & [[-> Hc]| ->]); [lia|done| |].
  - auto 10.
  - destruct (Z.ltb_spec (max_examined_packets (limits b)) (examined b + 1)); cbn; auto 10 with lia.
Qed.

Lemma charge_retained_outcome b n : limits_ok (limits b) ->
  op_outcome b (Retain n) (charge_retained n b).1 (charge_retained n b).2.
Proof.
  intros Hl. pose proof (charge_bytes_outcome b n Hl) as Hb. destruct Hl as (Hl & _). unfold charge_retained.
  rewrite (bind_run _ _ _ (retained_packets b) b), meter_step by (done || lia).
  destruct (Z.ltb_spec (max_retained_packets (limits b)) (retained_packets b + 1)).
  { split; [done|]. split; [done|]. right; left. cbn. split_and!; [done|lia|done]. }
  destruct (charge_bytes n b) as [r b'] eqn:Hr. destruct Hb as (Hlim & Hcan & Hcases). cbn in Hlim, Hcan, Hcases.
  destruct Hcases as [(-> & Hfit & Hm)|[(-> & Hfit & Hm)|(-> & Hc & Hm)]].
  - rewrite (bind_run _ _ _ _ _ Hr). split; [done|]. split; [done|]. left. cbn.
    injection Hm as He Hp Hy. unfold meters. cbn. rewrite He, Hy. done.
  - rewrite (bind_run_err _ _ _ _ _ Hr). split; [done|]. split; [done|]. right; left. cbn. split_and!; [done|lia|done].
  - rewrite (bind_run_err _ _ _ _ _ Hr). split; [done|]. split; [done|]. right; right. done.
Qed.

Lemma run_op_outcome b o : limits_ok (limits b) -> op_ok o -> op_outcome b o (run_op o b).1 (run_op o b).2.
Proof.
  intros Hl Ho. destruct o; cbn [run_op].
  - by apply charge_examined_outcome.
  - by apply charge_bytes_outcome.
  - by apply charge_retained_outcome.
  - split; [done|]. split; [done|]. left. cbn. unfold sat_sub_u64, meters. cbn. by rewrite Z.max_comm.
  - split; [done|]. split; [done|]. left. cbn. unfold sat_sub_u64, meters. cbn.
    by rewrite (Z.max_comm 0), (Z.max_comm 0).
Qed.

Lemma reachable_bounds l token b : limits_ok l -> reachable l token b ->
  limits b = l /\ cancel b = token /\ in_bounds b.
Proof.
  intros Hl. induction 1 as [|b o _ (Hb1 & Hb2 & Hb) Ho].
  - destruct Hl as (? & ? & ?). split; [done|]. split; [done|]. unfold in_bounds. cbn. lia.
  - pose proof (run_op_outcome b o) as H. rewrite Hb1 in H. specialize (H Hl Ho).
    destruct (run_op o b) as [r b']. cbn in *. destruct H as (Hlim & Hcan & Hcases).
    rewrite Hlim, Hcan. split; [congruence|]. split; [done|]. unfold in_bounds in *. rewrite Hlim.
    unfold meters in Hcases.
    destruct Hcases as [(_ & Hf & Hm)|[(_ & _ & Hm)|(_ & _ & Hm)]]; [|injection Hm as -> -> ->; done..].
    destruct o; cbn in *; injection Hm as -> -> ->; lia.
Qed.

(** C31 (budget bounds): in every budget a load can reach, through any sequence
    of charges and releases and with a token that fires at any poll, each
    meter is between zero and its limit; the next operation succeeds exactly
    when it fits (or is stopped by the token, never without one), moves the
    meters by exactly its amount, and when refused leaves all three as they
    were. No meter wraps around. *)
Theorem budget_stays_in_bounds (l : PacketScanLimits) (token : option (nat -> bool)) (b : PacketScanBudget) (o : BudgetOp) :
  limits_ok l -> reachable l token b -> op_ok o ->
  0 <= examined b <= max_examined_packets l /\
  0 <= retained_packets b <= max_retained_packets l /\
  0 <= retained_bytes b <= max_retained_metadata_bytes l /\
  match run_op o b with
  | (Ok _, b') => fits b o /\ meters b' = meters_after b o
  | (Err ResourceLimitExceeded, b') => ~ fits b o /\ meters b' = meters b
  | (Err Cancelled, b') => is_Some token /\ meters b' = meters b
  | _ => False
  end.
Proof.
  intros Hl Hr Ho. destruct (reachable_bounds l token b Hl Hr) as (<- & <- & Hb). destruct Hb as (? & ? & ?).
  split; [done|]. split; [done|]. split; [done|].
  pose proof (run_op_outcome b o Hl Ho) as (_ & _ & Hout). destruct (run_op o b) as [r b']. cbn in Hout.
  by destruct Hout as [(-> & Hf & Hm)|[(-> & Hf & Hm)|(-> & Hf & Hm)]].
Qed.

(** Two packets under a limit of one: the second is refused. *)
Lemma budget_stays_in_bounds_witness :
  let l := mk_limits 1 5 (2 ^ 64 - 1) in
  let b := (charge_retained 10 (budget_new l)).2 in
  0 <= examined b <= 5 /\ 0 <= retained_packets b <= 1 /\ 0 <= retained_bytes b <= 2 ^ 64 - 1 /\
  match run_op (Retain 10) b with
  | (Ok _, b') => fits b (Retain 10) /\ meters b' = meters_after b (Retain 10)
  | (Err ResourceLimitExceeded, b') => ~ fits b (Retain 10) /\ meters b' = meters b
  | (Err Cancelled, b') => is_Some (@None (nat -> bool)) /\ meters b' = meters b
  | _ => False
  end.
Proof.
  apply (budget_stays_in_bounds (mk_limits 1 5 (2 ^ 64 - 1)) None); [unfold limits_ok; cbn; lia| |cbn; lia].
  apply (reach_op _ _ _ (Retain 10)); [apply reach_new|cbn; lia].
Defined.
