(* ===== verification/Par2Scan.v ===== *)
(** The scanner of an in-memory packet stream, [crates/par2-rs/src/packet/mod.rs]:
    [find_next_magic], [scan_packets_internal] with its budget and sink, and
    the collecting sink. The record of authenticated payloads that a sink may
    keep is not modelled. *)
From S2P Require Import Prelude.
From S2P Require Import RarTypes.
From S2P Require Import Checksum.
From S2P Require Import Par2Types.
From S2P Require Import Par2Packet.
From S2P Require Import StateM.
From S2P Require Import Par2Budget.

(** [for i in 0..=data.len() - MAGIC.len()]. *)
Fixpoint magic_loop (data : list byte) (n : nat) (i : Z) : par2_result (option Z) :=
  match n with
  | O => Ok None
  | S n =>
      window ← slice data i (i + zlen MAGIC);
      if bool_decide (window = MAGIC) then Ok (Some i) else magic_loop data n (i + 1)
  end.
Definition find_next_magic (data : list byte) : par2_result (option Z) :=
  if zlen data <? zlen MAGIC then Ok None
  else magic_loop data (Z.to_nat (zlen data - zlen MAGIC + 1)) 0.

(** [trait PacketSink]: the sink shares the budget's cells with the scanner. *)
Class PacketSink (S : Type) :=
  accept : Packet -> Z -> RecoverySetId -> stateM (PacketScanBudget * S) par2_error unit.

Definition header_recovery_set_id (packet : list byte) : par2_result RecoverySetId := slice packet 32 48.

Record ScannedPacket := mk_scanned { sp_packet : Packet; sp_offset : Z; sp_recovery_set_id : RecoverySetId }.

Section scan.
Context {B : Backends} (backend : Par2Md5Backend) (windows : bool).
Context {S : Type} {sink : PacketSink S}.

(** [while pos + HEADER_SIZE <= data.len()]. *)
Fixpoint scan_loop (fuel : nat) (data : list byte) (base_offset : Z) (recovery_path : option ustring) (pos : Z)
    : stateM (PacketScanBudget * S) par2_error unit :=
  match fuel with
  | O => lift Panic
  | Datatypes.S fuel =>
      if zlen data <? pos + HEADER_SIZE then mret tt
      else
        _ ← on_fst check_cancelled;
        offset ← lift (add_u64 base_offset pos);
        rest ← lift (slice_from data pos);
        match parse_packet_internal backend windows rest offset recovery_path with
        | Ok (packet, consumed) =>
            _ ← on_fst charge_examined;
            _ ← match packet with
                | PUnknown _ _ => mret tt
                | _ => set_id ← lift (header_recovery_set_id rest); accept packet offset set_id
                end;
            scan_loop fuel data base_offset recovery_path (pos + consumed)
        | Err ResourceLimitExceeded => fails ResourceLimitExceeded
        | Err Cancelled => fails Cancelled
        | Err _ =>
            tail ← lift (slice_from data (pos + 1));
            next ← lift (find_next_magic tail);
            match next with
            | Some skip => scan_loop fuel data base_offset recovery_path (pos + (skip + 1))
            | None => mret tt
            end
        | Panic => lift Panic
        end
  end.

Definition scan_packets_internal (data : list byte) (base_offset : Z) (recovery_path : option ustring)
    : stateM (PacketScanBudget * S) par2_error unit :=
  scan_loop (Datatypes.S (length data)) data base_offset recovery_path 0.
Definition scan_packets_bounded (data : list byte) (base_offset : Z) : stateM (PacketScanBudget * S) par2_error unit :=
  scan_packets_internal data base_offset None.
End scan.

(** [try_reserve]: whether the allocator grants room for this many elements. *)
Class Allocator := try_reserve : Z -> bool.
Definition reserve_fallible {S A} `{Allocator} (v : list A) (additional : Z) : stateM S par2_error unit :=
  lift (if try_reserve (zlen v + additional) then Ok tt else Err ResourceLimitExceeded).

#[export] Instance CollectingSink `{Layout} `{Allocator} : PacketSink (list ScannedPacket) :=
  fun packet offset set_id =>
    _ ← on_fst (charge_retained (packet_retained_bytes packet));
    _ ← on_fst (charge_bytes size_of_scanned);
    packets ← gets snd;
    _ ← reserve_fallible packets 1;
    modify (fun st => (st.1, st.2 ++ [mk_scanned packet offset set_id])).

Definition scan_packets_with_limits {B : Backends} `{Layout} `{Allocator} (backend : Par2Md5Backend) (windows : bool)
    (data : list byte) (base_offset : Z) (limits : PacketScanLimits) : par2_result (list (Packet * Z)) :=
  let '(r, (_, packets)) := scan_packets_bounded backend windows data base_offset (budget_new limits, []) in
  _ ← r; Ok ((fun s => (sp_packet s, sp_offset s)) <$> packets).
Definition scan_packets {B : Backends} `{Layout} `{Allocator} (backend : Par2Md5Backend) (windows : bool)
    (data : list byte) (base_offset : Z) : par2_result (list (Packet * Z)) :=
  scan_packets_with_limits backend windows data base_offset default_limits.

(** The set of the first Main packet. *)
Fixpoint find_recovery_set_id (packets : list (Packet * Z)) : option RecoverySetId :=
  match packets with
  | [] => None
  | (PMain main, _) :: _ => Some (MainPacket.recovery_set_id main)
  | _ :: packets => find_recovery_set_id packets
  end.
