(* ===== verification/Par2ScanProps.v ===== *)
(** The in-memory scanner: it finds what trying every byte would find, its
    result is complete or an error, and every packet of a damaged stream is
    delivered in order. *)
From S2P Require Import Prelude.
From S2P Require Import RarTypes.
From S2P Require Import Checksum.
From S2P Require Import Par2Types.
From S2P Require Import Par2Packet.
From S2P Require Import Par2PacketProps.
From S2P Require Import StateM.
From S2P Require Import Par2Budget.
From S2P Require Import Par2Scan.

(** * The reference: try every position *)

Section walk.
Context {X : Type} (attempt : Z -> list X * Z) (len : Z).

(** [attempt pos]: what is found at [pos], and how far to move. *)
Fixpoint walk (fuel : nat) (pos : Z) : list X :=
  match fuel with
  | O => []
  | S fuel => if len <? pos + HEADER_SIZE then [] else (attempt pos).1 ++ walk fuel (pos + (attempt pos).2)
  end.
Definition walk_from (pos : Z) : list X := walk (S (Z.to_nat (len - pos))) pos.

Context (forward : forall pos, 1 <= (attempt pos).2).

Lemma walk_fuel fuel pos : (Z.to_nat (len - pos) < fuel)%nat -> walk fuel pos = walk_from pos.
Proof using forward.
  unfold walk_from. intros Hf. remember (S (Z.to_nat (len - pos))) as f eqn:Hf'.
  assert (Z.to_nat (len - pos) < f)%nat as H2 by lia. clear Hf'.
  revert f pos Hf H2. induction fuel as [|fuel IH]; intros f pos Hf H2; [lia|].
  destruct f as [|f]; [lia|]. cbn [walk]. unfold HEADER_SIZE. destruct (Z.ltb_spec len (pos + 64)); [done|].
  f_equal. pose proof (forward pos). apply IH; lia.
Qed.
Lemma walk_step pos :
  walk_from pos = if len <? pos + HEADER_SIZE then [] else (attempt pos).1 ++ walk_from (pos + (attempt pos).2).
Proof using forward.
  unfold walk_from at 1. cbn [walk]. destruct (Z.ltb_spec len (pos + HEADER_SIZE)) as [|Hge]; [done|].
  f_equal. unfold HEADER_SIZE in Hge. pose proof (forward pos). apply walk_fuel. lia.
Qed.
Lemma walk_end pos : len < pos + HEADER_SIZE -> walk_from pos = [].
Proof using forward. intros. rewrite walk_step. by rewrite (proj2 (Z.ltb_lt _ _)). Qed.

(** Positions where nothing is found are passed over. *)
Lemma walk_skip n pos : (forall i, pos <= i < pos + Z.of_nat n -> i + HEADER_SIZE <= len -> attempt i = ([], 1)) ->
  walk_from pos = walk_from (pos + Z.of_nat n).
Proof using forward.
  revert pos. induction n as [|n IH]; intros pos H; [f_equal; lia|].
  rewrite walk_step. destruct (Z.ltb_spec len (pos + HEADER_SIZE)).
  - symmetry. apply walk_end. lia.
  - rewrite H by lia. cbn [fst snd app]. rewrite IH; [f_equal; lia|]. intros i Hi. apply H. lia.
Qed.
End walk.

(** ** Finding the magic *)

Lemma zlen_MAGIC : zlen MAGIC = 8.
Proof. done. Qed.

(** [MAGIC] stands at [i]. *)
Definition magic_at (data : list byte) (i : Z) : Prop := ztake 8 (zdrop i data) = MAGIC.

Lemma magic_loop_spec data n i : 0 <= i -> i + Z.of_nat n + 7 <= zlen data ->
  match magic_loop data n i with
  | Ok (Some j) => i <= j < i + Z.of_nat n /\ magic_at data j /\ forall k, i <= k < j -> ~ magic_at data k
  | Ok None => forall k, i <= k < i + Z.of_nat n -> ~ magic_at data k
  | _ => False
  end.
Proof.
  revert i. induction n as [|n IH]; intros i Hi Hn; cbn [magic_loop]; [intros; lia|].
  rewrite zlen_MAGIC, slice_ok, bind_Ok by lia. replace (i + 8 - i) with 8 by lia.
  case_bool_decide as Hm; [split; [lia|]; split; [done|]; intros; lia|].
  specialize (IH (i + 1) ltac:(lia) ltac:(lia)). destruct (magic_loop data n (i + 1)) as [[j|]| |]; [|..]; try done.
  - destruct IH as (Hj & Hat & Hbefore). split; [lia|]. split; [done|]. intros k Hk.
    destruct (Z.eq_dec k i) as [-> |]; [done|]. apply Hbefore. lia.
  - intros k Hk. destruct (Z.eq_dec k i) as [-> |]; [done|]. apply IH. lia.
Qed.

(** The least position of the magic. *)
Lemma find_next_magic_spec data :
  match find_next_magic data with
  | Ok (Some j) => 0 <= j /\ j + 8 <= zlen data /\ magic_at data j /\ forall k, 0 <= k < j -> ~ magic_at data k
  | Ok None => forall k, 0 <= k -> k + 8 <= zlen data -> ~ magic_at data k
  | _ => False
  end.
Proof.
  unfold find_next_magic. rewrite zlen_MAGIC. destruct (Z.ltb_spec (zlen data) 8); [intros; lia|].
  pose proof (magic_loop_spec data (Z.to_nat (zlen data - 8 + 1)) 0 ltac:(lia) ltac:(lia)) as Hs.
  destruct (magic_loop _ _ _) as [[j|]| |]; try done.
  - destruct Hs as (? & ? & ?). split; [lia|]. split; [lia|]. done.
  - intros k Hk Hl. apply Hs. lia.
Qed.

(** Where the magic is missing nothing parses. *)
Lemma parse_needs_magic {B : Backends} backend windows data offset : ~ magic_at data 0 ->
  exists e, parse_packet backend windows data offset = Err e /\ e <> ResourceLimitExceeded /\ e <> Cancelled.
Proof.
  unfold magic_at. rewrite zdrop_0. intros Hm. unfold parse_packet, parse_packet_internal, PacketHeader.parse, HEADER_SIZE.
  destruct (Z.ltb_spec (zlen data) 64); [by eexists|].
  rewrite (slice_ok data 0 8), bind_Ok, zdrop_0 by lia. change (8 - 0) with 8. rewrite bool_decide_false by done. by eexists.
Qed.

(** * Errors of the parser *)

(** Not an error that stops a scan. *)
Definition benign {A} (m : par2_result A) : Prop :=
  match m with Err e => e <> ResourceLimitExceeded /\ e <> Cancelled | _ => True end.
Lemma benign_bind {A C} (m : par2_result A) (k : A -> par2_result C) :
  benign m -> (forall a, benign (k a)) -> benign (m ≫= k).
Proof. destruct m; simpl; auto. Qed.
Lemma benign_fmap {A C} (f : A -> C) (m : par2_result A) : benign m -> benign (f <$> m).
Proof. by destruct m. Qed.
Lemma benign_slice {A} (l : list A) a b : benign (slice l a b).
Proof. unfold slice. by destruct (_ && _ && _). Qed.
Lemma benign_slice_from {A} (l : list A) a : benign (slice_from l a).
Proof. unfold slice_from. by destruct (_ && _). Qed.
Lemma benign_mapM {A C} (f : A -> par2_result C) l : (forall x, benign (f x)) -> benign (mapM f l).
Proof. intros Hf. induction l as [|x l IH]; [done|]. apply benign_bind; [done|]. intros y. by apply benign_bind. Qed.

Ltac harmless :=
  repeat first
    [ done | apply benign_fmap | apply benign_slice | apply benign_slice_from | apply benign_mapM; intros ?
    | apply benign_bind; [|intros ?] | case_match ].

Section errors.
Context {B : Backends} {laws : BackendLaws B} (backend : Par2Md5Backend) (windows : bool).

Lemma benign_body h body : benign (parse_packet_body windows h body).
Proof.
  unfold parse_packet_body. destruct (PacketHeader.packet_type h); [| | | | | |done]; apply benign_fmap.
  - unfold MainPacket.parse, MainPacket.read_ids. harmless.
  - unfold FileDescriptionPacket.parse. harmless. rewrite Par2Path.translate_eq. by case_match.
  - unfold IfscPacket.parse, IfscPacket.read_entry. harmless.
  - unfold RecoverySlicePacket.parse. harmless.
  - unfold CreatorPacket.parse. harmless.
  - unfold UnicodeFilenamePacket.parse. harmless.
Qed.
Lemma benign_validate h full offset : benign (validate_hash backend h full offset).
Proof using laws.
  unfold validate_hash. case_match; [done|]. apply benign_bind; [apply benign_slice|]. intros input.
  rewrite md5_with_backend_ok, bind_Ok. by case_match.
Qed.
Lemma benign_parse data offset : benign (parse_packet backend windows data offset).
Proof using laws.
  unfold parse_packet, parse_packet_internal, PacketHeader.parse.
  apply benign_bind; [harmless|]. intros h. case_match; [done|]. apply benign_bind; [apply benign_slice|]. intros full.
  apply benign_bind; [apply benign_validate|]. intros _. apply benign_bind; [apply benign_slice|]. intros body.
  destruct (PacketHeader.packet_type h) eqn:Ht; (apply benign_bind; [apply benign_body|done]).
Qed.
End errors.

(** * The scan against the reference *)

(** A sink cannot change the limits or the token: they are not cells. *)
Class LawfulSink (S : Type) {sink : PacketSink S} : Prop :=
  accept_keeps p o id st : cancel (accept p o id st).2.1 = cancel st.1.

(** Two continuations that agree on what an action can leave. *)
Lemma bind_same {S E A C} (I : S -> Prop) (m : stateM S E A) (k1 k2 : A -> stateM S E C) s :
  I (m s).2 -> (forall a t, I t -> k1 a t = k2 a t) -> (m ≫= k1) s = (m ≫= k2) s.
Proof. unfold mbind, stateM_bind. destruct (m s) as [[a|e|] t]; cbn; auto. Qed.

Lemma on_fst_keeps {S A} (m : budgeted A) (st : PacketScanBudget * S) :
  cancel (m st.1).2 = cancel st.1 -> cancel (on_fst m st).2.1 = cancel st.1.
Proof. unfold on_fst. by destruct (m st.1). Qed.

Lemma not_cancelled {S} (st : PacketScanBudget * S) : cancel st.1 = None ->
  on_fst (E := par2_error) check_cancelled st = (Ok tt, st).
Proof. intros H. unfold on_fst, check_cancelled. rewrite H. by destruct st. Qed.

Lemma charge_examined_keeps b : cancel (charge_examined b).2 = cancel b.
Proof.
  unfold charge_examined, check_cancelled, checked_meter, gets, modify, fails, mbind, stateM_bind, mret, stateM_ret.
  repeat (case_match; simplify_eq/=); done.
Qed.

Lemma charge_bytes_keeps n b : cancel (charge_bytes n b).2 = cancel b.
Proof.
  unfold charge_bytes, check_cancelled, checked_meter, gets, modify, fails, mbind, stateM_bind, mret, stateM_ret.
  repeat (case_match; simplify_eq/=); done.
Qed.
Lemma charge_retained_keeps n b : cancel (charge_retained n b).2 = cancel b.
Proof.
  pose proof (charge_bytes_keeps n b) as H. unfold charge_retained, mbind, stateM_bind, gets, checked_meter, fails, mret, stateM_ret.
  destruct (charge_bytes n b) as [[|e|] b'] eqn:Hb; repeat (case_match; simplify_eq/=); done.
Qed.

(** ** What a position holds *)

Definition Found : Type := (Packet * Z * RecoverySetId)%type.

Section scan.
Context {B : Backends} {laws : BackendLaws B} (backend : Par2Md5Backend) (windows : bool).
Context (data : list byte) (base : Z).

Definition attempt (pos : Z) : list Found * Z :=
  match parse_packet backend windows (zdrop pos data) (base + pos) with
  | Ok (packet, consumed) => ([(packet, base + pos, ztake 16 (zdrop (pos + 32) data))], consumed)
  | _ => ([], 1)
  end.
(** The packets of a stream: parse at every byte, continue behind what parses. *)
Definition packets_from (pos : Z) : list Found := walk_from attempt (zlen data) pos.
Definition packets_of : list Found := packets_from 0.

Lemma attempt_forward pos : 1 <= (attempt pos).2.
Proof using laws.
  unfold attempt. pose proof (parse_packet_safe backend windows (zdrop pos data) (base + pos)) as H.
  destruct (parse_packet _ _ _ _) as [[p n]| |]; cbn in *; lia.
Qed.

Lemma attempt_no_magic pos : 0 <= pos -> ~ magic_at data pos -> attempt pos = ([], 1).
Proof using.
  intros Hp Hm. unfold attempt.
  destruct (parse_needs_magic backend windows (zdrop pos data) (base + pos)) as (e & -> & _); [|done].
  unfold magic_at in *. by rewrite zdrop_0.
Qed.

Context {S : Type} {sink : PacketSink S}.

(** What a scan does with the packets it finds. *)
Definition deliver_one (x : Found) : stateM (PacketScanBudget * S) par2_error unit :=
  let '(packet, offset, set_id) := x in
  _ ← on_fst charge_examined;
  match packet with PUnknown _ _ => mret tt | _ => accept packet offset set_id end.
Fixpoint deliver (xs : list Found) : stateM (PacketScanBudget * S) par2_error unit :=
  match xs with
  | [] => mret tt
  | x :: xs => _ ← deliver_one x; deliver xs
  end.

Context {lawful : LawfulSink S}.

Lemma deliver_one_keeps x st : cancel (deliver_one x st).2.1 = cancel st.1.
Proof using lawful.
  destruct x as [[p o] id]. unfold deliver_one, mbind, stateM_bind.
  pose proof (on_fst_keeps charge_examined st (charge_examined_keeps _)) as H.
  destruct (on_fst charge_examined st) as [[[]|e|] t]; cbn in *; [|done|done].
  destruct p; cbn; rewrite ?accept_keeps; done.
Qed.

(** The set identifier is read from the same bytes. *)
Lemma header_set_id pos : 0 <= pos -> pos + 64 <= zlen data ->
  header_recovery_set_id (zdrop pos data) = Ok (ztake 16 (zdrop (pos + 32) data)).
Proof using.
  intros. unfold header_recovery_set_id. rewrite slice_ok by (rewrite ?zlen_drop by lia; lia).
  by rewrite zdrop_zdrop by lia.
Qed.

Lemma packets_step pos : packets_from pos =
  if zlen data <? pos + HEADER_SIZE then [] else (attempt pos).1 ++ packets_from (pos + (attempt pos).2).
Proof using laws. apply walk_step, attempt_forward. Qed.

(** Passing over positions without the magic. *)
Lemma packets_skip pos n : 0 <= pos -> 0 <= n -> (forall k, pos <= k < pos + n -> k + 64 <= zlen data -> ~ magic_at data k) ->
  packets_from pos = packets_from (pos + n).
Proof using laws.
  intros Hp Hn Hm. replace n with (Z.of_nat (Z.to_nat n)) by lia. apply walk_skip; [exact attempt_forward|].
  intros i Hi Hl. apply attempt_no_magic; [lia|]. unfold HEADER_SIZE in Hl. apply Hm; lia.
Qed.

Lemma scan_loop_delivers fuel pos st : (Z.to_nat (zlen data - pos) < fuel)%nat -> 0 <= pos ->
  0 <= base -> base + zlen data < 2 ^ 64 -> cancel st.1 = None ->
  scan_loop backend windows fuel data base None pos st = deliver (packets_from pos) st.
Proof using laws lawful.
  revert pos st. induction fuel as [|fuel IH]; intros pos st Hf Hp Hb Hmax Hc; [lia|].
  rewrite packets_step. cbn [scan_loop]. destruct (Z.ltb_spec (zlen data) (pos + HEADER_SIZE)) as [|Hge]; [done|].
  unfold HEADER_SIZE in Hge. rewrite (bind_run _ _ _ _ _ (not_cancelled st Hc)).
  unfold add_u64. rewrite (proj2 (Z.ltb_lt _ _)) by lia.
  rewrite (bind_run (lift (Ok _)) _ st _ st), (slice_from_ok data pos), (bind_run (lift (Ok _)) _ st _ st) by (done || lia).
  unfold attempt.
  change (parse_packet_internal backend windows (zdrop pos data) (base + pos) None)
    with (parse_packet backend windows (zdrop pos data) (base + pos)).
  pose proof (benign_parse backend windows (zdrop pos data) (base + pos)) as Hben.
  pose proof (parse_packet_safe backend windows (zdrop pos data) (base + pos)) as Hsafe.
  destruct (parse_packet backend windows (zdrop pos data) (base + pos)) as [[p n]|e|]; [| |done]; cbn [fst snd app].
  - destruct Hsafe as (_ & Hn & _). cbn in Hn. cbn [deliver].
    transitivity ((_ ← deliver_one (p, base + pos, ztake 16 (zdrop (pos + 32) data));
      scan_loop backend windows fuel data base None (pos + n)) st).
    + unfold deliver_one, mbind, stateM_bind. destruct (on_fst charge_examined st) as [[[]|e|] t]; [|done|done].
      destruct p; rewrite ?header_set_id by lia; done.
    + apply (bind_same (fun t => cancel t.1 = None)); [by rewrite deliver_one_keeps|].
      intros [] t Ht. apply IH; lia || done.
  - assert ((tail ← lift (slice_from data (pos + 1)); next ← lift (find_next_magic tail);
      match next with
      | Some skip => scan_loop backend windows fuel data base None (pos + (skip + 1))
      | None => mret tt
      end) st = deliver (packets_from (pos + 1)) st) as Hresync.
    { rewrite slice_from_ok, (bind_run (lift (Ok _)) _ st _ st) by (done || lia).
      pose proof (find_next_magic_spec (zdrop (pos + 1) data)) as Hm. unfold magic_at in Hm.
      rewrite zlen_drop in Hm by lia.
      destruct (find_next_magic _) as [[j|]| |]; try done; rewrite (bind_run (lift (Ok _)) _ st _ st) by done.
      - destruct Hm as (Hj & Hjl & _ & Hbefore). rewrite IH by (done || lia).
        rewrite (packets_skip (pos + 1) j); [by replace (pos + 1 + j) with (pos + (j + 1)) by lia|lia|lia|]. intros k Hk Hkl. unfold magic_at.
        specialize (Hbefore (k - (pos + 1)) ltac:(lia)). rewrite zdrop_zdrop in Hbefore by lia.
        by replace (pos + 1 + (k - (pos + 1))) with k in Hbefore by lia.
      - rewrite (packets_skip (pos + 1) (zlen data - (pos + 1))); [| lia | lia |].
        + unfold packets_from. by rewrite walk_end by (exact attempt_forward || (unfold HEADER_SIZE; lia)).
        + intros k Hk Hkl. unfold magic_at. specialize (Hm (k - (pos + 1)) ltac:(lia) ltac:(lia)).
          rewrite zdrop_zdrop in Hm by lia. by replace (pos + 1 + (k - (pos + 1))) with k in Hm by lia. }
    destruct Hben as [Hr Hcan]. destruct e; done.
Qed.
End scan.

(** Scanning is trying every byte: for any sink, the scanner, which jumps
    from magic to magic, does exactly what parsing at every byte position
    and moving behind each packet would do: the same packets reach the sink,
    in the same order, with the same charges and the same final state, and the
    scan ends. *)
Theorem scan_tries_every_byte {B : Backends} {laws : BackendLaws B} (backend : Par2Md5Backend) (windows : bool)
    {S : Type} {sink : PacketSink S} {lawful : LawfulSink S} (data : list byte) (base : Z) (st : PacketScanBudget * S) :
  0 <= base -> base + zlen data < 2 ^ 64 -> cancel st.1 = None ->
  scan_packets_bounded backend windows data base st = deliver (packets_of backend windows data base) st.
Proof.
  intros Hb Hmax Hc. unfold scan_packets_bounded, scan_packets_internal.
  apply scan_loop_delivers; try done. rewrite Z.sub_0_r, zlen_of_nat. lia.
Qed.

(** * Complete or an error *)

Class LayoutOk (L : Layout) : Prop := {
  main_pos : 0 <= size_of_main; desc_pos : 0 <= size_of_file_desc; ifsc_pos : 0 <= size_of_ifsc;
  recovery_pos : 0 <= size_of_recovery; creator_pos : 0 <= size_of_creator; unicode_pos : 0 <= size_of_unicode;
  packet_pos : 0 <= size_of_packet; scanned_pos : 0 <= size_of_scanned < 2 ^ 64; file_id_pos : 0 <= size_of_file_id;
  checksum_pos : 0 <= size_of_checksum;
}.

Lemma sat_add_pos a b : 0 <= a -> 0 <= b -> 0 <= sat_add_u64 a b.
Proof. unfold sat_add_u64. lia. Qed.
Lemma sat_mul_pos a b : 0 <= a -> 0 <= b -> 0 <= sat_mul_u64 a b.
Proof. unfold sat_mul_u64. nia. Qed.
Create HintDb sizes.
#[export] Hint Resolve sat_add_pos sat_mul_pos zlen_nonneg main_pos desc_pos ifsc_pos recovery_pos creator_pos
  unicode_pos packet_pos file_id_pos checksum_pos : sizes.

#[export] Instance collecting_lawful {L : Layout} {allocator : Allocator} : LawfulSink (list ScannedPacket).
Proof.
  intros p o id [b acc]. unfold accept, CollectingSink, on_fst, mbind, stateM_bind. cbn.
  pose proof (charge_retained_keeps (packet_retained_bytes p) b) as H1.
  destruct (charge_retained _ b) as [[[]|e|] b1]; cbn in *; [|done|done].
  pose proof (charge_bytes_keeps size_of_scanned b1) as H2. destruct (charge_bytes _ b1) as [[[]|e|] b2]; cbn in *; [|congruence..].
  unfold reserve_fallible, lift, gets, modify. cbn. destruct (try_reserve _); cbn; congruence.
Qed.

Section collect.
Context {L : Layout} {layout : LayoutOk L} {allocator : Allocator}.
Context (grants : forall n, try_reserve n = true).

Lemma retained_bytes_range p : 0 <= packet_retained_bytes p < 2 ^ 64.
Proof using layout.
  split; [|unfold packet_retained_bytes, sat_add_u64 at 1; lia].
  unfold packet_retained_bytes, RETAINED_SLOT_OVERHEAD_BYTES, text_len.
  destruct p; apply sat_add_pos; try lia; eauto 10 with sizes. apply sat_add_pos; eauto with sizes.
  apply sat_mul_pos; eauto with sizes. lia.
Qed.

(** What is retained of a stream, and what it costs. *)
Definition kept (xs : list Found) : list ScannedPacket :=
  omap (fun '(packet, offset, set_id) =>
    match packet with PUnknown _ _ => None | _ => Some (mk_scanned packet offset set_id) end) xs.
Definition cost (xs : list Found) : Z :=
  foldr (fun s n => packet_retained_bytes (sp_packet s) + size_of_scanned + n) 0 (kept xs).

(** The whole stream stays within what is left of the budget. *)
Definition room (b : PacketScanBudget) (xs : list Found) : Prop :=
  examined b + zlen xs <= max_examined_packets (limits b) /\
  retained_packets b + zlen (kept xs) <= max_retained_packets (limits b) /\
  retained_bytes b + cost xs <= max_retained_metadata_bytes (limits b).

Lemma cost_pos xs : 0 <= cost xs.
Proof using layout.
  unfold cost. induction (kept xs) as [|s l IH]; cbn [foldr]; [lia|].
  pose proof (retained_bytes_range (sp_packet s)). pose proof scanned_pos. lia.
Qed.

(** The budget between two packets of a load. *)
Definition usable (b : PacketScanBudget) : Prop := limits_ok (limits b) /\ in_bounds b /\ cancel b = None.

(** An operation without a token: it goes through, or it does not fit. *)
Lemma op_runs b o : usable b -> op_ok o ->
  (exists b', run_op o b = (Ok tt, b') /\ fits b o /\ meters b' = meters_after b o /\ limits b' = limits b /\ usable b') \/
  (exists b', run_op o b = (Err ResourceLimitExceeded, b') /\ ~ fits b o).
Proof using.
  intros (Hl & Hb & Hc) Ho. pose proof (run_op_outcome b o Hl Ho) as (Hlim & Hcan & Hout).
  destruct (run_op o b) as [r b'] eqn:Hrun. cbn in *.
  destruct Hout as [(-> & Hf & Hm)|[(-> & Hf & _)|(_ & [? Hx] & _)]]; [left|right; by exists b'|congruence].
  exists b'. split_and!; try done. split; [by rewrite Hlim|]. split; [|congruence]. unfold in_bounds in *. rewrite Hlim.
  unfold meters in Hm. destruct o; cbn in *; injection Hm as -> -> ->; lia.
Qed.

(** One retained packet: both charges, and the slot in the vector. *)
Lemma collect_one b acc p o id : usable b ->
  (exists b', accept p o id (b, acc) = (Ok tt, (b', acc ++ [mk_scanned p o id])) /\ usable b' /\ limits b' = limits b /\
    retained_packets b + 1 <= max_retained_packets (limits b) /\
    meters b' = (examined b, retained_packets b + 1, retained_bytes b + (packet_retained_bytes p + size_of_scanned))) \/
  (exists st, accept p o id (b, acc) = (Err ResourceLimitExceeded, st) /\
    ~ (retained_packets b + 1 <= max_retained_packets (limits b) /\
       retained_bytes b + (packet_retained_bytes p + size_of_scanned) <= max_retained_metadata_bytes (limits b))).
Proof using layout grants.
  intros Hu. pose proof (retained_bytes_range p) as Hr. pose proof scanned_pos as Hs. unfold accept, CollectingSink.
  destruct (op_runs b (Retain (packet_retained_bytes p)) Hu Hr) as [(b1 & H1 & Hf1 & Hm1 & Hl1 & Hu1)|(b1 & H1 & Hf1)];
    cbn [run_op fits meters_after] in *.
  2: { right. exists (b1, acc). rewrite (bind_run_err _ _ (b, acc) ResourceLimitExceeded (b1, acc)) by (unfold on_fst; cbn [fst snd]; by rewrite H1).
       split; [done|]. lia. }
  rewrite (bind_run _ _ (b, acc) tt (b1, acc)) by (unfold on_fst; cbn [fst snd]; by rewrite H1).
  destruct (op_runs b1 (ChargeBytes size_of_scanned) Hu1 Hs) as [(b2 & H2 & Hf2 & Hm2 & Hl2 & Hu2)|(b2 & H2 & Hf2)];
    cbn [run_op fits meters_after] in *; rewrite Hl1 in *; injection Hm1 as He1 Hp1 Hy1; rewrite Hy1 in *.
  2: { right. exists (b2, acc). rewrite (bind_run_err _ _ (b1, acc) ResourceLimitExceeded (b2, acc)) by (unfold on_fst; cbn [fst snd]; by rewrite H2).
       split; [done|]. lia. }
  rewrite (bind_run _ _ (b1, acc) tt (b2, acc)) by (unfold on_fst; cbn [fst snd]; by rewrite H2).
  left. exists b2. rewrite (bind_run _ _ (b2, acc) acc (b2, acc)) by done. unfold reserve_fallible. rewrite grants.
  rewrite (bind_run _ _ (b2, acc) tt (b2, acc)) by done. split; [done|]. split; [done|]. split; [done|].
  split; [lia|]. rewrite Hm2, He1, Hp1. f_equal. lia.
Qed.

(** An unknown packet, or the branch for the others. *)
Lemma known_cases (p : Packet) : (exists ty body, p = PUnknown ty body) \/
  forall A (x y : A), match p with PUnknown _ _ => x | _ => y end = y.
Proof. destruct p; eauto. Qed.

Lemma collect_all xs b acc : usable b ->
  (exists b', deliver xs (b, acc) = (Ok tt, (b', acc ++ kept xs)) /\ room b xs) \/
  (exists st, deliver xs (b, acc) = (Err ResourceLimitExceeded, st) /\ ~ room b xs).
Proof using layout grants.
  revert b acc. induction xs as [|[[p o] id] xs IH]; intros b acc Hu.
  { left. exists b. cbn. rewrite app_nil_r. split; [done|]. destruct Hu as (_ & (? & ? & ?) & _).
    unfold room, cost. cbn. unfold zlen. cbn. lia. }
  cbn [deliver]. unfold deliver_one.
  pose proof (cost_pos xs) as Hcost. pose proof (zlen_nonneg xs) as Hz. pose proof (zlen_nonneg (kept xs)) as Hk.
  destruct (op_runs b Examine Hu I) as [(b1 & H1 & Hf1 & Hm1 & Hl1 & Hu1)|(b1 & H1 & Hf1)]; cbn [run_op fits meters_after] in *.
  2: { right. exists (b1, acc). rewrite (bind_run_err _ _ (b, acc) ResourceLimitExceeded (b1, acc)).
       - split; [done|]. unfold room. rewrite zlen_cons. lia.
       - apply bind_run_err. unfold on_fst. cbn [fst snd]. by rewrite H1. }
  injection Hm1 as He1 Hp1 Hy1. unfold room in *.
  assert (forall m : stateM (PacketScanBudget * list ScannedPacket) par2_error unit,
    (_ ← (_ ← on_fst charge_examined; m); deliver xs) (b, acc) = (_ ← m; deliver xs) (b1, acc)) as Hex.
  { intros m. unfold mbind, stateM_bind, on_fst at 1. cbn. by rewrite H1. }
  rewrite Hex, zlen_cons. destruct (known_cases p) as [(ty & body & ->)|Hknown].
  - rewrite (bind_run _ _ (b1, acc) tt (b1, acc)) by done. change (kept ((PUnknown ty body, o, id) :: xs)) with (kept xs).
    change (cost ((PUnknown ty body, o, id) :: xs)) with (cost xs).
    destruct (IH b1 acc Hu1) as [(b' & -> & Hroom)|(st & -> & Hroom)]; rewrite Hl1, He1, Hp1, Hy1 in Hroom;
      [left; exists b'|right; exists st]; (split; [done|lia]).
  - rewrite Hknown. assert (kept (@cons Found (p, o, id) xs) = mk_scanned p o id :: kept xs) as Hkept by (unfold kept; cbn; by rewrite Hknown).
    assert (cost (@cons Found (p, o, id) xs) = packet_retained_bytes p + size_of_scanned + cost xs) as -> by (unfold cost; by rewrite Hkept).
    rewrite Hkept, zlen_cons.
    destruct (collect_one b1 acc p o id Hu1) as [(b2 & H2 & Hu2 & Hl2 & Hfit & Hm2)|(st & H2 & Hfit)].
    + rewrite (bind_run _ _ _ _ _ H2). injection Hm2 as He2 Hp2 Hy2.
      destruct (IH b2 (acc ++ [mk_scanned p o id]) Hu2) as [(b' & -> & Hroom)|(st & -> & Hroom)];
        rewrite Hl2, Hl1, He2, Hp2, Hy2, He1, Hp1, Hy1 in Hroom; [left; exists b'|right; exists st];
        (split; [rewrite <- ?app_assoc; done|lia]).
    + rewrite (bind_run_err _ _ _ _ _ H2). right. exists st. split; [done|]. rewrite Hl1, Hp1, Hy1 in Hfit. lia.
Qed.
End collect.

(** C29 (a scan is complete or an error): scanning a buffer under limits, with
    an allocator that grants the room, returns every packet of the stream
    with its offset, in order, exactly when the stream fits the limits
    (packets examined, packets kept, bytes of metadata); otherwise it is
    [ResourceLimitExceeded], never a shortened list. *)
Theorem scan_complete_or_error {B : Backends} {laws : BackendLaws B} {L : Layout} {layout : LayoutOk L}
    {allocator : Allocator} (backend : Par2Md5Backend) (windows : bool) (data : list byte) (base : Z) (l : PacketScanLimits) :
  (forall n, try_reserve n = true) -> limits_ok l -> 0 <= base -> base + zlen data < 2 ^ 64 ->
  let found := packets_of backend windows data base in
  let fitting := zlen found <= max_examined_packets l /\ zlen (kept found) <= max_retained_packets l /\
    cost found <= max_retained_metadata_bytes l in
  match scan_packets_with_limits backend windows data base l with
  | Ok packets => fitting /\ packets = (fun s => (sp_packet s, sp_offset s)) <$> kept found
  | Err e => e = ResourceLimitExceeded /\ ~ fitting
  | Panic => False
  end.
Proof.
  intros Hg Hl Hb Hmax found fitting. unfold scan_packets_with_limits, scan_packets_bounded, scan_packets_internal.
  rewrite (@scan_loop_delivers _ _ backend windows data base _ _ collecting_lawful) by (lia || done || (rewrite Z.sub_0_r, zlen_of_nat; lia)). fold (packets_of backend windows data base).
  fold found. assert (usable (budget_new l)) as Hu
    by (destruct Hl as (? & ? & ?); unfold usable, in_bounds, limits_ok; cbn; split; [lia|split; [lia|done]]).
  destruct (collect_all Hg found (budget_new l) [] Hu) as [(b' & -> & Hroom)|(st & Heq & Hroom)].
  - rewrite bind_Ok. done.
  - rewrite Heq. by destruct st.
Qed.

(** * Streams with damage between the packets *)

Section stream.
Context {B : Backends} {laws : BackendLaws B} (backend : Par2Md5Backend) (windows : bool).

(** Bytes in which, with what follows, no packet starts: junk, a packet whose
    bytes or length were damaged, a truncated packet. *)
Definition gap (g rest : list byte) : Prop :=
  forall i offset p n, 0 <= i < zlen g -> parse_packet backend windows (zdrop i (g ++ rest)) offset <> Ok (p, n).

(** Encoded packets with gaps around them; what they hold and where. *)
Inductive stream : list byte -> Z -> list Found -> Prop :=
| stream_end g base : gap g [] -> stream g base []
| stream_packet g ty id body packet p rest base xs :
    gap g (packet ++ rest) -> zlen ty = 16 -> zlen id = 16 -> 64 + zlen body < 2 ^ 64 ->
    encode_packet backend ty id body = Ok packet ->
    parse_packet_body windows (header_of ty id body) body = Ok p ->
    stream rest (base + zlen g + zlen packet) xs ->
    stream (g ++ packet ++ rest) base ((p, base + zlen g, id) :: xs).

Lemma skip_gap pre g rest base : gap g rest ->
  packets_from backend windows (pre ++ g ++ rest) base (zlen pre) =
  packets_from backend windows (pre ++ g ++ rest) base (zlen (pre ++ g)).
Proof using laws.
  intros Hg. pose proof (zlen_nonneg g). pose proof (zlen_nonneg pre). rewrite zlen_app.
  replace (zlen g) with (Z.of_nat (Z.to_nat (zlen g))) by lia.
  apply (walk_skip _ _ (attempt_forward backend windows _ _)). intros i Hi _. unfold attempt.
  replace i with (zlen pre + (i - zlen pre)) by lia. rewrite <- zdrop_zdrop, zdrop_app_zlen by lia.
  specialize (Hg (i - zlen pre) (base + (zlen pre + (i - zlen pre)))).
  destruct (parse_packet _ _ _ _) as [[p n]| |]; try done. by destruct (Hg p n ltac:(lia)).
Qed.

Lemma stream_found suffix base xs : stream suffix base xs -> forall pre base0, base = base0 + zlen pre ->
  packets_from backend windows (pre ++ suffix) base0 (zlen pre) = xs.
Proof using laws.
  induction 1 as [g base Hg|g ty id body packet p rest base xs Hg Ht Hi Hn He Hp _ IH]; intros pre base0 ->.
  - rewrite <- (app_nil_r g) at 1. rewrite skip_gap by done. rewrite app_nil_r.
    apply walk_end; [apply (attempt_forward backend windows)|]. unfold HEADER_SIZE. lia.
  - assert (zlen body mod 4 = 0) as H4.
    { unfold encode_packet, HEADER_SIZE in He. destruct (2 ^ 64 <=? _); [done|].
      destruct (Z.eqb_spec ((64 + zlen body) mod 4) 0); [|done]. dlia. }
    rewrite encode_packet_ok in He by done. injection He as <-.
    set (packet := packet_bytes ty id body) in *.
    assert (zlen packet = 64 + zlen body) as Hz by by apply zlen_packet_bytes.
    rewrite skip_gap by done. rewrite packets_step. pose proof (zlen_nonneg rest). pose proof (zlen_nonneg body).
    set (data := pre ++ g ++ packet ++ rest).
    assert (zlen data = zlen (pre ++ g) + zlen packet + zlen rest) as Hd by (unfold data; rewrite !zlen_app; lia).
    rewrite (proj2 (Z.ltb_ge _ _)) by (unfold HEADER_SIZE; lia). unfold attempt.
    assert (zdrop (zlen (pre ++ g)) data = packet ++ rest) as Hdrop
      by (unfold data; rewrite (app_assoc pre g), zdrop_app_zlen; done).
    assert (forall offset, parse_packet backend windows (packet ++ rest) offset = Ok (p, 64 + zlen body)) as Hparse
      by (intros offset; unfold packet; by rewrite parse_packet_bytes, Hp, bind_Ok by done).
    rewrite Hdrop, !Hparse. cbn [fst snd app].
    assert (ztake 16 (zdrop (zlen (pre ++ g) + 32) data) = id) as ->.
    { pose proof (zlen_nonneg (pre ++ g)). rewrite <- zdrop_zdrop, Hdrop by lia. unfold packet, packet_bytes.
      rewrite (app_assoc MAGIC), (app_assoc (MAGIC ++ _)), <- app_assoc.
      assert (zlen ((MAGIC ++ le_split 8 (64 + zlen body)) ++ Md5Spec.md5 (id ++ ty ++ body)) = 32) as H32
        by (rewrite !zlen_app, zlen_le_split, zlen_md5; done).
      rewrite <- H32 at 1. rewrite zdrop_app_zlen, <- app_assoc, <- Hi. apply ztake_app_zlen. }
    f_equal; [do 2 f_equal; rewrite zlen_app; lia|].
    rewrite <- Hz, <- zlen_app. replace data with (((pre ++ g) ++ packet) ++ rest) by (unfold data; by rewrite <- !app_assoc).
    apply IH. rewrite !zlen_app. lia.
Qed.
End stream.

(** C30 (delivery from a damaged stream): from a stream of encoded packets with
    anything that is not a packet before, between and behind them (junk,
    damaged or truncated packets, stray magic sequences), the scanner hands
    the sink every packet exactly once, in order, with its offset and its set,
    and then returns. *)
Theorem every_packet_is_delivered {B : Backends} {laws : BackendLaws B} (backend : Par2Md5Backend) (windows : bool)
    {S : Type} {sink : PacketSink S} {lawful : LawfulSink S} (data : list byte) (base : Z) (xs : list Found)
    (st : PacketScanBudget * S) :
  stream backend windows data base xs -> 0 <= base -> base + zlen data < 2 ^ 64 -> cancel st.1 = None ->
  scan_packets_bounded backend windows data base st = deliver xs st.
Proof.
  intros Hs Hb Hmax Hc. unfold scan_packets_bounded, scan_packets_internal.
  rewrite scan_loop_delivers by (done || lia || (rewrite Z.sub_0_r, zlen_of_nat; lia)).
  f_equal. apply (stream_found backend windows data base xs Hs [] base). rewrite zlen_nil. lia.
Qed.

(** ** A small stream *)

Definition sample_layout : Layout := Build_Layout 64 160 40 64 24 40 136 168 16 20.
Lemma sample_layout_ok : LayoutOk sample_layout.
Proof. split; cbn; lia. Qed.
Definition generous : Allocator := fun _ => true.

Definition sample_packet : list byte := packet_bytes TYPE_CREATOR (zreplicate 16 x61) (bytes [97; 98; 99; 0]).
(** One byte of a magic, a Creator packet, a zero. *)
Definition sample_stream : list byte := [x50] ++ sample_packet ++ [x00].
Definition sample_found : list Found := [(PCreator (CreatorPacket.mk [97; 98; 99]), 8, zreplicate 16 x61)].

Lemma sample_stream_ok : stream (B := reference_backends) BackendNative false sample_stream 7 sample_found.
Proof.
  unfold sample_stream. eapply (stream_packet _ _ [x50] TYPE_CREATOR (zreplicate 16 x61) (bytes [97; 98; 99; 0])).
  - intros i offset p n Hi. assert (i = 0) as -> by (change (zlen [x50]) with 1 in Hi; lia). vm_compute. discriminate.
  - reflexivity.
  - reflexivity.
  - reflexivity.
  - vm_compute. reflexivity.
  - vm_compute. reflexivity.
  - apply stream_end. intros i offset p n Hi.
    assert (i = 0) as -> by (change (zlen [x00]) with 1 in Hi; lia). vm_compute. discriminate.
Qed.

Lemma scan_tries_every_byte_witness :
  scan_packets_bounded (B := reference_backends) (sink := @CollectingSink sample_layout generous) BackendNative false
    sample_stream 7 (budget_new default_limits, []) =
  deliver (sink := @CollectingSink sample_layout generous) (packets_of (B := reference_backends) BackendNative false sample_stream 7)
    (budget_new default_limits, []).
Proof.
  apply (@scan_tries_every_byte reference_backends reference_laws BackendNative false (list ScannedPacket)
    (@CollectingSink sample_layout generous) collecting_lawful sample_stream 7 (budget_new default_limits, [])); [lia|vm_compute; reflexivity|reflexivity].
Defined.

Lemma scan_complete_or_error_witness :
  let found := packets_of (B := reference_backends) BackendNative false sample_stream 7 in
  let fitting := zlen found <= 4194368 /\ zlen (kept found) <= 131074 /\ cost (L := sample_layout) found <= 134217728 in
  match @scan_packets_with_limits reference_backends sample_layout generous BackendNative false sample_stream 7 default_limits with
  | Ok packets => fitting /\ packets = (fun s => (sp_packet s, sp_offset s)) <$> kept found
  | Err e => e = ResourceLimitExceeded /\ ~ fitting
  | Panic => False
  end.
Proof.
  apply (@scan_complete_or_error reference_backends reference_laws sample_layout sample_layout_ok generous BackendNative false
    sample_stream 7 default_limits); [reflexivity|repeat split; vm_compute; congruence|lia|vm_compute; reflexivity].
Defined.

Lemma every_packet_is_delivered_witness :
  scan_packets_bounded (B := reference_backends) (sink := @CollectingSink sample_layout generous) BackendNative false
    sample_stream 7 (budget_new default_limits, []) =
  deliver (sink := @CollectingSink sample_layout generous) sample_found (budget_new default_limits, []).
Proof.
  apply (@every_packet_is_delivered reference_backends reference_laws BackendNative false (list ScannedPacket)
    (@CollectingSink sample_layout generous) collecting_lawful sample_stream 7 sample_found (budget_new default_limits, []));
    [exact sample_stream_ok|lia|vm_compute; reflexivity|reflexivity].
Defined.
