(* ===== verification/Par2Stream.v ===== *)
(** The streaming scanner of a PAR2 file, [crates/par2-rs/src/packet/mod.rs]:
    the search for the magic in a buffered reader, the authentication of a
    packet while it is read, and [scan_packets_from_path_bounded]. The file is
    its bytes; the buffered reader shows at most [fill_len k] bytes at its
    [k]-th refill. Fingerprints and cache advice have no effect on what is
    found and are not modelled. *)
From S2P Require Import Prelude.
From S2P Require Import RarTypes.
From S2P Require Import Checksum.
From S2P Require Import Par2Types.
From S2P Require Import Par2Packet.
From S2P Require Import StateM.
From S2P Require Import Par2Budget.
From S2P Require Import Par2Scan.

(** * The buffered reader *)

Record BufReader := mk_reader { contents : list byte; at_ : Z; refills : nat }.
Class Buffering := fill_len : nat -> Z.

Definition MAX_MAIN_BODY_BYTES : Z := 12 + MAX_FILES_PER_SET * 16.
Definition MAX_FILE_DESC_BODY_BYTES : Z := 56 + 100000.
Definition MAX_IFSC_BODY_BYTES : Z := 16 + 32768 * 20.
Definition MAX_CREATOR_BODY_BYTES : Z := 100000.
Definition STREAM_CHUNK : Z := 64 * 1024.

Section stream.
Context {B : Backends} {buffering : Buffering} (backend : Par2Md5Backend) (windows : bool).
Context {S : Type} {sink : PacketSink S}.

Definition World : Type := BufReader * (PacketScanBudget * S).
Definition scanning : Type -> Type := stateM World par2_error.

(** [m?] inside a [match]: the error is a value. *)
Definition caught {A} (m : scanning A) : scanning (par2_error + A) := fun w =>
  match m w with
  | (Ok a, w) => (Ok (inr a), w)
  | (Err e, w) => (Ok (inl e), w)
  | (Panic, w) => (Panic, w)
  end.
Definition poll : scanning unit := on_snd (on_fst check_cancelled).

Definition fill_buf : scanning (list byte) := on_fst (fun r =>
  (Ok (ztake (fill_len (refills r)) (zdrop (at_ r) (contents r))), mk_reader (contents r) (at_ r) (Datatypes.S (refills r)))).
Definition consume (n : Z) : scanning unit := on_fst (modify (fun r => mk_reader (contents r) (at_ r + n) (refills r))).
Definition seek (pos : Z) : scanning unit := on_fst (modify (fun r => mk_reader (contents r) pos (refills r))).
Definition read_exact (n : Z) : scanning (list byte) := on_fst (fun r =>
  if at_ r + n <=? zlen (contents r)
  then (Ok (ztake n (zdrop (at_ r) (contents r))), mk_reader (contents r) (at_ r + n) (refills r))
  else (Err (Par2Io UnexpectedEof), mk_reader (contents r) (zlen (contents r)) (refills r))).

(** ** Finding the magic *)

Definition PREFIX : list nat := [0; 0; 0; 0; 0; 1; 0; 0]%nat.

(** [while matched > 0 && byte != MAGIC[matched]]. *)
Fixpoint fall_back (fuel : nat) (byte : byte) (matched : nat) : par2_result nat :=
  match fuel with
  | O => Panic
  | Datatypes.S fuel =>
      if (matched =? 0)%nat then Ok matched
      else
        expected ← get_at MAGIC matched;
        if Byte.eqb byte expected then Ok matched
        else m ← get_at PREFIX (matched - 1); fall_back fuel byte m
  end.

(** One byte: how much of the magic is matched behind it. *)
Definition match_byte (byte : byte) (matched : nat) : par2_result nat :=
  matched ← fall_back (Datatypes.S matched) byte matched;
  expected ← get_at MAGIC matched;
  Ok (if Byte.eqb byte expected then Datatypes.S matched else matched).

(** The bytes of one buffer: what is matched, how many were consumed, and
    whether the magic ended there. *)
Fixpoint match_buffer (buf : list byte) (matched : nat) (consumed : Z) : par2_result (nat * Z * bool) :=
  match buf with
  | [] => Ok (matched, consumed, false)
  | byte :: buf =>
      matched ← match_byte byte matched;
      if (matched =? length MAGIC)%nat then Ok (matched, consumed + 1, true)
      else match_buffer buf matched (consumed + 1)
  end.

(** [offset] is threaded: the position in the file behind what was consumed. *)
Fixpoint find_loop (fuel : nat) (matched : nat) (offset : Z) : scanning (option Z * Z) :=
  match fuel with
  | O => lift Panic
  | Datatypes.S fuel =>
      _ ← poll;
      buf ← fill_buf;
      if (zlen buf =? 0) then mret (None, offset)
      else
        '(matched, consumed, ended) ← lift (match_buffer buf matched 0);
        _ ← consume consumed;
        offset ← lift (add_u64 offset consumed);
        if (ended : bool) then
          if offset <? zlen MAGIC then lift Panic else mret (Some (offset - zlen MAGIC), offset)
        else find_loop fuel matched offset
  end.
Definition find_next_magic_in_reader (offset : Z) : scanning (option Z * Z) := fun w =>
  find_loop (Datatypes.S (length (contents w.1))) 0 offset w.

(** ** Reading and hashing *)

Fixpoint hash_reader_body (fuel : nat) (hasher : Md5State) (remaining : Z) : scanning Md5State :=
  if remaining <=? 0 then mret hasher
  else match fuel with
  | O => lift Panic
  | Datatypes.S fuel =>
      _ ← poll;
      let take := Z.min remaining STREAM_CHUNK in
      buf ← read_exact take;
      hasher ← lift (md5_update hasher buf);
      hash_reader_body fuel hasher (remaining - take)
  end.

Fixpoint read_exact_cancellable (fuel : nat) (destination : list byte) (len : Z) : scanning (list byte) :=
  if len <=? zlen destination then mret destination
  else match fuel with
  | O => lift Panic
  | Datatypes.S fuel =>
      _ ← poll;
      let take := Z.min (len - zlen destination) STREAM_CHUNK in
      buf ← read_exact take;
      read_exact_cancellable fuel (destination ++ buf) len
  end.

(** Enough chunks for [n] bytes. *)
Definition chunk_fuel (n : Z) : nat := Datatypes.S (Z.to_nat (n / STREAM_CHUNK)).
Definition read_bytes (n : Z) : scanning (list byte) := read_exact_cancellable (chunk_fuel n) [] n.

Definition validate_streamed_hash (header : PacketHeader.t) (header_bytes body : list byte) (offset : Z) : par2_result unit :=
  tail ← slice header_bytes 32 HEADER_SIZE;
  hasher ← md5_update (Md5State_new backend) tail;
  hasher ← md5_update hasher body;
  computed ← md5_finalize hasher;
  if negb (bool_decide (computed = PacketHeader.packet_hash header)) then Err (PacketHashMismatch offset) else Ok tt.

Definition validate_streamed_packet_from_reader (header : PacketHeader.t) (header_bytes : list byte) (body_len offset : Z)
    : scanning unit :=
  tail ← lift (slice header_bytes 32 HEADER_SIZE);
  hasher ← lift (md5_update (Md5State_new backend) tail);
  hasher ← hash_reader_body (chunk_fuel body_len) hasher body_len;
  computed ← lift (md5_finalize hasher);
  if negb (bool_decide (computed = PacketHeader.packet_hash header)) then fails (PacketHashMismatch offset) else mret tt.

Definition max_buffered_non_recovery_body_len (packet_type : PacketType) : option Z :=
  match packet_type with
  | TMain => Some MAX_MAIN_BODY_BYTES
  | TFileDescription => Some MAX_FILE_DESC_BODY_BYTES
  | TInputFileSliceChecksum => Some MAX_IFSC_BODY_BYTES
  | TCreator => Some MAX_CREATOR_BODY_BYTES
  | TUnicodeFilename => Some UnicodeFilenamePacket.MAX_UNICODE_FILENAME_BODY_BYTES
  | TRecoverySlice | TUnknown _ => None
  end.

Definition parse_non_recovery_packet_from_reader (header : PacketHeader.t) (header_bytes : list byte) (offset : Z)
    : scanning (option Packet) :=
  body_len ← lift (PacketHeader.body_length header);
  let discard := _ ← validate_streamed_packet_from_reader header header_bytes body_len offset; mret None in
  match max_buffered_non_recovery_body_len (PacketHeader.packet_type header) with
  | None => discard
  | Some max_body_len =>
      if max_body_len <? body_len then discard
      else
        body ← read_bytes body_len;
        _ ← lift (validate_streamed_hash header header_bytes body offset);
        lift (match parse_packet_body windows header body with
              | Ok packet => Ok (Some packet)
              | Err _ => Ok None
              | Panic => Panic
              end)
  end.

Definition parse_recovery_packet_from_reader (header : PacketHeader.t) (header_bytes : list byte) (offset : Z) (path : ustring)
    : scanning Packet :=
  body_len ← lift (PacketHeader.body_length header);
  if body_len <=? 4 then fails InvalidRecoveryPacket
  else
    exponent_bytes ← read_bytes 4;
    let payload_len := body_len - 4 in
    payload_offset ← lift (add_u64 offset (HEADER_SIZE + 4));
    tail ← lift (slice header_bytes 32 HEADER_SIZE);
    hasher ← lift (md5_update (Md5State_new backend) tail);
    hasher ← lift (md5_update hasher exponent_bytes);
    hasher ← hash_reader_body (chunk_fuel payload_len) hasher payload_len;
    computed ← lift (md5_finalize hasher);
    if negb (bool_decide (computed = PacketHeader.packet_hash header)) then fails (PacketHashMismatch offset)
    else mret (PRecoverySlice (RecoverySlicePacket.mk (u32_le exponent_bytes)
      (FileBacked path payload_offset payload_len (Some (PacketHeader.packet_hash header))))).

(** ** The scan *)

Definition interned_path_bytes (path : ustring) : Z := text_len path + 2 * 8.
Definition is_recovery (ty : PacketType) : bool := match ty with TRecoverySlice => true | _ => false end.

(** The packet behind a header that fits the file. *)
Definition read_packet (header : PacketHeader.t) (header_bytes : list byte) (packet_offset : Z) (path : ustring)
    : scanning (option Packet) :=
  match PacketHeader.packet_type header with
  | TRecoverySlice => p ← parse_recovery_packet_from_reader header header_bytes packet_offset path; mret (Some p)
  | _ => parse_non_recovery_packet_from_reader header header_bytes packet_offset
  end.

(** The body of the loop for a magic at [packet_offset]; [loop] goes on from a
    position with the flag that the path has been charged. *)
Definition at_magic (loop : bool -> Z -> scanning unit) (path : ustring) (file_len : Z) (interned_path_charged : bool)
    (packet_offset : Z) : scanning unit :=
  let resync charged := _ ← seek (packet_offset + 1); loop charged (packet_offset + 1) in
  _ ← poll;
  tried ← caught (read_bytes (HEADER_SIZE - zlen MAGIC));
  match tried with
  | inl (Par2Io UnexpectedEof) => mret tt
  | inl e => fails e
  | inr tail =>
      let header_bytes := MAGIC ++ tail in
      match PacketHeader.parse header_bytes packet_offset with
      | Panic => lift Panic
      | Err _ => resync interned_path_charged
      | Ok header =>
          if match checked_add_u64 packet_offset (PacketHeader.length header) with
             | Some packet_end => file_len <? packet_end
             | None => true
             end
          then resync interned_path_charged
          else
            interned_path_charged ←
              (if is_recovery (PacketHeader.packet_type header) && negb interned_path_charged
               then _ ← on_snd (on_fst (charge_bytes (interned_path_bytes path))); mret true
               else mret interned_path_charged);
            packet ← caught (read_packet header header_bytes packet_offset path);
            match packet with
            | inr packet =>
                _ ← on_snd (on_fst charge_examined);
                _ ← match packet with
                    | Some packet => on_snd (accept packet packet_offset (PacketHeader.recovery_set_id header))
                    | None => mret tt
                    end;
                offset ← lift (add_u64 packet_offset (PacketHeader.length header));
                loop interned_path_charged offset
            | inl Cancelled => fails Cancelled
            | inl ResourceLimitExceeded => fails ResourceLimitExceeded
            | inl _ => resync interned_path_charged
            end
      end
  end.

Fixpoint path_loop (fuel : nat) (path : ustring) (file_len : Z) (interned_path_charged : bool) (offset : Z) : scanning unit :=
  match fuel with
  | O => lift Panic
  | Datatypes.S fuel =>
      '(found, _) ← find_next_magic_in_reader offset;
      match found with
      | None => mret tt
      | Some packet_offset => at_magic (path_loop fuel path file_len) path file_len interned_path_charged packet_offset
      end
  end.

(** [file]: what opening the path gives. *)
Definition scan_packets_from_path_bounded (path : ustring) (file : par2_result (list byte))
    : stateM (PacketScanBudget * S) par2_error unit := fun st =>
  match file with
  | Ok bytes =>
      let '(r, (_, st)) := path_loop (Datatypes.S (length bytes)) path (zlen bytes) false 0 (mk_reader bytes 0 0, st) in (r, st)
  | Err e => (Err e, st)
  | Panic => (Panic, st)
  end.
End stream.

Definition collect_packets_from_path {B : Backends} {buffering : Buffering} `{Layout} `{Allocator}
    (backend : Par2Md5Backend) (windows : bool) (path : ustring) (file : par2_result (list byte)) (budget : PacketScanBudget)
    : par2_result (list ScannedPacket) :=
  let '(r, (_, packets)) := scan_packets_from_path_bounded backend windows path file (budget, []) in
  _ ← r; Ok packets.
Definition scan_packets_from_path_with_set_ids_limited {B : Backends} {buffering : Buffering} `{Layout} `{Allocator}
    (backend : Par2Md5Backend) (windows : bool) (path : ustring) (file : par2_result (list byte)) (limits : PacketScanLimits)
    : par2_result (list ScannedPacket) :=
  collect_packets_from_path backend windows path file (budget_new limits).
Definition scan_packets_from_path {B : Backends} {buffering : Buffering} `{Layout} `{Allocator}
    (backend : Par2Md5Backend) (windows : bool) (path : ustring) (file : par2_result (list byte))
    : par2_result (list (Packet * Z)) :=
  (fun packets => (fun s => (sp_packet s, sp_offset s)) <$> (packets : list ScannedPacket))
    <$> scan_packets_from_path_with_set_ids_limited backend windows path file default_limits.
