(* ===== verification/Par2StreamProps.v ===== *)
(** The streaming scanner: the search for the magic is the least position
    whatever the buffering, and the scan is the reference walk over the file's
    bytes, so the two scanners find the same packets. *)
From S2P Require Import Prelude.
From S2P Require Import RarTypes.
From S2P Require Import Md5Spec.
From S2P Require Import Checksum.
From S2P Require Import Par2Types.
From S2P Require Import Par2Packet.
From S2P Require Import Par2PacketProps.
From S2P Require Import StateM.
From S2P Require Import Par2Budget.
From S2P Require Import Par2Scan.
From S2P Require Import Par2ScanProps.
From S2P Require Import Par2Stream.

(** * The magic across buffers *)

(** [m] bytes of the magic end the text [t], and no more do. *)
Definition longest (m : nat) (t : list byte) : Prop :=
  take m MAGIC `suffix_of` t /\ forall k, (m < k <= 8)%nat -> ~ take k MAGIC `suffix_of` t.

(** Behind [m] matched bytes and one more, the longest match is computed. *)
Definition step_ok (m : nat) (b : byte) : bool :=
  match match_byte b m with
  | Ok m' => bool_decide (m' <= S m)%nat && bool_decide (take m' MAGIC `suffix_of` take m MAGIC ++ [b]) &&
      forallb (fun k => negb (bool_decide (take k MAGIC `suffix_of` take m MAGIC ++ [b]))) (seq (S m') (8 - m'))
  | _ => false
  end.
Definition all_bytes : list byte := (fun i => byte_of (Z.of_nat i)) <$> seq 0 256.

Lemma all_bytes_in b : In b all_bytes.
Proof.
  pose proof (u8_range b). apply in_map_iff. exists (Z.to_nat (u8 b)). split.
  - rewrite Z2Nat.id by lia. apply byte_of_u8.
  - apply in_seq. lia.
Qed.

Lemma steps_ok : forallb (fun m => forallb (step_ok m) all_bytes) (seq 0 8) = true.
Proof. vm_compute. reflexivity. Qed.

Lemma match_byte_spec m b : (m < 8)%nat -> exists m', match_byte b m = Ok m' /\ (m' <= S m)%nat /\
  take m' MAGIC `suffix_of` take m MAGIC ++ [b] /\
  forall k, (m' < k <= 8)%nat -> ~ take k MAGIC `suffix_of` take m MAGIC ++ [b].
Proof.
  intros Hm. pose proof steps_ok as H. rewrite forallb_forall in H. specialize (H m ltac:(apply in_seq; lia)).
  rewrite forallb_forall in H. specialize (H b (all_bytes_in b)). unfold step_ok in H.
  destruct (match_byte b m) as [m'| |]; try done. exists m'.
  apply andb_true_iff in H as [H Hk]. apply andb_true_iff in H as [Hle%bool_decide_eq_true Hs%bool_decide_eq_true].
  split; [done|]. split; [done|]. split; [done|]. intros k Hkr Hsuf. rewrite forallb_forall in Hk.
  specialize (Hk k ltac:(apply in_seq; lia)). apply negb_true_iff, bool_decide_eq_false in Hk. done.
Qed.

(** Two suffixes of one list: the shorter is a suffix of the longer. *)
Lemma suffix_suffix {A} (a b t : list A) : a `suffix_of` t -> b `suffix_of` t -> (length a <= length b)%nat ->
  a `suffix_of` b.
Proof.
  intros [x ->] [y Hy] Hl. assert (length y <= length x)%nat.
  { apply (f_equal length) in Hy. rewrite !length_app in Hy. lia. }
  exists (drop (length y) x). apply (f_equal (drop (length y))) in Hy.
  rewrite drop_app_le, drop_app_length in Hy by lia. done.
Qed.
Lemma suffix_snoc_inv {A} (a t : list A) x : a `suffix_of` t ++ [x] -> a = [] \/ exists a', a = a' ++ [x] /\ a' `suffix_of` t.
Proof.
  intros [y Hy]. destruct a as [|z a' _] using rev_ind; [by left|right].
  rewrite app_assoc in Hy. apply app_inj_tail in Hy as [-> ->]. exists a'. split; [done|]. by exists y.
Qed.
Lemma suffix_snoc {A} (a t : list A) x : a `suffix_of` t -> a ++ [x] `suffix_of` t ++ [x].
Proof. intros [y ->]. exists y. by rewrite app_assoc. Qed.

Lemma length_take_MAGIC k : (k <= 8)%nat -> length (take k MAGIC) = k.
Proof. intros. rewrite length_take. change (length MAGIC) with 8%nat. lia. Qed.

(** What ends the text and a byte ends what was matched and the byte. *)
Lemma suffix_matched m t b k : longest m t -> (m < 8)%nat -> (k <= 8)%nat ->
  take k MAGIC `suffix_of` t ++ [b] <-> take k MAGIC `suffix_of` take m MAGIC ++ [b].
Proof.
  intros [Hs Hmax] Hm Hk. split.
  - intros H. apply suffix_snoc_inv in H as [-> |(a & Ha & Hat)]; [apply suffix_nil|]. rewrite Ha. apply suffix_snoc.
    assert (length a = k - 1)%nat as Hla
      by (apply (f_equal length) in Ha; rewrite length_app, length_take_MAGIC in Ha by done; cbn in Ha; lia).
    assert (1 <= k)%nat as H1 by (apply (f_equal length) in Ha; rewrite length_app, length_take_MAGIC in Ha by done; cbn in Ha; lia).
    assert (a = take (k - 1) MAGIC) as ->.
    { transitivity (take (k - 1) (take k MAGIC)); [rewrite Ha, <- Hla, take_app_length; done|].
      rewrite take_take. f_equal. lia. }
    apply (suffix_suffix _ _ t); [done|done|]. rewrite !length_take_MAGIC by lia.
    destruct (Nat.le_gt_cases (k - 1) m); [done|]. by destruct (Hmax (k - 1)%nat ltac:(lia)).
  - intros H. etrans; [exact H|]. by apply suffix_snoc.
Qed.

Lemma match_byte_longest m t b : longest m t -> (m < 8)%nat ->
  exists m', match_byte b m = Ok m' /\ (m' <= 8)%nat /\ longest m' (t ++ [b]).
Proof.
  intros Hl Hm. destruct (match_byte_spec m b Hm) as (m' & -> & Hle & Hs & Hmax). exists m'.
  split; [done|]. split; [lia|]. split.
  - apply (suffix_matched m t b m'); [done|done|lia|done].
  - intros k Hk Hsuf. apply (Hmax k Hk). apply (suffix_matched m t b k); [done|done|lia|done].
Qed.

Lemma longest_nil : longest 0 [].
Proof. split; [apply suffix_nil|]. intros k Hk [x Hx]. apply (f_equal length) in Hx. rewrite length_app, length_take_MAGIC in Hx by lia. cbn in Hx. lia. Qed.

(** A buffer behind the text [t]: the magic ends at its first end, or it does
    not end in it. *)
Lemma match_buffer_spec buf m t consumed : longest m t -> (m < 8)%nat -> 0 <= consumed ->
  exists m' n ended, match_buffer buf m consumed = Ok (m', consumed + Z.of_nat n, ended) /\ (n <= length buf)%nat /\
    (forall k, (0 < k < n)%nat -> ~ MAGIC `suffix_of` t ++ take k buf) /\
    if (ended : bool) then (0 < n)%nat /\ MAGIC `suffix_of` t ++ take n buf
    else n = length buf /\ (m' < 8)%nat /\ longest m' (t ++ buf) /\ ((0 < n)%nat -> ~ MAGIC `suffix_of` t ++ buf).
Proof.
  revert m t consumed. induction buf as [|b buf IH]; intros m t consumed Hl Hm Hc; cbn [match_buffer].
  { exists m, 0%nat, false. rewrite app_nil_r. split; [do 3 f_equal; lia|]. split; [done|]. split; [lia|].
    split; [done|]. split; [done|]. split; [done|lia]. }
  destruct (match_byte_longest m t b Hl Hm) as (m1 & -> & Hm1 & Hl1). rewrite bind_Ok.
  change (length MAGIC) with 8%nat. destruct (Nat.eqb_spec m1 8) as [-> |Hne].
  - exists 8%nat, 1%nat, true. split; [do 3 f_equal; lia|]. split; [cbn; lia|]. split; [lia|]. split; [lia|].
    destruct Hl1 as [Hs _]. done.
  - destruct (IH m1 (t ++ [b]) (consumed + 1) Hl1 ltac:(lia) ltac:(lia)) as (m' & n & ended & -> & Hn & Hbefore & Hend).
    assert (~ MAGIC `suffix_of` t ++ [b]) as Hfirst by (destruct Hl1 as [_ Hmax]; apply (Hmax 8%nat); lia).
    assert (forall k, t ++ take (S k) (b :: buf) = (t ++ [b]) ++ take k buf) as Htake by (intros; cbn [take]; by rewrite <- app_assoc).
    exists m', (S n), ended. split; [do 3 f_equal; lia|]. split; [cbn; lia|]. split.
    + intros [|[|k]] Hk; [lia| |].
      * rewrite Htake, take_0, app_nil_r. done.
      * rewrite Htake. apply Hbefore. lia.
    + destruct ended.
      * split; [lia|]. rewrite Htake. apply Hend.
      * destruct Hend as (-> & Hm' & Hl' & Hno). rewrite <- app_assoc in Hl', Hno. cbn [app] in Hl', Hno.
        split; [done|]. split; [done|]. split; [done|]. intros _. destruct buf; [done|]. apply Hno. cbn. lia.
Qed.

(** * The search in the file *)

(** A refill shows something, unless the file has ended. *)
Class BufferingOk {buffering : Buffering} : Prop := fill_pos k : 1 <= fill_len k.

Definition span (data : list byte) (q e : Z) : list byte := ztake (e - q) (zdrop q data).

Lemma zlen_span data q e : 0 <= q <= e -> e <= zlen data -> zlen (span data q e) = e - q.
Proof. intros. unfold span. rewrite zlen_take, zlen_drop by lia. lia. Qed.
Lemma span_app data q c e : 0 <= q <= c -> c <= e -> span data q c ++ span data c e = span data q e.
Proof.
  intros. unfold span. replace c with (q + (c - q)) at 3 by lia. rewrite <- zdrop_zdrop by lia.
  set (d := zdrop q data). replace (e - c) with (e - q - (c - q)) by lia. rewrite !ztake_nat, zdrop_nat by lia.
  rewrite <- (take_drop (Z.to_nat (c - q)) (take (Z.to_nat (e - q)) d)) at 1. rewrite take_take.
  rewrite Nat.min_l by lia. f_equal. rewrite skipn_firstn_comm. f_equal. lia.
Qed.

Lemma span_nil data p : span data p p = [].
Proof. unfold span. rewrite Z.sub_diag. by rewrite ztake_nat by lia. Qed.

Lemma magic_ends data q e : 0 <= q <= e -> e <= zlen data ->
  MAGIC `suffix_of` span data q e <-> q <= e - 8 /\ magic_at data (e - 8).
Proof.
  intros Hq He. split.
  - intros [x Hx]. pose proof (zlen_span data q e ltac:(lia) He) as Hz. rewrite Hx, zlen_app, zlen_MAGIC in Hz.
    pose proof (zlen_nonneg x). split; [lia|]. unfold magic_at.
    assert (span data q (e - 8) = x /\ span data (e - 8) e = MAGIC) as [_ Hm].
    { apply app_inj_1; [|by rewrite span_app, Hx by lia].
      pose proof (zlen_span data q (e - 8) ltac:(lia) ltac:(lia)). unfold zlen in *. lia. }
    unfold span in Hm. by replace (e - (e - 8)) with 8 in Hm by lia.
  - intros [Hle Hm]. exists (span data q (e - 8)). rewrite <- (span_app data q (e - 8) e) by lia. f_equal.
    unfold span. replace (e - (e - 8)) with 8 by lia. done.
Qed.

Section find.
Context {buffering : Buffering} {buffering_ok : BufferingOk} {S : Type} (data : list byte).
Context (st : PacketScanBudget * S) (Hc : cancel st.1 = None) (Hbig : zlen data < 2 ^ 64).

Lemma poll_run (r : BufReader) : poll (S := S) (r, st) = (Ok tt, (r, st)).
Proof using Hc. unfold poll, on_snd. cbn [snd fst]. by rewrite not_cancelled. Qed.

Lemma find_loop_spec fuel m cur q k : (Z.to_nat (zlen data - cur) < fuel)%nat -> 0 <= q <= cur -> cur <= zlen data ->
  longest m (span data q cur) -> (m < 8)%nat -> (forall i, q <= i -> i + 8 <= cur -> ~ magic_at data i) ->
  exists res off k', find_loop (S := S) fuel m cur (mk_reader data cur k, st) = (Ok (res, off), (mk_reader data off k', st)) /\
    match res with
    | Some j => q <= j /\ off = j + 8 /\ off <= zlen data /\ magic_at data j /\ forall i, q <= i < j -> ~ magic_at data i
    | None => forall i, q <= i -> i + 8 <= zlen data -> ~ magic_at data i
    end.
Proof using buffering_ok Hc Hbig.
  revert m cur k. induction fuel as [|fuel IH]; intros m cur k Hf Hq Hcur Hl Hm Hno; [lia|].
  cbn [find_loop]. rewrite (bind_run _ _ _ _ _ (poll_run _)).
  set (buf := ztake (fill_len k) (zdrop cur data)). pose proof (fill_pos k) as Hk.
  rewrite (bind_run fill_buf _ _ buf (mk_reader data cur (Datatypes.S k), st)) by done.
  assert (zlen buf = Z.min (fill_len k) (zlen data - cur)) as Hz
    by (unfold buf; rewrite zlen_take, zlen_drop by lia; lia).
  destruct (Z.eqb_spec (zlen buf) 0) as [H0|Hne].
  { exists None, cur, (Datatypes.S k). split; [done|]. intros i Hi Hi8. apply Hno; lia. }
  destruct (match_buffer_spec buf m (span data q cur) 0 Hl Hm ltac:(lia)) as (m' & n & ended & Hrun & Hn & Hbefore & Hend).
  rewrite (bind_run (lift _) _ _ (m', 0 + Z.of_nat n, ended) _) by (unfold lift; by rewrite Hrun).
  rewrite (bind_run (consume _) _ _ tt (mk_reader data (cur + (0 + Z.of_nat n)) (Datatypes.S k), st)) by done.
  rewrite Z.add_0_l.
  assert (Z.of_nat n <= zlen buf) as Hnz by (unfold zlen; lia).
  rewrite (bind_run (lift _) _ _ (cur + Z.of_nat n) (mk_reader data (cur + Z.of_nat n) (Datatypes.S k), st))
    by (unfold lift, add_u64; by rewrite (proj2 (Z.ltb_lt _ _)) by lia).
  assert (forall j, (j <= length buf)%nat -> span data q cur ++ take j buf = span data q (cur + Z.of_nat j)) as Hspan.
  { intros j Hj. rewrite <- (span_app data q cur (cur + Z.of_nat j)) by lia. f_equal. unfold buf, span.
    rewrite !ztake_nat by lia. rewrite take_take. f_equal. unfold zlen in Hz. lia. }
  assert (forall i j, (0 < j < n)%nat -> i + 8 = cur + Z.of_nat j -> q <= i -> ~ magic_at data i) as Hinner.
  { intros i j Hj Hij Hi Hat. apply (Hbefore j Hj). rewrite Hspan by lia. apply magic_ends; [lia|unfold zlen in *; lia|].
    replace (cur + Z.of_nat j - 8) with i by lia. split; [lia|done]. }
  destruct ended.
  - destruct Hend as [Hn0 Hs]. rewrite Hspan in Hs by lia. apply magic_ends in Hs as [Hle Hat]; [|lia|lia].
    rewrite zlen_MAGIC, (proj2 (Z.ltb_ge _ _)) by lia.
    exists (Some (cur + Z.of_nat n - 8)), (cur + Z.of_nat n), (Datatypes.S k). split; [done|].
    split; [lia|]. split; [lia|]. split; [lia|]. split; [done|]. intros i Hi Hat'.
    destruct (Z.le_gt_cases (i + 8) cur); [apply (Hno i); [lia|lia|done]|].
    apply (Hinner i (Z.to_nat (i + 8 - cur))); [lia|lia|lia|done].
  - destruct Hend as (Hnl & Hm' & Hl' & Hlast).
    assert (span data q cur ++ buf = span data q (cur + Z.of_nat n)) as Hall
      by (rewrite <- Hspan, Hnl, take_ge by lia; done).
    rewrite Hall in Hl', Hlast. apply IH; [unfold zlen in *; lia|lia|lia|done|done|].
    intros i Hi Hi8 Hat. destruct (Z.le_gt_cases (i + 8) cur); [apply (Hno i); [lia|lia|done]|].
    destruct (Z.eq_dec (i + 8) (cur + Z.of_nat n)) as [He|].
    + apply Hlast; [unfold zlen in *; lia|]. apply magic_ends; [lia|lia|].
      replace (cur + Z.of_nat n - 8) with i by lia. split; [lia|done].
    + apply (Hinner i (Z.to_nat (i + 8 - cur))); [lia|lia|lia|done].
Qed.

Lemma find_next_magic_in_reader_spec q k : 0 <= q <= zlen data ->
  exists res off k', find_next_magic_in_reader (S := S) q (mk_reader data q k, st) = (Ok (res, off), (mk_reader data off k', st)) /\
    match res with
    | Some j => q <= j /\ off = j + 8 /\ off <= zlen data /\ magic_at data j /\ forall i, q <= i < j -> ~ magic_at data i
    | None => forall i, q <= i -> i + 8 <= zlen data -> ~ magic_at data i
    end.
Proof using buffering_ok Hc Hbig.
  intros Hq. unfold find_next_magic_in_reader. cbn [contents fst]. apply find_loop_spec; try lia.
  - unfold zlen. lia.
  - rewrite span_nil. exact longest_nil.
Qed.
End find.

(** * Reading and hashing *)

(** A computed value in front of a reading action. *)
Ltac run_ok := match goal with |- context [@mbind ?M ?I ?A ?C ?k (@lift ?S ?E ?A' (Ok ?a))] =>
  change (@mbind M I A C k (@lift S E A' (Ok a))) with (k a); cbv beta end.

Section read.
Context {B : Backends} {laws : BackendLaws B} {buffering : Buffering} {S : Type} (data : list byte).
Context (st : PacketScanBudget * S) (Hc : cancel st.1 = None).

Lemma read_exact_run p n k : p + n <= zlen data ->
  read_exact (S := S) n (mk_reader data p k, st) = (Ok (span data p (p + n)), (mk_reader data (p + n) k, st)).
Proof using.
  intros H. unfold read_exact, on_fst. cbn. rewrite (proj2 (Z.leb_le _ _)) by lia. unfold span.
  by replace (p + n - p) with n by lia.
Qed.

Lemma read_cancellable_spec fuel dest len p k : 0 <= p <= zlen data -> zlen dest <= len ->
  len - zlen dest <= Z.of_nat fuel * STREAM_CHUNK ->
  read_exact_cancellable (S := S) fuel dest len (mk_reader data p k, st) =
  if p + (len - zlen dest) <=? zlen data
  then (Ok (dest ++ span data p (p + (len - zlen dest))), (mk_reader data (p + (len - zlen dest)) k, st))
  else (Err (Par2Io UnexpectedEof), (mk_reader data (zlen data) k, st)).
Proof using Hc.
  revert dest p. induction fuel as [|fuel IH]; intros dest p Hp Hd Hf; cbn [read_exact_cancellable];
    (destruct (Z.leb_spec len (zlen dest)) as [Hle|Hgt]).
  1,3: rewrite (proj2 (Z.leb_le _ _)) by lia; replace (len - zlen dest) with 0 by lia; by rewrite Z.add_0_r, span_nil, app_nil_r.
  { lia. }
  rewrite (bind_run _ _ _ _ _ (poll_run _ Hc _)). set (take := Z.min (len - zlen dest) STREAM_CHUNK).
  assert (0 < take <= len - zlen dest) as Ht by (unfold take, STREAM_CHUNK; lia).
  destruct (Z.leb_spec (p + take) (zlen data)) as [Hin|Hout].
  - rewrite (bind_run _ _ _ _ _ (read_exact_run p take k Hin)).
    assert (zlen (dest ++ span data p (p + take)) = zlen dest + take) as Hz by (rewrite zlen_app, zlen_span by lia; lia).
    rewrite IH; [|lia|lia|rewrite Hz; unfold take, STREAM_CHUNK in *; lia]. rewrite Hz.
    replace (p + take + (len - (zlen dest + take))) with (p + (len - zlen dest)) by lia.
    rewrite <- app_assoc, span_app by lia. done.
  - rewrite (proj2 (Z.leb_gt _ _)) by lia. apply bind_run_err. unfold read_exact, on_fst. cbn.
    by rewrite (proj2 (Z.leb_gt _ _)) by lia.
Qed.

Lemma chunk_fuel_enough n : 0 <= n -> n <= Z.of_nat (chunk_fuel n) * STREAM_CHUNK.
Proof using.
  intros. unfold chunk_fuel, STREAM_CHUNK. rewrite Nat2Z.inj_succ, Z2Nat.id by (apply Z.div_pos; lia). dlia.
Qed.

Lemma read_bytes_spec n p k : 0 <= p <= zlen data -> 0 <= n ->
  read_bytes (S := S) n (mk_reader data p k, st) =
  if p + n <=? zlen data then (Ok (span data p (p + n)), (mk_reader data (p + n) k, st))
  else (Err (Par2Io UnexpectedEof), (mk_reader data (zlen data) k, st)).
Proof using Hc.
  intros Hp Hn. unfold read_bytes. rewrite read_cancellable_spec; [|lia|done|].
  - rewrite zlen_nil, Z.sub_0_r. done.
  - rewrite zlen_nil, Z.sub_0_r. by apply chunk_fuel_enough.
Qed.

Lemma hash_body_spec fuel hasher pre remaining p k : md5_fed hasher pre -> 0 <= p -> 0 <= remaining ->
  p + remaining <= zlen data -> remaining <= Z.of_nat fuel * STREAM_CHUNK ->
  exists hasher', hash_reader_body (S := S) fuel hasher remaining (mk_reader data p k, st) =
    (Ok hasher', (mk_reader data (p + remaining) k, st)) /\ md5_fed hasher' (pre ++ span data p (p + remaining)).
Proof using Hc laws.
  revert hasher pre remaining p. induction fuel as [|fuel IH]; intros hasher pre remaining p Hh Hp Hr Hin Hf;
    cbn [hash_reader_body]; (destruct (Z.leb_spec remaining 0) as [Hle|Hgt]).
  1,3: replace remaining with 0 by lia; rewrite Z.add_0_r; exists hasher; (split; [done|]); by rewrite span_nil, app_nil_r.
  { lia. }
  rewrite (bind_run _ _ _ _ _ (poll_run _ Hc _)). set (take := Z.min remaining STREAM_CHUNK).
  assert (0 < take <= remaining) as Ht by (unfold take, STREAM_CHUNK; lia).
  rewrite (bind_run _ _ _ _ _ (read_exact_run p take k ltac:(lia))). cbv beta.
  pose proof (md5_update_fed (E := par2_error) hasher pre (span data p (p + take)) Hh) as Hu.
  destruct (md5_update hasher _) as [h'| |] eqn:Heq; [|done|done].
  run_ok.
  destruct (IH h' (pre ++ span data p (p + take)) (remaining - take) (p + take) Hu) as (h2 & Hrun & Hfed);
    [lia|lia|lia|unfold take, STREAM_CHUNK in *; lia|].
  exists h2. rewrite Hrun. replace (p + take + (remaining - take)) with (p + remaining) in * by lia.
  split; [done|]. by rewrite <- app_assoc, span_app in Hfed by lia.
Qed.
End read.

(** * One packet *)

Section packet.
Context {B : Backends} {laws : BackendLaws B} {buffering : Buffering} (backend : Par2Md5Backend) (windows : bool).
Context {S : Type} (data : list byte) (st : PacketScanBudget * S) (Hc : cancel st.1 = None).

(** The header at [pos] and the bytes it announces. *)
Context (pos : Z) (header : PacketHeader.t) (k : nat).
Context (Hpos : 0 <= pos) (Hlen : 64 <= PacketHeader.length header) (Hin : pos + PacketHeader.length header <= zlen data).
Context (Hbig : zlen data < 2 ^ 64).

Definition header_bytes_at : list byte := span data pos (pos + 64).
Definition body_at : list byte := span data (pos + 64) (pos + PacketHeader.length header).
(** The packet's MD5: behind the first half of the header. *)
Definition hash_valid : bool :=
  bool_decide (md5 (span data (pos + 32) (pos + PacketHeader.length header)) = PacketHeader.packet_hash header).

Lemma header_tail : slice (E := par2_error) header_bytes_at 32 HEADER_SIZE = Ok (span data (pos + 32) (pos + 64)).
Proof using Hpos Hlen Hin.
  unfold header_bytes_at, HEADER_SIZE. rewrite slice_ok by (rewrite ?zlen_span by lia; lia). f_equal.
  unfold span. replace (pos + 64 - pos) with 64 by lia. replace (pos + 64 - (pos + 32)) with 32 by lia.
  rewrite <- zdrop_zdrop by lia. set (d := zdrop pos data). rewrite !ztake_nat, !zdrop_nat by lia.
  rewrite skipn_firstn_comm, take_take. done.
Qed.
Lemma zlen_body : zlen body_at = PacketHeader.length header - 64.
Proof using Hpos Hlen Hin. unfold body_at. rewrite zlen_span by lia. lia. Qed.

Lemma body_length_ok : PacketHeader.body_length header = Ok (PacketHeader.length header - 64).
Proof using Hlen. unfold PacketHeader.body_length, HEADER_SIZE. by rewrite (proj2 (Z.leb_le _ _)) by lia. Qed.

Lemma hasher_start pieces : exists h, md5_update (E := par2_error) (Md5State_new backend) pieces = Ok h /\ md5_fed h pieces.
Proof using laws.
  pose proof (md5_update_fed (E := par2_error) _ _ pieces (md5_fed_new backend)) as H.
  destruct (md5_update _ _) as [h| |]; [|done|done]. by exists h.
Qed.

Lemma validate_streamed_run : validate_streamed_packet_from_reader (S := S) backend header header_bytes_at
    (PacketHeader.length header - 64) pos (mk_reader data (pos + 64) k, st) =
  (if hash_valid then Ok tt else Err (PacketHashMismatch pos), (mk_reader data (pos + PacketHeader.length header) k, st)).
Proof using Hpos Hlen Hin Hc laws.
  unfold validate_streamed_packet_from_reader. rewrite header_tail.
  destruct (hasher_start (span data (pos + 32) (pos + 64))) as (h & Hh & Hfed).
  run_ok.
  rewrite Hh. run_ok.
  destruct (hash_body_spec data st Hc (chunk_fuel (PacketHeader.length header - 64)) h _ (PacketHeader.length header - 64)
    (pos + 64) k Hfed) as (h2 & Hrun & Hfed2); [lia|lia|lia|apply chunk_fuel_enough; lia|].
  rewrite (bind_run _ _ _ _ _ Hrun). cbv beta. replace (pos + 64 + (PacketHeader.length header - 64)) with (pos + PacketHeader.length header) in * by lia.
  rewrite span_app in Hfed2 by lia. rewrite (md5_finalize_fed _ _ Hfed2).
  run_ok.
  unfold hash_valid. by case_bool_decide.
Qed.

Lemma validate_hash_run : validate_streamed_hash backend header header_bytes_at body_at pos =
  if hash_valid then Ok tt else Err (PacketHashMismatch pos).
Proof using Hpos Hlen Hin laws.
  unfold validate_streamed_hash. rewrite header_tail, bind_Ok.
  destruct (hasher_start (span data (pos + 32) (pos + 64))) as (h & -> & Hfed). rewrite bind_Ok.
  pose proof (md5_update_fed (E := par2_error) _ _ body_at Hfed) as Hu.
  destruct (md5_update h _) as [h2| |]; [|done|done]. rewrite bind_Ok. unfold body_at in Hu. rewrite span_app in Hu by lia.
  rewrite (md5_finalize_fed _ _ Hu), bind_Ok. unfold hash_valid. by case_bool_decide.
Qed.
End packet.

(** * The scan against the reference *)

(** What the streaming scanner does at a position. *)
Inductive event := InternPath | Seen | FoundAt (found : Found).

Section reference.
Context (windows : bool) (data : list byte) (path : ustring).

Definition body_event (header : PacketHeader.t) (pos : Z) : event :=
  let body := body_at data pos header in
  match max_buffered_non_recovery_body_len (PacketHeader.packet_type header) with
  | Some max =>
      if max <? zlen body then Seen
      else match parse_packet_body windows header body with
           | Ok packet => FoundAt (packet, pos, PacketHeader.recovery_set_id header)
           | _ => Seen
           end
  | None => Seen
  end.
(** The payload stays in the file. *)
Definition file_backed (header : PacketHeader.t) (pos : Z) : Packet :=
  PRecoverySlice (RecoverySlicePacket.mk (u32_le (span data (pos + 64) (pos + 68)))
    (FileBacked path (pos + 68) (PacketHeader.length header - 68) (Some (PacketHeader.packet_hash header)))).

Definition header_at (pos : Z) : par2_result PacketHeader.t := PacketHeader.parse (header_bytes_at data pos) pos.

(** The packet at a position whose header fits: found, seen or refused. *)
Definition packet_events (header : PacketHeader.t) (pos : Z) : list event * Z :=
  if is_recovery (PacketHeader.packet_type header) then
    if (PacketHeader.length header - 64 <=? 4) || negb (hash_valid data pos header) then ([], 1)
    else ([FoundAt (file_backed header pos, pos, PacketHeader.recovery_set_id header)], PacketHeader.length header)
  else if negb (hash_valid data pos header) then ([], 1)
  else ([body_event header pos], PacketHeader.length header).

Definition stream_attempt (pos : Z) : list event * Z :=
  match header_at pos with
  | Ok header =>
      if zlen data <? pos + PacketHeader.length header then ([], 1)
      else ((if is_recovery (PacketHeader.packet_type header) then [InternPath] else []) ++ (packet_events header pos).1,
            (packet_events header pos).2)
  | _ => ([], 1)
  end.
Definition stream_events (pos : Z) : list event := walk_from stream_attempt (zlen data) pos.
End reference.

Section deliver.
Context {S : Type} {sink : PacketSink S} (path : ustring).

(** The path is paid for at the first recovery packet announced. *)
Fixpoint deliver_events (charged : bool) (evs : list event) : stateM (PacketScanBudget * S) par2_error unit :=
  match evs with
  | [] => mret tt
  | InternPath :: evs =>
      _ ← (if charged then mret tt else on_fst (charge_bytes (interned_path_bytes path)));
      deliver_events true evs
  | Seen :: evs => _ ← on_fst charge_examined; deliver_events charged evs
  | FoundAt (packet, offset, set_id) :: evs =>
      _ ← on_fst charge_examined;
      _ ← accept packet offset set_id;
      deliver_events charged evs
  end.
End deliver.

(** ** Forgetting the reader *)

Definition strip {S A} (x : par2_result A * World (S := S)) : par2_result A * (PacketScanBudget * S) := (x.1, x.2.2).

Lemma strip_on_snd {S A C} (m : stateM (PacketScanBudget * S) par2_error A) (k : A -> stateM World par2_error C)
    (k' : A -> stateM (PacketScanBudget * S) par2_error C) r st :
  (forall a, (m st).1 = Ok a -> strip (k a (r, (m st).2)) = k' a (m st).2) ->
  strip ((on_snd m ≫= k) (r, st)) = (m ≫= k') st.
Proof.
  intros H. unfold mbind, stateM_bind, on_snd. cbn. destruct (m st) as [[a|e|] t]; cbn in *; [by apply H|done|done].
Qed.

Lemma caught_run {S A} (m : scanning (S := S) A) w r w' : m w = (r, w') ->
  caught m w = (match r with Ok a => Ok (inr a) | Err e => Ok (inl e) | Panic => Panic end, w').
Proof. unfold caught. intros ->. by destruct r. Qed.

Section refine.
Context {B : Backends} {laws : BackendLaws B} {buffering : Buffering} {buffering_ok : BufferingOk}.
Context (backend : Par2Md5Backend) (windows : bool) {S : Type} {sink : PacketSink S} {lawful : LawfulSink S}.
Context (data : list byte) (path : ustring) (Hbig : zlen data < 2 ^ 64).

Lemma stream_forward pos : 1 <= (stream_attempt windows data path pos).2.
Proof using.
  unfold stream_attempt, header_at, packet_events. pose proof (header_safe (header_bytes_at data pos) pos) as H.
  destruct (PacketHeader.parse _ _) as [h| |]; cbn in *; [|lia|lia].
  repeat (case_match; simplify_eq/=); lia.
Qed.

Lemma stream_no_magic pos : 0 <= pos -> pos + 64 <= zlen data -> ~ magic_at data pos ->
  stream_attempt windows data path pos = ([], 1).
Proof using.
  intros Hp Hl Hm. unfold stream_attempt, header_at, PacketHeader.parse, HEADER_SIZE, header_bytes_at.
  rewrite zlen_span by lia. rewrite (proj2 (Z.ltb_ge _ _)) by lia.
  rewrite (slice_ok (span data pos (pos + 64)) 0 8), bind_Ok by (rewrite ?zlen_span by lia; lia).
  rewrite bool_decide_false; [done|]. intros H. apply Hm. unfold magic_at. rewrite <- H. unfold span.
  rewrite zdrop_0. replace (pos + 64 - pos) with 64 by lia. change (8 - 0) with 8.
  rewrite !ztake_nat by lia. rewrite take_take. done.
Qed.

Lemma stream_step pos : stream_events windows data path pos =
  if zlen data <? pos + HEADER_SIZE then []
  else (stream_attempt windows data path pos).1 ++ stream_events windows data path (pos + (stream_attempt windows data path pos).2).
Proof using. apply walk_step, stream_forward. Qed.
Lemma stream_skip pos n : 0 <= pos -> 0 <= n -> (forall k, pos <= k < pos + n -> k + 64 <= zlen data -> ~ magic_at data k) ->
  stream_events windows data path pos = stream_events windows data path (pos + n).
Proof using.
  intros Hp Hn Hm. replace n with (Z.of_nat (Z.to_nat n)) by lia. apply walk_skip; [exact stream_forward|].
  intros i Hi Hl. unfold HEADER_SIZE in Hl. apply stream_no_magic; [lia|lia|]. apply Hm; lia.
Qed.

(** ** One packet, read and authenticated *)

Section packet_run.
Context (st : PacketScanBudget * S) (Hc : cancel st.1 = None) (pos : Z) (header : PacketHeader.t) (k : nat).
Context (Hpos : 0 <= pos) (Hlen : 64 <= PacketHeader.length header) (Hin : pos + PacketHeader.length header <= zlen data).

Lemma discard_run : (_ ← validate_streamed_packet_from_reader (S := S) backend header (header_bytes_at data pos)
    (PacketHeader.length header - 64) pos; mret (@None Packet)) (mk_reader data (pos + 64) k, st) =
  (if hash_valid data pos header then Ok None else Err (PacketHashMismatch pos),
   (mk_reader data (pos + PacketHeader.length header) k, st)).
Proof using laws Hc Hpos Hlen Hin.
  pose proof (validate_streamed_run backend data st Hc pos header k Hpos Hlen Hin) as H.
  destruct (hash_valid data pos header); [by rewrite (bind_run _ _ _ _ _ H)|by rewrite (bind_run_err _ _ _ _ _ H)].
Qed.

Lemma non_recovery_run : (forall body, no_panic (parse_packet_body windows header body)) ->
  parse_non_recovery_packet_from_reader (S := S) backend windows header (header_bytes_at data pos) pos (mk_reader data (pos + 64) k, st) =
  (if hash_valid data pos header
   then Ok (match body_event windows data header pos with FoundAt (p, _, _) => Some p | _ => None end)
   else Err (PacketHashMismatch pos),
   (mk_reader data (pos + PacketHeader.length header) k, st)).
Proof using laws Hc Hpos Hlen Hin.
  intros Hnp. unfold parse_non_recovery_packet_from_reader. rewrite body_length_ok by done. run_ok.
  unfold body_event. destruct (max_buffered_non_recovery_body_len _) as [max|]; [|exact discard_run].
  rewrite zlen_body by done. destruct (Z.ltb_spec max (PacketHeader.length header - 64)); [exact discard_run|].
  pose proof (read_bytes_spec data st Hc (PacketHeader.length header - 64) (pos + 64) k ltac:(lia) ltac:(lia)) as Hread.
  rewrite (proj2 (Z.leb_le _ _)) in Hread by lia.
  replace (pos + 64 + (PacketHeader.length header - 64)) with (pos + PacketHeader.length header) in Hread by lia.
  rewrite (bind_run _ _ _ _ _ Hread). cbv beta. fold (body_at data pos header).
  rewrite validate_hash_run by done. destruct (hash_valid data pos header); [run_ok|done].
  specialize (Hnp (body_at data pos header)). by destruct (parse_packet_body _ _ _) as [p|e|].
Qed.

Lemma recovery_run :
  parse_recovery_packet_from_reader (S := S) backend header (header_bytes_at data pos) pos path (mk_reader data (pos + 64) k, st) =
  if PacketHeader.length header - 64 <=? 4 then (Err InvalidRecoveryPacket, (mk_reader data (pos + 64) k, st))
  else (if hash_valid data pos header then Ok (file_backed data path header pos) else Err (PacketHashMismatch pos),
        (mk_reader data (pos + PacketHeader.length header) k, st)).
Proof using laws Hc Hpos Hlen Hin Hbig.
  unfold parse_recovery_packet_from_reader. rewrite body_length_ok by done. run_ok.
  destruct (Z.leb_spec (PacketHeader.length header - 64) 4); [done|].
  pose proof (read_bytes_spec data st Hc 4 (pos + 64) k ltac:(lia) ltac:(lia)) as Hread.
  rewrite (proj2 (Z.leb_le _ _)) in Hread by lia. replace (pos + 64 + 4) with (pos + 68) in Hread by lia.
  rewrite (bind_run _ _ _ _ _ Hread). cbv beta. unfold add_u64, HEADER_SIZE.
  rewrite (proj2 (Z.ltb_lt _ _)) by lia. run_ok.
  pose proof (header_tail data pos header Hpos Hlen Hin) as Ht. unfold HEADER_SIZE in Ht. rewrite Ht. run_ok.
  destruct (hasher_start backend (span data (pos + 32) (pos + 64))) as (h & Hh & Hfed). rewrite Hh. run_ok.
  pose proof (md5_update_fed (E := par2_error) h _ (span data (pos + 64) (pos + 68)) Hfed) as Hu.
  rewrite span_app in Hu by lia. destruct (md5_update h _) as [h2| |]; [run_ok|done|done].
  destruct (hash_body_spec data st Hc (chunk_fuel (PacketHeader.length header - 64 - 4)) h2 _
    (PacketHeader.length header - 64 - 4) (pos + 68) k Hu) as (h3 & Hrun & Hfed3); [lia|lia|lia|apply chunk_fuel_enough; lia|].
  rewrite (bind_run _ _ _ _ _ Hrun). cbv beta.
  replace (pos + 68 + (PacketHeader.length header - 64 - 4)) with (pos + PacketHeader.length header) in * by lia.
  rewrite span_app in Hfed3 by lia. rewrite (md5_finalize_fed _ _ Hfed3). run_ok. unfold hash_valid, file_backed.
  case_bool_decide; [cbn [negb]|done].
  replace (pos + (64 + 4)) with (pos + 68) by lia.
  by replace (PacketHeader.length header - 64 - 4) with (PacketHeader.length header - 68) by lia.
Qed.
End packet_run.

(** ** The loop *)

Lemma magic_then_tail pos : 0 <= pos -> pos + 64 <= zlen data -> magic_at data pos ->
  MAGIC ++ span data (pos + 8) (pos + 64) = header_bytes_at data pos.
Proof using.
  intros Hp Hl Hm. unfold header_bytes_at. rewrite <- (span_app data pos (pos + 8) (pos + 64)) by lia. f_equal.
  unfold span. replace (pos + 8 - pos) with 8 by lia. by rewrite Hm.
Qed.

(** Continue behind position [pos] with reader [r]. *)
Definition continues (go : scanning (S := S) unit) (charged : bool) (pos : Z) (r : BufReader) (st : PacketScanBudget * S) : Prop :=
  strip (go (r, st)) = deliver_events path charged (stream_events windows data path pos) st.

(** The events of one position, then the rest. *)
Lemma deliver_app (xs ys : list event) charged st : Forall (fun e => e <> InternPath) xs ->
  deliver_events path charged (xs ++ ys) st =
  (_ ← deliver_events path charged xs; deliver_events path charged ys) st.
Proof using.
  intros H. revert st. induction H as [|x xs Hx _ IH]; intros st; [done|].
  destruct x as [| |[[p o] id]]; [done| |]; cbn [app deliver_events]; unfold mbind, stateM_bind in *.
  - destruct (on_fst charge_examined st) as [[a|e|] t]; [apply IH|done|done].
  - destruct (on_fst charge_examined st) as [[a|e|] t]; [|done|done].
    destruct (accept p o id t) as [[a'|e|] t']; [apply IH|done|done].
Qed.

(** What the loop does once a packet has been taken or discarded. *)
Lemma taken_continues (packet : option Packet) (pos len set_offset : Z) (id : RecoverySetId) (go : Z -> scanning (S := S) unit)
    charged r st ev :
  cancel st.1 = None -> 0 <= pos -> 0 <= len -> pos + len <= zlen data ->
  match packet with Some p => ev = FoundAt (p, pos, id) | None => ev = Seen end ->
  (forall st', cancel st'.1 = None -> continues (go (pos + len)) charged (pos + len) r st') ->
  strip ((_ ← on_snd (on_fst charge_examined);
          _ ← match packet with Some p => on_snd (accept p pos id) | None => mret tt end;
          offset ← lift (add_u64 pos len); go offset) (r, st)) =
  deliver_events path charged (ev :: stream_events windows data path (pos + len)) st.
Proof using Hbig lawful.
  intros Hc Hp Hl Hin Hev Hgo. assert (add_u64 (E := par2_error) pos len = Ok (pos + len)) as Hadd
    by (unfold add_u64; by rewrite (proj2 (Z.ltb_lt _ _)) by lia).
  assert (cancel (on_fst (S := PacketScanBudget) (T := S) charge_examined st).2.1 = None) as Hc1
    by (rewrite (on_fst_keeps charge_examined st (charge_examined_keeps _)); done).
  destruct packet as [p|]; subst ev; cbn [deliver_events].
  - apply strip_on_snd. intros [] _. apply strip_on_snd. intros [] _. rewrite Hadd.
    apply Hgo. rewrite accept_keeps. done.
  - apply strip_on_snd. intros [] _. rewrite Hadd. by apply Hgo.
Qed.

(** The bytes behind a magic that is near the end of the file. *)
Section at_magic.
Context (loop : bool -> Z -> scanning (S := S) unit) (pos : Z) (Hpos : 0 <= pos) (Hmagic : magic_at data pos).
Context (Hloop : forall charged q k st, pos < q <= zlen data -> cancel st.1 = None ->
  continues (loop charged q) charged q (mk_reader data q k) st).

(** Going on behind the first byte of a magic that starts no packet. *)
Lemma resync_continues charged r st p k : r = mk_reader data p k -> pos + 1 <= zlen data -> cancel st.1 = None ->
  strip ((_ ← seek (pos + 1); loop charged (pos + 1)) (r, st)) =
  deliver_events path charged (stream_events windows data path (pos + 1)) st.
Proof using Hloop.
  intros -> Hl Hc. apply (Hloop charged (pos + 1) k st); [lia|done].
Qed.

Context (header : PacketHeader.t) (Hheader : header_at data pos = Ok header).
Context (Hlen : 64 <= PacketHeader.length header) (Hin : pos + PacketHeader.length header <= zlen data).
Context (Hbody : forall body, no_panic (parse_packet_body windows header body)).

(** Reading the packet: refused, or taken to its end. *)
Lemma read_packet_run k (st : PacketScanBudget * S) : cancel st.1 = None -> exists r p,
  read_packet (S := S) backend windows header (header_bytes_at data pos) pos path (mk_reader data (pos + 64) k, st)
    = (r, (mk_reader data p k, st)) /\
  ((exists e, r = Err e /\ e <> Cancelled /\ e <> ResourceLimitExceeded /\
      packet_events windows data path header pos = ([], 1)) \/
   (exists packet ev, r = Ok packet /\ p = pos + PacketHeader.length header /\
      match packet with Some p => ev = FoundAt (p, pos, PacketHeader.recovery_set_id header) | None => ev = Seen end /\
      packet_events windows data path header pos = ([ev], PacketHeader.length header))).
Proof using Hbig Hbody Hin Hlen Hpos laws.
  intros Hc. unfold read_packet, packet_events.
  pose proof (recovery_run st Hc pos header k Hpos Hlen Hin) as Hrec.
  pose proof (non_recovery_run st Hc pos header k Hpos Hlen Hin Hbody) as Hother.
  assert (is_recovery (PacketHeader.packet_type header) = true ->
    exists r p, (p ← parse_recovery_packet_from_reader (S := S) backend header (header_bytes_at data pos) pos path; mret (Some p))
      (mk_reader data (pos + 64) k, st) = (r, (mk_reader data p k, st)) /\
    ((exists e, r = Err e /\ e <> Cancelled /\ e <> ResourceLimitExceeded /\
        (PacketHeader.length header - 64 <=? 4) || negb (hash_valid data pos header) = true) \/
     (r = Ok (Some (file_backed data path header pos)) /\ p = pos + PacketHeader.length header /\
        (PacketHeader.length header - 64 <=? 4) || negb (hash_valid data pos header) = false))) as Hrecovery.
  { intros _. destruct (PacketHeader.length header - 64 <=? 4).
    { exists (Err InvalidRecoveryPacket), (pos + 64). rewrite (bind_run_err _ _ _ _ _ Hrec). split; [done|]. left. by eexists. }
    exists (if hash_valid data pos header then Ok (Some (file_backed data path header pos)) else Err (PacketHashMismatch pos)),
      (pos + PacketHeader.length header).
    destruct (hash_valid data pos header); [rewrite (bind_run _ _ _ _ _ Hrec)|rewrite (bind_run_err _ _ _ _ _ Hrec)];
      (split; [done|]); [by right|left; by eexists]. }
  assert (exists r p, parse_non_recovery_packet_from_reader (S := S) backend windows header (header_bytes_at data pos) pos
      (mk_reader data (pos + 64) k, st) = (r, (mk_reader data p k, st)) /\
    ((exists e, r = Err e /\ e <> Cancelled /\ e <> ResourceLimitExceeded /\ negb (hash_valid data pos header) = true) \/
     (exists packet, r = Ok packet /\ p = pos + PacketHeader.length header /\ negb (hash_valid data pos header) = false /\
        match packet with
        | Some p => body_event windows data header pos = FoundAt (p, pos, PacketHeader.recovery_set_id header)
        | None => body_event windows data header pos = Seen
        end))) as Hnon.
  { rewrite Hother. eexists _, _. split; [done|]. destruct (hash_valid data pos header); [right|left; by eexists].
    eexists. split; [done|]. split; [done|]. split; [done|]. unfold body_event.
    destruct (max_buffered_non_recovery_body_len _) as [max|]; [|done]. destruct (max <? _); [done|].
    by destruct (parse_packet_body _ _ _). }
  destruct (is_recovery (PacketHeader.packet_type header)) eqn:Hty.
  - destruct (Hrecovery eq_refl) as (r & p & Hrun & Hcases). exists r, p.
    destruct (PacketHeader.packet_type header); try done. split; [exact Hrun|].
    destruct Hcases as [(e & -> & He1 & He2 & ->)|(-> & -> & ->)]; [left; by exists e|right]. by eexists _, _.
  - destruct Hnon as (r & p & Hrun & Hcases). exists r, p.
    split; [destruct (PacketHeader.packet_type header); try done; exact Hrun|].
    destruct Hcases as [(e & -> & He1 & He2 & ->)|(packet & -> & -> & -> & Hev)]; [left; by exists e|right].
    exists packet, (body_event windows data header pos). done.
Qed.

(** What the attempt to read the packet leads to. *)
Lemma packet_continues charged k st : cancel st.1 = None ->
  strip ((packet ← caught (read_packet backend windows header (header_bytes_at data pos) pos path);
    match packet with
    | inr packet =>
        _ ← on_snd (on_fst charge_examined);
        _ ← match packet with
            | Some packet => on_snd (accept packet pos (PacketHeader.recovery_set_id header))
            | None => mret tt
            end;
        offset ← lift (add_u64 pos (PacketHeader.length header));
        loop charged offset
    | inl Cancelled => fails Cancelled
    | inl ResourceLimitExceeded => fails ResourceLimitExceeded
    | inl _ => _ ← seek (pos + 1); loop charged (pos + 1)
    end) (mk_reader data (pos + 64) k, st)) =
  deliver_events path charged ((packet_events windows data path header pos).1
    ++ stream_events windows data path (pos + (packet_events windows data path header pos).2)) st.
Proof using Hbig Hbody Hheader Hin Hlen Hloop Hpos Hmagic laws lawful.
  intros Hc.
  destruct (read_packet_run k st Hc) as (r & p & Hrun & [(e & -> & He1 & He2 & ->)|(packet & ev & -> & -> & Hev & ->)]);
    rewrite (bind_run _ _ _ _ _ (caught_run _ _ _ _ Hrun)); cbv beta iota; cbn [fst snd app].
  - assert (strip ((_ ← seek (pos + 1); loop charged (pos + 1)) (mk_reader data p k, st)) =
      deliver_events path charged (stream_events windows data path (pos + 1)) st) as Hresync
      by (apply (resync_continues charged _ st p k); [done|lia|done]).
    destruct e; done.
  - apply taken_continues; try done; [lia|]. intros st' Hc'. apply Hloop; [lia|done].
Qed.
End at_magic.

(** A whole turn of the loop behind a found magic. *)
Lemma at_magic_continues loop pos charged k st : 0 <= pos -> magic_at data pos -> pos + 8 <= zlen data -> cancel st.1 = None ->
  (forall charged q k st, pos < q <= zlen data -> cancel st.1 = None ->
    continues (loop charged q) charged q (mk_reader data q k) st) ->
  continues (at_magic backend windows loop path (zlen data) charged pos) charged pos (mk_reader data (pos + 8) k) st.
Proof using Hbig laws lawful.
  intros Hpos Hat Hoff Hc Hloop. unfold continues, at_magic. rewrite (bind_run _ _ _ _ _ (poll_run st Hc _)). cbv beta.
  pose proof (read_bytes_spec data st Hc 56 (pos + 8) k ltac:(lia) ltac:(lia)) as Hread.
  change (HEADER_SIZE - zlen MAGIC) with 56. replace (pos + 8 + 56) with (pos + 64) in Hread by lia.
  rewrite stream_step. unfold HEADER_SIZE. destruct (Z.leb_spec (pos + 64) (zlen data)) as [Hle|Hgt].
  2: { rewrite (proj2 (Z.ltb_lt _ _)) by lia. by rewrite (bind_run _ _ _ _ _ (caught_run _ _ _ _ Hread)). }
  rewrite (proj2 (Z.ltb_ge _ _)) by lia. rewrite (bind_run _ _ _ _ _ (caught_run _ _ _ _ Hread)). cbv beta iota zeta.
  rewrite magic_then_tail by done. unfold stream_attempt. fold (header_at data pos).
  pose proof (header_safe (header_bytes_at data pos) pos) as Hsafe. fold (header_at data pos) in Hsafe.
  assert (forall charged st', cancel st'.1 = None ->
    strip ((_ ← seek (pos + 1); loop charged (pos + 1)) (mk_reader data (pos + 64) k, st')) =
    deliver_events path charged (stream_events windows data path (pos + 1)) st') as Hresync
    by (intros ch st' Hc'; apply (resync_continues loop pos Hloop ch _ st' (pos + 64) k); [done|lia|done]).
  destruct (header_at data pos) as [header| |] eqn:Hheader; [|by apply Hresync|done].
  destruct Hsafe as (Hid & _ & (Hlen & Hlen64) & _ & Hsig). unfold checked_add_u64.
  destruct (Z.ltb_spec (zlen data) (pos + PacketHeader.length header)) as [Hout|Hin].
  { assert ((match (if pos + PacketHeader.length header <? 2 ^ 64 then Some (pos + PacketHeader.length header) else None) with
      | Some packet_end => zlen data <? packet_end | None => true end) = true) as ->
      by (destruct (_ <? 2 ^ 64); [by apply Z.ltb_lt|done]). by apply Hresync. }
  rewrite (proj2 (Z.ltb_lt _ (2 ^ 64))), (proj2 (Z.ltb_ge (zlen data) _)) by lia.
  assert (forall body, no_panic (parse_packet_body windows header body)) as Hbody
    by (intros body; eapply safe_no_panic, body_safe; done).
  pose proof (packet_continues loop pos Hpos Hat Hloop header Hheader Hlen Hin Hbody) as Hpacket. cbn [fst snd].
  destruct (is_recovery (PacketHeader.packet_type header)) eqn:Hrec; cbn [andb app].
  - cbn [deliver_events]. destruct charged; cbn [negb]; [by apply Hpacket|].
    transitivity ((_ ← on_fst (charge_bytes (interned_path_bytes path));
      deliver_events path true ((packet_events windows data path header pos).1 ++
        stream_events windows data path (pos + (packet_events windows data path header pos).2))) st); [|done].
    rewrite <- (strip_on_snd (on_fst (charge_bytes (interned_path_bytes path)))
      (fun _ => packet ← caught (read_packet backend windows header (header_bytes_at data pos) pos path);
        match packet with
        | inr packet =>
            _ ← on_snd (on_fst charge_examined);
            _ ← match packet with
                | Some packet => on_snd (accept packet pos (PacketHeader.recovery_set_id header))
                | None => mret tt
                end;
            offset ← lift (add_u64 pos (PacketHeader.length header));
            loop true offset
        | inl Cancelled => fails Cancelled
        | inl ResourceLimitExceeded => fails ResourceLimitExceeded
        | inl _ => _ ← seek (pos + 1); loop true (pos + 1)
        end) _ (mk_reader data (pos + 64) k) st).
    + unfold mbind, stateM_bind. destruct (on_snd _ _) as [[a|e|] w]; done.
    + intros a _. apply Hpacket. rewrite (on_fst_keeps _ st (charge_bytes_keeps _ _)). done.
  - by apply Hpacket.
Qed.

Lemma path_loop_continues fuel charged q k st : (Z.to_nat (zlen data - q) < fuel)%nat -> 0 <= q <= zlen data ->
  cancel st.1 = None ->
  continues (path_loop backend windows fuel path (zlen data) charged q) charged q (mk_reader data q k) st.
Proof using Hbig laws lawful buffering_ok.
  revert charged q k st. induction fuel as [|fuel IH]; intros charged q k st Hf Hq Hc; [lia|]. unfold continues.
  cbn [path_loop].
  destruct (find_next_magic_in_reader_spec data st Hc Hbig q k Hq) as (res & off & k1 & Hrun & Hres).
  rewrite (bind_run _ _ _ _ _ Hrun). cbv beta iota. destruct res as [pos|].
  2: { rewrite (stream_skip q (zlen data - q)); [|lia|lia|].
       - unfold stream_events. rewrite walk_end; [done|exact stream_forward|unfold HEADER_SIZE; lia].
       - intros i Hi Hil. apply Hres; lia. }
  destruct Hres as (Hpos & -> & Hoff & Hat & Hbefore).
  rewrite (stream_skip q (pos - q)); [|lia|lia|intros i Hi _; apply Hbefore; lia].
  replace (q + (pos - q)) with pos by lia. apply at_magic_continues; try done; [lia|].
  intros ch q' k' st' Hq' Hc'. apply IH; [lia|lia|done].
Qed.
End refine.
