(* ===== verification/Par2Agree.v ===== *)
(** The two scanners of PAR2 packets against each other: the streaming
    scanner of a file and the in-memory scanner find the same packets. *)
From S2P Require Import Prelude.
From S2P Require Import RarTypes.
From S2P Require Import Md5Spec.
From S2P Require Import Checksum.
From S2P Require Import Par2Types.
From S2P Require Import Par2Packet.
From S2P Require Import Par2PacketProps.
From S2P Require Import StateM.
From S2P Require Import Par2Budget.
From S2P Require Import Par2Scan.
From S2P Require Import Par2ScanProps.
From S2P Require Import Par2Stream.
From S2P Require Import Par2StreamProps.

(** * The in-memory parser at a position of the file *)

(** A slice of what follows [pos], by positions. *)
Lemma slice_span {E} data pos a b : 0 <= pos -> 0 <= a -> a <= b -> pos + b <= zlen data ->
  slice (E := E) (zdrop pos data) a b = Ok (span data (pos + a) (pos + b)).
Proof.
  intros. rewrite slice_ok by (rewrite ?zlen_drop by lia; lia). unfold span. rewrite zdrop_zdrop by lia.
  by replace (pos + b - (pos + a)) with (b - a) by lia.
Qed.
Lemma slice_span_span {E} data p q a b : 0 <= p -> 0 <= a -> a <= b -> p + b <= q -> q <= zlen data ->
  slice (E := E) (span data p q) a b = Ok (span data (p + a) (p + b)).
Proof.
  intros. rewrite slice_ok by (rewrite ?zlen_span by lia; lia). f_equal. unfold span.
  replace (p + b - (p + a)) with (b - a) by lia. rewrite <- zdrop_zdrop by lia. set (d := zdrop p data).
  rewrite !ztake_nat, !zdrop_nat by lia. rewrite skipn_firstn_comm, take_take. f_equal. lia.
Qed.

Section agree.
Context {B : Backends} {laws : BackendLaws B} (backend : Par2Md5Backend) (windows : bool).
Context (data : list byte) (path : ustring).

(** The header is in its 64 bytes. *)
Lemma parse_header_at pos : 0 <= pos -> pos + 64 <= zlen data ->
  PacketHeader.parse (zdrop pos data) pos = header_at data pos.
Proof using.
  intros Hp Hl. unfold header_at, header_bytes_at, PacketHeader.parse, HEADER_SIZE.
  rewrite zlen_drop, zlen_span by lia.
  rewrite !(proj2 (Z.ltb_ge _ 64)) by lia.
  rewrite !(slice_span data pos 0 8), !(slice_span data pos 8 16), !(slice_span data pos 16 32),
    !(slice_span data pos 32 48), !(slice_span data pos 48 64) by lia.
  by rewrite !(slice_span_span data pos (pos + 64) 0 8), !(slice_span_span data pos (pos + 64) 8 16),
    !(slice_span_span data pos (pos + 64) 16 32), !(slice_span_span data pos (pos + 64) 32 48),
    !(slice_span_span data pos (pos + 64) 48 64) by lia.
Qed.

Lemma header_at_set_id pos h : 0 <= pos -> pos + 64 <= zlen data -> header_at data pos = Ok h ->
  PacketHeader.recovery_set_id h = ztake 16 (zdrop (pos + 32) data).
Proof using.
  intros Hp Hl Hh. rewrite <- parse_header_at in Hh by done.
  destruct (parse_header_inv _ _ _ Hh) as (ty & n & -> & _). cbn. by rewrite zdrop_zdrop by lia.
Qed.

(** The packet at [pos], as the in-memory scanner takes it. *)
Lemma parse_packet_at pos : 0 <= pos -> pos + 64 <= zlen data ->
  match header_at data pos with
  | Ok h =>
      if zlen data <? pos + PacketHeader.length h then
        exists e, parse_packet backend windows (zdrop pos data) pos = Err e
      else if hash_valid data pos h then
        parse_packet backend windows (zdrop pos data) pos =
          (p ← parse_packet_body windows h (body_at data pos h); Ok (p, PacketHeader.length h))
      else exists e, parse_packet backend windows (zdrop pos data) pos = Err e
  | Err _ => exists e, parse_packet backend windows (zdrop pos data) pos = Err e
  | Panic => False
  end.
Proof using laws.
  intros Hp Hl. unfold parse_packet, parse_packet_internal. rewrite parse_header_at by done.
  pose proof (header_safe (header_bytes_at data pos) pos) as Hsafe. fold (header_at data pos) in Hsafe.
  destruct (header_at data pos) as [h| |]; [|by eexists|done]. destruct Hsafe as (_ & _ & (Hlen & _) & _). rewrite bind_Ok.
  rewrite zlen_drop by lia.
  destruct (Z.ltb_spec (zlen data) (pos + PacketHeader.length h)) as [Hout|Hin].
  { rewrite (proj2 (Z.ltb_lt _ _)) by lia. by eexists. }
  rewrite (proj2 (Z.ltb_ge _ _)) by lia. unfold validate_hash.
  rewrite (slice_span data pos 0 (PacketHeader.length h)), bind_Ok, Z.add_0_r by lia. rewrite zlen_span by lia.
  rewrite (proj2 (Z.ltb_ge _ _)) by lia.
  rewrite (slice_span_span data pos (pos + PacketHeader.length h) 32 (PacketHeader.length h)), bind_Ok by lia.
  rewrite md5_with_backend_ok, bind_Ok. unfold hash_valid.
  case_bool_decide; cbn [negb]; [rewrite bind_Ok|by eexists].
  unfold HEADER_SIZE. rewrite (slice_span data pos 64 (PacketHeader.length h)), bind_Ok by lia.
  fold (body_at data pos h). by destruct (PacketHeader.packet_type h).
Qed.

(** * Bodies that parse are small enough to be buffered *)

Lemma parsed_body_fits h body p : parse_packet_body windows h body = Ok p ->
  match max_buffered_non_recovery_body_len (PacketHeader.packet_type h) with
  | Some max => zlen body <= max
  | None => True
  end.
Proof using.
  unfold parse_packet_body. pose proof (zlen_nonneg body) as Hz.
  destruct (PacketHeader.packet_type h); cbn [max_buffered_non_recovery_body_len]; try done; intros H.
  - unfold MainPacket.parse in H. destruct (Z.ltb_spec (zlen body) 12) as [|Hl]; [done|].
    destruct (slice body 0 8); try done. rewrite bind_Ok in H. do 2 (case_match; [done|]).
    destruct (slice body 8 12); try done. rewrite bind_Ok, slice_from_ok, bind_Ok in H by lia.
    destruct (Z.eqb_spec (zlen (zdrop 12 body) mod 16) 0); [|done]. cbn [negb] in H.
    destruct (Z.ltb_spec MAX_FILES_PER_SET (zlen (zdrop 12 body) / 16)) as [|Hm]; [done|].
    rewrite zlen_drop in * by lia. unfold MAX_MAIN_BODY_BYTES, MAX_FILES_PER_SET in *. dlia.
  - unfold FileDescriptionPacket.parse in H. destruct (Z.leb_spec (zlen body) FileDescriptionPacket.FIXED_BODY_SIZE) as [|Hl]; [done|].
    unfold FileDescriptionPacket.FIXED_BODY_SIZE in Hl.
    rewrite (slice_ok body 0 16), bind_Ok, (slice_ok body 16 32), bind_Ok, (slice_ok body 32 48), bind_Ok, (slice_ok body 48 56), bind_Ok in H by lia.
    case_match; [done|]. rewrite (slice_from_ok body 56), bind_Ok in H by lia.
    destruct (Z.ltb_spec FileDescriptionPacket.MAX_FILENAME_BYTES (zlen (zdrop 56 body))) as [|Hm]; [done|].
    rewrite zlen_drop in Hm by lia. unfold MAX_FILE_DESC_BODY_BYTES, FileDescriptionPacket.MAX_FILENAME_BYTES in *. lia.
  - unfold IfscPacket.parse in H. destruct (Z.ltb_spec (zlen body) 16) as [|Hl]; [done|].
    rewrite (slice_ok body 0 16), bind_Ok, (slice_from_ok body 16), bind_Ok in H by lia.
    destruct (Z.eqb_spec (zlen (zdrop 16 body) mod IfscPacket.CHECKSUM_ENTRY_SIZE) 0); [|done]. cbn [negb] in H.
    destruct (Z.ltb_spec IfscPacket.MAX_CHECKSUM_ENTRIES (zlen (zdrop 16 body) / IfscPacket.CHECKSUM_ENTRY_SIZE)) as [|Hm]; [done|].
    rewrite zlen_drop in * by lia. unfold MAX_IFSC_BODY_BYTES, IfscPacket.MAX_CHECKSUM_ENTRIES, IfscPacket.CHECKSUM_ENTRY_SIZE in *. dlia.
  - unfold CreatorPacket.parse in H. case_match; [done|].
    destruct (Z.ltb_spec CreatorPacket.MAX_CREATOR_BYTES (zlen body)) as [|Hm]; [done|].
    unfold MAX_CREATOR_BODY_BYTES, CreatorPacket.MAX_CREATOR_BYTES in *. lia.
  - unfold UnicodeFilenamePacket.parse in H. case_match; [done|].
    destruct (Z.ltb_spec UnicodeFilenamePacket.MAX_UNICODE_FILENAME_BODY_BYTES (zlen body)) as [|Hm]; [done|]. lia.
Qed.

(** * The same packets *)

(** The same packet; a recovery payload is a copy here and a part of the file there. *)
Definition same_packet (p q : Packet) : Prop :=
  match p, q with
  | PRecoverySlice r, PRecoverySlice r' =>
      RecoverySlicePacket.exponent r = RecoverySlicePacket.exponent r' /\
      exists offset hash, RecoverySlicePacket.data r' = FileBacked path offset (data_len (RecoverySlicePacket.data r)) (Some hash) /\
        RecoverySlicePacket.data r = InMemory (span data offset (offset + data_len (RecoverySlicePacket.data r)))
  | _, _ => p = q
  end.
Definition same_found (x y : Found) : Prop := same_packet x.1.1 y.1.1 /\ x.1.2 = y.1.2 /\ x.2 = y.2.

(** What reaches a sink: of the in-memory scan, and of the streaming scan. *)
Definition known (xs : list Found) : list Found :=
  omap (fun x : Found => match x.1.1 with PUnknown _ _ => None | _ => Some x end) xs.
Definition found (evs : list event) : list Found :=
  omap (fun e => match e with FoundAt x => Some x | _ => None end) evs.

(** Every authenticated packet of a known type has a body that parses. *)
Definition well_bodied : Prop := forall pos h, 0 <= pos -> header_at data pos = Ok h ->
  pos + PacketHeader.length h <= zlen data -> hash_valid data pos h = true ->
  exists p, parse_packet_body windows h (body_at data pos h) = Ok p.

Lemma recovery_body h body p : PacketHeader.packet_type h = TRecoverySlice -> parse_packet_body windows h body = Ok p ->
  4 < zlen body /\ p = PRecoverySlice (RecoverySlicePacket.mk (u32_le (ztake 4 body)) (InMemory (zdrop 4 body))).
Proof using.
  intros Hty. unfold parse_packet_body, RecoverySlicePacket.parse. rewrite Hty.
  destruct (Z.leb_spec (zlen body) 4); [done|]. rewrite (slice_ok body 0 4), bind_Ok, (slice_from_ok body 4), bind_Ok by lia.
  rewrite zdrop_0. by intros [= <-].
Qed.

(** Of the other types only the unknown ones give unknown packets. *)
Lemma other_body h body p : is_recovery (PacketHeader.packet_type h) = false -> parse_packet_body windows h body = Ok p ->
  match max_buffered_non_recovery_body_len (PacketHeader.packet_type h) with
  | Some _ => (forall r, p <> PRecoverySlice r) /\ forall ty b, p <> PUnknown ty b
  | None => exists ty b, p = PUnknown ty b
  end.
Proof using.
  unfold parse_packet_body. destruct (PacketHeader.packet_type h); cbn; try done; intros _ H;
    repeat match type of H with (_ <$> ?m) = _ => destruct m; [|done..]; injection H as <- end; try done.
  injection H as <-. by eexists _, _.
Qed.

Lemma agree_at pos : well_bodied -> 0 <= pos -> pos + 64 <= zlen data ->
  (attempt backend windows data 0 pos).2 = (stream_attempt windows data path pos).2 /\
  Forall2 same_found (known (attempt backend windows data 0 pos).1) (found (stream_attempt windows data path pos).1).
Proof using laws.
  intros Hwell Hp Hl. pose proof (parse_packet_at pos Hp Hl) as Hat. unfold attempt, stream_attempt, packet_events.
  change (0 + pos) with pos.
  destruct (header_at data pos) as [h|e|] eqn:Hh; [|by destruct Hat as [e' ->]|done].
  destruct (Z.ltb_spec (zlen data) (pos + PacketHeader.length h)) as [|Hin]; [by destruct Hat as [e' ->]|].
  pose proof (header_safe (header_bytes_at data pos) pos) as Hsafe. fold (header_at data pos) in Hsafe. rewrite Hh in Hsafe.
  destruct Hsafe as (_ & _ & (Hlen & _) & _).
  destruct (hash_valid data pos h) eqn:Hv.
  2: { destruct Hat as [e' ->]. rewrite orb_true_r. by destruct (is_recovery _). }
  destruct (Hwell pos h Hp Hh Hin Hv) as [p Hbody]. rewrite Hat, Hbody, bind_Ok. cbn [fst snd negb].
  rewrite <- (header_at_set_id pos h Hp Hl Hh). pose proof (zlen_body data pos h Hp Hlen Hin) as Hzb.
  destruct (is_recovery (PacketHeader.packet_type h)) eqn:Hrec.
  - assert (PacketHeader.packet_type h = TRecoverySlice) as Hty by (by destruct (PacketHeader.packet_type h)).
    destruct (recovery_body _ _ _ Hty Hbody) as [H4 ->]. rewrite (proj2 (Z.leb_gt _ _)) by lia. split; [done|].
    constructor; [|constructor]. split; [|done]. cbn.
    assert (zlen (zdrop 4 (body_at data pos h)) = PacketHeader.length h - 68) as Hz4 by (rewrite zlen_drop by lia; lia).
    split.
    + f_equal. unfold body_at, span. rewrite !ztake_nat by lia. rewrite take_take. f_equal. lia.
    + exists (pos + 68), (PacketHeader.packet_hash h). rewrite Hz4. split; [done|]. f_equal. unfold body_at, span.
      replace (pos + 68) with (pos + 64 + 4) by lia. rewrite <- (zdrop_zdrop 4) by lia. set (d := zdrop (pos + 64) data).
      rewrite !ztake_nat, !zdrop_nat by lia. rewrite skipn_firstn_comm. f_equal. lia.
  - split; [done|]. pose proof (other_body _ _ _ Hrec Hbody) as Hother. pose proof (parsed_body_fits _ _ _ Hbody) as Hfits.
    unfold body_event. rewrite Hbody. destruct (max_buffered_non_recovery_body_len _) as [max|].
    + rewrite (proj2 (Z.ltb_ge _ _)) by lia. destruct Hother as [Hnr Hnu].
      destruct p; (constructor; [|constructor]) || (by destruct (Hnu packet_type body)); try done.
      by destruct (Hnr p).
    + destruct Hother as (ty & b & ->). constructor.
Qed.

Lemma agree_from n pos : well_bodied -> 0 <= pos -> (Z.to_nat (zlen data - pos) < n)%nat ->
  Forall2 same_found (known (packets_from backend windows data 0 pos)) (found (stream_events windows data path pos)).
Proof using laws.
  intros Hwell. revert pos. induction n as [|n IH]; intros pos Hp Hn; [lia|].
  rewrite packets_step, stream_step. unfold HEADER_SIZE. destruct (Z.ltb_spec (zlen data) (pos + 64)); [constructor|].
  destruct (agree_at pos Hwell Hp ltac:(lia)) as [Hadv Hhere]. unfold known, found in *. rewrite !omap_app.
  apply Forall2_app; [exact Hhere|]. rewrite <- Hadv.
  pose proof (attempt_forward backend windows data 0 pos). apply IH; lia.
Qed.
End agree.

Lemma path_scan_delivers {B : Backends} {laws : BackendLaws B} {buffering : Buffering}
    {buffering_ok : BufferingOk} (backend : Par2Md5Backend) (windows : bool) {S : Type} {sink : PacketSink S}
    {lawful : LawfulSink S} (data : list byte) (path : ustring) (st : PacketScanBudget * S) :
  zlen data < 2 ^ 64 -> cancel st.1 = None ->
  scan_packets_from_path_bounded backend windows path (Ok data) st =
  deliver_events path false (stream_events windows data path 0) st.
Proof.
  intros Hbig Hc. unfold scan_packets_from_path_bounded. pose proof (zlen_nonneg data).
  pose proof (path_loop_continues backend windows data path Hbig (Datatypes.S (length data)) false 0 0 st
    ltac:(unfold zlen; lia) ltac:(lia) Hc) as H1.
  unfold continues, strip in H1. rewrite <- H1. by destruct (path_loop _ _ _ _ _ _ _ _) as [r [rd st']].
Qed.

(** C32 (streaming refines the reference): however the file is buffered, the
    streaming scanner (a search for the magic that crosses buffers, packets
    hashed in pieces while they are read, seeks back after a bad one) does
    exactly what the reference does that looks at every byte position of the
    file's bytes: the same packets reach the sink in the same order, the same
    charges are made, and the scan ends. *)
Theorem streaming_scan_refines_reference {B : Backends} {laws : BackendLaws B} {buffering : Buffering}
    {buffering_ok : BufferingOk} (backend : Par2Md5Backend) (windows : bool) {S : Type} {sink : PacketSink S}
    {lawful : LawfulSink S} (data : list byte) (path : ustring) (st : PacketScanBudget * S) :
  zlen data < 2 ^ 64 -> cancel st.1 = None ->
  scan_packets_from_path_bounded backend windows path (Ok data) st =
  deliver_events path false (stream_events windows data path 0) st.
Proof. intros Hbig Hc. by apply path_scan_delivers.
Qed.


(** ** Witnesses *)

(** A buffer of five bytes, shorter than the magic. *)
Definition five : Buffering := fun _ => 5.
Lemma five_ok : @BufferingOk five.
Proof. intros k. unfold fill_len, five. lia. Qed.

Lemma streaming_scan_refines_reference_witness :
  @scan_packets_from_path_bounded reference_backends five BackendNative false (list ScannedPacket)
    (@CollectingSink sample_layout generous) [112] (Ok sample_stream) (budget_new default_limits, []) =
  @deliver_events (list ScannedPacket) (@CollectingSink sample_layout generous) [112] false
    (stream_events false sample_stream [112] 0) (budget_new default_limits, []).
Proof.
  apply (@streaming_scan_refines_reference reference_backends reference_laws five five_ok BackendNative false (list ScannedPacket)
    (@CollectingSink sample_layout generous) collecting_lawful sample_stream [112] (budget_new default_limits, []));
    [vm_compute; reflexivity|reflexivity].
Defined.

Lemma sample_well_bodied : well_bodied false sample_stream.
Proof.
  intros pos h Hp Hh _ _. assert (pos < 7) as Hlt.
  { destruct (Z.le_gt_cases 7 pos) as [Hge|]; [|done]. exfalso.
    unfold header_at, PacketHeader.parse, header_bytes_at, HEADER_SIZE, span in Hh.
    change (zlen sample_stream) with 70 in *.
    assert (zlen (ztake (pos + 64 - pos) (zdrop pos sample_stream)) < 64) as Hz
      by (rewrite zlen_take, zlen_drop by lia; change (zlen sample_stream) with 70; lia).
    by rewrite (proj2 (Z.ltb_lt _ _) Hz) in Hh. }
  assert (pos = 0 \/ pos = 1 \/ pos = 2 \/ pos = 3 \/ pos = 4 \/ pos = 5 \/ pos = 6) as Hcases by lia.
  repeat (destruct Hcases as [-> |Hcases]); try subst pos; vm_compute in Hh; try discriminate.
  injection Hh as <-. eexists. vm_compute. reflexivity.
Qed.


(** Where a body does not parse the scanners differ: the in-memory scanner
    looks for packets inside the authenticated packet, the streaming scanner
    passes over all of it. Here a slice checksum packet whose body is a whole
    Creator packet. *)
Definition nested_stream : list byte := packet_bytes TYPE_IFSC (zreplicate 16 x62) sample_packet.
Example nested_packet_differs :
  known (packets_of (B := reference_backends) BackendNative false nested_stream 0)
    = [(PCreator (CreatorPacket.mk [97; 98; 99]), 64, zreplicate 16 x61)] /\
  stream_events false nested_stream [112] 0 = [Seen].
Proof. vm_compute. done. Qed.
