(* ===== verification/Par2Set.v ===== *)
(** The recovery set, [crates/par2-rs/src/par2_set.rs]: the builder that
    deduplicates packets as a scan delivers them, Unicode file names, the
    loaders, merging, and the CRC-32 a file is expected to have. Hash maps are
    finite maps; where the code walks one, the walk is a fold over its entries
    and [Par2SetProps] shows that their order does not matter. The record of
    authenticated payloads and the capacity estimates are not modelled. *)
From stdpp Require Import gmap.
From S2P Require Import Prelude.
From S2P Require Import RarTypes.
From S2P Require Import Crc32.
From S2P Require Import Checksum.
From S2P Require Import Par2Types.
From S2P Require Import Par2Path.
From S2P Require Import Par2Packet.
From S2P Require Import StateM.
From S2P Require Import Par2Budget.
From S2P Require Import Par2Scan.
From S2P Require Import Par2Stream.

Lemma of_to_N b : Byte.of_N (Byte.to_N b) = Some b.
Proof. by destruct b. Qed.
#[export] Instance byte_countable : Countable byte := inj_countable Byte.to_N Byte.of_N of_to_N.

(** Maps keyed by file identifier. *)
#[global] Abbreviation by_file := (gmap (list byte)).

(** * Descriptions and names *)

Module FileDescription.
Record t := mk {
  file_id : FileId;
  hash_full : list byte;
  hash_16k : list byte;
  length : Z;
  par2_name : ustring;
  filename : ustring;
}.
Definition set_names (names : ustring * ustring) (d : t) : t :=
  mk (file_id d) (hash_full d) (hash_16k d) (length d) names.1 names.2.

(** The packet's fields. *)
Definition of_packet (fd : FileDescriptionPacket.t) : t :=
  mk (FileDescriptionPacket.file_id fd) (FileDescriptionPacket.hash_full fd) (FileDescriptionPacket.hash_16k fd)
     (FileDescriptionPacket.file_length fd) (FileDescriptionPacket.par2_name fd) (FileDescriptionPacket.filename fd).

(** The new description, and the names it had when they were replaced. *)
Definition adopt_unicode_name (windows : bool) (self : t) (name : ustring) : par2_result (t * option (ustring * ustring)) :=
  match translate_par2_name_to_relative windows name with
  | Ok filename' => Ok (set_names (name, filename') self, Some (par2_name self, filename self))
  | Err _ => Ok (self, None)
  | Panic => Panic
  end.
End FileDescription.

Inductive PacketAdmission := Retained | Duplicate | Rejected.
#[export] Instance PacketAdmission_eq_dec : EqDecision PacketAdmission.
Proof. solve_decision. Defined.

Module UnicodeNames.
Record t := mk {
  names : by_file (option ustring);
  originals : by_file (ustring * ustring);
}.
Definition default : t := mk ∅ ∅.

Definition would_duplicate (self : t) (packet : UnicodeFilenamePacket.t) : bool :=
  match names self !! UnicodeFilenamePacket.file_id packet with
  | Some (Some name) => bool_decide (name = UnicodeFilenamePacket.name packet)
  | Some None => true
  | None => false
  end.
Definition would_retain (self : t) (packet : UnicodeFilenamePacket.t) : bool :=
  negb (bool_decide (is_Some (names self !! UnicodeFilenamePacket.file_id packet)))
    && (Z.of_nat (size (names self)) <? MAX_FILES_PER_SET).

Definition add (self : t) (packet : UnicodeFilenamePacket.t) : PacketAdmission * t :=
  let file_id := UnicodeFilenamePacket.file_id packet in
  let full := MAX_FILES_PER_SET <=? Z.of_nat (size (names self)) in
  match names self !! file_id with
  | Some (Some name) =>
      if bool_decide (name = UnicodeFilenamePacket.name packet) then (Duplicate, self)
      else (Rejected, mk (<[file_id := None]> (names self)) (originals self))
  | Some None => (Duplicate, self)
  | None =>
      if full then (Rejected, self)
      else (Retained, mk (<[file_id := Some (UnicodeFilenamePacket.name packet)]> (names self)) (originals self))
  end.

(** [for (file_id, name) in names.iter()], over the originals and the files. *)
Definition apply_one (windows : bool) (st : by_file (ustring * ustring) * by_file FileDescription.t)
    (entry : list byte * option ustring)
    : par2_result (by_file (ustring * ustring) * by_file FileDescription.t) :=
  let '(originals, files) := st in
  let '(file_id, name) := entry in
  match files !! file_id with
  | None => Ok st
  | Some description =>
      match name with
      | Some name =>
          if negb (bool_decide (FileDescription.par2_name description = name)) then
            r ← FileDescription.adopt_unicode_name windows description name;
            let '(description, previous) := r in
            match previous with
            | Some previous =>
                Ok (match originals !! file_id with Some _ => originals | None => <[file_id := previous]> originals end,
                    <[file_id := description]> files)
            | None => Ok (originals, <[file_id := description]> files)
            end
          else Ok st
      | None =>
          match originals !! file_id with
          | Some previous => Ok (delete file_id originals, <[file_id := FileDescription.set_names previous description]> files)
          | None => Ok st
          end
      end
  end.
Fixpoint apply_all (windows : bool) (st : by_file (ustring * ustring) * by_file FileDescription.t)
    (entries : list (list byte * option ustring))
    : par2_result (by_file (ustring * ustring) * by_file FileDescription.t) :=
  match entries with
  | [] => Ok st
  | entry :: entries => st ← apply_one windows st entry; apply_all windows st entries
  end.
Definition apply (windows : bool) (self : t) (files : by_file FileDescription.t)
    : par2_result (t * by_file FileDescription.t) :=
  r ← apply_all windows (originals self, files) (map_to_list (names self));
  Ok (mk (names self) r.1, r.2).
End UnicodeNames.

(** * The set *)

Record RecoverySlice := mk_slice { rs_exponent : Z; rs_data : RecoverySliceData }.

Module Par2FileSet.
Record t := mk {
  recovery_set_id : RecoverySetId;
  slice_size : Z;
  recovery_file_ids : list FileId;
  non_recovery_file_ids : list FileId;
  files : by_file FileDescription.t;
  slice_checksums : by_file (list SliceChecksum);
  recovery_slices : gmap Z RecoverySlice;
  creator : option ustring;
  unicode_names : UnicodeNames.t;
}.
End Par2FileSet.

(** ** The builder *)

Module Builder.
Record t := mk {
  main_packet : option MainPacket.t;
  files : by_file FileDescription.t;
  slice_checksums : by_file (list SliceChecksum);
  recovery_slices : gmap Z RecoverySlice;
  creator : option ustring;
  unicode_names : UnicodeNames.t;
}.
Definition new : t := mk None ∅ ∅ ∅ None UnicodeNames.default.

Definition set_main (v : option MainPacket.t) (b : t) : t :=
  mk v (files b) (slice_checksums b) (recovery_slices b) (creator b) (unicode_names b).
Definition set_files (v : by_file FileDescription.t) (b : t) : t :=
  mk (main_packet b) v (slice_checksums b) (recovery_slices b) (creator b) (unicode_names b).
Definition set_checksums (v : by_file (list SliceChecksum)) (b : t) : t :=
  mk (main_packet b) (files b) v (recovery_slices b) (creator b) (unicode_names b).
Definition set_recovery (v : gmap Z RecoverySlice) (b : t) : t :=
  mk (main_packet b) (files b) (slice_checksums b) v (creator b) (unicode_names b).
Definition set_creator (v : option ustring) (b : t) : t :=
  mk (main_packet b) (files b) (slice_checksums b) (recovery_slices b) v (unicode_names b).
Definition set_names (v : UnicodeNames.t) (b : t) : t :=
  mk (main_packet b) (files b) (slice_checksums b) (recovery_slices b) (creator b) v.

Definition holds {K A} `{Countable K} (m : gmap K A) (k : K) : bool := bool_decide (is_Some (m !! k)).
Definition is_some {A} (o : option A) : bool := match o with Some _ => true | None => false end.

Definition would_duplicate (self : t) (packet : Packet) : bool :=
  match packet with
  | PMain _ => is_some (main_packet self)
  | PFileDescription desc => holds (files self) (FileDescriptionPacket.file_id desc)
  | PInputFileSliceChecksum ifsc => holds (slice_checksums self) (IfscPacket.file_id ifsc)
  | PRecoverySlice slice => holds (recovery_slices self) (RecoverySlicePacket.exponent slice)
  | PCreator _ => is_some (creator self)
  | PUnicodeFilename name => UnicodeNames.would_duplicate (unicode_names self) name
  | PUnknown _ _ => false
  end.

Definition would_retain (self : t) (packet : Packet) : bool :=
  match packet with
  | PMain _ => negb (is_some (main_packet self))
  | PFileDescription desc =>
      negb (holds (files self) (FileDescriptionPacket.file_id desc))
        && (Z.of_nat (size (files self)) <? MAX_FILES_PER_SET)
  | PInputFileSliceChecksum ifsc =>
      negb (holds (slice_checksums self) (IfscPacket.file_id ifsc))
        && (Z.of_nat (size (slice_checksums self)) <? MAX_FILES_PER_SET)
  | PRecoverySlice slice =>
      (RecoverySlicePacket.exponent slice <=? MAX_RECOVERY_EXPONENT)
        && negb (holds (recovery_slices self) (RecoverySlicePacket.exponent slice))
  | PCreator _ => negb (is_some (creator self))
  | PUnicodeFilename name => UnicodeNames.would_retain (unicode_names self) name
  | PUnknown _ _ => false
  end.

Definition building : Type -> Type := stateM t par2_error.

Definition add_packet (packet : Packet) (_offset : Z) : building PacketAdmission := fun self =>
  match packet with
  | PMain main =>
      match main_packet self with
      | Some existing =>
          if negb (bool_decide (MainPacket.recovery_set_id existing = MainPacket.recovery_set_id main))
          then (Err ConflictingRecoverySet, self)
          else (Ok Duplicate, self)
      | None => (Ok Retained, set_main (Some main) self)
      end
  | PFileDescription fd =>
      let file_id := FileDescriptionPacket.file_id fd in
      if holds (files self) file_id then (Ok Duplicate, self)
      else if MAX_FILES_PER_SET <=? Z.of_nat (size (files self)) then (Ok Rejected, self)
      else (Ok Retained, set_files (<[file_id := FileDescription.of_packet fd]> (files self)) self)
  | PInputFileSliceChecksum ifsc =>
      let file_id := IfscPacket.file_id ifsc in
      if holds (slice_checksums self) file_id then (Ok Duplicate, self)
      else if MAX_FILES_PER_SET <=? Z.of_nat (size (slice_checksums self)) then (Ok Rejected, self)
      else (Ok Retained, set_checksums (<[file_id := IfscPacket.checksums ifsc]> (slice_checksums self)) self)
  | PRecoverySlice rs =>
      let exponent := RecoverySlicePacket.exponent rs in
      if MAX_RECOVERY_EXPONENT <? exponent then (Ok Rejected, self)
      else match recovery_slices self !! exponent with
      | Some _ => (Ok Duplicate, self)
      | None => (Ok Retained,
          set_recovery (<[exponent := mk_slice exponent (RecoverySlicePacket.data rs)]> (recovery_slices self)) self)
      end
  | PCreator c =>
      match creator self with
      | None => (Ok Retained, set_creator (Some (CreatorPacket.creator_id c)) self)
      | Some _ => (Ok Duplicate, self)
      end
  | PUnicodeFilename name =>
      let '(admission, names) := UnicodeNames.add (unicode_names self) name in
      (Ok admission, set_names names self)
  | PUnknown _ _ => (Ok Rejected, self)
  end.

(** The builder next to the scan's budget. *)
Definition charged : Type -> Type := stateM (PacketScanBudget * t) par2_error.

Definition add_packet_budgeted `{Layout} (packet : Packet) (offset : Z) : charged PacketAdmission :=
  self ← gets snd;
  if negb (would_retain self packet) then on_snd (add_packet packet offset)
  else
    let bytes := packet_retained_bytes packet in
    _ ← on_fst (charge_retained bytes);
    admission ← on_snd (add_packet packet offset);
    _ ← (if bool_decide (admission = Retained) then mret tt else on_fst (release_retained bytes));
    mret admission.

(** [HashMap::retain] with a closure that may panic. *)
Fixpoint retain_entries {K A} (keep : K -> A -> par2_result bool) (entries : list (K * A)) : par2_result (list (K * A)) :=
  match entries with
  | [] => Ok []
  | (k, v) :: entries =>
      kept ← keep k v;
      rest ← retain_entries keep entries;
      Ok (match kept with true => (k, v) :: rest | false => rest end)
  end.
Definition retain {K A} `{Countable K} (keep : K -> A -> par2_result bool) (m : gmap K A) : par2_result (gmap K A) :=
  entries ← retain_entries keep (map_to_list m);
  Ok (list_to_map (M := gmap K A) entries).

(** [u64::div_ceil]. *)
Definition div_ceil (a b : Z) : par2_result Z :=
  if b =? 0 then Panic else Ok ((a + b - 1) / b).

Definition keep_recovery (slice_size : Z) (_exp : Z) (rs : RecoverySlice) : par2_result bool :=
  Ok (data_len (rs_data rs) =? slice_size).
Definition keep_checksums (files : by_file FileDescription.t) (slice_size : Z) (file_id : list byte)
    (checksums : list SliceChecksum) : par2_result bool :=
  match files !! file_id with
  | None => Ok false
  | Some desc =>
      expected ← (if FileDescription.length desc =? 0 then Ok 0 else div_ceil (FileDescription.length desc) slice_size);
      Ok (zlen checksums =? expected)
  end.

Definition build (windows : bool) (self : t) : par2_result Par2FileSet.t :=
  match main_packet self with
  | None => Err NoMainPacket
  | Some main =>
      applied ← UnicodeNames.apply windows (unicode_names self) (files self);
      let '(unicode_names, files) := applied in
      let slice_size := MainPacket.slice_size main in
      recovery_slices ← retain (keep_recovery slice_size) (recovery_slices self);
      slice_checksums ← retain (keep_checksums files slice_size) (slice_checksums self);
      Ok (Par2FileSet.mk (MainPacket.recovery_set_id main) slice_size (MainPacket.recovery_file_ids main)
            (MainPacket.non_recovery_file_ids main) files slice_checksums recovery_slices (creator self) unicode_names)
  end.
End Builder.

#[export] Instance BuilderSink `{Layout} : PacketSink Builder.t :=
  fun packet offset _set_id => _ ← Builder.add_packet_budgeted packet offset; mret tt.

(** ** Merging *)

Record MergeResult := mk_merged { new_recovery_slices : Z; duplicates_ignored : Z }.

(** [n += 1] on a [u32]. *)
Definition bump (n : Z) : par2_result Z := if n + 1 <? 2 ^ 32 then Ok (n + 1) else Panic.

Module Merge.
Import Par2FileSet.
Definition set_files (v : by_file FileDescription.t) (s : t) : t :=
  mk (recovery_set_id s) (slice_size s) (recovery_file_ids s) (non_recovery_file_ids s) v (slice_checksums s)
     (recovery_slices s) (creator s) (unicode_names s).
Definition set_checksums (v : by_file (list SliceChecksum)) (s : t) : t :=
  mk (recovery_set_id s) (slice_size s) (recovery_file_ids s) (non_recovery_file_ids s) (files s) v
     (recovery_slices s) (creator s) (unicode_names s).
Definition set_recovery (v : gmap Z RecoverySlice) (s : t) : t :=
  mk (recovery_set_id s) (slice_size s) (recovery_file_ids s) (non_recovery_file_ids s) (files s) (slice_checksums s)
     v (creator s) (unicode_names s).
Definition set_creator (v : option ustring) (s : t) : t :=
  mk (recovery_set_id s) (slice_size s) (recovery_file_ids s) (non_recovery_file_ids s) (files s) (slice_checksums s)
     (recovery_slices s) v (unicode_names s).
Definition set_names (v : UnicodeNames.t) (s : t) : t :=
  mk (recovery_set_id s) (slice_size s) (recovery_file_ids s) (non_recovery_file_ids s) (files s) (slice_checksums s)
     (recovery_slices s) (creator s) v.

Definition merging : Type -> Type := stateM t par2_error.

(** A Main packet of another set. *)
Definition foreign_main (self : t) (packet : Packet) : bool :=
  match packet with
  | PMain main => negb (bool_decide (MainPacket.recovery_set_id main = recovery_set_id self))
  | _ => false
  end.

(** The loop's body: the counters of new slices and of duplicates. *)
Definition merge_one (counts : MergeResult) (packet : Packet) : merging MergeResult := fun self =>
  let duplicate := d ← bump (duplicates_ignored counts); Ok (mk_merged (new_recovery_slices counts) d) in
  match packet with
  | PMain main => if foreign_main self packet then (Err ConflictingRecoverySet, self) else (duplicate, self)
  | PFileDescription fd =>
      let file_id := FileDescriptionPacket.file_id fd in
      match files self !! file_id with
      | None => (Ok counts, set_files (<[file_id := FileDescription.of_packet fd]> (files self)) self)
      | Some _ => (duplicate, self)
      end
  | PInputFileSliceChecksum ifsc =>
      let file_id := IfscPacket.file_id ifsc in
      match slice_checksums self !! file_id with
      | None => (Ok counts, set_checksums (<[file_id := IfscPacket.checksums ifsc]> (slice_checksums self)) self)
      | Some _ => (duplicate, self)
      end
  | PRecoverySlice rs =>
      let exponent := RecoverySlicePacket.exponent rs in
      match recovery_slices self !! exponent with
      | None =>
          ((n ← bump (new_recovery_slices counts); Ok (mk_merged n (duplicates_ignored counts))),
           set_recovery (<[exponent := mk_slice exponent (RecoverySlicePacket.data rs)]> (recovery_slices self)) self)
      | Some _ => (duplicate, self)
      end
  | PCreator c =>
      match creator self with
      | None => (Ok counts, set_creator (Some (CreatorPacket.creator_id c)) self)
      | Some _ => (duplicate, self)
      end
  | PUnicodeFilename name =>
      let '(admission, names) := UnicodeNames.add (unicode_names self) name in
      ((if bool_decide (admission = Duplicate) then duplicate else Ok counts), set_names names self)
  | PUnknown _ _ => (Ok counts, self)
  end.
Fixpoint merge_all (counts : MergeResult) (packets : list Packet) : merging MergeResult :=
  match packets with
  | [] => mret counts
  | packet :: packets => counts ← merge_one counts packet; merge_all counts packets
  end.

Definition apply_names (windows : bool) : merging unit := fun self =>
  match UnicodeNames.apply windows (unicode_names self) (files self) with
  | Ok (names, files) => (Ok tt, set_names names (set_files files self))
  | Err e => (Err e, self)
  | Panic => (Panic, self)
  end.

Definition merge_packets (windows : bool) (packets : list Packet) : merging MergeResult := fun self =>
  if existsb (foreign_main self) packets then (Err ConflictingRecoverySet, self)
  else (counts ← merge_all (mk_merged 0 0) packets; _ ← apply_names windows; mret counts) self.
End Merge.

(** ** Queries *)

Module Query.
Import Par2FileSet.

Definition slice_count_for_file (self : t) (file_length : Z) : par2_result Z :=
  if (file_length =? 0) || (slice_size self =? 0) then Ok 0
  else count ← Builder.div_ceil file_length (slice_size self); Ok (if count <? 2 ^ 32 then count else 2 ^ 32 - 1).

(** [filter_map] of the descriptions. *)
Definition recovery_files (self : t) : list FileDescription.t := omap (fun id => files self !! id) (recovery_file_ids self).
Definition recovery_block_count (self : t) : Z := wrap32 (Z.of_nat (size (recovery_slices self))).

Section crc.
(** [crc32]: the one-shot CRC of [crc_turbo]. *)
Context {B : Backends} (crc32 : list byte -> Z).

(** The CRC of slice [index] without its padding, appended to the prefix. *)
Definition append_slice (self : t) (description : FileDescription.t) (count index : Z) (file_crc : option Z)
    (checksum : SliceChecksum) : par2_result (option Z) :=
  let length := FileDescription.length description in
  let is_last := index + 1 =? count in
  let short_final_slice := is_last && negb (length mod slice_size self =? 0) in
  let slice_len := if short_final_slice then length mod slice_size self else slice_size self in
  slice_crc ← (if short_final_slice then
      match checked_sub_u64 (slice_size self) slice_len with
      | None => Ok None
      | Some padding_len =>
          padding_crc ← crc32_padded [] padding_len;
          crc ← crc32_uncombine (sc_crc32 checksum) padding_crc padding_len;
          Ok (Some crc)
      end
    else Ok (Some (sc_crc32 checksum)));
  match slice_crc with
  | None => Ok None
  | Some slice_crc =>
      match file_crc with
      | Some prefix_crc => crc ← crc32_combine prefix_crc slice_crc slice_len; Ok (Some crc)
      | None => Ok (Some slice_crc)
      end
  end.

(** [for (index, checksum) in checksums.iter().enumerate()]; [?] returns
    [None] at once. *)
Fixpoint append_slices (self : t) (description : FileDescription.t) (count index : Z) (file_crc : option Z)
    (checksums : list SliceChecksum) : par2_result (option Z) :=
  match checksums with
  | [] => Ok file_crc
  | checksum :: checksums =>
      crc ← append_slice self description count index file_crc checksum;
      match crc with
      | None => Ok None
      | Some crc => append_slices self description count (index + 1) (Some crc) checksums
      end
  end.

Definition expected_file_crc32 (self : t) (file_id : FileId) : par2_result (option Z) :=
  match files self !! file_id with
  | None => Ok None
  | Some description =>
      if slice_size self =? 0 then Ok None
      else if FileDescription.length description =? 0 then
        match slice_checksums self !! file_id with
        | Some checksums => if is_nil checksums then Ok (Some (crc32 [])) else Ok None
        | None => Ok (Some (crc32 []))
        end
      else
        expected_slice_count ← Builder.div_ceil (FileDescription.length description) (slice_size self);
        if 2 ^ 32 - 1 <? expected_slice_count then Ok None
        else match slice_checksums self !! file_id with
        | None => Ok None
        | Some checksums =>
            if negb (zlen checksums =? expected_slice_count) then Ok None
            else append_slices self description (zlen checksums) 0 None checksums
        end
  end.
End crc.
End Query.

(** * Loading *)

Section load.
Context {B : Backends} {buffering : Buffering} `{Layout} (backend : Par2Md5Backend) (windows : bool).

(** The builder a scan leaves, built. *)
Definition built (scanned : par2_result unit * (PacketScanBudget * Builder.t)) : par2_result Par2FileSet.t :=
  _ ← scanned.1; Builder.build windows scanned.2.2.

Fixpoint scan_files (par2_files : list (list byte)) : Builder.charged unit :=
  match par2_files with
  | [] => mret tt
  | data :: par2_files => _ ← scan_packets_bounded backend windows data 0; scan_files par2_files
  end.
Definition from_files_with_limits (par2_files : list (list byte)) (limits : PacketScanLimits) : par2_result Par2FileSet.t :=
  built (scan_files par2_files (budget_new limits, Builder.new)).
Definition from_files (par2_files : list (list byte)) : par2_result Par2FileSet.t :=
  from_files_with_limits par2_files default_limits.

(** A path, and what opening it gives. *)
Fixpoint scan_paths (par2_files : list (ustring * par2_result (list byte))) : Builder.charged unit :=
  match par2_files with
  | [] => mret tt
  | (path, file) :: par2_files =>
      _ ← scan_packets_from_path_bounded backend windows path file; scan_paths par2_files
  end.
Definition from_paths_with_limits (par2_files : list (ustring * par2_result (list byte))) (limits : PacketScanLimits)
    : par2_result Par2FileSet.t :=
  built (scan_paths par2_files (budget_new limits, Builder.new)).
Definition from_paths (par2_files : list (ustring * par2_result (list byte))) : par2_result Par2FileSet.t :=
  from_paths_with_limits par2_files default_limits.

Fixpoint add_packets (packets : list Packet) : Builder.charged unit :=
  match packets with
  | [] => mret tt
  | packet :: packets => _ ← Builder.add_packet_budgeted packet 0; add_packets packets
  end.
Definition from_packets (packets : list Packet) : par2_result Par2FileSet.t :=
  built (add_packets packets (budget_new default_limits, Builder.new)).

(** ** With diagnostics *)

Inductive Damage := PacketError (offset : Z) (error : par2_error) | NoValidPackets.
Record Par2Diagnostic := mk_diagnostic { damaged_files : list (Z * Damage); skipped_packets : Z }.

(** What the closure captures: the builder, the diagnostic, [accepted]. *)
Record Diagnosing := mk_diagnosing { d_builder : Builder.t; d_diagnostic : Par2Diagnostic; d_accepted : Z }.

Definition push_damage (i : Z) (damage : Damage) (d : Par2Diagnostic) : par2_result Par2Diagnostic :=
  skipped ← bump (skipped_packets d);
  Ok (mk_diagnostic (damaged_files d ++ [(i, damage)]) skipped).

Definition diagnostic_sink (i : Z) : PacketSink Diagnosing := fun packet offset _set_id st =>
  match add_u64 (d_accepted st.2) 1 with
  | Ok accepted =>
      let '(r, (budget, builder)) := Builder.add_packet_budgeted packet offset (st.1, d_builder st.2) in
      let st := mk_diagnosing builder (d_diagnostic st.2) accepted in
      match r with
      | Ok _ => (Ok tt, (budget, st))
      | Err ResourceLimitExceeded => (Err ResourceLimitExceeded, (budget, st))
      | Err Cancelled => (Err Cancelled, (budget, st))
      | Err error =>
          match push_damage i (PacketError offset error) (d_diagnostic st) with
          | Ok diagnostic => (Ok tt, (budget, mk_diagnosing builder diagnostic accepted))
          | Err e => (Err e, (budget, st))
          | Panic => (Panic, (budget, st))
          end
      | Panic => (Panic, (budget, st))
      end
  | Err e => (Err e, st)
  | Panic => (Panic, st)
  end.

Definition reset_accepted (st : Diagnosing) : Diagnosing := mk_diagnosing (d_builder st) (d_diagnostic st) 0.
Definition nothing_found (i : Z) (data : list byte) : stateM (PacketScanBudget * Diagnosing) par2_error unit := fun st =>
  if (d_accepted st.2 =? 0) && negb (is_nil data) then
    match push_damage i NoValidPackets (d_diagnostic st.2) with
    | Ok diagnostic => (Ok tt, (st.1, mk_diagnosing (d_builder st.2) diagnostic (d_accepted st.2)))
    | Err e => (Err e, st)
    | Panic => (Panic, st)
    end
  else (Ok tt, st).
Fixpoint diagnose_files (i : Z) (par2_files : list (list byte)) : stateM (PacketScanBudget * Diagnosing) par2_error unit :=
  match par2_files with
  | [] => mret tt
  | data :: par2_files =>
      _ ← on_snd (modify reset_accepted);
      _ ← @scan_packets_bounded B backend windows Diagnosing (diagnostic_sink i) data 0;
      _ ← nothing_found i data;
      diagnose_files (i + 1) par2_files
  end.
Definition from_files_with_diagnostics (par2_files : list (list byte)) : par2_result (Par2FileSet.t * Par2Diagnostic) :=
  let '(r, (_, st)) := diagnose_files 0 par2_files
    (budget_new default_limits, mk_diagnosing Builder.new (mk_diagnostic [] 0) 0) in
  _ ← r;
  file_set ← Builder.build windows (d_builder st);
  Ok (file_set, d_diagnostic st).

(** ** Incremental scan *)

Record Par2FileSetScanner := mk_scanner { s_budget : PacketScanBudget; s_builder : Builder.t; s_failed : bool }.
Definition Par2FileSetScanner_new (limits : PacketScanLimits) : Par2FileSetScanner :=
  mk_scanner (budget_new limits) Builder.new false.

Definition scan_path (path : ustring) (file : par2_result (list byte)) : stateM Par2FileSetScanner par2_error unit := fun self =>
  if s_failed self then (Err ResourceLimitExceeded, self)
  else
    let '(r, (budget, builder)) := scan_packets_from_path_bounded backend windows path file (s_budget self, s_builder self) in
    match r with
    | Ok _ => (Ok tt, mk_scanner budget builder false)
    | Err e => (Err e, mk_scanner budget builder true)
    | Panic => (Panic, mk_scanner budget builder true)
    end.
Definition scanner_recovery_set_id (self : Par2FileSetScanner) : option RecoverySetId :=
  MainPacket.recovery_set_id <$> Builder.main_packet (s_builder self).
Definition finish (self : Par2FileSetScanner) : par2_result Par2FileSet.t :=
  if s_failed self then Err ResourceLimitExceeded else Builder.build windows (s_builder self).
End load.
