(* ===== verification/Par2Names.v ===== *)
(** File names of a recovery set: applying the Unicode names is order
    independent, and merging packets in batches reaches the set one scan of
    all of them builds. *)
From Stdlib Require Import Strings.String.
From stdpp Require Import gmap.
From S2P Require Import Prelude.
From S2P Require Import RarTypes.
From S2P Require Import Par2Types.
From S2P Require Import Par2Path.
From S2P Require Import Par2Packet.
From S2P Require Import StateM.
From S2P Require Import Par2Budget.
From S2P Require Import Par2Scan.
From S2P Require Import Par2ScanProps.
From S2P Require Import Par2Set.

(** * The reference: what a sequence of packets says *)

(** The first description of each file. *)
Definition describe (m : by_file FileDescription.t) (p : Packet) : by_file FileDescription.t :=
  match p with
  | PFileDescription fd =>
      match m !! FileDescriptionPacket.file_id fd with
      | Some _ => m
      | None => <[FileDescriptionPacket.file_id fd := FileDescription.of_packet fd]> m
      end
  | _ => m
  end.
Definition described (ps : list Packet) : by_file FileDescription.t := foldl describe ∅ ps.

(** The name a file's packets agree on, [None] once two differ. *)
Definition agree (m : by_file (option ustring)) (p : Packet) : by_file (option ustring) :=
  match p with
  | PUnicodeFilename u =>
      let id := UnicodeFilenamePacket.file_id u in
      let name := UnicodeFilenamePacket.name u in
      match m !! id with
      | Some (Some old) => if bool_decide (old = name) then m else <[id := None]> m
      | Some None => m
      | None => if MAX_FILES_PER_SET <=? Z.of_nat (size m) then m else <[id := Some name]> m
      end
  | _ => m
  end.
Definition agreed (ps : list Packet) : by_file (option ustring) := foldl agree ∅ ps.

Definition first_creator (c : option ustring) (p : Packet) : option ustring :=
  match p, c with PCreator x, None => Some (CreatorPacket.creator_id x) | _, _ => c end.
Definition creator_of (ps : list Packet) : option ustring := foldl first_creator None ps.

Definition first_main (m : option MainPacket.t) (p : Packet) : option MainPacket.t :=
  match p, m with PMain x, None => Some x | _, _ => m end.
Definition main_of (ps : list Packet) : option MainPacket.t := foldl first_main None ps.

(** The first payload of each usable exponent. *)
Definition collect_slice (m : gmap Z RecoverySlice) (p : Packet) : gmap Z RecoverySlice :=
  match p with
  | PRecoverySlice r =>
      let e := RecoverySlicePacket.exponent r in
      if MAX_RECOVERY_EXPONENT <? e then m
      else match m !! e with Some _ => m | None => <[e := mk_slice e (RecoverySlicePacket.data r)]> m end
  | _ => m
  end.
Definition slices_of (ps : list Packet) : gmap Z RecoverySlice := foldl collect_slice ∅ ps.

(** * Names in final form *)

Section names.
Context (windows : bool).

(** A description under what is agreed of its name. *)
Definition final_desc (d : FileDescription.t) (name : option (option ustring)) : FileDescription.t :=
  match name with
  | Some (Some n) =>
      if bool_decide (FileDescription.par2_name d = n) then d
      else match translate_par2_name_to_relative windows n with
      | Ok f => FileDescription.set_names (n, f) d
      | _ => d
      end
  | _ => d
  end.
Definition final_original (d : FileDescription.t) (name : option (option ustring)) : option (ustring * ustring) :=
  match name with
  | Some (Some n) =>
      if bool_decide (FileDescription.par2_name d = n) then None
      else match translate_par2_name_to_relative windows n with
      | Ok _ => Some (FileDescription.par2_name d, FileDescription.filename d)
      | _ => None
      end
  | _ => None
  end.

(** What later packets can make of what is known of a name. *)
Definition refined (a b : option (option ustring)) : Prop :=
  a = b \/ a = None \/ b = Some None.

Lemma refined_trans a b c : refined a b -> refined b c -> a = None \/ (exists x, b = Some x) -> refined a c.
Proof. unfold refined. intros [-> |[-> | ->]] [-> |[-> | ->]] [Hn|[x Hx]]; simplify_eq; auto. Qed.

(** The effect of [apply] on one file. *)
Definition apply_id (name : option ustring) (st : option (ustring * ustring) * option FileDescription.t)
    : option (ustring * ustring) * option FileDescription.t :=
  let '(original, file) := st in
  match file with
  | None => st
  | Some d =>
      match name with
      | Some n =>
          if bool_decide (FileDescription.par2_name d = n) then st
          else match translate_par2_name_to_relative windows n with
          | Ok f => (Some (default (FileDescription.par2_name d, FileDescription.filename d) original),
                     Some (FileDescription.set_names (n, f) d))
          | _ => st
          end
      | None =>
          match original with
          | Some previous => (None, Some (FileDescription.set_names previous d))
          | None => st
          end
      end
  end.

Definition at_id (st : by_file (ustring * ustring) * by_file FileDescription.t) (id : list byte) :=
  (st.1 !! id, st.2 !! id).

Lemma apply_one_id st id name : exists st', UnicodeNames.apply_one windows st (id, name) = Ok st' /\
  at_id st' id = apply_id name (at_id st id) /\ forall id', id' <> id -> at_id st' id' = at_id st id'.
Proof.
  destruct st as [os fs]. unfold UnicodeNames.apply_one, apply_id, at_id. cbn [fst snd].
  destruct (fs !! id) as [d|] eqn:Hf; [|by exists (os, fs); cbn [fst snd]; rewrite Hf].
  destruct name as [n|].
  - case_bool_decide as Hn; cbn [negb]; [by exists (os, fs); cbn [fst snd]; rewrite Hf|].
    unfold FileDescription.adopt_unicode_name. rewrite translate_eq.
    destruct (is_nil n); rewrite ?bind_Ok; cbn [mbind outcome_bind].
    + eexists. split; [done|]. cbn [fst snd]. rewrite lookup_insert_eq. split; [done|].
      intros id' Hid. by rewrite lookup_insert_ne by done.
    + eexists. split; [done|]. cbn [fst snd]. rewrite lookup_insert_eq. split.
      * destruct (os !! id) eqn:Ho; [by rewrite Ho|]. by rewrite lookup_insert_eq.
      * intros id' Hid. rewrite (lookup_insert_ne fs) by done. destruct (os !! id); [done|].
        by rewrite lookup_insert_ne by done.
  - destruct (os !! id) as [p|] eqn:Ho; [|by exists (os, fs); cbn [fst snd]; rewrite Hf, Ho].
    eexists. split; [done|]. cbn [fst snd]. rewrite lookup_insert_eq, lookup_delete_eq. split; [done|].
    intros id' Hid. by rewrite lookup_insert_ne, lookup_delete_ne by done.
Qed.

(** Each entry acts on its own file: the order of the walk is immaterial. *)
Lemma apply_all_id entries st : NoDup entries.*1 -> exists st', UnicodeNames.apply_all windows st entries = Ok st' /\
  forall id, (forall name, (id, name) ∈ entries -> at_id st' id = apply_id name (at_id st id)) /\
    (id ∉ entries.*1 -> at_id st' id = at_id st id).
Proof.
  revert st. induction entries as [|[id name] entries IH]; intros st Hnd; cbn [UnicodeNames.apply_all].
  { eexists. split; [done|]. intros id. split; [|done]. intros name Hin. by apply elem_of_nil in Hin. }
  cbn [fmap list_fmap] in Hnd. apply list.NoDup_cons in Hnd as [Hout Hnd]. cbn [fst] in Hout.
  destruct (apply_one_id st id name) as (st1 & -> & Hid & Hother). rewrite bind_Ok.
  destruct (IH st1 Hnd) as (st2 & -> & H2). exists st2. split; [done|]. intros i. destruct (H2 i) as [Hin Hnot]. split.
  - intros nm [[= -> ->]|He]%elem_of_cons; [by rewrite Hnot|].
    rewrite (Hin nm He), Hother; [done|]. intros ->. apply Hout. apply list_elem_of_fmap. by exists (id, nm).
  - intros Hni. cbn [fmap list_fmap fst] in Hni. apply not_elem_of_cons in Hni as [Hne Hni]. by rewrite Hnot, Hother.
Qed.

Lemma apply_lookup names files : exists originals' files',
  UnicodeNames.apply windows names files = Ok (UnicodeNames.mk (UnicodeNames.names names) originals', files') /\
  forall id, (originals' !! id, files' !! id) =
    match UnicodeNames.names names !! id with
    | Some name => apply_id name (UnicodeNames.originals names !! id, files !! id)
    | None => (UnicodeNames.originals names !! id, files !! id)
    end.
Proof.
  unfold UnicodeNames.apply.
  destruct (apply_all_id (map_to_list (UnicodeNames.names names)) (UnicodeNames.originals names, files)) as ([os fs] & -> & H).
  { apply NoDup_fst_map_to_list. }
  exists os, fs. split; [done|]. intros id. destruct (H id) as [Hin Hout]. unfold at_id in *. cbn [fst snd] in *.
  destruct (UnicodeNames.names names !! id) as [name|] eqn:Hn.
  - apply Hin. by apply elem_of_map_to_list.
  - apply Hout. intros ([i nm] & -> & Hi)%list_elem_of_fmap. apply elem_of_map_to_list in Hi. cbn in Hn. congruence.
Qed.

(** A file's original and current description stand for [base] under [prev]. *)
Definition form (base : option FileDescription.t) (prev : option (option ustring))
    : option (ustring * ustring) * option FileDescription.t :=
  (base ≫= fun d => final_original d prev, (fun d => final_desc d prev) <$> base).

Lemma set_names_back d names : FileDescription.set_names (FileDescription.par2_name d, FileDescription.filename d)
  (FileDescription.set_names names d) = d.
Proof. by destruct d. Qed.

(** Applying brings any earlier form up to date. *)
Lemma apply_id_form base prev name : refined prev (Some name) ->
  apply_id name (form base prev) = form base (Some name).
Proof.
  intros Hr. destruct base as [d|]; [|done]. unfold form, apply_id. cbn [mbind option_bind fmap option_fmap option_map].
  assert (apply_id name (final_original d None, Some (final_desc d None)) =
    (final_original d (Some name), Some (final_desc d (Some name)))) as Hfresh.
  { unfold apply_id, final_original, final_desc. destruct name as [n|]; [|done]. case_bool_decide; [done|].
    by destruct (translate_par2_name_to_relative windows n). }
  destruct Hr as [-> |[-> | Hb]]; [|exact Hfresh|].
  - destruct name as [n|]; [|done]. unfold final_desc, final_original.
    destruct (decide (FileDescription.par2_name d = n)) as [Hn|Hn].
    + by rewrite !(bool_decide_true (FileDescription.par2_name d = n)).
    + rewrite !(bool_decide_false (FileDescription.par2_name d = n)) by done.
      destruct (translate_par2_name_to_relative windows n) eqn:Ht; cbn [FileDescription.set_names FileDescription.par2_name fst].
      * by rewrite bool_decide_true.
      * rewrite bool_decide_false by done. done.
      * rewrite bool_decide_false by done. done.
  - injection Hb as ->. unfold final_original, final_desc. destruct prev as [[n|]|]; [|done|done].
    case_bool_decide; [done|]. destruct (translate_par2_name_to_relative windows n); [|done|done].
    by rewrite set_names_back.
Qed.
Lemma apply_form base prev name : refined prev name ->
  match name with Some name => apply_id name (form base prev) | None => form base prev end = form base name.
Proof.
  intros Hr. destruct name as [name|]; [by apply apply_id_form|]. by destruct Hr as [-> |[-> |]].
Qed.

(** The state a file's name is in: [base] under some earlier knowledge. *)
Definition staged (base : by_file FileDescription.t) (names : UnicodeNames.t) (files : by_file FileDescription.t) : Prop :=
  forall id, exists prev, refined prev (UnicodeNames.names names !! id) /\
    (UnicodeNames.originals names !! id, files !! id) = form (base !! id) prev.
(** Up to date. *)
Definition settled (base : by_file FileDescription.t) (names : UnicodeNames.t) (files : by_file FileDescription.t) : Prop :=
  forall id, (UnicodeNames.originals names !! id, files !! id) = form (base !! id) (UnicodeNames.names names !! id).

Lemma settled_staged base names files : settled base names files -> staged base names files.
Proof. intros H id. exists (UnicodeNames.names names !! id). split; [by left|apply H]. Qed.

Lemma apply_settles base names files : staged base names files -> exists names' files',
  UnicodeNames.apply windows names files = Ok (names', files') /\
  UnicodeNames.names names' = UnicodeNames.names names /\ settled base names' files'.
Proof.
  intros Hst. destruct (apply_lookup names files) as (os & fs & -> & Hl). do 2 eexists. split; [done|]. split; [done|].
  intros id. cbn [UnicodeNames.originals UnicodeNames.names]. rewrite Hl. destruct (Hst id) as (prev & Hr & ->).
  by apply apply_form.
Qed.

Lemma settled_unique base n1 f1 n2 f2 : UnicodeNames.names n1 = UnicodeNames.names n2 ->
  settled base n1 f1 -> settled base n2 f2 -> n1 = n2 /\ f1 = f2.
Proof.
  intros Hn H1 H2. destruct n1 as [ns o1], n2 as [ns2 o2]. cbn in Hn. subst ns2.
  assert (forall id, (o1 !! id, f1 !! id) = (o2 !! id, f2 !! id)) as H.
  { intros id. etrans; [apply (H1 id)|]. symmetry. apply (H2 id). }
  split; [f_equal|]; apply map_eq; intros id; specialize (H id); congruence.
Qed.

(** ** A packet more *)

Lemma agree_add names u : UnicodeNames.names (UnicodeNames.add names u).2 = agree (UnicodeNames.names names) (PUnicodeFilename u)
  /\ UnicodeNames.originals (UnicodeNames.add names u).2 = UnicodeNames.originals names.
Proof.
  unfold UnicodeNames.add, agree. destruct (UnicodeNames.names names !! _) as [[old|]|]; [|done|].
  - by case_bool_decide.
  - by destruct (MAX_FILES_PER_SET <=? _).
Qed.

Lemma agree_refines m p id : refined (m !! id) (agree m p !! id) /\ (is_Some (m !! id) -> is_Some (agree m p !! id)).
Proof.
  destruct p; try (split; [by left|done]). cbn. generalize (UnicodeFilenamePacket.file_id p) as i. intros i.
  destruct (decide (id = i)) as [-> |Hne].
  - destruct (m !! i) as [[old|]|] eqn:Hi.
    + case_bool_decide; rewrite ?Hi, ?lookup_insert_eq; (split; [|done]); [by left|by right; right].
    + split; [by left|done].
    + split; [by right; left|by intros []].
  - destruct (m !! i) as [[old|]|]; [case_bool_decide| |destruct (_ <=? _)]; rewrite ?lookup_insert_ne by done;
      (split; [by left|done]).
Qed.

Lemma staged_grows base names files p names' files' :
  staged base names files ->
  UnicodeNames.names names' = agree (UnicodeNames.names names) p ->
  UnicodeNames.originals names' = UnicodeNames.originals names ->
  files' = describe files p ->
  staged (describe base p) names' files'.
Proof.
  intros Hst Hn Ho -> id. destruct (Hst id) as (prev & Hr & Hf). rewrite Hn, Ho.
  destruct (agree_refines (UnicodeNames.names names) p id) as [Hr2 Hsome].
  assert (refined prev (agree (UnicodeNames.names names) p !! id)) as Hr'.
  { destruct (UnicodeNames.names names !! id) as [x|] eqn:Hx.
    - eapply refined_trans; [exact Hr|exact Hr2|right; by eexists].
    - destruct Hr as [-> |[-> |]]; [by right; left..|done]. }
  destruct p as [| fd | | | | |]; try (exists prev; split; [done|exact Hf]). cbn [describe].
  set (i := FileDescriptionPacket.file_id fd) in *.
  assert (is_Some (files !! i) <-> is_Some (base !! i)) as Hdom.
  { destruct (Hst i) as (pi & _ & Hi). apply (f_equal snd) in Hi. cbn in Hi. rewrite Hi. apply fmap_is_Some. }
  destruct (files !! i) eqn:Hfi, (base !! i) eqn:Hbi.
  - by exists prev.
  - destruct Hdom as [Hd _]. by destruct Hd.
  - destruct Hdom as [_ Hd]. by destruct Hd.
  - destruct (decide (id = i)) as [-> |Hne].
    + exists None. rewrite !lookup_insert_eq. split; [by right; left|].
      apply (f_equal fst) in Hf. rewrite Hbi in Hf. cbn in Hf. by rewrite Hf.
    + exists prev. rewrite !lookup_insert_ne by done. done.
Qed.
End names.

(** * What builders and sets hold *)

Lemma foldl_snoc_eq {A B} (f : A -> B -> A) a l x : foldl f a (l ++ [x]) = f (foldl f a l) x.
Proof. by rewrite foldl_app. Qed.

(** Descriptions only accumulate. *)
Lemma describe_grows m p : m ⊆ describe m p.
Proof.
  destruct p; try done. cbn. destruct (m !! _) eqn:Hm; [done|]. by apply insert_subseteq.
Qed.
Lemma described_grows m qs : m ⊆ foldl describe m qs.
Proof.
  revert m. induction qs as [|q qs IH]; intros m; [done|]. cbn [foldl].
  etrans; [apply (describe_grows m q)|apply IH].
Qed.
Lemma described_size ps qs : (size (described ps) <= size (described (ps ++ qs)))%nat.
Proof. apply map_subseteq_size. unfold described. rewrite foldl_app. apply described_grows. Qed.

(** The builder holds what the packets say. *)
Record builder_holds (ps : list Packet) (b : Builder.t) : Prop := {
  bh_main : Builder.main_packet b = main_of ps;
  bh_files : Builder.files b = described ps;
  bh_names : Builder.unicode_names b = UnicodeNames.mk (agreed ps) ∅;
  bh_creator : Builder.creator b = creator_of ps;
  bh_slices : Builder.recovery_slices b = slices_of ps;
}.

Lemma builder_holds_new : builder_holds [] Builder.new.
Proof. by split. Qed.

Lemma names_eta (n : UnicodeNames.t) : n = UnicodeNames.mk (UnicodeNames.names n) (UnicodeNames.originals n).
Proof. by destruct n. Qed.

Lemma holds_spec {K A} `{Countable K} (m : gmap K A) k : Builder.holds m k = match m !! k with Some _ => true | None => false end.
Proof. unfold Builder.holds. case_bool_decide as Hk; destruct (m !! k); done || (by destruct Hk). Qed.

(** One packet, field by field. *)
Lemma add_packet_steps b p o a b' : Builder.add_packet p o b = (Ok a, b') ->
  Z.of_nat (size (describe (Builder.files b) p)) <= MAX_FILES_PER_SET ->
  Builder.main_packet b' = first_main (Builder.main_packet b) p /\
  Builder.files b' = describe (Builder.files b) p /\
  Builder.unicode_names b' = UnicodeNames.mk (agree (UnicodeNames.names (Builder.unicode_names b)) p)
    (UnicodeNames.originals (Builder.unicode_names b)) /\
  Builder.creator b' = first_creator (Builder.creator b) p /\
  Builder.recovery_slices b' = collect_slice (Builder.recovery_slices b) p.
Proof.
  destruct b as [bm bf bk bs bc bn]. intros Hadd Hsize. destruct p as [m|fd|i|r|c|u|ty body]; cbn in *.
  - destruct bm; [case_bool_decide|]; simplify_eq/=; by destruct bn.
  - rewrite holds_spec in Hadd. destruct (bf !! FileDescriptionPacket.file_id fd) eqn:Hfd.
    + simplify_eq/=. by destruct bn.
    + rewrite map_size_insert_None in Hsize by done. rewrite (proj2 (Z.leb_gt _ _)) in Hadd by lia.
      simplify_eq/=. by destruct bn.
  - destruct (Builder.holds bk _); [|destruct (_ <=? _)]; simplify_eq/=; by destruct bn.
  - destruct (MAX_RECOVERY_EXPONENT <? _); [|destruct (bs !! _)]; simplify_eq/=; by destruct bn.
  - destruct bc; simplify_eq/=; by destruct bn.
  - pose proof (agree_add bn u) as [Hn Ho]. destruct (UnicodeNames.add bn u) as [adm n']. cbn in *.
    simplify_eq/=. split_and!; try done. rewrite (names_eta n'). by rewrite <- Hn, <- Ho.
  - simplify_eq/=. by destruct bn.
Qed.

Lemma add_packet_holds ps b p o a b' : builder_holds ps b ->
  Z.of_nat (size (described (ps ++ [p]))) <= MAX_FILES_PER_SET ->
  Builder.add_packet p o b = (Ok a, b') -> builder_holds (ps ++ [p]) b'.
Proof.
  intros [Hm Hf Hn Hc Hs] Hsize Hadd. unfold described in *. rewrite foldl_snoc_eq in Hsize. rewrite <- Hf in Hsize.
  apply add_packet_steps in Hadd as (H1 & H2 & H3 & H4 & H5); [|done]. rewrite Hn in H3. cbn in H3.
  split; unfold main_of, described, agreed, creator_of, slices_of in *; rewrite foldl_snoc_eq; congruence.
Qed.

(** A budgeted packet that is accepted went through [add_packet]. *)
Lemma budgeted_accepts `{Layout} p o st a st' : Builder.add_packet_budgeted p o st = (Ok a, st') ->
  Builder.add_packet p o st.2 = (Ok a, st'.2).
Proof.
  destruct st as [bud b]. unfold Builder.add_packet_budgeted, mbind, stateM_bind, gets, on_fst, on_snd, mret, stateM_ret. cbn.
  destruct (Builder.would_retain b p); cbn.
  - destruct (charge_retained _ bud) as [[[]|e|] bud']; [|done|done]. cbn.
    destruct (Builder.add_packet p o b) as [[adm|e|] b']; [|done|done]. cbn. case_bool_decide; cbn.
    + by intros [= -> <-].
    + destruct (release_retained _ bud') as [[[]|e|] bud'']; [|done|done]. by intros [= -> <-].
  - destruct (Builder.add_packet p o b) as [r b']. by intros [= -> <-].
Qed.

Lemma add_packets_holds `{Layout} ps qs bud b st : builder_holds ps b ->
  Z.of_nat (size (described (ps ++ qs))) <= MAX_FILES_PER_SET ->
  add_packets qs (bud, b) = (Ok tt, st) -> builder_holds (ps ++ qs) st.2.
Proof.
  revert ps bud b. induction qs as [|q qs IH]; intros ps bud b Hh Hsize; cbn [add_packets].
  { intros [= <-]. by rewrite app_nil_r. }
  rewrite cons_middle in *. rewrite app_assoc in *. unfold mbind, stateM_bind.
  destruct (Builder.add_packet_budgeted q 0 (bud, b)) as [[a|e|] [bud' b']] eqn:Hadd; [|done|done].
  apply budgeted_accepts in Hadd. apply IH; [|done]. eapply add_packet_holds; [done| |exact Hadd].
  pose proof (described_size (ps ++ [q]) qs). lia.
Qed.

(** The set of [ps]: what every file set built or merged from them holds. *)
Record set_holds (windows : bool) (ps : list Packet) (s : Par2FileSet.t) : Prop := {
  sh_main : exists m, main_of ps = Some m /\ Par2FileSet.recovery_set_id s = MainPacket.recovery_set_id m /\
    Par2FileSet.slice_size s = MainPacket.slice_size m /\
    Par2FileSet.recovery_file_ids s = MainPacket.recovery_file_ids m /\
    Par2FileSet.non_recovery_file_ids s = MainPacket.non_recovery_file_ids m;
  sh_agreed : UnicodeNames.names (Par2FileSet.unicode_names s) = agreed ps;
  sh_names : settled windows (described ps) (Par2FileSet.unicode_names s) (Par2FileSet.files s);
  sh_creator : Par2FileSet.creator s = creator_of ps;
}.

Lemma set_holds_unique windows ps s1 s2 : set_holds windows ps s1 -> set_holds windows ps s2 ->
  Par2FileSet.recovery_set_id s1 = Par2FileSet.recovery_set_id s2 /\ Par2FileSet.slice_size s1 = Par2FileSet.slice_size s2 /\
  Par2FileSet.recovery_file_ids s1 = Par2FileSet.recovery_file_ids s2 /\
  Par2FileSet.non_recovery_file_ids s1 = Par2FileSet.non_recovery_file_ids s2 /\
  Par2FileSet.files s1 = Par2FileSet.files s2 /\ Par2FileSet.unicode_names s1 = Par2FileSet.unicode_names s2 /\
  Par2FileSet.creator s1 = Par2FileSet.creator s2.
Proof.
  intros [(m & Hm & H1 & H2 & H3 & H4) Ha Hs Hc] [(m' & Hm' & H1' & H2' & H3' & H4') Ha' Hs' Hc'].
  rewrite Hm in Hm'. injection Hm' as <-.
  destruct (settled_unique windows _ _ _ _ _ (eq_trans Ha (eq_sym Ha')) Hs Hs') as [-> ->].
  split_and!; congruence.
Qed.

(** ** Retaining map entries *)

Section retain.
Context {K A : Type} `{Countable K} (keep : K -> A -> par2_result bool).

Lemma retain_entries_spec l (p : K -> A -> bool) : (forall k v, (k, v) ∈ l -> keep k v = Ok (p k v)) ->
  Builder.retain_entries keep l = Ok (filter (fun kv => p kv.1 kv.2 = true) l).
Proof.
  induction l as [|[k v] l IH]; intros Hk; [done|]. cbn [Builder.retain_entries].
  rewrite (Hk k v) by (by left). rewrite bind_Ok, IH by (intros; apply Hk; by right). rewrite bind_Ok.
  rewrite filter_cons. cbn [fst snd]. by destruct (p k v).
Qed.

(** A closure that never panics filters. *)
Lemma retain_spec (m : gmap K A) (p : K -> A -> bool) : (forall k v, m !! k = Some v -> keep k v = Ok (p k v)) ->
  Builder.retain keep m = Ok (filter (fun kv => p kv.1 kv.2 = true) m).
Proof.
  intros Hk. unfold Builder.retain. rewrite (retain_entries_spec _ p).
  - by rewrite bind_Ok, map_filter_alt.
  - intros k v Hin. apply Hk. by apply elem_of_map_to_list.
Qed.
End retain.

(** ** Building *)

(** Payloads of the set's block size. *)
Definition sized (slice_size : Z) (m : gmap Z RecoverySlice) : gmap Z RecoverySlice :=
  filter (fun kv => (data_len (rs_data kv.2) =? slice_size) = true) m.

Lemma build_holds windows ps b s : builder_holds ps b -> Builder.build windows b = Ok s ->
  set_holds windows ps s /\ Par2FileSet.recovery_slices s = sized (Par2FileSet.slice_size s) (slices_of ps).
Proof.
  intros [Hm Hf Hn Hc Hs]. unfold Builder.build. destruct (Builder.main_packet b) as [main|]; [|done].
  destruct (apply_settles windows (described ps) (Builder.unicode_names b) (Builder.files b)) as (ns & fs & -> & Hns & Hset).
  { intros id. exists None. rewrite Hf, Hn. cbn. rewrite lookup_empty. split; [by right; left|].
    unfold form, final_original, final_desc. by destruct (described ps !! id). }
  rewrite bind_Ok. rewrite (retain_spec _ _ (fun _ rs => data_len (rs_data rs) =? MainPacket.slice_size main)) by done.
  rewrite bind_Ok. intros (cks & Hcks & [= <-])%bind_Ok_inv. split; [|by cbn; rewrite Hs].
  split; cbn; [by exists main|by rewrite Hns, Hn|done|done].
Qed.

(** ** Merging *)

(** Of the set [id]. *)
Definition of_set (id : RecoverySetId) (p : Packet) : Prop :=
  match p with PMain m => MainPacket.recovery_set_id m = id | _ => True end.

(** A recovery packet a repair can use. *)
Definition usable (slice_size : Z) (p : Packet) : Prop :=
  match p with
  | PRecoverySlice r => RecoverySlicePacket.exponent r <= MAX_RECOVERY_EXPONENT /\ data_len (RecoverySlicePacket.data r) = slice_size
  | _ => True
  end.

Lemma sized_slices n ps m : Forall (usable n) ps -> sized n m = m -> sized n (foldl collect_slice m ps) = foldl collect_slice m ps.
Proof.
  intros H. revert m. induction H as [|p ps Hp _ IH]; intros m Hm; [done|]. cbn [foldl]. apply IH.
  destruct p; try done. cbn. destruct (_ <? _); [done|]. destruct (m !! _) eqn:Hl; [done|].
  destruct Hp as [_ Hp]. unfold sized. rewrite map_filter_insert_True by (cbn; by apply Z.eqb_eq).
  f_equal. exact Hm.
Qed.

Lemma add_packets_of_set `{Layout} qs st st' m : add_packets qs st = (Ok tt, st') -> Builder.main_packet st'.2 = Some m ->
  Forall (of_set (MainPacket.recovery_set_id m)) qs /\
  forall m0, Builder.main_packet st.2 = Some m0 -> m0 = m.
Proof.
  revert st. induction qs as [|q qs IH]; intros st; cbn [add_packets].
  { intros [= ->] Hm. split; [constructor|]. intros m0. congruence. }
  unfold mbind, stateM_bind. destruct (Builder.add_packet_budgeted q 0 st) as [[a|e|] st1] eqn:Hadd; [|done|done].
  intros Hrest Hm. destruct (IH _ Hrest Hm) as [Hall Hfirst]. apply budgeted_accepts in Hadd.
  destruct st as [bud b], st1 as [bud1 b1]. cbn [snd] in *.
  destruct q as [x|fd|i|r|c|u|ty body]; unfold Builder.add_packet in Hadd.
  1: { destruct (Builder.main_packet b) as [m1|] eqn:Hb.
    - case_bool_decide as Heq; [|done]. cbn in Hadd. injection Hadd as <- <-. rewrite (Hfirst m1 Hb) in Heq.
      split; [by constructor|]. intros m0 [= <-]. by apply Hfirst.
    - injection Hadd as <- <-. cbn in Hfirst. rewrite (Hfirst x eq_refl). split; [by constructor|done]. }
  all: repeat case_match; simplify_eq/=; (split; [by constructor|]); intros m0 Hm0; apply Hfirst; exact Hm0.
Qed.

(** The state of a set while the packets of [ps] have reached it. *)
Record merging_holds (windows : bool) (ps : list Packet) (s : Par2FileSet.t) : Prop := {
  mh_main : exists m, main_of ps = Some m /\ Par2FileSet.recovery_set_id s = MainPacket.recovery_set_id m /\
    Par2FileSet.slice_size s = MainPacket.slice_size m /\
    Par2FileSet.recovery_file_ids s = MainPacket.recovery_file_ids m /\
    Par2FileSet.non_recovery_file_ids s = MainPacket.non_recovery_file_ids m;
  mh_agreed : UnicodeNames.names (Par2FileSet.unicode_names s) = agreed ps;
  mh_names : staged windows (described ps) (Par2FileSet.unicode_names s) (Par2FileSet.files s);
  mh_creator : Par2FileSet.creator s = creator_of ps;
  mh_slices : Forall (usable (Par2FileSet.slice_size s)) ps -> Par2FileSet.recovery_slices s = slices_of ps;
}.

Definition counted (n : Z) (c : MergeResult) : Prop :=
  0 <= new_recovery_slices c /\ 0 <= duplicates_ignored c /\ new_recovery_slices c + duplicates_ignored c <= n.

Lemma bump_ok n : n + 1 < 2 ^ 32 -> bump n = Ok (n + 1).
Proof. intros. unfold bump. by rewrite (proj2 (Z.ltb_lt _ _)). Qed.

(** One packet, field by field. *)
Lemma merge_one_steps s p c n : counted n c -> n + 1 < 2 ^ 32 -> of_set (Par2FileSet.recovery_set_id s) p ->
  exists c' s', Merge.merge_one c p s = (Ok c', s') /\ counted (n + 1) c' /\
  Par2FileSet.recovery_set_id s' = Par2FileSet.recovery_set_id s /\ Par2FileSet.slice_size s' = Par2FileSet.slice_size s /\
  Par2FileSet.recovery_file_ids s' = Par2FileSet.recovery_file_ids s /\
  Par2FileSet.non_recovery_file_ids s' = Par2FileSet.non_recovery_file_ids s /\
  Par2FileSet.files s' = describe (Par2FileSet.files s) p /\
  UnicodeNames.names (Par2FileSet.unicode_names s') = agree (UnicodeNames.names (Par2FileSet.unicode_names s)) p /\
  UnicodeNames.originals (Par2FileSet.unicode_names s') = UnicodeNames.originals (Par2FileSet.unicode_names s) /\
  Par2FileSet.creator s' = first_creator (Par2FileSet.creator s) p /\
  (usable (Par2FileSet.slice_size s) p -> Par2FileSet.recovery_slices s' = collect_slice (Par2FileSet.recovery_slices s) p).
Proof.
  intros Hc Hn Hset. destruct s as [id size ids nids fs cks rs cr ns]. pose proof Hc as (Hc1 & Hc2 & Hc3).
  assert (counted (n + 1) c) as Hsame by (split_and!; lia).
  assert (counted (n + 1) (mk_merged (new_recovery_slices c) (duplicates_ignored c + 1))) as Hdup by (split_and!; cbn; lia).
  assert (counted (n + 1) (mk_merged (new_recovery_slices c + 1) (duplicates_ignored c))) as Hnew by (split_and!; cbn; lia).
  unfold Merge.merge_one. rewrite !bump_ok by lia. rewrite !bind_Ok.
  destruct p as [m|fd|i|r|x|u|ty body]; cbn in *.
  - rewrite bool_decide_true by done. cbn. by do 2 eexists.
  - destruct (fs !! _); by do 2 eexists.
  - destruct (cks !! _); by do 2 eexists.
  - destruct (rs !! _) eqn:Hr; do 2 eexists; (split; [done|]); split_and!; try done; cbn; intros [He _];
      by rewrite (proj2 (Z.ltb_ge _ _)) by done.
  - destruct cr; by do 2 eexists.
  - pose proof (agree_add ns u) as [Hns Hos]. destruct (UnicodeNames.add ns u) as [adm ns']. cbn in *.
    case_bool_decide; do 2 eexists; (split; [done|]); split_and!; done.
  - by do 2 eexists.
Qed.

Lemma main_of_snoc ps p m : main_of ps = Some m -> main_of (ps ++ [p]) = Some m.
Proof. unfold main_of. intros H. rewrite foldl_snoc_eq, H. by destruct p. Qed.

Lemma merge_one_holds windows ps s p c n : merging_holds windows ps s -> counted n c -> n + 1 < 2 ^ 32 ->
  of_set (Par2FileSet.recovery_set_id s) p -> exists c' s', Merge.merge_one c p s = (Ok c', s') /\ counted (n + 1) c' /\
    Par2FileSet.recovery_set_id s' = Par2FileSet.recovery_set_id s /\ merging_holds windows (ps ++ [p]) s'.
Proof.
  intros [(m & Hm & H1 & H2 & H3 & H4) Ha Hns Hc Hs] Hcount Hn Hset.
  destruct (merge_one_steps s p c n Hcount Hn Hset) as (c' & s' & -> & Hc' & E1 & E2 & E3 & E4 & E5 & E6 & E7 & E8 & E9).
  exists c', s'. split; [done|]. split; [done|]. split; [done|]. split.
  - exists m. split; [by apply main_of_snoc|]. split_and!; congruence.
  - unfold agreed. rewrite foldl_snoc_eq, E6, Ha. done.
  - unfold described. rewrite foldl_snoc_eq. by apply (staged_grows _ _ _ _ _ _ _ Hns).
  - unfold creator_of. rewrite foldl_snoc_eq, E8, Hc. done.
  - rewrite E2. intros [Hu1 Hu2%Forall_inv]%Forall_app. rewrite E9 by done. unfold slices_of.
    rewrite foldl_snoc_eq, Hs; done.
Qed.

Lemma merge_all_holds windows ps qs s c n : merging_holds windows ps s -> counted n c -> n + zlen qs < 2 ^ 32 ->
  Forall (of_set (Par2FileSet.recovery_set_id s)) qs -> exists c' s', Merge.merge_all c qs s = (Ok c', s') /\
    Par2FileSet.recovery_set_id s' = Par2FileSet.recovery_set_id s /\ merging_holds windows (ps ++ qs) s'.
Proof.
  intros Hh Hc Hn Hall. revert ps s c n Hh Hc Hn Hall. induction qs as [|q qs IH]; intros ps s c n Hh Hc Hn Hall.
  { exists c, s. rewrite app_nil_r. done. }
  inversion Hall as [|? ? Hq Hqs]; subst. rewrite zlen_cons in Hn. pose proof (zlen_nonneg qs).
  destruct (merge_one_holds windows ps s q c n Hh Hc ltac:(lia) Hq) as (c1 & s1 & Hrun & Hc1 & Hid & Hh1).
  cbn [Merge.merge_all]. rewrite (bind_run _ _ _ _ _ Hrun). rewrite <- Hid in Hqs.
  destruct (IH _ _ _ _ Hh1 Hc1 ltac:(lia) Hqs) as (c2 & s2 & -> & Hid2 & Hh2). exists c2, s2.
  rewrite <- app_assoc in Hh2. split; [done|]. split; [congruence|exact Hh2].
Qed.

Lemma no_foreign s qs : Forall (of_set (Par2FileSet.recovery_set_id s)) qs -> existsb (Merge.foreign_main s) qs = false.
Proof.
  induction 1 as [|q qs Hq _ IH]; [done|]. cbn [existsb]. rewrite IH, orb_false_r.
  destruct q; try done. cbn in *. by rewrite bool_decide_true.
Qed.

Lemma merge_packets_holds windows ps qs s : merging_holds windows ps s -> zlen qs < 2 ^ 32 ->
  Forall (of_set (Par2FileSet.recovery_set_id s)) qs -> exists c s', Merge.merge_packets windows qs s = (Ok c, s') /\
    Par2FileSet.recovery_set_id s' = Par2FileSet.recovery_set_id s /\ merging_holds windows (ps ++ qs) s' /\
    set_holds windows (ps ++ qs) s'.
Proof.
  intros Hh Hn Hall. unfold Merge.merge_packets. rewrite no_foreign by done.
  destruct (merge_all_holds windows ps qs s (mk_merged 0 0) 0 Hh) as (c & s1 & Hrun & Hid & [Hm Ha Hst Hc Hs]); [by split_and!|lia|done|].
  rewrite (bind_run _ _ _ _ _ Hrun). cbv beta.
  destruct (apply_settles windows _ _ _ Hst) as (ns & fs & Happ & Hns & Hset).
  assert (Merge.apply_names windows s1 = (Ok tt, Merge.set_names ns (Merge.set_files fs s1))) as Hnames
    by (unfold Merge.apply_names; by rewrite Happ).
  unfold mbind at 1, stateM_bind at 1. rewrite Hnames.
  do 2 eexists. split; [done|]. split; [done|]. split; (split; [exact Hm|cbn; congruence|cbn|done..]).
  - by apply settled_staged.
  - exact Hset.
Qed.

(** Batch after batch. *)
Fixpoint merge_batches (windows : bool) (batches : list (list Packet)) : Merge.merging unit :=
  match batches with
  | [] => mret tt
  | qs :: batches => _ ← Merge.merge_packets windows qs; merge_batches windows batches
  end.

Lemma merge_batches_holds windows ps batches s : merging_holds windows ps s -> set_holds windows ps s ->
  zlen (concat batches) < 2 ^ 32 -> Forall (of_set (Par2FileSet.recovery_set_id s)) (concat batches) ->
  exists s', merge_batches windows batches s = (Ok tt, s') /\
    merging_holds windows (ps ++ concat batches) s' /\ set_holds windows (ps ++ concat batches) s'.
Proof.
  revert ps s. induction batches as [|qs batches IH]; intros ps s Hh Hs Hn Hall; cbn [merge_batches concat] in *.
  { exists s. rewrite !app_nil_r. done. }
  apply Forall_app in Hall as [Hq Hall]. rewrite zlen_app in Hn. pose proof (zlen_nonneg qs). pose proof (zlen_nonneg (concat batches)).
  destruct (merge_packets_holds windows ps qs s Hh ltac:(lia) Hq) as (c & s1 & Hrun & Hid & Hh1 & Hs1).
  rewrite (bind_run _ _ _ _ _ Hrun). rewrite <- Hid in Hall.
  destruct (IH _ _ Hh1 Hs1 ltac:(lia) Hall) as (s2 & -> & Hh2 & Hs2). exists s2. by rewrite app_assoc.
Qed.

Section loaded.
Context `{Layout} (windows : bool).

Lemma from_packets_holds ps s : Z.of_nat (size (described ps)) <= MAX_FILES_PER_SET -> from_packets windows ps = Ok s ->
  set_holds windows ps s /\ Par2FileSet.recovery_slices s = sized (Par2FileSet.slice_size s) (slices_of ps) /\
  Forall (of_set (Par2FileSet.recovery_set_id s)) ps.
Proof.
  intros Hsize. unfold from_packets, built.
  destruct (add_packets ps _) as [[[]|e|] st] eqn:Hadd; [|done|done]. cbn [fst snd]. rewrite bind_Ok. intros Hb.
  pose proof (add_packets_holds [] ps _ _ st builder_holds_new Hsize Hadd) as Hh.
  destruct (build_holds windows ps st.2 s Hh Hb) as [Hs Hr]. split; [done|]. split; [done|].
  destruct (sh_main _ _ _ Hs) as (m & Hm & -> & _). apply (add_packets_of_set _ _ _ _ Hadd).
  by rewrite (bh_main _ _ Hh).
Qed.

Lemma from_packets_merging ps s : Z.of_nat (size (described ps)) <= MAX_FILES_PER_SET -> from_packets windows ps = Ok s ->
  merging_holds windows ps s /\ set_holds windows ps s.
Proof.
  intros Hsize Hs. destruct (from_packets_holds ps s Hsize Hs) as (Hh & Hr & _). split; [|done].
  destruct Hh as [Hm Ha Hn Hc]. split; [done|done|by apply settled_staged|done|].
  intros Hu. rewrite Hr. by apply sized_slices.
Qed.
End loaded.

(** C35 (merging agrees with one scan): a set built from some packets with the
    rest merged in afterwards, in batches of any sizes, is the set one load of
    all the packets builds: the same files under the same names (whichever of
    a description and its Unicode names came first, and where two of them
    disagree), the same remembered originals, identifiers and creator, and
    the same recovery blocks where every one is usable. The merges succeed:
    they meet no foreign Main packet and no counter wraps around. *)
Theorem merging_agrees_with_one_scan `{Layout} (windows : bool) (first : list Packet) (batches : list (list Packet))
    (s whole : Par2FileSet.t) :
  let all := first ++ concat batches in
  zlen (concat batches) < 2 ^ 32 ->
  Z.of_nat (size (described all)) <= MAX_FILES_PER_SET ->
  from_packets windows first = Ok s -> from_packets windows all = Ok whole ->
  exists s', merge_batches windows batches s = (Ok tt, s') /\
    Par2FileSet.recovery_set_id s' = Par2FileSet.recovery_set_id whole /\
    Par2FileSet.slice_size s' = Par2FileSet.slice_size whole /\
    Par2FileSet.recovery_file_ids s' = Par2FileSet.recovery_file_ids whole /\
    Par2FileSet.non_recovery_file_ids s' = Par2FileSet.non_recovery_file_ids whole /\
    Par2FileSet.files s' = Par2FileSet.files whole /\
    Par2FileSet.unicode_names s' = Par2FileSet.unicode_names whole /\
    Par2FileSet.creator s' = Par2FileSet.creator whole /\
    (Forall (usable (Par2FileSet.slice_size whole)) all ->
     Par2FileSet.recovery_slices s' = Par2FileSet.recovery_slices whole).
Proof.
  intros all Hn Hsize Hfirst Hwhole. unfold all in *.
  pose proof (described_size first (concat batches)).
  destruct (from_packets_merging windows first s ltac:(lia) Hfirst) as [Hm Hs].
  destruct (from_packets_holds windows _ whole Hsize Hwhole) as (Hw & Hwr & Hof).
  destruct (sh_main _ _ _ Hs) as (m & Hmain & Hid & _). destruct (sh_main _ _ _ Hw) as (m' & Hmain' & Hid' & _).
  assert (m = m') as <-.
  { unfold main_of in *. rewrite foldl_app, Hmain in Hmain'.
    assert (forall l, foldl first_main (Some m) l = Some m) as Hk by (intros l; induction l as [|[] l IH]; done).
    rewrite Hk in Hmain'. congruence. }
  apply Forall_app in Hof as [_ Hof]. rewrite Hid', <- Hid in Hof.
  destruct (merge_batches_holds windows first batches s Hm Hs Hn Hof) as (s' & Hrun & Hh' & Hs'). exists s'.
  split; [done|]. destruct (set_holds_unique windows _ _ _ Hs' Hw) as (E1 & E2 & E3 & E4 & E5 & E6 & E7).
  split_and!; try done. intros Hu. rewrite Hwr, (mh_slices _ _ _ Hh') by (by rewrite E2).
  symmetry. by apply sized_slices.
Qed.

(** ** Witnesses *)

Definition sample_id : list byte := zreplicate 16 x61.
Definition sample_main : Packet := PMain (MainPacket.mk (zreplicate 16 x01) 8 [sample_id] []).
Definition sample_desc : Packet :=
  PFileDescription (FileDescriptionPacket.mk sample_id (zreplicate 16 x02) (zreplicate 16 x02) 20 (text "Bjork.mkv"%string) (text "Bjork.mkv"%string) []).
Definition sample_name (name : ustring) : Packet := PUnicodeFilename (UnicodeFilenamePacket.mk sample_id name).
Definition sample_block (n : Z) : Packet := PRecoverySlice (RecoverySlicePacket.mk n (InMemory (zreplicate 8 x05))).

(** A name arrives after its description, then a second that disagrees. *)
Definition sample_first : list Packet := [sample_main; sample_name [66; 246; 114; 107]; sample_block 0].
Definition sample_batches : list (list Packet) :=
  [[sample_desc; sample_block 1; sample_block 0]; [sample_name [66; 114; 107]; sample_main]].
Definition or_empty (r : par2_result Par2FileSet.t) : Par2FileSet.t :=
  match r with Ok s => s | _ => Par2FileSet.mk [] 0 [] [] ∅ ∅ ∅ None UnicodeNames.default end.
Definition sample_loaded (ps : list Packet) : Par2FileSet.t := or_empty (from_packets (H := sample_layout) false ps).

Lemma merging_agrees_with_one_scan_witness :
  let whole := sample_loaded (sample_first ++ concat sample_batches) in
  exists s', merge_batches false sample_batches (sample_loaded sample_first) = (Ok tt, s') /\
    Par2FileSet.recovery_set_id s' = Par2FileSet.recovery_set_id whole /\
    Par2FileSet.slice_size s' = Par2FileSet.slice_size whole /\
    Par2FileSet.recovery_file_ids s' = Par2FileSet.recovery_file_ids whole /\
    Par2FileSet.non_recovery_file_ids s' = Par2FileSet.non_recovery_file_ids whole /\
    Par2FileSet.files s' = Par2FileSet.files whole /\
    Par2FileSet.unicode_names s' = Par2FileSet.unicode_names whole /\
    Par2FileSet.creator s' = Par2FileSet.creator whole /\
    (Forall (usable (Par2FileSet.slice_size whole)) (sample_first ++ concat sample_batches) ->
     Par2FileSet.recovery_slices s' = Par2FileSet.recovery_slices whole).
Proof.
  apply (@merging_agrees_with_one_scan sample_layout false sample_first sample_batches (sample_loaded sample_first)
    (sample_loaded (sample_first ++ concat sample_batches))); vm_compute; first [reflexivity | discriminate].
Defined.

(** After the first batch the file bears the Unicode name, after the second
    its description's again. *)
Example names_come_and_go :
  (fun s => FileDescription.par2_name <$> (Par2FileSet.files s !! sample_id)) <$>
    [(merge_batches false (take 1 sample_batches) (sample_loaded sample_first)).2;
     (merge_batches false sample_batches (sample_loaded sample_first)).2]
  = [Some [66; 246; 114; 107]; Some (text "Bjork.mkv"%string)].
Proof. vm_compute. reflexivity. Qed.

(** A block that loading discards for its size, merging keeps. *)
Definition short_block : Packet := PRecoverySlice (RecoverySlicePacket.mk 3 (InMemory (zreplicate 4 x05))).
Lemma merge_keeps_short_blocks :
  Par2FileSet.recovery_slices (sample_loaded [sample_main; short_block]) !! 3 = None /\
  exists slice, Par2FileSet.recovery_slices (merge_batches false [[short_block]] (sample_loaded [sample_main])).2 !! 3 = Some slice /\
    data_len (rs_data slice) = 4 /\ Par2FileSet.slice_size (sample_loaded [sample_main]) = 8.
Proof. split; [by vm_compute|]. eexists. split; [by vm_compute|]. by vm_compute. Qed.
