(* ===== verification/Par2SetProps.v ===== *)
(** The builder of a recovery set: what it keeps is what the budget is charged
    for, and every set a load returns is well formed. *)
From stdpp Require Import gmap.
From S2P Require Import Prelude RarTypes Crc32 Crc32Props Md5Simd Md5Multi Checksum Par2Types Par2Path Par2Packet Par2PacketProps StateM Par2Budget Par2Scan.
From S2P Require Import Par2ScanProps Par2Stream Par2StreamProps Par2Set Par2Names.

(** * Admission *)

(** A Main packet of another set than the one held. *)
Definition conflicting (b : Builder.t) (p : Packet) : bool :=
  match p, Builder.main_packet b with
  | PMain m, Some held => negb (bool_decide (MainPacket.recovery_set_id held = MainPacket.recovery_set_id m))
  | _, _ => false
  end.

(** Items held, one budget slot each. *)
Definition held {A} (o : option A) : Z := match o with Some _ => 1 | None => 0 end.
Definition msize {K A} `{Countable K} (m : gmap K A) : Z := Z.of_nat (size m).
Definition inventory (b : Builder.t) : Z :=
  held (Builder.main_packet b) + msize (Builder.files b) + msize (Builder.slice_checksums b)
  + msize (Builder.recovery_slices b) + held (Builder.creator b) + msize (UnicodeNames.names (Builder.unicode_names b)).

Lemma msize_insert {K A} `{Countable K} (m : gmap K A) k v : m !! k = None -> msize (<[k := v]> m) = msize m + 1.
Proof. intros Hk. unfold msize. rewrite map_size_insert_None by done. lia. Qed.
Lemma msize_update {K A} `{Countable K} (m : gmap K A) k v w : m !! k = Some w -> msize (<[k := v]> m) = msize m.
Proof. intros Hk. unfold msize. by rewrite (map_size_insert_Some _ _ _ (ex_intro _ _ Hk)). Qed.
Lemma msize_pos {K A} `{Countable K} (m : gmap K A) : 0 <= msize m.
Proof. unfold msize. lia. Qed.

(** [would_retain] decides what [add_packet] does. *)
Lemma add_packet_admits b p o :
  match Builder.add_packet p o b with
  | (Ok a, b') => conflicting b p = false /\ (a = Retained <-> Builder.would_retain b p = true) /\
      inventory b' = inventory b + (if Builder.would_retain b p then 1 else 0)
  | (Err e, b') => e = ConflictingRecoverySet /\ conflicting b p = true /\ Builder.would_retain b p = false /\ b' = b
  | (Panic, _) => False
  end.
Proof.
  destruct b as [bm bf bk bs bc bn].
  unfold Builder.add_packet, conflicting, inventory, Builder.would_retain, UnicodeNames.would_retain.
  destruct p as [m|fd|i|r|c|u|ty body]; cbn -[Builder.holds Z.ltb Z.leb MAX_RECOVERY_EXPONENT MAX_FILES_PER_SET]; rewrite ?holds_spec.
  - destruct bm as [x|]; cbn; [case_bool_decide; cbn|cbn]; split_and!; done || lia.
  - fold (msize bf). destruct (bf !! _) eqn:Hf; cbn; [split_and!; done || lia|].
    destruct (Z.leb_spec MAX_FILES_PER_SET (msize bf)) as [Hge|Hlt]; cbn.
    + rewrite (proj2 (Z.ltb_ge _ _)) by lia. split_and!; done || lia.
    + rewrite (proj2 (Z.ltb_lt _ _)), msize_insert by (done || lia). split_and!; done || lia.
  - fold (msize bk). destruct (bk !! _) eqn:Hf; cbn; [split_and!; done || lia|].
    destruct (Z.leb_spec MAX_FILES_PER_SET (msize bk)) as [Hge|Hlt]; cbn.
    + rewrite (proj2 (Z.ltb_ge _ _)) by lia. split_and!; done || lia.
    + rewrite (proj2 (Z.ltb_lt _ _)), msize_insert by (done || lia). split_and!; done || lia.
  - destruct (Z.ltb_spec MAX_RECOVERY_EXPONENT (RecoverySlicePacket.exponent r)) as [Hge|Hlt]; cbn -[Z.leb MAX_RECOVERY_EXPONENT].
    + rewrite (proj2 (Z.leb_gt _ _)) by lia. cbn. split_and!; done || lia.
    + rewrite (proj2 (Z.leb_le _ _)) by lia. destruct (bs !! _) eqn:Hs; cbn -[MAX_RECOVERY_EXPONENT]; [split_and!; done || lia|].
      rewrite msize_insert by done. split_and!; done || lia.
  - destruct bc; cbn; split_and!; done || lia.
  - unfold UnicodeNames.add. fold (msize (UnicodeNames.names bn)).
    fold (Builder.holds (UnicodeNames.names bn) (UnicodeFilenamePacket.file_id u)). rewrite holds_spec.
    destruct (UnicodeNames.names bn !! _) as [[old|]|] eqn:Hn.
    + case_bool_decide; cbn; [split_and!; done || lia|].
      rewrite (msize_update _ _ _ _ Hn). split_and!; done || lia.
    + cbn. split_and!; done || lia.
    + destruct (Z.leb_spec MAX_FILES_PER_SET (msize (UnicodeNames.names bn))) as [Hge|Hlt]; cbn.
      * rewrite (proj2 (Z.ltb_ge _ _)) by lia. split_and!; done || lia.
      * rewrite (proj2 (Z.ltb_lt _ _)), msize_insert by (done || lia). split_and!; done || lia.
  - split_and!; done || lia.
Qed.

(** * The budget pays for the inventory *)

Section budgeted.
Context {L : Layout} {layout : LayoutOk L}.

(** How adding a packet under a budget ends. *)
Definition admitted (b : PacketScanBudget) (s : Builder.t) (p : Packet) (r : par2_result PacketAdmission)
    (b' : PacketScanBudget) (s' : Builder.t) : Prop :=
  match r with
  | Ok Retained => Builder.would_retain s p = true /\ fits b (Retain (packet_retained_bytes p)) /\
      meters b' = meters_after b (Retain (packet_retained_bytes p)) /\ inventory s' = inventory s + 1
  | Ok _ => Builder.would_retain s p = false /\ b' = b /\ inventory s' = inventory s
  | Err ConflictingRecoverySet => conflicting s p = true /\ b' = b /\ s' = s
  | Err ResourceLimitExceeded => Builder.would_retain s p = true /\ ~ fits b (Retain (packet_retained_bytes p)) /\
      meters b' = meters b /\ s' = s
  | Err Cancelled => is_Some (cancel b) /\ meters b' = meters b /\ s' = s
  | _ => False
  end.

Lemma budgeted_outcome b s p o : limits_ok (limits b) ->
  let '(r, (b', s')) := Builder.add_packet_budgeted p o (b, s) in
  limits b' = limits b /\ cancel b' = cancel b /\ admitted b s p r b' s' /\
  (r = Ok Retained -> Builder.add_packet p o s = (Ok Retained, s')) /\
  (s' = s \/ exists a, Builder.add_packet p o s = (Ok a, s')).
Proof using layout.
  intros Hl. pose proof (add_packet_admits s p o) as Hadd.
  unfold Builder.add_packet_budgeted, mbind, stateM_bind, gets, on_fst, on_snd, mret, stateM_ret. cbn [fst snd].
  destruct (Builder.would_retain s p) eqn:Hw; cbn [negb fst snd] in *.
  - pose proof (run_op_outcome b (Retain (packet_retained_bytes p)) Hl (retained_bytes_range p)) as (Hlim & Hcan & Hout).
    cbn [run_op] in *. destruct (charge_retained _ b) as [r b1]. cbn [fst snd] in *.
    destruct Hout as [(-> & Hfit & Hm)|[(-> & Hfit & Hm)|(-> & Hc & Hm)]]; cbn [fst snd].
    + destruct (Builder.add_packet p o s) as [[a|e|] s1]; [|by destruct Hadd as (_ & _ & ? & _)|done].
      destruct Hadd as (Hcf & Ha & Hinv). assert (a = Retained) as -> by (by apply Ha).
      unfold admitted. cbn [fst snd]. split_and!; eauto.
    + split_and!; try done. by left.
    + split_and!; try done. by left.
  - destruct (Builder.add_packet p o s) as [[a|e|] s1]; cbn [fst snd].
    + destruct Hadd as (Hcf & Ha & Hinv). rewrite Z.add_0_r in Hinv.
      split_and!; try done; [|by intros [= ->]|by eauto]. destruct a; [discriminate (proj1 Ha eq_refl)|done|done].
    + destruct Hadd as (-> & Hcf & _ & ->). split_and!; try done. by left.
    + done.
Qed.

(** What a load can reach: packets offered to the builder, other work charged
    to the same budget, in any order. [kept] are the packets retained and
    [extra] the bytes charged for anything else. *)
Inductive loading (l : PacketScanLimits) (token : option (nat -> bool))
    : list Packet -> Z -> PacketScanBudget -> Builder.t -> Prop :=
| load_new : loading l token [] 0 (with_cancellation l token) Builder.new
| load_examine kept extra b s : loading l token kept extra b s ->
    loading l token kept extra (charge_examined b).2 s
| load_charge kept extra b s n : loading l token kept extra b s -> 0 <= n < 2 ^ 64 ->
    loading l token kept (extra + match (charge_bytes n b).1 with Ok _ => n | _ => 0 end) (charge_bytes n b).2 s
| load_packet kept extra b s p o r b' s' : loading l token kept extra b s ->
    Builder.add_packet_budgeted p o (b, s) = (r, (b', s')) ->
    loading l token (kept ++ match r with Ok Retained => [p] | _ => [] end) extra b' s'.

(** Bytes charged for packets. *)
Definition bytes_of (ps : list Packet) : Z := foldr (fun p n => packet_retained_bytes p + n) 0 ps.
Lemma bytes_of_snoc ps p : bytes_of (ps ++ [p]) = bytes_of ps + packet_retained_bytes p.
Proof using. unfold bytes_of. rewrite foldr_app. cbn. rewrite Z.add_0_r. induction ps as [|q ps IH]; cbn; lia. Qed.

Lemma loading_inv l token kept extra b s : limits_ok l -> loading l token kept extra b s ->
  limits b = l /\ cancel b = token /\ in_bounds b /\
  retained_packets b = inventory s /\ zlen kept = inventory s /\ retained_bytes b = extra + bytes_of kept.
Proof using layout.
  intros Hl. induction 1 as [|kept extra b s _ IH|kept extra b s n _ IH Hn|kept extra b s p o r b' s' _ IH Hadd].
  - destruct Hl as (? & ? & ?). unfold in_bounds. cbn. unfold inventory, msize. cbn. rewrite !map_size_empty. split_and!; try done; lia.
  - destruct IH as (Hb1 & Hb2 & Hb & Hp & Hk & Hy). pose proof (run_op_outcome b Examine) as H. rewrite Hb1 in H.
    specialize (H Hl I). cbn [run_op] in H. destruct (charge_examined b) as [r b1]. cbn [fst snd] in *. destruct H as (Hlim & Hcan & Hout).
    unfold in_bounds, meters in *. rewrite Hlim, Hb1 in *. split_and!; try congruence;
      destruct Hout as [(_ & Hf & Hm)|[(_ & _ & Hm)|(_ & _ & Hm)]]; cbn in *; rewrite ?Hb1 in *;
      injection Hm as He' Hp' Hy'; lia.
  - destruct IH as (Hb1 & Hb2 & Hb & Hp & Hk & Hy). pose proof (run_op_outcome b (ChargeBytes n)) as H. rewrite Hb1 in H.
    specialize (H Hl Hn). cbn [run_op] in H. destruct (charge_bytes n b) as [r b1]. cbn [fst snd] in *. destruct H as (Hlim & Hcan & Hout).
    unfold in_bounds, meters in *. rewrite Hlim, Hb1 in *. split_and!; try congruence;
      destruct Hout as [(-> & Hf & Hm)|[(-> & _ & Hm)|(-> & _ & Hm)]]; cbn in *; rewrite ?Hb1 in *;
      injection Hm as He' Hp' Hy'; lia.
  - destruct IH as (Hb1 & Hb2 & Hb & Hp & Hk & Hy). pose proof (budgeted_outcome b s p o) as H. rewrite Hb1, Hadd in H.
    destruct (H Hl) as (Hlim & Hcan & Hout & _). unfold in_bounds, meters in *. rewrite Hlim, Hcan. rewrite Hb1 in Hb.
    pose proof (retained_bytes_range p).
    destruct r as [[]|[]|]; cbn in Hout; try done.
    + destruct Hout as (_ & Hf & Hm & Hinv). rewrite zlen_app, bytes_of_snoc, Hinv. unfold meters in Hm.
      cbn in Hf, Hm. rewrite Hb1 in Hf. injection Hm as He' Hp' Hy'. change (zlen [p]) with 1. split_and!; try done; lia.
    + destruct Hout as (_ & -> & Hinv). rewrite app_nil_r, Hinv. done.
    + destruct Hout as (_ & -> & Hinv). rewrite app_nil_r, Hinv. done.
    + destruct Hout as (_ & -> & ->). by rewrite app_nil_r.
    + destruct Hout as (_ & _ & Hm & ->). unfold meters in Hm. injection Hm as He' Hp' Hy'. rewrite app_nil_r. split_and!; try done; lia.
    + destruct Hout as (_ & Hm & ->). unfold meters in Hm. injection Hm as He' Hp' Hy'. rewrite app_nil_r. split_and!; try done; lia.
Qed.
End budgeted.

(** C36 (the budget pays for the inventory): at every point of a load, whatever
    is offered to the builder and whatever else the scan charges, the budget's
    packet meter is the number of items the builder holds and its byte meter
    the bytes of exactly the packets kept plus the other charges, both within
    the limits; a packet is kept exactly when [would_retain] announced it and
    its charge fits, a duplicate or unusable packet costs nothing, and a
    refused one changes neither the meters nor the builder. The release of an
    unused charge is never needed. *)
Theorem budget_pays_for_inventory {L : Layout} {layout : LayoutOk L} (l : PacketScanLimits) (token : option (nat -> bool))
    (kept : list Packet) (extra : Z) (b : PacketScanBudget) (s : Builder.t) (p : Packet) (offset : Z) :
  limits_ok l -> loading l token kept extra b s ->
  retained_packets b = inventory s /\ zlen kept = inventory s /\ inventory s <= max_retained_packets l /\
  retained_bytes b = extra + bytes_of kept /\ retained_bytes b <= max_retained_metadata_bytes l /\
  let '(r, (b', s')) := Builder.add_packet_budgeted p offset (b, s) in admitted b s p r b' s'.
Proof.
  intros Hl Hload. destruct (loading_inv l token kept extra b s Hl Hload) as (Hb1 & Hb2 & (_ & Hp & Hy) & Hinv & Hk & Hbytes).
  rewrite Hb1 in Hp, Hy. split_and!; try done; try lia.
  pose proof (budgeted_outcome b s p offset) as H. rewrite Hb1 in H. specialize (H Hl).
  destruct (Builder.add_packet_budgeted p offset (b, s)) as [r [b' s']]. by destruct H as (_ & _ & H & _).
Qed.

(** Two blocks with one exponent under a limit of one packet. *)
Lemma budget_pays_for_inventory_witness :
  let l := mk_limits 1 9 1000 in
  let st := (@Builder.add_packet_budgeted sample_layout (sample_block 0) 0 (budget_new l, Builder.new)).2 in
  retained_packets st.1 = inventory st.2 /\ zlen [sample_block 0] = inventory st.2 /\ inventory st.2 <= 1 /\
  retained_bytes st.1 = 0 + @bytes_of sample_layout [sample_block 0] /\ retained_bytes st.1 <= 1000 /\
  let '(r, (b', s')) := @Builder.add_packet_budgeted sample_layout (sample_block 0) 9 st in
  @admitted sample_layout st.1 st.2 (sample_block 0) r b' s'.
Proof.
  apply (@budget_pays_for_inventory sample_layout sample_layout_ok (mk_limits 1 9 1000) None [sample_block 0] 0
    (@Builder.add_packet_budgeted sample_layout (sample_block 0) 0 (budget_new (mk_limits 1 9 1000), Builder.new)).2.1
    (@Builder.add_packet_budgeted sample_layout (sample_block 0) 0 (budget_new (mk_limits 1 9 1000), Builder.new)).2.2
    (sample_block 0) 9).
  - unfold limits_ok. cbn. lia.
  - apply (@load_packet sample_layout (mk_limits 1 9 1000) None [] 0 _ _ (sample_block 0) 0 (Ok Retained) _ _ (@load_new sample_layout _ _)).
    vm_compute. reflexivity.
Defined.

(** * The CRC-32 a file of a recovery set must have, computed from the CRCs of its padded slices alone. *)

(** What a PAR2 creator records for a slice. *)
Definition slice_crc (n : Z) (piece : list byte) : Z := crc32_iso_hdlc (zero_extend piece (Some n)).

Lemma zero_extend_short n piece : zlen piece <= n -> zero_extend piece (Some n) = piece ++ zreplicate (n - zlen piece) x00.
Proof.
  intros H. unfold zero_extend, effective_len. destruct (Z.ltb_spec (zlen piece) n); [done|].
  by replace (n - zlen piece) with (zlen piece - zlen piece) by lia.
Qed.

Lemma chunks_loop_nil {A} fuel n : chunks_loop (A := A) fuel n [] = [].
Proof. by destruct fuel. Qed.

Lemma zlen_chunks_loop {A} fuel n (l : list A) : 0 < n -> (length l <= fuel)%nat ->
  zlen (chunks_loop fuel n l) = (zlen l + n - 1) / n.
Proof.
  intros Hn. revert l. induction fuel as [|fuel IH]; intros l Hl.
  { destruct l; simpl in Hl; [|lia]. symmetry. apply Z.div_small. change (zlen []) with 0. lia. }
  destruct (decide (l = [])) as [-> |Hne].
  { symmetry. apply Z.div_small. change (zlen []) with 0. lia. }
  assert (1 <= zlen l) by (destruct l; [done|rewrite zlen_cons; pose proof (zlen_nonneg l); lia]).
  rewrite chunks_loop_S, zlen_cons by done. rewrite IH.
  - destruct (Z.le_gt_cases n (zlen l)).
    + rewrite zlen_drop, Z.max_r by lia. replace (zlen l + n - 1) with (zlen l - n + n - 1 + 1 * n) by lia.
      rewrite Z.div_add by lia. lia.
    + assert (zdrop n l = []) as -> by (apply zlen_0_nil; unfold zdrop; rewrite Z.min_r by lia; unfold zlen; rewrite length_drop; lia).
      change (zlen []) with 0. rewrite (Z.div_small (0 + n - 1)) by lia.
      apply (Z.div_unique _ _ _ (zlen l - 1)); lia.
  - rewrite zdrop_nat, length_drop by lia. unfold zlen in *. lia.
Qed.

Section crc.
Context {B : Backends} {laws : BackendLaws B}.
Context (s : Par2FileSet.t) (d : FileDescription.t) (count : Z).
#[local] Abbreviation n := (Par2FileSet.slice_size s).
Context (Hn : 0 < n < 2 ^ 64).

(** The accumulator after the slices of [prefix]. *)
Definition crc_of (prefix : list byte) (acc : option Z) : Prop :=
  (prefix = [] /\ acc = None) \/ acc = Some (crc32_iso_hdlc prefix).

Lemma append_slice_run prefix piece index acc c : crc_of prefix acc -> 0 < zlen piece <= n ->
  sc_crc32 c = slice_crc n piece ->
  (index + 1 =? count) && negb (FileDescription.length d mod n =? 0) = (zlen piece <? n) ->
  (zlen piece < n -> FileDescription.length d mod n = zlen piece) ->
  Query.append_slice s d count index acc c = Ok (Some (crc32_iso_hdlc (prefix ++ piece))).
Proof using laws Hn.
  intros Hacc Hp Hc Hshort Hmod. unfold Query.append_slice. rewrite Hshort.
  assert (forall slice_len, slice_len = zlen piece -> match acc with
    | Some prefix_crc => crc ← crc32_combine prefix_crc (crc32_iso_hdlc piece) slice_len; Ok (Some crc)
    | None => Ok (E := par2_error) (Some (crc32_iso_hdlc piece)) end = Ok (Some (crc32_iso_hdlc (prefix ++ piece)))) as Hjoin.
  { intros len ->. destruct Hacc as [[-> ->]| ->]; [done|]. by rewrite combine_crc, bind_Ok by lia. }
  destruct (Z.ltb_spec (zlen piece) n) as [Hlt|Hge].
  - rewrite Hmod by done. unfold checked_sub_u64. rewrite (proj2 (Z.leb_le _ _)) by lia.
    rewrite crc32_padded_ok, bind_Ok, Hc. unfold slice_crc. rewrite !zero_extend_short by (change (zlen []) with 0; lia).
    change (zlen (@nil byte)) with 0. rewrite Z.sub_0_r. cbn [app].
    assert (zlen (zreplicate (n - zlen piece) x00) = n - zlen piece) as Hz by (apply zlen_replicate; lia).
    rewrite <- Hz at 3. rewrite uncombine_crc by (rewrite Hz; lia). rewrite !bind_Ok. by apply Hjoin.
  - rewrite bind_Ok, Hc. unfold slice_crc. rewrite zero_extend_short by lia.
    replace (n - zlen piece) with 0 by lia. rewrite app_nil_r. apply Hjoin. lia.
Qed.

Lemma append_slices_run fuel rest prefix index acc cks : crc_of prefix acc -> (length rest <= fuel)%nat ->
  0 <= index -> zlen prefix = index * n -> FileDescription.length d = zlen prefix + zlen rest ->
  count = index + zlen (chunks_loop fuel n rest) ->
  sc_crc32 <$> cks = slice_crc n <$> chunks_loop fuel n rest ->
  exists acc', Query.append_slices s d count index acc cks = Ok acc' /\ crc_of (prefix ++ rest) acc'.
Proof using laws Hn.
  revert rest prefix index acc cks. induction fuel as [|fuel IH]; intros rest prefix index acc cks Hacc Hf Hi Hpre Hd Hcount Hcks.
  { destruct rest; [|simpl in Hf; lia]. destruct cks; [|done]. exists acc. by rewrite app_nil_r. }
  destruct (decide (rest = [])) as [-> |Hne].
  { destruct cks; [|done]. exists acc. by rewrite app_nil_r. }
  assert (1 <= zlen rest) by (destruct rest; [done|rewrite zlen_cons; pose proof (zlen_nonneg rest); lia]).
  rewrite chunks_loop_S in Hcks, Hcount by done. destruct cks as [|c cks]; [done|].
  rewrite zlen_cons in Hcount. injection Hcks as Hc Hcks.
  assert (zlen (zdrop n rest) = Z.max 0 (zlen rest - n)) as Hdrop
    by (unfold zlen, zdrop; rewrite length_drop; unfold zlen; lia).
  assert (zlen (ztake n rest) = Z.min n (zlen rest)) as Htake by (rewrite zlen_take by lia; lia).
  assert (length (zdrop n rest) <= fuel)%nat as Hf' by (unfold zlen in *; lia).
  pose proof (zlen_chunks_loop fuel n (zdrop n rest) ltac:(lia) Hf') as Hlen.
  cbn [Query.append_slices]. rewrite (append_slice_run prefix (ztake n rest)); try done; try lia.
  - rewrite bind_Ok. assert (prefix ++ rest = (prefix ++ ztake n rest) ++ zdrop n rest) as ->
      by (by rewrite <- app_assoc, ztake_zdrop by lia).
    destruct (Z.le_gt_cases n (zlen rest)).
    + apply IH; try done; [by right|lia|rewrite zlen_app; lia|rewrite zlen_app; lia|lia].
    + assert (zdrop n rest = []) as Hnil by (apply zlen_0_nil; lia). rewrite Hnil, chunks_loop_nil in *.
      destruct cks; [|done]. eexists. split; [done|]. rewrite app_nil_r. by right.
  - rewrite Htake, Hcount, Hd, Hpre. rewrite (Z.add_comm (index * n)), Z.mod_add by lia.
    destruct (Z.ltb_spec (Z.min n (zlen rest)) n).
    + rewrite Hlen, Hdrop, Z.max_l by lia. rewrite (Z.div_small (0 + n - 1)) by lia.
      rewrite (proj2 (Z.eqb_eq _ _)) by lia. rewrite Z.mod_small by lia. by rewrite (proj2 (Z.eqb_neq _ _)) by lia.
    + destruct (Z.eqb_spec (index + 1) (index + (1 + zlen (chunks_loop fuel n (zdrop n rest))))) as [He|]; [|done].
      assert (zlen rest = n) as ->; [|by rewrite Z.mod_same by lia].
      rewrite Hdrop in Hlen. assert ((Z.max 0 (zlen rest - n) + n - 1) / n = 0) as Hz by lia.
      apply Z.div_small_iff in Hz; lia.
  - intros Hlt. rewrite Hd, Hpre, Z.add_comm, Z.mod_add by lia. rewrite Z.mod_small; lia.
Qed.
End crc.

(** C37 (expected CRC of a file): where a set records, for a file of given bytes,
    its length and the CRC-32 of each of its slices, the last one zero-padded
    to the slice size, [expected_file_crc32] is the CRC-32 of the file's own
    bytes, whatever their number: a single short slice, an exact multiple, no
    bytes at all (with or without an empty list of checksums), up to the
    2{^32}-1 slices the format can count. *)
Theorem expected_file_crc32_correct {B : Backends} {laws : BackendLaws B} (crc32 : list byte -> Z)
    (s : Par2FileSet.t) (id : FileId) (d : FileDescription.t) (data : list byte) :
  (forall data, crc32 data = crc32_iso_hdlc data) ->
  let n := Par2FileSet.slice_size s in
  0 < n < 2 ^ 64 -> (zlen data + n - 1) / n < 2 ^ 32 ->
  Par2FileSet.files s !! id = Some d -> FileDescription.length d = zlen data ->
  ((exists cks, Par2FileSet.slice_checksums s !! id = Some cks /\ sc_crc32 <$> cks = slice_crc n <$> chunks n data) \/
   (data = [] /\ Par2FileSet.slice_checksums s !! id = None)) ->
  Query.expected_file_crc32 crc32 s id = Ok (Some (crc32 data)).
Proof.
  intros Hcrc n Hn Hcount Hd Hlen Hcks. unfold Query.expected_file_crc32. rewrite Hd. fold n.
  rewrite (proj2 (Z.eqb_neq n 0)), Hlen by lia. destruct (Z.eqb_spec (zlen data) 0) as [H0|H0].
  { apply zlen_0_nil in H0 as ->. destruct Hcks as [(cks & -> & Hck)|[_ ->]]; [by destruct cks|done]. }
  destruct Hcks as [(cks & Hck & Hcrcs)|[-> _]]; [|done].
  unfold Builder.div_ceil. rewrite (proj2 (Z.eqb_neq n 0)), bind_Ok, (proj2 (Z.ltb_ge _ _)), Hck by lia.
  pose proof (zlen_chunks_loop (length data) n data ltac:(lia) ltac:(lia)) as Hchunks. fold (chunks n data) in Hchunks.
  assert (zlen cks = zlen (chunks n data)) as Hz.
  { apply (f_equal length) in Hcrcs. rewrite !length_fmap in Hcrcs. unfold zlen. by rewrite Hcrcs. }
  rewrite Hz, (proj2 (Z.eqb_eq _ _)) by exact Hchunks. cbn [negb].
  destruct (append_slices_run s d (zlen (chunks n data)) Hn (length data) data [] 0 None cks) as (acc & -> & Hacc);
    [by left|done|lia|done|done|done|done|].
  rewrite Hcrc. destruct Hacc as [[Hnil _]| ->]; [|done]. cbn in Hnil. by rewrite Hnil in H0.
Qed.

(** Five bytes in slices of four. *)
Definition crc_set : Par2FileSet.t :=
  Par2FileSet.mk [] 4 [[x61]] [] {[ [x61] := FileDescription.mk [x61] [] [] 5 [] [] ]}
    {[ [x61] := [mk_checksum (slice_crc 4 [x01; x02; x03; x04]) []; mk_checksum (slice_crc 4 [x05]) []] ]} ∅ None UnicodeNames.default.

Lemma expected_file_crc32_correct_witness :
  Query.expected_file_crc32 (B := reference_backends) crc32_iso_hdlc crc_set [x61]
    = Ok (Some (crc32_iso_hdlc [x01; x02; x03; x04; x05])).
Proof.
  apply (@expected_file_crc32_correct reference_backends reference_laws crc32_iso_hdlc crc_set [x61]
    (FileDescription.mk [x61] [] [] 5 [] []) [x01; x02; x03; x04; x05]); [done|by vm_compute|by vm_compute|done|done|].
  left. eexists. split; [vm_compute; reflexivity|vm_compute; reflexivity].
Defined.
