(* ===== verification/Par2Load.v ===== *)
(** Loading a recovery set: from any files, the loaders return a well-formed
    set or one of a few errors, and never panic. *)
From stdpp Require Import gmap.
From S2P Require Import Prelude.
From S2P Require Import RarTypes.
From S2P Require Import Utf8.
From S2P Require Import Checksum.
From S2P Require Import Par2Types.
From S2P Require Import Par2Path.
From S2P Require Import Par2Packet.
From S2P Require Import Par2PacketProps.
From S2P Require Import StateM.
From S2P Require Import Par2Budget.
From S2P Require Import Par2Scan.
From S2P Require Import Par2ScanProps.
From S2P Require Import Par2Stream.
From S2P Require Import Par2StreamProps.
From S2P Require Import Par2Agree.
From S2P Require Import Par2Set.
From S2P Require Import Par2Names.
From S2P Require Import Par2SetProps.

(** * Invariants *)

Section invariants.
Context (windows : bool).

Definition desc_ok (id : list byte) (d : FileDescription.t) : Prop :=
  FileDescription.file_id d = id /\ id_ok id /\ id_ok (FileDescription.hash_full d) /\ id_ok (FileDescription.hash_16k d) /\
  0 <= FileDescription.length d < 2 ^ 64 /\ safe_name windows (FileDescription.filename d).

Definition files_ok (files : by_file FileDescription.t) : Prop :=
  msize files <= MAX_FILES_PER_SET /\ forall id d, files !! id = Some d -> desc_ok id d.
Definition checksums_ok (cks : by_file (list SliceChecksum)) : Prop :=
  msize cks <= MAX_FILES_PER_SET /\ forall id c, cks !! id = Some c -> zlen c <= MAX_TOTAL_INPUT_SLICES.
Definition slices_ok (m : gmap Z RecoverySlice) : Prop :=
  forall e rs, m !! e = Some rs -> rs_exponent rs = e /\ 0 <= e <= MAX_RECOVERY_EXPONENT.

Record builder_ok (b : Builder.t) : Prop := {
  bo_main : forall m, Builder.main_packet b = Some m -> packet_ok windows (PMain m);
  bo_files : files_ok (Builder.files b);
  bo_checksums : checksums_ok (Builder.slice_checksums b);
  bo_slices : slices_ok (Builder.recovery_slices b);
  bo_originals : UnicodeNames.originals (Builder.unicode_names b) = ∅;
}.

(** What a caller of a loaded set can rely on. *)
Record well_formed (s : Par2FileSet.t) : Prop := {
  wf_main : packet_ok windows (PMain (MainPacket.mk (Par2FileSet.recovery_set_id s) (Par2FileSet.slice_size s)
    (Par2FileSet.recovery_file_ids s) (Par2FileSet.non_recovery_file_ids s)));
  wf_files : files_ok (Par2FileSet.files s);
  wf_checksums : forall id c, Par2FileSet.slice_checksums s !! id = Some c -> exists d,
    Par2FileSet.files s !! id = Some d /\ Query.slice_count_for_file s (FileDescription.length d) = Ok (zlen c);
  wf_slices : forall e rs, Par2FileSet.recovery_slices s !! e = Some rs ->
    rs_exponent rs = e /\ 0 <= e <= MAX_RECOVERY_EXPONENT /\ data_len (rs_data rs) = Par2FileSet.slice_size s;
}.

Lemma builder_ok_new : builder_ok Builder.new.
Proof.
  split; cbn; [done|split|split|..]; unfold msize; rewrite ?map_size_empty; try done; intros k v Hk;
    by rewrite lookup_empty in Hk.
Qed.

(** An insertion below the limit. *)
Lemma insert_ok {K A} `{Countable K} (P : K -> A -> Prop) (m : gmap K A) k v n : m !! k = None -> msize m < n ->
  (forall i x, m !! i = Some x -> P i x) -> P k v ->
  msize (<[k := v]> m) <= n /\ forall i x, <[k := v]> m !! i = Some x -> P i x.
Proof.
  intros Hk Hn Hm Hv. rewrite msize_insert by done. split; [lia|]. intros i x Hi.
  destruct (decide (i = k)) as [-> |]; [rewrite lookup_insert_eq in Hi; by injection Hi as <-|].
  rewrite lookup_insert_ne in Hi by done. by apply Hm.
Qed.

Lemma add_packet_ok b p o a b' : builder_ok b -> packet_ok windows p -> Builder.add_packet p o b = (Ok a, b') -> builder_ok b'.
Proof.
  intros Hb Hp Hadd. destruct p as [m|fd|i|r|c|u|ty body]; unfold Builder.add_packet in Hadd.
  - destruct (Builder.main_packet b) as [x|] eqn:Hm; [case_bool_decide; by simplify_eq/=|]. simplify_eq/=.
    destruct Hb as [_ Hf Hc Hs Ho]. split; [intros m' [= <-]; exact Hp|exact Hf|exact Hc|exact Hs|exact Ho].
  - rewrite holds_spec in Hadd. fold (msize (Builder.files b)) in Hadd.
    destruct (Builder.files b !! _) eqn:Hf; [by simplify_eq|].
    destruct (Z.leb_spec MAX_FILES_PER_SET (msize (Builder.files b))); [by simplify_eq|]. simplify_eq.
    destruct Hb as [Hm [Hn Hfs] Hc Hs Ho]. split; [exact Hm| |exact Hc|exact Hs|exact Ho].
    apply (insert_ok desc_ok _ _ _ MAX_FILES_PER_SET Hf); [lia|exact Hfs|].
    destruct Hp as (? & ? & ? & ? & _ & ? & _). by repeat (split; [done|]).
  - rewrite holds_spec in Hadd. fold (msize (Builder.slice_checksums b)) in Hadd.
    destruct (Builder.slice_checksums b !! _) eqn:Hf; [by simplify_eq|].
    destruct (Z.leb_spec MAX_FILES_PER_SET (msize (Builder.slice_checksums b))); [by simplify_eq|]. simplify_eq.
    destruct Hb as [Hm Hfs [Hn Hc] Hs Ho]. split; [exact Hm|exact Hfs| |exact Hs|exact Ho].
    apply (insert_ok (fun _ c => zlen c <= MAX_TOTAL_INPUT_SLICES) _ _ _ MAX_FILES_PER_SET Hf); [lia|exact Hc|apply Hp].
  - destruct (Z.ltb_spec MAX_RECOVERY_EXPONENT (RecoverySlicePacket.exponent r)); [by simplify_eq|].
    destruct (Builder.recovery_slices b !! _) eqn:Hr; [by simplify_eq|]. simplify_eq.
    destruct Hb as [Hm Hfs Hc Hs Ho]. split; [exact Hm|exact Hfs|exact Hc| |exact Ho].
    refine (proj2 (insert_ok (fun e rs => rs_exponent rs = e /\ 0 <= e <= MAX_RECOVERY_EXPONENT) _ _ _
      (msize (Builder.recovery_slices b) + 1) Hr _ Hs _)); [lia|]. cbn. destruct Hp. lia.
  - destruct (Builder.creator b); simplify_eq; [done|]. by destruct Hb.
  - pose proof (agree_add (Builder.unicode_names b) u) as [_ Ho]. destruct (UnicodeNames.add _ u) as [adm n]. simplify_eq/=.
    destruct Hb as [Hm Hfs Hc Hs Ho']. split; try done. cbn. by rewrite Ho.
  - by simplify_eq.
Qed.

(** ** Building *)

Lemma final_desc_ok id d name : desc_ok id d -> desc_ok id (final_desc windows d name).
Proof.
  intros Hd. unfold final_desc. destruct name as [[n|]|]; [|done|done]. case_bool_decide; [done|].
  pose proof (translate_is_safe windows n) as Ht. destruct (translate_par2_name_to_relative windows n); [|done|done].
  destruct Hd as (? & ? & ? & ? & ? & _). by repeat (split; [done|]).
Qed.

Lemma settled_files_ok base names files : files_ok base -> settled windows base names files -> files_ok files.
Proof.
  intros [Hn Hb] Hs. split.
  - etrans; [|exact Hn]. unfold msize. apply inj_le. rewrite <- !size_dom. apply subseteq_size. intros id Hid.
    apply elem_of_dom in Hid as [d Hd]. apply elem_of_dom. specialize (Hs id). apply (f_equal snd) in Hs. cbn in Hs.
    rewrite Hd in Hs. by destruct (base !! id).
  - intros id d Hd. specialize (Hs id). apply (f_equal snd) in Hs. cbn in Hs. rewrite Hd in Hs.
    destruct (base !! id) as [d0|] eqn:H0; [|done]. injection Hs as ->. apply final_desc_ok. by apply Hb.
Qed.

(** Slices of a file, when there is a slice size. *)
Definition slices_in (len slice_size : Z) : Z := if len =? 0 then 0 else (len + slice_size - 1) / slice_size.

Lemma keep_checksums_ok files n id c : 0 < n -> Builder.keep_checksums files n id c =
  Ok (match files !! id with Some d => zlen c =? slices_in (FileDescription.length d) n | None => false end).
Proof.
  intros Hn. unfold Builder.keep_checksums, slices_in, Builder.div_ceil. destruct (files !! id) as [d|]; [|done].
  destruct (FileDescription.length d =? 0); [done|]. by rewrite (proj2 (Z.eqb_neq n 0)) by lia.
Qed.

Lemma build_well_formed b : builder_ok b ->
  match Builder.build windows b with
  | Ok s => well_formed s
  | Err e => e = NoMainPacket /\ Builder.main_packet b = None
  | Panic => False
  end.
Proof.
  intros [Hm Hf Hc Hs Ho]. unfold Builder.build. destruct (Builder.main_packet b) as [main|] eqn:Hmain; [|done].
  specialize (Hm main eq_refl). pose proof Hm as (_ & Hsize & _).
  destruct (apply_settles windows (Builder.files b) (Builder.unicode_names b) (Builder.files b)) as (ns & fs & -> & _ & Hset).
  { intros id. exists None. rewrite Ho, lookup_empty. split; [by right; left|].
    unfold form, final_original, final_desc. by destruct (Builder.files b !! id). }
  rewrite bind_Ok. rewrite (retain_spec _ _ (fun _ rs => data_len (rs_data rs) =? MainPacket.slice_size main)) by done.
  rewrite bind_Ok. rewrite (retain_spec _ _ (fun id c => match fs !! id with
    | Some d => zlen c =? slices_in (FileDescription.length d) (MainPacket.slice_size main) | None => false end))
    by (intros; apply keep_checksums_ok; lia).
  rewrite bind_Ok. pose proof (settled_files_ok _ _ _ Hf Hset) as Hfs. split; cbn.
  - by destruct main.
  - exact Hfs.
  - intros id c [Hin Hkeep]%map_lookup_filter_Some. cbn in Hkeep. destruct (fs !! id) as [d|]; [|done].
    exists d. split; [done|]. apply Z.eqb_eq in Hkeep. unfold Query.slice_count_for_file, slices_in in *. cbn.
    rewrite (proj2 (Z.eqb_neq (MainPacket.slice_size main) 0)) by lia. rewrite orb_false_r.
    destruct (FileDescription.length d =? 0); [by rewrite Hkeep|]. unfold Builder.div_ceil.
    rewrite (proj2 (Z.eqb_neq (MainPacket.slice_size main) 0)), bind_Ok by lia. rewrite <- Hkeep.
    destruct Hc as [_ Hc]. specialize (Hc id c Hin). unfold MAX_TOTAL_INPUT_SLICES in Hc. by rewrite (proj2 (Z.ltb_lt _ _)) by lia.
  - intros e rs [Hin Hkeep]%map_lookup_filter_Some. destruct (Hs e rs Hin). cbn in Hkeep. apply Z.eqb_eq in Hkeep. done.
Qed.
End invariants.

(** * Scanning into the builder *)

#[export] Instance builder_lawful {L : Layout} {layout : LayoutOk L} : LawfulSink Builder.t.
Proof.
  intros p o id [b s]. unfold accept, BuilderSink, Builder.add_packet_budgeted, mbind, stateM_bind, gets, on_fst, on_snd, mret, stateM_ret.
  cbn [fst snd]. pose proof (charge_retained_keeps (packet_retained_bytes p) b) as H1.
  destruct (Builder.would_retain s p); cbn [negb fst snd].
  - destruct (charge_retained _ b) as [[[]|e|] b1]; cbn [fst snd] in H1; [|exact H1..]. cbn [fst snd].
    destruct (Builder.add_packet p o s) as [[a|e|] s1]; cbn; [case_bool_decide; [|unfold release_retained, release_bytes, modify, mbind, stateM_bind]; cbn|..]; congruence.
  - by destruct (Builder.add_packet p o s) as [[a|e|] s1].
Qed.

Section loads.
Context {L : Layout} {layout : LayoutOk L} (windows : bool) (l : PacketScanLimits) (Hl : limits_ok l).

(** Between two steps of a load: no token, and a builder in order. *)
Definition load_inv (st : PacketScanBudget * Builder.t) : Prop :=
  limits st.1 = l /\ cancel st.1 = None /\ builder_ok windows st.2.
Definition scan_error (e : par2_error) : Prop := e = ConflictingRecoverySet \/ e = ResourceLimitExceeded.

(** A step of a load from any such state. *)
Definition loads {A} (m : Builder.charged A) : Prop := forall st, load_inv st ->
  match m st with
  | (Ok _, st') => load_inv st'
  | (Err e, _) => scan_error e
  | (Panic, _) => False
  end.

Lemma loads_ret {A} (a : A) : loads (mret a).
Proof using. by intros st H. Qed.
Lemma loads_bind {A C} (m : Builder.charged A) (k : A -> Builder.charged C) : loads m -> (forall a, loads (k a)) -> loads (m ≫= k).
Proof using.
  intros Hm Hk st Hst. specialize (Hm st Hst). unfold mbind, stateM_bind. destruct (m st) as [[a|e|] st']; [|done|done].
  by apply Hk.
Qed.

Lemma loads_op o : op_ok o -> loads (on_fst (run_op o)).
Proof using Hl.
  intros Ho [b s] (Hb & Hc & Hs). pose proof (run_op_outcome b o) as H. cbn [fst snd] in *. rewrite Hb in H. specialize (H Hl Ho).
  unfold on_fst. cbn [fst snd]. destruct (run_op o b) as [r b']. cbn [fst snd] in *. destruct H as (Hlim & Hcan & Hout).
  destruct Hout as [(-> & _)|[(-> & _)|(_ & [x Hx] & _)]]; [|by right|congruence].
  split; [cbn; congruence|]. split; [cbn; congruence|exact Hs].
Qed.
Lemma loads_examine : loads (on_fst charge_examined).
Proof using Hl. by apply (loads_op Examine). Qed.

Lemma loads_packet p o : packet_ok windows p -> loads (Builder.add_packet_budgeted p o).
Proof using Hl layout.
  intros Hp [b s] (Hb & Hc & Hs). pose proof (budgeted_outcome b s p o) as H. cbn [fst snd] in *. rewrite Hb in H. specialize (H Hl).
  destruct (Builder.add_packet_budgeted p o (b, s)) as [r [b' s']]. destruct H as (Hlim & Hcan & Hout & _ & Hstep).
  assert (builder_ok windows s') as Hs' by (destruct Hstep as [-> |[a Ha]]; [done|by eapply add_packet_ok]).
  destruct r as [a|e|]; cbn in Hout; [|destruct e; try done|done].
  - split; [cbn; congruence|]. split; [cbn; congruence|exact Hs'].
  - by left.
  - by right.
  - destruct Hout as [[x Hx] _]. congruence.
Qed.
Lemma loads_accept p o id : packet_ok windows p -> loads (accept p o id).
Proof using Hl layout. intros Hp. apply loads_bind; [by apply loads_packet|]. intros []; apply loads_ret. Qed.

(** ** In memory *)

Lemma walk_all {X} (P : X -> Prop) (attempt : Z -> list X * Z) len fuel pos :
  (forall p, Forall P (attempt p).1) -> Forall P (walk attempt len fuel pos).
Proof using.
  intros H. revert pos. induction fuel as [|fuel IH]; intros pos; cbn [walk]; [constructor|].
  destruct (_ <? _); [constructor|]. apply Forall_app. split; [apply H|apply IH].
Qed.

Definition found_ok (x : Found) : Prop := packet_ok windows x.1.1.

Lemma packets_ok {B : Backends} {laws : BackendLaws B} backend data base :
  Forall found_ok (packets_of backend windows data base).
Proof using.
  apply walk_all. intros pos. unfold attempt. pose proof (parse_packet_safe backend windows (zdrop pos data) (base + pos)) as H.
  destruct (parse_packet _ _ _ _) as [[p n]| |]; cbn; [|constructor..]. constructor; [apply H|constructor].
Qed.

Lemma loads_deliver xs : Forall found_ok xs -> loads (deliver xs).
Proof using Hl layout.
  induction 1 as [|[[p o] id] xs Hx _ IH]; [apply loads_ret|]. apply loads_bind; [|by intros _].
  apply loads_bind; [apply loads_examine|]. intros _.
  destruct p; try (apply loads_accept; exact Hx). apply loads_ret.
Qed.

(** ** From files *)

Definition event_ok (e : event) : Prop := match e with FoundAt x => found_ok x | _ => True end.

Lemma body_event_ok data pos h : PacketHeader.parse (header_bytes_at data pos) pos = Ok h -> event_ok (body_event windows data h pos).
Proof using.
  intros Hh. pose proof (header_safe (header_bytes_at data pos) pos) as H. rewrite Hh in H. destruct H as (Hid & _ & _ & _ & Hsig).
  unfold body_event. destruct (max_buffered_non_recovery_body_len _); [|done]. destruct (_ <? _); [done|].
  pose proof (body_safe windows h (body_at data pos h) Hid Hsig) as Hb. by destruct (parse_packet_body _ _ _).
Qed.

Lemma events_ok {B : Backends} data path : Forall event_ok (stream_events windows data path 0).
Proof using.
  apply walk_all. intros pos. unfold stream_attempt, header_at.
  destruct (PacketHeader.parse _ _) as [h| |] eqn:Hh; cbn [fst]; [|constructor..].
  destruct (_ <? _); cbn [fst]; [constructor|]. apply Forall_app. split.
  { destruct (is_recovery _); repeat constructor. }
  unfold packet_events. destruct (is_recovery _).
  - destruct (Z.leb_spec (PacketHeader.length h - 64) 4); cbn [orb fst]; [constructor|]. destruct (hash_valid _ _ _); cbn [negb fst]; [|constructor].
    constructor; [|constructor]. unfold event_ok, found_ok, file_backed. cbn. unfold u32_le.
    pose proof (le_combine_range (ztake 4 (span data (pos + 64) (pos + 68)))) as Hr.
    assert (zlen (ztake 4 (span data (pos + 64) (pos + 68))) <= 4) by (rewrite zlen_take by lia; lia).
    pose proof (Z.pow_le_mono_r 256 (zlen (ztake 4 (span data (pos + 64) (pos + 68)))) 4 ltac:(lia) ltac:(lia)).
    change (2 ^ 32) with (256 ^ 4). lia.
  - destruct (hash_valid _ _ _); cbn [negb fst]; [|constructor]. constructor; [by apply body_event_ok|constructor].
Qed.

Definition path_ok (path : ustring) : Prop := text_len path + 16 < 2 ^ 64.
Lemma interned_range path : path_ok path -> 0 <= interned_path_bytes path < 2 ^ 64.
Proof using. unfold path_ok, interned_path_bytes, text_len. pose proof (zlen_nonneg (encode_utf8 path)). lia. Qed.

Lemma loads_events path charged evs : path_ok path -> Forall event_ok evs -> loads (deliver_events path charged evs).
Proof using Hl layout.
  intros Hpath H. revert charged. induction H as [|e evs He _ IH]; intros charged; cbn [deliver_events]; [apply loads_ret|].
  destruct e as [| |[[p o] id]].
  - apply loads_bind; [|done]. destruct charged; [apply loads_ret|]. apply (loads_op (ChargeBytes _)). by apply interned_range.
  - apply loads_bind; [apply loads_examine|done].
  - apply loads_bind; [apply loads_examine|]. intros _. apply loads_bind; [by apply loads_accept|done].
Qed.

Context {B : Backends} {laws : BackendLaws B} {buffering : Buffering} {buffering_ok : BufferingOk} (backend : Par2Md5Backend).

Lemma loads_files files : Forall (fun data => zlen data < 2 ^ 64) files -> loads (scan_files backend windows files).
Proof using Hl layout laws.
  induction 1 as [|data files Hd _ IH]; [apply loads_ret|]. apply loads_bind; [|by intros _].
  intros st Hst. cbv beta in Hd. pose proof Hst as (_ & Hc & _). pose proof (loads_deliver _ (packets_ok backend data 0) st Hst) as H. unfold scan_packets_bounded, scan_packets_internal.
  rewrite scan_loop_delivers by (exact builder_lawful || done || lia || (rewrite Z.sub_0_r, zlen_of_nat; lia)). exact H.
Qed.

(** A volume: a path the meters can count, and its bytes or the error of
    opening it. *)
Definition volume_ok (v : ustring * par2_result (list byte)) : Prop :=
  path_ok v.1 /\ match v.2 with Ok data => zlen data < 2 ^ 64 | Err _ => True | Panic => False end.

Lemma loads_path path data st : path_ok path -> zlen data < 2 ^ 64 -> load_inv st ->
  match scan_packets_from_path_bounded backend windows path (Ok data) st with
  | (Ok _, st') => load_inv st'
  | (Err e, _) => scan_error e
  | (Panic, _) => False
  end.
Proof using Hl layout laws buffering_ok.
  intros Hp Hd Hst. pose proof Hst as (_ & Hc & _). rewrite path_scan_delivers by (exact builder_lawful || done).
  apply (loads_events path false _ Hp (events_ok data path)). done.
Qed.

Lemma loads_paths paths st : Forall volume_ok paths -> load_inv st ->
  match scan_paths backend windows paths st with
  | (Ok _, st') => load_inv st'
  | (Err e, _) => scan_error e \/ Exists (fun v => v.2 = Err e) paths
  | (Panic, _) => False
  end.
Proof using Hl layout laws buffering_ok.
  intros H. revert st. induction H as [|[path file] paths [Hp Hf] _ IH]; intros st Hst; [exact Hst|].
  cbn [scan_paths]. unfold mbind, stateM_bind. destruct file as [data|e|]; [|by right; left|done].
  pose proof (loads_path path data st Hp Hf Hst) as H. destruct (scan_packets_from_path_bounded _ _ _ _ st) as [[[]|e|] st1]; [|by left|done].
  specialize (IH st1 H). destruct (scan_paths _ _ _ st1) as [[[]|e|] st2]; [done| |done].
  destruct IH as [IH|IH]; [by left|by right; right].
Qed.

Lemma load_start : load_inv (budget_new l, Builder.new).
Proof using. split; [done|]. split; [done|apply builder_ok_new]. Qed.

Lemma built_ok (F : par2_error -> Prop) scanned :
  match scanned with (Ok _, st) => load_inv st | (Err e, _) => F e | (Panic, _) => False end ->
  match built windows scanned with
  | Ok s => well_formed windows s
  | Err e => e = NoMainPacket \/ F e
  | Panic => False
  end.
Proof using.
  destruct scanned as [[[]|e|] st]; intros H; unfold built; cbn [fst snd]; [|by right|done]. rewrite bind_Ok.
  destruct H as (_ & _ & Hb). apply build_well_formed in Hb. destruct (Builder.build windows st.2); [done| |done].
  left. apply Hb.
Qed.
End loads.

(** C34 (loads are well formed): loading a set from any byte strings, or from
    any paths however their files are buffered, under any limits, never
    panics; the set it returns is well formed (a positive slice size that is
    a multiple of four, file counts within the limits, every file keyed by
    its identifier under a safe local name, slice checksums only for
    described files and exactly as many as the file has slices, recovery
    blocks keyed by their exponent, below 65,536, and exactly one slice
    long); the errors are a missing Main packet, two sets, an exceeded limit,
    or a file that could not be opened. *)
Theorem loads_are_well_formed {B : Backends} {laws : BackendLaws B} {buffering : Buffering} {buffering_ok : BufferingOk}
    {L : Layout} {layout : LayoutOk L} (backend : Par2Md5Backend) (windows : bool) (l : PacketScanLimits)
    (files : list (list byte)) (paths : list (ustring * par2_result (list byte))) :
  limits_ok l -> Forall (fun data => zlen data < 2 ^ 64) files -> Forall volume_ok paths ->
  match from_files_with_limits backend windows files l with
  | Ok s => well_formed windows s
  | Err e => e = NoMainPacket \/ scan_error e
  | Panic => False
  end /\
  match from_paths_with_limits backend windows paths l with
  | Ok s => well_formed windows s
  | Err e => e = NoMainPacket \/ scan_error e \/ Exists (fun v => v.2 = Err e) paths
  | Panic => False
  end.
Proof.
  intros Hl Hfiles Hpaths. split.
  - apply (built_ok windows l scan_error). by apply (loads_files windows l Hl backend files Hfiles), load_start.
  - apply (built_ok windows l (fun e => scan_error e \/ Exists (fun v => v.2 = Err e) paths)).
    by apply (loads_paths windows l Hl backend paths), load_start.
Qed.

(** ** Witness *)

Lemma default_limits_ok : limits_ok default_limits.
Proof. by vm_compute. Qed.

(** A set with one file of twenty bytes in blocks of eight, then what the
    parser takes for the packets of a volume. *)
Definition set_bytes : list byte :=
  let id := zreplicate 16 x01 in
  packet_bytes TYPE_MAIN id (le_split 8 8 ++ le_split 4 1 ++ sample_id)
  ++ packet_bytes TYPE_FILE_DESC id (sample_id ++ zreplicate 32 x02 ++ le_split 8 20 ++ bytes [97; 46; 98; 0])
  ++ packet_bytes TYPE_IFSC id (sample_id ++ zreplicate 60 x07)
  ++ packet_bytes TYPE_RECOVERY id (le_split 4 5 ++ zreplicate 8 x09).
Definition missing : ustring * par2_result (list byte) := ([98], Err FileNotFound).

Lemma loads_are_well_formed_witness :
  (match @from_files_with_limits reference_backends sample_layout BackendNative false [set_bytes; []] default_limits with
   | Ok s => well_formed false s
   | Err e => e = NoMainPacket \/ scan_error e
   | Panic => False
   end /\
   match @from_paths_with_limits reference_backends five sample_layout BackendNative false [([97], Ok set_bytes); missing] default_limits with
   | Ok s => well_formed false s
   | Err e => e = NoMainPacket \/ scan_error e \/ Exists (fun v => v.2 = Err e) [([97], Ok set_bytes); missing]
   | Panic => False
   end) /\
  (fun s => (size (Par2FileSet.files s), size (Par2FileSet.slice_checksums s), size (Par2FileSet.recovery_slices s)))
    <$> @from_files_with_limits reference_backends sample_layout BackendNative false [set_bytes; []] default_limits
  = Ok (1, 1, 1)%nat.
Proof.
  split.
  - apply (@loads_are_well_formed reference_backends reference_laws five five_ok sample_layout sample_layout_ok BackendNative false
      default_limits [set_bytes; []] [([97], Ok set_bytes); missing]).
    + exact default_limits_ok.
    + repeat constructor.
    + repeat constructor.
  - vm_compute. reflexivity.
Defined.
