(* ===== verification/BitString.v ===== *)
(** Byte buffers read as strings of bits, most significant bit of each byte
    first: the reference the bit readers of the LZ decoder are compared with,
    and the laws of the left-aligned 64-bit accumulator they share. *)
From S2P Require Import Prelude.

(** Bit [i] of a buffer; everything outside it is zero. *)
Definition bit_at (data : list byte) (i : Z) : bool :=
  (0 <=? i) && Z.testbit (u8 (nth (Z.to_nat (i / 8)) data x00)) (7 - i mod 8).

(** The number whose binary digits are the [n] bits from [pos] on. *)
Fixpoint field_nat (data : list byte) (pos : Z) (n : nat) : Z :=
  match n with
  | O => 0
  | S n => 2 * field_nat data pos n + Z.b2z (bit_at data (pos + Z.of_nat n))
  end.
Definition field (data : list byte) (pos n : Z) : Z := field_nat data pos (Z.to_nat n).

Definition bit_len (data : list byte) : Z := 8 * zlen data.

(** [u64::from_be_bytes], [u32::from_be_bytes]. *)
Definition be_combine (l : list byte) : Z := fold_left (fun acc b => 256 * acc + u8 b) l 0.

(** * Bits of a field *)

Lemma bit_at_past data i : bit_len data <= i -> bit_at data i = false.
Proof.
  intros H. unfold bit_at, bit_len, zlen in *. rewrite nth_overflow; [change (u8 x00) with 0; rewrite Z.testbit_0_l; apply andb_false_r|].
  apply Nat2Z.inj_le. rewrite Z2Nat.id; [apply Z.div_le_lower_bound; lia | apply Z.div_pos; lia].
Qed.

Lemma bit_at_before data i : i < 0 -> bit_at data i = false.
Proof. intros H. unfold bit_at. by rewrite (proj2 (Z.leb_gt 0 i) H). Qed.

Lemma testbit_field_nat data pos n k : 0 <= k ->
  Z.testbit (field_nat data pos n) k = (k <? Z.of_nat n) && bit_at data (pos + Z.of_nat n - 1 - k).
Proof.
  revert k. induction n as [|n IH]; intros k Hk; cbn [field_nat].
  { rewrite Z.testbit_0_l. by rewrite (proj2 (Z.ltb_ge k (Z.of_nat 0))) by lia. }
  destruct (decide (k = 0)) as [->|Hne].
  - rewrite Z.testbit_0_r, (proj2 (Z.ltb_lt 0 (Z.of_nat (S n)))) by lia. cbn. f_equal. lia.
  - replace k with (Z.succ (k - 1)) at 1 by lia. rewrite Z.testbit_succ_r, IH by lia.
    f_equal; [destruct (Z.ltb_spec (k - 1) (Z.of_nat n)), (Z.ltb_spec k (Z.of_nat (S n))); lia || done | f_equal; lia].
Qed.

Lemma testbit_field data pos n k : 0 <= n -> 0 <= k ->
  Z.testbit (field data pos n) k = (k <? n) && bit_at data (pos + n - 1 - k).
Proof. intros Hn Hk. unfold field. rewrite testbit_field_nat, Z2Nat.id by lia. done. Qed.

Lemma field_nat_range data pos n : 0 <= field_nat data pos n < 2 ^ Z.of_nat n.
Proof.
  induction n as [|n IH]; cbn [field_nat]; [done|].
  rewrite Nat2Z.inj_succ, Z.pow_succ_r by lia. destruct (bit_at _ _); cbn [Z.b2z]; lia.
Qed.
Lemma field_range data pos n : 0 <= n -> 0 <= field data pos n < 2 ^ n.
Proof. intros Hn. unfold field. pose proof (field_nat_range data pos (Z.to_nat n)) as H. rewrite Z2Nat.id in H; lia. Qed.

(** Equality of integers by their digits, the ones above a bound being zero. *)
Lemma bits_eq a b n : 0 <= n -> 0 <= a < 2 ^ n -> 0 <= b < 2 ^ n ->
  (forall k, 0 <= k < n -> Z.testbit a k = Z.testbit b k) -> a = b.
Proof.
  intros Hn Ha Hb H. apply Z.bits_inj'. intros k Hk.
  destruct (Z.ltb_spec k n) as [Hlt|Hge]; [by apply H|].
  rewrite (testbit_high a n k), (testbit_high b n k) by lia. done.
Qed.

Lemma field_ext data data' pos pos' n : 0 <= n ->
  (forall k, 0 <= k < n -> bit_at data (pos + k) = bit_at data' (pos' + k)) -> field data pos n = field data' pos' n.
Proof.
  intros Hn H. apply (bits_eq _ _ n Hn (field_range _ _ _ Hn) (field_range _ _ _ Hn)). intros k Hk.
  rewrite !testbit_field by lia. f_equal.
  replace (pos + n - 1 - k) with (pos + (n - 1 - k)) by lia. replace (pos' + n - 1 - k) with (pos' + (n - 1 - k)) by lia.
  apply H. lia.
Qed.

Lemma field_shiftr data pos n k : 0 <= k <= n -> Z.shiftr (field data pos n) k = field data pos (n - k).
Proof.
  intros Hk. apply Z.bits_inj'. intros i Hi. rewrite Z.shiftr_spec, !testbit_field by lia.
  f_equal; [destruct (Z.ltb_spec (i + k) n), (Z.ltb_spec i (n - k)); lia || done | f_equal; lia].
Qed.

Lemma field_app data pos a b : 0 <= a -> 0 <= b -> field data pos (a + b) = field data pos a * 2 ^ b + field data (pos + a) b.
Proof.
  intros Ha Hb. pose proof (field_range data (pos + a) b Hb) as Hr.
  rewrite Z.add_comm with (n := field data pos a * 2 ^ b), <- lor_shiftl_add by lia.
  apply Z.bits_inj'. intros i Hi. rewrite Z.lor_spec, Z.shiftl_spec, !testbit_field by lia.
  destruct (Z.ltb_spec i b).
  - rewrite (proj2 (Z.ltb_lt i (a + b))), (Z.testbit_neg_r _ (i - b)), orb_false_r by lia. cbn. f_equal. lia.
  - rewrite testbit_field by lia. cbn [andb orb].
    f_equal; [destruct (Z.ltb_spec i (a + b)), (Z.ltb_spec (i - b) a); lia || done | f_equal; lia].
Qed.

Lemma field_0 data pos : field data pos 0 = 0.
Proof. done. Qed.

(** * Bytes of the buffer as fields *)

Lemma bit_at_byte data p k : 0 <= p -> 0 <= k < 8 -> bit_at data (8 * p + k) = Z.testbit (u8 (nth (Z.to_nat p) data x00)) (7 - k).
Proof.
  intros Hp Hk. unfold bit_at. rewrite (proj2 (Z.leb_le 0 (8 * p + k))) by lia.
  replace ((8 * p + k) / 8) with p by (Z.to_euclidean_division_equations; lia).
  by replace ((8 * p + k) mod 8) with k by (Z.to_euclidean_division_equations; lia).
Qed.

Lemma field_byte data p : 0 <= p -> field data (8 * p) 8 = u8 (nth (Z.to_nat p) data x00).
Proof.
  intros Hp. pose proof (u8_range (nth (Z.to_nat p) data x00)).
  apply (bits_eq _ _ 8); [lia | by apply field_range | lia |]. intros k Hk.
  rewrite testbit_field, (proj2 (Z.ltb_lt k 8)) by lia. cbn [andb].
  replace (8 * p + 8 - 1 - k) with (8 * p + (7 - k)) by lia. rewrite bit_at_byte by lia. f_equal. lia.
Qed.

Lemma be_combine_snoc l b : be_combine (l ++ [b]) = 256 * be_combine l + u8 b.
Proof. unfold be_combine. by rewrite fold_left_app. Qed.

(** A big-endian load is the field of its bytes. *)
Lemma be_combine_take data p n : 0 <= p -> p + Z.of_nat n <= zlen data ->
  be_combine (take n (drop (Z.to_nat p) data)) = field data (8 * p) (8 * Z.of_nat n).
Proof.
  intros Hp. induction n as [|n IH]; intros Hn; [done|].
  assert (Hlt : (Z.to_nat (p + Z.of_nat n) < length data)%nat) by (unfold zlen in Hn; lia).
  assert (Hget : drop (Z.to_nat p) data !! n = Some (nth (Z.to_nat (p + Z.of_nat n)) data x00)).
  { rewrite lookup_drop. replace (Z.to_nat p + n)%nat with (Z.to_nat (p + Z.of_nat n)) by lia.
    rewrite nth_lookup. destruct (lookup_lt_is_Some_2 data _ Hlt) as [b ->]. done. }
  rewrite (take_S_r _ _ _ Hget), be_combine_snoc, IH by lia.
  replace (8 * Z.of_nat (S n)) with (8 * Z.of_nat n + 8) by lia. rewrite field_app by lia.
  replace (8 * p + 8 * Z.of_nat n) with (8 * (p + Z.of_nat n)) by lia. rewrite (field_byte data (p + Z.of_nat n)) by lia.
  rewrite (Z.mul_comm 256). reflexivity.
Qed.

Lemma be_combine_window data p n : 0 <= p -> 0 <= n -> p + n <= zlen data ->
  be_combine (ztake n (zdrop p data)) = field data (8 * p) (8 * n).
Proof.
  intros Hp Hn Hle. rewrite zdrop_nat, ztake_nat by lia.
  rewrite be_combine_take by lia. f_equal. lia.
Qed.

Lemma bit_at_app_r l k i : 0 <= i -> bit_at (l ++ k) (bit_len l + i) = bit_at k i.
Proof.
  intros Hi. unfold bit_at, bit_len. pose proof (zlen_nonneg l). rewrite (proj2 (Z.leb_le 0 i)), (proj2 (Z.leb_le 0 _)) by lia.
  replace ((8 * zlen l + i) / 8) with (zlen l + i / 8) by (Z.to_euclidean_division_equations; lia).
  replace ((8 * zlen l + i) mod 8) with (i mod 8) by (Z.to_euclidean_division_equations; lia).
  assert (0 <= i / 8) by (apply Z.div_pos; lia).
  rewrite app_nth2 by (unfold zlen; lia). do 4 f_equal. unfold zlen. lia.
Qed.

Lemma bit_at_app_l l k i : i < bit_len l -> bit_at (l ++ k) i = bit_at l i.
Proof.
  intros Hi. destruct (Z.leb_spec 0 i); [|by rewrite !bit_at_before by lia].
  unfold bit_at, bit_len, zlen in *. rewrite app_nth1; [done|].
  assert (i / 8 < Z.of_nat (length l)) by (apply Z.div_lt_upper_bound; lia). assert (0 <= i / 8) by (apply Z.div_pos; lia). lia.
Qed.

(** * Fields reaching behind the end *)

Lemma field_past data pos n : bit_len data <= pos -> 0 <= n -> field data pos n = 0.
Proof.
  intros Hp Hn. apply (bits_eq _ _ n Hn (field_range _ _ _ Hn)); [lia|]. intros k Hk.
  rewrite testbit_field, Z.testbit_0_l, bit_at_past by lia. apply andb_false_r.
Qed.

Lemma field_pad data pos n k : bit_len data <= pos + n -> 0 <= n -> 0 <= k -> Z.shiftl (field data pos n) k = field data pos (n + k).
Proof. intros Hp Hn Hk. rewrite field_app, (field_past data (pos + n) k), Z.shiftl_mul_pow2 by lia. lia. Qed.

(** * The left-aligned accumulator *)

(** The bits from [pos] on, the first at bit 63. The first [acc_bits] are
    valid; the ones below are either zero or already the right source bits,
    left there by a bulk load that credited whole bytes only. *)
Record acc_ok (data : list byte) (pos acc acc_bits : Z) : Prop := mk_acc_ok {
  acc_range : 0 <= acc < 2 ^ 64;
  acc_count : 0 <= acc_bits <= 64;
  acc_valid : forall k, 64 - acc_bits <= k < 64 -> Z.testbit acc k = bit_at data (pos + 63 - k);
  acc_below : forall k, 0 <= k < 64 -> Z.testbit acc k = true -> bit_at data (pos + 63 - k) = true
}.

Lemma wrap64_testbit z k : 0 <= k < 64 -> Z.testbit (wrap64 z) k = Z.testbit z k.
Proof. intros Hk. unfold wrap64. by rewrite Z.mod_pow2_bits_low by lia. Qed.

Lemma shiftr_range z n m : 0 <= m -> 0 <= n -> 0 <= z < 2 ^ (n + m) -> 0 <= Z.shiftr z n < 2 ^ m.
Proof.
  intros Hm Hn Hz. rewrite Z.shiftr_div_pow2 by lia. rewrite Z.pow_add_r in Hz by lia.
  split; [apply Z.div_pos; lia | apply Z.div_lt_upper_bound; lia].
Qed.

Section accumulator.
Variables (data : list byte) (pos acc acc_bits : Z).

Lemma acc_empty : acc_ok data pos 0 0.
Proof. constructor; [lia | lia | lia |]. intros k Hk. by rewrite Z.testbit_0_l. Qed.

Hypothesis (Hok : acc_ok data pos acc acc_bits).

(** The top bits are the next field. *)
Lemma acc_top n : 0 <= n <= acc_bits -> Z.shiftr acc (64 - n) = field data pos n.
Proof.
  intros Hn. destruct Hok as [Hr Hc Hv _].
  assert (Hrange : 0 <= Z.shiftr acc (64 - n) < 2 ^ n) by (apply shiftr_range; rewrite ?Z.sub_add; lia).
  apply (bits_eq _ _ n); [lia | exact Hrange | apply field_range; lia |]. intros k Hk.
  rewrite Z.shiftr_spec, testbit_field, (proj2 (Z.ltb_lt k n)), Hv by lia. cbn. f_equal. lia.
Qed.

(** Shifting drops bits from the front. *)
Lemma acc_drop n : 0 <= n <= acc_bits -> acc_ok data (pos + n) (wrap64 (Z.shiftl acc n)) (acc_bits - n).
Proof.
  intros Hn. destruct Hok as [Hr Hc Hv Hb]. constructor; [apply wrap64_range | lia | |]; intros k Hk.
  - rewrite wrap64_testbit, Z.shiftl_spec, Hv by lia. f_equal. lia.
  - rewrite wrap64_testbit, Z.shiftl_spec by lia.
    destruct (Z.ltb_spec k n); [by rewrite Z.testbit_neg_r by lia|].
    intros Ht%Hb; [|lia]. rewrite <- Ht. f_equal. lia.
Qed.

(** One more byte behind the valid bits. *)
Lemma acc_byte b : acc_bits <= 56 -> u8 b = field data (pos + acc_bits) 8 ->
  acc_ok data pos (Z.lor acc (wrap64 (Z.shiftl (u8 b) (56 - acc_bits)))) (acc_bits + 8).
Proof.
  intros Hle Hbyte. destruct Hok as [Hr Hc Hv Hb].
  assert (Hbit : forall k, 0 <= k < 64 -> Z.testbit (wrap64 (Z.shiftl (u8 b) (56 - acc_bits))) k =
            (k <? 64 - acc_bits) && (56 - acc_bits <=? k) && bit_at data (pos + 63 - k)).
  { intros k Hk. rewrite wrap64_testbit, Z.shiftl_spec by lia.
    destruct (Z.leb_spec (56 - acc_bits) k) as [Hlo|Hlo]; [|rewrite andb_false_r; by rewrite Z.testbit_neg_r by lia].
    rewrite Hbyte, testbit_field by lia. rewrite andb_true_r.
    f_equal; [destruct (Z.ltb_spec (k - (56 - acc_bits)) 8), (Z.ltb_spec k (64 - acc_bits)); lia || done | f_equal; lia]. }
  constructor; [apply lor_range; [lia | lia | apply wrap64_range] | lia | |]; intros k Hk; rewrite Z.lor_spec, Hbit by lia.
  - destruct (Z.ltb_spec k (64 - acc_bits)).
    + rewrite (proj2 (Z.leb_le (56 - acc_bits) k)) by lia. cbn.
      destruct (Z.testbit acc k) eqn:E; [|done]. by rewrite (Hb k ltac:(lia) E).
    + cbn. rewrite orb_false_r. apply Hv. lia.
  - destruct (Z.testbit acc k) eqn:E; [intros _; apply Hb; lia || done|].
    cbn. by intros [_ ?]%andb_true_iff.
Qed.

(** A bulk load of eight bytes below the valid bits. *)
Lemma acc_bulk chunk : acc_bits <= 56 -> chunk = field data (pos + acc_bits) 64 ->
  acc_ok data pos (Z.lor acc (Z.shiftr chunk acc_bits)) (Z.lor acc_bits 56).
Proof.
  intros Hle ->. destruct Hok as [Hr Hc Hv Hb].
  assert (Hcount : 56 <= Z.lor acc_bits 56 <= 63).
  { assert (E : Z.lor acc_bits 56 = 56 + acc_bits mod 8); [|rewrite E; Z.to_euclidean_division_equations; lia].
    assert (Hall : forallb (fun n => Z.lor (Z.of_nat n) 56 =? 56 + Z.of_nat n mod 8) (seq 0 57) = true) by (vm_compute; reflexivity).
    rewrite forallb_forall in Hall. specialize (Hall (Z.to_nat acc_bits)). rewrite Z2Nat.id in Hall by lia.
    apply Z.eqb_eq, Hall, in_seq. lia. }
  assert (Hbit : forall k, 0 <= k < 64 -> Z.testbit (Z.shiftr (field data (pos + acc_bits) 64) acc_bits) k =
            (k <? 64 - acc_bits) && bit_at data (pos + 63 - k)).
  { intros k Hk. rewrite Z.shiftr_spec, testbit_field by lia.
    f_equal; [destruct (Z.ltb_spec (k + acc_bits) 64), (Z.ltb_spec k (64 - acc_bits)); lia || done | f_equal; lia]. }
  constructor; [apply lor_range; [lia | lia |] | lia | |].
  { pose proof (field_range data (pos + acc_bits) 64 ltac:(lia)) as Hf. rewrite Z.shiftr_div_pow2 by lia.
    split; [apply Z.div_pos; lia|]. apply Z.div_lt_upper_bound; nia. }
  - intros k Hk. rewrite Z.lor_spec, Hbit by lia. destruct (Z.ltb_spec k (64 - acc_bits)).
    + cbn. destruct (Z.testbit acc k) eqn:E; [|done]. by rewrite (Hb k ltac:(lia) E).
    + cbn. rewrite orb_false_r. apply Hv. lia.
  - intros k Hk. rewrite Z.lor_spec, Hbit by lia.
    destruct (Z.testbit acc k) eqn:E; [intros _; apply Hb; lia || done|]. cbn. by intros [_ ?]%andb_true_iff.
Qed.
End accumulator.

(** The whole bytes a bulk load absorbs, in bits. *)
Lemma bulk_credit acc_bits : 0 <= acc_bits <= 56 -> acc_bits + 8 * Z.shiftr (63 - acc_bits) 3 = Z.lor acc_bits 56.
Proof.
  intros Hle.
  assert (Hall : forallb (fun n => Z.of_nat n + 8 * Z.shiftr (63 - Z.of_nat n) 3 =? Z.lor (Z.of_nat n) 56) (seq 0 57) = true) by (vm_compute; reflexivity).
  rewrite forallb_forall in Hall. specialize (Hall (Z.to_nat acc_bits)). rewrite Z2Nat.id in Hall by lia.
  apply Z.eqb_eq, Hall, in_seq. lia.
Qed.
