(* ===== verification/LzBits.v ===== *)
(** The bit-reading interface of the LZ decoders (decompress/lz/bitstream.rs,
    trait [BitRead]) as a class, its promises as laws over an abstract bit
    string and cursor, and programs of reader operations run both ways. *)
From S2P Require Import Prelude RarTypes StateM BitString.

(** Bytes past the border of a leased span. *)
Definition LZ_SPAN_SLACK_BYTES : Z := 32.

Record LzSpan := mk_span { span_data : list byte; start_bit : Z; border_bit : Z }.

Class BitRead (R : Type) := {
  bits_remaining : stateM R rar_error Z;
  has_bits : stateM R rar_error bool;
  lease_lz_span {T} : (LzSpan -> Z * T) -> stateM R rar_error (option T);
  has_exact_bits : Z -> stateM R rar_error bool;
  position : R -> Z;
  read_bits : Z -> stateM R rar_error Z;
  read_byte : stateM R rar_error Z;
  read_byte_or_zero : stateM R rar_error Z;
  zero_bytes_past_eof : R -> Z;
  byte_span : Z -> stateM R rar_error (option (list byte * bool));
  consume_byte_span : Z -> stateM R rar_error unit;
  peek_16_raw : stateM R rar_error Z;
  peek_16_left_aligned : stateM R rar_error Z;
  consume_bits : Z -> stateM R rar_error unit;
  skip_bits : Z -> stateM R rar_error unit;
  align_byte : stateM R rar_error unit
}.

(** [debug_assert!], checked as the debug build does. *)
Definition debug_assert {S} (b : bool) : stateM S rar_error unit := if b then mret tt else lift Panic.

(** The one method the trait defines for every reader. *)
Definition read_bits64 {R} `{BitRead R} (count : Z) : stateM R rar_error Z :=
  _ ← debug_assert (count <=? 64);
  if count <=? 32 then read_bits count
  else
    high ← read_bits (count - 32);
    low ← read_bits 32;
    mret (Z.lor (wrap64 (Z.shiftl high 32)) low).

Definition byte_position {R} `{BitRead R} (self : R) : Z := position self / 8.

(** * The reference: a cursor over a bit string *)

Definition bits_spec (A : Type) : Type := list byte -> Z -> result (A * Z).

#[export] Instance bits_spec_ret : MRet bits_spec := fun A a data pos => Ok (a, pos).
#[export] Instance bits_spec_bind : MBind bits_spec := fun A B k f data pos =>
  match f data pos with
  | Ok (a, pos) => k a data pos
  | Err e => Err e
  | Panic => Panic
  end.

Definition fits (data : list byte) (pos n : Z) : bool := pos + n <=? bit_len data.
Lemma fits_0 data pos : pos <= bit_len data -> fits data pos 0 = true.
Proof. intros H. apply Z.leb_le. lia. Qed.

(** The next [n] bits, or an error when they are not there. *)
Definition spec_read (n : Z) : bits_spec Z := fun data pos =>
  if fits data pos n then Ok (field data pos n, pos + n) else Err CorruptArchive.
(** The next sixteen bits, padded with zeros behind the end, as long as one is left. *)
Definition spec_peek16 : bits_spec Z := fun data pos =>
  if fits data pos 1 then Ok (field data pos 16, pos) else Err CorruptArchive.
Definition spec_peek16_left : bits_spec Z := v ← spec_peek16; mret (Z.land v 0xfffe).
Definition spec_skip (n : Z) : bits_spec unit := fun data pos =>
  if fits data pos n then Ok (tt, pos + n) else Err CorruptArchive.
Definition spec_align : bits_spec unit := fun data pos => Ok (tt, 8 * ((pos + 7) / 8)).
Definition spec_has_bits : bits_spec bool := fun data pos => Ok (fits data pos 1, pos).
Definition spec_exact (n : Z) : bits_spec bool := fun data pos => Ok (fits data pos n, pos).
Definition spec_byte_or_zero : bits_spec Z := fun data pos =>
  if fits data pos 8 then Ok (field data pos 8, pos + 8) else Ok (0, pos).
Definition spec_read64 (n : Z) : bits_spec Z :=
  if n <=? 32 then spec_read n
  else high ← spec_read (n - 32); low ← spec_read 32; mret (high * 2 ^ 32 + low).

(** A computation that does not touch the cursor. *)
Definition spec_lift {A} (m : result A) : bits_spec A := fun _ pos =>
  match m with Ok a => Ok (a, pos) | Err e => Err e | Panic => Panic end.

(** * What a reader promises *)

(** [m] does on a reader what [f] does on the bit string it tracks. *)
Definition realizes {R A} (tracks : R -> list byte -> Z -> Prop) (m : stateM R rar_error A) (f : bits_spec A) : Prop :=
  forall r data pos, tracks r data pos ->
  match f data pos with
  | Ok (a, pos') => exists r', m r = (Ok a, r') /\ tracks r' data pos'
  | Err e => exists r', m r = (Err e, r')
  | Panic => True
  end.

Class BitReadLaws (R : Type) `{BitRead R} := {
  tracks : R -> list byte -> Z -> Prop;
  tracks_range : forall r data pos, tracks r data pos -> 0 <= pos <= bit_len data;
  position_law : forall r data pos, tracks r data pos -> position r = pos;
  remaining_law : realizes tracks (n ← bits_remaining; mret (negb (n =? 0))) spec_has_bits;
  remaining_least_law : forall n, 0 < n <= 56 -> realizes tracks (left ← bits_remaining; mret (n <=? left)) (spec_exact n);
  has_bits_law : realizes tracks has_bits spec_has_bits;
  exact_law : forall n, 0 <= n <= 56 -> realizes tracks (has_exact_bits n) (spec_exact n);
  read_bits_law : forall n, 0 <= n <= 32 -> realizes tracks (read_bits n) (spec_read n);
  read_byte_law : realizes tracks read_byte (spec_read 8);
  byte_or_zero_law : realizes tracks read_byte_or_zero spec_byte_or_zero;
  zero_bytes_law : forall r data pos, tracks r data pos ->
    zero_bytes_past_eof (read_byte_or_zero r).2 =
      if fits data pos 8 then zero_bytes_past_eof r else Z.min (zero_bytes_past_eof r + 1) (2 ^ 32 - 1);
  peek_raw_law : realizes tracks peek_16_raw spec_peek16;
  peek_left_law : realizes tracks peek_16_left_aligned spec_peek16_left;
  consume_law : forall n, 0 <= n <= 32 -> realizes tracks (consume_bits n) (spec_skip n);
  skip_law : forall n, 0 <= n < 2 ^ 32 -> realizes tracks (skip_bits n) (spec_skip n);
  align_law : realizes tracks align_byte spec_align;
  byte_span_law : forall r data pos min, tracks r data pos -> 0 <= min <= 0x80000 ->
    if pos mod 8 =? 0 then
      exists span eof r', byte_span min r = (Ok (Some (span, eof)), r') /\ tracks r' data pos /\
        span `prefix_of` zdrop (pos / 8) data /\ (min <= zlen span \/ eof = true) /\
        (eof = true -> span = zdrop (pos / 8) data) /\
        forall count, 0 <= count <= zlen span ->
          exists r'', consume_byte_span count r' = (Ok tt, r'') /\ tracks r'' data (pos + 8 * count)
    else exists r', byte_span min r = (Ok None, r') /\ tracks r' data pos;
  lease_law : forall T (f : LzSpan -> Z * T) r data pos, tracks r data pos ->
    (forall span, start_bit span < border_bit span -> start_bit span <= (f span).1 <= border_bit span + 8 * 16) ->
    (exists r', lease_lz_span f r = (Ok None, r') /\ tracks r' data pos) \/
    (exists span r', lease_lz_span f r = (Ok (Some (f span).2), r') /\
       start_bit span < border_bit span /\ border_bit span + 8 * LZ_SPAN_SLACK_BYTES = bit_len (span_data span) /\
       (forall k, 0 <= k < bit_len (span_data span) - start_bit span ->
          bit_at (span_data span) (start_bit span + k) = bit_at data (pos + k)) /\
       tracks r' data (pos + ((f span).1 - start_bit span)))
}.

(** * Programs of reader operations *)

Inductive bit_op :=
| OpReadBits (count : Z)
| OpReadBits64 (count : Z)
| OpReadByte
| OpReadByteOrZero
| OpPeekRaw
| OpPeekLeft
| OpConsume (count : Z)
| OpSkip (count : Z)
| OpAlign
| OpHasBits
| OpHasExactBits (bits : Z).

(** The widths the callers pass: a byte-wide count, at most 32 (64 for the
    two-word read), and whole skips of up to [u32::MAX] bits. *)
Definition op_ok (op : bit_op) : Prop :=
  match op with
  | OpReadBits n | OpConsume n => 0 <= n <= 32
  | OpReadBits64 n => 0 <= n <= 64
  | OpSkip n => 0 <= n < 2 ^ 32
  | OpHasExactBits n => 0 <= n <= 56
  | _ => True
  end.

Section programs.
Context {R : Type} `{BitRead R}.

Definition run_op (op : bit_op) : stateM R rar_error Z :=
  match op with
  | OpReadBits n => read_bits n
  | OpReadBits64 n => read_bits64 n
  | OpReadByte => read_byte
  | OpReadByteOrZero => read_byte_or_zero
  | OpPeekRaw => peek_16_raw
  | OpPeekLeft => peek_16_left_aligned
  | OpConsume n => _ ← consume_bits n; mret 0
  | OpSkip n => _ ← skip_bits n; mret 0
  | OpAlign => _ ← align_byte; mret 0
  | OpHasBits => b ← has_bits; mret (Z.b2z b)
  | OpHasExactBits n => b ← has_exact_bits n; mret (Z.b2z b)
  end.

(** The results of a program, up to its first error. *)
Fixpoint run_ops (ops : list bit_op) : stateM R rar_error (list Z) :=
  match ops with
  | [] => mret []
  | op :: ops => v ← run_op op; vs ← run_ops ops; mret (v :: vs)
  end.
End programs.

Definition spec_op (op : bit_op) : bits_spec Z :=
  match op with
  | OpReadBits n => spec_read n
  | OpReadBits64 n => spec_read64 n
  | OpReadByte => spec_read 8
  | OpReadByteOrZero => spec_byte_or_zero
  | OpPeekRaw => spec_peek16
  | OpPeekLeft => spec_peek16_left
  | OpConsume n | OpSkip n => _ ← spec_skip n; mret 0
  | OpAlign => _ ← spec_align; mret 0
  | OpHasBits => b ← spec_has_bits; mret (Z.b2z b)
  | OpHasExactBits n => b ← spec_exact n; mret (Z.b2z b)
  end.

Fixpoint spec_ops (ops : list bit_op) : bits_spec (list Z) :=
  match ops with
  | [] => mret []
  | op :: ops => v ← spec_op op; vs ← spec_ops ops; mret (v :: vs)
  end.

(** * Programs over a lawful reader *)

Section realizing.
Context {R : Type} (tracks : R -> list byte -> Z -> Prop).
Local Abbreviation realizes := (realizes tracks).

Lemma realizes_ret {A} (a : A) : realizes (mret a) (mret a).
Proof. intros r data pos Hr. by exists r. Qed.

Lemma realizes_bind {A B} (m : stateM R rar_error A) (k : A -> stateM R rar_error B) (f : bits_spec A) (g : A -> bits_spec B) :
  realizes m f -> (forall a, realizes (k a) (g a)) -> realizes (m ≫= k) (f ≫= g).
Proof.
  intros Hm Hk r data pos Hr. specialize (Hm r data pos Hr). unfold mbind, bits_spec_bind, stateM_bind.
  destruct (f data pos) as [[a p]|e|]; [| |done].
  - destruct Hm as (r' & -> & Hr'). apply (Hk a r' data p Hr').
  - destruct Hm as (r' & ->). by exists r'.
Qed.

(** The same when the continuation only matters on the values the specification gives. *)
Lemma realizes_bind_on {A B} (P : A -> Prop) (m : stateM R rar_error A) (k : A -> stateM R rar_error B) (f : bits_spec A) (g : A -> bits_spec B) :
  realizes m f -> (forall data pos a p, f data pos = Ok (a, p) -> P a) -> (forall a, P a -> realizes (k a) (g a)) -> realizes (m ≫= k) (f ≫= g).
Proof.
  intros Hm HP Hk r data pos Hr. specialize (Hm r data pos Hr). specialize (HP data pos). unfold mbind, bits_spec_bind, stateM_bind.
  destruct (f data pos) as [[a p]|e|]; [| |done].
  - destruct Hm as (r' & -> & Hr'). apply (Hk a (HP a p eq_refl) r' data p Hr').
  - destruct Hm as (r' & ->). by exists r'.
Qed.

Lemma realizes_lift {A} (m : result A) : realizes (lift m) (spec_lift m).
Proof. intros r data pos Hr. unfold spec_lift, lift. destruct m; [by exists r | by exists r | done]. Qed.

Lemma realizes_map {A B} (m : stateM R rar_error A) (h : A -> B) f :
  realizes m f -> realizes (a ← m; mret (h a)) (a ← f; mret (h a)).
Proof. intros Hm. apply realizes_bind; [done|]. intros a. apply realizes_ret. Qed.

(** The specification only matters on the inputs where it is run. *)
Lemma realizes_spec {A} (m : stateM R rar_error A) f g :
  realizes m f -> (forall r data pos, tracks r data pos -> f data pos = g data pos) -> realizes m g.
Proof. intros Hm Hfg r data pos Hr. rewrite <- (Hfg r data pos Hr). by apply Hm. Qed.

Lemma realizes_assert {A} b (m : stateM R rar_error A) f : b = true -> realizes m f -> realizes (_ ← debug_assert b; m) f.
Proof. intros -> Hm. exact Hm. Qed.
End realizing.

Section lawful.
Context {R : Type} `{BitReadLaws R}.

Lemma read_bits64_law n : 0 <= n <= 64 -> realizes tracks (read_bits64 n) (spec_read64 n).
Proof.
  intros Hn. unfold read_bits64, spec_read64. apply realizes_assert; [lia|].
  destruct (Z.leb_spec n 32); [apply read_bits_law; lia|].
  apply (realizes_spec _ _ (high ← spec_read (n - 32); low ← spec_read 32; mret (Z.lor (wrap64 (Z.shiftl high 32)) low))).
  { apply realizes_bind; [apply read_bits_law; lia|]. intros high. by apply realizes_map, read_bits_law. }
  intros r data pos _. unfold mbind, bits_spec_bind, spec_read. destruct (fits data pos (n - 32)); [|done].
  destruct (fits data _ 32); [|done]. unfold mret, bits_spec_ret. do 2 f_equal.
  pose proof (field_range data pos (n - 32) ltac:(lia)). pose proof (field_range data (pos + (n - 32)) 32 ltac:(lia)).
  assert (2 ^ (n - 32) <= 2 ^ 32) by (apply Z.pow_le_mono_r; lia).
  rewrite wrap64_small by (rewrite Z.shiftl_mul_pow2 by lia; lia).
  rewrite Z.lor_comm, lor_shiftl_add by lia. lia.
Qed.

Lemma run_op_law op : op_ok op -> realizes tracks (run_op op) (spec_op op).
Proof.
  destruct op; cbn [op_ok run_op spec_op]; intros Hop;
    eauto using read_bits_law, read_bits64_law, read_byte_law, byte_or_zero_law, peek_raw_law, peek_left_law;
    apply realizes_map; eauto using consume_law, skip_law, align_law, has_bits_law, exact_law.
Qed.

Lemma run_ops_law ops : Forall op_ok ops -> realizes tracks (run_ops ops) (spec_ops ops).
Proof.
  induction 1 as [|op ops Hop _ IH]; cbn [run_ops spec_ops]; [apply realizes_ret|].
  apply realizes_bind; [by apply run_op_law|]. intros v. by apply realizes_map.
Qed.
End lawful.
