(* ===== verification/LzBitReader.v ===== *)
(** The bit reader over a byte slice (decompress/lz/bitstream.rs, [BitReader]):
    its operations, that each reads the bit string of the slice, and that the
    reader is an instance of the lawful interface. *)
From S2P Require Import Prelude RarTypes StateM BitString LzBits.

Module BitReader.
Record t := mk { data : list byte; byte_pos : Z; acc : Z; acc_bits : Z; zeros : Z }.

Abbreviation M := (stateM t rar_error).

Definition set_acc (v n : Z) (self : t) : t := mk (data self) (byte_pos self) v n (zeros self).
Definition set_byte_pos (p : Z) (self : t) : t := mk (data self) p (acc self) (acc_bits self) (zeros self).
Definition set_zeros (z : Z) (self : t) : t := mk (data self) (byte_pos self) (acc self) (acc_bits self) z.

(** [acc <<= count; acc_bits -= count]. *)
Definition drop_bits (count : Z) (self : t) : t := set_acc (wrap64 (Z.shiftl (acc self) count)) (acc_bits self - count) self.

Fixpoint refill_bytes (fuel : nat) : M unit := fun self =>
  match fuel with
  | O => (Panic, self)
  | S fuel =>
    if (acc_bits self <=? 56) && (byte_pos self <? zlen (data self)) then
      match index (data self) (byte_pos self) with
      | Ok b => refill_bytes fuel
          (mk (data self) (byte_pos self + 1) (Z.lor (acc self) (wrap64 (Z.shiftl (u8 b) (56 - acc_bits self)))) (acc_bits self + 8) (zeros self))
      | Err e => (Err e, self)
      | Panic => (Panic, self)
      end
    else (Ok tt, self)
  end.

Definition refill : M unit := fun self =>
  if 56 <? acc_bits self then (Ok tt, self)
  else if byte_pos self + 8 <=? zlen (data self) then
    match slice (data self) (byte_pos self) (byte_pos self + 8) with
    | Ok bytes => (Ok tt, mk (data self) (byte_pos self + Z.shiftr (63 - acc_bits self) 3)
                     (Z.lor (acc self) (Z.shiftr (be_combine bytes) (acc_bits self))) (Z.lor (acc_bits self) 56) (zeros self))
    | Err e => (Err e, self)
    | Panic => (Panic, self)
    end
  else refill_bytes 9 self.

Definition new (data : list byte) : t := (refill (mk data 0 0 0 0)).2.

Definition ensure_bits (count : Z) : M unit :=
  _ ← debug_assert (count <=? 56);
  n ← gets acc_bits;
  if n <? count then refill else mret tt.

Definition bits_remaining (self : t) : Z := wrap64 (acc_bits self + (zlen (data self) - byte_pos self) * 8).
Definition is_empty (self : t) : bool := (acc_bits self =? 0) && (zlen (data self) <=? byte_pos self).
Definition has_bits (self : t) : bool := (0 <? acc_bits self) || (byte_pos self <? zlen (data self)).
Definition position (self : t) : Z := wrap64 (byte_pos self * 8 - acc_bits self).
Definition byte_position (self : t) : Z := position self / 8.

Definition short : M unit := fails CorruptArchive.

Definition read_bit : M Z :=
  n ← gets acc_bits;
  _ ← (if n =? 0 then _ ← refill; n ← gets acc_bits; if n =? 0 then short else mret tt else mret tt);
  bit ← gets (fun self => Z.shiftr (acc self) 63);
  _ ← modify (drop_bits 1);
  mret bit.

(** The top [count] bits of the accumulator, consumed. *)
Definition take_top (count : Z) : M Z :=
  v ← gets (fun self => wrap32 (Z.shiftr (acc self) (64 - count)));
  _ ← modify (drop_bits count);
  mret v.

Definition read_bits_refill (count : Z) : M Z :=
  _ ← refill;
  n ← gets acc_bits;
  if n <? count then _ ← short; mret 0 else take_top count.

Definition read_bits (count : Z) : M Z :=
  _ ← debug_assert (count <=? 32);
  if count =? 0 then mret 0
  else
    n ← gets acc_bits;
    if n <? count then read_bits_refill count else take_top count.

(** The bytes behind the accumulator appended to what it holds. *)
Fixpoint peek_loop (fuel : nat) (data : list byte) (bp remaining result_ : Z) : result Z :=
  match fuel with
  | O => Panic
  | S fuel =>
    if (0 <? remaining) && (bp <? zlen data) then
      byte ← index data bp;
      if 8 <=? remaining then peek_loop fuel data (bp + 1) (remaining - 8) (Z.lor (wrap32 (Z.shiftl result_ 8)) (u8 byte))
      else peek_loop fuel data (bp + 1) 0 (Z.lor (wrap32 (Z.shiftl result_ remaining)) (Z.shiftr (u8 byte) (8 - remaining)))
    else Ok result_
  end.

Definition peek_bits (self : t) (count : Z) : result Z :=
  if negb (count <=? 32) then Panic
  else if count =? 0 then Ok 0
  else if acc_bits self <? count then
    if bits_remaining self <? count then Err CorruptArchive
    else
      let held := if 0 <? acc_bits self then wrap32 (Z.shiftr (acc self) (64 - acc_bits self)) else 0 in
      peek_loop 6 (data self) (byte_pos self) (count - acc_bits self) held
  else Ok (wrap32 (Z.shiftr (acc self) (64 - count))).

Definition peek_16_left_aligned (self : t) : result Z :=
  if 16 <=? acc_bits self then Ok (Z.land (wrap32 (Z.shiftr (acc self) 48)) 0xfffe)
  else
    let bits_avail := bits_remaining self in
    if bits_avail =? 0 then Err CorruptArchive
    else
      let peek_count := Z.min 16 bits_avail in
      raw ← peek_bits self peek_count;
      mret (if peek_count <? 16 then Z.land (wrap32 (Z.shiftl raw (16 - peek_count))) 0xfffe else Z.land raw 0xfffe).

Definition peek_16_raw (self : t) : result Z :=
  if 16 <=? acc_bits self then Ok (wrap32 (Z.shiftr (acc self) 48))
  else
    let bits_avail := bits_remaining self in
    if bits_avail =? 0 then Err CorruptArchive
    else
      let peek_count := Z.min 16 bits_avail in
      raw ← peek_bits self peek_count;
      mret (if peek_count <? 16 then wrap32 (Z.shiftl raw (16 - peek_count)) else raw).

Definition getbits (self : t) : result Z := peek_16_left_aligned self.

(** The part of a skip behind the buffered bits. *)
Definition skip_past (count : Z) : M unit :=
  n ← gets acc_bits;
  let remaining := count - n in
  _ ← modify (set_acc 0 0);
  let skip_bytes := remaining / 8 in
  _ ← modify (fun self => set_byte_pos (byte_pos self + skip_bytes) self);
  let remaining := remaining - skip_bytes * 8 in
  if 0 <? remaining then _ ← refill; modify (drop_bits remaining) else mret tt.

Definition skip_bits (count : Z) : M unit :=
  left_ ← gets bits_remaining;
  if left_ <? count then short
  else
    n ← gets acc_bits;
    if count <=? n then
      if count <? 64 then modify (drop_bits count) else modify (fun self => set_acc 0 (acc_bits self - count) self)
    else skip_past count.

Definition consume_bits (count : Z) : M unit :=
  _ ← debug_assert (count <=? 32);
  if count =? 0 then mret tt
  else
    n ← gets acc_bits;
    if count <=? n then modify (drop_bits count)
    else
      _ ← refill;
      n ← gets acc_bits;
      if count <=? n then modify (drop_bits count) else skip_bits count.

Definition addbits (count : Z) : M unit := consume_bits count.

Definition align_byte : M unit :=
  p ← gets position;
  let bit_offset := p mod 8 in
  if negb (bit_offset =? 0) then
    let skip := 8 - bit_offset in
    _ ← ensure_bits skip;
    n ← gets acc_bits;
    if skip <=? n then modify (drop_bits skip) else mret tt
  else mret tt.

Definition top_byte : M Z :=
  byte ← gets (fun self => Z.shiftr (acc self) 56);
  _ ← modify (drop_bits 8);
  mret byte.

Definition read_byte : M Z :=
  n ← gets acc_bits;
  if n <? 8 then
    _ ← refill;
    n ← gets acc_bits;
    if n <? 8 then _ ← short; mret 0 else top_byte
  else top_byte.

Definition read_byte_or_zero : M Z :=
  n ← gets acc_bits;
  if n <? 8 then
    _ ← refill;
    n ← gets acc_bits;
    if n <? 8 then _ ← modify (fun self => set_zeros (Z.min (zeros self + 1) (2 ^ 32 - 1)) self); mret 0
    else top_byte
  else top_byte.

Definition read_u32_le : M Z :=
  b0 ← read_bits 8; b1 ← read_bits 8; b2 ← read_bits 8; b3 ← read_bits 8;
  mret (Z.lor (Z.lor (Z.lor b0 (wrap32 (Z.shiftl b1 8))) (wrap32 (Z.shiftl b2 16))) (wrap32 (Z.shiftl b3 24))).

Definition seek_to_bit (pos : Z) : M unit :=
  _ ← modify (fun self => set_acc 0 0 (set_byte_pos (Z.shiftr pos 3) self));
  let offset := Z.land pos 7 in
  _ ← (if negb (offset =? 0) then
         _ ← refill;
         n ← gets acc_bits;
         _ ← debug_assert (offset <=? n);
         modify (drop_bits offset)
       else mret tt);
  p ← gets position;
  debug_assert (p =? pos).

Definition remaining_bytes (self : t) : list byte :=
  let bit_position := position self in
  let start := if bit_position mod 8 =? 0 then bit_position / 8 else bit_position / 8 + 1 in
  if zlen (data self) <=? start then [] else zdrop start (data self).

Definition lease_lz_span {T} (f : LzSpan -> Z * T) : M (option T) := fun self =>
  match checked_sub_u64 (zlen (data self)) LZ_SPAN_SLACK_BYTES with
  | None => (Ok None, self)
  | Some border_bytes =>
    let border_bit := border_bytes * 8 in
    let start := position self in
    if border_bit <=? start then (Ok None, self)
    else
      let '(end_bit, value) := f (mk_span (data self) start border_bit) in
      (_ ← debug_assert ((start <=? end_bit) && (end_bit <=? zlen (data self) * 8));
       _ ← seek_to_bit end_bit;
       mret (Some value)) self
  end.

Definition byte_span (min : Z) : M (option (list byte * bool)) := fun self =>
  let pos := position self in
  if negb (pos mod 8 =? 0) then (Ok None, self) else (Ok (Some (get_from (data self) (pos / 8), true)), self).

Definition consume_byte_span (count : Z) : M unit :=
  if count =? 0 then mret tt
  else
    p ← gets position;
    let pos := p + count * 8 in
    len ← gets (fun self => zlen (data self));
    _ ← debug_assert ((pos mod 8 =? 0) && (pos <=? len * 8));
    seek_to_bit pos.
End BitReader.

#[export] Instance BitReader_BitRead : BitRead BitReader.t := {
  bits_remaining := gets BitReader.bits_remaining;
  has_bits := gets BitReader.has_bits;
  lease_lz_span T f := BitReader.lease_lz_span f;
  has_exact_bits bits := gets (fun self => bits <=? BitReader.bits_remaining self);
  position := BitReader.position;
  read_bits := BitReader.read_bits;
  read_byte := BitReader.read_byte;
  read_byte_or_zero := BitReader.read_byte_or_zero;
  zero_bytes_past_eof := BitReader.zeros;
  byte_span := BitReader.byte_span;
  consume_byte_span := BitReader.consume_byte_span;
  peek_16_raw := _ ← BitReader.ensure_bits 16; self ← gets id; lift (BitReader.peek_16_raw self);
  peek_16_left_aligned := _ ← BitReader.ensure_bits 16; self ← gets id; lift (BitReader.peek_16_left_aligned self);
  consume_bits := BitReader.consume_bits;
  skip_bits := BitReader.skip_bits;
  align_byte := BitReader.align_byte
}.

Example bits_of_a5 : (run_ops [OpReadBits 4; OpReadBits 2; OpPeekRaw; OpAlign; OpHasBits] (BitReader.new [xa5; x3c])).1 = Ok [10; 1; 0x4f00; 0; 1].
Proof. vm_compute. reflexivity. Qed.

(** * The bits a reader is about to read *)

Record at_bit (self : BitReader.t) (data : list byte) (pos : Z) : Prop := mk_at_bit {
  at_data : BitReader.data self = data;
  at_size : bit_len data < 2 ^ 64;
  at_pos : 0 <= pos;
  at_byte : 0 <= BitReader.byte_pos self <= zlen data;
  at_sum : 8 * BitReader.byte_pos self = pos + BitReader.acc_bits self;
  at_acc : acc_ok data pos (BitReader.acc self) (BitReader.acc_bits self)
}.

Section at_bit.
Implicit Types (self : BitReader.t) (data : list byte).

Lemma at_bit_range self data pos : at_bit self data pos -> 0 <= pos <= bit_len data.
Proof. intros [_ _ Hp Hb Hs [_ Hc _ _]]. unfold bit_len. lia. Qed.

Lemma position_ok self data pos : at_bit self data pos -> BitReader.position self = pos.
Proof.
  intros H. pose proof (at_bit_range _ _ _ H). destruct H as [_ Hsz Hp Hb Hs _].
  unfold BitReader.position. rewrite wrap64_small; lia.
Qed.

Lemma remaining_ok self data pos : at_bit self data pos -> BitReader.bits_remaining self = bit_len data - pos.
Proof.
  intros H. pose proof (at_bit_range _ _ _ H). destruct H as [<- Hsz Hp Hb Hs _].
  unfold BitReader.bits_remaining, bit_len in *. rewrite wrap64_small; lia.
Qed.

Lemma has_bits_ok self data pos : at_bit self data pos -> BitReader.has_bits self = fits data pos 1.
Proof.
  intros [<- Hsz Hp Hb Hs [_ Hc _ _]]. unfold BitReader.has_bits, fits, bit_len.
  destruct (Z.ltb_spec 0 (BitReader.acc_bits self)), (Z.ltb_spec (BitReader.byte_pos self) (zlen (BitReader.data self))),
    (Z.leb_spec (pos + 1) (8 * zlen (BitReader.data self))); done || lia.
Qed.

Lemma drop_ok self data pos n : at_bit self data pos -> 0 <= n <= BitReader.acc_bits self ->
  at_bit (BitReader.drop_bits n self) data (pos + n).
Proof.
  intros [Hd Hsz Hp Hb Hs Ha] Hn. constructor; cbn; try done; [lia | lia |]. by apply acc_drop.
Qed.

Lemma take_top_ok self data pos n : at_bit self data pos -> 0 <= n <= BitReader.acc_bits self -> n <= 32 ->
  BitReader.take_top n self = (Ok (field data pos n), BitReader.drop_bits n self).
Proof.
  intros [_ _ _ _ _ Ha] Hn Hle.
  trans (Ok (E := rar_error) (wrap32 (Z.shiftr (BitReader.acc self) (64 - n))), BitReader.drop_bits n self); [done|].
  rewrite (acc_top _ _ _ _ Ha n Hn). do 2 f_equal. apply Z.mod_small.
  pose proof (field_range data pos n ltac:(lia)). assert (2 ^ n <= 2 ^ 32) by (apply Z.pow_le_mono_r; lia). lia.
Qed.

(** What a refill leaves: at least seven bytes, unless the source is used up. *)
Definition topped_up self : Prop := 56 <= BitReader.acc_bits self \/ BitReader.byte_pos self = zlen (BitReader.data self).

Lemma topped_up_spec self data pos n : at_bit self data pos -> topped_up self -> 0 <= n <= 56 ->
  (n <=? BitReader.acc_bits self) = fits data pos n.
Proof.
  intros [<- Hsz Hp Hb Hs [_ Hc _ _]] Ht Hn. unfold fits, bit_len, topped_up in *.
  destruct (Z.leb_spec n (BitReader.acc_bits self)), (Z.leb_spec (pos + n) (8 * zlen (BitReader.data self))); done || lia.
Qed.

Lemma refill_bytes_ok fuel self data pos : at_bit self data pos -> 64 < BitReader.acc_bits self + 8 * Z.of_nat fuel ->
  exists self', BitReader.refill_bytes fuel self = (Ok tt, self') /\ at_bit self' data pos /\
    BitReader.zeros self' = BitReader.zeros self /\ BitReader.acc_bits self <= BitReader.acc_bits self' /\ topped_up self'.
Proof.
  revert self. induction fuel as [|fuel IH]; intros self H Hf; destruct H as [Hd Hsz Hp Hb Hs Ha]; pose proof (acc_count _ _ _ _ Ha); [lia|].
  cbn [BitReader.refill_bytes]. unfold topped_up.
  destruct (Z.leb_spec (BitReader.acc_bits self) 56) as [Hle|]; cbn [andb];
    [destruct (Z.ltb_spec (BitReader.byte_pos self) (zlen (BitReader.data self))) as [Hlt|]|].
  2,3: exists self; split_and!; try done; rewrite ?Hd in *; lia.
  destruct (get_is_Some (BitReader.data self) (BitReader.byte_pos self) ltac:(lia)) as [b Hget].
  unfold index. rewrite Hget.
  destruct (IH (BitReader.mk (BitReader.data self) (BitReader.byte_pos self + 1)
     (Z.lor (BitReader.acc self) (wrap64 (Z.shiftl (u8 b) (56 - BitReader.acc_bits self)))) (BitReader.acc_bits self + 8) (BitReader.zeros self)))
    as (self' & Hrun & Hat & Hz & Hc & Ht); cbn in *.
  - constructor; cbn; [done | done | done | rewrite <- Hd; lia | lia |].
    apply acc_byte; [done | done |]. replace (pos + BitReader.acc_bits self) with (8 * BitReader.byte_pos self) by lia.
    rewrite field_byte by lia. f_equal. unfold get in Hget. rewrite Hd in Hget.
    revert Hget. case_match; [|done]. intros Hget. by rewrite nth_lookup, Hget.
  - lia.
  - exists self'. split_and!; try done. lia.
Qed.

Lemma refill_ok self data pos : at_bit self data pos ->
  exists self', BitReader.refill self = (Ok tt, self') /\ at_bit self' data pos /\
    BitReader.zeros self' = BitReader.zeros self /\ BitReader.acc_bits self <= BitReader.acc_bits self' /\ topped_up self'.
Proof.
  intros H. pose proof H as [Hd Hsz Hp Hb Hs Ha]. pose proof (acc_count _ _ _ _ Ha) as Hc. unfold BitReader.refill.
  destruct (Z.ltb_spec 56 (BitReader.acc_bits self)).
  { exists self. unfold topped_up. split_and!; try done; lia. }
  destruct (Z.leb_spec (BitReader.byte_pos self + 8) (zlen (BitReader.data self))) as [Hle|]; [|apply refill_bytes_ok; [done | lia]].
  rewrite slice_ok by lia. replace (BitReader.byte_pos self + 8 - BitReader.byte_pos self) with 8 by lia.
  pose proof (bulk_credit (BitReader.acc_bits self) ltac:(lia)) as Hcredit.
  assert (Hbulk : acc_ok data pos (Z.lor (BitReader.acc self) (Z.shiftr (be_combine (ztake 8 (zdrop (BitReader.byte_pos self) (BitReader.data self)))) (BitReader.acc_bits self))) (Z.lor (BitReader.acc_bits self) 56)).
  { apply acc_bulk; [done | lia |]. rewrite Hd in *. rewrite be_combine_window by lia. f_equal. lia. }
  pose proof (acc_count _ _ _ _ Hbulk). assert (Hs8 : 0 <= Z.shiftr (63 - BitReader.acc_bits self) 3 <= 7).
  { rewrite Z.shiftr_div_pow2 by lia. Z.to_euclidean_division_equations. lia. }
  eexists. split; [reflexivity|]. unfold topped_up. cbn. split_and!; [|done | lia |].
  - constructor; cbn; [done | done | done | rewrite <- Hd; lia | lia | done].
  - left. assert (Z.lor (BitReader.acc_bits self) 56 >= 56); [|lia].
    rewrite <- Hcredit. rewrite Z.shiftr_div_pow2 by lia. Z.to_euclidean_division_equations. lia.
Qed.


Lemma buffered_fits self data pos n : at_bit self data pos -> n <= BitReader.acc_bits self -> fits data pos n = true.
Proof. intros [<- _ _ Hb Hs _] Hn. apply Z.leb_le. unfold bit_len. lia. Qed.

Lemma bit_read_bits n : 0 <= n <= 32 -> realizes at_bit (BitReader.read_bits n) (spec_read n).
Proof.
  intros Hn. apply realizes_assert; [lia|]. intros self data pos H. pose proof (at_bit_range _ _ _ H).
  unfold spec_read. destruct (Z.eqb_spec n 0) as [->|].
  { rewrite fits_0 by lia. exists self. rewrite Z.add_0_r. done. }
  rewrite bind_gets. destruct (Z.ltb_spec (BitReader.acc_bits self) n) as [Hlt|Hge].
  - destruct (refill_ok _ _ _ H) as (r & Hrun & Hr & _ & _ & Ht). unfold BitReader.read_bits_refill.
    rewrite (bind_run _ _ _ _ _ Hrun), bind_gets, <- (topped_up_spec _ _ _ n Hr Ht) by lia.
    rewrite Z.ltb_antisym. destruct (Z.leb_spec n (BitReader.acc_bits r)); cbn [negb]; [|by exists r].
    rewrite (take_top_ok _ _ _ _ Hr) by lia. eexists. split; [done|]. apply drop_ok; [done | lia].
  - rewrite (take_top_ok _ _ _ _ H) by lia.
    rewrite (buffered_fits _ _ _ _ H) by lia. eexists. split; [done|]. apply drop_ok; [done | lia].
Qed.

(** A refill when [n] bits are not at hand decides whether they exist. *)
Lemma top_up_ok self data pos n : at_bit self data pos -> 0 <= n <= 56 ->
  exists r, (if BitReader.acc_bits self <? n then BitReader.refill else mret tt) self = (Ok tt, r) /\
    at_bit r data pos /\ BitReader.zeros r = BitReader.zeros self /\ (n <=? BitReader.acc_bits r) = fits data pos n.
Proof.
  intros H Hn. destruct (Z.ltb_spec (BitReader.acc_bits self) n).
  - destruct (refill_ok _ _ _ H) as (r & Hrun & Hr & Hz & _ & Ht). exists r. split_and!; try done. by apply topped_up_spec.
  - exists self. split_and!; try done. rewrite (buffered_fits _ _ _ _ H) by lia. lia.
Qed.

Lemma ensure_bits_ok self data pos n : at_bit self data pos -> 0 <= n <= 56 ->
  exists r, BitReader.ensure_bits n self = (Ok tt, r) /\
    at_bit r data pos /\ BitReader.zeros r = BitReader.zeros self /\ (n <=? BitReader.acc_bits r) = fits data pos n.
Proof.
  intros H Hn. unfold BitReader.ensure_bits, debug_assert. rewrite (proj2 (Z.leb_le n 56)), bind_mret, bind_gets by lia.
  by apply top_up_ok.
Qed.

Lemma read_byte_case (self : BitReader.t) (none : BitReader.M Z) data pos : at_bit self data pos ->
  exists r, at_bit r data pos /\ BitReader.zeros r = BitReader.zeros self /\ (8 <=? BitReader.acc_bits r) = fits data pos 8 /\
    (n ← gets BitReader.acc_bits;
     if n <? 8 then
       _ ← BitReader.refill; n ← gets BitReader.acc_bits; if n <? 8 then none else BitReader.top_byte
     else BitReader.top_byte) self =
    if fits data pos 8 then (Ok (field data pos 8), BitReader.drop_bits 8 r) else none r.
Proof.
  intros H. rewrite bind_gets. destruct (top_up_ok _ _ _ 8 H ltac:(lia)) as (r & Hrun & Hr & Hz & Hfits).
  exists r. split_and!; try done. rewrite <- Hfits.
  assert (Htop : 8 <= BitReader.acc_bits r -> BitReader.top_byte r = (Ok (field data pos 8), BitReader.drop_bits 8 r)).
  { intros H8. unfold BitReader.top_byte. rewrite bind_gets, bind_modify. change 56 with (64 - 8).
    rewrite (acc_top _ _ _ _ (at_acc _ _ _ Hr)) by lia. done. }
  destruct (BitReader.acc_bits self <? 8) eqn:E.
  - rewrite (bind_run _ _ _ _ _ Hrun), bind_gets, Z.ltb_antisym.
    destruct (Z.leb_spec 8 (BitReader.acc_bits r)); cbn [negb]; [by apply Htop | done].
  - injection Hrun as <-. rewrite (proj2 (Z.leb_le _ _)) by lia. apply Htop. lia.
Qed.

Lemma bit_read_byte : realizes at_bit BitReader.read_byte (spec_read 8).
Proof.
  intros self data pos H. unfold BitReader.read_byte, spec_read.
  destruct (read_byte_case self (_ ← BitReader.short; mret 0) _ _ H) as (r & Hr & _ & Hfits & ->).
  destruct (fits data pos 8); [|by exists r]. eexists. split; [done|]. apply drop_ok; [done | lia].
Qed.

Lemma bit_byte_or_zero : realizes at_bit BitReader.read_byte_or_zero spec_byte_or_zero.
Proof.
  intros self data pos H. unfold BitReader.read_byte_or_zero, spec_byte_or_zero.
  destruct (read_byte_case self (_ ← modify (fun self => BitReader.set_zeros (Z.min (BitReader.zeros self + 1) (2 ^ 32 - 1)) self); mret 0) _ _ H) as (r & Hr & _ & Hfits & ->).
  destruct (fits data pos 8); eexists; (split; [done|]); [apply drop_ok; [done | lia]|].
  destruct Hr. by constructor.
Qed.

Lemma bit_zero_bytes self data pos : at_bit self data pos ->
  BitReader.zeros (BitReader.read_byte_or_zero self).2 =
    if fits data pos 8 then BitReader.zeros self else Z.min (BitReader.zeros self + 1) (2 ^ 32 - 1).
Proof.
  intros H. unfold BitReader.read_byte_or_zero.
  destruct (read_byte_case self (_ ← modify (fun self => BitReader.set_zeros (Z.min (BitReader.zeros self + 1) (2 ^ 32 - 1)) self); mret 0) _ _ H) as (r & Hr & Hz & Hfits & ->).
  rewrite <- Hz. by destruct (fits data pos 8).
Qed.

(** * Peeking *)

Lemma append_field data pos h k : 0 <= h -> 0 <= k -> h + k <= 32 ->
  Z.lor (wrap32 (Z.shiftl (field data pos h) k)) (field data (pos + h) k) = field data pos (h + k).
Proof.
  intros Hh Hk Hle. pose proof (field_range data pos h Hh). pose proof (field_range data (pos + h) k Hk) as Hr.
  assert (2 ^ h * 2 ^ k <= 2 ^ 32) by (rewrite <- Z.pow_add_r by lia; apply Z.pow_le_mono_r; lia).
  unfold wrap32. rewrite Z.mod_small by (rewrite Z.shiftl_mul_pow2 by lia; nia).
  rewrite Z.lor_comm, lor_shiftl_add by lia. rewrite field_app by lia. lia.
Qed.

Lemma index_byte data p : 0 <= p < zlen data -> index (E := rar_error) data p = Ok (nth (Z.to_nat p) data x00).
Proof.
  intros Hp. destruct (get_is_Some data p Hp) as [b Hget]. unfold index. rewrite Hget. f_equal.
  unfold get in Hget. revert Hget. case_match; [|done]. intros Hget. by rewrite nth_lookup, Hget.
Qed.

Lemma peek_loop_ok fuel data pos bp remaining : 0 <= pos -> pos <= 8 * bp -> 0 <= bp <= zlen data ->
  0 <= remaining -> remaining + 8 <= 8 * Z.of_nat fuel -> 8 * bp - pos + remaining <= 32 -> 8 * bp + remaining <= bit_len data ->
  BitReader.peek_loop fuel data bp remaining (field data pos (8 * bp - pos)) = Ok (field data pos (8 * bp - pos + remaining)).
Proof.
  revert bp remaining. induction fuel as [|fuel IH]; intros bp remaining Hp Hpb Hb Hr Hf Hw Hfit; [lia|].
  cbn [BitReader.peek_loop]. unfold bit_len in IH, Hfit. destruct (Z.ltb_spec 0 remaining) as [Hpos|]; cbn [andb].
  2: { replace remaining with 0 by lia. by rewrite Z.add_0_r. }
  rewrite (proj2 (Z.ltb_lt bp (zlen data))) by lia. rewrite index_byte, bind_Ok by lia.
  rewrite <- field_byte by lia.
  assert (Happ : forall k, 0 <= k <= 8 -> k <= remaining -> Z.lor (wrap32 (Z.shiftl (field data pos (8 * bp - pos)) k)) (field data (8 * bp) k) =
            field data pos (8 * bp - pos + k)).
  { intros k Hk Hle. replace (8 * bp) with (pos + (8 * bp - pos)) at 2 by lia. apply append_field; lia. }
  destruct (Z.leb_spec 8 remaining).
  - rewrite (Happ 8) by lia. replace (8 * bp - pos + 8) with (8 * (bp + 1) - pos) by lia.
    rewrite IH by lia. do 2 f_equal. lia.
  - rewrite field_shiftr by lia. replace (8 - (8 - remaining)) with remaining by lia. rewrite (Happ remaining) by lia.
    destruct fuel as [|fuel]; [lia|]. done.
Qed.

Lemma peek_bits_ok self data pos n : at_bit self data pos -> 0 <= n <= 32 ->
  BitReader.peek_bits self n = if fits data pos n then Ok (field data pos n) else Err CorruptArchive.
Proof.
  intros H Hn. pose proof (at_bit_range _ _ _ H) as Hrange. unfold BitReader.peek_bits.
  rewrite (proj2 (Z.leb_le n 32)) by lia. cbn [negb].
  destruct (Z.eqb_spec n 0) as [->|]; [by rewrite fits_0 by lia|].
  assert (Htop : forall m, 0 <= m <= BitReader.acc_bits self -> m <= 32 -> wrap32 (Z.shiftr (BitReader.acc self) (64 - m)) = field data pos m).
  { intros m Hm Hle. rewrite (acc_top _ _ _ _ (at_acc _ _ _ H)) by lia. apply Z.mod_small.
    pose proof (field_range data pos m ltac:(lia)). assert (2 ^ m <= 2 ^ 32) by (apply Z.pow_le_mono_r; lia). lia. }
  destruct (Z.ltb_spec (BitReader.acc_bits self) n) as [Hlt|Hge].
  2: { rewrite (buffered_fits _ _ _ _ H), Htop by lia. done. }
  rewrite (remaining_ok _ _ _ H). unfold fits.
  destruct (Z.ltb_spec (bit_len data - pos) n), (Z.leb_spec (pos + n) (bit_len data)); try lia; [done|].
  destruct H as [Hd Hsz Hp Hb Hs Ha]. pose proof (acc_count _ _ _ _ Ha).
  assert ((if 0 <? BitReader.acc_bits self then wrap32 (Z.shiftr (BitReader.acc self) (64 - BitReader.acc_bits self)) else 0) =
          field data pos (8 * BitReader.byte_pos self - pos)) as ->.
  { replace (8 * BitReader.byte_pos self - pos) with (BitReader.acc_bits self) by lia.
    destruct (Z.ltb_spec 0 (BitReader.acc_bits self)); [apply Htop; lia|].
    by replace (BitReader.acc_bits self) with 0 by lia. }
  rewrite Hd, peek_loop_ok by lia. do 2 f_equal. lia.
Qed.

(** Both sixteen-bit peeks pad with zeros behind the end. *)
Lemma peek_16_cases self data pos (mask : Z -> Z) : at_bit self data pos ->
  (if 16 <=? BitReader.acc_bits self then Ok (E := rar_error) (mask (wrap32 (Z.shiftr (BitReader.acc self) 48)))
   else
     let bits_avail := BitReader.bits_remaining self in
     if bits_avail =? 0 then Err CorruptArchive
     else
       let peek_count := Z.min 16 bits_avail in
       raw ← BitReader.peek_bits self peek_count;
       mret (if peek_count <? 16 then mask (wrap32 (Z.shiftl raw (16 - peek_count))) else mask raw)) =
  if fits data pos 1 then Ok (mask (field data pos 16)) else Err CorruptArchive.
Proof.
  intros H. pose proof (at_bit_range _ _ _ H) as Hrange.
  destruct (Z.leb_spec 16 (BitReader.acc_bits self)) as [Hge|Hlt].
  { rewrite (buffered_fits _ _ _ 1 H) by lia. do 2 f_equal. change 48 with (64 - 16).
    rewrite (acc_top _ _ _ _ (at_acc _ _ _ H)) by lia. apply Z.mod_small.
    pose proof (field_range data pos 16 ltac:(lia)). lia. }
  cbv zeta. rewrite (remaining_ok _ _ _ H). unfold fits at 1.
  destruct (Z.eqb_spec (bit_len data - pos) 0), (Z.leb_spec (pos + 1) (bit_len data)); try lia; [done|].
  rewrite (peek_bits_ok _ _ _ _ H) by lia. unfold fits.
  rewrite (proj2 (Z.leb_le _ _)), bind_Ok by lia. unfold mret, outcome_ret. f_equal.
  destruct (Z.ltb_spec (Z.min 16 (bit_len data - pos)) 16).
  - f_equal. rewrite field_pad by lia. replace (Z.min 16 (bit_len data - pos) + (16 - Z.min 16 (bit_len data - pos))) with 16 by lia.
    apply Z.mod_small. pose proof (field_range data pos 16 ltac:(lia)). lia.
  - f_equal. f_equal. lia.
Qed.

Lemma bit_peek (peek : BitReader.t -> result Z) (mask : Z -> Z) (f : bits_spec Z) :
  (forall self data pos, at_bit self data pos -> peek self = if fits data pos 1 then Ok (mask (field data pos 16)) else Err CorruptArchive) ->
  (forall data pos, f data pos = if fits data pos 1 then Ok (mask (field data pos 16), pos) else Err CorruptArchive) ->
  realizes at_bit (_ ← BitReader.ensure_bits 16; self ← gets id; lift (peek self)) f.
Proof.
  intros Hpeek Hf self data pos H. rewrite Hf. destruct (ensure_bits_ok _ _ _ 16 H ltac:(lia)) as (r & Hrun & Hr & _).
  rewrite (bind_run _ _ _ _ _ Hrun), bind_gets. unfold lift, id. rewrite (Hpeek r data pos Hr).
  destruct (fits data pos 1); by exists r.
Qed.

Lemma peek_raw_ok self data pos : at_bit self data pos ->
  BitReader.peek_16_raw self = if fits data pos 1 then Ok (field data pos 16) else Err CorruptArchive.
Proof. apply (peek_16_cases self data pos (fun v => v)). Qed.

Lemma peek_left_ok self data pos : at_bit self data pos ->
  BitReader.peek_16_left_aligned self = if fits data pos 1 then Ok (Z.land (field data pos 16) 0xfffe) else Err CorruptArchive.
Proof. apply (peek_16_cases self data pos (fun v => Z.land v 0xfffe)). Qed.

(** * Moving *)

Lemma at_byte_pos self data p : BitReader.data self = data -> bit_len data < 2 ^ 64 -> 0 <= p <= zlen data ->
  at_bit (BitReader.set_acc 0 0 (BitReader.set_byte_pos p self)) data (8 * p).
Proof. intros Hd Hsz Hp. constructor; cbn; try done; [lia | lia | apply acc_empty]. Qed.

(** A refill followed by the bits of the byte already passed. *)
Lemma refill_drop self data pos n : at_bit self data pos -> 0 <= n < 8 -> fits data pos n = true ->
  exists r, (_ ← BitReader.refill; modify (BitReader.drop_bits n)) self = (Ok tt, r) /\ at_bit r data (pos + n).
Proof.
  intros H Hn Hfits. destruct (refill_ok _ _ _ H) as (r & Hrun & Hr & _ & _ & Ht).
  rewrite (bind_run _ _ _ _ _ Hrun). eexists. split; [done|]. apply drop_ok; [done|].
  rewrite <- (topped_up_spec _ _ _ n Hr Ht) in Hfits by lia. lia.
Qed.

Lemma bit_skip n : 0 <= n < 2 ^ 32 -> realizes at_bit (BitReader.skip_bits n) (spec_skip n).
Proof.
  intros Hn self data pos H. unfold BitReader.skip_bits, spec_skip. rewrite bind_gets, (remaining_ok _ _ _ H).
  destruct (fits data pos n) eqn:Hfits; unfold fits in Hfits.
  2: { rewrite (proj2 (Z.ltb_lt _ _)) by lia. by exists self. }
  rewrite (proj2 (Z.ltb_ge _ _)), bind_gets by lia.
  pose proof (acc_count _ _ _ _ (at_acc _ _ _ H)).
  destruct (Z.leb_spec n (BitReader.acc_bits self)).
  { destruct (Z.ltb_spec n 64).
    - eexists. split; [done|]. apply drop_ok; [done | lia].
    - eexists. split; [done|]. destruct H as [Hd Hsz Hp Hb Hs Ha]. constructor; cbn; try done; [lia | lia |].
      replace (BitReader.acc_bits self - n) with 0 by lia. apply acc_empty. }
  unfold BitReader.skip_past. rewrite bind_gets, !bind_modify.
  destruct H as [Hd Hsz Hp Hb Hs Ha]. set (rest := n - BitReader.acc_bits self) in *.
  set (self' := BitReader.set_byte_pos _ _).
  assert (H' : at_bit self' data (8 * (BitReader.byte_pos self + rest / 8))).
  { unfold bit_len in *. assert (rest / 8 * 8 <= rest) by (Z.to_euclidean_division_equations; lia).
    assert (0 <= rest / 8) by (apply Z.div_pos; lia).
    constructor; cbn; try done; [lia | lia | lia | apply acc_empty]. }
  replace (rest - rest / 8 * 8) with (rest mod 8) by (Z.to_euclidean_division_equations; lia).
  replace (pos + n) with (8 * (BitReader.byte_pos self + rest / 8) + rest mod 8) by (Z.to_euclidean_division_equations; lia).
  pose proof (Z.mod_pos_bound rest 8 ltac:(lia)).
  destruct (Z.ltb_spec 0 (rest mod 8)).
  - apply refill_drop; [done | lia |]. apply Z.leb_le. Z.to_euclidean_division_equations; lia.
  - exists self'. replace (rest mod 8) with 0 by lia. by rewrite Z.add_0_r.
Qed.

Lemma bit_consume n : 0 <= n <= 32 -> realizes at_bit (BitReader.consume_bits n) (spec_skip n).
Proof.
  intros Hn. apply realizes_assert; [lia|]. intros self data pos H. pose proof (at_bit_range _ _ _ H). unfold spec_skip.
  destruct (Z.eqb_spec n 0) as [->|].
  { rewrite fits_0 by lia. exists self. by rewrite Z.add_0_r. }
  rewrite bind_gets. destruct (Z.leb_spec n (BitReader.acc_bits self)).
  { rewrite (buffered_fits _ _ _ _ H) by lia. eexists. split; [done|]. apply drop_ok; [done | lia]. }
  destruct (refill_ok _ _ _ H) as (r & Hrun & Hr & _ & _ & _). rewrite (bind_run _ _ _ _ _ Hrun), bind_gets.
  destruct (Z.leb_spec n (BitReader.acc_bits r)).
  - rewrite (buffered_fits _ _ _ _ Hr) by lia. eexists. split; [done|]. apply drop_ok; [done | lia].
  - apply (bit_skip n ltac:(lia) r data pos Hr).
Qed.

Lemma bit_align : realizes at_bit BitReader.align_byte spec_align.
Proof.
  intros self data pos H. unfold BitReader.align_byte, spec_align. rewrite bind_gets, (position_ok _ _ _ H).
  pose proof (at_bit_range _ _ _ H) as Hrange. unfold bit_len in Hrange.
  destruct (Z.eqb_spec (pos mod 8) 0); cbn [negb].
  { exists self. split; [done|]. replace (8 * ((pos + 7) / 8)) with pos by (Z.to_euclidean_division_equations; lia). done. }
  destruct (ensure_bits_ok _ _ _ (8 - pos mod 8) H) as (r & Hrun & Hr & _ & Hfits); [Z.to_euclidean_division_equations; lia|].
  rewrite (bind_run _ _ _ _ _ Hrun), bind_gets, Hfits.
  assert (fits data pos (8 - pos mod 8) = true) as E by (apply Z.leb_le; unfold bit_len; Z.to_euclidean_division_equations; lia).
  rewrite E. eexists. split; [done|].
  replace (8 * ((pos + 7) / 8)) with (pos + (8 - pos mod 8)) by (Z.to_euclidean_division_equations; lia).
  apply drop_ok; [done|]. rewrite E in Hfits. Z.to_euclidean_division_equations. lia.
Qed.

(** A seek may jump anywhere in the source. *)
Lemma seek_ok self data p : BitReader.data self = data -> bit_len data < 2 ^ 64 -> 0 <= p <= bit_len data ->
  exists r, BitReader.seek_to_bit p self = (Ok tt, r) /\ at_bit r data p.
Proof.
  intros Hd Hsz Hp. unfold BitReader.seek_to_bit, bit_len in *. rewrite bind_modify.
  replace (Z.shiftr p 3) with (p / 8) by by rewrite Z.shiftr_div_pow2 by lia.
  replace (Z.land p 7) with (p mod 8) by by (change 7 with (Z.ones 3); rewrite Z.land_ones by lia).
  pose proof (Z.mod_pos_bound p 8 ltac:(lia)) as Hm.
  assert (H0 : at_bit (BitReader.set_acc 0 0 (BitReader.set_byte_pos (p / 8) self)) data (8 * (p / 8))).
  { apply at_byte_pos; [done | done | Z.to_euclidean_division_equations; lia]. }
  assert (Hdone : forall r, at_bit r data p -> (p' ← gets BitReader.position; debug_assert (p' =? p)) r = (Ok tt, r)).
  { intros r Hr. rewrite bind_gets, (position_ok _ _ _ Hr), Z.eqb_refl. done. }
  destruct (Z.eqb_spec (p mod 8) 0); cbn [negb].
  { eexists. rewrite bind_mret. assert (Hat : at_bit (BitReader.set_acc 0 0 (BitReader.set_byte_pos (p / 8) self)) data p).
    { replace p with (8 * (p / 8)) at 2 by (Z.to_euclidean_division_equations; lia). done. }
    split; [by apply Hdone | done]. }
  destruct (refill_ok _ _ _ H0) as (r & Hrun & Hr & _ & _ & Ht).
  assert (Hcount : p mod 8 <= BitReader.acc_bits r).
  { pose proof (topped_up_spec _ _ _ (p mod 8) Hr Ht ltac:(lia)) as E. unfold fits in E.
    rewrite (proj2 (Z.leb_le _ (bit_len data))) in E by (unfold bit_len; Z.to_euclidean_division_equations; lia). lia. }
  assert (Hat : at_bit (BitReader.drop_bits (p mod 8) r) data p).
  { replace p with (8 * (p / 8) + p mod 8) at 2 by (Z.to_euclidean_division_equations; lia). apply drop_ok; [done | lia]. }
  exists (BitReader.drop_bits (p mod 8) r). split; [|done].
  rewrite (bind_run _ _ _ tt (BitReader.drop_bits (p mod 8) r)); [by apply Hdone|].
  rewrite (bind_run _ _ _ _ _ Hrun), bind_gets. unfold debug_assert. rewrite (proj2 (Z.leb_le _ _) Hcount). done.
Qed.

Lemma bit_byte_span self data pos : at_bit self data pos ->
  forall min, if pos mod 8 =? 0 then
    exists span eof r', BitReader.byte_span min self = (Ok (Some (span, eof)), r') /\ at_bit r' data pos /\
      span `prefix_of` zdrop (pos / 8) data /\ (min <= zlen span \/ eof = true) /\
      (eof = true -> span = zdrop (pos / 8) data) /\
      forall count, 0 <= count <= zlen span ->
        exists r'', BitReader.consume_byte_span count r' = (Ok tt, r'') /\ at_bit r'' data (pos + 8 * count)
  else exists r', BitReader.byte_span min self = (Ok None, r') /\ at_bit r' data pos.
Proof.
  intros H min. pose proof (at_bit_range _ _ _ H) as Hrange. unfold BitReader.byte_span. rewrite (position_ok _ _ _ H).
  destruct (Z.eqb_spec (pos mod 8) 0) as [Hal|]; cbn [negb]; [|by exists self].
  exists (zdrop (pos / 8) data), true, self. rewrite (at_data _ _ _ H).
  split_and!; try done; [by right|]. intros count Hc. rewrite zlen_drop in Hc by (apply Z.div_pos; lia).
  unfold BitReader.consume_byte_span. destruct (Z.eqb_spec count 0) as [->|]; [exists self; by rewrite Z.mul_0_r, Z.add_0_r|].
  rewrite !bind_gets, (position_ok _ _ _ H), (at_data _ _ _ H).
  destruct H as [Hd Hsz Hp Hb Hs Ha]. unfold bit_len in *. unfold debug_assert.
  rewrite (proj2 (Z.eqb_eq _ _)), (proj2 (Z.leb_le _ _)) by (Z.to_euclidean_division_equations; lia).
  cbn [andb]. rewrite bind_mret, (Z.mul_comm count 8). apply seek_ok; [done | done |].
  unfold bit_len. Z.to_euclidean_division_equations; lia.
Qed.

Lemma bit_lease {T} (f : LzSpan -> Z * T) self data pos : at_bit self data pos ->
  (forall span, start_bit span < border_bit span -> start_bit span <= (f span).1 <= border_bit span + 8 * 16) ->
  (exists r', BitReader.lease_lz_span f self = (Ok None, r') /\ at_bit r' data pos) \/
  (exists span r', BitReader.lease_lz_span f self = (Ok (Some (f span).2), r') /\
     start_bit span < border_bit span /\ border_bit span + 8 * LZ_SPAN_SLACK_BYTES = bit_len (span_data span) /\
     (forall k, 0 <= k < bit_len (span_data span) - start_bit span ->
        bit_at (span_data span) (start_bit span + k) = bit_at data (pos + k)) /\
     at_bit r' data (pos + ((f span).1 - start_bit span))).
Proof.
  intros H Hf. unfold BitReader.lease_lz_span. rewrite (position_ok _ _ _ H), (at_data _ _ _ H).
  pose proof (at_bit_range _ _ _ H) as Hrange. unfold checked_sub_u64, LZ_SPAN_SLACK_BYTES, bit_len in *.
  case_match eqn:Hsub; [|left; by exists self].
  destruct (Z.leb_spec (z * 8) pos); [left; by exists self|]. right.
  assert (z = zlen data - 32) as -> by (revert Hsub; case_match; congruence || (intros [= <-]; done)).
  set (span := mk_span data pos ((zlen data - 32) * 8)). specialize (Hf span ltac:(cbn; lia)).
  exists span. destruct (f span) as [e v]. cbn in Hf |- *.
  unfold debug_assert. rewrite (proj2 (Z.leb_le pos e)), (proj2 (Z.leb_le e (zlen data * 8))) by lia. cbn [andb].
  destruct (seek_ok self data e (at_data _ _ _ H) (at_size _ _ _ H)) as (r & Hrun & Hr); [unfold bit_len; lia|].
  exists r. rewrite bind_mret, (bind_run _ _ _ _ _ Hrun). split_and!; try done; [lia|].
  by replace (pos + (e - pos)) with e by lia.
Qed.

Lemma bit_remaining : realizes at_bit (n ← gets BitReader.bits_remaining; mret (negb (n =? 0))) spec_has_bits.
Proof.
  intros r data pos H. rewrite bind_gets, (remaining_ok _ _ _ H). pose proof (at_bit_range _ _ _ H).
  exists r. split; [|done]. unfold mret, stateM_ret, fits. do 2 f_equal.
  destruct (Z.eqb_spec (bit_len data - pos) 0), (Z.leb_spec (pos + 1) (bit_len data)); done || lia.
Qed.

Lemma bit_remaining_least n : realizes at_bit (left ← gets BitReader.bits_remaining; mret (n <=? left)) (spec_exact n).
Proof.
  intros r data pos H. rewrite bind_gets, (remaining_ok _ _ _ H).
  exists r. split; [|done]. unfold mret, stateM_ret, fits. do 2 f_equal.
  destruct (Z.leb_spec n (bit_len data - pos)), (Z.leb_spec (pos + n) (bit_len data)); done || lia.
Qed.

Lemma bit_has_bits : realizes at_bit (gets BitReader.has_bits) spec_has_bits.
Proof. intros r data pos H. exists r. split; [|done]. unfold gets. by rewrite (has_bits_ok _ _ _ H). Qed.

Lemma bit_exact n : realizes at_bit (gets (fun self => n <=? BitReader.bits_remaining self)) (spec_exact n).
Proof.
  intros r data pos H. exists r. split; [|done]. unfold gets. rewrite (remaining_ok _ _ _ H). unfold fits.
  do 2 f_equal. destruct (Z.leb_spec n (bit_len data - pos)), (Z.leb_spec (pos + n) (bit_len data)); done || lia.
Qed.

Lemma bit_peek_left : realizes at_bit (_ ← BitReader.ensure_bits 16; self ← gets id; lift (BitReader.peek_16_left_aligned self)) spec_peek16_left.
Proof.
  apply (bit_peek _ (fun v => Z.land v 0xfffe) _ peek_left_ok). intros data pos.
  unfold spec_peek16_left, mbind, bits_spec_bind, spec_peek16. by destruct (fits data pos 1).
Qed.
End at_bit.

#[export] Instance BitReader_lawful : BitReadLaws BitReader.t := {
  tracks := at_bit;
  tracks_range := at_bit_range;
  position_law := position_ok;
  remaining_law := bit_remaining;
  remaining_least_law n _ := bit_remaining_least n;
  has_bits_law := bit_has_bits;
  exact_law n _ := bit_exact n;
  read_bits_law := bit_read_bits;
  read_byte_law := bit_read_byte;
  byte_or_zero_law := bit_byte_or_zero;
  zero_bytes_law := bit_zero_bytes;
  peek_raw_law := bit_peek _ (fun v => v) _ peek_raw_ok (fun _ _ => eq_refl);
  peek_left_law := bit_peek_left;
  consume_law := bit_consume;
  skip_law := bit_skip;
  align_law := bit_align;
  byte_span_law r data pos min H _ := bit_byte_span r data pos H min;
  lease_law T f := bit_lease f
}.

(** A new reader stands at the first bit. *)
Lemma new_ok data : bit_len data < 2 ^ 64 -> at_bit (BitReader.new data) data 0.
Proof.
  intros Hsz. assert (H : at_bit (BitReader.mk data 0 0 0 0) data 0).
  { constructor; cbn; try done; [pose proof (zlen_nonneg data); lia | apply acc_empty]. }
  unfold BitReader.new. destruct (refill_ok _ _ _ H) as (r & -> & Hr & _). done.
Qed.
