(* ===== verification/LzStreamReader.v ===== *)
(** The bit reader over a stream (decompress/lz/bitstream.rs,
    [StreamingBitReader]): a buffer filled by an inner reader of arbitrary
    read sizes, an accumulator that may straddle two fills, and the same laws
    as the reader over a slice. *)
From S2P Require Import Prelude RarTypes StateM BitString LzBits.

Definition STREAMING_INPUT_BUFFER_SIZE : Z := 0x80000.
Definition STREAMING_STRADDLE_HEADROOM : Z := 8.

(** [std::io::Read::read] into a slice of the given length: some bytes, none
    only at the end, or an error. *)
Class Source (R : Type) := src_read : R -> Z -> result (list byte) * R.

(** What is relied on of a source that does not fail. *)
Class SourceLaws (R : Type) `{Source R} := {
  src_rest : R -> list byte;
  src_read_law : forall r limit, 0 < limit -> exists bytes r', src_read r limit = (Ok bytes, r') /\
    src_rest r = bytes ++ src_rest r' /\ zlen bytes <= limit /\ (bytes = [] -> src_rest r = [])
}.

Module StreamReader.
Record t (R : Type) := mk {
  inner : R; buf : list byte; buf_pos : Z; buf_len : Z; acc : Z; acc_bits : Z; eof : bool; bit_pos : Z; zeros : Z }.
Arguments mk {R}. Arguments inner {R}. Arguments buf {R}. Arguments buf_pos {R}. Arguments buf_len {R}.
Arguments acc {R}. Arguments acc_bits {R}. Arguments eof {R}. Arguments bit_pos {R}. Arguments zeros {R}.

Section ops.
Context {R : Type} `{Source R}.
Local Abbreviation M := (stateM (t R) rar_error).
Implicit Types (self : t R).

Definition set_acc (v n : Z) self : t R := mk (inner self) (buf self) (buf_pos self) (buf_len self) v n (eof self) (bit_pos self) (zeros self).
Definition set_buf_pos (p : Z) self : t R := mk (inner self) (buf self) p (buf_len self) (acc self) (acc_bits self) (eof self) (bit_pos self) (zeros self).
Definition set_bit_pos (p : Z) self : t R := mk (inner self) (buf self) (buf_pos self) (buf_len self) (acc self) (acc_bits self) (eof self) p (zeros self).
Definition set_zeros (z : Z) self : t R := mk (inner self) (buf self) (buf_pos self) (buf_len self) (acc self) (acc_bits self) (eof self) (bit_pos self) z.

Definition alloc_buffer : list byte := zreplicate (STREAMING_INPUT_BUFFER_SIZE + STREAMING_STRADDLE_HEADROOM) x00.

Definition with_buffer (inner : R) (buf : list byte) : t R :=
  let buf := if STREAMING_INPUT_BUFFER_SIZE + STREAMING_STRADDLE_HEADROOM <=? zlen buf then buf else alloc_buffer in
  mk inner buf 0 0 0 0 false 0 0.
Definition new (inner : R) : t R := with_buffer inner alloc_buffer.
Definition into_buffer self : list byte := buf self.

Definition fill_limit self : Z := zlen (buf self) - STREAMING_STRADDLE_HEADROOM.

(** A read into [buf[at..at + limit]]. *)
Definition read_into (at_ limit : Z) : M Z := fun self =>
  match src_read (inner self) limit with
  | (Ok bytes, r) =>
    (Ok (zlen bytes), mk r (ztake at_ (buf self) ++ bytes ++ zdrop (at_ + zlen bytes) (buf self)) (buf_pos self) (buf_len self)
                        (acc self) (acc_bits self) (eof self) (bit_pos self) (zeros self))
  | (Err e, r) => (Err e, mk r (buf self) (buf_pos self) (buf_len self) (acc self) (acc_bits self) (eof self) (bit_pos self) (zeros self))
  | (Panic, r) => (Panic, self)
  end.

Definition filled (n : Z) self : t R :=
  mk (inner self) (buf self) 0 n (acc self) (acc_bits self) (if n =? 0 then true else eof self) (bit_pos self) (zeros self).

Definition fill_buffer : M unit := fun self =>
  if (buf_pos self <? buf_len self) || eof self then (Ok tt, self)
  else (n ← read_into 0 (fill_limit self); modify (filled n)) self.

Fixpoint refill_slow (fuel : nat) : M unit := fun self =>
  match fuel with
  | O => (Panic, self)
  | S fuel =>
    if acc_bits self <=? 56 then
      (_ ← fill_buffer;
       self ← gets id;
       if buf_len self <=? buf_pos self then mret tt
       else
         b ← lift (index (buf self) (buf_pos self));
         _ ← modify (fun self => set_buf_pos (buf_pos self + 1)
               (set_acc (Z.lor (acc self) (wrap64 (Z.shiftl (u8 b) (56 - acc_bits self)))) (acc_bits self + 8) self));
         refill_slow fuel) self
    else (Ok tt, self)
  end.

Definition refill : M unit := fun self =>
  if 56 <? acc_bits self then (Ok tt, self)
  else if buf_pos self + 8 <=? buf_len self then
    match slice (buf self) (buf_pos self) (buf_pos self + 8) with
    | Ok bytes => (Ok tt, set_buf_pos (buf_pos self + Z.shiftr (63 - acc_bits self) 3)
        (set_acc (Z.lor (acc self) (Z.shiftr (be_combine bytes) (acc_bits self))) (Z.lor (acc_bits self) 56) self))
    | Err e => (Err e, self)
    | Panic => (Panic, self)
    end
  else refill_slow 10 self.

Definition refill_if_needed : M unit := fun self => if acc_bits self <=? 56 then refill self else (Ok tt, self).

(** [acc <<= n; acc_bits -= n], and the stream position with it. *)
Definition drop_bits (n : Z) self : t R := set_acc (wrap64 (Z.shiftl (acc self) n)) (acc_bits self - n) self.
Definition pass_bits (n : Z) self : t R := set_bit_pos (wrap64 (bit_pos self + n)) (drop_bits n self).

Definition take_top (count : Z) : M Z :=
  v ← gets (fun self => wrap32 (Z.shiftr (acc self) (64 - count)));
  _ ← modify (pass_bits count);
  _ ← refill_if_needed;
  mret v.

Definition available self : Z := acc_bits self + (buf_len self - buf_pos self) * 8.

(** The bytes behind the accumulator appended to what it holds. *)
Fixpoint peek_loop (fuel : nat) (self : t R) (need pos result_ : Z) : result Z :=
  match fuel with
  | O => Panic
  | S fuel =>
    if 0 <? need then
      if buf_len self <=? pos then if eof self then Ok result_ else Err CorruptArchive
      else
        byte ← index (buf self) pos;
        if 8 <=? need then peek_loop fuel self (need - 8) (pos + 1) (Z.lor (wrap32 (Z.shiftl result_ 8)) (u8 byte))
        else peek_loop fuel self 0 (pos + 1) (Z.lor (wrap32 (Z.shiftl result_ need)) (Z.shiftr (u8 byte) (8 - need)))
    else Ok result_
  end.

Definition peek_bits (count : Z) : M Z :=
  _ ← debug_assert (count <=? 32);
  if count =? 0 then mret 0
  else
    self ← gets id;
    if count <=? acc_bits self then mret (wrap32 (Z.shiftr (acc self) (64 - count)))
    else
      _ ← refill;
      self ← gets id;
      if count <=? acc_bits self then mret (wrap32 (Z.shiftr (acc self) (64 - count)))
      else if (available self <? count) && eof self then fails CorruptArchive
      else
        let held := if 0 <? acc_bits self then wrap32 (Z.shiftr (acc self) (64 - acc_bits self)) else 0 in
        lift (peek_loop 6 self (count - acc_bits self) (buf_pos self) held).

Definition pass_and_refill (count : Z) : M unit := _ ← modify (pass_bits count); refill_if_needed.

Definition consume_bits (count : Z) : M unit :=
  _ ← debug_assert (count <=? 32);
  if count =? 0 then mret tt
  else
    self ← gets id;
    if count <=? acc_bits self then pass_and_refill count
    else
      _ ← refill;
      self ← gets id;
      if count <=? acc_bits self then pass_and_refill count
      else if (available self <? count) && eof self then fails CorruptArchive
      else if acc_bits self <? count then fails CorruptArchive
      else pass_and_refill count.

Definition read_bits_refill (count : Z) : M Z :=
  _ ← refill;
  self ← gets id;
  if count <=? acc_bits self then take_top count
  else if (available self <? count) && eof self then fails CorruptArchive
  else
    v ← peek_bits count;
    _ ← consume_bits count;
    mret v.

Definition read_bits (count : Z) : M Z :=
  _ ← debug_assert (count <=? 32);
  if count =? 0 then mret 0
  else
    self ← gets id;
    if count <=? acc_bits self then take_top count else read_bits_refill count.

Definition buffer_bit_position self : option Z := checked_sub_u64 (buf_pos self * 8) (acc_bits self).

Definition seek_to_buffer_bit (pos : Z) : M unit :=
  _ ← modify (fun self => set_acc 0 0 (set_buf_pos (Z.shiftr pos 3) self));
  let offset := Z.land pos 7 in
  _ ← (if negb (offset =? 0) then
         _ ← refill;
         self ← gets id;
         if acc_bits self <? offset then fails CorruptArchive else modify (drop_bits offset)
       else mret tt);
  self ← gets id;
  debug_assert (bool_decide (buffer_bit_position self = Some pos)).

Fixpoint top_up (fuel : nat) (min : Z) : M unit := fun self =>
  match fuel with
  | O => (Panic, self)
  | S fuel =>
    if (buf_len self <? min) && negb (eof self) then
      let end_ := Z.min (buf_len self + fill_limit self) (zlen (buf self)) in
      (n ← read_into (buf_len self) (end_ - buf_len self);
       _ ← modify (fun self => mk (inner self) (buf self) (buf_pos self) (buf_len self + n) (acc self) (acc_bits self)
                                 (if n =? 0 then true else eof self) (bit_pos self) (zeros self));
       top_up fuel min) self
    else (Ok tt, self)
  end.

(** The bytes the accumulator still holds, oldest first. *)
Definition held_bytes self : list byte :=
  (fun index => byte_of (Z.shiftr (acc self) (56 - 8 * Z.of_nat index))) <$> seq 0 (Z.to_nat (acc_bits self / 8)).

Definition gather_byte_span (min : Z) : M unit :=
  self ← gets id;
  _ ← debug_assert (acc_bits self mod 8 =? 0);
  let held := acc_bits self / 8 in
  let tail := buf_len self - buf_pos self in
  _ ← debug_assert (held + tail <=? zlen (buf self));
  moved ← lift (slice (buf self) (buf_pos self) (buf_len self));
  shifted ← lift (copy_range (buf self) held (held + tail) moved);
  laid ← lift (copy_range shifted 0 held (held_bytes self));
  _ ← modify (fun self => mk (inner self) laid 0 (held + tail) 0 0 (eof self) (bit_pos self) (zeros self));
  _ ← top_up (Z.to_nat min + 2) min;
  self ← gets id;
  debug_assert (bool_decide (buffer_bit_position self = Some 0)).

(** Whether an action fails; what it did stays. *)
Definition succeeds (m : M unit) : M bool := fun self =>
  match m self with
  | (Ok _, self) => (Ok true, self)
  | (Err _, self) => (Ok false, self)
  | (Panic, self) => (Panic, self)
  end.

Definition buffered self : Z := acc_bits self + Z.max 0 (buf_len self - buf_pos self) * 8.

Definition bits_remaining : M Z :=
  self ← gets id;
  if eof self then mret (buffered self)
  else
    _ ← succeeds refill;
    self ← gets id;
    mret (if eof self then buffered self else sat_add_u64 (buffered self) 64).

Definition has_bits : M bool :=
  self ← gets id;
  if (0 <? acc_bits self) || (buf_pos self <? buf_len self) then mret true
  else if eof self then mret false
  else
    ok ← succeeds fill_buffer;
    self ← gets id;
    mret (ok && (buf_pos self <? buf_len self)).

Definition lease_lz_span {T} (f : LzSpan -> Z * T) : M (option T) := fun self =>
  match checked_sub_u64 (buf_len self) LZ_SPAN_SLACK_BYTES with
  | None => (Ok None, self)
  | Some border_bytes =>
    let border_bit := border_bytes * 8 in
    match buffer_bit_position self with
    | None => (Ok None, self)
    | Some start =>
      if border_bit <=? start then (Ok None, self)
      else
        let '(end_bit, value) := f (mk_span (ztake (buf_len self) (buf self)) start border_bit) in
        (_ ← debug_assert ((start <=? end_bit) && (end_bit <=? buf_len self * 8));
         _ ← modify (fun self => set_bit_pos (wrap64 (bit_pos self + (end_bit - start))) self);
         _ ← seek_to_buffer_bit end_bit;
         mret (Some value)) self
    end
  end.

Definition has_exact_bits (bits : Z) : M bool := _ ← refill; self ← gets id; mret (bits <=? buffered self).

Definition top_byte : M Z :=
  byte ← gets (fun self => Z.shiftr (acc self) 56);
  _ ← modify (pass_bits 8);
  mret byte.

Definition read_byte : M Z :=
  self ← gets id;
  if acc_bits self <? 8 then
    _ ← refill;
    self ← gets id;
    if acc_bits self <? 8 then fails CorruptArchive else top_byte
  else top_byte.

Definition invent_zero : M Z := _ ← modify (fun self => set_zeros (Z.min (zeros self + 1) (2 ^ 32 - 1)) self); mret 0.

Definition read_byte_or_zero : M Z :=
  self ← gets id;
  if acc_bits self <? 8 then
    ok ← succeeds refill;
    self ← gets id;
    if negb ok || (acc_bits self <? 8) then invent_zero else top_byte
  else top_byte.

Definition byte_span (min : Z) : M (option (list byte * bool)) :=
  self ← gets id;
  if negb (bit_pos self mod 8 =? 0) then mret None
  else
    start ← match buffer_bit_position self with
            | Some bit =>
              if min <=? buf_len self - bit / 8 then mret (bit / 8) else _ ← gather_byte_span min; mret 0
            | None => _ ← gather_byte_span min; mret 0
            end;
    self ← gets id;
    span ← lift (slice (buf self) start (buf_len self));
    mret (Some (span, eof self)).

Definition consume_byte_span (count : Z) : M unit :=
  if count =? 0 then mret tt
  else
    self ← gets id;
    match buffer_bit_position self with
    | None => _ ← debug_assert false; mret tt
    | Some bit =>
      _ ← debug_assert (bit / 8 + count <=? buf_len self);
      _ ← modify (fun self => set_bit_pos (wrap64 (bit_pos self + count * 8)) self);
      committed ← succeeds (seek_to_buffer_bit (bit + count * 8));
      debug_assert committed
    end.

(** Both sixteen-bit peeks; [mask] is what the left-aligned one does to the result. *)
Definition peek_16 (mask : Z -> Z) : M Z :=
  self ← gets id;
  if 16 <=? acc_bits self then mret (mask (wrap32 (Z.shiftr (acc self) 48)))
  else
    _ ← refill;
    self ← gets id;
    if 16 <=? acc_bits self then mret (mask (wrap32 (Z.shiftr (acc self) 48)))
    else
      let bits_avail := available self in
      if bits_avail =? 0 then fails CorruptArchive
      else
        let peek_count := Z.min 16 bits_avail in
        raw ← peek_bits peek_count;
        mret (if peek_count <? 16 then mask (wrap32 (Z.shiftl raw (16 - peek_count))) else mask raw).
Definition peek_16_raw : M Z := peek_16 (fun v => v).
Definition peek_16_left_aligned : M Z := peek_16 (fun v => Z.land v 0xfffe).

Fixpoint skip_loop (fuel : nat) (remaining : Z) : M unit :=
  match fuel with
  | O => lift Panic
  | S fuel =>
    if 0 <? remaining then
      let step := Z.min remaining 32 in
      _ ← consume_bits step;
      skip_loop fuel (remaining - step)
    else mret tt
  end.
Definition skip_bits (count : Z) : M unit := skip_loop (Z.to_nat (count / 32) + 2) count.

Definition align_byte : M unit :=
  p ← gets bit_pos;
  let bit_offset := p mod 8 in
  if negb (bit_offset =? 0) then consume_bits (8 - bit_offset) else mret tt.
End ops.
End StreamReader.

#[export] Instance StreamReader_BitRead {R} `{Source R} : BitRead (StreamReader.t R) := {
  bits_remaining := StreamReader.bits_remaining;
  has_bits := StreamReader.has_bits;
  lease_lz_span T f := StreamReader.lease_lz_span f;
  has_exact_bits := StreamReader.has_exact_bits;
  position := StreamReader.bit_pos;
  read_bits := StreamReader.read_bits;
  read_byte := StreamReader.read_byte;
  read_byte_or_zero := StreamReader.read_byte_or_zero;
  zero_bytes_past_eof := StreamReader.zeros;
  byte_span := StreamReader.byte_span;
  consume_byte_span := StreamReader.consume_byte_span;
  peek_16_raw := StreamReader.peek_16_raw;
  peek_16_left_aligned := StreamReader.peek_16_left_aligned;
  consume_bits := StreamReader.consume_bits;
  skip_bits := StreamReader.skip_bits;
  align_byte := StreamReader.align_byte
}.

(** * The bits a reader is about to read *)

Section on_stream.
Context {R : Type} `{SourceLaws R}.
Import StreamReader.
Implicit Types (self : t R) (data : list byte).

(** The stream is what was in earlier fills, the current fill and the rest of
    the source; the accumulator holds the bits in front of [buf_pos], some of
    them possibly of earlier fills, and then the fill leaves the headroom free. *)
Record on_stream self data (pos : Z) : Prop := mk_on_stream {
  st_size : bit_len data < 2 ^ 64;
  st_pos : bit_pos self = pos;
  st_nonneg : 0 <= pos;
  st_buf : STREAMING_INPUT_BUFFER_SIZE + STREAMING_STRADDLE_HEADROOM <= zlen (buf self);
  st_range : 0 <= buf_pos self <= buf_len self;
  st_fill : buf_len self <= zlen (buf self);
  st_eof : eof self = true -> src_rest (inner self) = [];
  st_acc : acc_ok data pos (acc self) (acc_bits self);
  st_split : exists before, data = before ++ ztake (buf_len self) (buf self) ++ src_rest (inner self) /\
    8 * (zlen before + buf_pos self) = pos + acc_bits self;
  st_room : 8 * buf_pos self < acc_bits self -> buf_len self + STREAMING_STRADDLE_HEADROOM <= zlen (buf self)
}.

Definition topped_up self : Prop := 56 <= acc_bits self \/ (eof self = true /\ buf_pos self = buf_len self).

Lemma window_in {A} (before fill rest : list A) p n : 0 <= p -> 0 <= n -> p + n <= zlen fill ->
  ztake n (zdrop (zlen before + p) (before ++ fill ++ rest)) = ztake n (zdrop p fill).
Proof.
  intros Hp Hn Hle. rewrite zdrop_app_ge by lia. replace (zlen before + p - zlen before) with p by lia.
  rewrite zdrop_app_le by lia. apply ztake_app_le. rewrite zlen_drop; lia.
Qed.

Lemma window_take {A} (l : list A) L p n : 0 <= p -> 0 <= n -> p + n <= L -> ztake n (zdrop p (ztake L l)) = ztake n (zdrop p l).
Proof.
  intros Hp Hn Hle. rewrite !ztake_nat, !zdrop_nat by lia.
  rewrite !take_drop_commute, take_take. do 2 f_equal. lia.
Qed.

Lemma stream_range self data pos : on_stream self data pos -> 0 <= pos <= bit_len data.
Proof.
  intros Hs. destruct Hs as [_ _ Hp _ Hr Hf _ Ha (before & -> & Hb) _]. pose proof (acc_count _ _ _ _ Ha).
  unfold bit_len. rewrite !zlen_app, zlen_take by lia. pose proof (zlen_nonneg (src_rest (inner self))). lia.
Qed.

(** A window of the fill is a window of the stream. *)
Lemma stream_window self data pos n : on_stream self data pos -> 0 <= n -> buf_pos self + n <= buf_len self ->
  be_combine (ztake n (zdrop (buf_pos self) (buf self))) = field data (pos + acc_bits self) (8 * n) /\ fits data (pos + acc_bits self) (8 * n) = true.
Proof.
  intros Hs Hn Hle. destruct Hs as [_ _ Hp _ Hr Hf _ Ha (before & -> & Hb) _]. rewrite <- Hb.
  pose proof (zlen_nonneg before). pose proof (zlen_nonneg (src_rest (inner self))).
  rewrite <- be_combine_window, window_in, window_take; rewrite ?zlen_app, ?zlen_take; try lia.
  split; [done|]. apply Z.leb_le. unfold bit_len. rewrite !zlen_app, zlen_take by lia. lia.
Qed.

Lemma stream_dry self data pos : on_stream self data pos -> eof self = true -> buf_pos self = buf_len self ->
  pos + acc_bits self = bit_len data.
Proof.
  intros Hs He Hd. destruct Hs as [_ _ Hp _ Hr Hf Hrest Ha (before & -> & Hb) _].
  rewrite (Hrest He), app_nil_r. unfold bit_len. rewrite zlen_app, zlen_take by lia. lia.
Qed.

Lemma fill_ok self data pos : on_stream self data pos -> exists r, fill_buffer self = (Ok tt, r) /\ on_stream r data pos /\
  acc r = acc self /\ acc_bits r = acc_bits self /\ zeros r = zeros self /\ (buf_pos r < buf_len r \/ (eof r = true /\ buf_pos r = buf_len r)).
Proof.
  intros Hs. unfold fill_buffer. destruct (Z.ltb_spec (buf_pos self) (buf_len self)) as [|Hge]; cbn [orb].
  { exists self. split_and!; try done. by left. }
  destruct (eof self) eqn:He. { exists self. pose proof (st_range _ _ _ Hs). split_and!; try done. right. split; [done | lia]. }
  destruct Hs as [Hsz Hps Hp Hbuf Hr Hf Hrest Ha (before & Hdata & Hb) _].
  unfold STREAMING_INPUT_BUFFER_SIZE, STREAMING_STRADDLE_HEADROOM in *.
  destruct (src_read_law (inner self) (fill_limit self)) as (bytes & r & Hread & Hcat & Hlen & Hnil).
  { unfold fill_limit, STREAMING_STRADDLE_HEADROOM. lia. }
  unfold fill_limit, STREAMING_STRADDLE_HEADROOM in *.
  unfold read_into, mbind, stateM_bind, modify. rewrite Hread. eexists. split; [reflexivity|].
  pose proof (zlen_nonneg bytes). set (new_buf := ztake 0 (buf self) ++ bytes ++ zdrop (0 + zlen bytes) (buf self)).
  assert (Htake : ztake (zlen bytes) new_buf = bytes)
    by (unfold new_buf; rewrite (ztake_nat 0) by lia; change (Z.to_nat 0) with 0%nat; rewrite take_0; cbn [app]; apply ztake_app_zlen).
  assert (Hlen' : zlen new_buf = zlen (buf self)).
  { unfold new_buf. rewrite !zlen_app, zlen_drop, zlen_take by lia. lia. }
  clearbody new_buf. unfold filled. cbn. split_and!; [|done..|].
  - constructor; unfold STREAMING_INPUT_BUFFER_SIZE, STREAMING_STRADDLE_HEADROOM; cbn; try done; [lia | lia | | | lia].
    + destruct (Z.eqb_spec (zlen bytes) 0) as [Hz0|]; [|congruence].
      intros _. apply zlen_0_nil in Hz0. rewrite (Hnil Hz0), Hz0 in Hcat. done.
    + exists (before ++ ztake (buf_len self) (buf self)). rewrite Htake, zlen_app, zlen_take, <- app_assoc, <- Hcat by lia.
      split; [done | lia].
  - destruct (Z.eqb_spec (zlen bytes) 0); [right; split; [done | lia] | left; lia].
Qed.

(** One more byte of the fill goes behind the valid bits. *)
Lemma push_byte_ok self data pos : on_stream self data pos -> acc_bits self <= 56 -> buf_pos self < buf_len self ->
  exists b, index (E := rar_error) (buf self) (buf_pos self) = Ok b /\
    on_stream (set_buf_pos (buf_pos self + 1)
      (set_acc (Z.lor (acc self) (wrap64 (Z.shiftl (u8 b) (56 - acc_bits self)))) (acc_bits self + 8) self)) data pos.
Proof.
  intros Hs Hle Hlt. pose proof (stream_window _ _ _ 1 Hs ltac:(lia) ltac:(lia)) as [Hw _].
  destruct Hs as [Hsz Hps Hp Hbuf Hr Hf Hrest Ha (before & Hdata & Hb) Hroom].
  destruct (get_is_Some (buf self) (buf_pos self) ltac:(lia)) as [b Hget]. exists b.
  unfold index. rewrite Hget. split; [done|].
  assert (Hu8 : u8 b = field data (pos + acc_bits self) 8).
  { change (8 * 1) with 8 in Hw. rewrite <- Hw. unfold get in Hget. revert Hget. case_match; [|done]. intros Hget.
    rewrite zdrop_nat, ztake_nat by lia. rewrite (drop_S _ _ _ Hget). done. }
  constructor; cbn; try done; [lia | by apply acc_byte | | lia].
  exists before. split; [done | lia].
Qed.

Lemma refill_slow_ok fuel self data pos : on_stream self data pos -> 64 < acc_bits self + 8 * Z.of_nat fuel ->
  exists r, refill_slow fuel self = (Ok tt, r) /\ on_stream r data pos /\ zeros r = zeros self /\ acc_bits self <= acc_bits r /\ topped_up r.
Proof.
  revert self. induction fuel as [|fuel IH]; intros self Hs Hf; pose proof (acc_count _ _ _ _ (st_acc _ _ _ Hs)); [lia|].
  cbn [refill_slow]. unfold topped_up. destruct (Z.leb_spec (acc_bits self) 56) as [Hle|].
  2: { exists self. split_and!; try done; lia. }
  destruct (fill_ok _ _ _ Hs) as (r & Hrun & Hr & Hacc & Hbits & Hz & Hfill).
  rewrite (bind_run _ _ _ _ _ Hrun), bind_gets. unfold id. destruct (Z.leb_spec (buf_len r) (buf_pos r)) as [|Hlt].
  { exists r. split_and!; try done; [lia|]. right. destruct Hfill; [lia | done]. }
  destruct (push_byte_ok _ _ _ Hr ltac:(lia) Hlt) as (b & Hget & Hpush).
  rewrite (bind_run _ _ _ b r) by (unfold lift; by rewrite Hget). rewrite bind_modify.
  destruct (IH _ Hpush) as (r' & -> & Hr' & Hz' & Hc & Ht); [cbn; lia|].
  exists r'. cbn in Hc, Hz'. split_and!; try done; [congruence | lia].
Qed.

Lemma stream_refill_ok self data pos : on_stream self data pos ->
  exists r, refill self = (Ok tt, r) /\ on_stream r data pos /\ zeros r = zeros self /\ acc_bits self <= acc_bits r /\ topped_up r.
Proof.
  intros Hs. pose proof (acc_count _ _ _ _ (st_acc _ _ _ Hs)) as Hc. unfold refill.
  destruct (Z.ltb_spec 56 (acc_bits self)). { exists self. unfold topped_up. split_and!; try done; lia. }
  destruct (Z.leb_spec (buf_pos self + 8) (buf_len self)) as [Hle|]; [|apply refill_slow_ok; [done | lia]].
  pose proof (stream_window _ _ _ 8 Hs ltac:(lia) ltac:(lia)) as [Hw _].
  destruct Hs as [Hsz Hps Hp Hbuf Hr Hf Hrest Ha (before & Hdata & Hb) Hroom].
  rewrite slice_ok by lia. replace (buf_pos self + 8 - buf_pos self) with 8 by lia.
  pose proof (bulk_credit (acc_bits self) ltac:(lia)) as Hcredit.
  assert (Hbulk : acc_ok data pos (Z.lor (acc self) (Z.shiftr (be_combine (ztake 8 (zdrop (buf_pos self) (buf self)))) (acc_bits self))) (Z.lor (acc_bits self) 56))
    by (by apply acc_bulk).
  assert (Hs8 : 8 * Z.shiftr (63 - acc_bits self) 3 <= 63 - acc_bits self < 8 * Z.shiftr (63 - acc_bits self) 3 + 8).
  { rewrite Z.shiftr_div_pow2 by lia. Z.to_euclidean_division_equations. lia. }
  eexists. split; [reflexivity|]. unfold topped_up. cbn. split_and!; [|done | lia |].
  - constructor; cbn; try done; [lia | exists before; split; [done | lia] | lia].
  - left. lia.
Qed.

(** * Reading and peeking *)

Lemma stream_buffered self data pos n : on_stream self data pos -> n <= acc_bits self -> fits data pos n = true.
Proof.
  intros Hs Hn. destruct Hs as [_ _ Hp _ Hr Hf _ Ha (before & -> & Hb) _].
  apply Z.leb_le. unfold bit_len. rewrite !zlen_app, zlen_take by lia. pose proof (zlen_nonneg (src_rest (inner self))). lia.
Qed.

Lemma stream_topped self data pos n : on_stream self data pos -> topped_up self -> 0 <= n <= 56 ->
  (n <=? acc_bits self) = fits data pos n.
Proof.
  intros Hs Ht Hn. destruct (Z.leb_spec n (acc_bits self)) as [|Hlt]; [by rewrite (stream_buffered _ _ _ _ Hs)|].
  destruct Ht as [|[He Hd]]; [lia|]. pose proof (stream_dry _ _ _ Hs He Hd). symmetry. apply Z.leb_gt. lia.
Qed.

(** A refilled reader short of bits is at the end and says so. *)
Lemma stream_short self data pos n : on_stream self data pos -> topped_up self -> 0 <= n <= 56 -> acc_bits self < n ->
  available self = acc_bits self /\ eof self = true.
Proof. intros Hs Ht Hn Hlt. destruct Ht as [|[He Hd]]; [lia|]. unfold available. split; [lia | done]. Qed.

Lemma pass_ok self data pos n : on_stream self data pos -> 0 <= n <= acc_bits self -> on_stream (pass_bits n self) data (pos + n).
Proof.
  intros Hs Hn. pose proof (stream_buffered _ _ _ n Hs ltac:(lia)) as Hfits. unfold fits in Hfits.
  destruct Hs as [Hsz Hps Hp Hbuf Hr Hf Hrest Ha (before & Hdata & Hb) Hroom].
  constructor; cbn; try done; [rewrite Hps; apply wrap64_small; lia | lia | by apply acc_drop | exists before; split; [done | lia] | lia].
Qed.

Lemma refill_if_needed_ok self data pos : on_stream self data pos ->
  exists r, refill_if_needed self = (Ok tt, r) /\ on_stream r data pos.
Proof.
  intros Hs. unfold refill_if_needed. destruct (_ <=? _); [|by exists self].
  destruct (stream_refill_ok _ _ _ Hs) as (r & Hrun & Hr & _). by exists r.
Qed.

Lemma pass_and_refill_ok self data pos n : on_stream self data pos -> 0 <= n <= acc_bits self ->
  exists r, pass_and_refill n self = (Ok tt, r) /\ on_stream r data (pos + n).
Proof. intros Hs Hn. unfold pass_and_refill. rewrite bind_modify. by apply refill_if_needed_ok, pass_ok. Qed.

Lemma top_field self data pos n : on_stream self data pos -> 0 <= n <= acc_bits self -> n <= 32 ->
  wrap32 (Z.shiftr (acc self) (64 - n)) = field data pos n.
Proof.
  intros Hs Hn Hle. rewrite (acc_top _ _ _ _ (st_acc _ _ _ Hs) n Hn). apply Z.mod_small.
  pose proof (field_range data pos n ltac:(lia)). assert (2 ^ n <= 2 ^ 32) by (apply Z.pow_le_mono_r; lia). lia.
Qed.

Lemma stream_take_top self data pos n : on_stream self data pos -> 0 <= n <= acc_bits self -> n <= 32 ->
  exists r, take_top n self = (Ok (field data pos n), r) /\ on_stream r data (pos + n).
Proof.
  intros Hs Hn Hle. unfold take_top. rewrite bind_gets, bind_modify, (top_field _ _ _ _ Hs Hn Hle).
  destruct (refill_if_needed_ok _ _ _ (pass_ok _ _ _ _ Hs Hn)) as (r & Hrun & Hr).
  exists r. by rewrite (bind_run _ _ _ _ _ Hrun).
Qed.

Lemma stream_read_bits n : 0 <= n <= 32 -> realizes on_stream (read_bits n) (spec_read n).
Proof.
  intros Hn. apply realizes_assert; [lia|]. intros self data pos Hs. pose proof (stream_range _ _ _ Hs). unfold spec_read.
  destruct (Z.eqb_spec n 0) as [->|].
  { rewrite fits_0 by lia. exists self. by rewrite Z.add_0_r. }
  rewrite bind_gets. unfold id. destruct (Z.leb_spec n (acc_bits self)).
  { rewrite (stream_buffered _ _ _ _ Hs) by lia. apply stream_take_top; [done | lia | lia]. }
  destruct (stream_refill_ok _ _ _ Hs) as (r & Hrun & Hr & _ & _ & Ht). unfold read_bits_refill.
  rewrite (bind_run _ _ _ _ _ Hrun), bind_gets, <- (stream_topped _ _ _ n Hr Ht) by lia. unfold id.
  destruct (Z.leb_spec n (acc_bits r)) as [|Hlt]; [apply stream_take_top; [done | lia | lia]|].
  destruct (stream_short _ _ _ n Hr Ht ltac:(lia) Hlt) as [-> ->]. rewrite (proj2 (Z.ltb_lt _ _) Hlt). by exists r.
Qed.

Lemma stream_consume n : 0 <= n <= 32 -> realizes on_stream (consume_bits n) (spec_skip n).
Proof.
  intros Hn. apply realizes_assert; [lia|]. intros self data pos Hs. pose proof (stream_range _ _ _ Hs). unfold spec_skip.
  destruct (Z.eqb_spec n 0) as [->|].
  { rewrite fits_0 by lia. exists self. by rewrite Z.add_0_r. }
  rewrite bind_gets. unfold id. destruct (Z.leb_spec n (acc_bits self)).
  { rewrite (stream_buffered _ _ _ _ Hs) by lia. apply pass_and_refill_ok; [done | lia]. }
  destruct (stream_refill_ok _ _ _ Hs) as (r & Hrun & Hr & _ & _ & Ht).
  rewrite (bind_run _ _ _ _ _ Hrun), bind_gets, <- (stream_topped _ _ _ n Hr Ht) by lia. unfold id.
  destruct (Z.leb_spec n (acc_bits r)) as [|Hlt]; [apply pass_and_refill_ok; [done | lia]|].
  destruct (stream_short _ _ _ n Hr Ht ltac:(lia) Hlt) as [-> ->]. rewrite (proj2 (Z.ltb_lt _ _) Hlt). by exists r.
Qed.

Lemma stream_peek_16 mask : realizes on_stream (peek_16 mask) (v ← spec_peek16; mret (mask v)).
Proof.
  intros self data pos Hs. unfold peek_16, spec_peek16, mbind at 1, bits_spec_bind. rewrite bind_gets. unfold id.
  assert (Htop : forall r, on_stream r data pos -> 16 <= acc_bits r ->
            fits data pos 1 = true /\ mask (wrap32 (Z.shiftr (acc r) 48)) = mask (field data pos 16)).
  { intros r Hr Hge. split; [apply (stream_buffered _ _ _ _ Hr); lia|]. change 48 with (64 - 16). by rewrite (top_field _ _ _ _ Hr) by lia. }
  destruct (Z.leb_spec 16 (acc_bits self)). { destruct (Htop self) as [-> ->]; [done | done |]. by exists self. }
  destruct (stream_refill_ok _ _ _ Hs) as (r & Hrun & Hr & _ & _ & Ht).
  rewrite (bind_run _ _ _ _ _ Hrun), bind_gets. unfold id.
  destruct (Z.leb_spec 16 (acc_bits r)) as [|Hlt]. { destruct (Htop r) as [-> ->]; [done | done |]. by exists r. }
  destruct (stream_short _ _ _ 16 Hr Ht ltac:(lia) Hlt) as [Hav He]. rewrite Hav. cbv zeta.
  pose proof (stream_dry _ _ _ Hr He) as Hdry. destruct Ht as [|[_ Hd]]; [lia|]. specialize (Hdry Hd).
  pose proof (acc_count _ _ _ _ (st_acc _ _ _ Hr)). unfold fits.
  destruct (Z.eqb_spec (acc_bits r) 0), (Z.leb_spec (pos + 1) (bit_len data)); try lia; [by exists r|].
  replace (Z.min 16 (acc_bits r)) with (acc_bits r) by lia. rewrite (proj2 (Z.ltb_lt _ _) Hlt).
  exists r. split; [|done]. unfold peek_bits, debug_assert.
  rewrite (proj2 (Z.leb_le (acc_bits r) 32)), (proj2 (Z.eqb_neq _ _)) by lia.
  rewrite (bind_run _ _ _ (field data pos (acc_bits r)) r).
  - unfold mret, stateM_ret. do 3 f_equal. rewrite field_pad by lia.
    replace (acc_bits r + (16 - acc_bits r)) with 16 by lia.
    apply Z.mod_small. pose proof (field_range data pos 16 ltac:(lia)). lia.
  - rewrite bind_mret, bind_gets. unfold id. rewrite Z.leb_refl. by rewrite (top_field _ _ _ _ Hr) by lia.
Qed.

Lemma stream_peek_raw : realizes on_stream peek_16_raw spec_peek16.
Proof.
  apply (realizes_spec _ _ _ _ (stream_peek_16 (fun v => v))). intros r data pos _.
  unfold mbind, bits_spec_bind, spec_peek16. by destruct (fits data pos 1).
Qed.

Lemma stream_top_byte self data pos : on_stream self data pos -> 8 <= acc_bits self ->
  top_byte self = (Ok (field data pos 8), pass_bits 8 self) /\ on_stream (pass_bits 8 self) data (pos + 8).
Proof.
  intros Hs H8. split; [|apply pass_ok; [done | lia]]. unfold top_byte. rewrite bind_gets, bind_modify. change 56 with (64 - 8).
  rewrite (acc_top _ _ _ _ (st_acc _ _ _ Hs)) by lia. done.
Qed.

Lemma stream_read_byte : realizes on_stream read_byte (spec_read 8).
Proof.
  intros self data pos Hs. unfold read_byte, spec_read. rewrite bind_gets. unfold id.
  destruct (Z.ltb_spec (acc_bits self) 8).
  - destruct (stream_refill_ok _ _ _ Hs) as (r & Hrun & Hr & _ & _ & Ht).
    rewrite (bind_run _ _ _ _ _ Hrun), bind_gets, <- (stream_topped _ _ _ 8 Hr Ht), Z.ltb_antisym by lia. unfold id.
    destruct (Z.leb_spec 8 (acc_bits r)) as [H8|]; cbn [negb]; [|by exists r].
    destruct (stream_top_byte _ _ _ Hr H8) as [-> ?]. by eexists.
  - rewrite (stream_buffered _ _ _ _ Hs) by lia. destruct (stream_top_byte _ _ _ Hs ltac:(lia)) as [-> ?]. by eexists.
Qed.

Lemma stream_byte_or_zero_case self data pos : on_stream self data pos ->
  exists r, on_stream r data pos /\ zeros r = zeros self /\ (8 <=? acc_bits r) = fits data pos 8 /\
    read_byte_or_zero self = if fits data pos 8 then (Ok (field data pos 8), pass_bits 8 r) else invent_zero r.
Proof.
  intros Hs. unfold read_byte_or_zero. rewrite bind_gets. unfold id. destruct (Z.ltb_spec (acc_bits self) 8).
  - destruct (stream_refill_ok _ _ _ Hs) as (r & Hrun & Hr & Hz & _ & Ht). pose proof (stream_topped _ _ _ 8 Hr Ht ltac:(lia)) as Hfits.
    exists r. split_and!; try done. rewrite (bind_run _ _ _ true r) by (unfold succeeds; by rewrite Hrun).
    rewrite bind_gets, <- Hfits, Z.ltb_antisym. unfold id. cbn [negb orb].
    destruct (Z.leb_spec 8 (acc_bits r)) as [H8|]; cbn [negb]; [|done]. by destruct (stream_top_byte _ _ _ Hr H8) as [-> _].
  - exists self. rewrite (stream_buffered _ _ _ _ Hs) by lia. split_and!; try done; [lia|].
    by destruct (stream_top_byte _ _ _ Hs ltac:(lia)) as [-> _].
Qed.

Lemma stream_byte_or_zero : realizes on_stream read_byte_or_zero spec_byte_or_zero.
Proof.
  intros self data pos Hs. unfold spec_byte_or_zero.
  destruct (stream_byte_or_zero_case _ _ _ Hs) as (r & Hr & _ & Hfits & ->).
  destruct (fits data pos 8); eexists; (split; [done|]); [apply pass_ok; [done | lia]|]. destruct Hr. by constructor.
Qed.

Lemma stream_zero_bytes self data pos : on_stream self data pos ->
  zeros (read_byte_or_zero self).2 = if fits data pos 8 then zeros self else Z.min (zeros self + 1) (2 ^ 32 - 1).
Proof.
  intros Hs. destruct (stream_byte_or_zero_case _ _ _ Hs) as (r & Hr & <- & Hfits & ->). by destruct (fits data pos 8).
Qed.

(** * Moving *)

Lemma skip_loop_ok fuel n : 0 <= n -> n <= 32 * (Z.of_nat fuel - 1) -> realizes on_stream (skip_loop fuel n) (spec_skip n).
Proof.
  revert n. induction fuel as [|fuel IH]; intros n Hn Hf self data pos Hs; [lia|]. unfold spec_skip. cbn [skip_loop].
  pose proof (stream_range _ _ _ Hs). destruct (Z.ltb_spec 0 n).
  2: { replace n with 0 by lia. rewrite fits_0 by lia. exists self. by rewrite Z.add_0_r. }
  pose proof (stream_consume (Z.min n 32) ltac:(lia) self data pos Hs) as Hstep. unfold spec_skip, fits in Hstep.
  destruct (Z.leb_spec (pos + Z.min n 32) (bit_len data)) as [Hle|Hlt].
  - destruct Hstep as (r & Hrun & Hr). cbv zeta. rewrite (bind_run _ _ _ _ _ Hrun).
    pose proof (IH (n - Z.min n 32) ltac:(lia) ltac:(lia) r data _ Hr) as Hrest. unfold spec_skip, fits in *.
    replace (pos + Z.min n 32 + (n - Z.min n 32)) with (pos + n) in Hrest by lia. done.
  - destruct Hstep as (r & Hrun). unfold fits. rewrite (proj2 (Z.leb_gt _ _)) by lia. exists r. cbv zeta. by rewrite (bind_run_err _ _ _ _ _ Hrun).
Qed.

Lemma stream_skip_bits n : 0 <= n < 2 ^ 32 -> realizes on_stream (skip_bits n) (spec_skip n).
Proof. intros Hn. apply skip_loop_ok; [lia|]. Z.to_euclidean_division_equations. lia. Qed.

Lemma stream_align : realizes on_stream align_byte spec_align.
Proof.
  intros self data pos Hs. unfold align_byte, spec_align. rewrite bind_gets, (st_pos _ _ _ Hs).
  pose proof (stream_range _ _ _ Hs) as Hrange. unfold bit_len in Hrange.
  destruct (Z.eqb_spec (pos mod 8) 0); cbn [negb].
  { exists self. split; [done|]. by replace (8 * ((pos + 7) / 8)) with pos by (Z.to_euclidean_division_equations; lia). }
  pose proof (stream_consume (8 - pos mod 8) ltac:(Z.to_euclidean_division_equations; lia) self data pos Hs) as Hstep.
  unfold spec_skip, fits in Hstep.
  rewrite (proj2 (Z.leb_le _ _)) in Hstep by (unfold bit_len; Z.to_euclidean_division_equations; lia).
  by replace (8 * ((pos + 7) / 8)) with (pos + (8 - pos mod 8)) by (Z.to_euclidean_division_equations; lia).
Qed.

(** * What is left *)

Lemma stream_remaining : realizes on_stream (n ← bits_remaining; mret (negb (n =? 0))) spec_has_bits.
Proof.
  intros self data pos Hs. unfold spec_has_bits.
  assert (Hdone : forall r, on_stream r data pos -> eof r = true -> negb (buffered r =? 0) = fits data pos 1).
  { intros r Hr He. destruct Hr as [_ _ Hp _ Hrg Hf Hrest Ha (before & -> & Hb) _]. pose proof (acc_count _ _ _ _ Ha).
    unfold buffered, fits, bit_len. rewrite (Hrest He), app_nil_r, zlen_app, zlen_take by lia.
    destruct (Z.eqb_spec (acc_bits r + Z.max 0 (buf_len r - buf_pos r) * 8) 0),
      (Z.leb_spec (pos + 1) (8 * (zlen before + Z.min (buf_len r) (zlen (buf r))))); done || lia. }
  assert (Hm : exists n r, bits_remaining self = (Ok n, r) /\ on_stream r data pos /\ negb (n =? 0) = fits data pos 1).
  { unfold bits_remaining. rewrite bind_gets. unfold id. destruct (eof self) eqn:He.
    { exists (buffered self), self. split_and!; try done. by apply Hdone. }
    destruct (stream_refill_ok _ _ _ Hs) as (r & Hrun & Hr & _ & _ & Ht).
    rewrite (bind_run _ _ _ true r) by (unfold succeeds; by rewrite Hrun). rewrite bind_gets. unfold id.
    eexists _, r. split; [done|]. split; [done|]. destruct (eof r) eqn:He'; [by apply Hdone|].
    destruct Ht as [Ht|[]]; [|congruence]. rewrite (stream_buffered _ _ _ 1 Hr) by lia.
    pose proof (acc_count _ _ _ _ (st_acc _ _ _ Hr)). unfold sat_add_u64, buffered. rewrite (proj2 (Z.eqb_neq _ _)) by lia. done. }
  destruct Hm as (n & r & Hrun & Hr & <-). exists r. by rewrite (bind_run _ _ _ _ _ Hrun).
Qed.

Lemma stream_remaining_least n : 0 < n <= 56 -> realizes on_stream (left ← bits_remaining; mret (n <=? left)) (spec_exact n).
Proof.
  intros Hn self data pos Hs. unfold spec_exact.
  assert (Hdone : forall r, on_stream r data pos -> eof r = true -> (n <=? buffered r) = fits data pos n).
  { intros r Hr He. destruct Hr as [_ _ Hp _ Hrg Hf Hrest Ha (before & -> & Hb) _]. pose proof (acc_count _ _ _ _ Ha).
    unfold buffered, fits, bit_len. rewrite (Hrest He), app_nil_r, zlen_app, zlen_take by lia.
    destruct (Z.leb_spec n (acc_bits r + Z.max 0 (buf_len r - buf_pos r) * 8)),
      (Z.leb_spec (pos + n) (8 * (zlen before + Z.min (buf_len r) (zlen (buf r))))); done || lia. }
  assert (Hm : exists m r, bits_remaining self = (Ok m, r) /\ on_stream r data pos /\ (n <=? m) = fits data pos n).
  { unfold bits_remaining. rewrite bind_gets. unfold id. destruct (eof self) eqn:He.
    { exists (buffered self), self. split_and!; try done. by apply Hdone. }
    destruct (stream_refill_ok _ _ _ Hs) as (r & Hrun & Hr & _ & _ & Ht).
    rewrite (bind_run _ _ _ true r) by (unfold succeeds; by rewrite Hrun). rewrite bind_gets. unfold id.
    eexists _, r. split; [done|]. split; [done|]. destruct (eof r) eqn:He'; [by apply Hdone|].
    destruct Ht as [Ht|[]]; [|congruence]. rewrite (stream_buffered _ _ _ n Hr) by lia.
    pose proof (acc_count _ _ _ _ (st_acc _ _ _ Hr)). unfold sat_add_u64, buffered. apply Z.leb_le. lia. }
  destruct Hm as (m & r & Hrun & Hr & <-). exists r. by rewrite (bind_run _ _ _ _ _ Hrun).
Qed.

Lemma stream_has_bits : realizes on_stream has_bits spec_has_bits.
Proof.
  intros self data pos Hs. unfold has_bits, spec_has_bits. rewrite bind_gets. unfold id.
  pose proof (acc_count _ _ _ _ (st_acc _ _ _ Hs)) as Hc.
  assert (Hmore : forall r, on_stream r data pos -> 0 <= acc_bits r -> buf_pos r < buf_len r -> fits data pos 1 = true).
  { intros r Hr Hn Hlt. destruct (stream_window _ _ _ 1 Hr ltac:(lia) ltac:(lia)) as [_ Hfits].
    unfold fits in *. lia. }
  destruct (Z.ltb_spec 0 (acc_bits self)) as [|Hz]; cbn [orb].
  { rewrite (stream_buffered _ _ _ _ Hs) by lia. by exists self. }
  destruct (Z.ltb_spec (buf_pos self) (buf_len self)) as [Hlt|Hge].
  { rewrite (Hmore self) by (done || lia). by exists self. }
  pose proof (st_range _ _ _ Hs). destruct (eof self) eqn:He.
  { pose proof (stream_dry _ _ _ Hs He ltac:(lia)). unfold fits. rewrite (proj2 (Z.leb_gt _ _)) by lia. by exists self. }
  destruct (fill_ok _ _ _ Hs) as (r & Hrun & Hr & _ & Hbits & _ & Hfill).
  rewrite (bind_run _ _ _ true r) by (unfold succeeds; by rewrite Hrun). rewrite bind_gets. unfold id. exists r. split; [|done].
  destruct Hfill as [Hlt|[He' Hd]].
  - rewrite (proj2 (Z.ltb_lt _ _) Hlt), (Hmore r) by (done || lia). done.
  - pose proof (stream_dry _ _ _ Hr He' Hd). rewrite (proj2 (Z.ltb_ge _ _)) by lia.
    unfold fits. by rewrite (proj2 (Z.leb_gt _ _)) by lia.
Qed.

Lemma stream_exact n : 0 <= n <= 56 -> realizes on_stream (has_exact_bits n) (spec_exact n).
Proof.
  intros Hn self data pos Hs. unfold has_exact_bits, spec_exact.
  destruct (stream_refill_ok _ _ _ Hs) as (r & Hrun & Hr & _ & _ & Ht).
  rewrite (bind_run _ _ _ _ _ Hrun), bind_gets, <- (stream_topped _ _ _ n Hr Ht) by lia. unfold id.
  exists r. split; [|done]. unfold mret, stateM_ret, buffered. do 2 f_equal.
  destruct Ht as [|[_ Hd]]; [|by rewrite Hd, Z.sub_diag, Z.add_0_r].
  destruct (Z.leb_spec n (acc_bits r)), (Z.leb_spec n (acc_bits r + Z.max 0 (buf_len r - buf_pos r) * 8)); done || lia.
Qed.

(** * Spans *)

(** The state after a bulk load. *)
Definition bulk self : t R :=
  set_buf_pos (buf_pos self + Z.shiftr (63 - acc_bits self) 3)
    (set_acc (Z.lor (acc self) (Z.shiftr (be_combine (ztake 8 (zdrop (buf_pos self) (buf self)))) (acc_bits self))) (Z.lor (acc_bits self) 56) self).

Lemma refill_bulk self : 0 <= buf_pos self -> acc_bits self <= 56 -> buf_pos self + 8 <= buf_len self <= zlen (buf self) ->
  refill self = (Ok tt, bulk self).
Proof.
  intros Hp Hle Hr. unfold refill. rewrite (proj2 (Z.ltb_ge _ _)), (proj2 (Z.leb_le _ _)), slice_ok by lia.
  by replace (buf_pos self + 8 - buf_pos self) with 8 by lia.
Qed.

(** A seek inside the fill, from a state whose accumulator does not straddle. *)
Lemma stream_seek self data pos p q : on_stream self data pos -> acc_bits self <= 8 * buf_pos self -> 0 <= p <= 8 * buf_len self ->
  p mod 8 = 0 \/ p / 8 + 8 <= buf_len self -> q = pos + (p - (8 * buf_pos self - acc_bits self)) ->
  exists r, seek_to_buffer_bit p (set_bit_pos q self) = (Ok tt, r) /\ on_stream r data q.
Proof.
  intros Hs Hns Hp Hend Hq. pose proof Hs as [Hsz Hps Hpos Hbuf Hr Hf Hrest Ha (before & Hdata & Hb) Hroom].
  pose proof (zlen_nonneg before). set (base := 8 * (zlen before + p / 8)).
  set (at_byte b := set_acc 0 0 (set_buf_pos (p / 8) (set_bit_pos b self))).
  assert (H0' : on_stream (at_byte base) data base).
  { unfold base. constructor; cbn; try done; [Z.to_euclidean_division_equations; lia | Z.to_euclidean_division_equations; lia | apply acc_empty | exists before; split; [done | lia] | Z.to_euclidean_division_equations; lia]. }
  unfold seek_to_buffer_bit. rewrite bind_modify.
  replace (Z.shiftr p 3) with (p / 8) by by rewrite Z.shiftr_div_pow2 by lia.
  replace (Z.land p 7) with (p mod 8) by by (change 7 with (Z.ones 3); rewrite Z.land_ones by lia).
  pose proof (Z.mod_pos_bound p 8 ltac:(lia)) as Hm. pose proof (Z.div_mod p 8 ltac:(lia)) as Hdm.
  change (set_acc 0 0 (set_buf_pos (p / 8) (set_bit_pos q self))) with (at_byte q).
  destruct (Z.eqb_spec (p mod 8) 0) as [Hz|Hnz]; cbn [negb].
  { exists (at_byte q). assert (q = base) as -> by (unfold base; lia). split; [|done].
    rewrite bind_mret, bind_gets. unfold id, debug_assert. rewrite bool_decide_eq_true_2; [done|].
    unfold buffer_bit_position, checked_sub_u64, at_byte. cbn. case_match; [f_equal; lia | lia]. }
  destruct Hend as [|Hend]; [lia|].
  assert (Hbulk : forall b, refill (at_byte b) = (Ok tt, bulk (at_byte b))).
  { intros b. apply refill_bulk; cbn; lia. }
  destruct (stream_refill_ok _ _ _ H0') as (r & Hrun & Hr' & _). rewrite Hbulk in Hrun. injection Hrun as <-.
  assert (Hpass : on_stream (pass_bits (p mod 8) (bulk (at_byte base))) data (base + p mod 8)) by (apply pass_ok; [done | change (acc_bits (bulk (at_byte base))) with 56; lia]).
  exists (drop_bits (p mod 8) (bulk (at_byte q))). split.
  - rewrite (bind_run _ _ _ tt (drop_bits (p mod 8) (bulk (at_byte q)))).
    + rewrite bind_gets. unfold id, debug_assert. rewrite bool_decide_eq_true_2; [done|].
      unfold buffer_bit_position, checked_sub_u64.
      change (buf_pos (drop_bits _ _)) with (p / 8 + 7). change (acc_bits (drop_bits _ _)) with (56 - p mod 8).
      case_match; [f_equal; lia | lia].
    + rewrite (bind_run _ _ _ _ _ (Hbulk q)), bind_gets. unfold id. change (acc_bits (bulk (at_byte q))) with 56. by rewrite (proj2 (Z.ltb_ge 56 _)) by lia.
  - assert (q = base + p mod 8) as -> by (unfold base; lia).
    destruct Hpass as [? Hps' ? ? ? ? ? ? ? ?]. by constructor.
Qed.

Lemma not_straddling self : buffer_bit_position self = Some (8 * buf_pos self - acc_bits self) <-> acc_bits self <= 8 * buf_pos self.
Proof.
  unfold buffer_bit_position, checked_sub_u64. case_match; split; intros; try lia; try congruence; try (f_equal; lia).
Qed.

Lemma straddling self : buffer_bit_position self = None -> 8 * buf_pos self < acc_bits self.
Proof. unfold buffer_bit_position, checked_sub_u64. case_match; [done | lia]. Qed.

Lemma stream_lease {T} (f : LzSpan -> Z * T) self data pos : on_stream self data pos ->
  (forall span, start_bit span < border_bit span -> start_bit span <= (f span).1 <= border_bit span + 8 * 16) ->
  (exists r', lease_lz_span f self = (Ok None, r') /\ on_stream r' data pos) \/
  (exists span r', lease_lz_span f self = (Ok (Some (f span).2), r') /\
     start_bit span < border_bit span /\ border_bit span + 8 * LZ_SPAN_SLACK_BYTES = bit_len (span_data span) /\
     (forall k, 0 <= k < bit_len (span_data span) - start_bit span ->
        bit_at (span_data span) (start_bit span + k) = bit_at data (pos + k)) /\
     on_stream r' data (pos + ((f span).1 - start_bit span))).
Proof.
  intros Hs Hf. unfold lease_lz_span, LZ_SPAN_SLACK_BYTES.
  pose proof (stream_range _ _ _ Hs) as Hrange.
  destruct (checked_sub_u64 (buf_len self) 32) as [border|] eqn:Hborder; [|left; by exists self].
  assert (border = buf_len self - 32) as -> by (revert Hborder; unfold checked_sub_u64; case_match; [by intros [= <-] | done]).
  destruct (buffer_bit_position self) as [start|] eqn:Hstart; [|left; by exists self].
  destruct (Z.leb_spec ((buf_len self - 32) * 8) start); [left; by exists self|]. right.
  assert (Hns : acc_bits self <= 8 * buf_pos self).
  { revert Hstart. unfold buffer_bit_position, checked_sub_u64. case_match; [lia | done]. }
  rewrite (proj2 (not_straddling self) Hns) in Hstart. injection Hstart as <-.
  set (span := mk_span _ _ _). specialize (Hf span ltac:(cbn; lia)). exists span. destruct (f span) as [e v]. cbn in Hf |- *.
  pose proof Hs as [Hsz Hps Hpos Hbuf Hr Hfl Hrest Ha (before & Hdata & Hb) Hroom].
  unfold debug_assert. rewrite (proj2 (Z.leb_le _ e)), (proj2 (Z.leb_le e _)) by lia. cbn [andb].
  rewrite bind_mret, bind_modify, Hps.
  assert (Hq : pos + (e - (8 * buf_pos self - acc_bits self)) <= bit_len data).
  { rewrite Hdata. unfold bit_len. rewrite !zlen_app, zlen_take by lia. pose proof (zlen_nonneg (src_rest (inner self))). lia. }
  rewrite wrap64_small by lia.
  destruct (stream_seek self data pos e _ Hs Hns ltac:(lia) ltac:(right; Z.to_euclidean_division_equations; lia) eq_refl) as (r & Hrun & Hr').
  exists r. rewrite (bind_run _ _ _ _ _ Hrun). unfold bit_len at 1. rewrite zlen_take by lia.
  split_and!; try done; [lia |]. unfold bit_len. rewrite zlen_take by lia.
  intros k Hk. rewrite Hdata. pose proof (zlen_nonneg before).
  replace (pos + k) with (bit_len before + (8 * buf_pos self - acc_bits self + k)) by (unfold bit_len; lia).
  rewrite bit_at_app_r, bit_at_app_l; [done | unfold bit_len; rewrite zlen_take by lia; lia | lia].
Qed.

Lemma held_bytes_ok self data pos : on_stream self data pos -> pos mod 8 = 0 ->
  acc_bits self mod 8 = 0 /\ held_bytes self = ztake (acc_bits self / 8) (zdrop (pos / 8) data) /\
  zdrop (pos / 8 + acc_bits self / 8) data = zdrop (buf_pos self) (ztake (buf_len self) (buf self)) ++ src_rest (inner self).
Proof.
  intros Hs Hal. pose proof Hs as [Hsz Hps Hpos Hbuf Hr Hf Hrest Ha (before & Hdata & Hb) Hroom].
  pose proof (acc_count _ _ _ _ Ha) as Hc. pose proof (stream_buffered _ _ _ (acc_bits self) Hs ltac:(lia)) as Hfits.
  unfold fits, bit_len in Hfits. assert (Hmod : acc_bits self mod 8 = 0) by (Z.to_euclidean_division_equations; lia).
  assert (Hh : 0 <= acc_bits self / 8 <= 8) by (Z.to_euclidean_division_equations; lia).
  assert (Hp8 : 0 <= pos / 8) by (Z.to_euclidean_division_equations; lia).
  split; [done|]. split.
  - apply (list_eq_same_length _ _ (Z.to_nat (acc_bits self / 8))).
    + apply Nat2Z.inj. change (zlen (ztake (acc_bits self / 8) (zdrop (pos / 8) data)) = Z.of_nat (Z.to_nat (acc_bits self / 8))).
      rewrite zlen_take, zlen_drop by lia. Z.to_euclidean_division_equations; lia.
    + unfold held_bytes. rewrite length_fmap, length_seq. reflexivity.
    + intros k b1 b2 Hk H1 H2. unfold held_bytes in H1.
      rewrite list_lookup_fmap, (lookup_seq_lt 0) in H1 by lia. cbn in H1. injection H1 as <-.
      rewrite ztake_nat, zdrop_nat, lookup_take_lt, lookup_drop in H2 by lia.
      assert (Hbit : 8 * Z.of_nat k + 8 <= acc_bits self) by (Z.to_euclidean_division_equations; lia).
      replace (56 - 8 * Z.of_nat k) with (64 - (8 * Z.of_nat k + 8)) by lia. rewrite (acc_top _ _ _ _ Ha) by lia.
      apply u8_inj. rewrite u8_byte_of, field_app by lia. rewrite Z.add_comm, Z.mod_add by lia.
      replace (pos + 8 * Z.of_nat k) with (8 * (pos / 8 + Z.of_nat k)) by (Z.to_euclidean_division_equations; lia).
      rewrite field_byte by lia. rewrite Z.mod_small by apply u8_range. f_equal.
      rewrite nth_lookup. replace (Z.to_nat (pos / 8 + Z.of_nat k)) with (Z.to_nat (pos / 8) + k)%nat by lia. by rewrite H2.
  - replace (pos / 8 + acc_bits self / 8) with (zlen before + buf_pos self) by (Z.to_euclidean_division_equations; lia).
    pose proof (zlen_nonneg before). rewrite Hdata, zdrop_app_ge by lia.
    replace (zlen before + buf_pos self - zlen before) with (buf_pos self) by lia.
    apply zdrop_app_le. rewrite zlen_take; lia.
Qed.

(** Reading more bytes behind the fill of an empty accumulator. *)
Lemma top_up_more fuel min self data pos : on_stream self data pos -> buf_pos self = 0 -> acc_bits self = 0 ->
  0 <= min <= STREAMING_INPUT_BUFFER_SIZE -> min - buf_len self + 1 < Z.of_nat fuel -> (0 < fuel)%nat ->
  exists r, top_up fuel min self = (Ok tt, r) /\ on_stream r data pos /\ buf_pos r = 0 /\ acc_bits r = 0 /\
    (min <= buf_len r \/ eof r = true).
Proof.
  revert self. induction fuel as [|fuel IH]; intros self Hs Hp0 Ha0 Hmin Hfuel Hpos; [lia|]. cbn [top_up].
  destruct (Z.ltb_spec (buf_len self) min) as [Hlt|]; cbn [andb]; [|exists self; split_and!; try done; by left].
  destruct (eof self) eqn:He; cbn [negb]; [exists self; split_and!; try done; by right|]. cbv zeta.
  pose proof Hs as [Hsz Hps Hnn Hbuf Hr Hf Hrest Ha (before & Hdata & Hb) Hroom].
  unfold fill_limit, STREAMING_INPUT_BUFFER_SIZE, STREAMING_STRADDLE_HEADROOM in *.
  destruct (src_read_law (inner self) (Z.min (buf_len self + (zlen (buf self) - 8)) (zlen (buf self)) - buf_len self)) as (bytes & r & Hread & Hcat & Hlen & Hnil); [lia|].
  set (new_buf := ztake (buf_len self) (buf self) ++ bytes ++ zdrop (buf_len self + zlen bytes) (buf self)).
  pose proof (zlen_nonneg bytes) as Hb0.
  assert (Htake : ztake (buf_len self + zlen bytes) new_buf = ztake (buf_len self) (buf self) ++ bytes).
  { unfold new_buf. rewrite app_assoc. replace (buf_len self + zlen bytes) with (zlen (ztake (buf_len self) (buf self) ++ bytes)) at 1
      by (rewrite zlen_app, zlen_take; lia). apply ztake_app_zlen. }
  assert (Hnew : zlen new_buf = zlen (buf self)).
  { unfold new_buf. rewrite !zlen_app, zlen_take, zlen_drop by lia. lia. }
  set (next := mk r new_buf (buf_pos self) (buf_len self + zlen bytes) (acc self) (acc_bits self)
                 (if zlen bytes =? 0 then true else eof self) (bit_pos self) (zeros self)).
  assert (Hnext : on_stream next data pos).
  { unfold next. clearbody new_buf. constructor; cbn; rewrite ?Hnew; try done;
      unfold STREAMING_INPUT_BUFFER_SIZE, STREAMING_STRADDLE_HEADROOM; try lia.
    - destruct (Z.eqb_spec (zlen bytes) 0) as [Hz|]; [|congruence].
      intros _. apply zlen_0_nil in Hz. by rewrite (Hnil Hz), Hz in Hcat.
    - exists before. rewrite Htake, <- app_assoc, <- Hcat. done. }
  rewrite (bind_run _ _ _ (zlen bytes) (mk r new_buf (buf_pos self) (buf_len self) (acc self) (acc_bits self) (eof self) (bit_pos self) (zeros self)))
    by (unfold read_into; by rewrite Hread).
  rewrite bind_modify. change (mk _ _ _ _ _ _ _ _ _) with next.
  destruct (Z.eqb_spec (zlen bytes) 0) as [Hz|Hnz].
  - assert (Hend : eof next = true) by done.
    destruct fuel as [|fuel]; [lia|]. exists next. cbn [top_up]. rewrite Hend, andb_false_r. split_and!; try done. by right.
  - apply IH; try done; cbn; lia.
Qed.

Lemma gather_ok min self data pos : on_stream self data pos -> pos mod 8 = 0 -> 0 <= min <= STREAMING_INPUT_BUFFER_SIZE ->
  exists r, gather_byte_span min self = (Ok tt, r) /\ on_stream r data pos /\ buf_pos r = 0 /\ acc_bits r = 0 /\
    (min <= buf_len r \/ eof r = true).
Proof.
  intros Hs Hal Hmin. destruct (held_bytes_ok _ _ _ Hs Hal) as (Hmod & Hheld & Htail).
  pose proof Hs as [Hsz Hps Hnn Hbuf Hr Hf Hrest Ha (before & Hdata & Hb) Hroom].
  pose proof (acc_count _ _ _ _ Ha) as Hc. unfold STREAMING_STRADDLE_HEADROOM in *.
  assert (Hh : 0 <= acc_bits self / 8 <= 8 /\ 8 * (acc_bits self / 8) = acc_bits self) by (Z.to_euclidean_division_equations; lia).
  assert (Hp8 : 0 <= pos / 8 /\ 8 * (pos / 8) = pos) by (Z.to_euclidean_division_equations; lia).
  unfold gather_byte_span. rewrite bind_gets. unfold id, debug_assert. rewrite (proj2 (Z.eqb_eq _ _) Hmod), bind_mret. cbv zeta.
  set (held := acc_bits self / 8) in *. set (tail := buf_len self - buf_pos self).
  rewrite (proj2 (Z.leb_le (held + tail) _)), bind_mret by lia.
  set (moved := ztake tail (zdrop (buf_pos self) (buf self))).
  assert (Hmoved : zlen moved = tail) by (unfold moved; rewrite zlen_take, zlen_drop; lia).
  rewrite (bind_run _ _ _ moved self) by (unfold lift; rewrite slice_ok by lia; done).
  set (shifted := ztake held (buf self) ++ moved ++ zdrop (held + tail) (buf self)).
  assert (Hshifted : zlen shifted = zlen (buf self)) by (unfold shifted; rewrite !zlen_app, zlen_take, zlen_drop by lia; lia).
  rewrite (bind_run _ _ _ shifted self) by (unfold lift, copy_range;
    rewrite (proj2 (Z.leb_le 0 held)), (proj2 (Z.leb_le held _)), (proj2 (Z.leb_le (held + tail) _)), (proj2 (Z.eqb_eq _ _)) by lia; done).
  assert (Hheldlen : zlen (held_bytes self) = held) by (unfold held_bytes, zlen; rewrite length_fmap, length_seq; lia).
  set (laid := held_bytes self ++ zdrop held shifted).
  rewrite (bind_run _ _ _ laid self).
  2: { unfold lift, copy_range. rewrite (proj2 (Z.leb_le 0 0)), (proj2 (Z.leb_le 0 held)), (proj2 (Z.leb_le held _)), (proj2 (Z.eqb_eq _ _)) by lia.
       cbn [andb]. unfold laid. rewrite (ztake_nat 0) by lia. done. }
  rewrite bind_modify.
  set (self' := mk _ laid _ _ _ _ _ _ _).
  assert (Htake : ztake (held + tail) laid = held_bytes self ++ moved).
  { unfold laid, shifted. rewrite zdrop_app_ge by (rewrite zlen_take by lia; lia). rewrite zlen_take by lia.
    replace (held - Z.min held (zlen (buf self))) with 0 by lia. rewrite zdrop_0, app_assoc.
    replace (held + tail) with (zlen (held_bytes self ++ moved)) at 1 by (rewrite zlen_app; lia). apply ztake_app_zlen. }
  assert (Hlaid : zlen laid = zlen (buf self)) by (unfold laid; rewrite zlen_app, zlen_drop by lia; lia).
  assert (Hs' : on_stream self' data pos).
  { constructor; cbn; rewrite ?Hlaid; try done; unfold STREAMING_STRADDLE_HEADROOM; try lia; [apply acc_empty|].
    exists (ztake (pos / 8) data). rewrite Htake, Hheld. pose proof (stream_range _ _ _ Hs) as Hrg. unfold bit_len in Hrg.
    split; [|rewrite zlen_take; lia].
    assert (Hm : moved = zdrop (buf_pos self) (ztake (buf_len self) (buf self))).
    { unfold moved. rewrite <- (window_take (buf self) (buf_len self)) by lia. apply ztake_all. rewrite zlen_drop, zlen_take by lia. lia. }
    rewrite Hm, <- app_assoc, <- Htail, <- (zdrop_zdrop held (pos / 8)), (ztake_zdrop held), ztake_zdrop by lia. done. }
  destruct (top_up_more (Z.to_nat min + 2) min self' data pos Hs' eq_refl eq_refl Hmin) as (r & Hrun & Hr' & Hr0 & Ha0 & Hmore);
    [cbn; lia | lia |].
  exists r. rewrite (bind_run _ _ _ _ _ Hrun), bind_gets. unfold id. split_and!; try done.
  rewrite bool_decide_eq_true_2; [done|]. unfold buffer_bit_position, checked_sub_u64. by rewrite Hr0, Ha0.
Qed.

(** Bytes of the fill from an aligned cursor on. *)
Lemma aligned_span self data pos : on_stream self data pos -> pos mod 8 = 0 -> acc_bits self <= 8 * buf_pos self ->
  let start := (8 * buf_pos self - acc_bits self) / 8 in
  0 <= start <= buf_len self /\
  zdrop (pos / 8) data = zdrop start (ztake (buf_len self) (buf self)) ++ src_rest (inner self).
Proof.
  intros Hs Hal Hns start. destruct (held_bytes_ok _ _ _ Hs Hal) as (Hmod & _ & _).
  pose proof Hs as [Hsz Hps Hnn Hbuf Hr Hf Hrest Ha (before & Hdata & Hb) Hroom]. pose proof (zlen_nonneg before).
  pose proof (acc_count _ _ _ _ Ha).
  assert (Hst : 0 <= start <= buf_len self) by (unfold start; Z.to_euclidean_division_equations; lia).
  split; [done|]. replace (pos / 8) with (zlen before + start) by (unfold start; Z.to_euclidean_division_equations; lia).
  rewrite Hdata, zdrop_app_ge by lia. replace (zlen before + start - zlen before) with start by lia.
  apply zdrop_app_le. rewrite zlen_take; lia.
Qed.

Lemma lend_ok self data pos min : on_stream self data pos -> pos mod 8 = 0 -> acc_bits self <= 8 * buf_pos self ->
  let start := (8 * buf_pos self - acc_bits self) / 8 in
  min <= buf_len self - start \/ eof self = true ->
  exists span, ((span ← lift (slice (buf self) start (buf_len self)); mret (Some (span, eof self))) : stateM (t R) rar_error _) self = (Ok (Some (span, eof self)), self) /\
    span `prefix_of` zdrop (pos / 8) data /\ (min <= zlen span \/ eof self = true) /\
    (eof self = true -> span = zdrop (pos / 8) data) /\
    forall count, 0 <= count <= zlen span ->
      exists r'', consume_byte_span count self = (Ok tt, r'') /\ on_stream r'' data (pos + 8 * count).
Proof.
  intros Hs Hal Hns start Hmore. destruct (aligned_span _ _ _ Hs Hal Hns) as [Hst Hdrop]. fold start in Hst, Hdrop.
  pose proof (st_fill _ _ _ Hs) as Hfill. pose proof (stream_range _ _ _ Hs) as Hrange.
  destruct (held_bytes_ok _ _ _ Hs Hal) as (Hmod & _ & _).
  set (span := zdrop start (ztake (buf_len self) (buf self))). fold span in Hdrop.
  assert (Hlen : zlen span = buf_len self - start) by (unfold span; rewrite zlen_drop, zlen_take by lia; lia).
  exists span. split_and!.
  - unfold lift. rewrite slice_ok by lia.
    replace (ztake (buf_len self - start) (zdrop start (buf self))) with span; [done|].
    unfold span. rewrite <- (window_take (buf self) (buf_len self)) by lia. symmetry. apply ztake_all. rewrite zlen_drop, zlen_take; lia.
  - rewrite Hdrop. by apply prefix_app_r.
  - destruct Hmore; [left; lia | by right].
  - intros He. rewrite Hdrop, (st_eof _ _ _ Hs He). by rewrite app_nil_r.
  - intros count Hc. unfold consume_byte_span. destruct (Z.eqb_spec count 0) as [->|].
    { exists self. by rewrite Z.mul_0_r, Z.add_0_r. }
    rewrite bind_gets. unfold id. rewrite (proj2 (not_straddling self) Hns). fold start. unfold debug_assert.
    rewrite (proj2 (Z.leb_le (start + count) _)), bind_mret, bind_modify by lia.
    pose proof (st_pos _ _ _ Hs) as Hps. pose proof (st_size _ _ _ Hs). pose proof (st_nonneg _ _ _ Hs).
    assert (Hend : pos + 8 * count <= bit_len data).
    { assert (zlen (zdrop (pos / 8) data) = zlen span + zlen (src_rest (inner self))) as Hz by (rewrite Hdrop, zlen_app; done).
      pose proof (zlen_nonneg (src_rest (inner self))). unfold bit_len in *. rewrite zlen_drop in Hz by (Z.to_euclidean_division_equations; lia).
      Z.to_euclidean_division_equations; lia. }
    assert (Hstart : 8 * start = 8 * buf_pos self - acc_bits self) by (unfold start; Z.to_euclidean_division_equations; lia).
    rewrite Hps, wrap64_small by lia.
    destruct (stream_seek self data pos (8 * buf_pos self - acc_bits self + count * 8) (pos + count * 8) Hs Hns) as (r & Hrun & Hr);
      [lia | left; Z.to_euclidean_division_equations; lia | lia |].
    exists r. rewrite (bind_run _ _ _ true r) by (unfold succeeds; by rewrite Hrun). rewrite (Z.mul_comm 8). done.
Qed.

Lemma stream_byte_span self data pos min : on_stream self data pos -> 0 <= min <= 0x80000 ->
  if pos mod 8 =? 0 then
    exists span eof r', byte_span min self = (Ok (Some (span, eof)), r') /\ on_stream r' data pos /\
      span `prefix_of` zdrop (pos / 8) data /\ (min <= zlen span \/ eof = true) /\
      (eof = true -> span = zdrop (pos / 8) data) /\
      forall count, 0 <= count <= zlen span ->
        exists r'', consume_byte_span count r' = (Ok tt, r'') /\ on_stream r'' data (pos + 8 * count)
  else exists r', byte_span min self = (Ok None, r') /\ on_stream r' data pos.
Proof.
  intros Hs Hmin. unfold byte_span. rewrite bind_gets. change (id self) with self. rewrite (st_pos _ _ _ Hs).
  destruct (Z.eqb_spec (pos mod 8) 0) as [Hal|]; cbn [negb]; [|by exists self].
  assert (Hgather : forall (k : Z -> stateM (t R) rar_error (option (list byte * bool))),
    exists r, on_stream r data pos /\ acc_bits r <= 8 * buf_pos r /\ (8 * buf_pos r - acc_bits r) / 8 = 0 /\ (min <= buf_len r \/ eof r = true) /\
      ((_ ← gather_byte_span min; mret 0) ≫= k) self = k 0 r).
  { intros k. destruct (gather_ok min _ _ _ Hs Hal Hmin) as (r & Hrun & Hr & Hr0 & Ha0 & Hmore).
    exists r. rewrite Hr0, Ha0. split_and!; try done.
    rewrite (bind_run _ _ _ 0 r); [done|]. by rewrite (bind_run _ _ _ _ _ Hrun). }
  destruct (buffer_bit_position self) as [bit|] eqn:Hbit.
  - assert (Hns : acc_bits self <= 8 * buf_pos self).
    { revert Hbit. unfold buffer_bit_position, checked_sub_u64. case_match; [lia | done]. }
    rewrite (proj2 (not_straddling self) Hns) in Hbit. injection Hbit as <-.
    destruct (Z.leb_spec min (buf_len self - (8 * buf_pos self - acc_bits self) / 8)) as [Hle|].
    + rewrite bind_mret, bind_gets. unfold id.
      destruct (lend_ok self data pos min Hs Hal Hns ltac:(by left)) as (span & Hrun & Hspan). by exists span, (eof self), self.
    + destruct (Hgather (fun start => self ← gets id; span ← lift (slice (buf self) start (buf_len self)); mret (Some (span, eof self))))
        as (r & Hr & Hns' & H0' & Hmore & ->).
      rewrite bind_gets. unfold id.
      destruct (lend_ok r data pos min Hr Hal Hns' ltac:(by rewrite H0', Z.sub_0_r)) as (span & Hrun & Hspan).
      rewrite H0' in Hrun. by exists span, (eof r), r.
  - destruct (Hgather (fun start => self ← gets id; span ← lift (slice (buf self) start (buf_len self)); mret (Some (span, eof self))))
      as (r & Hr & Hns' & H0' & Hmore & ->).
    rewrite bind_gets. unfold id.
    destruct (lend_ok r data pos min Hr Hal Hns' ltac:(by rewrite H0', Z.sub_0_r)) as (span & Hrun & Hspan).
    rewrite H0' in Hrun. by exists span, (eof r), r.
Qed.

(** A new reader stands at the first bit of what the source will give. *)
Lemma stream_new_ok (source : R) recycled : bit_len (src_rest source) < 2 ^ 64 ->
  on_stream (with_buffer source recycled) (src_rest source) 0.
Proof.
  intros Hsz. assert (Hbuf : forall b, STREAMING_INPUT_BUFFER_SIZE + STREAMING_STRADDLE_HEADROOM <= zlen b ->
    on_stream (mk source b 0 0 0 0 false 0 0) (src_rest source) 0).
  { intros b Hb. unfold STREAMING_INPUT_BUFFER_SIZE, STREAMING_STRADDLE_HEADROOM in Hb.
    constructor; cbn; try done; [lia | apply acc_empty |]. exists []. by rewrite (ztake_nat 0) by lia. }
  unfold with_buffer. destruct (Z.leb_spec (STREAMING_INPUT_BUFFER_SIZE + STREAMING_STRADDLE_HEADROOM) (zlen recycled)); apply Hbuf; [done|].
  unfold alloc_buffer. rewrite zlen_replicate; done.
Qed.
End on_stream.

#[export] Instance StreamReader_lawful {R} `{SourceLaws R} : BitReadLaws (StreamReader.t R) := {
  tracks := on_stream;
  tracks_range := stream_range;
  position_law := st_pos;
  remaining_law := stream_remaining;
  remaining_least_law := stream_remaining_least;
  has_bits_law := stream_has_bits;
  exact_law := stream_exact;
  read_bits_law := stream_read_bits;
  read_byte_law := stream_read_byte;
  byte_or_zero_law := stream_byte_or_zero;
  zero_bytes_law := stream_zero_bytes;
  peek_raw_law := stream_peek_raw;
  peek_left_law := stream_peek_16 (fun v => Z.land v 0xfffe);
  consume_law := stream_consume;
  skip_law := stream_skip_bits;
  align_law := stream_align;
  byte_span_law := stream_byte_span;
  lease_law T f := stream_lease f
}.
