(* ===== verification/LzReaders.v ===== *)
(** Both bit readers read the bit string of their input: the same program of
    operations gives the same results over a slice, over a stream delivered in
    pieces of any size, and on the reference cursor. *)
From S2P Require Import Prelude RarTypes StateM BitString LzBits LzBitReader LzStreamReader.

(** The values a program returns on the reference cursor from the first bit on. *)
Definition spec_run (ops : list bit_op) (data : list byte) : result (list Z) := fst <$> spec_ops ops data 0.

Lemma lawful_run {R} `{BitReadLaws R} ops (r : R) data : Forall op_ok ops -> tracks r data 0 ->
  spec_ops ops data 0 <> Panic -> (run_ops ops r).1 = spec_run ops data.
Proof.
  intros Hops Hr Hp. pose proof (run_ops_law ops Hops r data 0 Hr) as Hrun. unfold spec_run.
  destruct (spec_ops ops data 0) as [[vs p]|e|]; cbn; [| |done].
  - destruct Hrun as (r' & -> & _). done.
  - destruct Hrun as (r' & ->). done.
Qed.

(** The reference never panics. *)
Definition quiet {A} (f : bits_spec A) : Prop := forall data pos, f data pos <> Panic.

Lemma quiet_bind {A B} (f : bits_spec A) (g : A -> bits_spec B) : quiet f -> (forall a, quiet (g a)) -> quiet (f ≫= g).
Proof.
  intros Hf Hg data pos. unfold mbind, bits_spec_bind. specialize (Hf data pos). destruct (f data pos) as [[a p]|e|]; [apply Hg | done | done].
Qed.
Lemma quiet_ret {A} (a : A) : quiet (mret a).
Proof. done. Qed.
Lemma quiet_if {A} (b : list byte -> Z -> bool) (f g : bits_spec A) : quiet f -> quiet g -> quiet (fun data pos => if b data pos then f data pos else g data pos).
Proof. intros Hf Hg data pos. destruct (b data pos); [apply Hf | apply Hg]. Qed.

Lemma quiet_op op : quiet (spec_op op).
Proof.
  assert (Hread : forall n, quiet (spec_read n)) by (intros n data pos; unfold spec_read; by destruct (fits data pos n)).
  assert (Hskip : forall n, quiet (spec_skip n)) by (intros n data pos; unfold spec_skip; by destruct (fits data pos n)).
  assert (Hpeek : quiet spec_peek16) by (intros data pos; unfold spec_peek16; by destruct (fits data pos 1)).
  destruct op; cbn [spec_op]; try apply Hread; try exact Hpeek; try (apply quiet_bind; [done || apply Hskip | intros; apply quiet_ret]).
  - unfold spec_read64. case_match; [apply Hread|]. apply quiet_bind; [apply Hread|]. intros. apply quiet_bind; [apply Hread | intros; apply quiet_ret].
  - intros data pos. unfold spec_byte_or_zero. by destruct (fits data pos 8).
Qed.

Lemma quiet_ops ops : quiet (spec_ops ops).
Proof.
  induction ops as [|op ops IH]; [apply quiet_ret|]. cbn [spec_ops].
  apply quiet_bind; [apply quiet_op|]. intros v. apply quiet_bind; [done | intros; apply quiet_ret].
Qed.

(** C13: the slice reader and the streaming reader are interchangeable, and both
    are the bit string they read: over any source that does not fail, whatever
    pieces it delivers and whatever a recycled buffer held, every program of
    reads, peeks, skips and alignments returns what the same program returns
    over a slice of the whole input, which is the bits of that input, with an
    error exactly where they run out. *)
Theorem readers_read_the_bits {R} `{SourceLaws R} (source : R) (recycled : list byte) (ops : list bit_op) :
  Forall op_ok ops -> bit_len (src_rest source) < 2 ^ 64 ->
  (run_ops ops (BitReader.new (src_rest source))).1 = spec_run ops (src_rest source) /\
  (run_ops ops (StreamReader.with_buffer source recycled)).1 = spec_run ops (src_rest source).
Proof.
  intros Hops Hsz. split; apply lawful_run; try done; try apply quiet_ops; [by apply new_ok | by apply stream_new_ok].
Qed.

(** A source that delivers three bytes at a time. *)
#[export] Instance threes : Source (list byte) := fun data limit => (Ok (ztake (Z.min 3 limit) data), zdrop (Z.min 3 limit) data).
#[export, refine] Instance threes_ok : SourceLaws (list byte) := {| src_rest data := data |}.
Proof.
  intros data limit Hl. eexists _, _. split; [reflexivity|]. split_and!.
  - by rewrite ztake_zdrop by lia.
  - rewrite zlen_take; lia.
  - intros Hnil. apply (f_equal zlen) in Hnil. rewrite zlen_take, zlen_nil in Hnil by lia.
    pose proof (zlen_nonneg data). apply zlen_0_nil. lia.
Defined.

Definition sample_input : list byte := [xa5; x3c; x01; xff; x80; x7e; x00; x11; x22; x33; x44].
Definition sample_program : list bit_op :=
  [OpReadBits 3; OpPeekLeft; OpConsume 7; OpReadBits 32; OpAlign; OpReadByte; OpHasExactBits 24; OpSkip 9; OpPeekRaw; OpReadBits 15; OpReadByteOrZero; OpHasBits].

Lemma readers_read_the_bits_witness :
  (run_ops sample_program (BitReader.new sample_input)).1 = spec_run sample_program sample_input /\
  (run_ops sample_program (StreamReader.with_buffer sample_input [])).1 = spec_run sample_program sample_input.
Proof.
  apply (@readers_read_the_bits (list byte) threes threes_ok sample_input [] sample_program);
    [repeat constructor; cbn; lia | vm_compute; reflexivity].
Defined.
