(* ===== verification/LzBlock.v ===== *)
(** Bit access inside a staged block (decompress/lz/block_reader.rs): the
    bounded reader with its cached window, its detached cursor, and that both
    read the bits of the block and of the lookahead behind it. *)
From S2P Require Import Prelude StateM BitString.

Definition LOOKAHEAD_BYTES : Z := 32.
Definition NARROW_PEEK_BITS : Z := 24.
Definition MIN_WINDOW_BITS : Z := 32.

Inductive BlockReaderError :=
| InvalidRange (start_bit end_bit : Z)
| RangeOutOfBounds (end_bit available_bits : Z)
| MissingLookahead (required_end available : Z)
| EndOvershoot (position end_bit : Z).

Abbreviation checked := (outcome BlockReaderError).

(** The unaligned loads; out of the buffer the debug build panics. *)
Definition load_be (width : Z) (data : list byte) (byte : Z) : checked Z :=
  bytes ← slice data byte (byte + width); mret (be_combine bytes).

Module BlockReader.
Record t := mk { data : list byte; end_bit : Z; position : Z; acc : Z; acc_bits : Z }.

Definition set_window (v n : Z) (self : t) : t := mk (data self) (end_bit self) (position self) v n.
Definition set_position (p : Z) (self : t) : t := mk (data self) (end_bit self) p (acc self) (acc_bits self).

Definition peek_window_u32 (self : t) : checked Z :=
  raw ← load_be 4 (data self) (Z.shiftr (position self) 3);
  mret (wrap32 (Z.shiftl raw (Z.land (position self) 7))).

Definition refill (self : t) : checked t :=
  if end_bit self <? position self then Ok (set_window 0 0 self)
  else
    let offset := Z.land (position self) 7 in
    raw ← load_be 8 (data self) (Z.shiftr (position self) 3);
    mret (set_window (wrap64 (Z.shiftl raw offset)) (64 - offset) self).

Definition new (data : list byte) (start_bit end_bit : Z) : checked t :=
  if end_bit <? start_bit then Err (InvalidRange start_bit end_bit)
  else
    let available_bits := Z.min (zlen data * 8) (2 ^ 64 - 1) in
    if available_bits <? end_bit then Err (RangeOutOfBounds end_bit available_bits)
    else
      let guard_start := sat_add_u64 end_bit 7 / 8 in
      let required_end := sat_add_u64 guard_start LOOKAHEAD_BYTES in
      if zlen data <? required_end then Err (MissingLookahead required_end (zlen data))
      else refill (mk data end_bit start_bit 0 0).

Definition peek_u64_direct (self : t) : checked Z :=
  let byte := Z.shiftr (position self) 3 in
  let offset := Z.land (position self) 7 in
  if offset =? 0 then load_be 8 (data self) byte
  else
    (* [debug_check_load(byte, 9)] covers both loads. *)
    low ← load_be 8 (data self) (byte + 1);
    high ← load_be 8 (data self) byte;
    mret (Z.lor (wrap64 (Z.shiftl high offset)) (Z.shiftr low (8 - offset))).

Definition peek_u64 (self : t) : checked Z := if acc_bits self =? 64 then Ok (acc self) else peek_u64_direct self.

Definition peek_bits (self : t) (count : Z) : checked Z :=
  if negb (count <=? 64) then Panic
  else if count =? 0 then Ok 0
  else if count <=? acc_bits self then Ok (if count =? 64 then acc self else Z.shiftr (acc self) (64 - count))
  else if count <=? NARROW_PEEK_BITS then
    w ← peek_window_u32 self; mret (Z.shiftr w (32 - count))
  else
    value ← peek_u64 self;
    mret (if count =? 64 then value else Z.shiftr value (64 - count)).

Definition peek_u16 (self : t) : checked Z :=
  if 16 <=? acc_bits self then Ok (Z.shiftr (acc self) 48)
  else w ← peek_window_u32 self; mret (Z.shiftr w 16).

Definition advance (count : Z) (self : t) : checked t :=
  let self := set_position (sat_add_u64 (position self) count) self in
  if count <? acc_bits self then
    let self := set_window (wrap64 (Z.shiftl (acc self) count)) (acc_bits self - count) self in
    if MIN_WINDOW_BITS <=? acc_bits self then Ok self else refill self
  else refill (set_window (acc self) 0 self).

Definition read_bits (count : Z) (self : t) : checked (Z * t) :=
  value ← peek_bits self count;
  self ← advance count self;
  mret (value, self).

Definition validate_end (self : t) : checked unit :=
  if position self <=? end_bit self then Ok tt else Err (EndOvershoot (position self) (end_bit self)).
End BlockReader.

(** * The detached cursor *)

Module BitCursor.
Record t := mk { acc : Z; acc_bits : Z; pos : Z }.

Definition peek_window_u32 (cursor : t) (data : list byte) : checked Z :=
  raw ← load_be 4 data (Z.shiftr (pos cursor) 3);
  mret (wrap32 (Z.shiftl raw (Z.land (pos cursor) 7))).

Definition refill (cursor : t) (data : list byte) (end_bit : Z) : checked t :=
  if end_bit <? pos cursor then Ok (mk 0 0 (pos cursor))
  else
    let offset := Z.land (pos cursor) 7 in
    raw ← load_be 8 data (Z.shiftr (pos cursor) 3);
    mret (mk (wrap64 (Z.shiftl raw offset)) (64 - offset) (pos cursor)).

Definition peek_u64_direct (cursor : t) (data : list byte) : checked Z :=
  let byte := Z.shiftr (pos cursor) 3 in
  let offset := Z.land (pos cursor) 7 in
  if offset =? 0 then load_be 8 data byte
  else
    low ← load_be 8 data (byte + 1);
    high ← load_be 8 data byte;
    mret (Z.lor (wrap64 (Z.shiftl high offset)) (Z.shiftr low (8 - offset))).

Definition peek_u64 (cursor : t) (data : list byte) : checked Z :=
  if acc_bits cursor =? 64 then Ok (acc cursor) else peek_u64_direct cursor data.

Definition peek_bits (cursor : t) (data : list byte) (count : Z) : checked Z :=
  if negb (count <=? 64) then Panic
  else if count =? 0 then Ok 0
  else if count <=? acc_bits cursor then Ok (if count =? 64 then acc cursor else Z.shiftr (acc cursor) (64 - count))
  else if count <=? NARROW_PEEK_BITS then
    w ← peek_window_u32 cursor data; mret (Z.shiftr w (32 - count))
  else
    value ← peek_u64 cursor data;
    mret (if count =? 64 then value else Z.shiftr value (64 - count)).

Definition peek_u16 (cursor : t) (data : list byte) : checked Z :=
  if 16 <=? acc_bits cursor then Ok (Z.shiftr (acc cursor) 48)
  else w ← peek_window_u32 cursor data; mret (Z.shiftr w 16).

Definition advance (cursor : t) (data : list byte) (end_bit count : Z) : checked t :=
  let p := sat_add_u64 (pos cursor) count in
  if count <? acc_bits cursor then
    let cursor := mk (wrap64 (Z.shiftl (acc cursor) count)) (acc_bits cursor - count) p in
    if MIN_WINDOW_BITS <=? acc_bits cursor then Ok cursor else refill cursor data end_bit
  else refill (mk (acc cursor) 0 p) data end_bit.

Definition read_bits (cursor : t) (data : list byte) (end_bit count : Z) : checked (Z * t) :=
  value ← peek_bits cursor data count;
  cursor ← advance cursor data end_bit count;
  mret (value, cursor).
End BitCursor.

Definition export_cursor (self : BlockReader.t) : BitCursor.t :=
  BitCursor.mk (BlockReader.acc self) (BlockReader.acc_bits self) (BlockReader.position self).
(** [debug_assert!(cursor.acc_bits <= 64)]. *)
Definition import_cursor (cursor : BitCursor.t) (self : BlockReader.t) : checked BlockReader.t :=
  if BitCursor.acc_bits cursor <=? 64
  then Ok (BlockReader.mk (BlockReader.data self) (BlockReader.end_bit self) (BitCursor.pos cursor) (BitCursor.acc cursor) (BitCursor.acc_bits cursor))
  else Panic.

(** Programs of block operations. *)
Inductive block_op := BlockPeek (count : Z) | BlockPeekU16 | BlockRead (count : Z) | BlockAdvance (count : Z).

Definition run_block_op (op : block_op) (self : BlockReader.t) : checked (Z * BlockReader.t) :=
  match op with
  | BlockPeek n => v ← BlockReader.peek_bits self n; mret (v, self)
  | BlockPeekU16 => v ← BlockReader.peek_u16 self; mret (v, self)
  | BlockRead n => BlockReader.read_bits n self
  | BlockAdvance n => self ← BlockReader.advance n self; mret (0, self)
  end.

Definition run_cursor_op (data : list byte) (end_bit : Z) (op : block_op) (cursor : BitCursor.t) : checked (Z * BitCursor.t) :=
  match op with
  | BlockPeek n => v ← BitCursor.peek_bits cursor data n; mret (v, cursor)
  | BlockPeekU16 => v ← BitCursor.peek_u16 cursor data; mret (v, cursor)
  | BlockRead n => BitCursor.read_bits cursor data end_bit n
  | BlockAdvance n => cursor ← BitCursor.advance cursor data end_bit n; mret (0, cursor)
  end.

Fixpoint run_block (ops : list block_op) (self : BlockReader.t) : checked (list Z * BlockReader.t) :=
  match ops with
  | [] => Ok ([], self)
  | op :: ops => '(v, self) ← run_block_op op self; '(vs, self) ← run_block ops self; mret (v :: vs, self)
  end.
Fixpoint run_cursor (data : list byte) (end_bit : Z) (ops : list block_op) (cursor : BitCursor.t) : checked (list Z * BitCursor.t) :=
  match ops with
  | [] => Ok ([], cursor)
  | op :: ops => '(v, cursor) ← run_cursor_op data end_bit op cursor; '(vs, cursor) ← run_cursor data end_bit ops cursor; mret (v :: vs, cursor)
  end.

(** The same on the bits themselves. *)
Definition op_width (op : block_op) : Z := match op with BlockPeek n | BlockRead n => n | BlockPeekU16 => 16 | BlockAdvance _ => 0 end.
Definition op_moves (op : block_op) : Z := match op with BlockRead n | BlockAdvance n => n | _ => 0 end.
Fixpoint block_values (data : list byte) (pos : Z) (ops : list block_op) : list Z :=
  match ops with
  | [] => []
  | op :: ops => field data pos (op_width op) :: block_values data (pos + op_moves op) ops
  end.
Definition block_end (pos : Z) (ops : list block_op) : Z := fold_left (fun p op => p + op_moves op) ops pos.

(** How far behind the block's end the loads of an operation stay inside the
    lookahead: a decoder tests its position against the end before every
    symbol, and a symbol takes fewer bits than this. *)
Definition OVERSHOOT_BITS : Z := 184.
Definition op_fits (op : block_op) : Prop := 0 <= op_width op <= 64 /\ 0 <= op_moves op.
Fixpoint stays_near (limit pos : Z) (ops : list block_op) : Prop :=
  match ops with
  | [] => True
  | op :: ops => op_fits op /\ pos <= limit /\ stays_near limit (pos + op_moves op) ops
  end.

(** * Loads *)

Lemma load_be_ok data b w : 0 <= b -> 0 <= w -> b + w <= zlen data -> load_be w data b = Ok (field data (8 * b) (8 * w)).
Proof.
  intros Hb Hw Hle. unfold load_be. rewrite slice_ok, bind_Ok by lia. replace (b + w - b) with w by lia. by rewrite be_combine_window by lia.
Qed.

Lemma byte_offset p : 0 <= p -> Z.shiftr p 3 = p / 8 /\ Z.land p 7 = p mod 8 /\ p = 8 * (p / 8) + p mod 8 /\ 0 <= p mod 8 < 8 /\ 0 <= p / 8.
Proof.
  intros Hp. split; [by rewrite Z.shiftr_div_pow2 by lia|]. split; [change 7 with (Z.ones 3); by rewrite Z.land_ones by lia|].
  Z.to_euclidean_division_equations. lia.
Qed.

(** The top bits of a shifted load are the bits behind the offset. *)
Lemma shifted_load data b w off n : 0 <= b -> 0 <= off <= w -> 0 <= n <= w - off ->
  Z.shiftr (Z.shiftl (field data b w) off mod 2 ^ w) (w - n) = field data (b + off) n.
Proof.
  intros Hb Hoff Hn.
  assert (Hlow : 0 <= Z.shiftr (Z.shiftl (field data b w) off mod 2 ^ w) (w - n) < 2 ^ n).
  { apply shiftr_range; [lia | lia |]. rewrite Z.sub_add. apply Z.mod_pos_bound. lia. }
  apply (bits_eq _ _ n); [lia | done | apply field_range; lia |]. intros k Hk.
  rewrite Z.shiftr_spec, Z.mod_pow2_bits_low, Z.shiftl_spec by lia. rewrite !testbit_field by lia.
  rewrite (proj2 (Z.ltb_lt _ w)), (proj2 (Z.ltb_lt k n)) by lia. cbn [andb]. f_equal. lia.
Qed.

Lemma acc_full data pos : acc_ok data pos (field data pos 64) 64.
Proof.
  constructor; [by apply field_range | lia | |]; intros k Hk; rewrite testbit_field, (proj2 (Z.ltb_lt k 64)) by lia; cbn [andb];
    replace (pos + 64 - 1 - k) with (pos + 63 - k) by lia; done.
Qed.

(** * The reader stands at a bit of the block *)

Section block.
Variables (src : list byte) (stop : Z).
Hypothesis (Hsize : bit_len src < 2 ^ 64) (Hend : 0 <= stop) (Hahead : (stop + 7) / 8 + LOOKAHEAD_BYTES <= zlen src).
Import BlockReader.

Record at_block (self : t) (p : Z) : Prop := mk_at_block {
  blk_data : BlockReader.data self = src;
  blk_end : BlockReader.end_bit self = stop;
  blk_pos : position self = p;
  blk_nonneg : 0 <= p;
  blk_acc : acc_ok src p (acc self) (acc_bits self)
}.

Lemma near_fits p : 0 <= p <= stop + OVERSHOOT_BITS -> p / 8 + 9 <= zlen src.
Proof. unfold OVERSHOOT_BITS, LOOKAHEAD_BYTES in *. intros Hp. Z.to_euclidean_division_equations. lia. Qed.

Lemma block_refill_ok self p : BlockReader.data self = src -> BlockReader.end_bit self = stop -> position self = p -> 0 <= p ->
  exists r, refill self = Ok r /\ at_block r p.
Proof.
  intros Hd He Hp Hnn. unfold refill. rewrite He, Hp.
  destruct (Z.ltb_spec stop p) as [|Hle]; [eexists; split; [done|]; constructor; try done; apply acc_empty|].
  destruct (byte_offset p Hnn) as (Hq & Hr & Hpp & Hm & Hb). rewrite Hq, Hr, Hd.
  pose proof (near_fits p ltac:(unfold OVERSHOOT_BITS; lia)).
  rewrite load_be_ok, bind_Ok by lia. eexists. split; [done|]. constructor; try done. cbn.
  rewrite Hpp at 1. apply (acc_drop src (8 * (p / 8)) _ 64); [apply acc_full | lia].
Qed.

Lemma window_peek self p n : at_block self p -> p <= stop + OVERSHOOT_BITS -> 0 <= n <= 24 ->
  (w ← peek_window_u32 self; mret (Z.shiftr w (32 - n))) = Ok (field src p n).
Proof.
  intros [Hd He Hp Hnn _] Hnear Hn. destruct (byte_offset p Hnn) as (Hq & Hr & Hpp & Hm & Hb).
  pose proof (near_fits p ltac:(lia)). unfold peek_window_u32.
  rewrite Hp, Hd, Hq, Hr, load_be_ok, bind_Ok by lia. unfold mret, outcome_ret. rewrite bind_Ok. f_equal.
  trans (field src (8 * (p / 8) + p mod 8) n); [apply shifted_load; lia | by rewrite <- Hpp].
Qed.

Lemma direct_peek self p : at_block self p -> p <= stop + OVERSHOOT_BITS -> peek_u64_direct self = Ok (field src p 64).
Proof.
  intros [Hd He Hp Hnn _] Hnear. destruct (byte_offset p Hnn) as (Hq & Hr & Hpp & Hm & Hb).
  pose proof (near_fits p ltac:(lia)). unfold peek_u64_direct. rewrite Hp, Hd, Hq, Hr.
  destruct (Z.eqb_spec (p mod 8) 0) as [Hz|Hnz]; [rewrite load_be_ok by lia; do 2 f_equal; lia|].
  rewrite !load_be_ok, !bind_Ok by lia. unfold mret, outcome_ret. f_equal.
  rewrite field_shiftr by lia. replace (8 * 8 - (8 - p mod 8)) with (56 + p mod 8) by lia. change (8 * 8) with 64.
  replace (8 * (p / 8 + 1)) with (8 * (p / 8) + 8) by lia.
  assert (Hlow : 0 <= field src (8 * (p / 8) + 8) (56 + p mod 8) < 2 ^ 64).
  { pose proof (field_range src (8 * (p / 8) + 8) (56 + p mod 8) ltac:(lia)).
    assert (2 ^ (56 + p mod 8) <= 2 ^ 64) by (apply Z.pow_le_mono_r; lia). lia. }
  apply (bits_eq _ _ 64); [lia | apply lor_range; [lia | apply wrap64_range | done] | apply field_range; lia |].
  intros k Hk. rewrite Z.lor_spec, wrap64_testbit, Z.shiftl_spec, (testbit_field src (8 * (p / 8) + 8)), (testbit_field src p 64) by lia.
  rewrite (proj2 (Z.ltb_lt k 64)) by lia. cbn [andb].
  replace (8 * (p / 8) + 8 + (56 + p mod 8) - 1 - k) with (p + 64 - 1 - k) by lia.
  destruct (Z.ltb_spec k (p mod 8)).
  - rewrite Z.testbit_neg_r by lia. by rewrite (proj2 (Z.ltb_lt k _)) by lia.
  - rewrite testbit_field, (proj2 (Z.ltb_lt _ 64)) by lia. cbn [andb].
    replace (8 * (p / 8) + 64 - 1 - (k - p mod 8)) with (p + 64 - 1 - k) by lia.
    destruct (bit_at _ _); [done|]. by rewrite andb_false_r.
Qed.

Lemma peek_ok self p n : at_block self p -> p <= stop + OVERSHOOT_BITS -> 0 <= n <= 64 ->
  peek_bits self n = Ok (field src p n).
Proof.
  intros Hs Hnear Hn. unfold peek_bits. rewrite (proj2 (Z.leb_le n 64)) by lia. cbn [negb].
  destruct (Z.eqb_spec n 0) as [->|]; [done|].
  assert (Hcut : forall v, v = field src p 64 -> (if n =? 64 then v else Z.shiftr v (64 - n)) = field src p n).
  { intros v ->. destruct (Z.eqb_spec n 64) as [->|]; [done|]. rewrite field_shiftr by lia. f_equal. lia. }
  destruct (Z.leb_spec n (acc_bits self)).
  - f_equal. destruct (Z.eqb_spec n 64) as [->|]; [|apply (acc_top _ _ _ _ (blk_acc _ _ Hs)); lia].
    pose proof (acc_top _ _ _ _ (blk_acc _ _ Hs) 64 ltac:(lia)) as Htop. by rewrite Z.sub_diag, Z.shiftr_0_r in Htop.
  - unfold NARROW_PEEK_BITS. destruct (Z.leb_spec n 24); [apply window_peek; [done | done | lia]|].
    unfold peek_u64. destruct (Z.eqb_spec (acc_bits self) 64); [lia|].
    rewrite (direct_peek _ _ Hs Hnear), bind_Ok. unfold mret, outcome_ret. f_equal. by apply Hcut.
Qed.

Lemma peek_u16_ok self p : at_block self p -> p <= stop + OVERSHOOT_BITS -> peek_u16 self = Ok (field src p 16).
Proof.
  intros Hs Hnear. unfold peek_u16. destruct (Z.leb_spec 16 (acc_bits self)).
  - f_equal. change 48 with (64 - 16). apply (acc_top _ _ _ _ (blk_acc _ _ Hs)). lia.
  - apply (window_peek _ _ 16 Hs Hnear). lia.
Qed.

Lemma advance_ok self p n : at_block self p -> 0 <= n -> p + n < 2 ^ 64 ->
  exists r, advance n self = Ok r /\ at_block r (p + n).
Proof.
  intros [Hd He Hp Hnn Ha] Hn Hlt. unfold advance. rewrite Hp. unfold sat_add_u64.
  replace (Z.min (p + n) (2 ^ 64 - 1)) with (p + n) by lia. cbv zeta.
  change (acc_bits (set_position _ _)) with (acc_bits self).
  destruct (Z.ltb_spec n (acc_bits self)).
  - destruct (Z.leb_spec MIN_WINDOW_BITS (acc_bits (set_window (wrap64 (Z.shiftl (acc (set_position (p + n) self)) n)) (acc_bits self - n) (set_position (p + n) self)))).
    + eexists. split; [done|]. constructor; try done; [lia|]. cbn. apply acc_drop; [done | lia].
    + apply block_refill_ok; try done. lia.
  - apply block_refill_ok; try done. lia.
Qed.

Lemma run_block_ok ops self p : at_block self p -> stays_near (stop + OVERSHOOT_BITS) p ops -> block_end p ops < 2 ^ 64 ->
  exists r, run_block ops self = Ok (block_values src p ops, r) /\ at_block r (block_end p ops).
Proof.
  revert self p. induction ops as [|op ops IH]; intros self p Hs Hnear Hlt; [by exists self|].
  destruct Hnear as ([Hw Hm] & Hp & Hnear). cbn [run_block block_values]. change (block_end p (op :: ops)) with (block_end (p + op_moves op) ops) in *.
  assert (Hgrow : forall qs q, stays_near (stop + OVERSHOOT_BITS) q qs -> q <= block_end q qs).
  { clear. induction qs as [|o qs IH]; intros q; [done|]. intros ([_ Hm] & _ & Hn). specialize (IH _ Hn).
    change (block_end q (o :: qs)) with (block_end (q + op_moves o) qs). lia. }
  specialize (Hgrow _ _ Hnear).
  assert (Hstep : exists r, run_block_op op self = Ok (field src p (op_width op), r) /\ at_block r (p + op_moves op)).
  { destruct op as [n| |n|n]; cbn [op_width op_moves run_block_op] in *.
    - rewrite (peek_ok _ _ _ Hs Hp Hw), bind_Ok, Z.add_0_r. by exists self.
    - rewrite (peek_u16_ok _ _ Hs Hp), bind_Ok, Z.add_0_r. by exists self.
    - unfold BlockReader.read_bits. rewrite (peek_ok _ _ _ Hs Hp Hw), bind_Ok.
      destruct (advance_ok _ _ n Hs Hm) as (r & -> & Hr); [lia|]. rewrite bind_Ok. by exists r.
    - destruct (advance_ok _ _ n Hs Hm) as (r & -> & Hr); [lia|]. rewrite bind_Ok. by exists r. }
  destruct Hstep as (r & -> & Hr). rewrite bind_Ok. destruct (IH r _ Hr Hnear Hlt) as (r' & -> & Hr'). rewrite bind_Ok. by exists r'.
Qed.
End block.

(** * The cursor does what the reader does *)

Section lockstep.
Implicit Types (self : BlockReader.t).

Definition exported (m : checked (Z * BlockReader.t)) : checked (Z * BitCursor.t) := (fun '(v, self) => (v, export_cursor self)) <$> m.

Lemma refill_lockstep self : BitCursor.refill (export_cursor self) (BlockReader.data self) (BlockReader.end_bit self) = export_cursor <$> BlockReader.refill self.
Proof.
  unfold BitCursor.refill, BlockReader.refill. change (BitCursor.pos (export_cursor self)) with (BlockReader.position self).
  case_match; [done|]. by destruct (load_be 8 _ _).
Qed.

Lemma advance_lockstep self n :
  BitCursor.advance (export_cursor self) (BlockReader.data self) (BlockReader.end_bit self) n = export_cursor <$> BlockReader.advance n self.
Proof.
  unfold BitCursor.advance, BlockReader.advance. cbv zeta.
  change (BlockReader.acc_bits (BlockReader.set_position _ self)) with (BlockReader.acc_bits self).
  change (BitCursor.acc_bits (export_cursor self)) with (BlockReader.acc_bits self).
  destruct (n <? BlockReader.acc_bits self).
  - cbn [BitCursor.acc_bits BlockReader.acc_bits BlockReader.set_window]. destruct (MIN_WINDOW_BITS <=? _); [done|].
    apply (refill_lockstep (BlockReader.set_window _ _ (BlockReader.set_position _ self))).
  - apply (refill_lockstep (BlockReader.set_window _ _ (BlockReader.set_position _ self))).
Qed.

Lemma op_lockstep self op :
  run_cursor_op (BlockReader.data self) (BlockReader.end_bit self) op (export_cursor self) = exported (run_block_op op self).
Proof.
  assert (Hpeek : forall n, BitCursor.peek_bits (export_cursor self) (BlockReader.data self) n = BlockReader.peek_bits self n) by done.
  destruct op as [n| |n|n]; cbn [run_cursor_op run_block_op].
  - rewrite Hpeek. by destruct (BlockReader.peek_bits self n).
  - change (BitCursor.peek_u16 (export_cursor self) (BlockReader.data self)) with (BlockReader.peek_u16 self). by destruct (BlockReader.peek_u16 self).
  - unfold BitCursor.read_bits, BlockReader.read_bits. rewrite Hpeek. destruct (BlockReader.peek_bits self n); [|done..].
    rewrite !bind_Ok, advance_lockstep. by destruct (BlockReader.advance n self).
  - rewrite advance_lockstep. by destruct (BlockReader.advance n self).
Qed.

(** The data and the end never change. *)
Lemma refill_fixed self r : BlockReader.refill self = Ok r -> BlockReader.data r = BlockReader.data self /\ BlockReader.end_bit r = BlockReader.end_bit self.
Proof. unfold BlockReader.refill. case_match; [by intros [= <-]|]. destruct (load_be 8 _ _); [|done..]. by intros [= <-]. Qed.

Lemma advance_fixed self n r : BlockReader.advance n self = Ok r -> BlockReader.data r = BlockReader.data self /\ BlockReader.end_bit r = BlockReader.end_bit self.
Proof.
  unfold BlockReader.advance. case_match; [case_match; [by intros [= <-]|]|]; apply (refill_fixed (BlockReader.set_window _ _ (BlockReader.set_position _ self))).
Qed.

Lemma op_fixed self op v r : run_block_op op self = Ok (v, r) -> BlockReader.data r = BlockReader.data self /\ BlockReader.end_bit r = BlockReader.end_bit self.
Proof.
  destruct op as [n| |n|n]; cbn [run_block_op].
  - destruct (BlockReader.peek_bits self n); [|done..]. by intros [= _ <-].
  - destruct (BlockReader.peek_u16 self); [|done..]. by intros [= _ <-].
  - unfold BlockReader.read_bits. destruct (BlockReader.peek_bits self n); [|done..]. rewrite bind_Ok.
    destruct (BlockReader.advance n self) eqn:E; [|done..]. intros [= _ <-]. by apply advance_fixed in E.
  - destruct (BlockReader.advance n self) eqn:E; [|done..]. intros [= _ <-]. by apply advance_fixed in E.
Qed.

Lemma run_lockstep ops self :
  run_cursor (BlockReader.data self) (BlockReader.end_bit self) ops (export_cursor self) =
  (fun '(vs, self) => (vs, export_cursor self)) <$> run_block ops self.
Proof.
  revert self. induction ops as [|op ops IH]; intros self; [done|]. cbn [run_cursor run_block].
  rewrite op_lockstep. unfold exported. destruct (run_block_op op self) as [[v r]| |] eqn:E; [|done..].
  apply op_fixed in E as [<- <-]. cbn. rewrite IH. by destruct (run_block ops r) as [[vs r']| |].
Qed.
End lockstep.

(** A block reader that its constructor accepts reads the block's bits: any
    sequence of peeks, reads and advances, as long as each starts no more than
    184 bits behind the block's end (more than one symbol takes), never loads
    outside the staged bytes and gives the bits at its position, whether its
    window answers or a load does; the detached cursor gives the same values and
    ends in the same state; and the end check refuses exactly an overrun. *)
Theorem block_reader_reads_its_block (src : list byte) (start_bit stop : Z) (ops : list block_op) (reader : BlockReader.t) :
  BlockReader.new src start_bit stop = Ok reader -> bit_len src < 2 ^ 64 -> 0 <= start_bit ->
  stays_near (stop + OVERSHOOT_BITS) start_bit ops -> block_end start_bit ops < 2 ^ 64 ->
  exists final,
    run_block ops reader = Ok (block_values src start_bit ops, final) /\
    run_cursor src stop ops (export_cursor reader) = Ok (block_values src start_bit ops, export_cursor final) /\
    BlockReader.position final = block_end start_bit ops /\
    BlockReader.validate_end final =
      (if block_end start_bit ops <=? stop then Ok tt else Err (EndOvershoot (block_end start_bit ops) stop)).
Proof.
  intros Hnew Hsize Hstart Hnear Hlt. unfold BlockReader.new in Hnew. pose proof (zlen_nonneg src). unfold bit_len in Hsize.
  destruct (Z.ltb_spec stop start_bit); [done|]. destruct (Z.ltb_spec (Z.min (zlen src * 8) (2 ^ 64 - 1)) stop); [done|].
  assert (Hsat : sat_add_u64 (sat_add_u64 stop 7 / 8) LOOKAHEAD_BYTES = Z.min (stop + 7) (2 ^ 64 - 1) / 8 + LOOKAHEAD_BYTES).
  { unfold sat_add_u64, LOOKAHEAD_BYTES. apply Z.min_l. Z.to_euclidean_division_equations. lia. }
  rewrite Hsat in Hnew. destruct (Z.ltb_spec (zlen src) (Z.min (stop + 7) (2 ^ 64 - 1) / 8 + LOOKAHEAD_BYTES)) as [|Hahead]; [done|].
  assert (Hahead' : (stop + 7) / 8 + LOOKAHEAD_BYTES <= zlen src).
  { unfold LOOKAHEAD_BYTES in *. Z.to_euclidean_division_equations. lia. }
  destruct (block_refill_ok src stop Hahead' (BlockReader.mk src stop start_bit 0 0) start_bit) as (r & Hr & Hat); try done.
  rewrite Hr in Hnew. injection Hnew as ->.
  destruct (run_block_ok src stop Hahead' ops reader start_bit Hat Hnear Hlt) as (final & Hrun & Hfinal).
  exists final. split; [done|]. pose proof (run_lockstep ops reader) as Hcursor.
  rewrite (blk_data _ _ _ _ Hat), (blk_end _ _ _ _ Hat), Hrun in Hcursor. split; [done|].
  split; [apply (blk_pos _ _ _ _ Hfinal)|]. unfold BlockReader.validate_end.
  by rewrite (blk_pos _ _ _ _ Hfinal), (blk_end _ _ _ _ Hfinal).
Qed.

Lemma block_reader_reads_its_block_witness :
  exists reader, BlockReader.new (zreplicate 40 xa5) 3 41 = Ok reader /\
  exists final,
    run_block [BlockRead 5; BlockPeekU16; BlockAdvance 33; BlockRead 64] reader =
      Ok (block_values (zreplicate 40 xa5) 3 [BlockRead 5; BlockPeekU16; BlockAdvance 33; BlockRead 64], final) /\
    run_cursor (zreplicate 40 xa5) 41 [BlockRead 5; BlockPeekU16; BlockAdvance 33; BlockRead 64] (export_cursor reader) =
      Ok (block_values (zreplicate 40 xa5) 3 [BlockRead 5; BlockPeekU16; BlockAdvance 33; BlockRead 64], export_cursor final) /\
    BlockReader.position final = 105 /\
    BlockReader.validate_end final = Err (EndOvershoot 105 41).
Proof.
  eexists. split; [vm_compute; reflexivity|].
  apply (@block_reader_reads_its_block (zreplicate 40 xa5) 3 41 [BlockRead 5; BlockPeekU16; BlockAdvance 33; BlockRead 64]);
    [vm_compute; reflexivity | vm_compute; reflexivity | lia | unfold stays_near, op_fits, OVERSHOOT_BITS; cbn; lia | vm_compute; reflexivity].
Defined.
