(* ===== verification/LzHuffman.v ===== *)
(** The Huffman tables of the LZ decoders (decompress/lz/huffman.rs): building
    a decoding table from code lengths, decoding a symbol through the quick
    table or the threshold scan on each kind of reader, and reading the tables
    of a block. *)
From S2P Require Import Prelude RarTypes StateM BitString LzBits LzBitReader LzBlock.

Definition HUFF_BC : Z := 20.
Definition HUFF_NC : Z := 306.
Definition HUFF_DCB : Z := 64.
Definition HUFF_DCX : Z := 80.
Definition HUFF_LDC : Z := 16.
Definition HUFF_RC : Z := 44.
Definition MAX_CODE_LENGTH : Z := 15.
Definition MAX_QUICK_BITS : Z := 9.
Definition MAX_NUM_SYMBOLS : Z := HUFF_NC.
Definition MAX_QUICK_ENTRIES : Z := Z.shiftl 1 MAX_QUICK_BITS.

(** An array element, and its assignment. *)
Definition at_ {E} (l : list Z) (i : Z) : outcome E Z := get_at l (Z.to_nat i).
Definition put {E} (l : list Z) (i v : Z) : outcome E (list Z) := set_at l (Z.to_nat i) v.
Definition add_u32 {E} (a b : Z) : outcome E Z := if a + b <? 2 ^ 32 then Ok (a + b) else Panic.

Module HuffmanTable.
Record t := mk {
  decode_len : list Z; decode_pos : list Z; decode_num : list Z; quick_len : list Z; quick_num : list Z;
  quick_bits : Z; max_length : Z; num_symbols : Z }.

Definition quick_bits_for_size (num_symbols : Z) : Z :=
  if (num_symbols =? 306) || (num_symbols =? 299) || (num_symbols =? 298) then MAX_QUICK_BITS
  else if 3 <? MAX_QUICK_BITS then MAX_QUICK_BITS - 3 else 0.

Fixpoint count_lengths (bit_lengths : list Z) (length_count : list Z) (max_length : Z) : result (list Z * Z) :=
  match bit_lengths with
  | [] => Ok (length_count, max_length)
  | bl :: rest =>
    if negb (bl <=? MAX_CODE_LENGTH) then Panic
    else
      let bl := Z.land bl 0xF in
      if negb (bl =? 0) then
        n ← at_ length_count bl;
        length_count ← put length_count bl (n + 1);
        count_lengths rest length_count (if max_length <? bl then bl else max_length)
      else count_lengths rest length_count max_length
  end.

Definition limits_step (length_count : list Z) (i : nat) (st : Z * list Z * list Z) : result (Z * list Z * list Z) :=
  let '(upper_limit, decode_len, decode_pos) := st in
  n ← get_at length_count i;
  upper_limit ← add_u32 upper_limit n;
  let left_aligned := wrap32 (Z.shiftl upper_limit (16 - Z.of_nat i)) in
  decode_len ← set_at decode_len i left_aligned;
  p ← get_at decode_pos (i - 1);
  n ← get_at length_count (i - 1);
  p ← add_u32 p n;
  decode_pos ← set_at decode_pos i p;
  doubled ← add_u32 upper_limit upper_limit;
  mret (doubled, decode_len, decode_pos).

Fixpoint fill_symbols (num_symbols : Z) (bit_lengths : list Z) (sym : Z) (copy_pos decode_num : list Z) : result (list Z) :=
  match bit_lengths with
  | [] => Ok decode_num
  | bl :: rest =>
    let bl := Z.land bl 0xF in
    if negb (bl =? 0) then
      pos ← at_ copy_pos bl;
      decode_num ← (if pos <? num_symbols then put decode_num pos (wrap16 sym) else Ok decode_num);
      copy_pos ← put copy_pos bl (pos + 1);
      fill_symbols num_symbols rest (sym + 1) copy_pos decode_num
    else fill_symbols num_symbols rest (sym + 1) copy_pos decode_num
  end.

(** [while cur < decode_len.len() && bit_field >= decode_len[cur] { cur += 1 }]. *)
Fixpoint advance_length (fuel : nat) (decode_len : list Z) (bit_field cur : Z) : result Z :=
  match fuel with
  | O => Panic
  | S fuel =>
    if cur <? zlen decode_len then
      limit ← at_ decode_len cur;
      if limit <=? bit_field then advance_length fuel decode_len bit_field (cur + 1) else Ok cur
    else Ok cur
  end.

Definition quick_step (decode_len decode_pos decode_num : list Z) (quick_bits num_symbols : Z)
    (code : nat) (st : Z * list Z * list Z) : result (Z * list Z * list Z) :=
  let '(cur, quick_len, quick_num) := st in
  let bit_field := wrap32 (Z.shiftl (Z.of_nat code) (16 - quick_bits)) in
  cur ← advance_length 17 decode_len bit_field cur;
  quick_len ← set_at quick_len code cur;
  before ← at_ decode_len (cur - 1);
  let dist := Z.shiftr (wrap32 (bit_field - before)) (16 - cur) in
  if cur <? zlen decode_pos then
    p ← at_ decode_pos cur;
    pos ← add_u32 p dist;
    if pos <? num_symbols then
      s ← at_ decode_num pos;
      quick_num ← set_at quick_num code s;
      mret (cur, quick_len, quick_num)
    else mret (cur, quick_len, quick_num)
  else mret (cur, quick_len, quick_num).

Definition zeros (n : Z) : list Z := zreplicate n 0.

Definition build (bit_lengths : list Z) : result t :=
  let num_symbols := zlen bit_lengths in
  if MAX_NUM_SYMBOLS <? num_symbols then Err InvalidHuffmanTable
  else
    let quick_bits := quick_bits_for_size num_symbols in
    '(length_count, max_length) ← count_lengths bit_lengths (zeros 16) 0;
    length_count ← put length_count 0 0;
    if max_length =? 0 then
      Ok (mk (zeros 16) (zeros 16) (zeros MAX_NUM_SYMBOLS) (zeros MAX_QUICK_ENTRIES) (zeros MAX_QUICK_ENTRIES) quick_bits 0 num_symbols)
    else
      '(_, decode_len, decode_pos) ← for_range 1 15 (limits_step length_count) (0, zeros 16, zeros 16);
      decode_num ← fill_symbols num_symbols bit_lengths 0 decode_pos (zeros MAX_NUM_SYMBOLS);
      '(_, quick_len, quick_num) ← for_range 0 (Z.to_nat (Z.shiftl 1 quick_bits))
          (quick_step decode_len decode_pos decode_num quick_bits num_symbols) (1, zeros MAX_QUICK_ENTRIES, zeros MAX_QUICK_ENTRIES);
      mret (mk decode_len decode_pos decode_num quick_len quick_num quick_bits max_length num_symbols).

(** [for i in lo..15 { if bit_field < decode_len[i] { bits = i; break } }]. *)
Fixpoint slow_scan {E} (n : nat) (i : Z) (decode_len : list Z) (bit_field : Z) : outcome E Z :=
  match n with
  | O => Ok MAX_CODE_LENGTH
  | S n =>
    limit ← at_ decode_len i;
    if bit_field <? limit then Ok i else slow_scan n (i + 1) decode_len bit_field
  end.
Definition slow_path_bits {E} (self : t) (bit_field : Z) : outcome E Z :=
  slow_scan (Z.to_nat (MAX_CODE_LENGTH - (quick_bits self + 1))) (quick_bits self + 1) (decode_len self) bit_field.

Definition symbol_for_bits {E} (self : t) (bit_field bits : Z) : outcome E Z :=
  if negb ((1 <=? bits) && (bits <=? MAX_CODE_LENGTH)) then Panic
  else
    before ← at_ (decode_len self) (bits - 1);
    let dist := Z.shiftr (wrap32 (bit_field - before)) (16 - bits) in
    p ← at_ (decode_pos self) bits;
    pos ← add_u32 p dist;
    let pos := if num_symbols self <=? pos then 0 else pos in
    let pos := Z.min pos (MAX_NUM_SYMBOLS - 1) in
    at_ (decode_num self) pos.

Definition quick_index (self : t) (bit_field : Z) : Z := Z.land (Z.shiftr bit_field (16 - quick_bits self)) (MAX_QUICK_ENTRIES - 1).
Definition quick_threshold {E} (self : t) : outcome E Z := at_ (decode_len self) (Z.land (quick_bits self) 0xF).

(** Decoding from any reader. *)
Definition decode {R} `{BitRead R} (self : t) : stateM R rar_error Z :=
  bit_field ← peek_16_left_aligned;
  threshold ← lift (quick_threshold self);
  if bit_field <? threshold then
    let code := quick_index self bit_field in
    n ← lift (at_ (quick_len self) code);
    _ ← consume_bits n;
    lift (at_ (quick_num self) code)
  else
    bits ← lift (slow_path_bits self bit_field);
    _ ← consume_bits bits;
    lift (symbol_for_bits self bit_field bits).

(** Decoding from the slice reader. *)
Definition decode_bitreader (self : t) : stateM BitReader.t rar_error Z :=
  _ ← BitReader.ensure_bits 16;
  reader ← gets id;
  bit_field ← lift (BitReader.getbits reader);
  threshold ← lift (quick_threshold self);
  if bit_field <? threshold then
    let code := quick_index self bit_field in
    n ← lift (at_ (quick_len self) code);
    _ ← BitReader.addbits n;
    lift (at_ (quick_num self) code)
  else
    bits ← lift (slow_path_bits self bit_field);
    _ ← BitReader.addbits bits;
    lift (symbol_for_bits self bit_field bits).

(** Decoding inside a staged block; the flag says which path answered. *)
Definition decode_block_reader (self : t) (reader : BlockReader.t) : checked (Z * bool * BlockReader.t) :=
  bit_field ← BlockReader.peek_u16 reader;
  let bit_field := Z.land bit_field 0xfffe in
  threshold ← quick_threshold self;
  if bit_field <? threshold then
    let code := quick_index self bit_field in
    n ← at_ (quick_len self) code;
    reader ← BlockReader.advance n reader;
    s ← at_ (quick_num self) code;
    mret (s, true, reader)
  else
    bits ← slow_path_bits self bit_field;
    reader ← BlockReader.advance bits reader;
    s ← symbol_for_bits self bit_field bits;
    mret (s, false, reader).

Definition decode_cursor (self : t) (cursor : BitCursor.t) (data : list byte) (end_bit : Z) : checked (Z * bool * BitCursor.t) :=
  bit_field ← BitCursor.peek_u16 cursor data;
  let bit_field := Z.land bit_field 0xfffe in
  threshold ← quick_threshold self;
  if bit_field <? threshold then
    let code := quick_index self bit_field in
    n ← at_ (quick_len self) code;
    cursor ← BitCursor.advance cursor data end_bit n;
    s ← at_ (quick_num self) code;
    mret (s, true, cursor)
  else
    bits ← slow_path_bits self bit_field;
    cursor ← BitCursor.advance cursor data end_bit bits;
    s ← symbol_for_bits self bit_field bits;
    mret (s, false, cursor).
End HuffmanTable.
