(* ===== verification/LzHuffmanProps.v ===== *)
(** Canonical Huffman codes and the tables built for them: the table holds the
    code's limits and ranks, the quick table agrees with the threshold scan,
    and decoding inverts the canonical code. *)
From S2P Require Import Prelude RarTypes StateM BitString LzBits LzBitReader LzStreamReader LzReaders LzBlock LzHuffman.

(** * The canonical code of a list of code lengths *)

(** How many symbols have code length [l]. *)
Fixpoint count (l : Z) (lens : list Z) : Z :=
  match lens with
  | [] => 0
  | x :: lens => (if x =? l then 1 else 0) + count l lens
  end.

(** The first value of [l] bits behind the codes of at most [l] bits. *)
Fixpoint upper (lens : list Z) (l : nat) : Z :=
  match l with
  | O => 0
  | S k => 2 * upper lens k + count (Z.of_nat (S k)) lens
  end.

(** The same, aligned to sixteen bits. *)
Definition limit (lens : list Z) (l : nat) : Z := upper lens l * 2 ^ (16 - Z.of_nat l).

(** How many symbols have shorter codes. *)
Fixpoint first_pos (lens : list Z) (l : nat) : Z :=
  match l with
  | O => 0
  | S O => 0
  | S k => first_pos lens k + count (Z.of_nat k) lens
  end.

Definition len_of (lens : list Z) (s : nat) : Z := nth s lens 0.
(** How many earlier symbols have the same code length. *)
Definition same_before (lens : list Z) (s : nat) : Z := count (len_of lens s) (take s lens).
(** The symbol's place in the canonical order, by code length and then value. *)
Definition rank (lens : list Z) (s : nat) : Z := first_pos lens (Z.to_nat (len_of lens s)) + same_before lens s.
(** The code, a number of [len_of lens s] bits. *)
Definition code_of (lens : list Z) (s : nat) : Z := 2 * upper lens (Z.to_nat (len_of lens s) - 1) + same_before lens s.

Definition lengths_ok (lens : list Z) : Prop := zlen lens <= MAX_NUM_SYMBOLS /\ Forall (fun l => 0 <= l <= MAX_CODE_LENGTH) lens.
(** Kraft's inequality: the codes fit. *)
Definition codes_fit (lens : list Z) : Prop := upper lens 15 <= 2 ^ 15.

(** ** Counting *)

Lemma count_nonneg l lens : 0 <= count l lens.
Proof. induction lens as [|x lens IH]; cbn; [done|]. destruct (x =? l); lia. Qed.
Lemma count_app l a b : count l (a ++ b) = count l a + count l b.
Proof. induction a as [|x a IH]; cbn; [done|]. rewrite IH. lia. Qed.
Lemma count_le l lens : count l lens <= zlen lens.
Proof. induction lens as [|x lens IH]; cbn; [done|]. rewrite zlen_cons. destruct (x =? l); lia. Qed.

Lemma split_at (lens : list Z) s : (s < length lens)%nat -> lens = take s lens ++ len_of lens s :: drop (S s) lens.
Proof.
  intros Hs. unfold len_of. rewrite <- (take_drop s lens) at 1. f_equal.
  destruct (lookup_lt_is_Some_2 lens s Hs) as [x Hx]. rewrite (drop_S _ _ _ Hx). f_equal. by rewrite nth_lookup, Hx.
Qed.

Lemma same_before_lt lens s : (s < length lens)%nat -> 0 <= same_before lens s < count (len_of lens s) lens.
Proof.
  intros Hs. unfold same_before. split; [apply count_nonneg|]. pose proof (split_at lens s Hs) as Hcut.
  apply (f_equal (count (len_of lens s))) in Hcut. rewrite count_app in Hcut. cbn in Hcut. rewrite Z.eqb_refl in Hcut. pose proof (count_nonneg (len_of lens s) (drop (S s) lens)). lia.
Qed.

(** Among symbols of one length the count tells them apart. *)
Lemma same_before_lt_later lens s u : (s < u < length lens)%nat -> len_of lens s = len_of lens u -> same_before lens s < same_before lens u.
Proof.
  intros Hsu Hl. unfold same_before. rewrite <- Hl.
  assert (Hcut : take u lens = take s lens ++ len_of lens s :: drop (S s) (take u lens)).
  { rewrite <- (take_drop s (take u lens)) at 1. rewrite take_take, Nat.min_l by lia. f_equal.
    destruct (lookup_lt_is_Some_2 lens s ltac:(lia)) as [x Hx].
    rewrite (drop_S _ x s); [f_equal; unfold len_of; by rewrite nth_lookup, Hx|]. by rewrite lookup_take_lt by lia. }
  rewrite Hcut, count_app. cbn. rewrite Z.eqb_refl. pose proof (count_nonneg (len_of lens s) (drop (S s) (take u lens))). lia.
Qed.

Lemma first_pos_S lens k : (0 < k)%nat -> first_pos lens (S k) = first_pos lens k + count (Z.of_nat k) lens.
Proof. destruct k; [lia|]. done. Qed.
Lemma first_pos_nonneg lens l : 0 <= first_pos lens l.
Proof. induction l as [|[|k] IH]; [done | done |]. rewrite first_pos_S by lia. pose proof (count_nonneg (Z.of_nat (S k)) lens). lia. Qed.
Lemma first_pos_mono lens a b : (a <= b)%nat -> first_pos lens a <= first_pos lens b.
Proof.
  induction 1 as [|b Hle IH]; [done|]. destruct b; [by replace a with 0%nat in * by lia|]. rewrite first_pos_S by lia.
  pose proof (count_nonneg (Z.of_nat (S b)) lens). lia.
Qed.

(** The ranks stay below the number of symbols. *)
Lemma first_pos_le lens l : first_pos lens (S l) <= zlen lens.
Proof.
  induction lens as [|x lens IH].
  { assert (H0 : forall k, first_pos [] k = 0); [|by rewrite H0].
    induction k as [|[|k] IH]; [done | done |]. rewrite first_pos_S by lia. rewrite IH. done. }
  assert (Hx : forall k, first_pos (x :: lens) k = first_pos lens k + (if (0 <? x) && (x <? Z.of_nat k) then 1 else 0)).
  { induction k as [|[|k] IHk].
    - cbn. by destruct (0 <? x) eqn:E; cbn [andb]; [rewrite (proj2 (Z.ltb_ge x _)) by lia|].
    - cbn -[Z.ltb]. destruct (Z.ltb_spec 0 x); cbn [andb]; [rewrite (proj2 (Z.ltb_ge x _)) by lia|]; done.
    - rewrite (first_pos_S (x :: lens) (S k)), (first_pos_S lens (S k)), IHk by lia. cbn [count].
      destruct (Z.ltb_spec 0 x), (Z.ltb_spec x (Z.of_nat (S k))), (Z.ltb_spec x (Z.of_nat (S (S k)))), (Z.eqb_spec x (Z.of_nat (S k)));
        cbn [andb]; lia. }
  rewrite Hx, zlen_cons. destruct (_ && _); lia.
Qed.

Lemma rank_lt lens s : lengths_ok lens -> (s < length lens)%nat -> 0 < len_of lens s -> 0 <= rank lens s < zlen lens.
Proof.
  intros [_ Hall] Hs Hl. unfold rank. pose proof (same_before_lt lens s Hs). pose proof (first_pos_nonneg lens (Z.to_nat (len_of lens s))).
  pose proof (first_pos_le lens (Z.to_nat (len_of lens s))) as Hle. rewrite first_pos_S, Z2Nat.id in Hle by lia. lia.
Qed.

Lemma rank_inj lens s u : (s < u < length lens)%nat -> 0 < len_of lens s -> 0 < len_of lens u -> rank lens s <> rank lens u.
Proof.
  intros Hsu Hs Hu. unfold rank. pose proof (same_before_lt lens s ltac:(lia)). pose proof (same_before_lt lens u ltac:(lia)).
  assert (Hstep : forall a, 0 < a -> first_pos lens (S (Z.to_nat a)) = first_pos lens (Z.to_nat a) + count a lens).
  { intros a Ha. rewrite first_pos_S by lia. by rewrite Z2Nat.id by lia. }
  destruct (Z.lt_trichotomy (len_of lens s) (len_of lens u)) as [Hlt|[Heq|Hgt]].
  - pose proof (first_pos_mono lens (S (Z.to_nat (len_of lens s))) (Z.to_nat (len_of lens u)) ltac:(lia)). rewrite Hstep in * by lia. lia.
  - pose proof (same_before_lt_later lens s u Hsu Heq). rewrite Heq. lia.
  - pose proof (first_pos_mono lens (S (Z.to_nat (len_of lens u))) (Z.to_nat (len_of lens s)) ltac:(lia)). rewrite Hstep in * by lia. lia.
Qed.

(** ** Limits *)

Lemma upper_nonneg lens l : 0 <= upper lens l.
Proof. induction l as [|k IH]; cbn [upper]; [done|]. pose proof (count_nonneg (Z.of_nat (S k)) lens). lia. Qed.

Lemma upper_bound lens l : upper lens l <= zlen lens * (2 ^ Z.of_nat l - 1).
Proof.
  induction l as [|k IH]; cbn [upper]; [lia|]. pose proof (count_le (Z.of_nat (S k)) lens).
  assert (2 ^ Z.of_nat (S k) = 2 * 2 ^ Z.of_nat k) as -> by (rewrite Nat2Z.inj_succ, Z.pow_succ_r; lia). lia.
Qed.

Lemma limit_S lens k : (k < 16)%nat -> limit lens (S k) = limit lens k + count (Z.of_nat (S k)) lens * 2 ^ (16 - Z.of_nat (S k)).
Proof.
  intros Hk. unfold limit. cbn [upper]. replace (16 - Z.of_nat k) with (1 + (16 - Z.of_nat (S k))) by lia.
  rewrite (Z.pow_add_r 2 1) by lia. change (2 ^ 1) with 2. lia.
Qed.

Lemma limit_mono lens a b : (a <= b <= 16)%nat -> limit lens a <= limit lens b.
Proof.
  intros [Hab Hb]. induction Hab as [|b Hab IH]; [done|]. rewrite limit_S by lia. specialize (IH ltac:(lia)).
  pose proof (count_nonneg (Z.of_nat (S b)) lens). assert (0 <= 2 ^ (16 - Z.of_nat (S b))) by (apply Z.pow_nonneg; lia). nia.
Qed.

Lemma limit_bound lens l : (l <= 16)%nat -> zlen lens <= MAX_NUM_SYMBOLS -> 0 <= limit lens l < 2 ^ 32.
Proof.
  intros Hl Hn. unfold limit, MAX_NUM_SYMBOLS, HUFF_NC in *. pose proof (upper_nonneg lens l). pose proof (upper_bound lens l).
  assert (H1 : 0 < 2 ^ (16 - Z.of_nat l)) by (apply Z.pow_pos_nonneg; lia).
  assert (H2 : 2 ^ Z.of_nat l * 2 ^ (16 - Z.of_nat l) = 2 ^ 16) by (rewrite <- Z.pow_add_r by lia; f_equal; lia).
  pose proof (zlen_nonneg lens). split; [nia|].
  assert (upper lens l * 2 ^ (16 - Z.of_nat l) <= 306 * 2 ^ 16); [|lia].
  assert (upper lens l <= 306 * 2 ^ Z.of_nat l) by nia. nia.
Qed.

(** * The threshold scan *)

Fixpoint scan_from (lens : list Z) (f : Z) (n i : nat) : nat :=
  match n with
  | O => i
  | S n => if f <? limit lens i then i else scan_from lens f n (S i)
  end.
(** The first length of 1 to 14 bits whose limit is above the field, or 15. *)
Definition code_length (lens : list Z) (f : Z) : nat := scan_from lens f 14 1.
(** The place in the canonical order the field points at. *)
Definition place (lens : list Z) (f : Z) (l : nat) : Z := first_pos lens l + (f - limit lens (l - 1)) / 2 ^ (16 - Z.of_nat l).

Lemma scan_from_spec lens f n i : (i <= scan_from lens f n i <= i + n)%nat /\
  (forall j, (i <= j < scan_from lens f n i)%nat -> limit lens j <= f) /\
  ((scan_from lens f n i < i + n)%nat -> f < limit lens (scan_from lens f n i)).
Proof.
  revert i. induction n as [|n IH]; intros i; cbn [scan_from]; [split_and!; intros; lia|].
  destruct (Z.ltb_spec f (limit lens i)); [split_and!; intros; lia|]. destruct (IH (S i)) as (H1 & H2 & H3).
  split_and!; [lia | lia | | intros; apply H3; lia]. intros j Hj. destruct (decide (j = i)) as [->|]; [done|]. apply H2. lia.
Qed.

Lemma code_length_spec lens f : 0 <= f -> (1 <= code_length lens f <= 15)%nat /\
  limit lens (code_length lens f - 1) <= f /\ ((code_length lens f < 15)%nat -> f < limit lens (code_length lens f)).
Proof.
  intros Hf. unfold code_length. destruct (scan_from_spec lens f 14 1) as (H1 & H2 & H3). set (l := scan_from lens f 14 1) in *.
  split_and!; [lia | lia | | intros; apply H3; lia]. destruct (decide (l = 1%nat)) as [->|]; [done|]. apply H2. lia.
Qed.

Lemma code_length_unique lens f l : 0 <= f -> (1 <= l <= 15)%nat -> limit lens (l - 1) <= f -> ((l < 15)%nat -> f < limit lens l) ->
  code_length lens f = l.
Proof.
  intros Hf Hl Hlo Hhi. destruct (code_length_spec lens f Hf) as (H1 & H2 & H3). set (k := code_length lens f) in *.
  destruct (Nat.lt_trichotomy k l) as [Hlt|[->|Hgt]]; [|done|].
  - pose proof (limit_mono lens k (l - 1) ltac:(lia)). specialize (H3 ltac:(lia)). lia.
  - pose proof (limit_mono lens l (k - 1) ltac:(lia)). specialize (Hhi ltac:(lia)). lia.
Qed.

(** Below the limit of its length a field points at a symbol. *)
Lemma place_range lens f l : (1 <= l <= 16)%nat -> limit lens (l - 1) <= f -> f < limit lens l -> 0 <= place lens f l < zlen lens.
Proof.
  intros Hl Hlo Hhi. unfold place. destruct l as [|k]; [lia|]. replace (S k - 1)%nat with k in * by lia. rewrite limit_S in Hhi by lia.
  assert (0 < 2 ^ (16 - Z.of_nat (S k))) by (apply Z.pow_pos_nonneg; lia).
  pose proof (first_pos_nonneg lens (S k)). pose proof (first_pos_le lens (S k)) as Hle. rewrite first_pos_S in Hle by lia.
  assert (0 <= (f - limit lens k) / 2 ^ (16 - Z.of_nat (S k)) < count (Z.of_nat (S k)) lens).
  { split; [apply Z.div_pos; lia | apply Z.div_lt_upper_bound; lia]. }
  lia.
Qed.

(** * Array accesses *)

Definition val (l : list Z) (i : Z) : Z := nth (Z.to_nat i) l 0.

Lemma at_ok {E} l i : 0 <= i < zlen l -> at_ (E := E) l i = Ok (val l i).
Proof. intros Hi. unfold at_, val. apply get_at_nth. unfold zlen in Hi. lia. Qed.
Lemma put_ok {E} l i v : 0 <= i < zlen l -> exists l', put (E := E) l i v = Ok l' /\ zlen l' = zlen l /\
  forall j, 0 <= j -> val l' j = if j =? i then v else val l j.
Proof.
  intros Hi. unfold put. rewrite set_at_ok by (unfold zlen in Hi; lia). eexists. split; [done|].
  split; [unfold zlen; by rewrite length_insert|]. intros j Hj. unfold val. rewrite nth_insert by (unfold zlen in Hi; lia).
  destruct (Z.eqb_spec j i) as [->|]; case_decide; done || lia.
Qed.

Lemma val_zeros n i : val (HuffmanTable.zeros n) i = 0.
Proof.
  unfold val, HuffmanTable.zeros, zreplicate. rewrite nth_lookup.
  destruct (replicate (Z.to_nat n) 0 !! Z.to_nat i) eqn:E; [|done]. by apply lookup_replicate in E as [-> _].
Qed.
Lemma zlen_zeros n : 0 <= n -> zlen (HuffmanTable.zeros n) = n.
Proof. apply zlen_replicate. Qed.

Lemma land_15 x : 0 <= x <= 15 -> Z.land x 0xF = x.
Proof. intros Hx. change 0xF with (Z.ones 4). rewrite Z.land_ones by lia. apply Z.mod_small. lia. Qed.

(** * Building *)

Section build.
Variable lens : list Z.
Hypothesis (Hok : lengths_ok lens).
Import HuffmanTable.

Lemma count_lengths_ok ls lc m : Forall (fun l => 0 <= l <= MAX_CODE_LENGTH) ls -> zlen lc = 16 -> 0 <= m ->
  exists lc' m', count_lengths ls lc m = Ok (lc', m') /\ zlen lc' = 16 /\ 0 <= m' /\
    (forall i, 1 <= i < 16 -> val lc' i = val lc i + count i ls) /\ (m' = 0 -> m = 0 /\ Forall (fun l => l = 0) ls).
Proof.
  revert lc m. induction ls as [|x ls IH]; intros lc m Hall Hlc Hm.
  { exists lc, m. split_and!; try done. intros i _. cbn. lia. }
  apply list.Forall_cons in Hall as [Hx Hall]. unfold MAX_CODE_LENGTH in Hx. cbn [count_lengths].
  unfold MAX_CODE_LENGTH. rewrite (proj2 (Z.leb_le x 15)) by lia. cbn [negb]. rewrite land_15 by lia.
  destruct (Z.eqb_spec x 0) as [->|Hx0]; cbn [negb].
  - destruct (IH lc m Hall Hlc Hm) as (lc' & m' & -> & ? & ? & Hc & Hz). exists lc', m'. split_and!; try done.
    + intros i Hi. rewrite Hc by lia. cbn [count]. destruct (Z.eqb_spec 0 i); lia.
    + intros [? ?]%Hz. split; [done|]. by constructor.
  - rewrite at_ok, bind_Ok by lia. destruct (put_ok (E := rar_error) lc x (val lc x + 1) ltac:(lia)) as (lc1 & -> & Hlc1 & Hv1). rewrite bind_Ok.
    destruct (IH lc1 (if m <? x then x else m) Hall ltac:(lia)) as (lc' & m' & -> & ? & ? & Hc & Hz); [case_match; lia|].
    exists lc', m'. split_and!; try done.
    + intros i Hi. rewrite Hc, Hv1 by lia. cbn [count]. rewrite Z.eqb_sym. destruct (Z.eqb_spec x i) as [->|]; lia.
    + intros [Hmx _]%Hz. revert Hmx. destruct (Z.ltb_spec m x); lia.
Qed.

Definition limits_inv (i : nat) (st : Z * list Z * list Z) : Prop :=
  let '(u, dl, dp) := st in
  u = 2 * upper lens (i - 1) /\ zlen dl = 16 /\ zlen dp = 16 /\
  (forall j : nat, (j < i)%nat -> val dl (Z.of_nat j) = limit lens j) /\ (forall j : nat, (j < i)%nat -> val dp (Z.of_nat j) = first_pos lens j).

Lemma set_nat_ok l (i : nat) v : (Z.of_nat i < zlen l) -> exists l', set_at (E := rar_error) l i v = Ok l' /\ zlen l' = zlen l /\
  forall j : nat, val l' (Z.of_nat j) = if decide (j = i) then v else val l (Z.of_nat j).
Proof.
  intros Hi. destruct (put_ok (E := rar_error) l (Z.of_nat i) v ltac:(lia)) as (l' & Hput & Hlen & Hv). unfold put in Hput. rewrite Nat2Z.id in Hput.
  exists l'. split_and!; try done. intros j. rewrite Hv by lia. destruct (Z.eqb_spec (Z.of_nat j) (Z.of_nat i)); case_decide; done || lia.
Qed.
Lemma get_nat_ok l (i : nat) : Z.of_nat i < zlen l -> get_at (E := rar_error) l i = Ok (val l (Z.of_nat i)).
Proof. intros Hi. pose proof (at_ok (E := rar_error) l (Z.of_nat i) ltac:(lia)) as H. unfold at_ in H. by rewrite Nat2Z.id in H. Qed.

Lemma limits_step_ok lc i st : zlen lc = 16 -> val lc 0 = 0 -> (forall i, 1 <= i < 16 -> val lc i = count i lens) ->
  (1 <= i < 16)%nat -> limits_inv i st -> spec (limits_step lc i st) (limits_inv (S i)) (fun _ => False).
Proof.
  destruct st as [[u dl] dp]. intros Hlc H0 Hc Hi (-> & Hdl & Hdp & Hvl & Hvp). destruct Hok as [Hn _].
  unfold limits_step. cbv beta iota. rewrite (get_nat_ok lc i), bind_Ok, Hc by lia. unfold MAX_NUM_SYMBOLS, HUFF_NC in Hn.
  assert (Hup : 2 * upper lens (i - 1) + count (Z.of_nat i) lens = upper lens i).
  { destruct i as [|k]; [lia|]. cbn [upper]. by replace (S k - 1)%nat with k by lia. }
  pose proof (upper_nonneg lens i). pose proof (upper_bound lens i). pose proof (zlen_nonneg lens).
  assert (2 ^ Z.of_nat i <= 2 ^ 15) by (apply Z.pow_le_mono_r; lia).
  assert (Hbig : upper lens i <= 306 * 2 ^ 15) by nia.
  unfold add_u32. rewrite Hup, (proj2 (Z.ltb_lt (upper lens i) _)), bind_Ok by lia. cbv zeta.
  assert (Hal : wrap32 (Z.shiftl (upper lens i) (16 - Z.of_nat i)) = limit lens i).
  { rewrite Z.shiftl_mul_pow2 by lia. apply Z.mod_small. by apply limit_bound; [lia|]. }
  rewrite Hal. destruct (set_nat_ok dl i (limit lens i) ltac:(lia)) as (dl' & -> & Hdl' & Hvl'). rewrite bind_Ok.
  rewrite (get_nat_ok dp (i - 1)), bind_Ok, Hvp by lia. rewrite (get_nat_ok lc (i - 1)), bind_Ok by lia.
  assert (Hfp : first_pos lens (i - 1) + val lc (Z.of_nat (i - 1)) = first_pos lens i).
  { destruct i as [|[|k]]; [lia | change (0 + val lc 0 = 0); lia |]. rewrite first_pos_S by lia. replace (S (S k) - 1)%nat with (S k) by lia. by rewrite Hc by lia. }
  pose proof (first_pos_nonneg lens i). pose proof (first_pos_mono lens i (S i) ltac:(lia)). pose proof (first_pos_le lens i).
  rewrite Hfp, (proj2 (Z.ltb_lt (first_pos lens i) _)), bind_Ok by lia.
  destruct (set_nat_ok dp i (first_pos lens i) ltac:(lia)) as (dp' & -> & Hdp' & Hvp'). rewrite bind_Ok.
  rewrite (proj2 (Z.ltb_lt (upper lens i + upper lens i) _)), bind_Ok by lia. cbn.
  split_and!; [replace (i - 0)%nat with i by lia; lia | lia | lia | |]; intros j Hj; rewrite ?Hvl', ?Hvp'; case_decide; subst; try done; [apply Hvl | apply Hvp]; lia.
Qed.

(** The symbols below [k] sit at their ranks. *)
Definition placed (dn : list Z) (k : nat) : Prop :=
  zlen dn = MAX_NUM_SYMBOLS /\ forall s : nat, (s < k)%nat -> 0 < len_of lens s -> val dn (rank lens s) = Z.of_nat s.

Lemma fill_symbols_ok rest before copy dn : lens = before ++ rest -> zlen copy = 16 ->
  (forall l, 1 <= l < 16 -> val copy l = first_pos lens (Z.to_nat l) + count l before) -> placed dn (length before) ->
  exists dn', fill_symbols (zlen lens) rest (zlen before) copy dn = Ok dn' /\ placed dn' (length lens).
Proof.
  revert before copy dn. induction rest as [|x rest IH]; intros before copy dn Hlens Hcl Hcopy Hpl.
  { exists dn. split; [done|]. rewrite Hlens, app_nil_r. done. }
  pose proof Hok as [Hn Hall]. unfold MAX_NUM_SYMBOLS, HUFF_NC in Hn.
  assert (Hlt : (length before < length lens)%nat) by (rewrite Hlens, length_app; cbn; lia).
  assert (Hx : len_of lens (length before) = x).
  { unfold len_of. rewrite Hlens, app_nth2, Nat.sub_diag by lia. done. }
  assert (Hxr : 0 <= x <= 15).
  { pose proof Hall as Hx'. rewrite Hlens in Hx'. apply list.Forall_app in Hx' as [_ Hx']. by apply list.Forall_cons in Hx' as [? _]. }
  assert (Htake : take (length before) lens = before) by (rewrite Hlens; apply take_app_length).
  assert (Hnext : zlen (before ++ [x]) = zlen before + 1 /\ length (before ++ [x]) = S (length before)).
  { split; [rewrite zlen_app; done | rewrite length_app; cbn; lia]. }
  assert (Happ : lens = (before ++ [x]) ++ rest) by (rewrite <- app_assoc; done).
  cbn [fill_symbols]. rewrite land_15 by lia. destruct (Z.eqb_spec x 0) as [->|Hx0]; cbn [negb].
  - destruct Hnext as [<- Hlen]. apply (IH (before ++ [0]) copy dn Happ Hcl).
    + intros l Hl. rewrite Hcopy, count_app by lia. cbn [count]. destruct (Z.eqb_spec 0 l); lia.
    + destruct Hpl as [Hdl Hpl]. split; [done|]. intros s Hs Hls. rewrite Hlen in Hs.
      destruct (decide (s = length before)) as [->|]; [lia|]. apply Hpl; [lia | done].
  - rewrite (at_ok copy x), bind_Ok, Hcopy by lia.
    assert (Hrank : first_pos lens (Z.to_nat x) + count x before = rank lens (length before)).
    { unfold rank, same_before. by rewrite Hx, Htake. }
    rewrite Hrank. pose proof (rank_lt lens (length before) Hok Hlt ltac:(lia)) as Hr.
    rewrite (proj2 (Z.ltb_lt (rank lens (length before)) _)) by lia. destruct Hpl as [Hdl Hpl].
    destruct (put_ok (E := rar_error) dn (rank lens (length before)) (wrap16 (zlen before))) as (dn1 & -> & Hdn1 & Hv1);
      [rewrite Hdl; unfold MAX_NUM_SYMBOLS, HUFF_NC; lia|]. rewrite bind_Ok.
    destruct (put_ok (E := rar_error) copy x (rank lens (length before) + 1)) as (copy1 & -> & Hcopy1 & Hvc); [lia|]. rewrite bind_Ok.
    destruct Hnext as [<- Hlen]. apply (IH (before ++ [x]) copy1 dn1 Happ); [lia | |].
    + intros l Hl. rewrite Hvc, count_app by lia. cbn [count]. rewrite (Z.eqb_sym x l).
      destruct (Z.eqb_spec l x) as [->|]; [lia|]. rewrite Hcopy by lia. lia.
    + split; [lia|]. intros s Hs Hls. rewrite Hlen in Hs.
      pose proof (rank_lt lens s Hok ltac:(lia) Hls). rewrite Hv1 by lia.
      destruct (decide (s = length before)) as [->|Hne].
      * rewrite Z.eqb_refl. unfold wrap16. rewrite Z.mod_small; [done|]. unfold zlen in *. lia.
      * pose proof (rank_inj lens s (length before) ltac:(lia) Hls ltac:(lia)). rewrite (proj2 (Z.eqb_neq _ _)) by done. apply Hpl; [lia | done].
Qed.

(** Only symbols are ever written. *)
Definition symbols_in (n : Z) (dn : list Z) : Prop := forall p, 0 <= p -> 0 <= val dn p <= Z.max 0 (n - 1).

Lemma fill_symbols_range ns n rest sym copy dn dn' : fill_symbols ns rest sym copy dn = Ok dn' -> 0 <= sym -> sym + zlen rest <= n -> n <= 306 ->
  ns <= zlen dn -> Forall (fun l => 0 <= l <= MAX_CODE_LENGTH) rest -> (forall l, 0 <= l -> 0 <= val copy l) -> zlen copy = 16 -> symbols_in n dn -> symbols_in n dn'.
Proof.
  revert sym copy dn. induction rest as [|x rest IH]; intros sym copy dn Hrun Hs Hn Hn306 Hlen Hall Hcopy Hcl Hdn; cbn [fill_symbols] in Hrun.
  { by injection Hrun as <-. }
  rewrite zlen_cons in Hn. apply list.Forall_cons in Hall as [Hx Hall]. unfold MAX_CODE_LENGTH in Hx. rewrite land_15 in Hrun by lia.
  pose proof (zlen_nonneg rest). destruct (Z.eqb_spec x 0) as [->|]; cbn [negb] in Hrun; [apply (IH _ _ _ Hrun); done || lia|].
  rewrite (at_ok copy x), bind_Ok in Hrun by lia. specialize (Hcopy x ltac:(lia)) as Hcx.
  assert (Hput : exists dn1, (if val copy x <? ns then put (E := rar_error) dn (val copy x) (wrap16 sym) else Ok dn) = Ok dn1 /\ zlen dn1 = zlen dn /\ symbols_in n dn1).
  { destruct (Z.ltb_spec (val copy x) ns); [|by exists dn].
    destruct (put_ok (E := rar_error) dn (val copy x) (wrap16 sym) ltac:(lia)) as (dn1 & Hput & Hl1 & Hv1). exists dn1. split; [done|]. split; [done|].
    intros p Hp. rewrite Hv1 by lia. destruct (p =? val copy x); [|by apply Hdn]. unfold wrap16. rewrite Z.mod_small by lia. lia. }
  destruct Hput as (dn1 & Hput & Hl1 & Hin). rewrite Hput, bind_Ok in Hrun.
  destruct (put_ok (E := rar_error) copy x (val copy x + 1) ltac:(lia)) as (copy1 & Hp1 & Hc1 & Hv1). rewrite Hp1, bind_Ok in Hrun.
  apply (IH _ _ _ Hrun); try done; try lia. intros l Hl. rewrite Hv1 by lia. destruct (l =? x); [lia | by apply Hcopy].
Qed.

(** The arrays of limits and first places. *)
Definition limits_in (dl dp : list Z) : Prop :=
  zlen dl = 16 /\ zlen dp = 16 /\
  (forall l : nat, (l < 16)%nat -> val dl (Z.of_nat l) = limit lens l) /\ (forall l : nat, (l < 16)%nat -> val dp (Z.of_nat l) = first_pos lens l).

Lemma advance_length_ok fuel dl dp f (cur : nat) : limits_in dl dp -> (1 <= cur <= 16)%nat -> (16 < cur + fuel)%nat ->
  exists cur' : nat, advance_length fuel dl f (Z.of_nat cur) = Ok (Z.of_nat cur') /\ (cur <= cur' <= 16)%nat /\
    (forall j, (cur <= j < cur')%nat -> limit lens j <= f) /\ ((cur' < 16)%nat -> f < limit lens cur').
Proof.
  intros (Hdl & _ & Hl & _). revert cur. induction fuel as [|fuel IH]; intros cur Hc Hf; [lia|]. cbn [advance_length]. rewrite Hdl.
  destruct (Z.ltb_spec (Z.of_nat cur) 16) as [Hlt|]; [|exists cur; split_and!; try done; lia].
  rewrite (at_ok dl), bind_Ok, Hl by lia. destruct (Z.leb_spec (limit lens cur) f) as [Hle|]; [|exists cur; split_and!; try done; lia].
  destruct (IH (S cur) ltac:(lia) ltac:(lia)) as (cur' & Hrun & H1 & H2 & H3).
  replace (Z.of_nat cur + 1) with (Z.of_nat (S cur)) by lia. exists cur'. split_and!; try done; [lia | lia |].
  intros j Hj. destruct (decide (j = cur)) as [->|]; [done|]. apply H2. lia.
Qed.

(** What an array access at a field's place needs. *)
Lemma place_of dl dp f (l : nat) : limits_in dl dp -> (1 <= l < 16)%nat -> 0 <= f < 2 ^ 16 -> limit lens (l - 1) <= f ->
  at_ (E := rar_error) dl (Z.of_nat l - 1) = Ok (limit lens (l - 1)) /\
  Z.shiftr (wrap32 (f - limit lens (l - 1))) (16 - Z.of_nat l) = (f - limit lens (l - 1)) / 2 ^ (16 - Z.of_nat l) /\
  at_ (E := rar_error) dp (Z.of_nat l) = Ok (first_pos lens l) /\
  add_u32 (E := rar_error) (first_pos lens l) ((f - limit lens (l - 1)) / 2 ^ (16 - Z.of_nat l)) = Ok (place lens f l) /\ 0 <= place lens f l.
Proof.
  intros (Hdl & Hdp & Hl & Hp) Hr Hf Hle. pose proof Hok as [Hn _]. unfold MAX_NUM_SYMBOLS, HUFF_NC in Hn.
  pose proof (limit_bound lens (l - 1) ltac:(lia) ltac:(done)) as Hb.
  replace (Z.of_nat l - 1) with (Z.of_nat (l - 1)) by lia. rewrite !at_ok, Hl, Hp by lia.
  unfold wrap32. rewrite Z.mod_small, Z.shiftr_div_pow2 by lia.
  assert (Hpow : 1 <= 2 ^ (16 - Z.of_nat l)) by (pose proof (Z.pow_pos_nonneg 2 (16 - Z.of_nat l)); lia).
  assert (Hdiv : 0 <= (f - limit lens (l - 1)) / 2 ^ (16 - Z.of_nat l) <= f).
  { split; [apply Z.div_pos; lia|]. transitivity (f / 1); [|by rewrite Z.div_1_r]. rewrite Z.div_1_r.
    apply Z.div_le_upper_bound; [lia|]. nia. }
  pose proof (first_pos_nonneg lens l). pose proof (first_pos_le lens l). pose proof (first_pos_mono lens l (S l) ltac:(lia)).
  unfold place, add_u32. rewrite (proj2 (Z.ltb_lt _ _)) by lia. split_and!; try done. lia.
Qed.

Section quick.
Variables (dl dp dn : list Z) (q : nat).
Hypotheses (Hlim : limits_in dl dp) (Hplaced : placed dn (length lens)) (Hq : (1 <= q <= 9)%nat).

(** The field a quick entry stands for. *)
Definition entry_field (code : nat) : Z := Z.of_nat code * 2 ^ (16 - Z.of_nat q).
Definition entry_ok (ql qn : list Z) (code : nat) : Prop :=
  let f := entry_field code in
  f < limit lens q -> val ql (Z.of_nat code) = Z.of_nat (code_length lens f) /\ val qn (Z.of_nat code) = val dn (place lens f (code_length lens f)).

Definition quick_inv (code : nat) (st : Z * list Z * list Z) : Prop :=
  let '(cur, ql, qn) := st in
  zlen ql = MAX_QUICK_ENTRIES /\ zlen qn = MAX_QUICK_ENTRIES /\
  (exists c : nat, cur = Z.of_nat c /\ (1 <= c <= 16)%nat /\ forall j, (1 <= j < c)%nat -> limit lens j <= entry_field code) /\
  forall k, (k < code)%nat -> entry_ok ql qn k.

Lemma entry_field_range code : (code < 2 ^ q)%nat -> 0 <= entry_field code < 2 ^ 16.
Proof.
  intros Hc. unfold entry_field. assert (0 < 2 ^ (16 - Z.of_nat q)) by (apply Z.pow_pos_nonneg; lia).
  assert (Z.of_nat code < 2 ^ Z.of_nat q) by (change 2 with (Z.of_nat 2); rewrite <- Nat2Z.inj_pow; lia).
  assert (2 ^ Z.of_nat q * 2 ^ (16 - Z.of_nat q) = 2 ^ 16) by (rewrite <- Z.pow_add_r by lia; f_equal; lia). nia.
Qed.

Lemma quick_step_ok code st : (code < 2 ^ q)%nat -> quick_inv code st ->
  spec (quick_step dl dp dn (Z.of_nat q) (zlen lens) code st) (quick_inv (S code)) (fun _ => False).
Proof.
  destruct st as [[cur ql] qn]. intros Hcode (Hql & Hqn & (c & -> & Hc & Hbelow) & Hent).
  pose proof (entry_field_range code Hcode) as Hf. assert (Hpow : (2 ^ q <= 2 ^ 9)%nat) by (apply Nat.pow_le_mono_r; lia).
  change (2 ^ 9)%nat with 512%nat in Hpow. change MAX_QUICK_ENTRIES with 512 in *.
  unfold quick_step. cbv beta iota.
  assert (Hfield : wrap32 (Z.shiftl (Z.of_nat code) (16 - Z.of_nat q)) = entry_field code).
  { rewrite Z.shiftl_mul_pow2 by lia. apply Z.mod_small. unfold entry_field in *. lia. }
  rewrite Hfield. destruct (advance_length_ok 17 dl dp (entry_field code) c Hlim Hc ltac:(lia)) as (l & Hrun & Hl & Hlo & Hhi).
  rewrite Hrun, bind_Ok. destruct (set_nat_ok ql code (Z.of_nat l) ltac:(lia)) as (ql' & -> & Hql' & Hvl). rewrite bind_Ok.
  pose proof Hlim as (Hdl & Hdp & Hll & _).
  assert (Hlow : forall j, (1 <= j < l)%nat -> limit lens j <= entry_field code).
  { intros j Hj. destruct (decide (j < c)%nat); [apply Hbelow; lia | apply Hlo; lia]. }
  assert (Hprev : limit lens (l - 1) <= entry_field code) by (destruct (decide (l = 1%nat)) as [->|]; [change (0 <= entry_field code); lia | apply Hlow; lia]).
  assert (Hnext : forall j, (1 <= j < l)%nat -> limit lens j <= entry_field (S code)).
  { intros j Hj. specialize (Hlow j Hj). assert (entry_field code <= entry_field (S code)); [|lia].
    unfold entry_field. assert (0 < 2 ^ (16 - Z.of_nat q)) by (apply Z.pow_pos_nonneg; lia). nia. }
  assert (Hlen : entry_field code < limit lens q -> (l <= q)%nat /\ code_length lens (entry_field code) = l).
  { intros Hlt. assert (l <= q)%nat.
    { destruct (decide (l <= q)%nat); [done|]. pose proof (Hlow q ltac:(lia)). lia. }
    split; [done|]. apply code_length_unique; [lia | lia | done | intros; apply Hhi; lia]. }
  assert (Hkeep : forall qn', (forall k, (k < code)%nat -> val qn' (Z.of_nat k) = val qn (Z.of_nat k)) ->
            (entry_field code < limit lens q -> val qn' (Z.of_nat code) = val dn (place lens (entry_field code) l)) -> zlen qn' = 512 ->
            quick_inv (S code) (Z.of_nat l, ql', qn')).
  { intros qn' Hold Hnew Hlen'. unfold quick_inv. change MAX_QUICK_ENTRIES with 512. split_and!; [lia | done | |].
    - exists l. split_and!; [done | lia | lia | done].
    - intros k Hk. unfold entry_ok. cbv zeta. intros Hlt. rewrite Hvl. case_decide as Heq.
      + subst k. destruct (Hlen Hlt) as [_ ->]. split; [done | by apply Hnew].
      + rewrite Hold by lia. apply (Hent k ltac:(lia) Hlt). }
  rewrite Hdp. destruct (Z.ltb_spec (Z.of_nat l) 16) as [Hl16|Hl16].
  2: { rewrite at_ok, bind_Ok by lia. cbn [spec mret outcome_ret]. apply Hkeep; [done | | done].
       intros Hlt. destruct (Hlen Hlt). lia. }
  destruct (place_of dl dp (entry_field code) l Hlim ltac:(lia) Hf Hprev) as (-> & Hsh & -> & Hadd & Hpl). rewrite !bind_Ok, Hsh, Hadd, bind_Ok.
  destruct Hplaced as [Hdn _]. change MAX_NUM_SYMBOLS with 306 in Hdn. pose proof Hok as [Hn _]. change MAX_NUM_SYMBOLS with 306 in Hn.
  destruct (Z.ltb_spec (place lens (entry_field code) l) (zlen lens)) as [Hin|Hout].
  - rewrite at_ok, bind_Ok by lia. destruct (set_nat_ok qn code (val dn (place lens (entry_field code) l)) ltac:(lia)) as (qn' & -> & Hqn' & Hvn).
    rewrite bind_Ok. cbn [spec mret outcome_ret]. apply Hkeep; [|intros _; rewrite Hvn; by case_decide | lia].
    intros k Hk. rewrite Hvn. case_decide; [lia | done].
  - cbn [spec mret outcome_ret]. apply Hkeep; [done | | done]. intros Hlt. destruct (Hlen Hlt) as [Hlq _].
    pose proof (place_range lens (entry_field code) l ltac:(lia) Hprev ltac:(apply Hhi; lia)). lia.
Qed.
End quick.

(** What a built table holds. *)
Record built (self : HuffmanTable.t) (q : nat) : Prop := mk_built {
  bt_quick : quick_bits self = Z.of_nat q /\ (1 <= q <= 9)%nat;
  bt_symbols : num_symbols self = zlen lens;
  bt_limits : limits_in (decode_len self) (decode_pos self);
  bt_placed : placed (decode_num self) (length lens);
  bt_range : symbols_in (zlen lens) (decode_num self);
  bt_lens : zlen (quick_len self) = MAX_QUICK_ENTRIES /\ zlen (quick_num self) = MAX_QUICK_ENTRIES;
  bt_entries : forall code, (code < 2 ^ q)%nat -> entry_ok (decode_num self) q (quick_len self) (quick_num self) code
}.

Lemma spec_total {E A} (m : outcome E A) P : spec m P (fun _ => False) -> exists a, m = Ok a /\ P a.
Proof. destruct m; cbn; [eauto | done | done]. Qed.

Lemma count_zeros ls l : l <> 0 -> Forall (fun x => x = 0) ls -> count l ls = 0.
Proof. intros Hl. induction 1 as [|x ls -> _ IH]; [done|]. cbn [count]. rewrite IH, (proj2 (Z.eqb_neq 0 l)) by done. done. Qed.

Lemma build_ok : exists self q, build lens = Ok self /\ built self q.
Proof.
  pose proof Hok as [Hn Hall]. unfold build. rewrite (proj2 (Z.ltb_ge _ _) Hn).
  assert (Hq : exists q, quick_bits_for_size (zlen lens) = Z.of_nat q /\ (1 <= q <= 9)%nat).
  { unfold quick_bits_for_size. destruct (_ || _); [exists 9%nat; split; [done | lia] | exists 6%nat; split; [done | lia]]. }
  destruct Hq as (q & Hq & Hqr). cbv zeta. rewrite Hq.
  destruct (count_lengths_ok lens (zeros 16) 0 Hall (zlen_zeros 16 ltac:(lia)) ltac:(lia)) as (lc & m & -> & Hlc & Hm & Hcount & Hzero).
  rewrite bind_Ok. destruct (put_ok (E := rar_error) lc 0 0 ltac:(lia)) as (lc1 & -> & Hlc1 & Hv1). rewrite bind_Ok.
  assert (Hc : forall i, 1 <= i < 16 -> val lc1 i = count i lens).
  { intros i Hi. rewrite Hv1, (proj2 (Z.eqb_neq i 0)), Hcount, val_zeros by lia. lia. }
  destruct (Z.eqb_spec m 0) as [Hm0|Hm0].
  - destruct (Hzero Hm0) as [_ Hz]. eexists _, q. split; [done|].
    assert (Hup : forall l, upper lens l = 0) by (induction l as [|k IH]; cbn [upper]; [done|]; rewrite IH, count_zeros by (done || lia); done).
    assert (Hfp : forall l, first_pos lens l = 0) by (induction l as [|[|k] IH]; [done | done|]; rewrite first_pos_S, IH, count_zeros by (done || lia); done).
    constructor; cbn [quick_bits num_symbols decode_len decode_pos decode_num quick_len quick_num]; try done.
    + split_and!; [done | done | |]; intros l Hl; rewrite val_zeros; [unfold limit; by rewrite Hup | by rewrite Hfp].
    + split; [done|]. intros s Hs Hls. exfalso. unfold len_of in Hls.
      destruct (lookup_lt_is_Some_2 lens s Hs) as [x Hx]. rewrite nth_lookup, Hx in Hls. cbn in Hls.
      pose proof (Forall_lookup_1 _ _ _ _ Hz Hx) as Hx0. cbn in Hx0. lia.
    + intros p _. rewrite val_zeros. lia.
    + intros code Hcode. unfold entry_ok. cbv zeta. unfold limit. rewrite Hup, Z.mul_0_l.
      pose proof (entry_field_range q Hqr code Hcode). lia.
  - assert (Hinv : limits_inv 1 (0, zeros 16, zeros 16)).
    { cbn [limits_inv]. split_and!; try done; intros j Hj; replace j with 0%nat by lia; apply val_zeros. }
    destruct (spec_total _ _ (spec_for_range limits_inv (fun _ => False) 1 15 (limits_step lc1) _ Hinv
      (fun i st Hi Hst => limits_step_ok lc1 i st (eq_trans Hlc1 Hlc) (eq_trans (Hv1 0 ltac:(lia)) eq_refl) Hc ltac:(lia) Hst))) as ([[u dl] dp] & -> & _ & Hdl & Hdp & Hl & Hp).
    rewrite bind_Ok. assert (Hlim : limits_in dl dp) by (split_and!; done).
    destruct (fill_symbols_ok lens [] dp (zeros MAX_NUM_SYMBOLS) eq_refl) as (dn & Hfill & Hdn); [done | | |].
    { intros l Hl'. cbn [count]. rewrite <- (Z2Nat.id l) at 1 by lia. rewrite Hp by lia. lia. }
    { split; [done|]. cbn. lia. }
    change (zlen []) with 0 in Hfill.
    assert (Hrange : symbols_in (zlen lens) dn).
    { apply (fill_symbols_range _ _ _ _ _ _ _ Hfill); [lia | lia | exact Hn | exact Hn | exact Hall | intros l' Hl'; destruct (Z.ltb_spec l' 16) | exact Hdp | intros p _; rewrite val_zeros; lia].
      - rewrite <- (Z2Nat.id l') by lia. rewrite Hp by lia. apply first_pos_nonneg.
      - unfold val. rewrite nth_overflow; [done|]. unfold zlen in Hdp. lia. }
    rewrite Hfill, bind_Ok.
    assert (Hqinv : quick_inv dn q 0 (1, zeros MAX_QUICK_ENTRIES, zeros MAX_QUICK_ENTRIES)).
    { split; [done|]. split; [done|]. split; [|intros k Hk; lia]. exists 1%nat. split; [done|]. split; [lia|]. intros j Hj. lia. }
    assert (Hn2 : Z.to_nat (Z.shiftl 1 (Z.of_nat q)) = (2 ^ q)%nat).
    { rewrite Z.shiftl_mul_pow2, Z.mul_1_l by lia. change 2 with (Z.of_nat 2). by rewrite <- Nat2Z.inj_pow, Nat2Z.id. }
    rewrite Hn2.
    destruct (spec_total _ _ (spec_for_range (quick_inv dn q) (fun _ => False) 0 (2 ^ q) (quick_step dl dp dn (Z.of_nat q) (zlen lens)) _ Hqinv
      (fun code st Hcode Hst => quick_step_ok dl dp dn q Hlim Hdn Hqr code st ltac:(lia) Hst))) as ([[c ql] qn] & -> & Hql & Hqn & _ & Hent).
    rewrite bind_Ok. eexists _, q. split; [done|]. constructor; cbn; done.
Qed.
End build.
