(* ===== verification/LzHuffmanDecode.v ===== *)
(** Decoding with a built table: every decoder is the threshold scan over the
    canonical code, on each kind of reader, and inverts the canonical encoder. *)
From S2P Require Import Prelude RarTypes StateM BitString LzBits LzBitReader LzStreamReader LzReaders LzBlock LzHuffman LzHuffmanProps.

(** * Looking a field up *)

Section lookup.
Context (lens : list Z) (self : HuffmanTable.t) (q : nat).
Hypothesis (Hok : lengths_ok lens) (Hb : built lens self q).
Import HuffmanTable.

Lemma slow_scan_ok {E} n (i : nat) f : (i + n <= 15)%nat -> (i + n = 15)%nat ->
  slow_scan (E := E) n (Z.of_nat i) (decode_len self) f = Ok (Z.of_nat (scan_from lens f n i)).
Proof.
  destruct (bt_limits _ _ _ Hb) as (Hdl & _ & Hl & _). revert i. induction n as [|n IH]; intros i Hi He; cbn [slow_scan scan_from].
  { unfold MAX_CODE_LENGTH. do 2 f_equal. lia. }
  rewrite (at_ok (decode_len self)), bind_Ok, Hl by lia. destruct (f <? limit lens i); [done|].
  replace (Z.of_nat i + 1) with (Z.of_nat (S i)) by lia. apply IH; lia.
Qed.

Lemma full_scan_ok {E} f : slow_scan (E := E) 14 1 (decode_len self) f = Ok (Z.of_nat (code_length lens f)).
Proof. apply (slow_scan_ok 14 1 f); lia. Qed.

Lemma threshold_ok {E} : quick_threshold (E := E) self = Ok (limit lens q).
Proof.
  destruct (bt_quick _ _ _ Hb) as [Hq Hr]. destruct (bt_limits _ _ _ Hb) as (Hdl & _ & Hl & _).
  unfold quick_threshold. rewrite Hq, land_15, at_ok, Hl by lia. done.
Qed.

Lemma slow_path_ok {E} f : 0 <= f -> limit lens q <= f -> slow_path_bits (E := E) self f = Ok (Z.of_nat (code_length lens f)).
Proof.
  intros Hf Hle. destruct (bt_quick _ _ _ Hb) as [Hq Hr]. unfold slow_path_bits. rewrite Hq. unfold MAX_CODE_LENGTH.
  replace (Z.of_nat q + 1) with (Z.of_nat (S q)) by lia. rewrite slow_scan_ok by lia. do 2 f_equal.
  destruct (scan_from_spec lens f (Z.to_nat (15 - Z.of_nat (S q))) (S q)) as (H1 & H2 & H3).
  set (l := scan_from _ _ _ _) in *. symmetry. apply code_length_unique; [done | lia | | intros; apply H3; lia].
  destruct (decide (l = S q)) as [->|]; [by replace (S q - 1)%nat with q by lia|]. apply H2. lia.
Qed.

(** The symbol a field decodes to. *)
Definition symbol_of (f : Z) : Z :=
  let p := place lens f (code_length lens f) in
  val (decode_num self) (Z.min (if zlen lens <=? p then 0 else p) (MAX_NUM_SYMBOLS - 1)).

Lemma symbol_ok {E} f : 0 <= f < 2 ^ 16 -> symbol_for_bits (E := E) self f (Z.of_nat (code_length lens f)) = Ok (symbol_of f).
Proof.
  intros Hf. destruct (code_length_spec lens f ltac:(lia)) as (Hl & Hlo & _). unfold symbol_for_bits, MAX_CODE_LENGTH, symbol_of.
  rewrite (proj2 (Z.leb_le 1 _)), (proj2 (Z.leb_le _ 15)) by lia. cbn [andb negb]. cbv zeta.
  destruct (place_of lens Hok _ _ f (code_length lens f) (bt_limits _ _ _ Hb) ltac:(lia) Hf Hlo) as (H1 & H2 & H3 & H4 & H5).
  set (l := code_length lens f) in *. unfold at_ in *.
  assert (Hcast : forall (o : list Z) i v, get_at (E := rar_error) o i = Ok v -> get_at (E := E) o i = Ok v).
  { intros o i v. unfold get_at. by destruct (o !! i); intros [=->]. }
  rewrite (Hcast _ _ _ H1), bind_Ok, H2, (Hcast _ _ _ H3), bind_Ok.
  assert (add_u32 (E := E) (first_pos lens l) ((f - limit lens (l - 1)) / 2 ^ (16 - Z.of_nat l)) = Ok (place lens f l)) as ->.
  { unfold add_u32 in *. destruct (_ <? 2 ^ 32); [congruence | done]. }
  rewrite bind_Ok, (bt_symbols _ _ _ Hb). pose proof (bt_placed _ _ _ Hb) as [Hdn _]. unfold MAX_NUM_SYMBOLS, HUFF_NC in *.
  apply (at_ok (decode_num self)). destruct (zlen lens <=? place lens f l); lia.
Qed.

(** Rounding a field down to the quick table's grid changes nothing below its threshold. *)
Lemma rounded f : 0 <= f < 2 ^ 16 -> f < limit lens q ->
  let e := entry_field q (Z.to_nat (f / 2 ^ (16 - Z.of_nat q))) in
  e < limit lens q /\ code_length lens e = code_length lens f /\ place lens e (code_length lens f) = place lens f (code_length lens f) /\
  0 <= place lens f (code_length lens f) < zlen lens.
Proof.
  intros Hf Hlt e. destruct (bt_quick _ _ _ Hb) as [_ Hr]. destruct (code_length_spec lens f ltac:(lia)) as (Hl & Hlo & Hhi).
  set (l := code_length lens f) in *. set (m := 2 ^ (16 - Z.of_nat q)) in *.
  assert (Hm : 0 < m) by (apply Z.pow_pos_nonneg; lia).
  assert (He : e = m * (f / m)).
  { unfold e, entry_field. fold m. rewrite Z2Nat.id by (apply Z.div_pos; lia). lia. }
  assert (Hef : 0 <= e <= f). { rewrite He. split; [pose proof (Z.div_pos f m ltac:(lia) Hm); nia | apply Z.mul_div_le; lia]. }
  assert (Hlq : (l <= q)%nat).
  { destruct (decide (l <= q)%nat); [done|]. pose proof (limit_mono lens q (l - 1) ltac:(lia)). lia. }
  assert (Hstep : 2 ^ (16 - Z.of_nat l) = m * 2 ^ (Z.of_nat q - Z.of_nat l)) by (unfold m; rewrite <- Z.pow_add_r by lia; f_equal; lia).
  set (k := 2 ^ (Z.of_nat q - Z.of_nat l)) in *. assert (Hk : 0 < k) by (apply Z.pow_pos_nonneg; lia).
  assert (Hlim : limit lens (l - 1) = 2 ^ (16 - Z.of_nat l) * (2 * upper lens (l - 1))).
  { unfold limit. replace (16 - Z.of_nat (l - 1)) with (1 + (16 - Z.of_nat l)) by lia. rewrite Z.pow_add_r by lia. change (2 ^ 1) with 2. lia. }
  assert (Hdiv : forall x, (x - limit lens (l - 1)) / 2 ^ (16 - Z.of_nat l) = x / (m * k) - 2 * upper lens (l - 1)).
  { intros x. rewrite Hlim, Hstep. replace (x - m * k * (2 * upper lens (l - 1))) with (x + - (2 * upper lens (l - 1)) * (m * k)) by ring.
    rewrite Z.div_add by lia. ring. }
  assert (Hsame : e / (m * k) = f / (m * k)).
  { rewrite He, <- !Z.div_div by lia. by rewrite (Z.mul_comm m), Z.div_mul by lia. }
  assert (Hle : limit lens (l - 1) <= e).
  { rewrite Hlim, Hstep in *. rewrite He. assert (k * (2 * upper lens (l - 1)) <= f / m); [|nia]. apply Z.div_le_lower_bound; lia. }
  assert (Hf' : f < limit lens l).
  { destruct (decide (l = 15)%nat); [lia | apply Hhi; lia]. }
  split; [lia|]. split; [|split].
  - apply code_length_unique; [lia | lia | done | intros; lia].
  - unfold place. by rewrite !Hdiv, Hsame.
  - apply place_range; [lia | exact Hlo | exact Hf'].
Qed.

Lemma quick_entry f : 0 <= f < 2 ^ 16 -> f < limit lens q ->
  forall E, at_ (E := E) (quick_len self) (quick_index self f) = Ok (Z.of_nat (code_length lens f)) /\
  at_ (E := E) (quick_num self) (quick_index self f) = Ok (symbol_of f).
Proof.
  intros Hf Hlt E. destruct (bt_quick _ _ _ Hb) as [Hq Hr]. destruct (rounded f Hf Hlt) as (He & Hcl & Hpl & Hin).
  set (code := Z.to_nat (f / 2 ^ (16 - Z.of_nat q))) in *.
  assert (Hcode : 0 <= f / 2 ^ (16 - Z.of_nat q) < 2 ^ Z.of_nat q).
  { assert (0 < 2 ^ (16 - Z.of_nat q)) by (apply Z.pow_pos_nonneg; lia). split; [apply Z.div_pos; lia|].
    apply Z.div_lt_upper_bound; [lia|]. rewrite <- Z.pow_add_r by lia. replace (16 - Z.of_nat q + Z.of_nat q) with 16 by lia. lia. }
  assert (H9 : 2 ^ Z.of_nat q <= 512) by (change 512 with (2 ^ 9); apply Z.pow_le_mono_r; lia).
  assert (Hidx : quick_index self f = Z.of_nat code).
  { unfold quick_index, code. rewrite Hq, Z.shiftr_div_pow2 by lia. change (MAX_QUICK_ENTRIES - 1) with (Z.ones 9).
    rewrite Z.land_ones, Z.mod_small, Z2Nat.id by lia. done. }
  assert (Hnat : (code < 2 ^ q)%nat).
  { apply Nat2Z.inj_lt. rewrite Nat2Z.inj_pow. unfold code. rewrite Z2Nat.id by lia. apply Hcode. }
  destruct (bt_entries _ _ _ Hb code Hnat He) as [Hlv Hnv]. destruct (bt_lens _ _ _ Hb) as [Hl1 Hl2]. change MAX_QUICK_ENTRIES with 512 in *.
  rewrite Hidx, !at_ok by lia. rewrite Hlv, Hnv, Hcl, Hpl. split; [done|]. f_equal. unfold symbol_of.
  pose proof Hok as [Hn _]. unfold MAX_NUM_SYMBOLS, HUFF_NC in *. rewrite (proj2 (Z.leb_gt _ _)) by lia. f_equal. lia.
Qed.
End lookup.

(** * The decoders *)

(** Decoding without the quick table: the first length whose limit is above
    the field, scanned from one bit on. *)
Definition scan_decode (self : HuffmanTable.t) : bits_spec Z :=
  f ← spec_peek16_left;
  bits ← spec_lift (HuffmanTable.slow_scan 14 1 (HuffmanTable.decode_len self) f);
  _ ← spec_skip bits;
  spec_lift (HuffmanTable.symbol_for_bits self f bits).

Lemma Ok_pair_inj {E A B} (a c : A) (b d : B) : Ok (E := E) (a, b) = Ok (c, d) -> a = c.
Proof. by intros [= -> _]. Qed.

(** Peeked fields have sixteen bits. *)
Lemma peek_left_range data pos f p : spec_peek16_left data pos = Ok (f, p) -> 0 <= f < 2 ^ 16.
Proof.
  unfold spec_peek16_left, mbind, bits_spec_bind, spec_peek16. destruct (fits data pos 1); [|done]. intros <-%Ok_pair_inj.
  apply land_range_r; lia.
Qed.

Section decoders.
Context (lens : list Z) (self : HuffmanTable.t) (q : nat).
Hypothesis (Hok : lengths_ok lens) (Hb : built lens self q).
Import HuffmanTable.

(** The two paths behind a peek, for any way of consuming bits. *)
Definition decode_field {R} (consume : Z -> stateM R rar_error unit) (bit_field : Z) : stateM R rar_error Z :=
  threshold ← lift (quick_threshold self);
  if bit_field <? threshold then
    n ← lift (at_ (quick_len self) (quick_index self bit_field));
    _ ← consume n;
    lift (at_ (quick_num self) (quick_index self bit_field))
  else
    bits ← lift (slow_path_bits self bit_field);
    _ ← consume bits;
    lift (symbol_for_bits self bit_field bits).

Lemma decode_field_ok {R} (tracks : R -> list byte -> Z -> Prop) consume f : 0 <= f < 2 ^ 16 ->
  (forall n, 0 <= n <= 32 -> realizes tracks (consume n) (spec_skip n)) ->
  realizes tracks (decode_field consume f)
    (bits ← spec_lift (slow_scan 14 1 (decode_len self) f); _ ← spec_skip bits; spec_lift (symbol_for_bits self f bits)).
Proof.
  intros Hf Hconsume. destruct (code_length_spec lens f ltac:(lia)) as (Hl & _).
  assert (Hboth : forall m, m = Ok (symbol_of lens self f) ->
    realizes tracks (_ ← consume (Z.of_nat (code_length lens f)); lift m)
      (bits ← spec_lift (slow_scan 14 1 (decode_len self) f); _ ← spec_skip bits; spec_lift (symbol_for_bits self f bits))).
  { intros m ->. apply (realizes_spec _ _ (_ ← spec_skip (Z.of_nat (code_length lens f)); spec_lift (Ok (symbol_of lens self f)))).
    - apply realizes_bind; [apply Hconsume; lia | intros _; apply realizes_lift].
    - intros r data pos _. rewrite <- (symbol_ok lens self q Hok Hb f Hf), (full_scan_ok lens self q Hb f). done. }
  unfold decode_field. rewrite (threshold_ok lens self q Hb).
  intros r data pos Hr. change (lift (Ok (limit lens q))) with (mret (limit lens q) : stateM R rar_error Z). rewrite bind_mret.
  destruct (Z.ltb_spec f (limit lens q)) as [Hlt|Hge].
  - destruct (quick_entry lens self q Hok Hb f Hf Hlt rar_error) as [-> Hnum].
    apply (Hboth _ Hnum r data pos Hr).
  - rewrite (slow_path_ok lens self q Hb f) by lia. apply (Hboth _ (symbol_ok lens self q Hok Hb f Hf) r data pos Hr).
Qed.

Lemma decode_realizes {R} `{BitReadLaws R} : realizes tracks (decode self) (scan_decode self).
Proof.
  apply (realizes_bind_on _ (fun f => 0 <= f < 2 ^ 16)); [apply peek_left_law | apply peek_left_range |].
  intros f Hf. apply (decode_field_ok tracks consume_bits f Hf consume_law).
Qed.

Lemma decode_bitreader_realizes : realizes at_bit (decode_bitreader self) (scan_decode self).
Proof.
  assert (Hassoc : forall r, decode_bitreader self r =
    ((_ ← BitReader.ensure_bits 16; reader ← gets id; lift (BitReader.getbits reader)) ≫= decode_field BitReader.addbits) r).
  { intros r. unfold decode_bitreader, mbind, stateM_bind. by destruct (BitReader.ensure_bits 16 r) as [[[]| |] ?]. }
  assert (Hmain : realizes at_bit ((_ ← BitReader.ensure_bits 16; reader ← gets id; lift (BitReader.getbits reader)) ≫= decode_field BitReader.addbits) (scan_decode self)).
  { apply (realizes_bind_on _ (fun f => 0 <= f < 2 ^ 16)); [apply bit_peek_left | apply peek_left_range |].
    intros f Hf. apply (decode_field_ok at_bit BitReader.addbits f Hf bit_consume). }
  intros r data pos Hr. rewrite Hassoc. by apply Hmain.
Qed.

(** Where the scan moves the cursor and what it returns. *)
Lemma scan_decode_at data pos :
  scan_decode self data pos =
  if fits data pos 1 then
    let f := Z.land (field data pos 16) 0xfffe in
    if fits data pos (Z.of_nat (code_length lens f)) then Ok (symbol_of lens self f, pos + Z.of_nat (code_length lens f)) else Err CorruptArchive
  else Err CorruptArchive.
Proof.
  unfold scan_decode, spec_peek16_left, mbind, bits_spec_bind, spec_peek16. destruct (fits data pos 1); [|done].
  unfold mret, bits_spec_ret. cbv zeta. set (f := Z.land (field data pos 16) 0xfffe).
  assert (Hf : 0 <= f < 2 ^ 16) by (apply land_range_r; lia).
  clearbody f. rewrite (full_scan_ok lens self q Hb f). unfold spec_lift, spec_skip.
  destruct (fits data pos (Z.of_nat (code_length lens f))); [|reflexivity].
  rewrite (symbol_ok lens self q Hok Hb f Hf). reflexivity.
Qed.

(** ** Inside a block *)

Variables (src : list byte) (stop : Z).
Hypothesis (Hsize : bit_len src < 2 ^ 64) (Hahead : (stop + 7) / 8 + LOOKAHEAD_BYTES <= zlen src).

Lemma block_decodes reader p : at_block src stop reader p -> p <= stop + OVERSHOOT_BITS ->
  exists s p' r, scan_decode self src p = Ok (s, p') /\
    decode_block_reader self reader = Ok (s, Z.land (field src p 16) 0xfffe <? limit lens q, r) /\ at_block src stop r p' /\ p < p'.
Proof.
  intros Hr Hp. pose proof (blk_nonneg _ _ _ _ Hr) as Hnn. pose proof (near_fits src stop Hahead p ltac:(lia)) as Hnear.
  set (f := Z.land (field src p 16) 0xfffe).
  assert (Hf : 0 <= f < 2 ^ 16) by (apply land_range_r; lia).
  destruct (code_length_spec lens f ltac:(lia)) as (Hl & _).
  assert (Hroom : p + 16 <= bit_len src) by (unfold bit_len; Z.to_euclidean_division_equations; lia).
  destruct (advance_ok src stop Hahead reader p (Z.of_nat (code_length lens f)) Hr) as (r & Hadv & Hr'); [lia | lia |].
  exists (symbol_of lens self f), (p + Z.of_nat (code_length lens f)), r. split; [|split; [|split; [done | lia]]].
  - rewrite scan_decode_at. unfold fits. fold f. by rewrite !(proj2 (Z.leb_le _ _)) by lia.
  - unfold decode_block_reader. rewrite (peek_u16_ok src stop Hahead reader p Hr Hp), bind_Ok. cbv zeta. fold f.
    rewrite (threshold_ok lens self q Hb), bind_Ok. destruct (Z.ltb_spec f (limit lens q)) as [Hlt|Hge].
    + destruct (quick_entry lens self q Hok Hb f Hf Hlt BlockReaderError) as [-> ->]. by rewrite bind_Ok, Hadv, !bind_Ok.
    + rewrite (slow_path_ok lens self q Hb f), bind_Ok, Hadv, bind_Ok, (symbol_ok lens self q Hok Hb) by lia. done.
Qed.

Lemma cursor_decodes reader : BlockReader.data reader = src -> BlockReader.end_bit reader = stop ->
  decode_cursor self (export_cursor reader) src stop = (fun '(s, fast, r) => (s, fast, export_cursor r)) <$> decode_block_reader self reader.
Proof.
  intros Hd He. unfold decode_cursor, decode_block_reader. rewrite <- Hd, <- He.
  change (BitCursor.peek_u16 (export_cursor reader) (BlockReader.data reader)) with (BlockReader.peek_u16 reader).
  destruct (BlockReader.peek_u16 reader); [|done..]. rewrite !bind_Ok. destruct (quick_threshold self); [|done..]. rewrite !bind_Ok.
  destruct (_ <? _).
  - destruct (at_ (quick_len self) _); [|done..]. rewrite !bind_Ok, advance_lockstep.
    destruct (BlockReader.advance _ reader); [|done..]. cbn. by destruct (at_ (quick_num self) _).
  - destruct (slow_path_bits self _); [|done..]. rewrite !bind_Ok, advance_lockstep.
    destruct (BlockReader.advance _ reader); [|done..]. cbn. by destruct (symbol_for_bits self _ _).
Qed.
End decoders.

(** * The canonical encoder *)

Definition code_bits (code len : Z) : list bool :=
  (fun i => Z.testbit code (len - 1 - Z.of_nat i)) <$> seq 0 (Z.to_nat len).
Definition encode_bits (lens : list Z) (syms : list nat) : list bool := syms ≫= fun s => code_bits (code_of lens s) (len_of lens s).

(** Bits packed into bytes, the first bit on top, the last byte padded with zeros. *)
Definition byte_of_bits (bits : list bool) (i : nat) : byte :=
  byte_of (fold_left (fun acc k => 2 * acc + Z.b2z (nth (8 * i + k) bits false)) (seq 0 8) 0).
Definition pack_bits (bits : list bool) : list byte := byte_of_bits bits <$> seq 0 ((length bits + 7) / 8).

Definition encode (lens : list Z) (syms : list nat) : list byte := pack_bits (encode_bits lens syms).

Fixpoint decode_many {R} `{BitRead R} (self : HuffmanTable.t) (n : nat) : stateM R rar_error (list Z) :=
  match n with
  | O => mret []
  | S n => s ← HuffmanTable.decode self; ss ← decode_many self n; mret (s :: ss)
  end.

(** A symbol the lengths give a code to. *)
Definition has_code (lens : list Z) (s : nat) : Prop := (s < length lens)%nat /\ 0 < len_of lens s.

Lemma testbit_fold bits acc k : (k < length bits)%nat ->
  Z.testbit (fold_left (fun acc b => 2 * acc + Z.b2z b) bits acc) (Z.of_nat (length bits) - 1 - Z.of_nat k) = nth k bits false.
Proof.
  induction bits as [|b bits IH] using rev_ind; intros Hk; [cbn in Hk; lia|]. rewrite length_app in *. cbn [length] in *.
  rewrite fold_left_app. cbn [fold_left]. destruct (decide (k = length bits)) as [->|].
  - replace (Z.of_nat (length bits + 1) - 1 - Z.of_nat (length bits)) with 0 by lia.
    rewrite Z.testbit_0_r, app_nth2, Nat.sub_diag by lia. done.
  - replace (Z.of_nat (length bits + 1) - 1 - Z.of_nat k) with (Z.succ (Z.of_nat (length bits) - 1 - Z.of_nat k)) by lia.
    rewrite Z.testbit_succ_r, IH, app_nth1 by lia. done.
Qed.

Lemma fold_bits_range (bits : list bool) acc n : 0 <= acc < 2 ^ n -> 0 <= n ->
  0 <= fold_left (fun acc b => 2 * acc + Z.b2z b) bits acc < 2 ^ (n + Z.of_nat (length bits)).
Proof.
  revert acc n. induction bits as [|b bits IH]; intros acc n Hacc Hn; cbn [fold_left length]; [by rewrite Z.add_0_r|].
  replace (n + Z.of_nat (S (length bits))) with ((n + 1) + Z.of_nat (length bits)) by lia. apply IH; [|lia].
  rewrite Z.pow_add_r by lia. destruct b; cbn [Z.b2z]; lia.
Qed.

Lemma bit_at_pack bits i : 0 <= i -> bit_at (pack_bits bits) i = nth (Z.to_nat i) bits false.
Proof.
  intros Hi. assert (Hlen : zlen (pack_bits bits) = Z.of_nat ((length bits + 7) / 8)) by (unfold pack_bits, zlen; by rewrite length_fmap, length_seq).
  pose proof (Nat.div_mod_eq (length bits + 7) 8) as Hdm. pose proof (Nat.mod_upper_bound (length bits + 7) 8 ltac:(lia)).
  destruct (Z.ltb_spec i (bit_len (pack_bits bits))) as [Hlt|Hge].
  2: { rewrite bit_at_past by done. unfold bit_len in Hge. rewrite nth_overflow; [done | lia]. }
  unfold bit_len in Hlt. unfold bit_at. rewrite (proj2 (Z.leb_le 0 i)) by lia. cbn [andb].
  set (j := Z.to_nat (i / 8)). set (k := Z.to_nat (i mod 8)).
  assert (Hjk : Z.of_nat j = i / 8 /\ Z.of_nat k = i mod 8 /\ (k < 8)%nat /\ Z.to_nat i = (8 * j + k)%nat).
  { unfold j, k. rewrite !Z2Nat.id by (Z.to_euclidean_division_equations; lia).
    pose proof (Z.mod_pos_bound i 8 ltac:(lia)). split_and!; try done; [lia|]. pose proof (Z.div_mod i 8 ltac:(lia)).
    pose proof (Z.div_pos i 8 ltac:(lia) ltac:(lia)). lia. }
  destruct Hjk as (Hj & Hk & Hk8 & Hij). rewrite <- Hk, Hij.
  assert (Hjlt : (j < (length bits + 7) / 8)%nat) by lia.
  unfold pack_bits. rewrite nth_lookup, list_lookup_fmap, lookup_seq_lt by done. cbn [fmap option_fmap option_map default]. unfold id. rewrite Nat.add_0_l.
  unfold byte_of_bits.
  set (window := [nth (8 * j + 0) bits false; nth (8 * j + 1) bits false; nth (8 * j + 2) bits false; nth (8 * j + 3) bits false;
    nth (8 * j + 4) bits false; nth (8 * j + 5) bits false; nth (8 * j + 6) bits false; nth (8 * j + 7) bits false]).
  change (fold_left (fun acc k => 2 * acc + Z.b2z (nth (8 * j + k) bits false)) (seq 0 8) 0) with (fold_left (fun acc b => 2 * acc + Z.b2z b) window 0).
  pose proof (fold_bits_range window 0 0 ltac:(lia) ltac:(lia)) as Hr. change (2 ^ (0 + Z.of_nat (length window))) with 256 in Hr.
  rewrite u8_byte_of_small by exact Hr. replace (7 - Z.of_nat k) with (Z.of_nat (length window) - 1 - Z.of_nat k) by (cbn [length window]; lia).
  rewrite testbit_fold by (cbn [length window]; lia).
  do 8 (destruct k as [|k]; [done|]). lia.
Qed.

(** * Decoding what the encoder wrote *)

Lemma field_code data pos c l : 0 <= l -> 0 <= c < 2 ^ l -> (forall i : nat, Z.of_nat i < l -> bit_at data (pos + Z.of_nat i) = nth i (code_bits c l) false) ->
  field data pos l = c.
Proof.
  intros Hl Hc Hbits. apply (bits_eq _ _ l Hl (field_range _ _ _ Hl) Hc). intros k Hk.
  rewrite testbit_field, (proj2 (Z.ltb_lt k l)) by lia. cbn [andb].
  replace (pos + l - 1 - k) with (pos + Z.of_nat (Z.to_nat (l - 1 - k))) by lia. rewrite Hbits by lia.
  unfold code_bits. rewrite nth_lookup, list_lookup_fmap, lookup_seq_lt by lia. cbn. f_equal. lia.
Qed.

Lemma upper_fits lens l : codes_fit lens -> (l <= 15)%nat -> upper lens l <= 2 ^ Z.of_nat l.
Proof.
  intros Hfit Hl. assert (Hgrow : forall k, (l + k <= 15)%nat -> upper lens l * 2 ^ Z.of_nat k <= upper lens (l + k)).
  { induction k as [|k IH]; intros Hk; [rewrite Nat.add_0_r; lia|]. specialize (IH ltac:(lia)). rewrite Nat.add_succ_r. cbn [upper].
    pose proof (count_nonneg (Z.of_nat (S (l + k))) lens). rewrite Nat2Z.inj_succ, Z.pow_succ_r by lia. lia. }
  specialize (Hgrow (15 - l)%nat ltac:(lia)). replace (l + (15 - l))%nat with 15%nat in Hgrow by lia. unfold codes_fit in Hfit.
  assert (Hp : 2 ^ Z.of_nat l * 2 ^ Z.of_nat (15 - l) = 2 ^ 15) by (rewrite <- Z.pow_add_r by lia; f_equal; lia).
  assert (0 < 2 ^ Z.of_nat (15 - l)) by (apply Z.pow_pos_nonneg; lia). nia.
Qed.

Lemma code_range lens s : lengths_ok lens -> codes_fit lens -> has_code lens s -> 0 <= code_of lens s < 2 ^ len_of lens s /\ len_of lens s <= 15.
Proof.
  intros [_ Hall] Hfit [Hs Hl]. destruct (lookup_lt_is_Some_2 lens s Hs) as [x Hx].
  assert (Hle : len_of lens s <= 15).
  { pose proof (Forall_lookup_1 _ _ _ _ Hall Hx) as Hr. unfold len_of. rewrite nth_lookup, Hx. apply Hr. }
  split; [|done]. pose proof (same_before_lt lens s Hs). unfold code_of.
  pose proof (upper_fits lens (Z.to_nat (len_of lens s)) Hfit ltac:(lia)) as Hu. pose proof (upper_nonneg lens (Z.to_nat (len_of lens s) - 1)).
  destruct (Z.to_nat (len_of lens s)) as [|k] eqn:E; [lia|]. cbn [upper] in Hu. replace (S k - 1)%nat with k in * by lia.
  replace (Z.of_nat (S k)) with (len_of lens s) in Hu by lia. lia.
Qed.

Lemma masked f : 0 <= f < 2 ^ 16 -> Z.land f 0xfffe = 2 * (f / 2).
Proof.
  intros Hf. change 0xfffe with (Z.shiftl (Z.ones 15) 1).
  trans (Z.shiftl (Z.shiftr f 1) 1); [|rewrite Z.shiftl_mul_pow2, Z.shiftr_div_pow2 by lia; change (2 ^ 1) with 2; lia].
  apply Z.bits_inj'. intros k Hk. rewrite Z.land_spec, !Z.shiftl_spec by lia.
  destruct (decide (k = 0)) as [->|]; [by rewrite !(Z.testbit_neg_r _ (0 - 1)), andb_false_r by lia|].
  rewrite Z.shiftr_spec by lia. replace (k - 1 + 1) with k by lia. destruct (Z.ltb_spec (k - 1) 15).
  - rewrite Z.ones_spec_low by lia. apply andb_true_r.
  - rewrite Z.ones_spec_high, andb_false_r by lia. by rewrite (testbit_high f 16 k) by lia.
Qed.

Section roundtrip.
Context (lens : list Z) (self : HuffmanTable.t) (q : nat).
Hypothesis (Hok : lengths_ok lens) (Hfit : codes_fit lens) (Hb : built lens self q).

(** A field that starts with a symbol's code decodes to the symbol. *)
Lemma code_decodes s f : has_code lens s -> 0 <= f < 2 ^ 16 -> f / 2 ^ (16 - len_of lens s) = code_of lens s ->
  Z.of_nat (code_length lens f) = len_of lens s /\ symbol_of lens self f = Z.of_nat s.
Proof.
  intros Hs Hf Hcode. destruct (code_range lens s Hok Hfit Hs) as [Hc Hl15]. destruct Hs as [Hs Hl].
  set (l := Z.to_nat (len_of lens s)). assert (Hlz : len_of lens s = Z.of_nat l) by lia. rewrite Hlz in *.
  set (m := 2 ^ (16 - Z.of_nat l)) in *. assert (Hm : 0 < m) by (apply Z.pow_pos_nonneg; lia).
  pose proof (same_before_lt lens s Hs) as Hsame. rewrite Hlz in Hsame.
  assert (Hlim : limit lens (l - 1) = 2 * upper lens (l - 1) * m).
  { unfold limit, m. replace (16 - Z.of_nat (l - 1)) with (1 + (16 - Z.of_nat l)) by lia. rewrite Z.pow_add_r by lia. change (2 ^ 1) with 2. lia. }
  assert (Hcodeof : code_of lens s = 2 * upper lens (l - 1) + same_before lens s) by (unfold code_of; by fold l).
  pose proof (Z.div_mod f m ltac:(lia)) as Hdm. pose proof (Z.mod_pos_bound f m Hm) as Hmod. rewrite Hcode in Hdm.
  assert (Hlo : limit lens (l - 1) <= f) by (rewrite Hlim; nia).
  assert (Hhi : f < limit lens l).
  { destruct l as [|k]; [lia|]. replace (S k - 1)%nat with k in * by lia. rewrite limit_S by lia. fold m. rewrite Hlim. nia. }
  assert (Hcl : code_length lens f = l) by (apply code_length_unique; [lia | lia | done | done]).
  split; [by rewrite Hcl|]. unfold symbol_of. rewrite Hcl.
  assert (Hplace : place lens f l = rank lens s).
  { unfold place, rank. fold m l. f_equal. rewrite Hlim. replace (f - 2 * upper lens (l - 1) * m) with (f + - (2 * upper lens (l - 1)) * m) by ring.
    rewrite Z.div_add, Hcode, Hcodeof by lia. ring. }
  pose proof (rank_lt lens s Hok Hs ltac:(lia)) as Hr. destruct Hok as [Hn _]. unfold MAX_NUM_SYMBOLS, HUFF_NC in *.
  cbv zeta. rewrite Hplace, (proj2 (Z.leb_gt _ _)), Z.min_l by lia. destruct (bt_placed _ _ _ Hb) as [_ Hplaced]. apply Hplaced; [done | lia].
Qed.

(** The codes of a message, one behind the other. *)
Fixpoint spells (data : list byte) (pos : Z) (syms : list nat) : Prop :=
  match syms with
  | [] => True
  | s :: syms => has_code lens s /\ field data pos (len_of lens s) = code_of lens s /\ pos + len_of lens s <= bit_len data /\
      spells data (pos + len_of lens s) syms
  end.

Lemma decode_spelled {R} `{BitReadLaws R} syms (r : R) data pos : tracks r data pos -> spells data pos syms ->
  exists r', decode_many self (length syms) r = (Ok (Z.of_nat <$> syms), r').
Proof.
  revert r pos. induction syms as [|s syms IH]; intros r pos Hr Hsp; [by exists r|]. destruct Hsp as (Hs & Hfield & Hroom & Hsp).
  destruct (code_range lens s Hok Hfit Hs) as [Hc Hl15]. pose proof Hs as [_ Hl].
  pose proof (decode_realizes lens self q Hok Hb r data pos Hr) as Hd. rewrite (scan_decode_at lens self q Hok Hb) in Hd.
  pose proof (field_range data pos 16 ltac:(lia)) as Hf16. cbv zeta in Hd. rewrite masked in Hd by done.
  destruct (code_decodes s (2 * (field data pos 16 / 2)) Hs) as [Hcl Hsym]; [Z.to_euclidean_division_equations; lia | |].
  { rewrite <- Hfield. replace (field data pos (len_of lens s)) with (field data pos (16 - (16 - len_of lens s))) by (f_equal; lia).
    rewrite <- field_shiftr, Z.shiftr_div_pow2 by lia.
    replace (16 - len_of lens s) with (1 + (15 - len_of lens s)) by lia. rewrite Z.pow_add_r by lia. change (2 ^ 1) with 2.
    rewrite <- !Z.div_div by lia. by rewrite (Z.mul_comm 2 (_ / 2)), Z.div_mul by lia. }
  rewrite Hcl, Hsym in Hd. unfold fits in Hd. rewrite !(proj2 (Z.leb_le _ _)) in Hd by lia.
  destruct Hd as (r1 & Hrun & Hr1). destruct (IH r1 _ Hr1 Hsp) as (r2 & Hrest).
  exists r2. cbn [length decode_many]. by rewrite (bind_run _ _ _ _ _ Hrun), (bind_run _ _ _ _ _ Hrest).
Qed.

Lemma encode_spells syms : Forall (has_code lens) syms -> spells (encode lens syms) 0 syms.
Proof.
  intros Hall. unfold encode. set (all := encode_bits lens syms).
  assert (Hgen : forall rest before, all = before ++ encode_bits lens rest -> Forall (has_code lens) rest ->
            spells (pack_bits all) (Z.of_nat (length before)) rest).
  { induction rest as [|s rest IH]; intros before Hall' Hrest; [done|]. apply list.Forall_cons in Hrest as [Hs Hrest].
    destruct (code_range lens s Hok Hfit Hs) as [Hc Hl15]. pose proof Hs as [_ Hl].
    assert (Hcb : Z.of_nat (length (code_bits (code_of lens s) (len_of lens s))) = len_of lens s)
      by (unfold code_bits; rewrite length_fmap, length_seq; lia).
    change (encode_bits lens (s :: rest)) with (code_bits (code_of lens s) (len_of lens s) ++ encode_bits lens rest) in Hall'.
    cbn [spells]. split; [done|]. split; [|split].
    - apply field_code; [lia | done |]. intros i Hi. rewrite bit_at_pack by lia. rewrite Hall'.
      rewrite app_nth2 by lia. replace (Z.to_nat (Z.of_nat (length before) + Z.of_nat i) - length before)%nat with i by lia.
      apply app_nth1. lia.
    - unfold bit_len, pack_bits, zlen. rewrite length_fmap, length_seq.
      assert (Hlen : Z.of_nat (length before) + len_of lens s <= Z.of_nat (length all)) by (rewrite Hall', !length_app; lia).
      pose proof (Nat.div_mod_eq (length all + 7) 8). pose proof (Nat.mod_upper_bound (length all + 7) 8 ltac:(lia)). lia.
    - rewrite <- Hcb, <- Nat2Z.inj_add, <- length_app. apply IH; [|done]. by rewrite <- app_assoc. }
  by apply (Hgen syms []).
Qed.
End roundtrip.

(** C14: the decoder inverts the canonical Huffman code: for any code lengths of
    at most 15 bits, at most 306 symbols, that satisfy Kraft's inequality, the
    table is built, and decoding the bytes a canonical encoder wrote for a
    message gives the message back, from the slice reader and from the
    streaming reader over any source. *)
Theorem huffman_inverts_canonical_code {R} `{SourceLaws R} (source : R) (recycled : list byte) (lens : list Z) (message : list nat) :
  lengths_ok lens -> codes_fit lens -> Forall (has_code lens) message ->
  src_rest source = encode lens message -> bit_len (encode lens message) < 2 ^ 64 ->
  exists table, HuffmanTable.build lens = Ok table /\
    (decode_many table (length message) (BitReader.new (encode lens message))).1 = Ok (Z.of_nat <$> message) /\
    (decode_many table (length message) (StreamReader.with_buffer source recycled)).1 = Ok (Z.of_nat <$> message).
Proof.
  intros Hok Hfit Hmsg Hsrc Hsize. destruct (build_ok lens Hok) as (table & q & Hbuild & Hb). exists table. split; [done|].
  pose proof (encode_spells lens Hok Hfit message Hmsg) as Hsp. split.
  - assert (Hnew : tracks (BitReader.new (encode lens message)) (encode lens message) 0) by by apply new_ok.
    destruct (decode_spelled lens table q Hok Hfit Hb message _ _ 0 Hnew Hsp) as (r & ->). done.
  - assert (Hnew : tracks (StreamReader.with_buffer source recycled) (encode lens message) 0) by (rewrite <- Hsrc in *; by apply stream_new_ok).
    destruct (decode_spelled lens table q Hok Hfit Hb message _ _ 0 Hnew Hsp) as (r & ->). done.
Qed.

(** Seven symbols, of which the fourth has no code. *)
Definition sample_lengths : list Z := [2; 3; 3; 0; 2; 3; 3].
Definition sample_message : list nat := [0; 4; 6; 1; 1; 2; 5; 0; 0; 4]%nat.

Lemma huffman_inverts_canonical_code_witness :
  exists table, HuffmanTable.build sample_lengths = Ok table /\
    (decode_many table (length sample_message) (BitReader.new (encode sample_lengths sample_message))).1 = Ok (Z.of_nat <$> sample_message) /\
    (decode_many table (length sample_message) (StreamReader.with_buffer (encode sample_lengths sample_message) [])).1 = Ok (Z.of_nat <$> sample_message).
Proof.
  apply (@huffman_inverts_canonical_code (list byte) threes threes_ok (encode sample_lengths sample_message) [] sample_lengths sample_message).
  - split; [vm_compute; discriminate | repeat constructor; vm_compute; discriminate].
  - vm_compute. discriminate.
  - repeat constructor; vm_compute; reflexivity.
  - reflexivity.
  - vm_compute. reflexivity.
Defined.

(** C15: the quick table changes nothing: for every table of code lengths that
    can be built, complete or not, over-subscribed or empty, the generic
    decoder on any reader, the slice decoder, the block decoder and the
    register decoder all return the symbol of the plain threshold scan and
    consume its code length; only a truncated input is an error, and inside a
    block's lookahead there is none. *)
Theorem every_decoder_is_the_scan (lens : list Z) : lengths_ok lens ->
  exists table, HuffmanTable.build lens = Ok table /\
    (forall R (H : BitRead R) (L : BitReadLaws R), realizes tracks (HuffmanTable.decode table) (scan_decode table)) /\
    realizes at_bit (HuffmanTable.decode_bitreader table) (scan_decode table) /\
    (forall src stop reader p, bit_len src < 2 ^ 64 -> (stop + 7) / 8 + LOOKAHEAD_BYTES <= zlen src ->
       at_block src stop reader p -> p <= stop + OVERSHOOT_BITS ->
       exists s p' fast r, scan_decode table src p = Ok (s, p') /\ p < p' /\
         HuffmanTable.decode_block_reader table reader = Ok (s, fast, r) /\ at_block src stop r p' /\
         HuffmanTable.decode_cursor table (export_cursor reader) src stop = Ok (s, fast, export_cursor r)).
Proof.
  intros Hok. destruct (build_ok lens Hok) as (table & q & Hbuild & Hb). exists table. split; [done|].
  split; [intros R H L; apply (decode_realizes lens table q Hok Hb)|].
  split; [apply (decode_bitreader_realizes lens table q Hok Hb)|].
  intros src stop reader p Hsize Hahead Hat Hp.
  destruct (block_decodes lens table q Hok Hb src stop Hsize Hahead reader p Hat Hp) as (s & p' & r & Hscan & Hrun & Hr & Hlt).
  exists s, p', (Z.land (field src p 16) 0xfffe <? limit lens q), r.
  split; [done|]. split; [done|]. split; [done|]. split; [done|].
  rewrite (cursor_decodes table src stop reader (blk_data _ _ _ _ Hat) (blk_end _ _ _ _ Hat)), Hrun. done.
Qed.

Lemma every_decoder_is_the_scan_witness :
  exists table, HuffmanTable.build sample_lengths = Ok table /\
    (forall R (H : BitRead R) (L : BitReadLaws R), realizes tracks (HuffmanTable.decode table) (scan_decode table)) /\
    realizes at_bit (HuffmanTable.decode_bitreader table) (scan_decode table) /\
    (forall src stop reader p, bit_len src < 2 ^ 64 -> (stop + 7) / 8 + LOOKAHEAD_BYTES <= zlen src ->
       at_block src stop reader p -> p <= stop + OVERSHOOT_BITS ->
       exists s p' fast r, scan_decode table src p = Ok (s, p') /\ p < p' /\
         HuffmanTable.decode_block_reader table reader = Ok (s, fast, r) /\ at_block src stop r p' /\
         HuffmanTable.decode_cursor table (export_cursor reader) src stop = Ok (s, fast, export_cursor r)).
Proof.
  apply (every_decoder_is_the_scan sample_lengths). split; [vm_compute; discriminate | repeat constructor; vm_compute; discriminate].
Defined.
