(* ===== verification/LzTables.v ===== *)
(** Reading the Huffman tables of an LZ block (decompress/lz/huffman.rs,
    [read_tables] and [read_tables_bitreader]): the two readers of the table
    description agree with each other and with the bits, and never panic. *)
From S2P Require Import Prelude RarTypes StateM BitString LzBits LzBitReader LzBlock LzHuffman LzHuffmanProps LzHuffmanDecode.
From S2P Require LzStreamReader.

Definition tables : Type := HuffmanTable.t * HuffmanTable.t * HuffmanTable.t * HuffmanTable.t.

Definition total_symbols (extra_dist : bool) : Z := HUFF_NC + (if extra_dist then HUFF_DCX else HUFF_DCB) + HUFF_LDC + HUFF_RC.

Definition build_tables_from_combined_lengths (all_lengths : list Z) (extra_dist : bool) : result tables :=
  let offset := 0 in
  nc ← slice all_lengths offset (offset + HUFF_NC);
  nc_table ← HuffmanTable.build nc;
  let offset := offset + HUFF_NC in
  let dc_symbols := if extra_dist then HUFF_DCX else HUFF_DCB in
  dc ← slice all_lengths offset (offset + dc_symbols);
  dc_table ← HuffmanTable.build dc;
  let offset := offset + dc_symbols in
  ldc ← slice all_lengths offset (offset + HUFF_LDC);
  ldc_table ← HuffmanTable.build ldc;
  let offset := offset + HUFF_LDC in
  rc ← slice all_lengths offset (offset + HUFF_RC);
  rc_table ← HuffmanTable.build rc;
  mret (nc_table, dc_table, ldc_table, rc_table).

(** [count] times [arr[i] = value; i += 1], stopping at [limit]. *)
Fixpoint fill_run (count : nat) (limit value i : Z) (arr : list Z) : result (Z * list Z) :=
  match count with
  | O => Ok (i, arr)
  | S count =>
    if limit <=? i then Ok (i, arr)
    else arr ← put arr i value; fill_run count limit value (i + 1) arr
  end.

(** The description is read the same way by both functions; they differ in how
    a raw field is read, how the end is noticed and which decoder runs. *)
Section reading.
Context {M : Type -> Type} {ret : MRet M} {bind : MBind M}.
Variables (pure : forall {A}, result A -> M A) (read_field : Z -> M Z) (more : M bool) (decode_symbol : HuffmanTable.t -> M Z).

(** The twenty bootstrap lengths. *)
Fixpoint read_bc_lengths (fuel : nat) (i : Z) (bc_lengths : list Z) : M (list Z) :=
  match fuel with
  | O => pure Panic
  | S fuel =>
    if i <? HUFF_BC then
      length ← read_field 4;
      if length =? 15 then
        zero_count ← read_field 4;
        if zero_count =? 0 then
          bc_lengths ← pure (put bc_lengths i 15);
          read_bc_lengths fuel (i + 1) bc_lengths
        else
          '(i, bc_lengths) ← pure (fill_run (Z.to_nat (zero_count + 2)) HUFF_BC 0 i bc_lengths);
          read_bc_lengths fuel i bc_lengths
      else
        bc_lengths ← pure (put bc_lengths i length);
        read_bc_lengths fuel (i + 1) bc_lengths
    else mret bc_lengths
  end.

Fixpoint read_lengths (fuel : nat) (bc_table : HuffmanTable.t) (total_symbols i : Z) (all_lengths : list Z) : M (list Z) :=
  match fuel with
  | O => pure Panic
  | S fuel =>
    if i <? total_symbols then
      some_left ← more;
      if negb some_left then pure (Err CorruptArchive)
      else
        sym ← decode_symbol bc_table;
        if sym <? 16 then
          all_lengths ← pure (put all_lengths i sym);
          read_lengths fuel bc_table total_symbols (i + 1) all_lengths
        else if sym <? 18 then
          count ← (if sym =? 16 then n ← read_field 3; mret (n + 3) else n ← read_field 7; mret (n + 11));
          if i =? 0 then pure (Err CorruptArchive)
          else
            value ← pure (at_ all_lengths (i - 1));
            '(i, all_lengths) ← pure (fill_run (Z.to_nat count) total_symbols value i all_lengths);
            read_lengths fuel bc_table total_symbols i all_lengths
        else
          count ← (if sym =? 18 then n ← read_field 3; mret (n + 3) else n ← read_field 7; mret (n + 11));
          '(i, all_lengths) ← pure (fill_run (Z.to_nat count) total_symbols 0 i all_lengths);
          read_lengths fuel bc_table total_symbols i all_lengths
    else mret all_lengths
  end.

(** The tables, and the code lengths kept for the next block. *)
Definition read_with (prev_lengths : list Z) (extra_dist : bool) : M (tables * list Z) :=
  bc_lengths ← read_bc_lengths 21 0 (HuffmanTable.zeros HUFF_BC);
  bc_table ← pure (HuffmanTable.build bc_lengths);
  let total_symbols := total_symbols extra_dist in
  all_lengths ← read_lengths (Z.to_nat total_symbols + 1) bc_table total_symbols 0 prev_lengths;
  built ← pure (build_tables_from_combined_lengths all_lengths extra_dist);
  mret (built, all_lengths).
End reading.

Definition read_tables {R} `{BitRead R} (prev_lengths : list Z) (extra_dist : bool) : stateM R rar_error (tables * list Z) :=
  read_with (fun _ => lift) read_bits (n ← bits_remaining; mret (negb (n =? 0))) HuffmanTable.decode prev_lengths extra_dist.

(** [(reader.peek_16_raw()? >> (16 - n)) as ..; reader.addbits(n)?]. *)
Definition raw_field (n : Z) : stateM BitReader.t rar_error Z :=
  _ ← BitReader.ensure_bits 16;
  reader ← gets id;
  v ← lift (BitReader.peek_16_raw reader);
  _ ← BitReader.addbits n;
  mret (Z.shiftr v (16 - n)).

Definition read_tables_bitreader (prev_lengths : list Z) (extra_dist : bool) : stateM BitReader.t rar_error (tables * list Z) :=
  read_with (fun _ => lift) raw_field (gets BitReader.has_bits) HuffmanTable.decode_bitreader prev_lengths extra_dist.

(** The reference: the same description read off the bits, symbols by the threshold scan. *)
Definition spec_tables (prev_lengths : list Z) (extra_dist : bool) : bits_spec (tables * list Z) :=
  read_with (fun _ => spec_lift) spec_read spec_has_bits scan_decode prev_lengths extra_dist.

(** * Values *)

Abbreviation code_lens := (Forall (fun l => 0 <= l <= MAX_CODE_LENGTH)).

Lemma put_nat {E} (l : list Z) i v : 0 <= i < zlen l -> put (E := E) l i v = Ok (<[Z.to_nat i := v]> l).
Proof. intros Hi. unfold put. apply set_at_ok. unfold zlen in Hi. lia. Qed.

(** A run keeps the array's length, moves forward within the limit, and only writes its value. *)
Lemma fill_run_ok n limit value i arr : 0 <= i <= limit -> limit <= zlen arr -> 0 <= value <= MAX_CODE_LENGTH ->
  code_lens (ztake i arr) -> exists i' arr', fill_run n limit value i arr = Ok (i', arr') /\ zlen arr' = zlen arr /\
    i <= i' <= limit /\ ((0 < n)%nat -> i < limit -> i < i') /\ code_lens (ztake i' arr').
Proof.
  revert i arr. induction n as [|n IH]; intros i arr Hi Hl Hv Harr; cbn [fill_run].
  { exists i, arr. split_and!; try done; lia. }
  destruct (Z.leb_spec limit i). { exists i, arr. split_and!; try done; lia. }
  rewrite put_nat, bind_Ok by lia.
  destruct (IH (i + 1) (<[Z.to_nat i := value]> arr)) as (i' & arr' & Hrun & Hlen & Hr & _ & Hall); try done.
  - lia.
  - unfold zlen in *. rewrite length_insert. lia.
  - unfold zlen in *. rewrite ztake_nat in * by lia. replace (Z.to_nat (i + 1)) with (S (Z.to_nat i)) by lia.
    assert (Hlt : (Z.to_nat i < length (<[Z.to_nat i:=value]> arr))%nat) by (rewrite length_insert; lia).
    rewrite (take_S_r _ _ value) by (apply list_lookup_insert_eq; lia). apply list.Forall_app. split; [|constructor; [done | constructor]].
    by rewrite take_insert_ge by lia.
  - exists i', arr'. split_and!; try done; [|lia | lia | intros; lia]. rewrite Hlen. unfold zlen. by rewrite length_insert.
Qed.

(** * Both readers are the reference *)

Section realizing.
Context {R : Type} (tracks : R -> list byte -> Z -> Prop).
Variables (read_field : Z -> stateM R rar_error Z) (more : stateM R rar_error bool) (decode_symbol : HuffmanTable.t -> stateM R rar_error Z).
Hypothesis (Hfield : forall n, 0 < n <= 16 -> realizes tracks (read_field n) (spec_read n)).
Hypothesis (Hmore : realizes tracks more spec_has_bits).
Hypothesis (Hsym : forall lens table, lengths_ok lens -> HuffmanTable.build lens = Ok table ->
  realizes tracks (decode_symbol table) (scan_decode table)).

(** Sequences, branches and pure steps realize their images. *)
Ltac realize := repeat first
  [ apply realizes_ret | apply realizes_lift | apply Hfield; lia | exact Hmore
  | match goal with |- realizes _ (if ?c then _ else _) (if ?c then _ else _) => destruct c end
  | apply realizes_bind; [|first [intros [? ?] | intros ?]] | done ].

Lemma realizes_bc fuel i bc :
  realizes tracks (read_bc_lengths (fun _ => lift) read_field fuel i bc) (read_bc_lengths (fun _ => spec_lift) spec_read fuel i bc).
Proof.
  revert i bc. induction fuel as [|fuel IH]; intros i bc; cbn [read_bc_lengths]; [apply realizes_lift|].
  realize; apply IH.
Qed.

Lemma realizes_lengths fuel table total i all : realizes tracks (decode_symbol table) (scan_decode table) ->
  realizes tracks (read_lengths (fun _ => lift) read_field more decode_symbol fuel table total i all)
    (read_lengths (fun _ => spec_lift) spec_read spec_has_bits scan_decode fuel table total i all).
Proof.
  intros Hdecode. revert i all. induction fuel as [|fuel IH]; intros i all; cbn [read_lengths]; [apply realizes_lift|].
  realize; apply IH || exact Hdecode.
Qed.

(** The bootstrap lengths are four-bit numbers. *)
Definition gives {A} (f : bits_spec A) (P : A -> Prop) : Prop := forall data pos,
  match f data pos with Ok (a, _) => P a | Err e => e = CorruptArchive | Panic => False end.

Lemma gives_bind {A B} (f : bits_spec A) (g : A -> bits_spec B) P Q : gives f P -> (forall a, P a -> gives (g a) Q) -> gives (f ≫= g) Q.
Proof.
  intros Hf Hg data pos. unfold mbind, bits_spec_bind. specialize (Hf data pos). destruct (f data pos) as [[a p]|e|]; [by apply Hg | done | done].
Qed.
Lemma gives_ret {A} (a : A) (P : A -> Prop) : P a -> gives (mret a) P.
Proof. intros Ha data pos. exact Ha. Qed.
Lemma gives_lift {A} (a : A) (P : A -> Prop) : P a -> gives (spec_lift (Ok a)) P.
Proof. intros Ha data pos. exact Ha. Qed.
Lemma gives_corrupt {A} (P : A -> Prop) : gives (spec_lift (Err CorruptArchive)) P.
Proof. intros data pos. done. Qed.
Lemma gives_field n : 0 <= n -> gives (spec_read n) (fun v => 0 <= v < 2 ^ n).
Proof. intros Hn data pos. unfold spec_read. destruct (fits data pos n); [by apply field_range | done]. Qed.

Lemma fill_run_bc n i bc : 0 <= i <= HUFF_BC -> zlen bc = HUFF_BC -> code_lens bc ->
  exists i' bc', fill_run n HUFF_BC 0 i bc = Ok (i', bc') /\ i <= i' <= HUFF_BC /\ ((0 < n)%nat -> i < HUFF_BC -> i < i') /\ zlen bc' = HUFF_BC /\ code_lens bc'.
Proof.
  revert i bc. induction n as [|n IH]; intros i bc Hi Hlen Hbc; cbn [fill_run]; [exists i, bc; split_and!; try done; lia|].
  destruct (Z.leb_spec HUFF_BC i); [exists i, bc; split_and!; try done; lia|]. rewrite put_nat, bind_Ok by lia.
  destruct (IH (i + 1) (<[Z.to_nat i := 0]> bc)) as (i' & bc' & Hrun & Hr & _ & Hl & Hall);
    [lia | unfold zlen in *; by rewrite length_insert | by apply Forall_insert |].
  exists i', bc'. split_and!; try done; lia.
Qed.

Lemma gives_bc fuel i bc : 0 <= i <= HUFF_BC -> zlen bc = HUFF_BC -> code_lens bc -> HUFF_BC - i < Z.of_nat fuel ->
  gives (read_bc_lengths (fun _ => spec_lift) spec_read fuel i bc) (fun bc => zlen bc = HUFF_BC /\ code_lens bc).
Proof.
  revert i bc. induction fuel as [|fuel IH]; intros i bc Hi Hlen Hbc Hf; [lia|]. cbn [read_bc_lengths].
  assert (Hput : forall v, 0 <= v <= MAX_CODE_LENGTH -> i < HUFF_BC ->
    gives (bc ← spec_lift (put bc i v); read_bc_lengths (fun _ => spec_lift) spec_read fuel (i + 1) bc) (fun bc => zlen bc = HUFF_BC /\ code_lens bc)).
  { intros v Hv Hlt. rewrite put_nat by lia. apply (gives_bind _ _ (fun bc' => bc' = <[Z.to_nat i := v]> bc)); [by apply gives_lift|].
    intros bc' ->. apply IH; [lia | unfold zlen in *; by rewrite length_insert | | lia]. by apply Forall_insert. }
  destruct (Z.ltb_spec i HUFF_BC) as [Hlt|]; [|by apply gives_ret].
  apply (gives_bind _ _ _ _ (gives_field 4 ltac:(lia))). intros l Hl. destruct (Z.eqb_spec l 15); [|apply Hput; unfold MAX_CODE_LENGTH; lia].
  apply (gives_bind _ _ _ _ (gives_field 4 ltac:(lia))). intros z Hz. destruct (Z.eqb_spec z 0); [apply Hput; unfold MAX_CODE_LENGTH; lia|].
  assert (Hrun : exists i' bc', fill_run (Z.to_nat (z + 2)) HUFF_BC 0 i bc = Ok (i', bc') /\ i < i' <= HUFF_BC /\ zlen bc' = HUFF_BC /\ code_lens bc').
  { destruct (fill_run_bc (Z.to_nat (z + 2)) i bc Hi Hlen Hbc) as (i' & bc' & Hrun & Hr & Hmove & Hl' & Hall).
    exists i', bc'. split; [done|]. split; [|done]. specialize (Hmove ltac:(lia) Hlt). lia. }
  destruct Hrun as (i' & bc' & -> & Hi' & Hlen' & Hbc').
  apply (gives_bind _ _ (fun st => st = (i', bc'))); [by apply gives_lift|]. intros st ->. apply IH; [lia | done | done | lia].
Qed.

Lemma bc_ok bc : zlen bc = HUFF_BC /\ code_lens bc -> lengths_ok bc.
Proof. intros [Hl Hall]. split; [rewrite Hl; unfold HUFF_BC, MAX_NUM_SYMBOLS, HUFF_NC; lia | done]. Qed.

Lemma bc_start : gives (read_bc_lengths (fun _ => spec_lift) spec_read 21 0 (HuffmanTable.zeros HUFF_BC)) (fun bc => zlen bc = HUFF_BC /\ code_lens bc).
Proof. apply gives_bc; [unfold HUFF_BC; lia | done | | unfold HUFF_BC; lia]. by apply Forall_replicate. Qed.

Lemma realizes_with prev extra :
  realizes tracks (read_with (fun _ => lift) read_field more decode_symbol prev extra) (spec_tables prev extra).
Proof.
  unfold read_with, spec_tables, read_with.
  apply (realizes_bind_on _ (fun bc => zlen bc = HUFF_BC /\ code_lens bc)); [apply realizes_bc | |].
  { intros data pos bc p Hrun. pose proof (bc_start data pos) as Hg. by rewrite Hrun in Hg. }
  intros bc Hbc. destruct (HuffmanTable.build bc) as [table|e|] eqn:Hbuild.
  - apply (realizes_bind_on _ (fun t => t = table)); [apply realizes_lift | unfold spec_lift; by intros data pos t p [= -> _] |].
    intros t ->. apply realizes_bind; [apply realizes_lengths, (Hsym bc table (bc_ok bc Hbc) Hbuild)|]. intros all. realize.
  - intros r data pos Hr. by exists r.
  - intros r data pos Hr. done.
Qed.
End realizing.

(** * The reference never panics *)

Lemma scan_in_range lens table q : lengths_ok lens -> built lens table q -> gives (scan_decode table) (fun s => 0 <= s <= Z.max 0 (zlen lens - 1)).
Proof.
  intros Hok Hb data pos. rewrite (scan_decode_at lens table q Hok Hb). destruct (fits data pos 1); [|done]. cbv zeta.
  destruct (fits data pos _); [|done]. unfold symbol_of. cbv zeta. apply (bt_range _ _ _ Hb).
  pose proof (first_pos_nonneg lens). set (f := Z.land _ _). set (l := code_length lens f).
  assert (0 <= place lens f l).
  { unfold place. destruct (code_length_spec lens f) as (_ & Hlo & _); [apply Z.land_nonneg; right; lia|]. fold l in Hlo.
    specialize (H l). apply Z.add_nonneg_nonneg; [done|]. apply Z.div_pos; [lia|]. apply Z.pow_pos_nonneg; [lia|].
    pose proof (code_length_spec lens f) as Hr. fold l in Hr. destruct Hr as (Hr & _); [apply Z.land_nonneg; right; lia | lia]. }
  unfold MAX_NUM_SYMBOLS, HUFF_NC. destruct (_ <=? _); lia.
Qed.

Lemma scan_gives lens table q : lengths_ok lens -> built lens table q -> gives (scan_decode table) (fun s => 0 <= s).
Proof.
  intros Hok Hb data pos. pose proof (scan_in_range lens table q Hok Hb data pos) as Hg. destruct (scan_decode table data pos) as [[s p]| |]; [lia | done..].
Qed.

Lemma code_lens_put i v (all : list Z) : 0 <= i < zlen all -> 0 <= v <= MAX_CODE_LENGTH -> code_lens (ztake i all) ->
  code_lens (ztake (i + 1) (<[Z.to_nat i := v]> all)).
Proof.
  intros Hi Hv Hall. destruct (fill_run_ok 1 (i + 1) v i all ltac:(lia) ltac:(lia) Hv Hall) as (i' & all' & Hrun & _ & Hr & Hmove & Hall').
  cbn [fill_run] in Hrun. rewrite (proj2 (Z.leb_gt _ _)), put_nat, bind_Ok in Hrun by lia. injection Hrun as <- <-. done.
Qed.

Lemma gives_lengths fuel table total i all : gives (scan_decode table) (fun s => 0 <= s) -> 0 <= i <= total -> total <= zlen all ->
  code_lens (ztake i all) -> total - i < Z.of_nat fuel ->
  gives (read_lengths (fun _ => spec_lift) spec_read spec_has_bits scan_decode fuel table total i all)
    (fun all' => zlen all' = zlen all /\ code_lens (ztake total all')).
Proof.
  intros Hsym. revert i all. induction fuel as [|fuel IH]; intros i all Hi Hlen Hall Hf; [lia|]. cbn [read_lengths].
  destruct (Z.ltb_spec i total) as [Hlt|].
  2: { apply gives_ret. split; [done|]. by replace total with i by lia. }
  apply (gives_bind _ _ (fun _ => True)); [intros data pos; done|]. intros some_left _. destruct some_left; cbn [negb]; [|apply gives_corrupt].
  apply (gives_bind _ _ _ _ Hsym). intros s Hs. unfold MAX_CODE_LENGTH in *.
  assert (Hrun : forall n value, 0 < n -> 0 <= value <= 15 ->
    gives ('(i, all) ← spec_lift (fill_run (Z.to_nat n) total value i all);
           read_lengths (fun _ => spec_lift) spec_read spec_has_bits scan_decode fuel table total i all)
      (fun all' => zlen all' = zlen all /\ code_lens (ztake total all'))).
  { intros n value Hn Hv. destruct (fill_run_ok (Z.to_nat n) total value i all Hi Hlen Hv Hall) as (i' & all' & -> & Hl & Hr & Hmove & Hall').
    specialize (Hmove ltac:(lia) Hlt). apply (gives_bind _ _ (fun st => st = (i', all'))); [by apply gives_lift|].
    intros st ->. rewrite <- Hl. apply IH; [lia | lia | done | lia]. }
  assert (Hcount : forall c : bool, gives (if c then n ← spec_read 3; mret (n + 3) else n ← spec_read 7; mret (n + 11)) (fun n => 0 < n)).
  { intros c. destruct c; (eapply gives_bind; [apply gives_field; lia | intros n Hn; apply gives_ret; cbv beta in *; lia]). }
  destruct (Z.ltb_spec s 16); [|destruct (Z.ltb_spec s 18)].
  - rewrite put_nat by lia. apply (gives_bind _ _ (fun all' => all' = <[Z.to_nat i := s]> all)); [by apply gives_lift|]. intros all' ->.
    assert (Hl : zlen (<[Z.to_nat i := s]> all) = zlen all) by (unfold zlen; by rewrite length_insert).
    rewrite <- Hl. apply IH; [lia | lia | apply code_lens_put; [lia | unfold MAX_CODE_LENGTH; lia | done] | lia].
  - apply (gives_bind _ _ _ _ (Hcount _)). intros n Hn. destruct (Z.eqb_spec i 0); [apply gives_corrupt|].
    rewrite at_ok by lia. apply (gives_bind _ _ (fun v => v = val all (i - 1))); [by apply gives_lift|]. intros v ->. apply Hrun; [done|].
    assert (Hlook : ztake i all !! Z.to_nat (i - 1) = Some (val all (i - 1))).
    { rewrite ztake_nat, lookup_take_lt by lia. unfold val. rewrite nth_lookup.
      destruct (lookup_lt_is_Some_2 all (Z.to_nat (i - 1))) as [x ->]; [unfold zlen in *; lia | done]. }
    exact (Forall_lookup_1 _ _ _ _ Hall Hlook).
  - apply (gives_bind _ _ _ _ (Hcount _)). intros n Hn. apply Hrun; [done | lia].
Qed.

Lemma part_ok all total a n : 0 <= a -> 0 <= n <= MAX_NUM_SYMBOLS -> a + n <= total -> total <= zlen all -> code_lens (ztake total all) ->
  exists part table, slice (E := rar_error) all a (a + n) = Ok part /\ HuffmanTable.build part = Ok table.
Proof.
  intros Ha Hn Hle Hlen Hall. exists (ztake n (zdrop a all)).
  assert (Hok : lengths_ok (ztake n (zdrop a all))).
  { split; [rewrite zlen_take; lia|]. rewrite <- (LzStreamReader.window_take all total) by lia.
    rewrite ztake_nat, zdrop_nat by lia. by apply Forall_take, Forall_drop. }
  destruct (build_ok _ Hok) as (table & q & Hb & _). exists table. split; [|done]. rewrite slice_ok by lia. do 2 f_equal. lia.
Qed.

Lemma combined_ok all extra : total_symbols extra <= zlen all -> code_lens (ztake (total_symbols extra) all) ->
  exists built, build_tables_from_combined_lengths all extra = Ok built.
Proof.
  intros Hlen Hall. unfold build_tables_from_combined_lengths. cbv zeta.
  set (dc := if extra then HUFF_DCX else HUFF_DCB) in *. assert (Hdc : 64 <= dc <= 80) by (unfold dc, HUFF_DCX, HUFF_DCB; destruct extra; lia).
  assert (Htotal : total_symbols extra = 306 + dc + 16 + 44) by done. unfold MAX_NUM_SYMBOLS, HUFF_NC, HUFF_LDC, HUFF_RC in *.
  assert (Hpart : forall a n, 0 <= a -> 0 <= n <= 306 -> a + n <= total_symbols extra ->
    exists part table, slice (E := rar_error) all a (a + n) = Ok part /\ HuffmanTable.build part = Ok table) by (intros a n Ha Hn Hle; by apply (part_ok all (total_symbols extra))).
  destruct (Hpart 0 306) as (p1 & t1 & Hs & Hb); [lia..|]. rewrite Hs, bind_Ok, Hb, bind_Ok. clear Hs Hb.
  destruct (Hpart (0 + 306) dc) as (p2 & t2 & Hs & Hb); [lia..|]. rewrite Hs, bind_Ok, Hb, bind_Ok. clear Hs Hb.
  destruct (Hpart (0 + 306 + dc) 16) as (p3 & t3 & Hs & Hb); [lia..|]. rewrite Hs, bind_Ok, Hb, bind_Ok. clear Hs Hb.
  destruct (Hpart (0 + 306 + dc + 16) 44) as (p4 & t4 & Hs & Hb); [lia..|]. rewrite Hs, bind_Ok, Hb, bind_Ok. clear Hs Hb. by eexists.
Qed.

Lemma tables_given prev extra : total_symbols extra <= zlen prev -> gives (spec_tables prev extra) (fun '(built, lens) =>
  build_tables_from_combined_lengths lens extra = Ok built /\ zlen lens = zlen prev /\ code_lens (ztake (total_symbols extra) lens)).
Proof.
  intros Hlen. assert (Htotal : 0 <= total_symbols extra) by (unfold total_symbols; destruct extra; vm_compute; discriminate).
  unfold spec_tables, read_with. apply (gives_bind _ _ _ _ bc_start). intros bc Hbc.
  destruct (build_ok bc (bc_ok bc Hbc)) as (table & q & Hbuild & Hb). rewrite Hbuild.
  apply (gives_bind _ _ (fun t => t = table)); [by apply gives_lift|]. intros t ->. cbv zeta.
  apply (gives_bind _ _ (fun all => zlen all = zlen prev /\ code_lens (ztake (total_symbols extra) all))).
  - apply gives_lengths; [by apply (scan_gives bc table q (bc_ok bc Hbc)) | lia | done | rewrite ztake_nat by lia; constructor | lia].
  - intros all [Hl Hall]. destruct (combined_ok all extra ltac:(lia) Hall) as (built & Hbuilt). rewrite Hbuilt.
    apply (gives_bind _ _ (fun b => b = built)); [by apply gives_lift|]. intros b ->. by apply gives_ret.
Qed.

(** * The previous lengths never show *)

(** Two actions end the same way, on related values. *)
Definition alike {A} (f g : bits_spec A) (P : A -> A -> Prop) : Prop := forall data pos,
  match f data pos, g data pos with
  | Ok (a, p), Ok (b, p') => p = p' /\ P a b
  | Err e, Err e' => e = e'
  | Panic, Panic => True
  | _, _ => False
  end.

Lemma alike_refl {A} (f : bits_spec A) : alike f f eq.
Proof. intros data pos. by destruct (f data pos) as [[a p]| |]. Qed.
Lemma alike_bind {A B} (f g : bits_spec A) (k h : A -> bits_spec B) P Q :
  alike f g P -> (forall a b, P a b -> alike (k a) (h b) Q) -> alike (f ≫= k) (g ≫= h) Q.
Proof.
  intros Hfg Hkh data pos. specialize (Hfg data pos). unfold mbind, bits_spec_bind.
  destruct (f data pos) as [[a p]| |], (g data pos) as [[b p']| |]; try done. destruct Hfg as [<- Hab]. by apply Hkh.
Qed.
Lemma alike_lift {A} (a b : A) (P : A -> A -> Prop) : P a b -> alike (spec_lift (Ok a)) (spec_lift (Ok b)) P.
Proof. intros Hab data pos. done. Qed.

(** The same written prefix. *)
Definition agree (i : Z) (a b : list Z) : Prop := ztake i a = ztake i b /\ zlen a = zlen b.

Lemma agree_put i v a b : 0 <= i < zlen a -> agree i a b -> agree (i + 1) (<[Z.to_nat i := v]> a) (<[Z.to_nat i := v]> b).
Proof.
  intros Hi [Hab Hl]. unfold agree, zlen in *. rewrite !length_insert. split; [|done]. rewrite !ztake_nat in * by lia.
  replace (Z.to_nat (i + 1)) with (S (Z.to_nat i)) by lia.
  rewrite !(take_S_r _ _ v) by (apply list_lookup_insert_eq; lia). by rewrite !take_insert_ge, Hab by lia.
Qed.

Lemma agree_run n total v i a b : 0 <= i <= total -> total <= zlen a -> agree i a b ->
  exists i' a' b', fill_run n total v i a = Ok (i', a') /\ fill_run n total v i b = Ok (i', b') /\ agree i' a' b' /\ zlen a' = zlen a /\ i <= i' <= total.
Proof.
  revert i a b. induction n as [|n IH]; intros i a b Hi Hl Hab; cbn [fill_run]; [exists i, a, b; split_and!; done || lia|].
  destruct (Z.leb_spec total i); [exists i, a, b; split_and!; done || lia|]. pose proof Hab as [_ Hlen].
  rewrite !put_nat, !bind_Ok by lia.
  destruct (IH (i + 1) (<[Z.to_nat i := v]> a) (<[Z.to_nat i := v]> b)) as (i' & a' & b' & -> & -> & Hab' & Hl' & Hr);
    [lia | unfold zlen in *; by rewrite length_insert | apply agree_put; [lia | done] |].
  exists i', a', b'. split_and!; try done; [|lia | lia]. rewrite Hl'. unfold zlen. by rewrite length_insert.
Qed.

Lemma alike_lengths fuel table total i a b : 0 <= i <= total -> total <= zlen a -> agree i a b ->
  alike (read_lengths (fun _ => spec_lift) spec_read spec_has_bits scan_decode fuel table total i a)
    (read_lengths (fun _ => spec_lift) spec_read spec_has_bits scan_decode fuel table total i b) (fun a b => agree total a b /\ total <= zlen a).
Proof.
  revert i a b. induction fuel as [|fuel IH]; intros i a b Hi Hl Hab; [by intros data pos|]. cbn [read_lengths].
  destruct (Z.ltb_spec i total) as [Hlt|]; [|replace total with i in * by lia; by intros data pos].
  apply (alike_bind _ _ _ _ _ _ (alike_refl _)). intros some_left ? <-. destruct (negb some_left); [by intros data pos|].
  apply (alike_bind _ _ _ _ _ _ (alike_refl _)). intros s ? <-. pose proof Hab as [Htake Hlen].
  assert (Hrun : forall n v, alike
    ('(i, all) ← spec_lift (fill_run n total v i a); read_lengths (fun _ => spec_lift) spec_read spec_has_bits scan_decode fuel table total i all)
    ('(i, all) ← spec_lift (fill_run n total v i b); read_lengths (fun _ => spec_lift) spec_read spec_has_bits scan_decode fuel table total i all) (fun a b => agree total a b /\ total <= zlen a)).
  { intros n v. destruct (agree_run n total v i a b Hi Hl Hab) as (i' & a' & b' & -> & -> & Hab' & Hl' & Hr).
    apply (alike_bind _ _ _ _ (fun st st' => st = (i', a') /\ st' = (i', b'))); [by apply alike_lift|].
    intros ? ? [-> ->]. apply IH; [lia | lia | done]. }
  destruct (s <? 16); [|destruct (s <? 18)].
  - rewrite !put_nat by lia.
    apply (alike_bind _ _ _ _ (fun a' b' => a' = <[Z.to_nat i := s]> a /\ b' = <[Z.to_nat i := s]> b)); [by apply alike_lift|].
    intros ? ? [-> ->]. apply IH; [lia | unfold zlen in *; by rewrite length_insert | apply agree_put; [lia | done]].
  - apply (alike_bind _ _ _ _ _ _ (alike_refl _)). intros n ? <-. destruct (Z.eqb_spec i 0); [by intros data pos|].
    rewrite !at_ok by lia.
    assert (Hval : val a (i - 1) = val b (i - 1)).
    { unfold val. rewrite !nth_lookup. assert (Hlook : ztake i a !! Z.to_nat (i - 1) = ztake i b !! Z.to_nat (i - 1)) by by rewrite Htake.
      rewrite !ztake_nat, !lookup_take_lt in Hlook by lia. by rewrite Hlook. }
    rewrite Hval. apply (alike_bind _ _ _ _ _ _ (alike_refl _)). intros v ? <-. apply Hrun.
  - apply (alike_bind _ _ _ _ _ _ (alike_refl _)). intros n ? <-. apply Hrun.
Qed.

Lemma agree_slice total a b lo n : agree total a b -> 0 <= lo -> 0 <= n -> lo + n <= total -> total <= zlen a ->
  slice (E := rar_error) a lo (lo + n) = slice b lo (lo + n).
Proof.
  intros [Htake Hlen] Hlo Hn Hle Hl. rewrite !slice_ok by lia. replace (lo + n - lo) with n by lia. f_equal.
  rewrite <- (LzStreamReader.window_take a total), <- (LzStreamReader.window_take b total) by lia. by rewrite Htake.
Qed.

Lemma agree_combined extra a b : agree (total_symbols extra) a b -> total_symbols extra <= zlen a ->
  build_tables_from_combined_lengths a extra = build_tables_from_combined_lengths b extra.
Proof.
  intros Hab Hl. unfold build_tables_from_combined_lengths. cbv zeta.
  set (dc := if extra then HUFF_DCX else HUFF_DCB) in *. assert (Hdc : 64 <= dc <= 80) by (unfold dc, HUFF_DCX, HUFF_DCB; destruct extra; lia).
  assert (Htotal : total_symbols extra = 306 + dc + 16 + 44) by done. unfold HUFF_NC, HUFF_LDC, HUFF_RC in *.
  pose proof (agree_slice (total_symbols extra) a b 0 306 Hab) as ->; [|lia..].
  pose proof (agree_slice (total_symbols extra) a b (0 + 306) dc Hab) as ->; [|lia..].
  pose proof (agree_slice (total_symbols extra) a b (0 + 306 + dc) 16 Hab) as ->; [|lia..].
  pose proof (agree_slice (total_symbols extra) a b (0 + 306 + dc + 16) 44 Hab) as ->; [|lia..]. done.
Qed.

Lemma tables_independent prev prev' extra : total_symbols extra <= zlen prev -> zlen prev = zlen prev' ->
  alike (spec_tables prev extra) (spec_tables prev' extra) (fun '(t, _) '(t', _) => t = t').
Proof.
  intros Hl Hsame. assert (Htotal : 0 <= total_symbols extra) by (unfold total_symbols; destruct extra; vm_compute; discriminate).
  unfold spec_tables, read_with. apply (alike_bind _ _ _ _ _ _ (alike_refl _)). intros bc ? <-.
  apply (alike_bind _ _ _ _ _ _ (alike_refl _)). intros table ? <-. cbv zeta.
  assert (Hagree : agree 0 prev prev') by (split; [by rewrite !ztake_nat by lia | done]).
  apply (alike_bind _ _ _ _ (fun a b => agree (total_symbols extra) a b /\ total_symbols extra <= zlen a)).
  - by apply alike_lengths; [lia | |].
  - intros all all' [Hab Hlen]. rewrite (agree_combined extra all all' Hab Hlen).
    apply (alike_bind _ _ _ _ _ _ (alike_refl _)). intros built ? <-. by intros data pos.
Qed.

(** * The two functions *)

Lemma raw_field_realizes n : 0 < n <= 16 -> realizes at_bit (raw_field n) (spec_read n).
Proof.
  intros Hn r data pos Hr. unfold raw_field.
  pose proof (bit_peek _ (fun v => v) _ peek_raw_ok (fun _ _ => eq_refl) r data pos Hr) as Hpeek.
  assert (Hassoc : forall k : Z -> stateM BitReader.t rar_error Z,
    (_ ← BitReader.ensure_bits 16; reader ← gets id; v ← lift (BitReader.peek_16_raw reader); k v) r =
    ((_ ← BitReader.ensure_bits 16; self ← gets id; lift (BitReader.peek_16_raw self)) ≫= k) r).
  { intros k. unfold mbind, stateM_bind. by destruct (BitReader.ensure_bits 16 r) as [[[]| |] ?]. }
  rewrite Hassoc. unfold spec_peek16, spec_read, fits in *.
  destruct (Z.leb_spec (pos + 1) (bit_len data)).
  - destruct Hpeek as (r' & Hrun & Hr'). rewrite (bind_run _ _ _ _ _ Hrun).
    pose proof (bit_consume n ltac:(lia) r' data pos Hr') as Hskip. unfold spec_skip, fits in Hskip. unfold BitReader.addbits.
    destruct (Z.leb_spec (pos + n) (bit_len data)).
    + destruct Hskip as (r2 & Hrun2 & Hr2). rewrite (bind_run _ _ _ _ _ Hrun2). exists r2. split; [|done].
      unfold mret, stateM_ret. do 2 f_equal. rewrite field_shiftr by lia. f_equal. lia.
    + destruct Hskip as (r2 & Hrun2). rewrite (bind_run_err _ _ _ _ _ Hrun2). by exists r2.
  - destruct Hpeek as (r' & Hrun). rewrite (bind_run_err _ _ _ _ _ Hrun), (proj2 (Z.leb_gt _ _)) by lia. by exists r'.
Qed.

Lemma build_built lens table : lengths_ok lens -> HuffmanTable.build lens = Ok table -> exists q, built lens table q.
Proof. intros Hok Hbuild. destruct (build_ok lens Hok) as (self & q & Hself & Hb). rewrite Hself in Hbuild. injection Hbuild as <-. by exists q. Qed.


