(* ===== verification/LzWindow.v ===== *)
(** The sliding window of the LZ decoders (decompress/lz/window.rs): the ring
    buffer with its raw-pointer copies, and the flushing of visible output.

    A pointer into the buffer is its index; a load or store of [w] bytes takes
    or replaces [w] bytes of the buffer, and one outside the allocation is
    [Panic], as is [ptr::copy_nonoverlapping] on ranges that overlap. *)
From S2P Require Import Prelude RarTypes StateM.

Definition MAX_INC_LZ_MATCH : Z := 0x1004.
Definition INLINE_COPY_MAX : Z := 64.

(** * Raw copies *)

Abbreviation mem := (list byte).

Definition load (width : Z) (m : mem) (src : Z) : result (list byte) := slice m src (src + width).
Definition store (m : mem) (dst : Z) (value : list byte) : result mem := copy_range m dst (dst + zlen value) value.
(** [store_uN(dst, load_uN(src))]. *)
Definition move (width : Z) (m : mem) (src dst : Z) : result mem := value ← load width m src; store m dst value.

Definition debug_check {E} (b : bool) : outcome E unit := if b then Ok tt else Panic.

Definition copy_short_exact (m : mem) (src dst length : Z) : result mem :=
  _ ← debug_check ((1 <=? length) && (length <=? 16));
  if 8 <=? length then
    m ← move 8 m src dst;
    move 8 m (src + (length - 8)) (dst + (length - 8))
  else if 4 <=? length then
    m ← move 4 m src dst;
    move 4 m (src + (length - 4)) (dst + (length - 4))
  else if 2 <=? length then
    m ← move 2 m src dst;
    move 2 m (src + (length - 2)) (dst + (length - 2))
  else move 1 m src dst.

(** [while i + 16 <= length { .. }], both loads before both stores. *)
Fixpoint copy_by_16 (fuel : nat) (m : mem) (src dst length i : Z) : result (mem * Z) :=
  match fuel with
  | O => Panic
  | S fuel =>
    if i + 16 <=? length then
      lo ← load 8 m (src + i);
      hi ← load 8 m (src + (i + 8));
      m ← store m (dst + i) lo;
      m ← store m (dst + (i + 8)) hi;
      copy_by_16 fuel m src dst length (i + 16)
    else Ok (m, i)
  end.
Fixpoint copy_by_8 (fuel : nat) (m : mem) (src dst length i : Z) : result (mem * Z) :=
  match fuel with
  | O => Panic
  | S fuel =>
    if i + 8 <=? length then
      m ← move 8 m (src + i) (dst + i);
      copy_by_8 fuel m src dst length (i + 8)
    else Ok (m, i)
  end.

Definition copy_chunked (m : mem) (src dst gap length : Z) : result mem :=
  _ ← debug_check (16 <? length);
  _ ← debug_check (8 <=? gap);
  let fuel := S (Z.to_nat length) in
  '(m, i) ← (if 16 <=? gap then copy_by_16 fuel m src dst length 0 else Ok (m, 0));
  '(m, i) ← copy_by_8 fuel m src dst length i;
  if i <? length then move 8 m (src + (length - 8)) (dst + (length - 8)) else Ok m.

(** [ptr::copy_nonoverlapping]. *)
Definition copy_nonoverlapping (m : mem) (src dst length : Z) : result mem :=
  if (src + length <=? dst) || (dst + length <=? src) then move length m src dst else Panic.

(** [for i in 0..length { *dst.add(i) = *src.add(i) }]. *)
Definition copy_bytes (m : mem) (src dst length : Z) : result mem :=
  for_range 0 (Z.to_nat length) (fun i m => move 1 m (src + Z.of_nat i) (dst + Z.of_nat i)) m.

(** [while copied < length { .. }]: the prefix written so far is copied behind itself. *)
Fixpoint double_loop (fuel : nat) (m : mem) (dst length copied : Z) : result mem :=
  match fuel with
  | O => Panic
  | S fuel =>
    if copied <? length then
      let chunk := Z.min copied (length - copied) in
      m ← (if chunk <=? 16 then copy_short_exact m dst (dst + copied) chunk
           else copy_nonoverlapping m dst (dst + copied) chunk);
      double_loop fuel m dst length (copied + chunk)
    else Ok m
  end.

(** * The storage *)

(** Zeroed allocation: whether the allocator grants so many bytes. *)
Class ZeroedAlloc := alloc_zeroed : Z -> bool.

Module WindowStorage.
Definition try_contiguous `{ZeroedAlloc} (len : Z) : outcome unit mem :=
  _ ← debug_check (0 <? len);
  if I64_MAX <? len then Err tt else if alloc_zeroed len then Ok (zreplicate len x00) else Err tt.
Definition get (buf : mem) (idx : Z) : result byte := index buf idx.
Definition set (buf : mem) (idx : Z) (value : byte) : result mem := store buf idx [value].
Definition set_unchecked (buf : mem) (idx : Z) (value : byte) : result mem :=
  _ ← debug_check (idx <? zlen buf); store buf idx [value].
Definition copy_from_slice (buf : mem) (start : Z) (bytes : list byte) : result mem :=
  copy_range buf start (start + zlen bytes) bytes.
Definition fill (buf : mem) (start len : Z) (value : byte) : result mem :=
  copy_range buf start (start + len) (zreplicate len value).
Definition fill_all (buf : mem) (value : byte) : mem := zreplicate (zlen buf) value.
Definition extend_from_range (buf : mem) (start len : Z) (out : list byte) : result (list byte) :=
  bytes ← slice buf start (start + len); mret (out ++ bytes).
End WindowStorage.

(** [std::io::Write::write_all]. *)
Class Sink (W : Type) := write_all : list byte -> stateM W rar_error unit.

Module Window.
Record t := mk {
  buf : mem; dict_size : Z; pos : Z; first_win_done : bool; total_written : Z; total_flushed : Z;
  invisible_ranges : list (Z * Z); invisible_pending : Z }.

Definition set_buf (m : mem) (self : t) : t :=
  mk m (dict_size self) (pos self) (first_win_done self) (total_written self) (total_flushed self) (invisible_ranges self) (invisible_pending self).
Definition set_cursor (p : Z) (done : bool) (self : t) : t :=
  mk (buf self) (dict_size self) p done (total_written self) (total_flushed self) (invisible_ranges self) (invisible_pending self).
Definition set_written (n : Z) (self : t) : t :=
  mk (buf self) (dict_size self) (pos self) (first_win_done self) n (total_flushed self) (invisible_ranges self) (invisible_pending self).
Definition set_flushed (n : Z) (self : t) : t :=
  mk (buf self) (dict_size self) (pos self) (first_win_done self) (total_written self) n (invisible_ranges self) (invisible_pending self).
Definition set_invisible (ranges : list (Z * Z)) (pending : Z) (self : t) : t :=
  mk (buf self) (dict_size self) (pos self) (first_win_done self) (total_written self) (total_flushed self) ranges pending.

Definition try_new `{ZeroedAlloc} (dict_size : Z) : result t :=
  if dict_size =? 0 then Err (DictionaryTooLarge 0 0)
  else
    match WindowStorage.try_contiguous dict_size with
    | Ok buf => Ok (mk buf dict_size 0 false 0 0 [] 0)
    | Err _ => Err (AllocationFailed dict_size)
    | Panic => Panic
    end.

Definition ensure_capacity `{ZeroedAlloc} (dict_size_ : Z) (self : t) : result t :=
  if dict_size_ =? 0 then Err (DictionaryTooLarge 0 0)
  else
    b ← (if zlen (buf self) <? dict_size_ then
           match WindowStorage.try_contiguous dict_size_ with
           | Ok buf => Ok buf
           | Err _ => Err (AllocationFailed dict_size_)
           | Panic => Panic
           end
         else Ok (buf self));
    mret (mk b dict_size_ (if dict_size_ <=? pos self then pos self mod dict_size_ else pos self)
            (dict_size_ <=? total_written self) (total_written self) (total_flushed self) (invisible_ranges self) (invisible_pending self)).

Definition reset_for_reuse `{ZeroedAlloc} (dict_size_ : Z) (self : t) : result t :=
  self ← ensure_capacity dict_size_ self;
  mret (mk (buf self) (dict_size self) 0 false 0 0 [] 0).

Definition reset (self : t) : t := mk (WindowStorage.fill_all (buf self) x00) (dict_size self) 0 false 0 0 [] 0.

(** * Invisible output *)

Definition mark_invisible (start_total len : Z) (self : t) : result t :=
  if len =? 0 then Ok self
  else
    _ ← debug_check (total_flushed self <=? start_total);
    pending ← add_u64 (invisible_pending self) len;
    match list.last (invisible_ranges self) with
    | Some (last_start, last_len) =>
      if sat_add_u64 last_start last_len =? start_total then
        merged ← add_u64 last_len len;
        mret (set_invisible (removelast (invisible_ranges self) ++ [(last_start, merged)]) pending self)
      else mret (set_invisible (invisible_ranges self ++ [(start_total, len)]) pending self)
    | None => mret (set_invisible (invisible_ranges self ++ [(start_total, len)]) pending self)
    end.

(** [Iterator::sum] over [u64]. *)
Fixpoint sum_u64 {E} (acc : Z) (l : list Z) : outcome E Z :=
  match l with [] => Ok acc | x :: l => acc ← add_u64 acc x; sum_u64 acc l end.

Definition invisible_overlap {E} (start stop : Z) (self : t) : outcome E Z :=
  match invisible_ranges self with
  | [] => Ok 0
  | ranges => sum_u64 0 ((fun '(inv_start, inv_len) =>
      let inv_end := sat_add_u64 inv_start inv_len in
      sat_sub_u64 (Z.min inv_end stop) (Z.max inv_start start)) <$> ranges)
  end.

Definition resync_invisible_pending {E} (self : t) : outcome E t :=
  n ← invisible_overlap (total_flushed self) (total_written self) self;
  mret (set_invisible (invisible_ranges self) n self).

Definition gc_invisible (self : t) : t :=
  set_invisible (filter (fun '(start, len) => total_flushed self < sat_add_u64 start len) (invisible_ranges self))
    (invisible_pending self) self.

Definition unflushed_bytes {E} (self : t) : outcome E Z :=
  let span := sat_sub_u64 (total_written self) (total_flushed self) in
  n ← invisible_overlap (total_flushed self) (total_written self) self;
  _ ← debug_check (invisible_pending self =? n);
  mret (sat_sub_u64 span (invisible_pending self)).

(** * Writing into the ring *)

(** [self.pos += n; if self.pos == dict_size { .. }]. *)
Definition advance_cursor (n : Z) (self : t) : t :=
  if pos self + n =? dict_size self then set_cursor 0 true self else set_cursor (pos self + n) (first_win_done self) self.
Definition count_written (n : Z) (self : t) : result t := total ← add_u64 (total_written self) n; mret (set_written total self).

Definition put_byte (b : byte) (self : t) : result t :=
  m ← WindowStorage.set_unchecked (buf self) (pos self) b;
  count_written 1 (advance_cursor 1 (set_buf m self)).

(** [while !rest.is_empty() { .. }]. *)
Fixpoint put_chunks (fuel : nat) (rest : list byte) (self : t) : result t :=
  match fuel with
  | O => Panic
  | S fuel =>
    match rest with
    | [] => Ok self
    | _ =>
      let chunk := Z.min (zlen rest) (dict_size self - pos self) in
      piece ← slice rest 0 chunk;
      m ← WindowStorage.copy_from_slice (buf self) (pos self) piece;
      put_chunks fuel (zdrop chunk rest) (advance_cursor chunk (set_buf m self))
    end
  end.

(** [for (i, &b) in bytes.iter().enumerate() { *out.add(i) = b }]. *)
Fixpoint put_each (m : mem) (dst : Z) (bytes : list byte) : result mem :=
  match bytes with [] => Ok m | b :: bytes => m ← store m dst [b]; put_each m (dst + 1) bytes end.

Definition put_bytes (bytes : list byte) (self : t) : result t :=
  let length := zlen bytes in
  if length =? 0 then Ok self
  else
    let dst := pos self in
    stop ← add_u64 dst length;
    self ← (if stop <=? dict_size self then
              m ← (if length <=? 8 then put_each (buf self) dst bytes
                   else WindowStorage.copy_from_slice (buf self) dst bytes);
              mret (advance_cursor length (set_buf m self))
            else put_chunks (S (Z.to_nat length)) bytes self);
    count_written length self.

Definition put_literal_batch (bytes : list byte) (n : Z) (self : t) : result t :=
  _ ← debug_check ((1 <=? n) && (n <=? 8));
  if (n =? 8) && (pos self + 8 <=? dict_size self) then
    m ← store (buf self) (pos self) bytes;
    count_written 8 (advance_cursor 8 (set_buf m self))
  else
    piece ← slice bytes 0 n;
    put_bytes piece self.

(** * Matches *)

Definition copy_no_wrap_fast (src length : Z) (self : t) : result t :=
  let dst := pos self in
  _ ← debug_check (0 <? length);
  _ ← debug_check (src + length <=? dict_size self);
  _ ← debug_check (dst + length <=? dict_size self);
  let gap := Z.abs (dst - src) in
  m ← (if 8 <=? gap then
         if length <=? 16 then copy_short_exact (buf self) src dst length
         else if (length <=? gap) && (INLINE_COPY_MAX <? length) then copy_nonoverlapping (buf self) src dst length
         else copy_chunked (buf self) src dst gap length
       else if src <? dst then
         if length <=? 16 then copy_bytes (buf self) src dst length
         else
           m ← copy_short_exact (buf self) src dst gap;
           double_loop (S (Z.to_nat length)) m dst length gap
       else copy_bytes (buf self) src dst length);
  count_written length (set_cursor (dst + length) (first_win_done self) (set_buf m self)).

(** [while remaining > 0 { .. fill .. }]. *)
Fixpoint fill_chunks (fuel : nat) (value : byte) (remaining : Z) (self : t) : result t :=
  match fuel with
  | O => Panic
  | S fuel =>
    if 0 <? remaining then
      let chunk := Z.min remaining (dict_size self - pos self) in
      m ← WindowStorage.fill (buf self) (pos self) chunk value;
      fill_chunks fuel value (remaining - chunk) (advance_cursor chunk (set_buf m self))
    else Ok self
  end.

Definition fill_zeroes_advance (length : Z) (self : t) : result t :=
  self ← fill_chunks (S (Z.to_nat length)) x00 length self;
  count_written length self.

Definition advance_preserving_window (length : Z) (self : t) : result t :=
  stop ← add_u64 (pos self) length;
  count_written length (set_cursor (stop mod dict_size self) (if dict_size self <=? stop then true else first_win_done self) self).

(** The byte loop with wrap handling; [dst] lives in the cursor. *)
Fixpoint copy_wrapping (remaining : nat) (src : Z) (self : t) : result t :=
  match remaining with
  | O => Ok self
  | S remaining =>
    byte ← WindowStorage.get (buf self) src;
    m ← WindowStorage.set (buf self) (pos self) byte;
    let src := if src + 1 =? dict_size self then 0 else src + 1 in
    copy_wrapping remaining src (advance_cursor 1 (set_buf m self))
  end.

Definition source_index (distance : Z) (self : t) : Z :=
  if distance <=? pos self then pos self - distance else dict_size self - (distance - pos self).

Definition copy_advance (distance length : Z) (self : t) : result t :=
  _ ← debug_check (Bool.eqb (first_win_done self) (dict_size self <=? total_written self));
  if length =? 0 then Ok self
  else if distance =? 0 then advance_preserving_window length self
  else if (dict_size self <? distance) || ((pos self <? distance) && negb (first_win_done self)) then fill_zeroes_advance length self
  else
    let src := source_index distance self in
    if distance =? 1 then
      byte ← WindowStorage.get (buf self) src;
      stop ← add_u64 (pos self) length;
      self ← (if stop <=? dict_size self then
                m ← WindowStorage.fill (buf self) (pos self) length byte;
                mret (advance_cursor length (set_buf m self))
              else fill_chunks (S (Z.to_nat length)) byte length self);
      count_written length self
    else
      let fast_limit := sat_sub_u64 (dict_size self) MAX_INC_LZ_MATCH in
      if (length <=? MAX_INC_LZ_MATCH) && (src <? fast_limit) && (pos self <? fast_limit) then copy_no_wrap_fast src length self
      else
        self ← copy_wrapping (Z.to_nat length) src self;
        count_written length self.

Definition hide_tail (start_total length visible_len : Z) (self : t) : result t :=
  let visible := Z.min visible_len length in
  if visible <? length then start ← add_u64 start_total visible; mark_invisible start (length - visible) self else Ok self.

Definition copy_with_visible_len (distance length visible_len : Z) (self : t) : result t :=
  let start_total := total_written self in
  self ← copy_advance distance length self;
  hide_tail start_total length visible_len self.

Definition copy (distance length : Z) (self : t) : result t := copy_with_visible_len distance length length self.

Definition copy_rar15_with_visible_len (distance length visible_len : Z) (self : t) : result t :=
  let start_total := total_written self in
  self ← (if distance =? 0 then fill_zeroes_advance length self else copy_advance distance length self);
  hide_tail start_total length visible_len self.

(** * Output *)

(** [while remaining > 0 { .. idx = (idx + contig) % dict_size; .. }] over the pieces of the ring. *)
Fixpoint ring_pieces {S A} (fuel : nat) (emit : Z -> Z -> A -> stateM S rar_error A) (dict idx remaining : Z) (a : A) : stateM S rar_error A :=
  match fuel with
  | O => lift Panic
  | S fuel =>
    if 0 <? remaining then
      let contig := Z.min (dict - idx) remaining in
      a ← emit idx contig a;
      ring_pieces fuel emit dict ((idx + contig) mod dict) (remaining - contig) a
    else mret a
  end.

Definition try_copy_output (start_total len : Z) (self : t) : result (list byte) :=
  match checked_add_u64 start_total len with
  | None => Err CorruptArchive
  | Some end_total =>
    if (total_written self <? start_total) || (total_written self <? end_total) then Err CorruptArchive
    else
      let distance := total_written self - start_total in
      if dict_size self <? distance then Err CorruptArchive
      else
        (ring_pieces (S (Z.to_nat len)) (fun idx contig out => lift (WindowStorage.extend_from_range (buf self) idx contig out))
          (dict_size self) (source_index distance self) len [] tt).1
  end.

(** The same into a caller's buffer, which is cleared first. *)
Definition copy_output_into (start_total len : Z) (self : t) : stateM (list byte) rar_error unit := fun out =>
  match try_copy_output start_total len self with
  | Ok bytes => (Ok tt, bytes)
  | Err e => (Err e, out)
  | Panic => (Panic, out)
  end.

Section writing.
Context {W : Type} `{Sink W}.
Local Abbreviation M := (stateM W rar_error).

Definition write_range_to_writer (start_total len : Z) (self : t) : M unit :=
  if len =? 0 then mret tt
  else
    match checked_add_u64 start_total len with
    | None => fails CorruptArchive
    | Some end_total =>
      if total_written self <? end_total then fails CorruptArchive
      else
        match checked_sub_u64 (total_written self) start_total with
        | None => fails CorruptArchive
        | Some distance =>
          if dict_size self <? distance then fails CorruptArchive
          else
            ring_pieces (S (Z.to_nat len)) (fun idx contig _ => bytes ← lift (slice (buf self) idx (idx + contig)); write_all bytes)
              (dict_size self) (source_index distance self) len tt
        end
    end.

Fixpoint write_gaps (ranges : list (Z * Z)) (stop cursor written : Z) (self : t) : M (Z * Z) :=
  match ranges with
  | [] => mret (cursor, written)
  | (inv_start, inv_len) :: ranges =>
    let inv_end := sat_add_u64 inv_start inv_len in
    if inv_end <=? cursor then write_gaps ranges stop cursor written self
    else if stop <=? inv_start then mret (cursor, written)
    else
      written ← (if cursor <? inv_start then
                   let gap_end := Z.min inv_start stop in
                   _ ← write_range_to_writer cursor (gap_end - cursor) self;
                   mret (written + (gap_end - cursor))
                 else mret written);
      write_gaps ranges stop (Z.max cursor (Z.min inv_end stop)) written self
  end.

Definition write_visible_span (start stop : Z) (self : t) : M Z :=
  '(cursor, written) ← write_gaps (invisible_ranges self) stop start 0 self;
  if cursor <? stop then
    _ ← write_range_to_writer cursor (stop - cursor) self;
    mret (written + (stop - cursor))
  else mret written.

(** [total_flushed = target; gc_invisible(); resync_invisible_pending()]. *)
Definition move_border {E} (target : Z) (self : t) : outcome E t := resync_invisible_pending (gc_invisible (set_flushed target self)).

Definition flush_to_writer (self : t) : M (Z * t) :=
  unflushed ← lift (unflushed_bytes self);
  if unflushed =? 0 then
    self ← lift (move_border (total_written self) self); mret (0, self)
  else if dict_size self <? unflushed then fails CorruptArchive
  else
    _ ← write_visible_span (total_flushed self) (total_written self) self;
    self ← lift (move_border (total_written self) self);
    mret (unflushed, self).

Definition flush_visible_until (up_to : Z) (self : t) : M (Z * t) :=
  let target := Z.min up_to (total_written self) in
  if target <=? total_flushed self then mret (0, self)
  else
    written ← write_visible_span (total_flushed self) target self;
    self ← lift (move_border target self);
    mret (written, self).
End writing.

Definition mark_flushed (up_to : Z) (self : t) : result t := move_border (Z.min up_to (total_written self)) self.

Definition get_byte (distance : Z) (self : t) : result byte := WindowStorage.get (buf self) (source_index distance self).
End Window.
