(* ===== verification/LzCopies.v ===== *)
(** The raw copies of the window are the byte loop: whatever stride a copy
    takes, with source and destination overlapping in either order, it writes
    exactly the bytes the forward byte loop would and touches nothing else. *)
From S2P Require Import Prelude RarTypes StateM LzWindow.

Lemma debug_check_ok {E} b : b = true -> debug_check (E := E) b = Ok tt.
Proof. by intros ->. Qed.
Lemma add_u64_ok {E} a b : a + b < 2 ^ 64 -> add_u64 (E := E) a b = Ok (a + b).
Proof. intros H. unfold add_u64. by rewrite (proj2 (Z.ltb_lt _ _)). Qed.
(** Passes the assertions ahead. *)
Ltac checked := repeat (rewrite debug_check_ok, bind_Ok by lia).

(** * Buffers by index *)

Definition byte_at (m : mem) (i : Z) : byte := nth (Z.to_nat i) m x00.
(** The bytes [f 0 .. f (n - 1)]. *)
Definition tab (n : Z) (f : Z -> byte) : list byte := (fun i => f (Z.of_nat i)) <$> seq 0 (Z.to_nat n).
Definition splice (m : mem) (dst : Z) (l : list byte) : mem := ztake dst m ++ l ++ zdrop (dst + zlen l) m.

Lemma zlen_tab n f : 0 <= n -> zlen (tab n f) = n.
Proof. intros Hn. unfold tab, zlen. rewrite length_fmap, length_seq. lia. Qed.

Lemma byte_at_tab n f i : 0 <= i < n -> byte_at (tab n f) i = f i.
Proof.
  intros Hi. unfold byte_at, tab. rewrite (nth_indep _ x00 (f (Z.of_nat 0))) by (rewrite length_fmap, length_seq; lia).
  change (nth (Z.to_nat i) ((fun i0 => f (Z.of_nat i0)) <$> seq 0 (Z.to_nat n)) (f (Z.of_nat 0)) = f i).
  rewrite (map_nth (fun i0 => f (Z.of_nat i0))), seq_nth by lia. f_equal. lia.
Qed.

Lemma byte_at_app_l a b i : 0 <= i < zlen a -> byte_at (a ++ b) i = byte_at a i.
Proof. intros Hi. unfold byte_at, zlen in *. apply app_nth1. lia. Qed.
Lemma byte_at_app_r a b i : zlen a <= i -> byte_at (a ++ b) i = byte_at b (i - zlen a).
Proof. intros Hi. unfold byte_at, zlen in *. rewrite app_nth2 by lia. f_equal. lia. Qed.

Lemma mem_ext a b : zlen a = zlen b -> (forall i, 0 <= i < zlen a -> byte_at a i = byte_at b i) -> a = b.
Proof.
  intros Hlen H. apply (nth_ext _ _ x00 x00); [unfold zlen in Hlen; lia|]. intros n Hn.
  specialize (H (Z.of_nat n)). unfold byte_at, zlen in *. rewrite Nat2Z.id in H. apply H. lia.
Qed.

Lemma tab_ext n f g : 0 <= n -> (forall i, 0 <= i < n -> f i = g i) -> tab n f = tab n g.
Proof.
  intros Hn H. apply mem_ext; rewrite !zlen_tab by lia; [done|]. intros i Hi. rewrite !byte_at_tab by lia. by apply H.
Qed.
Lemma tab_app n k f : 0 <= n -> 0 <= k -> tab (n + k) f = tab n f ++ tab k (fun i => f (n + i)).
Proof.
  intros Hn Hk. apply mem_ext; rewrite ?zlen_app, !zlen_tab by lia; [done|]. intros i Hi. rewrite byte_at_tab by lia.
  destruct (Z.lt_ge_cases i n).
  - rewrite byte_at_app_l, byte_at_tab by (rewrite ?zlen_tab; lia). done.
  - rewrite byte_at_app_r, zlen_tab, byte_at_tab by (rewrite ?zlen_tab; lia). f_equal. lia.
Qed.
Lemma tab_const n b : 0 <= n -> tab n (fun _ => b) = zreplicate n b.
Proof.
  intros Hn. apply mem_ext; rewrite ?zlen_tab, ?zlen_replicate by lia; [done|]. intros i Hi.
  rewrite byte_at_tab by lia. unfold byte_at, zreplicate. rewrite nth_lookup, lookup_replicate_2 by lia. done.
Qed.
Lemma tab_1 f : tab 1 f = [f 0].
Proof. done. Qed.
Lemma tab_self m : tab (zlen m) (byte_at m) = m.
Proof.
  pose proof (zlen_nonneg m). apply mem_ext; rewrite !zlen_tab by lia; [done|]. intros i Hi. by rewrite byte_at_tab.
Qed.

Lemma zlen_splice m dst l : 0 <= dst -> dst + zlen l <= zlen m -> zlen (splice m dst l) = zlen m.
Proof.
  intros Hd Hl. pose proof (zlen_nonneg l). unfold splice. rewrite !zlen_app, zlen_take, zlen_drop by lia. lia.
Qed.
Lemma byte_at_take m n i : 0 <= i < n -> n <= zlen m -> byte_at (ztake n m) i = byte_at m i.
Proof.
  intros Hi Hn. rewrite <- (ztake_zdrop n m) at 2 by lia. rewrite byte_at_app_l; [done|]. rewrite zlen_take; lia.
Qed.
Lemma byte_at_drop m n i : 0 <= i -> 0 <= n <= zlen m -> byte_at (zdrop n m) i = byte_at m (n + i).
Proof.
  intros Hi Hn. rewrite <- (ztake_zdrop n m) at 2 by lia. rewrite byte_at_app_r; rewrite zlen_take by lia; [f_equal|]; lia.
Qed.
Lemma byte_at_splice m dst l i : 0 <= dst -> dst + zlen l <= zlen m -> 0 <= i ->
  byte_at (splice m dst l) i = if (dst <=? i) && (i <? dst + zlen l) then byte_at l (i - dst) else byte_at m i.
Proof.
  intros Hd Hl Hi. pose proof (zlen_nonneg l). unfold splice.
  assert (Ht : zlen (ztake dst m) = dst) by (rewrite zlen_take; lia).
  destruct (Z.leb_spec dst i); cbn [andb].
  - rewrite byte_at_app_r, Ht by lia. destruct (Z.ltb_spec i (dst + zlen l)).
    + rewrite byte_at_app_l by lia. done.
    + rewrite byte_at_app_r, byte_at_drop by lia. f_equal. lia.
  - rewrite byte_at_app_l, byte_at_take by lia. done.
Qed.
Lemma splice_nil m dst : 0 <= dst <= zlen m -> splice m dst [] = m.
Proof. intros Hd. unfold splice. rewrite zlen_nil, Z.add_0_r. cbn. by rewrite ztake_zdrop by lia. Qed.
(** Two runs side by side are one run. *)
Lemma splice_splice m dst a b : 0 <= dst -> dst + zlen a + zlen b <= zlen m ->
  splice (splice m dst a) (dst + zlen a) b = splice m dst (a ++ b).
Proof.
  intros Hd Hl. pose proof (zlen_nonneg a). pose proof (zlen_nonneg b).
  assert (Hs : zlen (splice m dst a) = zlen m) by (apply zlen_splice; lia).
  apply mem_ext; rewrite !zlen_splice by (rewrite ?zlen_app; lia); [done|]. intros i Hi.
  rewrite !byte_at_splice by (rewrite ?zlen_app; lia). rewrite zlen_app.
  destruct (Z.leb_spec (dst + zlen a) i), (Z.ltb_spec i (dst + zlen a + zlen b)), (Z.leb_spec dst i),
    (Z.ltb_spec i (dst + zlen a)), (Z.ltb_spec i (dst + (zlen a + zlen b))); cbn [andb]; try lia; try done.
  - rewrite byte_at_app_r by lia. f_equal. lia.
  - by rewrite byte_at_app_l by lia.
Qed.

Lemma slice_tab {E} m a b : 0 <= a <= b -> b <= zlen m -> slice (E := E) m a b = Ok (tab (b - a) (fun j => byte_at m (a + j))).
Proof.
  intros Ha Hb. rewrite slice_ok by lia. f_equal.
  assert (Hl : zlen (ztake (b - a) (zdrop a m)) = b - a) by (rewrite zlen_take, zlen_drop by lia; lia).
  apply mem_ext; rewrite Hl, ?zlen_tab by lia; [done|]. intros i Hi.
  rewrite byte_at_tab, byte_at_take, byte_at_drop by (rewrite ?zlen_drop; lia). done.
Qed.
Lemma load_ok w m src : 0 <= src -> 0 <= w -> src + w <= zlen m -> load w m src = Ok (tab w (fun j => byte_at m (src + j))).
Proof. intros Hs Hw Hl. unfold load. rewrite slice_tab by lia. by replace (src + w - src) with w by lia. Qed.
Lemma copy_range_splice {E} m a b l : 0 <= a -> b = a + zlen l -> b <= zlen m -> copy_range (E := E) m a b l = Ok (splice m a l).
Proof. intros Ha -> Hl. by rewrite copy_range_ok. Qed.
Lemma store_ok m dst l : 0 <= dst -> dst + zlen l <= zlen m -> store m dst l = Ok (splice m dst l).
Proof. intros. unfold store. by rewrite copy_range_splice. Qed.

(** * What a copy writes *)

Section copy.
Context (m : mem) (src dst : Z).

(** Byte [i] of the copy: behind the source the pattern repeats, ahead of it
    the old bytes are read. *)
Definition copied_at (i : Z) : byte := byte_at m (src + (if src <? dst then i mod (dst - src) else i)).
(** The buffer when the first [k] bytes have been written. *)
Definition partial (k : Z) : mem := splice m dst (tab k copied_at).

Lemma zlen_partial k : 0 <= dst -> 0 <= k -> dst + k <= zlen m -> zlen (partial k) = zlen m.
Proof. intros. apply zlen_splice; rewrite ?zlen_tab; lia. Qed.

Lemma partial_0 : 0 <= dst <= zlen m -> partial 0 = m.
Proof. intros. apply splice_nil. lia. Qed.

Lemma copied_before i : 0 <= i -> src + i < dst -> copied_at i = byte_at m (src + i).
Proof. intros Hi H. unfold copied_at. destruct (Z.ltb_spec src dst); [by rewrite Z.mod_small by lia | done]. Qed.
Lemma copied_ahead i : dst <= src -> copied_at i = byte_at m (src + i).
Proof. intros H. unfold copied_at. by destruct (Z.ltb_spec src dst); [lia|]. Qed.
Lemma copied_period i k : src < dst -> copied_at (i + k * (dst - src)) = copied_at i.
Proof. intros H. unfold copied_at. destruct (Z.ltb_spec src dst); [|lia]. by rewrite Z.mod_add by lia. Qed.

Context (Hsrc : 0 <= src) (Hdst : 0 <= dst).

(** Loads of the source see final bytes as long as they stay behind the
    progress (overlap from below) or ahead of it (overlap from above). *)
Lemma load_step k i w : 0 <= k -> 0 <= i -> 0 <= w -> src + i + w <= zlen m -> dst + k <= zlen m ->
  (src < dst -> i + w - (dst - src) <= k) -> (dst <= src -> k <= i + (src - dst)) ->
  load w (partial k) (src + i) = Ok (tab w (fun j => copied_at (i + j))).
Proof using Hsrc Hdst.
  intros Hk Hi Hw Hl Hd Hbelow Habove. assert (Hp : zlen (partial k) = zlen m) by (apply zlen_partial; lia).
  rewrite load_ok by lia. f_equal. apply tab_ext; [lia|]. intros j Hj. unfold partial.
  rewrite byte_at_splice, zlen_tab by (rewrite ?zlen_tab; lia).
  destruct (Z.leb_spec dst (src + i + j)); cbn [andb].
  - destruct (Z.ltb_spec (src + i + j) (dst + k)).
    + assert (src < dst) by lia. rewrite byte_at_tab by lia.
      rewrite <- (copied_period (src + i + j - dst) 1) by lia. f_equal. lia.
    + rewrite (copied_ahead (i + j)) by lia. f_equal. lia.
  - rewrite copied_before by lia. f_equal. lia.
Qed.

Lemma store_step k i w : 0 <= i <= k -> 0 <= w -> dst + Z.max k (i + w) <= zlen m ->
  store (partial k) (dst + i) (tab w (fun j => copied_at (i + j))) = Ok (partial (Z.max k (i + w))).
Proof using Hdst.
  intros Hi Hw Hl. assert (Hp : zlen (partial k) = zlen m) by (apply zlen_partial; lia).
  rewrite store_ok by (rewrite ?zlen_tab; lia). f_equal.
  apply mem_ext; rewrite zlen_splice by (rewrite ?zlen_tab; lia); rewrite Hp; [by rewrite zlen_partial by lia|].
  intros x Hx. rewrite byte_at_splice by (rewrite ?zlen_tab; lia). unfold partial. rewrite !zlen_tab by lia.
  rewrite !byte_at_splice by (rewrite ?zlen_tab; lia). rewrite !zlen_tab by lia.
  destruct (Z.leb_spec (dst + i) x), (Z.ltb_spec x (dst + i + w)), (Z.leb_spec dst x), (Z.ltb_spec x (dst + k)),
    (Z.ltb_spec x (dst + Z.max k (i + w))); cbn [andb]; try lia; try done; rewrite !byte_at_tab by lia; f_equal; lia.
Qed.

Lemma move_step k i w : 0 <= i <= k -> 0 <= w -> src + i + w <= zlen m -> dst + Z.max k (i + w) <= zlen m ->
  (src < dst -> i + w - (dst - src) <= k) -> (dst <= src -> k <= i + (src - dst)) ->
  move w (partial k) (src + i) (dst + i) = Ok (partial (Z.max k (i + w))).
Proof using Hsrc Hdst. intros. unfold move. rewrite load_step, bind_Ok by lia. apply store_step; lia. Qed.

Context (n : Z) (Hn : 0 < n) (Hsrc_in : src + n <= zlen m) (Hdst_in : dst + n <= zlen m).

(** The distance between source and destination. *)
Local Abbreviation gap := (Z.abs (dst - src)).

(** Two overlapping power-of-two moves. *)
Lemma two_moves w : 0 < w -> w <= n <= 2 * w -> w <= gap ->
  (m' ← move w m src dst; move w m' (src + (n - w)) (dst + (n - w))) = Ok (partial n).
Proof using Hsrc Hdst Hn Hsrc_in Hdst_in.
  intros Hw Hr Hg. pose proof (move_step 0 0 w ltac:(lia) ltac:(lia) ltac:(lia) ltac:(lia) ltac:(lia) ltac:(lia)) as H.
  rewrite partial_0, !Z.add_0_r in H by lia. rewrite H, bind_Ok.
  rewrite move_step by lia. do 2 f_equal. lia.
Qed.

Lemma copy_short_exact_ok : n <= 16 -> (8 <= gap \/ gap = n) -> copy_short_exact m src dst n = Ok (partial n).
Proof using Hsrc Hdst Hn Hsrc_in Hdst_in.
  intros H16 Hg. unfold copy_short_exact. checked.
  destruct (Z.leb_spec 8 n); [apply two_moves; lia|]. destruct (Z.leb_spec 4 n); [apply two_moves; lia|].
  destruct (Z.leb_spec 2 n); [apply two_moves; lia|].
  pose proof (move_step 0 0 1 ltac:(lia) ltac:(lia) ltac:(lia) ltac:(lia) ltac:(lia) ltac:(lia)) as Hm.
  rewrite partial_0, !Z.add_0_r in Hm by lia. rewrite Hm. do 2 f_equal. lia.
Qed.

Lemma copy_by_16_ok fuel i : 16 <= gap -> 0 <= i <= n -> n < i + Z.of_nat fuel ->
  exists i', copy_by_16 fuel (partial i) src dst n i = Ok (partial i', i') /\ i <= i' <= n /\ n - i' < 16.
Proof using Hsrc Hdst Hsrc_in Hdst_in.
  intros Hg. revert i. induction fuel as [|fuel IH]; intros i Hi Hf; [lia|]. cbn [copy_by_16].
  destruct (Z.leb_spec (i + 16) n); [|exists i; split; [done|lia]].
  rewrite (load_step i i 8), bind_Ok by lia. rewrite (load_step i (i + 8) 8), bind_Ok by lia.
  rewrite (store_step i i 8), bind_Ok by lia. rewrite (Z.max_r i (i + 8)) by lia.
  rewrite (store_step (i + 8) (i + 8) 8), bind_Ok by lia. rewrite (Z.max_r (i + 8) (i + 8 + 8)) by lia. replace (i + 8 + 8) with (i + 16) by lia.
  destruct (IH (i + 16)) as (i' & -> & Hi'); [lia..|]. exists i'. split; [done|lia].
Qed.

Lemma copy_by_8_ok fuel i : 8 <= gap -> 0 <= i <= n -> n < i + Z.of_nat fuel ->
  exists i', copy_by_8 fuel (partial i) src dst n i = Ok (partial i', i') /\ i <= i' <= n /\ n - i' < 8.
Proof using Hsrc Hdst Hsrc_in Hdst_in.
  intros Hg. revert i. induction fuel as [|fuel IH]; intros i Hi Hf; [lia|]. cbn [copy_by_8].
  destruct (Z.leb_spec (i + 8) n); [|exists i; split; [done|lia]].
  rewrite move_step, bind_Ok by lia. rewrite (Z.max_r i (i + 8)) by lia.
  destruct (IH (i + 8)) as (i' & -> & Hi'); [lia..|]. exists i'. split; [done|lia].
Qed.

Lemma copy_chunked_ok : 16 < n -> 8 <= gap -> copy_chunked m src dst gap n = Ok (partial n).
Proof using Hsrc Hdst Hn Hsrc_in Hdst_in.
  intros H16 Hg. unfold copy_chunked. checked.
  assert (exists i, (if 16 <=? gap then copy_by_16 (S (Z.to_nat n)) m src dst n 0 else Ok (m, 0)) = Ok (partial i, i) /\ 0 <= i <= n)
    as (i & -> & Hi).
  { destruct (Z.leb_spec 16 gap); [|exists 0; split; [by rewrite partial_0 by lia | lia]].
    destruct (copy_by_16_ok (S (Z.to_nat n)) 0) as (i & Hrun & Hi); [lia..|]. exists i. rewrite partial_0 in Hrun by lia. split; [done|lia]. }
  rewrite bind_Ok. destruct (copy_by_8_ok (S (Z.to_nat n)) i) as (j & -> & Hj); [lia..|]. rewrite bind_Ok.
  destruct (Z.ltb_spec j n); [|by replace j with n by lia].
  rewrite move_step by lia. do 2 f_equal. lia.
Qed.

Lemma copy_nonoverlapping_ok : n <= gap -> copy_nonoverlapping m src dst n = Ok (partial n).
Proof using Hsrc Hdst Hn Hsrc_in Hdst_in.
  intros Hg. unfold copy_nonoverlapping.
  pose proof (move_step 0 0 n ltac:(lia) ltac:(lia) ltac:(lia) ltac:(lia) ltac:(lia) ltac:(lia)) as H.
  rewrite partial_0, !Z.add_0_r, !Z.add_0_l, Z.max_r in H by lia.
  destruct (Z.leb_spec (src + n) dst), (Z.leb_spec (dst + n) src); cbn [orb]; done || lia.
Qed.

Lemma copy_bytes_ok : copy_bytes m src dst n = Ok (partial n).
Proof using Hsrc Hdst Hn Hsrc_in Hdst_in.
  unfold copy_bytes.
  assert (H : forall k lo, Z.of_nat lo + Z.of_nat k = n ->
    for_range lo k (fun i m0 => move 1 m0 (src + Z.of_nat i) (dst + Z.of_nat i)) (partial (Z.of_nat lo)) = Ok (partial n)).
  { intros k. induction k as [|k IH]; intros lo Hlo; cbn [for_range].
    - repeat f_equal. lia.
    - rewrite move_step, bind_Ok by lia. rewrite <- (IH (S lo)) by lia. do 2 f_equal. lia. }
  specialize (H (Z.to_nat n) 0%nat ltac:(lia)). change (Z.of_nat 0) with 0 in H. by rewrite partial_0 in H by lia.
Qed.
End copy.

(** Doubling: a prefix that is a whole number of periods is copied behind itself. *)
Lemma partial_double m src dst k n : 0 <= src < dst -> 0 < n <= k -> dst + k + n <= zlen m -> (exists q, k = q * (dst - src)) ->
  partial (partial m src dst k) dst (dst + k) n = partial m src dst (k + n).
Proof.
  intros Hs Hn Hl (q & Hq). unfold partial at 1. unfold partial at 3. rewrite tab_app by lia.
  rewrite <- splice_splice by (rewrite ?zlen_tab; lia). rewrite zlen_tab by lia. fold (partial m src dst k).
  f_equal. apply tab_ext; [lia|]. intros i Hi.
  rewrite (copied_before (partial m src dst k)) by lia.
  assert (Hper : copied_at m src dst (k + i) = copied_at m src dst i).
  { replace (k + i) with (i + q * (dst - src)) by lia. apply copied_period. lia. }
  rewrite Hper.
  unfold partial. rewrite byte_at_splice, zlen_tab by (rewrite ?zlen_tab; lia).
  rewrite (proj2 (Z.leb_le dst (dst + i))), (proj2 (Z.ltb_lt (dst + i) (dst + k))) by lia. cbn [andb].
  rewrite byte_at_tab by lia. f_equal. lia.
Qed.

Lemma double_loop_ok m src dst n fuel k : 0 <= src < dst -> 16 < n -> dst + n <= zlen m -> n < k + Z.of_nat fuel ->
  0 < k <= n -> ((exists q, k = q * (dst - src)) \/ k = n) ->
  double_loop fuel (partial m src dst k) dst n k = Ok (partial m src dst n).
Proof.
  intros Hs Hn Hl. revert k. induction fuel as [|fuel IH]; intros k Hf Hk Hq; [lia|]. cbn [double_loop].
  destruct (Z.ltb_spec k n); [|by replace k with n by lia].
  destruct Hq as [Hq|]; [|lia]. cbv zeta.
  assert (Hchunk : (if Z.min k (n - k) <=? 16 then copy_short_exact (partial m src dst k) dst (dst + k) (Z.min k (n - k))
    else copy_nonoverlapping (partial m src dst k) dst (dst + k) (Z.min k (n - k))) = Ok (partial m src dst (k + Z.min k (n - k)))).
  { rewrite <- partial_double by (done || lia).
    assert (Hp : zlen (partial m src dst k) = zlen m) by (apply zlen_partial; lia).
    destruct (Z.leb_spec (Z.min k (n - k)) 16); [|apply copy_nonoverlapping_ok; lia].
    apply copy_short_exact_ok; lia. }
  rewrite Hchunk, bind_Ok. apply IH; [lia | lia |].
  destruct (Z.le_gt_cases k (n - k)); [left | right; lia].
  destruct Hq as (q & Hq). exists (2 * q). lia.
Qed.
