(* ===== verification/LzHistory.v ===== *)
(** The ring buffer holds the end of the output: after any sequence of writes
    and matches the slots of the window are the last bytes of everything
    decoded so far, and a match of distance [d] repeats the bytes [d] back. *)
From S2P Require Import Prelude RarTypes StateM LzWindow LzCopies.
Import Window.

(** What a match of [n] bytes at distance [d] adds to the output: the last [d]
    bytes over and over, or zeros when they were never written. *)
Definition match_bytes (hist : list byte) (d n : Z) : list byte := tab n (fun i => byte_at hist (zlen hist - d + i mod d)).
Definition lz_match (dict : Z) (hist : list byte) (d n : Z) : list byte :=
  if (dict <? d) || (zlen hist <? d) then zreplicate n x00 else match_bytes hist d n.

Lemma zlen_lz_match dict hist d n : 0 <= n -> zlen (lz_match dict hist d n) = n.
Proof. intros Hn. unfold lz_match, match_bytes. destruct (_ || _); [by apply zlen_replicate | by apply zlen_tab]. Qed.

(** * Slots *)

Lemma slot_back total dict k : 0 < dict -> 1 <= k <= dict ->
  (total - k) mod dict = if k <=? total mod dict then total mod dict - k else total mod dict - k + dict.
Proof.
  intros Hd Hk. pose proof (Z.mod_pos_bound total dict Hd). pose proof (Z.div_mod total dict ltac:(lia)).
  destruct (Z.leb_spec k (total mod dict)); symmetry.
  - apply Z.mod_unique with (q := total / dict); lia.
  - apply Z.mod_unique with (q := total / dict - 1); lia.
Qed.
Lemma slot_ahead total dict k : 0 < dict -> 0 <= k -> total mod dict + k < dict -> (total + k) mod dict = total mod dict + k.
Proof.
  intros Hd Hk Hl. pose proof (Z.mod_pos_bound total dict Hd). pose proof (Z.div_mod total dict ltac:(lia)). symmetry.
  apply Z.mod_unique with (q := total / dict); lia.
Qed.
Lemma slot_wrap total dict k : 0 < dict -> total mod dict + k = dict -> (total + k) mod dict = 0.
Proof.
  intros Hd Hl. pose proof (Z.div_mod total dict ltac:(lia)). symmetry. apply Z.mod_unique with (q := total / dict + 1); lia.
Qed.

(** * The ring invariant *)

Record ring (self : t) (hist : list byte) : Prop := mk_ring {
  ring_dict : 0 < dict_size self <= zlen (buf self);
  ring_pos : pos self = zlen hist mod dict_size self;
  ring_done : first_win_done self = (dict_size self <=? zlen hist);
  ring_bytes : forall i, 0 <= i < zlen hist -> zlen hist - dict_size self <= i -> byte_at (buf self) (i mod dict_size self) = byte_at hist i
}.

(** The fields a write leaves alone. *)
Definition rest_of (self : t) := (dict_size self, total_flushed self, invisible_ranges self, invisible_pending self).

(** [m] appends [l] to the output. *)
Definition appends (m : result t) (self : t) (hist l : list byte) : Prop :=
  exists self', m = Ok self' /\ ring self' (hist ++ l) /\ rest_of self' = rest_of self /\ total_written self' = total_written self.
Definition writes (m : result t) (self : t) (hist l : list byte) : Prop :=
  exists self', m = Ok self' /\ ring self' (hist ++ l) /\ rest_of self' = rest_of self /\ total_written self' = zlen (hist ++ l).

Section ring.
Context (self : t) (hist : list byte) (Hring : ring self hist).

Lemma cursor_range : 0 <= pos self < dict_size self.
Proof using Hring. rewrite (ring_pos _ _ Hring). apply Z.mod_pos_bound. apply (ring_dict _ _ Hring). Qed.

Lemma cursor_early : zlen hist < dict_size self -> pos self = zlen hist.
Proof using Hring. intros H. rewrite (ring_pos _ _ Hring). apply Z.mod_small. pose proof (zlen_nonneg hist). lia. Qed.

(** A run that ends at the ring's edge at the latest. *)
Lemma put_run l : pos self + zlen l <= dict_size self ->
  appends (Ok (advance_cursor (zlen l) (set_buf (splice (buf self) (pos self) l) self))) self hist l.
Proof using Hring.
  intros Hl. pose proof cursor_range as Hp. pose proof (zlen_nonneg l). pose proof (zlen_nonneg hist).
  destruct Hring as [Hdict Hpos Hdone Hbytes]. eexists. split; [reflexivity|].
  pose proof (Z.mod_le (zlen hist) (dict_size self) ltac:(lia) ltac:(lia)) as Hearly.
  assert (Hlen : zlen (splice (buf self) (pos self) l) = zlen (buf self)) by (apply zlen_splice; lia).
  assert (Hslots : forall i, 0 <= i < zlen (hist ++ l) -> zlen (hist ++ l) - dict_size self <= i ->
    byte_at (splice (buf self) (pos self) l) (i mod dict_size self) = byte_at (hist ++ l) i).
  { intros i Hi Hold. rewrite zlen_app in *. pose proof (Z.mod_pos_bound i (dict_size self) ltac:(lia)).
    rewrite byte_at_splice by lia. destruct (Z.lt_ge_cases i (zlen hist)).
    - rewrite byte_at_app_l, <- Hbytes by lia.
      pose proof (slot_back (zlen hist) (dict_size self) (zlen hist - i) ltac:(lia) ltac:(lia)) as Hslot.
      replace (zlen hist - (zlen hist - i)) with i in Hslot by lia. rewrite <- Hpos in Hslot.
      rewrite (proj2 (andb_false_iff _ _)); [done|].
      destruct (Z.leb_spec (zlen hist - i) (pos self)); lia.
    - rewrite byte_at_app_r by lia.
      pose proof (slot_ahead (zlen hist) (dict_size self) (i - zlen hist) ltac:(lia) ltac:(lia) ltac:(lia)) as Hslot.
      replace (zlen hist + (i - zlen hist)) with i in Hslot by lia. rewrite <- Hpos in Hslot. rewrite Hslot.
      rewrite (proj2 (Z.leb_le (pos self) _)), (proj2 (Z.ltb_lt _ (pos self + zlen l))) by lia. cbn [andb]. f_equal. lia. }
  unfold advance_cursor. cbn [pos dict_size set_buf first_win_done].
  destruct (Z.eqb_spec (pos self + zlen l) (dict_size self)); cbn [set_cursor rest_of].
  - split; [|done]. constructor; cbn; rewrite ?zlen_app in *; [lia | | lia | done].
    symmetry. apply slot_wrap; lia.
  - split; [|done]. constructor; cbn; rewrite ?zlen_app in *; [lia | rewrite slot_ahead; lia | | done].
    rewrite Hdone. destruct (Z.le_gt_cases (dict_size self) (zlen hist)); [lia|].
    pose proof (Z.mod_small (zlen hist) (dict_size self) ltac:(lia)). lia.
Qed.
End ring.

Lemma appends_trans s self hist l m' k : appends (Ok s) self hist l -> appends m' s (hist ++ l) k -> appends m' self hist (l ++ k).
Proof.
  intros (s1 & [= <-] & _ & Hrest & Htotal) (s' & -> & Hr & Hrest' & Htotal'). exists s'. rewrite app_assoc.
  split; [done|]. split; [done|]. split; congruence.
Qed.
Lemma appends_ring s self hist l : appends (Ok s) self hist l -> ring s (hist ++ l).
Proof. by intros (s1 & [= <-] & H & _). Qed.
Lemma appends_nil self hist : ring self hist -> appends (Ok self) self hist [].
Proof. intros H. exists self. by rewrite app_nil_r. Qed.
Lemma appends_dict s self hist l : appends (Ok s) self hist l -> dict_size s = dict_size self.
Proof. intros (s1 & [= <-] & _ & H & _). unfold rest_of in H. congruence. Qed.

(** Counting the bytes at the end turns appended into written ones. *)
Lemma count_ok m self hist l n :
  appends m self hist l -> n = zlen l -> total_written self = zlen hist -> zlen hist + n < 2 ^ 64 ->
  writes (m ≫= count_written n) self hist l.
Proof.
  intros (s & -> & Hr & Hrest & Htotal) -> Hw Hlt. rewrite bind_Ok. unfold count_written, add_u64, U64.
  rewrite Htotal, Hw. destruct (Z.ltb_spec (zlen hist + zlen l) (2 ^ 64)); [|lia]. cbn.
  exists (set_written (zlen hist + zlen l) s). split; [done|]. split; [|split; [done | cbn; by rewrite zlen_app]].
  destruct Hr. by constructor.
Qed.

(** * Literals *)

Lemma put_each_ok l : forall m dst, 0 <= dst -> dst + zlen l <= zlen m -> put_each m dst l = Ok (splice m dst l).
Proof.
  induction l as [|b l IH]; intros m dst Hd Hl; cbn [put_each]; [by rewrite splice_nil by (rewrite zlen_nil in Hl; lia)|].
  rewrite zlen_cons in Hl. pose proof (zlen_nonneg l). assert (H1 : zlen [b] = 1) by done.
  rewrite store_ok, bind_Ok by lia. rewrite IH by (rewrite ?zlen_splice by lia; lia). f_equal.
  rewrite <- H1. rewrite splice_splice by lia. done.
Qed.

Section ops.
Context (self : t) (hist : list byte) (Hring : ring self hist) (Htotal : total_written self = zlen hist).

Lemma store_at_cursor l : pos self + zlen l <= dict_size self -> store (buf self) (pos self) l = Ok (splice (buf self) (pos self) l).
Proof using Hring.
  intros Hl. pose proof (cursor_range _ _ Hring). pose proof (ring_dict _ _ Hring). apply store_ok; lia.
Qed.

Lemma put_byte_writes b : zlen hist + 1 < 2 ^ 64 -> writes (put_byte b self) self hist [b].
Proof using Hring Htotal.
  intros Hlt. pose proof (cursor_range _ _ Hring). pose proof (ring_dict _ _ Hring).
  unfold put_byte, WindowStorage.set_unchecked. checked. rewrite store_at_cursor, bind_Ok by (change (zlen [b]) with 1; lia).
  apply (count_ok (Ok _)); [apply (put_run _ _ Hring [b]); change (zlen [b]) with 1; lia | done | done | done].
Qed.
End ops.

Lemma put_chunks_appends fuel : forall rest self hist, ring self hist -> zlen rest < Z.of_nat fuel ->
  appends (put_chunks fuel rest self) self hist rest.
Proof.
  induction fuel as [|fuel IH]; intros rest self hist Hring Hf; [pose proof (zlen_nonneg rest); lia|]. cbn [put_chunks].
  destruct rest as [|b rest]; [by apply appends_nil|].
  pose proof (cursor_range _ _ Hring). pose proof (ring_dict _ _ Hring).
  set (all := b :: rest) in *. assert (Hall : 0 < zlen all) by (unfold all; rewrite zlen_cons; pose proof (zlen_nonneg rest); lia).
  set (chunk := Z.min (zlen all) (dict_size self - pos self)).
  assert (Hpiece : zlen (ztake chunk all) = chunk) by (rewrite zlen_take; lia).
  assert (slice (E := rar_error) all 0 chunk = Ok (ztake chunk all)) as ->.
  { rewrite slice_ok, zdrop_0, Z.sub_0_r by lia. done. }
  rewrite bind_Ok. unfold WindowStorage.copy_from_slice. rewrite copy_range_splice, bind_Ok by lia.
  pose proof (put_run _ _ Hring (ztake chunk all) ltac:(lia)) as Hrun. rewrite Hpiece in Hrun.
  assert (Hsplit : all = ztake chunk all ++ zdrop chunk all) by (by rewrite ztake_zdrop by lia).
  rewrite Hsplit at 3. eapply appends_trans; [exact Hrun|].
  apply IH; [by eapply appends_ring | rewrite zlen_drop by lia; lia].
Qed.

Lemma fill_chunks_appends value fuel : forall n self hist, ring self hist -> 0 <= n < Z.of_nat fuel ->
  appends (fill_chunks fuel value n self) self hist (zreplicate n value).
Proof.
  induction fuel as [|fuel IH]; intros n self hist Hring Hn; [lia|]. cbn [fill_chunks].
  destruct (Z.ltb_spec 0 n); [|replace n with 0 by lia; by apply appends_nil].
  pose proof (cursor_range _ _ Hring). pose proof (ring_dict _ _ Hring).
  set (chunk := Z.min n (dict_size self - pos self)). unfold WindowStorage.fill.
  assert (Hpiece : zlen (zreplicate chunk value) = chunk) by (apply zlen_replicate; lia).
  rewrite copy_range_splice, bind_Ok by lia.
  pose proof (put_run _ _ Hring (zreplicate chunk value) ltac:(lia)) as Hrun. rewrite Hpiece in Hrun.
  assert (Hsplit : zreplicate n value = zreplicate chunk value ++ zreplicate (n - chunk) value)
    by (rewrite zreplicate_app by lia; f_equal; lia).
  rewrite Hsplit. eapply appends_trans; [exact Hrun|]. apply IH; [by eapply appends_ring | lia].
Qed.

Section more_ops.
Context (self : t) (hist : list byte) (Hring : ring self hist) (Htotal : total_written self = zlen hist).

Lemma put_bytes_writes l : zlen hist + zlen l < 2 ^ 64 -> writes (put_bytes l self) self hist l.
Proof using Hring Htotal.
  intros Hlt. pose proof (cursor_range _ _ Hring). pose proof (ring_dict _ _ Hring). pose proof (zlen_nonneg l).
  pose proof (Z.mod_le (zlen hist) (dict_size self) (zlen_nonneg hist) ltac:(lia)) as Hearly. rewrite <- (ring_pos _ _ Hring) in Hearly.
  unfold put_bytes. destruct (Z.eqb_spec (zlen l) 0) as [Hnil|].
  { apply zlen_0_nil in Hnil as ->. exists self. by rewrite app_nil_r. }
  rewrite add_u64_ok, bind_Ok by lia.
  apply count_ok; [|done|done|lia].
  destruct (Z.leb_spec (pos self + zlen l) (dict_size self)); [|apply put_chunks_appends; [done|lia]].
  assert ((if zlen l <=? 8 then put_each (buf self) (pos self) l else WindowStorage.copy_from_slice (buf self) (pos self) l)
    = Ok (splice (buf self) (pos self) l)) as ->.
  { unfold WindowStorage.copy_from_slice. rewrite put_each_ok, copy_range_splice by lia. by destruct (_ <=? _). }
  rewrite bind_Ok. by apply (put_run _ _ Hring).
Qed.

Lemma put_literal_batch_writes bytes n : zlen bytes = 8 -> 1 <= n <= 8 -> zlen hist + n < 2 ^ 64 ->
  writes (put_literal_batch bytes n self) self hist (ztake n bytes).
Proof using Hring Htotal.
  intros H8 Hn Hlt. pose proof (cursor_range _ _ Hring). pose proof (ring_dict _ _ Hring).
  unfold put_literal_batch. checked. destruct (Z.eqb_spec n 8) as [->|]; cbn [andb].
  - destruct (Z.leb_spec (pos self + 8) (dict_size self)).
    + rewrite (store_at_cursor _ _ Hring), bind_Ok by (done || lia). rewrite ztake_all by lia. rewrite <- H8 at 1 2.
      apply (count_ok (Ok _)); [apply (put_run _ _ Hring); lia | done | done | lia].
    + rewrite slice_ok, bind_Ok, zdrop_0 by lia. apply put_bytes_writes. rewrite zlen_take; lia.
  - rewrite slice_ok, bind_Ok, zdrop_0, Z.sub_0_r by lia. apply put_bytes_writes. rewrite zlen_take; lia.
Qed.
End more_ops.

(** * Matches *)

Lemma match_bytes_S hist d n : 1 <= d <= zlen hist -> 0 <= n ->
  match_bytes hist d (1 + n) = [byte_at hist (zlen hist - d)] ++ match_bytes (hist ++ [byte_at hist (zlen hist - d)]) d n.
Proof.
  intros Hd Hn. unfold match_bytes. rewrite tab_app by lia. f_equal.
  { rewrite tab_1. by rewrite Z.mod_0_l, Z.add_0_r by lia. }
  apply tab_ext; [lia|]. intros i Hi. rewrite zlen_app. change (zlen [_]) with 1.
  pose proof (Z.mod_pos_bound i d ltac:(lia)). pose proof (Z.div_mod i d ltac:(lia)).
  destruct (Z.eq_dec (i mod d) (d - 1)) as [E|E].
  - assert ((1 + i) mod d = 0) as -> by (symmetry; apply Z.mod_unique with (q := i / d + 1); lia).
    rewrite E, byte_at_app_r by lia. replace (zlen hist + 1 - d + (d - 1) - zlen hist) with 0 by lia. by rewrite Z.add_0_r.
  - assert ((1 + i) mod d = 1 + i mod d) as -> by (symmetry; apply Z.mod_unique with (q := i / d); lia).
    rewrite byte_at_app_l by lia. f_equal. lia.
Qed.

Section match_ops.
Context (self : t) (hist : list byte) (Hring : ring self hist).

(** Where the bytes [d] back lie in the ring. *)
Lemma source_slot d : 1 <= d <= dict_size self -> source_index d self = (zlen hist - d) mod dict_size self.
Proof using Hring.
  intros Hd. rewrite slot_back by lia. unfold source_index. rewrite <- (ring_pos _ _ Hring). destruct (Z.leb_spec d (pos self)); lia.
Qed.

(** The test of the code is the test of the reference. *)
Lemma unwritten_test d : 1 <= d -> (dict_size self <? d) || ((pos self <? d) && negb (first_win_done self)) = (dict_size self <? d) || (zlen hist <? d).
Proof using Hring.
  intros Hd. pose proof (cursor_early _ _ Hring) as He. rewrite (ring_done _ _ Hring). pose proof (zlen_nonneg hist).
  destruct (Z.ltb_spec (dict_size self) d); [done|]. cbn [orb].
  destruct (Z.leb_spec (dict_size self) (zlen hist)); cbn [negb]; [rewrite andb_false_r; lia|].
  rewrite andb_true_r, He by lia. done.
Qed.

Lemma ring_at i : 0 <= i < zlen hist -> zlen hist - dict_size self <= i -> WindowStorage.get (buf self) (i mod dict_size self) = Ok (byte_at hist i).
Proof using Hring.
  intros Hi Hold. pose proof (ring_dict _ _ Hring) as Hd. pose proof (Z.mod_pos_bound i (dict_size self) ltac:(lia)).
  unfold WindowStorage.get, index, get. rewrite <- (ring_bytes _ _ Hring i) by lia.
  rewrite (proj2 (Z.leb_le 0 _)), (proj2 (Z.ltb_lt _ (zlen (buf self)))) by lia. unfold byte_at. cbn [andb].
  rewrite nth_lookup. destruct (lookup_lt_is_Some_2 (buf self) (Z.to_nat (i mod dict_size self))) as (b & Hb); [unfold zlen in Hd; lia|].
  by rewrite Hb.
Qed.

(** The copy away from the edge. *)
Lemma no_wrap_bytes d n : 1 <= d <= dict_size self -> d <= zlen hist -> 0 < n ->
  source_index d self + n <= dict_size self -> pos self + n <= dict_size self -> (pos self < d -> n <= d) ->
  tab n (copied_at (buf self) (source_index d self) (pos self)) = match_bytes hist d n.
Proof using Hring.
  intros Hd Hh Hn Hsrc Hdst Hfar. pose proof (cursor_range _ _ Hring).
  apply tab_ext; [lia|]. intros i Hi. pose proof (Z.mod_pos_bound i d ltac:(lia)).
  assert (Hslot : source_index d self + i mod d = (zlen hist - d + i mod d) mod dict_size self).
  { rewrite source_slot in * by lia. assert (i mod d <= i) by (apply Z.mod_le; lia). rewrite slot_ahead; lia. }
  rewrite <- (ring_bytes _ _ Hring (zlen hist - d + i mod d)) by lia. rewrite <- Hslot. unfold copied_at. f_equal.
  unfold source_index in *. destruct (Z.leb_spec d (pos self)).
  - destruct (Z.ltb_spec (pos self - d) (pos self)); [|lia]. do 2 f_equal. lia.
  - destruct (Z.ltb_spec (dict_size self - (d - pos self)) (pos self)); [lia|]. rewrite Z.mod_small by lia. done.
Qed.

Lemma copy_no_wrap_fast_writes d n : 2 <= d <= dict_size self -> d <= zlen hist -> 0 < n <= MAX_INC_LZ_MATCH ->
  source_index d self < dict_size self - MAX_INC_LZ_MATCH -> pos self < dict_size self - MAX_INC_LZ_MATCH ->
  total_written self = zlen hist -> zlen hist + n < 2 ^ 64 ->
  writes (copy_no_wrap_fast (source_index d self) n self) self hist (match_bytes hist d n).
Proof using Hring.
  intros Hd Hh Hn Hsrc Hdst Htotal Hlt. pose proof (cursor_range _ _ Hring) as Hp. pose proof (ring_dict _ _ Hring) as Hdict.
  assert (Hs0 : 0 <= source_index d self) by (unfold source_index; destruct (Z.leb_spec d (pos self)); lia).
  assert (Hfar : pos self < d -> n <= d) by (unfold source_index in Hsrc; destruct (Z.leb_spec d (pos self)); lia).
  pose proof (no_wrap_bytes d n ltac:(lia) Hh ltac:(lia) ltac:(lia) ltac:(lia) Hfar) as Hbytes.
  assert (Hlen : zlen (match_bytes hist d n) = n) by (apply zlen_tab; lia).
  unfold copy_no_wrap_fast. checked. cbv zeta.
  match goal with |- writes (?m ≫= _) _ _ _ => assert (Hm : m = Ok (partial (buf self) (source_index d self) (pos self) n)) end.
  { destruct (Z.leb_spec 8 (Z.abs (pos self - source_index d self))).
    - destruct (Z.leb_spec n 16); [apply copy_short_exact_ok; lia|].
      destruct (Z.leb_spec n (Z.abs (pos self - source_index d self))); cbn [andb]; [|apply copy_chunked_ok; lia].
      destruct (INLINE_COPY_MAX <? n); [apply copy_nonoverlapping_ok; lia | apply copy_chunked_ok; lia].
    - destruct (Z.ltb_spec (source_index d self) (pos self)); [|apply copy_bytes_ok; lia].
      destruct (Z.leb_spec n 16); [apply copy_bytes_ok; lia|].
      rewrite copy_short_exact_ok, bind_Ok by lia. rewrite Z.abs_eq by lia.
      apply double_loop_ok; try lia. left. exists 1. lia. }
  rewrite Hm, bind_Ok. unfold partial. rewrite Hbytes.
  apply (count_ok (Ok _)); [|lia|done|done].
  pose proof (put_run _ _ Hring (match_bytes hist d n) ltac:(lia)) as Hrun. unfold advance_cursor in Hrun. cbn [pos dict_size set_buf first_win_done] in Hrun.
  rewrite Hlen in Hrun. destruct (Z.eqb_spec (pos self + n) (dict_size self)); [unfold MAX_INC_LZ_MATCH in *; lia|]. exact Hrun.
Qed.
End match_ops.

Lemma copy_wrapping_appends n : forall self hist d, ring self hist -> 1 <= d <= dict_size self -> d <= zlen hist ->
  appends (copy_wrapping n (source_index d self) self) self hist (match_bytes hist d (Z.of_nat n)).
Proof.
  induction n as [|n IH]; intros self hist d Hring Hd Hh; cbn [copy_wrapping]; [by apply appends_nil|].
  pose proof (ring_dict _ _ Hring) as Hdict. pose proof (cursor_range _ _ Hring) as Hp.
  rewrite source_slot with (hist := hist) by done. rewrite (ring_at _ _ Hring), bind_Ok by lia.
  set (b := byte_at hist (zlen hist - d)). unfold WindowStorage.set.
  rewrite store_ok, bind_Ok by (change (zlen [b]) with 1; lia).
  pose proof (put_run _ _ Hring [b] ltac:(change (zlen [b]) with 1; lia)) as Hrun. change (zlen [b]) with 1 in Hrun.
  replace (Z.of_nat (S n)) with (1 + Z.of_nat n) by lia. rewrite match_bytes_S by lia. fold b.
  eapply appends_trans; [exact Hrun|].
  set (self' := advance_cursor 1 (set_buf (splice (buf self) (pos self) [b]) self)) in *.
  pose proof (appends_ring _ _ _ _ Hrun) as Hring'. pose proof (appends_dict _ _ _ _ Hrun) as Hd'.
  assert (Hnext : (if (zlen hist - d) mod dict_size self + 1 =? dict_size self then 0 else (zlen hist - d) mod dict_size self + 1) = source_index d self').
  { rewrite (source_slot _ _ Hring') by lia. rewrite Hd', zlen_app. change (zlen [b]) with 1.
    replace (zlen hist + 1 - d) with (zlen hist - d + 1) by lia. pose proof (Z.mod_pos_bound (zlen hist - d) (dict_size self) ltac:(lia)).
    destruct (Z.eqb_spec ((zlen hist - d) mod dict_size self + 1) (dict_size self)); symmetry; [apply slot_wrap | apply slot_ahead]; lia. }
  rewrite Hnext. apply IH; [done | lia | rewrite zlen_app; change (zlen [b]) with 1; lia].
Qed.

Lemma match_one hist n : 0 <= n -> match_bytes hist 1 n = zreplicate n (byte_at hist (zlen hist - 1)).
Proof.
  intros Hn. rewrite <- tab_const by lia. apply tab_ext; [lia|]. intros i Hi. rewrite Z.mod_1_r. f_equal. lia.
Qed.

(** Every match at every distance but zero. *)
Lemma copy_advance_writes self hist d n : ring self hist -> total_written self = zlen hist -> 1 <= d -> 0 <= n -> zlen hist + n < 2 ^ 64 ->
  writes (copy_advance d n self) self hist (lz_match (dict_size self) hist d n).
Proof.
  intros Hring Htotal Hd Hn Hlt. pose proof (ring_dict _ _ Hring) as Hdict. pose proof (cursor_range _ _ Hring) as Hp.
  pose proof (Z.mod_le (zlen hist) (dict_size self) (zlen_nonneg hist) ltac:(lia)) as Hearly. rewrite <- (ring_pos _ _ Hring) in Hearly.
  pose proof (zlen_lz_match (dict_size self) hist d n Hn) as Hlen.
  unfold copy_advance. rewrite debug_check_ok, bind_Ok by (rewrite Htotal, (ring_done _ _ Hring); apply eqb_reflx).
  destruct (Z.eqb_spec n 0) as [->|].
  { exists self. rewrite (zlen_0_nil _ Hlen), app_nil_r. done. }
  destruct (Z.eqb_spec d 0); [lia|]. rewrite (unwritten_test _ _ Hring) by lia. unfold lz_match in *.
  destruct ((dict_size self <? d) || (zlen hist <? d)) eqn:E.
  { apply count_ok; [|done|done|done]. apply fill_chunks_appends; [done|lia]. }
  apply orb_false_iff in E as [E1%Z.ltb_ge E2%Z.ltb_ge]. cbv zeta.
  destruct (Z.eqb_spec d 1) as [->|].
  - rewrite (source_slot _ _ Hring), (ring_at _ _ Hring), bind_Ok by lia. rewrite add_u64_ok, bind_Ok by lia. rewrite match_one in * by lia.
    apply count_ok; [|done|done|done].
    destruct (Z.leb_spec (pos self + n) (dict_size self)); [|apply fill_chunks_appends; [done|lia]].
    unfold WindowStorage.fill. rewrite copy_range_splice, bind_Ok by lia. rewrite <- Hlen at 1. apply (put_run _ _ Hring). lia.
  - destruct (_ && _) eqn:E.
    + unfold sat_sub_u64 in E. apply copy_no_wrap_fast_writes; try done; unfold source_index in *; lia.
    + apply count_ok; [|done|done|done]. rewrite <- (Z2Nat.id n) at 2 by lia. by apply copy_wrapping_appends.
Qed.
