(* ===== verification/LzOutput.v ===== *)
(** What the window gives its caller: the window refines a log of everything
    decoded, with a flag per byte that says whether the caller may see it, and
    a border up to which the visible bytes have been handed out. *)
From S2P Require Import Prelude RarTypes StateM LzWindow LzCopies LzHistory.
Import Window.

(** * Visible bytes *)

Fixpoint vis (hid : Z -> bool) (hist : list byte) (a : Z) (n : nat) : list byte :=
  match n with
  | O => []
  | S n => (if hid a then [] else [byte_at hist a]) ++ vis hid hist (a + 1) n
  end.
(** The bytes of [a, b) that are not hidden. *)
Definition visible (hid : Z -> bool) (hist : list byte) (a b : Z) : list byte := vis hid hist a (Z.to_nat (b - a)).

Section visible.
Context (hid : Z -> bool) (hist : list byte).

Lemma visible_nil a b : b <= a -> visible hid hist a b = [].
Proof. intros H. unfold visible. by replace (Z.to_nat (b - a)) with 0%nat by lia. Qed.
Lemma visible_S a b : a < b -> visible hid hist a b = (if hid a then [] else [byte_at hist a]) ++ visible hid hist (a + 1) b.
Proof. intros H. unfold visible. by replace (Z.to_nat (b - a)) with (S (Z.to_nat (b - (a + 1)))) by lia. Qed.

(** Induction along a range. *)
Lemma range_ind (P : Z -> Prop) b : (forall a, b <= a -> P a) -> (forall a, a < b -> P (a + 1) -> P a) -> forall a, P a.
Proof.
  intros Hbase Hstep a. destruct (Z.le_gt_cases b a) as [|Hab]; [auto|].
  remember (Z.to_nat (b - a)) as k eqn:Hk. revert a Hab Hk. induction k as [|k IH]; intros a Hab Hk; [lia|].
  apply Hstep; [done|]. destruct (Z.le_gt_cases b (a + 1)); [auto | apply IH; lia].
Qed.

Lemma visible_split a c b : a <= c <= b -> visible hid hist a b = visible hid hist a c ++ visible hid hist c b.
Proof.
  revert a. apply (range_ind (fun a => a <= c <= b -> visible hid hist a b = visible hid hist a c ++ visible hid hist c b) c).
  - intros a Ha H. replace a with c by lia. by rewrite (visible_nil c c) by lia.
  - intros a Ha IH H. rewrite (visible_S a b), (visible_S a c) by lia. rewrite IH by lia. by rewrite app_assoc.
Qed.

Lemma zlen_visible a b : zlen (visible hid hist a b) <= Z.max 0 (b - a).
Proof.
  revert a. apply (range_ind (fun a => zlen (visible hid hist a b) <= Z.max 0 (b - a)) b).
  - intros a Ha. rewrite visible_nil by done. rewrite zlen_nil. lia.
  - intros a Ha IH. rewrite visible_S, zlen_app by done. destruct (hid a); rewrite ?zlen_nil, ?zlen_cons, ?zlen_nil; lia.
Qed.

Lemma visible_all a b : a <= b -> (forall i, a <= i < b -> hid i = false) -> visible hid hist a b = tab (b - a) (fun j => byte_at hist (a + j)).
Proof.
  revert a. apply (range_ind (fun a => a <= b -> (forall i, a <= i < b -> hid i = false) -> visible hid hist a b = tab (b - a) (fun j => byte_at hist (a + j))) b).
  - intros a Ha H _. replace a with b by lia. rewrite visible_nil by lia. by rewrite Z.sub_diag.
  - intros a Ha IH _ H. rewrite visible_S, IH, H by (done || intros; apply H || lia; lia).
    replace (b - a) with (1 + (b - (a + 1))) by lia. rewrite tab_app, tab_1 by lia. rewrite Z.add_0_r. f_equal.
    apply tab_ext; [lia|]. intros i Hi. f_equal. lia.
Qed.

Lemma visible_none a b : (forall i, a <= i < b -> hid i = true) -> visible hid hist a b = [].
Proof.
  revert a. apply (range_ind (fun a => (forall i, a <= i < b -> hid i = true) -> visible hid hist a b = []) b).
  - intros a Ha _. by apply visible_nil.
  - intros a Ha IH H. rewrite visible_S, H by lia. apply IH. intros. apply H. lia.
Qed.
End visible.

Lemma visible_ext hid hid' hist hist' a b : (forall i, a <= i < b -> hid i = hid' i /\ byte_at hist i = byte_at hist' i) ->
  visible hid hist a b = visible hid' hist' a b.
Proof.
  revert a. apply (range_ind (fun a => (forall i, a <= i < b -> hid i = hid' i /\ byte_at hist i = byte_at hist' i) -> visible hid hist a b = visible hid' hist' a b) b).
  - intros a Ha _. by rewrite !visible_nil.
  - intros a Ha IH H. rewrite (visible_S hid hist a), (visible_S hid' hist' a) by done. destruct (H a ltac:(lia)) as [-> ->]. f_equal. apply IH. intros. apply H. lia.
Qed.

(** * Lists of hidden ranges *)

Definition covered (ranges : list (Z * Z)) (i : Z) : bool := existsb (fun '(s, n) => (s <=? i) && (i <? s + n)) ranges.
Fixpoint sorted_ranges (lo hi : Z) (ranges : list (Z * Z)) : Prop :=
  match ranges with
  | [] => lo <= hi
  | (s, n) :: ranges => lo <= s /\ 0 < n /\ sorted_ranges (s + n) hi ranges
  end.

Lemma sorted_bounds lo hi ranges : sorted_ranges lo hi ranges -> lo <= hi.
Proof. revert lo. induction ranges as [|[s n] rs IH]; intros lo; cbn; [done|]. intros (H1 & H2 & H3%IH). lia. Qed.
Lemma sorted_weaken lo hi hi' ranges : sorted_ranges lo hi ranges -> hi <= hi' -> sorted_ranges lo hi' ranges.
Proof. revert lo. induction ranges as [|[s n] rs IH]; intros lo; cbn; [lia|]. intros (H1 & H2 & H3) H. eauto. Qed.
Lemma sorted_lower lo lo' hi ranges : sorted_ranges lo hi ranges -> lo' <= lo -> sorted_ranges lo' hi ranges.
Proof. destruct ranges as [|[s n] rs]; cbn; [lia|]. intros (H1 & H2 & H3) H. split; [lia|done]. Qed.
Lemma sorted_snoc lo hi ranges s n : sorted_ranges lo hi ranges -> hi <= s -> 0 < n -> sorted_ranges lo (s + n) (ranges ++ [(s, n)]).
Proof.
  revert lo. induction ranges as [|[s' n'] rs IH]; intros lo; cbn; [lia|]. intros (H1 & H2 & H3) Hs Hn. auto.
Qed.
Lemma sorted_grow lo hi ranges s n m : sorted_ranges lo hi (ranges ++ [(s, n)]) -> 0 < m -> sorted_ranges lo (s + n + m) (ranges ++ [(s, n + m)]).
Proof.
  revert lo. induction ranges as [|[s' n'] rs IH]; intros lo; cbn; [lia|]. intros (H1 & H2 & H3) Hm. auto.
Qed.
Lemma sorted_last lo hi ranges s n : sorted_ranges lo hi (ranges ++ [(s, n)]) -> s + n <= hi /\ 0 < n /\ lo <= s.
Proof.
  revert lo. induction ranges as [|[s' n'] rs IH]; intros lo; cbn; [lia|]. intros (H1 & H2 & H3%IH). lia.
Qed.

Lemma covered_app r1 r2 i : covered (r1 ++ r2) i = covered r1 i || covered r2 i.
Proof. apply existsb_app. Qed.
Lemma covered_cons s n ranges i : covered ((s, n) :: ranges) i = ((s <=? i) && (i <? s + n)) || covered ranges i.
Proof. done. Qed.
Lemma covered_later s n ranges i : s + n <= i -> covered ((s, n) :: ranges) i = covered ranges i.
Proof. intros H. rewrite covered_cons, (proj2 (Z.ltb_ge i (s + n))) by lia. by rewrite andb_false_r. Qed.
Lemma covered_here s n ranges i : s <= i < s + n -> covered ((s, n) :: ranges) i = true.
Proof. intros H. rewrite covered_cons, (proj2 (Z.leb_le s i)), (proj2 (Z.ltb_lt i (s + n))) by lia. done. Qed.
Lemma covered_low lo hi ranges i : sorted_ranges lo hi ranges -> i < lo -> covered ranges i = false.
Proof.
  revert lo. induction ranges as [|[s n] rs IH]; intros lo; [done|]. intros (H1 & H2 & H3) Hi. rewrite covered_cons.
  rewrite (IH (s + n)) by (done || lia). lia.
Qed.
Lemma covered_high lo hi ranges i : sorted_ranges lo hi ranges -> hi <= i -> covered ranges i = false.
Proof.
  revert lo. induction ranges as [|[s n] rs IH]; intros lo; [done|]. intros (H1 & H2 & H3) Hi. rewrite covered_cons.
  pose proof (sorted_bounds _ _ _ H3). rewrite (IH (s + n)) by done. lia.
Qed.

(** Sums of overlaps count the covered positions. *)
Definition overlaps (a b : Z) (ranges : list (Z * Z)) : list Z := (fun '(s, n) => sat_sub_u64 (Z.min (s + n) b) (Z.max s a)) <$> ranges.
Definition sum (l : list Z) : Z := foldr Z.add 0 l.

Lemma sum_overlaps_split a c b ranges : a <= c <= b -> Forall (fun '(_, n) => 0 < n) ranges ->
  sum (overlaps a b ranges) = sum (overlaps a c ranges) + sum (overlaps c b ranges).
Proof.
  intros H. induction 1 as [|[s n] rs Hn _ IH]; [done|]. cbn. unfold sum, overlaps in IH. rewrite IH. unfold sat_sub_u64. lia.
Qed.
Lemma sorted_positive lo hi ranges : sorted_ranges lo hi ranges -> Forall (fun '(_, n) => 0 < n) ranges.
Proof. revert lo. induction ranges as [|[s n] rs IH]; intros lo; cbn; [done|]. intros (H1 & H2 & H3). constructor; eauto. Qed.
Lemma sum_overlaps_one lo hi ranges i : sorted_ranges lo hi ranges -> sum (overlaps i (i + 1) ranges) = Z.b2z (covered ranges i).
Proof.
  revert lo. induction ranges as [|[s n] rs IH]; intros lo; [done|]. intros (H1 & H2 & H3). specialize (IH _ H3).
  rewrite covered_cons. unfold sum, overlaps in *. cbn. rewrite IH. unfold sat_sub_u64.
  destruct (Z.leb_spec s i), (Z.ltb_spec i (s + n)); cbn [andb orb]; [rewrite (covered_low _ _ _ _ H3) by done; cbn|..]; lia.
Qed.
Lemma overlap_counts lo hi ranges hist b : sorted_ranges lo hi ranges -> forall a, a <= b ->
  sum (overlaps a b ranges) = (b - a) - zlen (visible (covered ranges) hist a b).
Proof.
  intros Hs. apply (range_ind (fun a => a <= b -> sum (overlaps a b ranges) = (b - a) - zlen (visible (covered ranges) hist a b)) b).
  - intros a Ha H. replace a with b by lia. rewrite visible_nil by lia. rewrite zlen_nil.
    clear -Hs. apply sorted_positive in Hs. induction Hs as [|[s n] rs Hn _ IH]; [cbn; lia|]. cbn. unfold sum, overlaps in IH. rewrite IH. unfold sat_sub_u64. lia.
  - intros a Ha IH H. rewrite (sum_overlaps_split a (a + 1)), IH by (lia || by eapply sorted_positive).
    rewrite (sum_overlaps_one _ _ _ _ Hs), (visible_S _ _ a), zlen_app by done. pose proof (zlen_nonneg (visible (covered ranges) hist (a + 1) b)).
    destruct (covered ranges a); cbn [Z.b2z]; [change (zlen []) with 0 | change (zlen [byte_at hist a]) with 1]; lia.
Qed.

Lemma sum_u64_ok {E} l : forall acc, 0 <= acc -> Forall (fun x => 0 <= x) l -> acc + sum l < 2 ^ 64 -> sum_u64 (E := E) acc l = Ok (acc + sum l).
Proof.
  induction l as [|x l IH]; intros acc Hacc Hl Hlt; cbn in *; [by rewrite Z.add_0_r|].
  inversion Hl as [|? ? Hx Hl']; subst.
  assert (0 <= sum l) by (clear -Hl'; induction Hl'; cbn; unfold sum in *; lia). unfold sum in *.
  unfold add_u64. rewrite (proj2 (Z.ltb_lt _ _)) by lia. rewrite bind_Ok, IH by (done || lia). f_equal. lia.
Qed.

(** * Reading the ring back *)

(** What is relied on of a writer that does not fail. *)
Class SinkLaws (W : Type) `{Sink W} := {
  written : W -> list byte;
  write_all_law : forall data w, exists w', write_all data w = (Ok tt, w') /\ written w' = written w ++ data
}.

(** The bytes of the output from [a] on. *)
Local Abbreviation span hist a n := (tab n (fun j => byte_at hist (a + j))).

Section reading_back.
Context (self : t) (hist : list byte) (Hring : ring self hist) (Htotal : total_written self = zlen hist) (Hsize : zlen hist < 2 ^ 64).
Local Abbreviation dict := (dict_size self).

Lemma ring_piece a n : 0 <= a -> 0 <= n -> a + n <= zlen hist -> zlen hist - a <= dict -> a mod dict + n <= dict ->
  span (buf self) (a mod dict) n = span hist a n.
Proof using Hring.
  intros Ha Hn Hin Hold Hfit. pose proof (ring_dict _ _ Hring). apply tab_ext; [lia|]. intros i Hi.
  rewrite <- (ring_bytes _ _ Hring) by lia. by rewrite slot_ahead by lia.
Qed.

Lemma ring_pieces_ok {S A} (emit : Z -> Z -> A -> stateM S rar_error A) (I : list byte -> A -> S -> Prop) fuel :
  (forall idx contig out x s, 0 <= idx -> 0 < contig -> idx + contig <= dict -> I out x s ->
     exists x' s', emit idx contig x s = (Ok x', s') /\ I (out ++ span (buf self) idx contig) x' s') ->
  forall n a out x s, 0 <= a -> 0 <= n < Z.of_nat fuel -> a + n <= zlen hist -> zlen hist - a <= dict -> I out x s ->
  exists x' s', ring_pieces fuel emit dict (a mod dict) n x s = (Ok x', s') /\ I (out ++ span hist a n) x' s'.
Proof using Hring.
  intros Hemit. pose proof (ring_dict _ _ Hring).
  induction fuel as [|fuel IH]; intros n a out x s Ha Hn Hin Hold HI; [lia|]. cbn [ring_pieces].
  destruct (Z.ltb_spec 0 n); [|exists x, s; replace n with 0 by lia; by rewrite app_nil_r].
  pose proof (Z.mod_pos_bound a dict ltac:(lia)). set (contig := Z.min (dict - a mod dict) n).
  destruct (Hemit (a mod dict) contig out x s) as (x1 & s1 & Hrun & HI1); [lia..|done|].
  rewrite (bind_run _ _ _ _ _ Hrun). rewrite ring_piece in HI1 by lia.
  rewrite Z.add_mod_idemp_l by lia.
  destruct (IH (n - contig) (a + contig) _ x1 s1 ltac:(lia) ltac:(lia) ltac:(lia) ltac:(lia) HI1) as (x2 & s2 & Hrun2 & HI2).
  exists x2, s2. split; [exact Hrun2|].
  assert (span hist a n = span hist a contig ++ span hist (a + contig) (n - contig)) as ->; [|by rewrite app_assoc].
  assert (0 <= contig <= n) by lia. clearbody contig. replace n with (contig + (n - contig)) at 1 by lia. rewrite tab_app by lia. f_equal.
  apply tab_ext; [lia|]. intros i Hi. f_equal. lia.
Qed.

Lemma start_slot a : 0 <= a < zlen hist -> zlen hist - a <= dict -> source_index (zlen hist - a) self = a mod dict.
Proof using Hring. intros Ha Hold. rewrite (source_slot _ _ Hring) by lia. f_equal. lia. Qed.

Lemma in_u64 a n : 0 <= a -> 0 <= n -> a + n <= zlen hist -> checked_add_u64 a n = Some (a + n).
Proof using Hsize. intros. unfold checked_add_u64. destruct (Z.ltb_spec (a + n) (2 ^ 64)) as [|]; [done|lia]. Qed.

(** A range of the output that is still in the dictionary is read back; any other is refused. *)
Lemma try_copy_output_ok a n : 0 <= a -> 0 <= n ->
  try_copy_output a n self = if (a + n <=? zlen hist) && (zlen hist - a <=? dict) then Ok (span hist a n) else Err CorruptArchive.
Proof using Hring Htotal Hsize.
  intros Ha Hn. unfold try_copy_output. rewrite Htotal. unfold checked_add_u64.
  destruct (Z.leb_spec (a + n) (zlen hist)); cbn [andb].
  - destruct (Z.ltb_spec (a + n) (2 ^ 64)); [|lia].
    rewrite (proj2 (Z.ltb_ge (zlen hist) a)), (proj2 (Z.ltb_ge (zlen hist) (a + n))) by lia. cbn [orb].
    destruct (Z.ltb_spec dict (zlen hist - a)), (Z.leb_spec (zlen hist - a) dict); try lia; [done|].
    destruct (Z.eq_dec n 0) as [->|]; [done|]. rewrite start_slot by lia.
    destruct (ring_pieces_ok (fun idx contig out => lift (WindowStorage.extend_from_range (buf self) idx contig out))
      (fun out x (_ : unit) => x = out) (S (Z.to_nat n))) with (n := n) (a := a) (out := @nil byte) (x := @nil byte) (s := tt) as (x' & s' & -> & ->); try done; try lia.
    intros idx contig out x s Hidx Hc Hfit ->. pose proof (ring_dict _ _ Hring). eexists _, s. split; [|done].
    unfold lift, WindowStorage.extend_from_range. rewrite slice_tab, bind_Ok by lia. by replace (idx + contig - idx) with contig by lia.
  - destruct (Z.ltb_spec (a + n) (2 ^ 64)); [|done]. rewrite (proj2 (Z.ltb_lt (zlen hist) (a + n))) by lia. by rewrite orb_true_r.
Qed.

Context {W : Type} `{SinkLaws W}.

Lemma write_range_ok a n w : 0 <= a -> 0 <= n -> a + n <= zlen hist -> zlen hist - a <= dict ->
  exists w', write_range_to_writer a n self w = (Ok tt, w') /\ written w' = written w ++ span hist a n.
Proof using Hring Htotal Hsize.
  intros Ha Hn Hin Hold. unfold write_range_to_writer. destruct (Z.eqb_spec n 0) as [->|].
  { exists w. split; [done|]. by rewrite app_nil_r. }
  rewrite in_u64, Htotal by lia. rewrite (proj2 (Z.ltb_ge (zlen hist) (a + n))) by lia.
  unfold checked_sub_u64. rewrite (proj2 (Z.leb_le a (zlen hist))) by lia.
  rewrite (proj2 (Z.ltb_ge dict (zlen hist - a))), start_slot by lia.
  destruct (ring_pieces_ok (fun idx contig _ => bytes ← lift (slice (buf self) idx (idx + contig)); write_all bytes)
    (fun out (_ : unit) s => written s = written w ++ out) (S (Z.to_nat n))) with (n := n) (a := a) (out := @nil byte) (x := tt) (s := w) as ([] & s' & -> & Hw); try done; try lia.
  - intros idx contig out [] s Hidx Hc Hfit HI. pose proof (ring_dict _ _ Hring).
    rewrite slice_tab by lia. replace (idx + contig - idx) with contig by lia.
    destruct (write_all_law (span (buf self) idx contig) s) as (s' & Hrun & Hw). exists tt, s'. split; [exact Hrun|].
    by rewrite Hw, HI, app_assoc.
  - by rewrite app_nil_r.
  - by exists s'.
Qed.

Lemma write_range_old a n w : 0 <= a -> 0 < n -> a + n <= zlen hist -> dict < zlen hist - a ->
  write_range_to_writer a n self w = (Err CorruptArchive, w).
Proof using Htotal Hsize.
  intros Ha Hn Hin Hold. unfold write_range_to_writer. destruct (Z.eqb_spec n 0); [lia|].
  rewrite in_u64, Htotal by lia. rewrite (proj2 (Z.ltb_ge (zlen hist) (a + n))) by lia.
  unfold checked_sub_u64. rewrite (proj2 (Z.leb_le a (zlen hist))) by lia. by rewrite (proj2 (Z.ltb_lt dict (zlen hist - a))) by lia.
Qed.
End reading_back.

Lemma visible_empty hid hist a b : visible hid hist a b = [] -> forall i, a <= i < b -> hid i = true.
Proof.
  revert a. apply (range_ind (fun a => visible hid hist a b = [] -> forall i, a <= i < b -> hid i = true) b).
  - intros a Ha _ i Hi. lia.
  - intros a Ha IH. rewrite visible_S by done. destruct (hid a) eqn:E; [|done]. intros H i Hi.
    destruct (Z.eq_dec i a) as [->|]; [done | apply IH; [done|lia]].
Qed.
Lemma visible_some hid hist a b : visible hid hist a b <> [] -> exists i, a <= i < b /\ hid i = false.
Proof.
  revert a. apply (range_ind (fun a => visible hid hist a b <> [] -> exists i, a <= i < b /\ hid i = false) b).
  - intros a Ha H. by rewrite visible_nil in H.
  - intros a Ha IH H. destruct (hid a) eqn:E; [|exists a; split; [lia|done]].
    rewrite visible_S, E in H by done. destruct (IH H) as (i & Hi & Hhid). exists i. split; [lia|done].
Qed.

(** * Writing the visible bytes *)

Section spans.
Context (self : t) (hist : list byte) (Hring : ring self hist) (Htotal : total_written self = zlen hist) (Hsize : zlen hist < 2 ^ 64).
Context {W : Type} `{SinkLaws W}.
Local Abbreviation dict := (dict_size self).

Lemma write_gaps_ok stop : stop <= zlen hist -> forall ranges lo, sorted_ranges lo (zlen hist) ranges -> forall c wr w,
  0 <= c <= stop -> (forall i, c <= i < stop -> covered ranges i = false -> zlen hist - i <= dict) ->
  exists c' w', write_gaps ranges stop c wr self w = (Ok (c', wr + zlen (visible (covered ranges) hist c c')), w') /\
    c <= c' <= stop /\ written w' = written w ++ visible (covered ranges) hist c c' /\ (forall i, c' <= i < stop -> covered ranges i = false).
Proof using Hring Htotal Hsize.
  intros Hstop. induction ranges as [|[s n] rs IH]; intros lo Hs c wr w Hc Hnew; cbn [write_gaps].
  { exists c, w. rewrite visible_nil, app_nil_r, zlen_nil, Z.add_0_r by lia. split; [done|]. split; [lia|done]. }
  destruct Hs as (Hlo & Hn & Hs). pose proof (sorted_bounds _ _ _ Hs) as Hend.
  replace (sat_add_u64 s n) with (s + n) by (unfold sat_add_u64; lia). cbv zeta.
  assert (Hrs : forall i, s + n <= i -> covered ((s, n) :: rs) i = covered rs i) by (intros i Hi; by apply covered_later).
  destruct (Z.leb_spec (s + n) c).
  { destruct (IH _ Hs c wr w Hc) as (c' & w' & Hrun & Hc' & Hw & Hrest); [intros i Hi; rewrite <- Hrs by lia; auto|].
    exists c', w'. rewrite (visible_ext _ (covered rs) _ hist) by (intros; split; [apply Hrs; lia|done]).
    split; [done|]. split; [done|]. split; [done|]. intros i Hi. rewrite Hrs by lia. auto. }
  destruct (Z.leb_spec stop s).
  { exists c, w. rewrite visible_nil, app_nil_r, zlen_nil, Z.add_0_r by lia. split; [done|]. split; [lia|]. split; [done|].
    intros i Hi. apply (covered_low s (zlen hist)); [|lia]. cbn. split; [lia|done]. }
  assert (Hgap : exists w1, (if c <? s then _ ← write_range_to_writer c (Z.min s stop - c) self; mret (wr + (Z.min s stop - c)) else mret wr) w
      = (Ok (wr + zlen (visible (covered ((s, n) :: rs)) hist c (Z.max c s))), w1) /\ written w1 = written w ++ visible (covered ((s, n) :: rs)) hist c (Z.max c s)).
  { destruct (Z.ltb_spec c s); [|exists w; rewrite visible_nil, app_nil_r, zlen_nil, Z.add_0_r by lia; done].
    assert (Hbefore : forall i, c <= i < s -> covered ((s, n) :: rs) i = false).
    { intros i Hi. apply (covered_low s (zlen hist)); [|lia]. cbn. split; [lia|done]. }
    rewrite Z.min_l, Z.max_r, visible_all by (done || lia).
    destruct (write_range_ok self hist Hring Htotal Hsize c (s - c) w) as (w1 & Hrun & Hw); [lia..| |].
    { apply Hnew; [lia|]. apply Hbefore. lia. }
    exists w1. rewrite (bind_run _ _ _ _ _ Hrun), zlen_tab by lia. done. }
  destruct Hgap as (w1 & Hgap & Hw1). rewrite (bind_run _ _ _ _ _ Hgap).
  set (c1 := Z.max c (Z.min (s + n) stop)).
  destruct (IH _ Hs c1 (wr + zlen (visible (covered ((s, n) :: rs)) hist c (Z.max c s))) w1) as (c' & w' & Hrun & Hc' & Hw & Hrest); [lia| |].
  { intros i Hi. destruct (Z.lt_ge_cases i (s + n)); [lia|]. rewrite <- Hrs by lia. apply Hnew. lia. }
  exists c', w'. rewrite Hrun.
  assert (Hvis : visible (covered ((s, n) :: rs)) hist c c' = visible (covered ((s, n) :: rs)) hist c (Z.max c s) ++ visible (covered rs) hist c1 c').
  { rewrite (visible_split _ _ c (Z.max c s) c') by lia. f_equal. rewrite (visible_split _ _ (Z.max c s) c1 c') by lia.
    rewrite visible_none by (intros i Hi; apply covered_here; lia). cbn [app].
    apply visible_ext. intros i Hi. split; [|done]. apply Hrs. lia. }
  rewrite Hvis, zlen_app, Z.add_assoc, app_assoc, <- Hw1. split; [done|]. split; [lia|]. split; [done|].
  intros i Hi. destruct (Z.lt_ge_cases i (s + n)); [lia|]. rewrite Hrs by lia. apply Hrest. lia.
Qed.

Lemma write_gaps_old stop : stop <= zlen hist -> forall ranges lo, sorted_ranges lo (zlen hist) ranges -> forall c wr w,
  0 <= c -> (exists i, c <= i < stop /\ covered ranges i = false /\ dict < zlen hist - i) ->
  write_gaps ranges stop c wr self w = (Err CorruptArchive, w) \/
  exists c', write_gaps ranges stop c wr self w = (Ok (c', wr), w) /\ 0 <= c' < stop /\ dict < zlen hist - c'.
Proof using Htotal Hsize.
  intros Hstop. induction ranges as [|[s n] rs IH]; intros lo Hs c wr w Hc (i & Hi & Hun & Hold); cbn [write_gaps].
  { right. exists c. split; [done|]. lia. }
  destruct Hs as (Hlo & Hn & Hs). pose proof (sorted_bounds _ _ _ Hs) as Hend.
  replace (sat_add_u64 s n) with (s + n) by (unfold sat_add_u64; lia). cbv zeta. 
  assert (Hi' : s + n <= i \/ i < s) by (destruct (Z.le_gt_cases (s + n) i), (Z.lt_ge_cases i s); try lia; rewrite covered_here in Hun by lia; done).
  destruct (Z.leb_spec (s + n) c); [rewrite covered_later in Hun by lia; eapply IH; [done|done|]; exists i; split; [lia|done]|].
  destruct (Z.leb_spec stop s); [right; exists c; split; [done|lia]|].
  destruct (Z.ltb_spec c s).
  { left. pose proof (write_range_old self hist Htotal Hsize c (Z.min s stop - c) w ltac:(lia) ltac:(lia) ltac:(lia) ltac:(lia)) as Hold'.
    by rewrite (bind_run_err _ _ _ _ _ (bind_run_err _ _ _ _ _ Hold')). }
  rewrite bind_mret. rewrite covered_later in Hun by lia. eapply IH; [done|lia|]. exists i. split; [lia|done].
Qed.

Lemma write_visible_ok a b w : 0 <= a <= b -> b <= zlen hist -> sorted_ranges 0 (zlen hist) (invisible_ranges self) ->
  visible (covered (invisible_ranges self)) hist a (Z.min b (zlen hist - dict)) = [] ->
  exists w', write_visible_span a b self w = (Ok (zlen (visible (covered (invisible_ranges self)) hist a b)), w') /\
    written w' = written w ++ visible (covered (invisible_ranges self)) hist a b.
Proof using Hring Htotal Hsize.
  intros Ha Hb Hs Hnew. pose proof (visible_empty _ _ _ _ Hnew) as Hcov. unfold write_visible_span.
  destruct (write_gaps_ok b Hb _ _ Hs a 0 w Ha) as (c & w1 & Hrun & Hc & Hw & Hrest).
  { intros i Hi Hun. destruct (Z.le_gt_cases (zlen hist - i) dict); [done|]. rewrite Hcov in Hun by lia. done. }
  rewrite (bind_run _ _ _ _ _ Hrun). set (hid := covered (invisible_ranges self)) in *.
  pose proof (visible_split hid hist a c b ltac:(lia)) as Hsplit. rewrite Hsplit, zlen_app.
  rewrite Z.add_0_l. destruct (Z.ltb_spec c b).
  2: { exists w1. rewrite (visible_nil hid hist c b) by lia. rewrite app_nil_r. change (zlen []) with 0. rewrite Z.add_0_r. done. }
  rewrite (visible_all hid hist c b) by (done || lia).
  destruct (write_range_ok self hist Hring Htotal Hsize c (b - c) w1) as (w' & Hrun' & Hw'); [lia..| |].
  { destruct (Z.le_gt_cases (zlen hist - c) dict); [done|]. specialize (Hrest c ltac:(lia)). rewrite Hcov in Hrest by lia. done. }
  exists w'. rewrite (bind_run _ _ _ _ _ Hrun'), zlen_tab, Hw', Hw, app_assoc by lia. done.
Qed.

Lemma write_visible_old a b w : 0 <= a -> b <= zlen hist -> sorted_ranges 0 (zlen hist) (invisible_ranges self) ->
  visible (covered (invisible_ranges self)) hist a (Z.min b (zlen hist - dict)) <> [] ->
  write_visible_span a b self w = (Err CorruptArchive, w).
Proof using Htotal Hsize.
  intros Ha Hb Hs Hold. destruct (visible_some _ _ _ _ Hold) as (i & Hi & Hun). unfold write_visible_span.
  destruct (write_gaps_old b Hb _ _ Hs a 0 w Ha) as [Hrun | (c & Hrun & Hc & Hc')]; [exists i; split; [lia|]; split; [done|lia] | |].
  - by rewrite (bind_run_err _ _ _ _ _ Hrun).
  - rewrite (bind_run _ _ _ _ _ Hrun). rewrite (proj2 (Z.ltb_lt c b)) by lia.
    by rewrite (bind_run_err _ _ _ _ _ (write_range_old self hist Htotal Hsize c (b - c) w ltac:(lia) ltac:(lia) ltac:(lia) Hc')).
Qed.
End spans.
