(* ===== verification/LzWindowProps.v ===== *)
(** The window refines its log: any program of literals, matches, flushes and
    read-backs gives what the same program gives on the list of everything
    decoded, from a fresh window and from a recycled one. *)
From S2P Require Import Prelude RarTypes StateM LzWindow LzCopies LzHistory LzOutput.
Import Window.

(** * The abstract window *)

Record log := mk_log { bytes : list byte; shown : list bool; flushed : Z }.
Definition hidden (l : log) (i : Z) : bool := negb (nth (Z.to_nat i) (shown l) true).
Definition log_visible (l : log) (a b : Z) : list byte := visible (hidden l) (bytes l) a b.

Definition log_append (b : list byte) (f : list bool) (l : log) : log := mk_log (bytes l ++ b) (shown l ++ f) (flushed l).
Definition log_put (b : list byte) (l : log) : log := log_append b (zreplicate (zlen b) true) l.
(** A match of which the caller sees the first [visible_len] bytes. *)
Definition log_match (b : list byte) (visible_len : Z) (l : log) : log :=
  log_append b (zreplicate (Z.min visible_len (zlen b)) true ++ zreplicate (zlen b - Z.min visible_len (zlen b)) false) l.
(** Hands out the visible bytes up to [target], unless one of them has left the dictionary. *)
Definition log_flush (dict target : Z) (l : log) : result (list byte * log) :=
  if target <=? flushed l then Ok ([], l)
  else
    match log_visible l (flushed l) (Z.min target (zlen (bytes l) - dict)) with
    | [] => Ok (log_visible l (flushed l) target, mk_log (bytes l) (shown l) target)
    | _ => Err CorruptArchive
    end.
Definition log_range (dict start n : Z) (l : log) : result (list byte) :=
  if (start + n <=? zlen (bytes l)) && (zlen (bytes l) - start <=? dict) then Ok (tab n (fun j => byte_at (bytes l) (start + j)))
  else Err CorruptArchive.

(** * Programs *)

Inductive window_op :=
| PutByte (b : byte) | PutBatch (b : list byte) (n : Z) | PutBytes (b : list byte)
| Copy (distance length visible_len : Z) | CopyRar15 (distance length visible_len : Z)
| Flush | FlushUntil (up_to : Z) | MarkFlushed (up_to : Z) | ReadBack (start n : Z).

(** What an operation adds to the output. *)
Definition op_bytes (dict : Z) (op : window_op) (l : log) : Z :=
  match op with
  | PutByte _ => 1 | PutBatch _ n => n | PutBytes b => zlen b
  | Copy _ n _ | CopyRar15 _ n _ => n
  | _ => 0
  end.
(** What callers guarantee: matches have a distance (only RAR 1.5 passes zero),
    borders move forward. *)
Definition op_fits (op : window_op) (l : log) : Prop :=
  match op with
  | PutByte _ | Flush | FlushUntil _ => True
  | PutBatch b n => zlen b = 8 /\ 1 <= n <= 8
  | PutBytes _ => True
  | Copy d n v => 1 <= d /\ 0 <= n /\ 0 <= v
  | CopyRar15 d n v => 0 <= d /\ 0 <= n /\ 0 <= v
  | MarkFlushed up_to => flushed l <= up_to
  | ReadBack a n => 0 <= a /\ 0 <= n
  end.

(** The number an operation returns, the bytes it returns, and the log after it;
    the bytes it hands to the writer. *)
Definition log_op (dict : Z) (op : window_op) (l : log) : result (Z * list byte * log) * list byte :=
  match op with
  | PutByte b => (Ok (0, [], log_put [b] l), [])
  | PutBatch b n => (Ok (0, [], log_put (ztake n b) l), [])
  | PutBytes b => (Ok (0, [], log_put b l), [])
  | Copy d n v => (Ok (0, [], log_match (lz_match dict (bytes l) d n) v l), [])
  | CopyRar15 d n v => (Ok (0, [], log_match (if d =? 0 then zreplicate n x00 else lz_match dict (bytes l) d n) v l), [])
  | Flush =>
    match log_flush dict (zlen (bytes l)) l with
    | Ok (out, l') => (Ok (zlen out, [], l'), out)
    | Err e => (Err e, [])
    | Panic => (Panic, [])
    end
  | FlushUntil up_to =>
    match log_flush dict (Z.min up_to (zlen (bytes l))) l with
    | Ok (out, l') => (Ok (zlen out, [], l'), out)
    | Err e => (Err e, [])
    | Panic => (Panic, [])
    end
  | MarkFlushed up_to => (Ok (0, [], mk_log (bytes l) (shown l) (Z.min up_to (zlen (bytes l)))), [])
  | ReadBack a n =>
    match log_range dict a n l with
    | Ok out => (Ok (0, out, l), [])
    | Err e => (Err e, [])
    | Panic => (Panic, [])
    end
  end.

Section programs.
Context {W : Type} `{Sink W}.

Definition run_window_op (op : window_op) (self : t) : stateM W rar_error (Z * list byte * t) :=
  match op with
  | PutByte b => self ← lift (put_byte b self); mret (0, [], self)
  | PutBatch b n => self ← lift (put_literal_batch b n self); mret (0, [], self)
  | PutBytes b => self ← lift (put_bytes b self); mret (0, [], self)
  | Copy d n v => self ← lift (copy_with_visible_len d n v self); mret (0, [], self)
  | CopyRar15 d n v => self ← lift (copy_rar15_with_visible_len d n v self); mret (0, [], self)
  | Flush => '(n, self) ← flush_to_writer self; mret (n, [], self)
  | FlushUntil up_to => '(n, self) ← flush_visible_until up_to self; mret (n, [], self)
  | MarkFlushed up_to => self ← lift (mark_flushed up_to self); mret (0, [], self)
  | ReadBack a n => out ← lift (try_copy_output a n self); mret (0, out, self)
  end.

Fixpoint run_window_ops (ops : list window_op) (self : t) : stateM W rar_error (list (Z * list byte)) :=
  match ops with
  | [] => mret []
  | op :: ops => '(v, self) ← run_window_op op self; rest ← run_window_ops ops self; mret (v :: rest)
  end.
End programs.

Fixpoint log_ops (dict : Z) (ops : list window_op) (l : log) : result (list (Z * list byte)) * list byte :=
  match ops with
  | [] => (Ok [], [])
  | op :: ops =>
    match log_op dict op l with
    | (Ok (v, l'), out) =>
      let '(r, out') := log_ops dict ops l' in (rest ← r; mret (v :: rest), out ++ out')
    | (Err e, out) => (Err e, out)
    | (Panic, out) => (Panic, out)
    end
  end.
(** The caller's guarantees along the whole program, and that no counter of bytes overflows. *)
Fixpoint ops_fit (dict : Z) (ops : list window_op) (l : log) : Prop :=
  match ops with
  | [] => True
  | op :: ops => op_fits op l /\ zlen (bytes l) + op_bytes dict op l < 2 ^ 64 /\
      match log_op dict op l with (Ok (_, l'), _) => ops_fit dict ops l' | _ => True end
  end.

(** * The window stands for a log *)

Record stands_for (self : t) (dict : Z) (l : log) : Prop := mk_stands_for {
  sf_ring : ring self (bytes l);
  sf_dict : dict_size self = dict;
  sf_total : total_written self = zlen (bytes l);
  sf_shown : zlen (shown l) = zlen (bytes l);
  sf_flushed : total_flushed self = flushed l /\ 0 <= flushed l <= zlen (bytes l);
  sf_sorted : sorted_ranges 0 (zlen (bytes l)) (invisible_ranges self);
  sf_hidden : forall i, flushed l <= i < zlen (bytes l) -> covered (invisible_ranges self) i = hidden l i;
  sf_pending : invisible_pending self = zlen (bytes l) - flushed l - zlen (log_visible l (flushed l) (zlen (bytes l)))
}.

Lemma sf_visible self dict l a b : stands_for self dict l -> flushed l <= a -> b <= zlen (bytes l) ->
  visible (covered (invisible_ranges self)) (bytes l) a b = log_visible l a b.
Proof. intros H Ha Hb. apply visible_ext. intros i Hi. split; [|done]. apply (sf_hidden _ _ _ H). lia. Qed.

Lemma hidden_app l b f i : zlen (shown l) = zlen (bytes l) -> 0 <= i ->
  hidden (log_append b f l) i = if i <? zlen (bytes l) then hidden l i else negb (nth (Z.to_nat (i - zlen (bytes l))) f true).
Proof.
  intros Hl Hi. unfold hidden. cbn [log_append shown]. unfold zlen in *. destruct (Z.ltb_spec i (Z.of_nat (length (bytes l)))).
  - rewrite app_nth1 by lia. done.
  - rewrite app_nth2 by lia. do 2 f_equal. lia.
Qed.
Lemma nth_shown v n i : 0 <= v <= n -> 0 <= i < n -> nth (Z.to_nat i) (zreplicate v true ++ zreplicate (n - v) false) true = (i <? v).
Proof.
  intros Hv Hi. unfold zreplicate. destruct (Z.ltb_spec i v).
  - rewrite app_nth1 by (rewrite length_replicate; lia). rewrite nth_lookup, lookup_replicate_2 by lia. done.
  - rewrite app_nth2, length_replicate by (rewrite length_replicate; lia). rewrite nth_lookup, lookup_replicate_2 by lia. done.
Qed.
Lemma log_visible_append l b f a c : zlen (shown l) = zlen (bytes l) -> 0 <= a -> c <= zlen (bytes l) ->
  log_visible (log_append b f l) a c = log_visible l a c.
Proof.
  intros Hl Ha Hc. apply visible_ext. intros i Hi. rewrite hidden_app by lia.
  rewrite (proj2 (Z.ltb_lt i (zlen (bytes l)))) by lia. split; [done|]. cbn [log_append bytes]. by rewrite byte_at_app_l by lia.
Qed.

Lemma log_put_match b l : log_put b l = log_match b (zlen b) l.
Proof. unfold log_put, log_match. rewrite Z.min_id, Z.sub_diag. cbn. by rewrite app_nil_r. Qed.

Lemma zlen_match_flags (b : list byte) v : 0 <= v -> zlen (zreplicate (Z.min v (zlen b)) true ++ zreplicate (zlen b - Z.min v (zlen b)) false) = zlen b.
Proof. intros Hv. pose proof (zlen_nonneg b). rewrite zlen_app, !zlen_replicate by lia. lia. Qed.

(** Appending to the log, with the tail of what is appended hidden. *)
Lemma append_stands self dict l b v self' ranges :
  stands_for self dict l -> 0 <= v ->
  ring self' (bytes l ++ b) -> dict_size self' = dict -> total_flushed self' = total_flushed self -> total_written self' = zlen (bytes l ++ b) ->
  invisible_ranges self' = ranges -> sorted_ranges 0 (zlen (bytes l ++ b)) ranges ->
  (forall i, covered ranges i = covered (invisible_ranges self) i || ((zlen (bytes l) + Z.min v (zlen b) <=? i) && (i <? zlen (bytes l) + zlen b))) ->
  invisible_pending self' = invisible_pending self + (zlen b - Z.min v (zlen b)) ->
  stands_for self' dict (log_match b v l).
Proof.
  intros Hs Hv Hring Hdict Hflushed Htotal <- Hsorted Hcov Hpending. pose proof (zlen_nonneg b).
  destruct (sf_flushed _ _ _ Hs) as [Hf Hfr]. pose proof (sf_shown _ _ _ Hs) as Hshown.
  assert (Hhid : forall i, zlen (bytes l) <= i < zlen (bytes l) + zlen b -> hidden (log_match b v l) i = negb (i <? zlen (bytes l) + Z.min v (zlen b))).
  { intros i Hi. unfold log_match. rewrite hidden_app by lia. rewrite (proj2 (Z.ltb_ge i (zlen (bytes l)))) by lia. rewrite nth_shown by lia. f_equal. lia. }
  unfold log_match in *. constructor; cbn [log_append bytes shown flushed]; try done.
  - rewrite !zlen_app, !zlen_replicate by lia. lia.
  - rewrite Hflushed, zlen_app. lia.
  - intros i Hi. rewrite zlen_app in Hi. rewrite Hcov. destruct (Z.lt_ge_cases i (zlen (bytes l))).
    + rewrite hidden_app, (proj2 (Z.ltb_lt i (zlen (bytes l)))) by lia. rewrite (sf_hidden _ _ _ Hs) by lia.
      rewrite (proj2 (Z.leb_gt _ i)) by lia. cbn [andb]. by rewrite orb_false_r.
    + rewrite Hhid by lia. rewrite (covered_high _ _ _ _ (sf_sorted _ _ _ Hs)) by lia. cbn [orb]. lia.
  - rewrite Hpending, (sf_pending _ _ _ Hs), zlen_app. unfold log_visible at 2. cbn [log_append bytes flushed].
    set (l' := log_append b (zreplicate (Z.min v (zlen b)) true ++ zreplicate (zlen b - Z.min v (zlen b)) false) l) in *.
    set (mid := zlen (bytes l) + Z.min v (zlen b)) in *.
    rewrite (visible_split (hidden l') (bytes l ++ b) (flushed l) (zlen (bytes l)) (zlen (bytes l) + zlen b)) by lia.
    rewrite (visible_split (hidden l') (bytes l ++ b) (zlen (bytes l)) mid (zlen (bytes l) + zlen b)) by lia.
    rewrite (visible_all _ _ _ mid) by (lia || intros i Hi; rewrite Hhid by lia; lia).
    rewrite (visible_none _ _ mid) by (intros i Hi; rewrite Hhid by lia; lia).
    rewrite app_nil_r, zlen_app, zlen_tab by lia.
    pose proof (log_visible_append l b (zreplicate (Z.min v (zlen b)) true ++ zreplicate (zlen b - Z.min v (zlen b)) false)
      (flushed l) (zlen (bytes l)) Hshown ltac:(lia) ltac:(lia)) as Hold.
    fold l' in Hold. unfold log_visible at 1 in Hold. cbn [bytes] in Hold. change (bytes l') with (bytes l ++ b) in Hold. rewrite Hold. lia.
Qed.

(** What marking a tail does to the list of ranges. *)
Lemma hide_tail_ok self hist old n v : total_written self = old + n -> total_flushed self <= old -> 0 <= n -> 0 <= v -> 0 <= old -> old + n < 2 ^ 64 ->
  sorted_ranges 0 old (invisible_ranges self) -> 0 <= invisible_pending self <= old -> ring self hist ->
  exists self', hide_tail old n v self = Ok self' /\ ring self' hist /\ dict_size self' = dict_size self /\
    total_flushed self' = total_flushed self /\ total_written self' = total_written self /\
    sorted_ranges 0 (old + n) (invisible_ranges self') /\
    (forall i, covered (invisible_ranges self') i = covered (invisible_ranges self) i || ((old + Z.min v n <=? i) && (i <? old + n))) /\
    invisible_pending self' = invisible_pending self + (n - Z.min v n).
Proof.
  intros Htotal Hf Hn Hv Hold Hlt Hsorted Hp Hring. unfold hide_tail. destruct (Z.ltb_spec (Z.min v n) n).
  2: { exists self. split; [done|]. split; [done|]. repeat (split; [done|]). split; [eapply sorted_weaken; [done|lia]|].
       split; [|lia]. intros i. rewrite (proj2 (andb_false_iff _ _)) by lia. by rewrite orb_false_r. }
  rewrite add_u64_ok, bind_Ok by lia. unfold mark_invisible.
  destruct (Z.eqb_spec (n - Z.min v n) 0); [lia|]. checked. rewrite (add_u64_ok (invisible_pending self)), bind_Ok by lia.
  set (start := old + Z.min v n). set (len := n - Z.min v n).
  assert (Hnew : forall i, (start <=? i) && (i <? start + len) = (start <=? i) && (i <? old + n)) by (intros i; lia).
  assert (Hpush : exists self', Ok (set_invisible (invisible_ranges self ++ [(start, len)]) (invisible_pending self + len) self) = Ok (E := rar_error) self' /\
    ring self' hist /\ dict_size self' = dict_size self /\ total_flushed self' = total_flushed self /\ total_written self' = total_written self /\
    sorted_ranges 0 (old + n) (invisible_ranges self') /\
    (forall i, covered (invisible_ranges self') i = covered (invisible_ranges self) i || ((start <=? i) && (i <? old + n))) /\
    invisible_pending self' = invisible_pending self + len).
  { eexists. split; [done|]. split; [destruct Hring; by constructor|]. repeat (split; [done|]). cbn [invisible_ranges set_invisible]. split.
    - replace (old + n) with (start + len) by lia. eapply sorted_snoc; [done|lia..].
    - split; [|done]. intros i. rewrite covered_app. f_equal. cbn. by rewrite orb_false_r. }
  destruct (invisible_ranges self) as [|r0 rs0 _] eqn:Hr using rev_ind; [exact Hpush|].
  rewrite last_snoc. destruct r0 as [s m]. pose proof (sorted_last _ _ _ _ _ Hsorted) as Hl.
  replace (sat_add_u64 s m) with (s + m) by (unfold sat_add_u64; lia).
  destruct (Z.eqb_spec (s + m) start) as [Heq|]; [|exact Hpush]. rewrite add_u64_ok, bind_Ok by lia.
  eexists. split; [done|]. split; [destruct Hring; by constructor|]. repeat (split; [done|]). cbn [invisible_ranges set_invisible].
  rewrite removelast_last. split.
  - replace (old + n) with (s + m + len) by lia. eapply sorted_grow; [done|lia].
  - split; [|done]. intros i. rewrite !covered_app, <- orb_assoc. f_equal. cbn. rewrite !orb_false_r.
    destruct (Z.leb_spec s i), (Z.ltb_spec i (s + m)), (Z.ltb_spec i (s + (m + len))), (Z.leb_spec start i), (Z.ltb_spec i (old + n)); cbn; lia.
Qed.

Lemma writes_stands m self dict l b v : stands_for self dict l -> writes m self (bytes l) b -> 0 <= v -> zlen (bytes l) + zlen b < 2 ^ 64 ->
  exists self', (s ← m; hide_tail (zlen (bytes l)) (zlen b) v s) = Ok self' /\ stands_for self' dict (log_match b v l).
Proof.
  intros Hs (s & -> & Hring & Hrest & Htotal) Hv Hlt. rewrite bind_Ok. injection Hrest as Hd Hf Hr Hp.
  pose proof (zlen_nonneg b). destruct (sf_flushed _ _ _ Hs) as [Hfl Hfr].
  pose proof (zlen_visible (hidden l) (bytes l) (flushed l) (zlen (bytes l))) as Hvis.
  pose proof (zlen_nonneg (log_visible l (flushed l) (zlen (bytes l)))).
  destruct (hide_tail_ok s (bytes l ++ b) (zlen (bytes l)) (zlen b) v) as (self' & Hrun & Hring' & Hd' & Hf' & Ht' & Hsorted & Hcov & Hpend);
    try done; try lia.
  - rewrite Htotal, zlen_app. done.
  - rewrite Hr. apply (sf_sorted _ _ _ Hs).
  - rewrite Hp, (sf_pending _ _ _ Hs). unfold log_visible in *. lia.
  - exists self'. split; [done|]. eapply append_stands; try done.
    + by rewrite Hd', Hd, (sf_dict _ _ _ Hs).
    + by rewrite Hf'.
    + by rewrite Ht'.
    + by rewrite zlen_app.
    + intros i. by rewrite Hcov, Hr.
    + by rewrite Hpend, Hp.
Qed.

(** Nothing hidden. *)
Lemma put_stands m self dict l b : stands_for self dict l -> writes m self (bytes l) b -> zlen (bytes l) + zlen b < 2 ^ 64 ->
  exists self', m = Ok self' /\ stands_for self' dict (log_put b l).
Proof.
  intros Hs Hw Hlt. rewrite log_put_match. destruct (writes_stands m self dict l b (zlen b) Hs Hw (zlen_nonneg b) Hlt) as (self' & Hrun & Hs').
  destruct Hw as (s & -> & _). rewrite bind_Ok in Hrun. unfold hide_tail in Hrun. rewrite Z.min_id, Z.ltb_irrefl in Hrun. injection Hrun as ->. by exists self'.
Qed.

(** * Moving the border *)

Lemma overlap_ok self dict l a : stands_for self dict l -> zlen (bytes l) < 2 ^ 64 -> 0 <= a <= zlen (bytes l) ->
  invisible_overlap (E := rar_error) a (total_written self) self = Ok (zlen (bytes l) - a - zlen (visible (covered (invisible_ranges self)) (bytes l) a (zlen (bytes l)))).
Proof.
  intros Hs Hlt Ha. rewrite <- (overlap_counts 0 (zlen (bytes l))) by (apply (sf_sorted _ _ _ Hs) || lia).
  pose proof (sf_sorted _ _ _ Hs) as Hsorted. unfold invisible_overlap. rewrite (sf_total _ _ _ Hs).
  assert (Hsat : (fun '(inv_start, inv_len) =>
      sat_sub_u64 (Z.min (sat_add_u64 inv_start inv_len) (zlen (bytes l))) (Z.max inv_start a)) <$> invisible_ranges self = overlaps a (zlen (bytes l)) (invisible_ranges self)).
  { unfold overlaps. apply list_fmap_ext. intros k [s n] _. unfold sat_add_u64, sat_sub_u64. lia. }
  destruct (invisible_ranges self) as [|r rs] eqn:Hr; [done|]. rewrite <- Hr in *. rewrite Hsat.
  rewrite sum_u64_ok; [done|lia| |].
  - apply Forall_fmap, list.Forall_true. intros [s n]. cbn. unfold sat_sub_u64. lia.
  - rewrite (overlap_counts 0 (zlen (bytes l)) _ (bytes l)) by (done || lia).
    pose proof (zlen_nonneg (visible (covered (invisible_ranges self)) (bytes l) a (zlen (bytes l)))). lia.
Qed.

Lemma sorted_filter (P : Z * Z -> Prop) `{forall r, Decision (P r)} ranges : forall lo hi, sorted_ranges lo hi ranges -> sorted_ranges lo hi (filter P ranges).
Proof.
  induction ranges as [|[s n] rs IH]; intros lo hi; [done|]. intros (H1 & H2 & H3). rewrite filter_cons.
  destruct (decide _); [cbn; auto | eapply sorted_lower; [by apply IH|lia]].
Qed.
Lemma sorted_in ranges : forall lo hi s n, sorted_ranges lo hi ranges -> (s, n) ∈ ranges -> s + n <= hi.
Proof.
  induction ranges as [|[s' n'] rs IH]; intros lo hi s n; [by intros _ ?%not_elem_of_nil|]. intros (H1 & H2 & H3) [[= -> ->]|Hin]%elem_of_cons.
  - by apply sorted_bounds in H3.
  - by eapply IH.
Qed.
Lemma covered_filter (P : Z * Z -> Prop) `{forall r, Decision (P r)} ranges i : (forall s n, (s, n) ∈ ranges -> ¬ P (s, n) -> s + n <= i) ->
  covered (filter P ranges) i = covered ranges i.
Proof.
  induction ranges as [|[s n] rs IH]; intros HP; [done|]. rewrite filter_cons, covered_cons.
  assert (Hrs : covered (filter P rs) i = covered rs i) by (apply IH; intros; apply HP; [by right|done]).
  destruct (decide _) as [|Hn]; rewrite ?covered_cons, Hrs; [done|]. specialize (HP s n ltac:(by left) Hn).
  by rewrite (proj2 (Z.ltb_ge i (s + n))), andb_false_r by lia.
Qed.

Lemma move_border_ok self dict l target : stands_for self dict l -> zlen (bytes l) < 2 ^ 64 -> flushed l <= target <= zlen (bytes l) ->
  exists self', move_border target self = Ok (E := rar_error) self' /\ stands_for self' dict (mk_log (bytes l) (shown l) target).
Proof.
  intros Hs Hlt Ht. destruct (sf_flushed _ _ _ Hs) as [Hfl Hfr]. unfold move_border.
  set (s1 := gc_invisible (set_flushed target self)).
  assert (Hcov : forall i, target <= i -> covered (invisible_ranges s1) i = covered (invisible_ranges self) i).
  { intros i Hi. apply covered_filter. intros s n Hin Hn. pose proof (sorted_in _ _ _ _ _ (sf_sorted _ _ _ Hs) Hin).
    cbn in Hn. unfold sat_add_u64 in Hn. lia. }
  assert (Hvis : visible (covered (invisible_ranges s1)) (bytes l) target (zlen (bytes l)) = log_visible l target (zlen (bytes l))).
  { rewrite <- (sf_visible _ _ _ _ _ Hs) by lia. apply visible_ext. intros i Hi. split; [apply Hcov; lia | done]. }
  assert (Hs1 : stands_for (set_invisible (invisible_ranges s1) (zlen (bytes l) - target - zlen (log_visible l target (zlen (bytes l)))) s1) dict
    (mk_log (bytes l) (shown l) target)).
  { destruct Hs as [Hring ? ? ? ? Hsorted Hhid ?]. constructor; cbn; try done; try lia.
    - destruct Hring. by constructor.
    - by apply sorted_filter.
    - intros i Hi. transitivity (covered (invisible_ranges self) i); [apply (Hcov i); lia | apply (Hhid i); lia]. }
  unfold resync_invisible_pending.
  assert (Hover : invisible_overlap (E := rar_error) (total_flushed s1) (total_written s1) s1 = Ok (zlen (bytes l) - target - zlen (log_visible l target (zlen (bytes l))))).
  { pose proof (overlap_ok _ _ _ target Hs1 Hlt ltac:(cbn; lia)) as H. cbn [bytes set_invisible invisible_ranges] in H. rewrite Hvis in H. exact H. }
  rewrite Hover, bind_Ok. eexists. split; [done|]. exact Hs1.
Qed.

Lemma unflushed_bytes_ok self dict l : stands_for self dict l -> zlen (bytes l) < 2 ^ 64 ->
  unflushed_bytes self = Ok (E := rar_error) (zlen (log_visible l (flushed l) (zlen (bytes l)))).
Proof.
  intros Hs Hlt. destruct (sf_flushed _ _ _ Hs) as [Hfl Hfr]. unfold unflushed_bytes.
  rewrite Hfl, (overlap_ok _ _ _ _ Hs Hlt), bind_Ok by lia. rewrite (sf_visible _ _ _ _ _ Hs) by lia.
  rewrite <- (sf_pending _ _ _ Hs), debug_check_ok, bind_Ok by apply Z.eqb_refl. rewrite (sf_total _ _ _ Hs), (sf_pending _ _ _ Hs). cbn. f_equal.
  pose proof (zlen_nonneg (log_visible l (flushed l) (zlen (bytes l)))).
  pose proof (zlen_visible (hidden l) (bytes l) (flushed l) (zlen (bytes l))). unfold sat_sub_u64, log_visible in *. lia.
Qed.

(** * Flushing *)

Lemma lift_Ok {S E A B} (a : A) (k : A -> stateM S E B) : (lift (Ok a) ≫= k) = k a.
Proof. done. Qed.

Section flushing.
Context {W : Type} `{SinkLaws W}.

(** A flush as the log says: value, log and handed-out bytes, or an error that leaves the writer alone. *)
Definition flushes (m : stateM W rar_error (Z * t)) (w : W) (dict : Z) (r : result (list byte * log)) : Prop :=
  match r with
  | Ok (out, l') => exists self' w', m w = (Ok (zlen out, self'), w') /\ stands_for self' dict l' /\ written w' = written w ++ out
  | Err e => m w = (Err e, w)
  | Panic => False
  end.

Lemma log_flush_same dict l : 0 <= dict -> flushed l = zlen (bytes l) \/ log_visible l (flushed l) (zlen (bytes l)) = [] -> flushed l <= zlen (bytes l) ->
  log_flush dict (zlen (bytes l)) l = Ok ([], mk_log (bytes l) (shown l) (zlen (bytes l))).
Proof.
  intros Hd Hnone Hle. unfold log_flush. destruct (Z.leb_spec (zlen (bytes l)) (flushed l)) as [|Hlt].
  - assert (flushed l = zlen (bytes l)) as <- by lia. by destruct l.
  - destruct Hnone as [|Hnone]; [lia|]. rewrite Hnone.
    assert (log_visible l (flushed l) (Z.min (zlen (bytes l)) (zlen (bytes l) - dict)) = []) as ->; [|done].
    unfold log_visible in *. apply visible_none. intros i Hi. apply (visible_empty _ _ _ _ Hnone). lia.
Qed.

Lemma flush_to_writer_ok self dict l w : stands_for self dict l -> zlen (bytes l) < 2 ^ 64 ->
  flushes (flush_to_writer self) w dict (log_flush dict (zlen (bytes l)) l).
Proof.
  intros Hs Hlt. destruct (sf_flushed _ _ _ Hs) as [Hfl Hfr]. pose proof (sf_ring _ _ _ Hs) as Hring. pose proof (ring_dict _ _ Hring) as Hdict.
  rewrite (sf_dict _ _ _ Hs) in Hdict. unfold flush_to_writer.
  rewrite (unflushed_bytes_ok _ _ _ Hs Hlt). rewrite lift_Ok.
  destruct (move_border_ok _ _ _ (zlen (bytes l)) Hs Hlt ltac:(lia)) as (self' & Hmove & Hs').
  set (out := log_visible l (flushed l) (zlen (bytes l))) in *. rewrite (sf_total _ _ _ Hs).
  destruct (Z.eqb_spec (zlen out) 0) as [Hnil%zlen_0_nil|Hsome].
  { rewrite log_flush_same by (tauto || lia). exists self', w. rewrite Hmove. split; [done|]. split; [done|]. by rewrite app_nil_r. }
  unfold log_flush. destruct (Z.leb_spec (zlen (bytes l)) (flushed l)).
  { unfold out, log_visible in Hsome. rewrite (visible_nil _ _ (flushed l) (zlen (bytes l))) in Hsome by lia. done. }
  rewrite (sf_dict _ _ _ Hs). fold out.
  assert (Hold : dict < zlen out -> log_visible l (flushed l) (Z.min (zlen (bytes l)) (zlen (bytes l) - dict)) <> []).
  { intros Hbig Hnil. unfold out, log_visible in *.
    rewrite (visible_split _ _ _ (Z.max (flushed l) (zlen (bytes l) - dict)) (zlen (bytes l))), zlen_app in Hbig by lia.
    rewrite (visible_none _ _ (flushed l)) in Hbig by (intros i Hi; apply (visible_empty _ _ _ _ Hnil); lia).
    pose proof (zlen_visible (hidden l) (bytes l) (Z.max (flushed l) (zlen (bytes l) - dict)) (zlen (bytes l))).
    change (zlen (A := byte) []) with 0 in Hbig. lia. }
  assert (Hspan : forall c, c <= zlen (bytes l) -> visible (covered (invisible_ranges self)) (bytes l) (total_flushed self) c = log_visible l (flushed l) c).
  { intros c Hc. rewrite Hfl. apply (sf_visible _ _ _ _ _ Hs); lia. }
  pose proof (sf_dict _ _ _ Hs) as Hd.
  destruct (Z.ltb_spec dict (zlen out)) as [Hbig|Hsmall].
  { destruct (log_visible l (flushed l) (Z.min (zlen (bytes l)) (zlen (bytes l) - dict))); [by destruct (Hold Hbig) | done]. }
  destruct (log_visible l (flushed l) (Z.min (zlen (bytes l)) (zlen (bytes l) - dict))) eqn:Hv.
  - destruct (write_visible_ok self (bytes l) Hring (sf_total _ _ _ Hs) Hlt (total_flushed self) (zlen (bytes l)) w) as (w' & Hrun & Hw); try lia.
    { apply (sf_sorted _ _ _ Hs). } { by rewrite Hspan, Hd by lia. }
    unfold flushes. rewrite (bind_run _ _ _ _ _ Hrun). exists self', w'. rewrite Hmove. split; [done|]. split; [done|]. by rewrite Hw, Hspan by lia.
  - unfold flushes. rewrite (bind_run_err _ _ _ _ _ (write_visible_old self (bytes l) (sf_total _ _ _ Hs) Hlt (total_flushed self) (zlen (bytes l)) w ltac:(lia) ltac:(lia)
      (sf_sorted _ _ _ Hs) ltac:(by rewrite Hspan, Hd, Hv by lia))). done.
Qed.

Lemma flush_until_ok self dict l up_to w : stands_for self dict l -> zlen (bytes l) < 2 ^ 64 ->
  flushes (flush_visible_until up_to self) w dict (log_flush dict (Z.min up_to (zlen (bytes l))) l).
Proof.
  intros Hs Hlt. destruct (sf_flushed _ _ _ Hs) as [Hfl Hfr]. pose proof (sf_ring _ _ _ Hs) as Hring. pose proof (sf_dict _ _ _ Hs) as Hd.
  unfold flush_visible_until, log_flush. rewrite (sf_total _ _ _ Hs), Hfl. set (target := Z.min up_to (zlen (bytes l))).
  destruct (Z.leb_spec target (flushed l)); [exists self, w; split; [done|]; split; [done|]; by rewrite app_nil_r|].
  assert (Hspan : forall c, c <= zlen (bytes l) -> visible (covered (invisible_ranges self)) (bytes l) (flushed l) c = log_visible l (flushed l) c).
  { intros c Hc. apply (sf_visible _ _ _ _ _ Hs); lia. }
  destruct (log_visible l (flushed l) (Z.min target (zlen (bytes l) - dict))) eqn:Hv.
  - destruct (write_visible_ok self (bytes l) Hring (sf_total _ _ _ Hs) Hlt (flushed l) target w) as (w' & Hrun & Hw); try lia.
    { apply (sf_sorted _ _ _ Hs). } { by rewrite Hspan, Hd by lia. }
    destruct (move_border_ok _ _ _ target Hs Hlt ltac:(lia)) as (self' & Hmove & Hs').
    unfold flushes. rewrite (bind_run _ _ _ _ _ Hrun). exists self', w'. rewrite Hmove, Hspan by lia. split; [done|]. split; [done|]. by rewrite Hw, Hspan by lia.
  - unfold flushes. rewrite (bind_run_err _ _ _ _ _ (write_visible_old self (bytes l) (sf_total _ _ _ Hs) Hlt (flushed l) target w ltac:(lia) ltac:(lia)
      (sf_sorted _ _ _ Hs) ltac:(by rewrite Hspan, Hd, Hv by lia))). done.
Qed.
End flushing.

(** * Running programs *)

Section running.
Context {W : Type} `{SinkLaws W}.

Lemma match_stands self dict l b v m : stands_for self dict l -> writes m self (bytes l) b -> 0 <= v -> zlen (bytes l) + zlen b < 2 ^ 64 ->
  forall n, n = zlen b -> exists self', (s ← m; hide_tail (total_written self) n v s) = Ok self' /\ stands_for self' dict (log_match b v l).
Proof. intros Hs Hw Hv Hlt n ->. rewrite (sf_total _ _ _ Hs). by eapply writes_stands. Qed.

Lemma zlen_zeros_or b n dict hist d : 0 <= n -> zlen (if b : bool then zreplicate n x00 else lz_match dict hist d n) = n.
Proof. intros Hn. destruct b; [by apply zlen_replicate | by apply zlen_lz_match]. Qed.

Lemma fill_zeroes_writes self hist n : ring self hist -> total_written self = zlen hist -> 0 <= n -> zlen hist + n < 2 ^ 64 ->
  writes (fill_zeroes_advance n self) self hist (zreplicate n x00).
Proof.
  intros Hring Htotal Hn Hlt. apply count_ok; [|by rewrite zlen_replicate|done|done]. apply fill_chunks_appends; [done|lia].
Qed.

(** The outcome of an operation, as the log says. *)
Definition does (m : stateM W rar_error (Z * list byte * t)) (w : W) (dict : Z) (r : result (Z * list byte * log) * list byte) : Prop :=
  match r with
  | (Ok (v, l'), out) => exists self' w', m w = (Ok (v, self'), w') /\ stands_for self' dict l' /\ written w' = written w ++ out
  | (Err e, out) => exists w', m w = (Err e, w') /\ written w' = written w ++ out
  | (Panic, _) => False
  end.

Lemma does_pure m v dict l' w : (exists self', m = Ok self' /\ stands_for self' dict l') ->
  does (self ← lift m; mret (v, self)) w dict (Ok (v, l'), []).
Proof. intros (self' & -> & Hs). exists self', w. split; [done|]. split; [done|]. by rewrite app_nil_r. Qed.

Lemma does_flush m w dict r : flushes m w dict r ->
  does ('(n, self) ← m; mret (n, [], self)) w dict
    (match r with Ok (out, l') => (Ok (zlen out, [], l'), out) | Err e => (Err e, []) | Panic => (Panic, []) end).
Proof.
  destruct r as [[out l']|e|]; cbn; [|intros Hrun|done].
  - intros (self' & w' & Hrun & Hs & Hw). exists self', w'. by rewrite (bind_run _ _ _ _ _ Hrun).
  - exists w. rewrite (bind_run_err _ _ _ _ _ Hrun). by rewrite app_nil_r.
Qed.

Lemma run_window_op_ok op self dict l w : stands_for self dict l -> op_fits op l -> zlen (bytes l) + op_bytes dict op l < 2 ^ 64 ->
  does (run_window_op op self) w dict (log_op dict op l).
Proof.
  intros Hs Hfit Hlt. pose proof (sf_ring _ _ _ Hs) as Hring. pose proof (sf_total _ _ _ Hs) as Htotal. pose proof (sf_dict _ _ _ Hs) as Hd.
  destruct op as [b|b n|b|d n v|d n v| |up_to|up_to|a n]; cbn [run_window_op log_op op_fits op_bytes] in *.
  - apply does_pure. apply (put_stands _ _ _ _ _ Hs); [by apply put_byte_writes | done].
  - destruct Hfit as [H8 Hn]. apply does_pure. apply (put_stands _ _ _ _ _ Hs); [by apply put_literal_batch_writes | rewrite zlen_take; lia].
  - apply does_pure. apply (put_stands _ _ _ _ _ Hs); [by apply put_bytes_writes | done].
  - destruct Hfit as (H1 & Hn & Hv). apply does_pure. subst dict.
    apply match_stands; rewrite ?zlen_lz_match by done; try done. by apply copy_advance_writes.
  - destruct Hfit as (Hd0 & Hn & Hv). apply does_pure. subst dict.
    apply match_stands; rewrite ?zlen_zeros_or by done; try done.
    destruct (Z.eqb_spec d 0); [by apply fill_zeroes_writes | apply copy_advance_writes; done || lia].
  - apply does_flush. apply flush_to_writer_ok; [done|lia].
  - apply does_flush. apply flush_until_ok; [done|lia].
  - apply does_pure. unfold mark_flushed. rewrite Htotal. destruct (sf_flushed _ _ _ Hs). apply move_border_ok; [done|lia..].
  - destruct Hfit as [Ha Hn]. rewrite (try_copy_output_ok self (bytes l) Hring Htotal) by lia. rewrite Hd. unfold log_range.
    destruct (_ && _); [|exists w; by rewrite app_nil_r]. exists self, w. split; [done|]. split; [done|]. by rewrite app_nil_r.
Qed.

Lemma run_window_ops_ok dict ops : forall self l w, stands_for self dict l -> ops_fit dict ops l ->
  exists w', run_window_ops ops self w = ((log_ops dict ops l).1, w') /\ written w' = written w ++ (log_ops dict ops l).2.
Proof.
  induction ops as [|op ops IH]; intros self l w Hs Hfit; cbn [run_window_ops log_ops].
  { exists w. split; [done|]. by rewrite app_nil_r. }
  destruct Hfit as (Hop & Hlt & Hrest). pose proof (run_window_op_ok op self dict l w Hs Hop Hlt) as Hdo.
  destruct (log_op dict op l) as [[[v l']|e|] out]; cbn in Hdo; [|destruct Hdo as (w' & Hrun & Hw)|done].
  - destruct Hdo as (self' & w1 & Hrun & Hs' & Hw). rewrite (bind_run _ _ _ _ _ Hrun).
    destruct (IH self' l' w1 Hs' Hrest) as (w' & Hrun' & Hw'). destruct (log_ops dict ops l') as [r out'] eqn:E. cbn in Hrun', Hw'.
    exists w'. cbn [fst snd]. split; [|by rewrite Hw', Hw, app_assoc].
    destruct r as [rest|e|]; [by rewrite (bind_run _ _ _ _ _ Hrun') | by rewrite (bind_run_err _ _ _ _ _ Hrun') |].
    unfold mbind at 1, stateM_bind. by rewrite Hrun'.
  - exists w'. by rewrite (bind_run_err _ _ _ _ _ Hrun).
Qed.
End running.

(** * Fresh and recycled windows *)

Definition empty_log : log := mk_log [] [] 0.

Lemma empty_stands m dict : 0 < dict <= zlen m -> stands_for (mk m dict 0 false 0 0 [] 0) dict empty_log.
Proof.
  intros Hd. constructor; cbn; try done.
  - constructor; cbn; [done | by rewrite Z.mod_0_l by lia | change (zlen []) with 0; lia | intros i Hi; change (zlen []) with 0 in Hi; lia].
  - intros i Hi. change (zlen []) with 0 in Hi. lia.
Qed.

Section allocation.
Context `{ZeroedAlloc}.

Lemma contiguous_ok len m : WindowStorage.try_contiguous len = Ok m -> 0 < len /\ zlen m = len.
Proof.
  unfold WindowStorage.try_contiguous, debug_check. destruct (Z.ltb_spec 0 len); [rewrite bind_Ok|done].
  destruct (_ <? _); [done|]. destruct (alloc_zeroed len); [|done]. intros [= <-]. split; [done|]. apply zlen_replicate. lia.
Qed.

Lemma new_stands dict self : try_new dict = Ok self -> stands_for self dict empty_log.
Proof.
  unfold try_new. destruct (_ =? _); [done|]. destruct (WindowStorage.try_contiguous dict) as [m| |] eqn:E; try done.
  intros [= <-]. apply contiguous_ok in E as [H1 H2]. apply empty_stands. lia.
Qed.

Lemma reuse_stands dict old self : 0 < dict -> reset_for_reuse dict old = Ok self -> stands_for self dict empty_log.
Proof.
  intros Hd. unfold reset_for_reuse, ensure_capacity. destruct (Z.eqb_spec dict 0); [lia|].
  destruct (Z.ltb_spec (zlen (buf old)) dict).
  - destruct (WindowStorage.try_contiguous dict) as [m| |] eqn:E; try done. rewrite !bind_Ok. cbn. intros [= <-].
    apply contiguous_ok in E as [H1 H2]. apply empty_stands. lia.
  - rewrite !bind_Ok. cbn. intros [= <-]. apply empty_stands. lia.
Qed.
End allocation.


(** A writer that collects, and an allocator that grants everything. *)
#[export] Instance collect : Sink (list byte) := fun data w => (Ok tt, w ++ data).
#[export, refine] Instance collect_ok : SinkLaws (list byte) := {| written w := w |}.
Proof. intros data w. by exists (w ++ data). Defined.
#[export] Instance grant_all : ZeroedAlloc := fun _ => true.

(** A dictionary of 24 bytes that held something else before. *)
Definition stale_window : t := mk (zreplicate 40 xee) 40 7 true 100 90 [(92, 3)] 3.
Definition sample_window_ops : list window_op :=
  [PutBytes [x61; x62; x63; x64; x65]; Copy 9 4 4; Copy 3 11 11; FlushUntil 7; PutByte x66; Copy 21 9 5; PutBatch [x30; x31; x32; x33; x34; x35; x36; x37] 8;
   Flush; Copy 1 20 20; ReadBack 40 6; Copy 5 30 30; Flush].

