(* ===== verification/LzFilter.v ===== *)
(** The RAR post-decompression filters (decompress/lz/filter.rs): the queue of
    pending filters, and the DELTA, E8, E8E9 and ARM transformations applied
    in place to a block of output. *)
From S2P Require Import Prelude RarTypes StateM LzWindow LzCopies.

(** * Descriptors *)

Module FilterType.
Inductive t := Delta | E8 | E8E9 | Arm | Unsupported (code : Z).
Definition from_code (code : Z) : t :=
  match code with 0 => Delta | 1 => E8 | 2 => E8E9 | 3 => Arm | _ => Unsupported code end.
Definition emits_output (self : t) : bool := match self with Unsupported _ => false | _ => true end.
#[export] Instance t_eq_dec : EqDecision t.
Proof. solve_decision. Defined.
End FilterType.

Record PendingFilter := mk_filter { filter_type : FilterType.t; block_start : Z; block_length : Z; channels : Z }.

(** [Iterator::rposition]: the last index whose element satisfies the test. *)
Fixpoint rposition {A} (test : A -> bool) (l : list A) : option nat :=
  match l with
  | [] => None
  | x :: l => match rposition test l with Some i => Some (S i) | None => if test x then Some 0%nat else None end
  end.

Definition push_pending_filter (filters : list PendingFilter) (filter : PendingFilter) : list PendingFilter :=
  let position := match rposition (fun pending => block_start pending <=? block_start filter) filters with Some index => S index | None => 0%nat end in
  if (position =? length filters)%nat then filters ++ [filter] else take position filters ++ filter :: drop position filters.

(** * DELTA *)

(** [while dest < data.len() { .. }] for one channel. *)
Fixpoint delta_channel (fuel : nat) (src : list byte) (ch : Z) (data : list byte) (src_pos : Z) (prev : byte) (dest : Z) : result (list byte * Z) :=
  match fuel with
  | O => Panic
  | S fuel =>
    if dest <? zlen data then
      s ← index src src_pos;
      let prev := byte_of (u8 prev - u8 s) in
      data ← store data dest [prev];
      delta_channel fuel src ch data (src_pos + 1) prev (dest + ch)
    else Ok (data, src_pos)
  end.

Definition apply_delta (data : list byte) (channels : Z) : result (list byte) :=
  let ch := channels in
  if ch =? 0 then Ok data
  else
    let src := data in
    '(data, _) ← for_range 0 (Z.to_nat ch)
      (fun channel '(data, src_pos) => delta_channel (S (length src)) src ch data src_pos x00 (Z.of_nat channel)) (data, 0);
    mret data.

(** * E8 and E8E9 *)

(** The [memchr] crate: first occurrence of one byte, or of either of two. *)
Class ByteSearch := { memchr : byte -> list byte -> option Z; memchr2 : byte -> byte -> list byte -> option Z }.

Definition FILE_SIZE : Z := 0x01000000.

Inductive X86FilterOffsetMode := Rar5 (file_offset : Z) | Rar4 (file_offset : Z).
Definition address_offset (self : X86FilterOffsetMode) (address_start : Z) : result Z :=
  match self with
  | Rar5 file_offset => a ← add_u64 address_start file_offset; mret (wrap32 a mod FILE_SIZE)
  | Rar4 file_offset => Ok (wrap32 (file_offset + wrap32 address_start))
  end.

Section x86.
Context `{ByteSearch}.

(** One candidate at [i]. *)
Definition fix_address (offset_mode : X86FilterOffsetMode) (data : list byte) (i : Z) : result (list byte) :=
  field ← slice data (i + 1) (i + 5);
  let addr := le_combine field in
  offset ← address_offset offset_mode (i + 1);
  if has addr 0x80000000 then
    if negb (has (wrap32 (addr + offset)) 0x80000000) then copy_range data (i + 1) (i + 5) (le_split 4 (wrap32 (addr + FILE_SIZE)))
    else Ok data
  else if has (wrap32 (addr - FILE_SIZE)) 0x80000000 then copy_range data (i + 1) (i + 5) (le_split 4 (wrap32 (addr - offset)))
  else Ok data.

Fixpoint e8e9_loop (fuel : nat) (offset_mode : X86FilterOffsetMode) (include_e9 : bool) (last_start : Z) (data : list byte) (i : Z) : result (list byte) :=
  match fuel with
  | O => Panic
  | S fuel =>
    if i <? last_start then
      rest ← slice data i last_start;
      match (if include_e9 then memchr2 xe8 xe9 rest else memchr xe8 rest) with
      | None => Ok data
      | Some found =>
        let i := i + found in
        data ← fix_address offset_mode data i;
        e8e9_loop fuel offset_mode include_e9 last_start data (i + 5)
      end
    else Ok data
  end.

Definition apply_e8e9_inner (data : list byte) (offset_mode : X86FilterOffsetMode) (include_e9 : bool) : result (list byte) :=
  if zlen data <? 5 then Ok data
  else e8e9_loop (S (length data)) offset_mode include_e9 (zlen data - 4) data 0.

Definition apply_e8 (data : list byte) (file_offset : Z) : result (list byte) := apply_e8e9_inner data (Rar5 file_offset) false.
Definition apply_e8e9 (data : list byte) (file_offset : Z) : result (list byte) := apply_e8e9_inner data (Rar5 file_offset) true.
Definition apply_rar4_e8 (data : list byte) (file_offset : Z) : result (list byte) := apply_e8e9_inner data (Rar4 file_offset) false.
Definition apply_rar4_e8e9 (data : list byte) (file_offset : Z) : result (list byte) := apply_e8e9_inner data (Rar4 file_offset) true.
End x86.

(** * ARM *)

Fixpoint arm_loop (fuel : nat) (file_offset : Z) (data : list byte) (i : Z) : result (list byte) :=
  match fuel with
  | O => Panic
  | S fuel =>
    if i + 3 <? zlen data then
      op ← index data (i + 3);
      data ← (if u8 op =? 0xEB then
                b0 ← index data i;
                b1 ← index data (i + 1);
                b2 ← index data (i + 2);
                let offset := Z.lor (Z.lor (u8 b0) (Z.shiftl (u8 b1) 8)) (Z.shiftl (u8 b2) 16) in
                let cur_pos := wrap32 (wrap32 file_offset + wrap32 i) / 4 in
                let relative := Z.land (wrap32 (offset - cur_pos)) 0x00FFFFFF in
                data ← store data i [byte_of relative];
                data ← store data (i + 1) [byte_of (Z.shiftr relative 8)];
                store data (i + 2) [byte_of (Z.shiftr relative 16)]
              else Ok data);
      arm_loop fuel file_offset data (i + 4)
    else Ok data
  end.

Definition apply_arm (data : list byte) (file_offset : Z) : result (list byte) :=
  if zlen data <? 4 then Ok data else arm_loop (S (length data)) file_offset data 0.
