(* ===== verification/LzFilterProps.v ===== *)
(** The filters undo what a compressor applies: reference encoders for DELTA,
    E8, E8E9 and ARM, and their inverses; the queue of descriptors is a stable
    sort by the start of the block. *)
From stdpp Require Import sorting.
From S2P Require Import Prelude RarTypes StateM LzWindow LzCopies LzFilter.

(** What the [memchr] crate documents. *)
Class ByteSearchLaws `{ByteSearch} := {
  memchr_law : forall b l, match memchr b l with
    | Some i => 0 <= i < zlen l /\ byte_at l i = b /\ forall j, 0 <= j < i -> byte_at l j <> b
    | None => forall j, 0 <= j < zlen l -> byte_at l j <> b
    end;
  memchr2_law : forall a b l, match memchr2 a b l with
    | Some i => 0 <= i < zlen l /\ (byte_at l i = a \/ byte_at l i = b) /\ forall j, 0 <= j < i -> byte_at l j <> a /\ byte_at l j <> b
    | None => forall j, 0 <= j < zlen l -> byte_at l j <> a /\ byte_at l j <> b
    end
}.

(** * Small facts *)

Lemma index_at {E} l i : 0 <= i < zlen l -> index (E := E) l i = Ok (byte_at l i).
Proof.
  intros Hi. unfold index, get, byte_at. rewrite (proj2 (Z.leb_le 0 i)), (proj2 (Z.ltb_lt i (zlen l))) by lia. cbn [andb].
  rewrite nth_lookup. destruct (lookup_lt_is_Some_2 l (Z.to_nat i)) as (b & ->); [unfold zlen in Hi; lia | done].
Qed.
Lemma zdrop_cons_inv (l : list byte) i x r : 0 <= i -> zdrop i l = x :: r -> i < zlen l /\ byte_at l i = x /\ zdrop (i + 1) l = r.
Proof.
  intros Hi H. pose proof (f_equal zlen H) as Hl. rewrite zlen_drop, zlen_cons in Hl by lia. pose proof (zlen_nonneg r).
  split; [lia|]. split.
  - pose proof (byte_at_drop l i 0 ltac:(lia) ltac:(lia)) as Hb. rewrite H, Z.add_0_r in Hb. by rewrite <- Hb.
  - rewrite <- zdrop_zdrop, H by lia. by rewrite zdrop_cons, zdrop_0 by lia.
Qed.

(** * DELTA *)

(** The differences of one channel, then of all of them. *)
Fixpoint delta_differences (fuel : nat) (data : list byte) (ch : Z) (prev : byte) (dest : Z) : list byte :=
  match fuel with
  | O => []
  | S fuel =>
    if dest <? zlen data then byte_of (u8 prev - u8 (byte_at data dest)) :: delta_differences fuel data ch (byte_at data dest) (dest + ch)
    else []
  end.
Fixpoint delta_channels (n : nat) (data : list byte) (ch c : Z) : list byte :=
  match n with O => [] | S n => delta_differences (S (length data)) data ch x00 c ++ delta_channels n data ch (c + 1) end.
Definition delta_encode (data : list byte) (ch : Z) : list byte := delta_channels (Z.to_nat ch) data ch 0.

Lemma undo_difference p b : byte_of (u8 p - u8 (byte_of (u8 p - u8 b))) = b.
Proof.
  apply u8_inj. rewrite !u8_byte_of. pose proof (u8_range b). pose proof (u8_range p).
  rewrite Zminus_mod_idemp_r. replace (u8 p - (u8 p - u8 b)) with (u8 b) by lia. by apply Z.mod_small.
Qed.

Lemma on_channel i c ch : 0 <= c < ch -> 0 <= i -> (c <= i /\ (i - c) mod ch = 0) <-> i mod ch = c.
Proof.
  intros Hc Hi. pose proof (Z.div_mod i ch ltac:(lia)). split.
  - intros [Hle H0]. pose proof (Z.div_mod (i - c) ch ltac:(lia)). symmetry. apply Z.mod_unique with (q := (i - c) / ch); lia.
  - intros H1. pose proof (Z.mod_le i ch Hi ltac:(lia)). split; [lia|].
    symmetry. apply Z.mod_unique with (q := i / ch); lia.
Qed.

Section delta.
Context (data src : list byte) (ch : Z) (Hch : 0 < ch).

Lemma delta_channel_ok fuel : forall out src_pos prev dest rest,
  Z.max 0 (zlen data - dest) < Z.of_nat fuel -> 0 <= dest -> 0 <= src_pos -> zlen out = zlen data ->
  zdrop src_pos src = delta_differences fuel data ch prev dest ++ rest ->
  exists out' p', delta_channel fuel src ch out src_pos prev dest = Ok (out', p') /\ 0 <= p' /\ zdrop p' src = rest /\ zlen out' = zlen data /\
    forall i, 0 <= i < zlen data -> byte_at out' i = if bool_decide (dest <= i /\ (i - dest) mod ch = 0) then byte_at data i else byte_at out i.
Proof using Hch.
  induction fuel as [|fuel IH]; intros out src_pos prev dest rest Hf Hd Hp Hlen Hsrc; cbn [delta_channel delta_differences] in *.
  { lia. }
  rewrite Hlen. destruct (Z.ltb_spec dest (zlen data)) as [Hlt|Hge].
  2: { exists out, src_pos. split; [done|]. split; [done|]. split; [done|]. split; [done|]. intros i Hi. rewrite bool_decide_eq_false_2 by lia. done. }
  destruct (zdrop_cons_inv src src_pos _ _ Hp Hsrc) as (Hin & Hval & Hrest).
  rewrite index_at, bind_Ok, Hval, undo_difference by lia.
  rewrite store_ok, bind_Ok by (change (zlen [_]) with 1; lia).
  destruct (IH (splice out dest [byte_at data dest]) (src_pos + 1) (byte_at data dest) (dest + ch) rest) as (out' & p' & Hrun & Hp' & Hdrop & Hlen' & Hout);
    try done; try lia.
  { rewrite zlen_splice; [done|lia|change (zlen [_]) with 1; lia]. }
  exists out', p'. split; [done|]. split; [done|]. split; [done|]. split; [done|]. intros i Hi. rewrite Hout by done.
  rewrite byte_at_splice by (change (zlen [_]) with 1; lia). change (zlen [_]) with 1.
  assert (Hiff : (dest <= i /\ (i - dest) mod ch = 0) <-> i = dest \/ (dest + ch <= i /\ (i - (dest + ch)) mod ch = 0)).
  { replace (i - (dest + ch)) with (i - dest + (-1) * ch) by lia. rewrite Z.mod_add by lia. split.
    - intros [H1 H2]. destruct (Z.eq_dec i dest); [by left|]. right. split; [|done].
      destruct (Z.lt_ge_cases (i - dest) ch); [rewrite Z.mod_small in H2 by lia; lia | lia].
    - intros [->|[H1 H2]]; [rewrite Z.sub_diag, Z.mod_0_l by lia; lia | lia]. }
  destruct (decide (dest + ch <= i /\ (i - (dest + ch)) mod ch = 0)) as [Hl|Hl].
  - rewrite (bool_decide_eq_true_2 _ Hl), bool_decide_eq_true_2 by tauto. done.
  - rewrite (bool_decide_eq_false_2 _ Hl). destruct (Z.eq_dec i dest) as [->|Hne].
    + rewrite (proj2 (Z.leb_le dest dest)), (proj2 (Z.ltb_lt dest (dest + 1))), bool_decide_eq_true_2 by (tauto || lia). cbn [andb].
      by rewrite Z.sub_diag.
    + rewrite bool_decide_eq_false_2 by tauto. destruct (Z.leb_spec dest i), (Z.ltb_spec i (dest + 1)); cbn [andb]; done || lia.
Qed.

Lemma delta_channels_ok n : forall c out src_pos, Z.of_nat c + Z.of_nat n = ch -> 0 <= src_pos -> zlen out = zlen data ->
  zdrop src_pos src = delta_channels n data ch (Z.of_nat c) -> (forall i, 0 <= i < zlen data -> i mod ch < Z.of_nat c -> byte_at out i = byte_at data i) ->
  length src = length data ->
  exists p', for_range c n (fun channel '(data, src_pos) => delta_channel (S (length src)) src ch data src_pos x00 (Z.of_nat channel)) (out, src_pos) = Ok (data, p').
Proof using Hch.
  induction n as [|n IH]; intros c out src_pos Hn Hp Hlen Hsrc Hdone Hls; cbn [for_range delta_channels] in *.
  - exists src_pos. do 2 f_equal. apply mem_ext; [done|]. intros i Hi. apply Hdone; [lia|]. pose proof (Z.mod_pos_bound i ch Hch). lia.
  - rewrite Hls. pose proof (zlen_nonneg data).
    destruct (delta_channel_ok (S (length data)) out src_pos x00 (Z.of_nat c) _ ltac:(unfold zlen; lia) ltac:(lia) Hp Hlen Hsrc) as (out' & p' & -> & Hp' & Hdrop & Hlen' & Hout).
    rewrite bind_Ok. rewrite <- Hls. apply IH; try done; try lia.
    + rewrite Hdrop. f_equal. lia.
    + intros i Hi Hm. rewrite Hout by done.
      destruct (decide (Z.of_nat c <= i /\ (i - Z.of_nat c) mod ch = 0)) as [Hl|Hl]; [by rewrite (bool_decide_eq_true_2 _ Hl)|].
      rewrite (bool_decide_eq_false_2 _ Hl). apply Hdone; [done|]. pose proof (on_channel i (Z.of_nat c) ch ltac:(lia) ltac:(lia)) as Hoc.
      destruct (Z.eq_dec (i mod ch) (Z.of_nat c)); [tauto|lia].
Qed.
End delta.

(** The channels partition the block. *)
Definition channel_length (n ch c : Z) : Z := (Z.max 0 (n - c) + ch - 1) / ch.

Lemma zlen_differences fuel data ch : forall prev dest, 0 < ch -> Z.max 0 (zlen data - dest) < Z.of_nat fuel ->
  zlen (delta_differences fuel data ch prev dest) = channel_length (zlen data) ch dest.
Proof.
  intros prev dest Hch. revert prev dest. induction fuel as [|fuel IH]; intros prev dest Hf; [lia|]. cbn [delta_differences].
  unfold channel_length in *. destruct (Z.ltb_spec dest (zlen data)).
  - rewrite zlen_cons, IH by lia. destruct (Z.le_gt_cases ch (zlen data - dest)).
    + rewrite !Z.max_r by lia. replace (zlen data - dest + ch - 1) with (zlen data - (dest + ch) + ch - 1 + 1 * ch) by lia. rewrite Z.div_add by lia. lia.
    + rewrite Z.max_l, Z.max_r by lia. rewrite (Z.div_small (0 + ch - 1)) by lia. apply Z.div_unique with (r := zlen data - dest - 1); lia.
  - rewrite Z.max_l, Z.div_small by lia. apply zlen_nil.
Qed.

Lemma channel_length_S n ch c : 0 <= c < ch -> 0 <= n -> channel_length (n + 1) ch c = channel_length n ch c + (if n mod ch =? c then 1 else 0).
Proof.
  intros Hc Hn. unfold channel_length. pose proof (Z.div_mod n ch ltac:(lia)) as Hdm. pose proof (Z.mod_pos_bound n ch ltac:(lia)).
  set (q := n / ch) in *. set (r := n mod ch) in *. assert (0 <= q) by (apply Z.div_pos; lia).
  destruct (Z.eqb_spec r c) as [E|E].
  - assert ((Z.max 0 (n + 1 - c) + ch - 1) / ch = q + 1) as -> by (symmetry; apply Z.div_unique with (r := 0); nia).
    assert ((Z.max 0 (n - c) + ch - 1) / ch = q) as -> by (symmetry; apply Z.div_unique with (r := ch - 1); nia). lia.
  - rewrite Z.add_0_r. destruct (Z.lt_ge_cases r c).
    + assert ((Z.max 0 (n + 1 - c) + ch - 1) / ch = q) as ->.
      { symmetry. destruct (Z.eq_dec q 0) as [E0|]; [rewrite E0 in *; apply Z.div_unique with (r := ch - 1); nia | apply Z.div_unique with (r := r - c + ch); nia]. }
      destruct (Z.eq_dec q 0) as [E0|]; [rewrite E0 in *; apply Z.div_unique with (r := ch - 1); nia | apply Z.div_unique with (r := r - c + ch - 1); nia].
    + assert ((Z.max 0 (n + 1 - c) + ch - 1) / ch = q + 1) as -> by (symmetry; apply Z.div_unique with (r := r - c); nia).
      apply Z.div_unique with (r := r - c - 1); nia.
Qed.

Fixpoint channels_length (k : nat) (n ch c : Z) : Z := match k with O => 0 | S k => channel_length n ch c + channels_length k n ch (c + 1) end.

Lemma channels_length_S k n ch : forall c, 0 <= c -> c + Z.of_nat k <= ch -> 0 <= n ->
  channels_length k (n + 1) ch c = channels_length k n ch c + (if (c <=? n mod ch) && (n mod ch <? c + Z.of_nat k) then 1 else 0).
Proof.
  induction k as [|k IH]; intros c Hc Hk Hn; cbn [channels_length]; [destruct (Z.leb_spec c (n mod ch)), (Z.ltb_spec (n mod ch) (c + Z.of_nat 0)); cbn; lia|].
  rewrite channel_length_S, IH by lia.
  destruct (Z.eqb_spec (n mod ch) c), (Z.leb_spec c (n mod ch)), (Z.leb_spec (c + 1) (n mod ch)), (Z.ltb_spec (n mod ch) (c + Z.of_nat (S k))),
    (Z.ltb_spec (n mod ch) (c + 1 + Z.of_nat k)); cbn [andb]; lia.
Qed.

Lemma channels_length_all ch n : 0 < ch -> 0 <= n -> channels_length (Z.to_nat ch) n ch 0 = n.
Proof.
  intros Hch Hn. pattern n. apply natlike_ind; [| |done].
  - assert (H0 : forall k c, 0 <= c -> channels_length k 0 ch c = 0).
    { induction k as [|k IH]; intros c Hc; cbn; [done|]. rewrite IH by lia. unfold channel_length. rewrite Z.max_l, Z.div_small by lia. lia. }
    apply H0. lia.
  - intros x Hx IH. unfold Z.succ. rewrite channels_length_S, IH by lia. pose proof (Z.mod_pos_bound x ch Hch).
    destruct (Z.leb_spec 0 (x mod ch)), (Z.ltb_spec (x mod ch) (0 + Z.of_nat (Z.to_nat ch))); cbn; lia.
Qed.

Lemma zlen_delta_encode data ch : 0 < ch -> zlen (delta_encode data ch) = zlen data.
Proof.
  intros Hch. rewrite <- (channels_length_all ch (zlen data)) by (done || apply zlen_nonneg). unfold delta_encode.
  assert (H : forall k c, 0 <= c -> zlen (delta_channels k data ch c) = channels_length k (zlen data) ch c).
  { induction k as [|k IH]; intros c Hc; [done|]. cbn [delta_channels channels_length].
    rewrite zlen_app, IH, zlen_differences by (done || unfold zlen; lia). done. }
  by apply H.
Qed.

Lemma apply_delta_encode data ch : 0 < ch -> apply_delta (delta_encode data ch) ch = Ok data.
Proof.
  intros Hch. pose proof (zlen_delta_encode data ch Hch) as Hlen. unfold apply_delta. destruct (Z.eqb_spec ch 0); [lia|].
  destruct (delta_channels_ok data (delta_encode data ch) ch Hch (Z.to_nat ch) 0 (delta_encode data ch) 0) as (p & Hrun); try done; try lia.
  - rewrite zdrop_0. done.
  - intros i Hi Hm. pose proof (Z.mod_pos_bound i ch Hch). lia.
  - unfold zlen in Hlen. lia.
  - by rewrite Hrun.
Qed.

(** * E8 and E8E9 *)

Definition is_op (include_e9 : bool) (b : byte) : bool := bool_decide (b = xe8) || (include_e9 && bool_decide (b = xe9)).

(** Rewriting the four bytes behind every opcode, five bytes from the end at least. *)
Fixpoint x86_map (fuel : nat) (f : Z -> Z -> Z) (op : byte -> bool) (pos : Z) (data : list byte) : list byte :=
  match fuel, data with
  | S fuel, b :: rest =>
    if (5 <=? zlen data) && op b
    then b :: le_split 4 (f (pos + 1) (le_combine (ztake 4 rest))) ++ x86_map fuel f op (pos + 5) (zdrop 4 rest)
    else b :: x86_map fuel f op (pos + 1) rest
  | _, _ => data
  end.

Lemma zlen_x86_map fuel f op : forall pos data, zlen (x86_map fuel f op pos data) = zlen data.
Proof.
  induction fuel as [|fuel IH]; intros pos [|b rest]; cbn [x86_map]; try done.
  destruct (Z.leb_spec 5 (zlen (b :: rest))) as [Hl|]; cbn [andb]; [destruct (op b)|]; rewrite !zlen_cons; [|by rewrite IH..].
  rewrite zlen_cons in Hl. rewrite zlen_app, IH, zlen_le_split, zlen_drop by lia. lia.
Qed.

(** The map with the inverse function is the inverse map. *)
Lemma x86_map_inverse fuel f g op : (forall p a, 0 <= a < 2 ^ 32 -> 0 <= g p a < 2 ^ 32 /\ f p (g p a) = a) ->
  forall pos data, x86_map fuel f op pos (x86_map fuel g op pos data) = data.
Proof.
  intros Hinv. induction fuel as [|fuel IH]; intros pos data; [done|].
  pose proof (zlen_x86_map (S fuel) g op pos data) as Hlen. destruct data as [|b rest]; [done|]. cbn [x86_map] in *.
  destruct ((5 <=? zlen (b :: rest)) && op b) eqn:E.
  - apply andb_true_iff in E as [Hl Hop]. cbn [x86_map]. rewrite Hlen, Hl, Hop. cbn [andb]. apply Z.leb_le in Hl. rewrite zlen_cons in Hl.
    assert (H4 : zlen (ztake 4 rest) = 4) by (rewrite zlen_take; lia).
    set (v := g (pos + 1) (le_combine (ztake 4 rest))) in *.
    pose proof (le_combine_range (ztake 4 rest)) as Hr. rewrite H4 in Hr. destruct (Hinv (pos + 1) (le_combine (ztake 4 rest)) Hr) as [Hv Hfv].
    fold v in Hv, Hfv. assert (Hs : zlen (le_split 4 v) = 4) by apply zlen_le_split.
    rewrite <- Hs at 1. rewrite ztake_app_zlen, le_combine_split. change (256 ^ Z.of_nat 4) with (2 ^ 32).
    rewrite Z.mod_small, Hfv by lia. rewrite <- Hs at 2. rewrite zdrop_app_zlen, IH. f_equal.
    assert (length (ztake 4 rest) = 4%nat) as <- by (unfold zlen in H4; lia).
    rewrite le_split_combine. apply ztake_zdrop. lia.
  - assert (Hlen' : zlen (b :: x86_map fuel g op (pos + 1) rest) = zlen (b :: rest)) by (rewrite !zlen_cons, zlen_x86_map; done).
    cbn [x86_map]. rewrite Hlen', E. by rewrite IH.
Qed.

Lemma x86_map_fuel f op : forall fuel fuel' pos data, zlen data <= Z.of_nat fuel -> zlen data <= Z.of_nat fuel' ->
  x86_map fuel f op pos data = x86_map fuel' f op pos data.
Proof.
  induction fuel as [|fuel IH]; intros [|fuel'] pos [|b rest] H1 H2; try done; rewrite zlen_cons in *; pose proof (zlen_nonneg rest); try lia.
  cbn [x86_map]. rewrite (IH fuel' (pos + 1) rest) by lia. rewrite (IH fuel' (pos + 5) (zdrop 4 rest)) by (rewrite zlen_drop; lia). done.
Qed.

(** Bytes before the next opcode are left alone. *)
Lemma x86_map_skip fuel f op : forall k pos data, 0 <= k <= zlen data -> zlen data <= Z.of_nat fuel ->
  (forall j, 0 <= j < k -> j < zlen data - 4 -> op (byte_at data j) = false) ->
  x86_map fuel f op pos data = ztake k data ++ x86_map fuel f op (pos + k) (zdrop k data).
Proof.
  intros k pos data Hk. assert (Hn : 0 <= k) by lia. revert pos data Hk. pattern k. apply natlike_ind; [|clear k Hn; intros k Hn IH|done].
  - intros pos data _ _ _. rewrite ztake_nat, zdrop_0, Z.add_0_r by lia. done.
  - intros pos data Hk Hf Hop. destruct data as [|b rest]; [change (zlen []) with 0 in Hk; lia|]. rewrite zlen_cons in *.
    destruct fuel as [|fuel]; [pose proof (zlen_nonneg rest); lia|]. cbn [x86_map]. rewrite zlen_cons.
    assert ((5 <=? 1 + zlen rest) && op b = false) as ->.
    { destruct (Z.leb_spec 5 (1 + zlen rest)); [|done]. specialize (Hop 0 ltac:(lia) ltac:(lia)). cbn in Hop. done. }
    rewrite (x86_map_fuel f op fuel (S fuel) (pos + 1) rest) by lia.
    rewrite (IH (pos + 1) rest) by (lia || intros j Hj Hj'; specialize (Hop (j + 1) ltac:(lia) ltac:(lia)); rewrite <- Hop; f_equal; unfold byte_at; by replace (Z.to_nat (j + 1)) with (S (Z.to_nat j)) by lia).
    rewrite (zdrop_cons (Z.succ k)) by lia. replace (Z.succ k - 1) with k by lia. replace (pos + Z.succ k) with (pos + 1 + k) by lia.
    rewrite (ztake_nat (Z.succ k)), (ztake_nat k) by lia. rewrite Z2Nat.inj_succ by lia. done.
Qed.

(** What the code does to an address, and what a compressor does. *)
Definition x86_decode (offset addr : Z) : Z :=
  if has addr 0x80000000 then if negb (has (wrap32 (addr + offset)) 0x80000000) then wrap32 (addr + FILE_SIZE) else addr
  else if has (wrap32 (addr - FILE_SIZE)) 0x80000000 then wrap32 (addr - offset) else addr.
(** A relative address becomes absolute when the target lies in the first
    sixteen megabytes; the targets behind it move to the negative range. *)
Definition x86_encode (offset rel : Z) : Z :=
  let a := if rel <? 2 ^ 31 then rel else rel - 2 ^ 32 in
  if (- offset <=? a) && (a <? FILE_SIZE - offset) then wrap32 (a + offset)
  else if (FILE_SIZE - offset <=? a) && (a <? FILE_SIZE) then wrap32 (a - FILE_SIZE)
  else rel.

Lemma has_sign a : 0 <= a < 2 ^ 32 -> has a 0x80000000 = (2 ^ 31 <=? a).
Proof.
  intros Ha. unfold has. change 0x80000000 with (2 ^ 31).
  assert (Hbit : Z.land a (2 ^ 31) = if Z.testbit a 31 then 2 ^ 31 else 0).
  { apply Z.bits_inj'. intros k Hk. rewrite Z.land_spec, Z.pow2_bits_eqb by lia.
    destruct (Z.eqb_spec 31 k) as [<-|Hne].
    - rewrite andb_true_r. destruct (Z.testbit a 31); [by rewrite Z.pow2_bits_true by lia | by rewrite Z.testbit_0_l].
    - rewrite andb_false_r. destruct (Z.testbit a 31); [by rewrite Z.pow2_bits_false by lia | by rewrite Z.testbit_0_l]. }
  rewrite Hbit. rewrite Z.testbit_eqb by lia. change (2 ^ 31) with 2147483648 in *. change (2 ^ 32) with 4294967296 in *.
  destruct (Z.leb_spec 2147483648 a).
  - assert (a / 2147483648 = 1) as -> by (symmetry; apply Z.div_unique with (r := a - 2147483648); lia). done.
  - rewrite Z.div_small by lia. done.
Qed.

Lemma x86_inverse offset rel : 0 <= offset <= 2 ^ 31 -> 0 <= rel < 2 ^ 32 ->
  0 <= x86_encode offset rel < 2 ^ 32 /\ x86_decode offset (x86_encode offset rel) = rel.
Proof.
  intros Ho Hr. assert (Hw : forall z, 0 <= wrap32 z < 2 ^ 32) by apply wrap32_range.
  assert (He : 0 <= x86_encode offset rel < 2 ^ 32) by (unfold x86_encode; destruct (_ && _); [done|]; by destruct (_ && _)).
  split; [done|]. unfold x86_decode. rewrite !has_sign by done. clear He. unfold x86_encode, FILE_SIZE, wrap32 in *. clear Hw.
  change (2 ^ 31) with 2147483648 in *. change (2 ^ 32) with 4294967296 in *. cbv zeta.
  set (a := if rel <? 2147483648 then rel else rel - 4294967296).
  assert (Ha : - 2147483648 <= a < 2147483648 /\ (a = rel \/ a = rel - 4294967296)) by (unfold a; destruct (Z.ltb_spec rel 2147483648); lia).
  clearbody a. destruct Ha as [Ha Hrel].
  destruct (Z.leb_spec (- offset) a), (Z.ltb_spec a (16777216 - offset)); cbn [andb].
  all: destruct (Z.leb_spec (16777216 - offset) a), (Z.ltb_spec a 16777216); cbn [andb]; try lia.
  all: repeat match goal with |- context [?x mod 4294967296] =>
    let r := fresh "r" in let E := fresh "E" in let B := fresh "B" in
    pose proof (Z.div_mod x 4294967296 ltac:(lia)) as E; pose proof (Z.mod_pos_bound x 4294967296 ltac:(lia)) as B;
    set (r := x mod 4294967296) in *; clearbody r end.
  all: repeat match goal with |- context [?x <=? ?y] => destruct (Z.leb_spec x y) end; cbn [negb]; try lia.
Qed.

Lemma address_offset_range mode a : 0 <= a -> (match mode with Rar5 f => 0 <= f /\ a + f < 2 ^ 64 | Rar4 f => 0 <= f /\ f + a < 2 ^ 31 end) ->
  exists o, address_offset mode a = Ok o /\ 0 <= o <= 2 ^ 31.
Proof.
  intros Ha Hf. destruct mode as [f|f]; cbn [address_offset].
  - rewrite add_u64_ok, bind_Ok by lia. eexists. split; [done|]. pose proof (Z.mod_pos_bound (wrap32 (a + f)) FILE_SIZE ltac:(done)). unfold FILE_SIZE in *. lia.
  - eexists. split; [done|]. unfold wrap32. rewrite (Z.mod_small a) by lia. rewrite Z.mod_small by lia. lia.
Qed.

Definition offset_of (mode : X86FilterOffsetMode) (a : Z) : Z :=
  match mode with Rar5 f => wrap32 (a + f) mod FILE_SIZE | Rar4 f => wrap32 (f + wrap32 a) end.
(** The block's addresses do not leave the width of the counter. *)
Definition offsets_fit (mode : X86FilterOffsetMode) (n : Z) : Prop :=
  match mode with Rar5 f => 0 <= f /\ n + f < 2 ^ 64 | Rar4 f => 0 <= f /\ f + n < 2 ^ 31 end.

Lemma offset_of_ok mode n a : offsets_fit mode n -> 0 <= a <= n -> address_offset mode a = Ok (offset_of mode a) /\ 0 <= offset_of mode a <= 2 ^ 31.
Proof.
  intros Hf Ha. destruct (address_offset_range mode a) as (o & Ho & Hr); [lia | destruct mode; cbn in *; lia |].
  destruct mode as [f|f]; cbn in *; [rewrite add_u64_ok, bind_Ok in Ho by lia|]; injection Ho as <-; split; try done. by rewrite add_u64_ok by lia.
Qed.

Lemma take_snoc (l : list byte) i : 0 <= i < zlen l -> ztake (i + 1) l = ztake i l ++ [byte_at l i].
Proof.
  intros Hi. rewrite !ztake_nat by lia. replace (Z.to_nat (i + 1)) with (S (Z.to_nat i)) by lia. unfold byte_at.
  apply take_S_r. rewrite nth_lookup. destruct (lookup_lt_is_Some_2 l (Z.to_nat i)) as (b & ->); [unfold zlen in Hi; lia | done].
Qed.
Lemma drop_at (l : list byte) i : 0 <= i < zlen l -> zdrop i l = byte_at l i :: zdrop (i + 1) l.
Proof.
  intros Hi. rewrite <- (ztake_zdrop (i + 1) l) at 1 by lia. rewrite take_snoc, <- app_assoc by lia.
  assert (Ht : zlen (ztake i l) = i) by (rewrite zlen_take; lia). rewrite <- Ht at 1. by rewrite zdrop_app_zlen.
Qed.

Lemma ztake_split i k (l : list byte) : 0 <= i -> 0 <= k -> ztake i l ++ ztake k (zdrop i l) = ztake (i + k) l.
Proof.
  intros Hi Hk. rewrite !ztake_nat, zdrop_nat by lia. rewrite Z2Nat.inj_add by done. apply take_take_drop.
Qed.
(** The two halves of a block behind a rewritten address. *)
Lemma splice_behind data p new : 0 <= p -> p + 5 <= zlen data -> zlen new = 4 ->
  ztake (p + 5) (splice data (p + 1) new) = ztake p data ++ byte_at data p :: new /\ zdrop (p + 5) (splice data (p + 1) new) = zdrop (p + 5) data.
Proof.
  intros Hp Hl Hn. unfold splice. rewrite Hn. replace (p + 1 + 4) with (p + 5) by lia. rewrite take_snoc by lia.
  rewrite (app_assoc _ new).
  assert (Hz : zlen ((ztake p data ++ [byte_at data p]) ++ new) = p + 5) by (rewrite !zlen_app, Hn, zlen_take by lia; change (zlen [_]) with 1; lia).
  split; [rewrite <- Hz at 1; rewrite ztake_app_zlen; by rewrite <- app_assoc | rewrite <- Hz at 1; by rewrite zdrop_app_zlen].
Qed.

Section x86_loop.
Context `{ByteSearchLaws} (mode : X86FilterOffsetMode) (include_e9 : bool).
Local Abbreviation decode := (fun p => x86_decode (offset_of mode p)).
Local Abbreviation op := (is_op include_e9).

Lemma search_ok rest : match (if include_e9 then memchr2 xe8 xe9 rest else memchr xe8 rest) with
  | Some k => 0 <= k < zlen rest /\ op (byte_at rest k) = true /\ forall j, 0 <= j < k -> op (byte_at rest j) = false
  | None => forall j, 0 <= j < zlen rest -> op (byte_at rest j) = false
  end.
Proof.
  unfold is_op. destruct include_e9; cbn [andb].
  - pose proof (memchr2_law xe8 xe9 rest) as Hl. destruct (memchr2 xe8 xe9 rest).
    + destruct Hl as (Hk & Hb & Hbefore). split; [done|]. split; [destruct Hb as [-> | ->]; done|].
      intros j Hj. destruct (Hbefore j Hj). by rewrite !bool_decide_eq_false_2.
    + intros j Hj. destruct (Hl j Hj). by rewrite !bool_decide_eq_false_2.
  - pose proof (memchr_law xe8 rest) as Hl. destruct (memchr xe8 rest).
    + destruct Hl as (Hk & Hb & Hbefore). split; [done|]. split; [by rewrite Hb|].
      intros j Hj. rewrite orb_false_r. apply bool_decide_eq_false_2. by apply Hbefore.
    + intros j Hj. rewrite orb_false_r. apply bool_decide_eq_false_2. by apply Hl.
Qed.

Lemma fix_address_ok data i : offsets_fit mode (zlen data) -> 0 <= i -> i + 5 <= zlen data ->
  fix_address mode data i = Ok (splice data (i + 1) (le_split 4 (decode (i + 1) (le_combine (ztake 4 (zdrop (i + 1) data)))))).
Proof.
  intros Hfit Hi Hl. unfold fix_address. rewrite slice_ok, bind_Ok by lia. replace (i + 5 - (i + 1)) with 4 by lia.
  destruct (offset_of_ok mode (zlen data) (i + 1) Hfit ltac:(lia)) as [-> _]. rewrite bind_Ok.
  set (field := ztake 4 (zdrop (i + 1) data)). assert (H4 : zlen field = 4) by (unfold field; rewrite zlen_take, zlen_drop; lia).
  assert (Hsame : splice data (i + 1) (le_split 4 (le_combine field)) = data).
  { assert (length field = 4%nat) as <- by (unfold zlen in H4; lia). rewrite le_split_combine. unfold splice. rewrite H4. unfold field.
    rewrite <- (zdrop_zdrop 4 (i + 1)), !ztake_zdrop by lia. done. }
  assert (Hput : forall v, copy_range (E := rar_error) data (i + 1) (i + 5) (le_split 4 v) = Ok (splice data (i + 1) (le_split 4 v))).
  { intros v. apply copy_range_splice; rewrite ?zlen_le_split; lia. }
  unfold x86_decode. destruct (has _ _); destruct (has _ _); cbn [negb]; rewrite ?Hput, ?Hsame; done.
Qed.

Lemma e8e9_loop_ok fuel : forall data i, offsets_fit mode (zlen data) -> 0 <= i -> Z.max 0 (zlen data - i) < Z.of_nat fuel -> i <= zlen data ->
  e8e9_loop fuel mode include_e9 (zlen data - 4) data i = Ok (ztake i data ++ x86_map (length data) decode op i (zdrop i data)).
Proof.
  induction fuel as [|fuel IH]; intros data i Hfit Hi Hf Hle; [lia|]. cbn [e8e9_loop].
  assert (Hd : zlen (zdrop i data) = zlen data - i) by (rewrite zlen_drop; lia).
  assert (Hall : (forall j, 0 <= j < zlen data - 4 - i -> op (byte_at (zdrop i data) j) = false) ->
    data = ztake i data ++ x86_map (length data) decode op i (zdrop i data)).
  { intros Hno. rewrite (x86_map_skip (length data) decode op (zlen data - i)); [| lia | unfold zlen in *; lia | intros j Hj Hj'; apply Hno; lia].
    rewrite (zdrop_ge (zlen data - i)), (ztake_all _ (zlen data - i)) by lia. destruct (length data); cbn [x86_map]; by rewrite app_nil_r, ztake_zdrop by lia. }
  destruct (Z.ltb_spec i (zlen data - 4)) as [Hlt|]; [|by rewrite <- Hall by (intros; lia)].
  rewrite slice_ok, bind_Ok by lia. set (rest := ztake (zlen data - 4 - i) (zdrop i data)).
  assert (Hr : zlen rest = zlen data - 4 - i) by (unfold rest; rewrite zlen_take; lia).
  assert (Hsame : forall j, 0 <= j < zlen data - 4 - i -> byte_at rest j = byte_at (zdrop i data) j) by (intros j Hj; apply byte_at_take; lia).
  pose proof (search_ok rest) as Hsearch. destruct (if include_e9 then _ else _) as [k|].
  2: { rewrite <- Hall; [done|]. intros j Hj. rewrite <- Hsame by lia. apply Hsearch. lia. }
  destruct Hsearch as (Hk & Hop & Hbefore). rewrite Hr in Hk. rewrite Hsame in Hop by lia. cbv zeta.
  set (p := i + k) in *. rewrite fix_address_ok, bind_Ok by (done || lia).
  set (new := le_split 4 (decode (p + 1) (le_combine (ztake 4 (zdrop (p + 1) data))))).
  assert (Hnew : zlen new = 4) by apply zlen_le_split.
  assert (Hs : zlen (splice data (p + 1) new) = zlen data) by (apply zlen_splice; lia).
  rewrite <- Hs at 1. rewrite IH by (rewrite ?Hs; done || lia). f_equal.
  assert (Hls : length (splice data (p + 1) new) = length data) by (unfold zlen in Hs; lia). rewrite Hls.
  destruct (splice_behind data p new ltac:(lia) ltac:(lia) Hnew) as [-> ->].
  assert (Hb : byte_at data p = byte_at (zdrop i data) k) by (rewrite byte_at_drop by lia; done).
  rewrite (x86_map_skip (length data) decode op k i (zdrop i data));
    [| lia | rewrite Hd; unfold zlen; lia | intros j Hj Hj'; rewrite <- Hsame by lia; apply Hbefore; lia].
  rewrite (app_assoc (ztake i data)), (ztake_split i k data), (zdrop_zdrop k i data) by lia. fold p. rewrite <- app_assoc. f_equal.
  assert (Hdp : zlen (zdrop (p + 1) data) = zlen data - (p + 1)) by (rewrite zlen_drop; lia).
  rewrite (x86_map_fuel decode op (length data) (S (length data)) p) by (rewrite zlen_drop by lia; unfold zlen; lia).
  rewrite (drop_at data p) by lia. cbn [x86_map].
  rewrite zlen_cons, Hdp, Hb, Hop, (proj2 (Z.leb_le 5 _)) by lia. cbn [andb app]. fold new.
  rewrite zdrop_zdrop by lia. replace (p + 1 + 4) with (p + 5) by lia. done.
Qed.

End x86_loop.

Lemma apply_e8e9_inner_ok `{ByteSearchLaws} mode include_e9 data : offsets_fit mode (zlen data) ->
  apply_e8e9_inner data mode include_e9 = Ok (x86_map (length data) (fun p => x86_decode (offset_of mode p)) (is_op include_e9) 0 data).
Proof.
  intros Hfit. unfold apply_e8e9_inner. destruct (Z.ltb_spec (zlen data) 5) as [Hs|Hl].
  - rewrite (x86_map_skip _ _ _ (zlen data)) by (unfold zlen in *; lia). rewrite (zdrop_ge (zlen data)), (ztake_all data (zlen data)) by lia.
    destruct (length data); cbn [x86_map]; by rewrite app_nil_r.
  - rewrite e8e9_loop_ok by (try done; unfold zlen in *; lia). rewrite ztake_nat, zdrop_0 by lia. done.
Qed.

(** The compressor's pass over a block. *)
Definition x86_encode_block (mode : X86FilterOffsetMode) (include_e9 : bool) (data : list byte) : list byte :=
  x86_map (length data) (fun p => x86_encode (offset_of mode p)) (is_op include_e9) 0 data.

(** The encoder's map meets only the addresses inside the block. *)
Lemma x86_map_ext fuel f g op n : forall pos data, 0 <= pos -> pos + zlen data <= n ->
  (forall p a, 0 <= p <= n -> f p a = g p a) -> x86_map fuel f op pos data = x86_map fuel g op pos data.
Proof.
  induction fuel as [|fuel IH]; intros pos [|b rest] Hp Hn He; try done. rewrite zlen_cons in Hn. cbn [x86_map]. pose proof (zlen_nonneg rest).
  destruct (Z.leb_spec 5 (zlen (b :: rest))) as [Hl|]; cbn [andb].
  - rewrite zlen_cons in Hl. rewrite (He (pos + 1)), (IH (pos + 5)), (IH (pos + 1)) by (rewrite ?zlen_drop; done || lia). done.
  - by rewrite (IH (pos + 1)) by (done || lia).
Qed.

Lemma x86_undone `{ByteSearchLaws} mode include_e9 data : offsets_fit mode (zlen data) ->
  apply_e8e9_inner (x86_encode_block mode include_e9 data) mode include_e9 = Ok data.
Proof.
  intros Hfit. unfold x86_encode_block.
  assert (Hlen := zlen_x86_map (length data) (fun p => x86_encode (offset_of mode p)) (is_op include_e9) 0 data).
  rewrite apply_e8e9_inner_ok by (by rewrite Hlen). f_equal.
  assert (length (x86_map (length data) (fun p => x86_encode (offset_of mode p)) (is_op include_e9) 0 data) = length data) as -> by (unfold zlen in Hlen; lia).
  set (clip := fun p => Z.max 0 (Z.min (zlen data) p)).
  assert (Hclip : forall F : Z -> Z -> Z, forall p a, 0 <= p <= zlen data -> F (offset_of mode p) a = F (offset_of mode (clip p)) a).
  { intros F p a Hp. unfold clip. by rewrite Z.min_r, Z.max_r by lia. }
  rewrite (x86_map_ext _ (fun p => x86_encode (offset_of mode p)) (fun p => x86_encode (offset_of mode (clip p))) _ (zlen data)) by (lia || intros; by apply Hclip).
  rewrite (x86_map_ext _ (fun p => x86_decode (offset_of mode p)) (fun p => x86_decode (offset_of mode (clip p))) _ (zlen data)) by (rewrite ?zlen_x86_map; lia || intros; by apply Hclip).
  apply x86_map_inverse. intros p a Ha. apply x86_inverse; [|done].
  pose proof (zlen_nonneg data). apply (offset_of_ok mode (zlen data) (clip p) Hfit). unfold clip. lia.
Qed.

(** * ARM *)

(** Rewriting the branch-and-link words of a block. *)
Fixpoint arm_map (f : Z -> Z -> Z) (pos : Z) (data : list byte) : list byte :=
  match data with
  | b0 :: b1 :: b2 :: op :: rest =>
    (if u8 op =? 0xEB then le_split 3 (f pos (le_combine [b0; b1; b2])) else [b0; b1; b2]) ++ op :: arm_map f (pos + 4) rest
  | _ => data
  end.
Definition arm_pos (file_offset pos : Z) : Z := wrap32 (wrap32 file_offset + wrap32 pos) / 4.
Definition arm_decode (file_offset pos v : Z) : Z := (v - arm_pos file_offset pos) mod 2 ^ 24.
Definition arm_encode (file_offset : Z) (data : list byte) : list byte :=
  arm_map (fun pos v => (v + arm_pos file_offset pos) mod 2 ^ 24) 0 data.

Lemma le3_eq (l : list byte) v : zlen l = 3 -> 0 <= v < 2 ^ 24 -> le_combine l = v -> le_split 3 v = l.
Proof.
  intros Hl _ <-. replace 3%nat with (length l) by (unfold zlen in Hl; lia). apply le_split_combine.
Qed.

Lemma arm_map_inverse f g : (forall p v, 0 <= v < 2 ^ 24 -> 0 <= g p v < 2 ^ 24 /\ f p (g p v) = v) ->
  forall n pos data, (length data <= n)%nat -> arm_map f pos (arm_map g pos data) = data.
Proof.
  intros Hinv. induction n as [|n IH]; intros pos data Hn; [destruct data; [done | cbn in Hn; lia]|].
  destruct data as [|b0 [|b1 [|b2 [|op rest]]]]; try done. cbn [arm_map]. cbn in Hn.
  destruct (u8 op =? 0xEB) eqn:E.
  - pose proof (le_combine_range [b0; b1; b2]) as Hr. change (zlen [b0; b1; b2]) with 3 in Hr.
    destruct (Hinv pos _ Hr) as [Hv Hf]. set (v := g pos (le_combine [b0; b1; b2])) in *.
    pose proof (le_combine_split 3 v) as Hc. change (256 ^ Z.of_nat 3) with (2 ^ 24) in Hc. rewrite Z.mod_small in Hc by done.
    destruct (le_split 3 v) as [|c0 [|c1 [|c2 [|]]]] eqn:Es; try done. cbn [app arm_map]. rewrite E, Hc, Hf.
    rewrite (IH (pos + 4) rest) by lia. by rewrite (le3_eq [b0; b1; b2]).
  - cbn [app arm_map]. rewrite E. by rewrite (IH (pos + 4) rest) by lia.
Qed.
Lemma zlen_arm_map f : forall n pos data, (length data <= n)%nat -> zlen (arm_map f pos data) = zlen data.
Proof.
  induction n as [|n IH]; intros pos data Hn; [destruct data; [done | cbn in Hn; lia]|].
  destruct data as [|b0 [|b1 [|b2 [|op rest]]]]; try done. cbn [arm_map]. cbn in Hn.
  destruct (u8 op =? 0xEB); rewrite zlen_app, ?zlen_le_split, !zlen_cons, (IH (pos + 4) rest) by lia; [lia|]. change (zlen []) with 0. lia.
Qed.

Lemma splice_one (l m : list byte) x y : splice (l ++ x :: m) (zlen l) [y] = (l ++ [y]) ++ m.
Proof.
  unfold splice. rewrite ztake_app_zlen. change (zlen [y]) with 1.
  rewrite zdrop_app_ge by lia. replace (zlen l + 1 - zlen l) with 1 by lia. rewrite zdrop_cons, zdrop_0 by lia. by rewrite <- app_assoc.
Qed.
Lemma store_one (l m : list byte) x y i : i = zlen l -> store (l ++ x :: m) i [y] = Ok ((l ++ [y]) ++ m).
Proof.
  intros ->. pose proof (zlen_nonneg l). pose proof (zlen_nonneg m). rewrite store_ok, splice_one; [done | done |].
  rewrite zlen_app, (zlen_cons x). change (zlen [y]) with 1. lia.
Qed.
Lemma index_behind {E} (l m : list byte) i k b : i = zlen l + Z.of_nat k -> m !! k = Some b -> index (E := E) (l ++ m) i = Ok b.
Proof.
  intros -> Hk. pose proof (zlen_nonneg l). assert (k < length m)%nat by (eapply lookup_lt_Some; eassumption).
  rewrite index_at by (rewrite zlen_app; unfold zlen in *; lia). unfold byte_at. rewrite nth_lookup, lookup_app_r by (unfold zlen; lia).
  replace (Z.to_nat (zlen l + Z.of_nat k) - length l)%nat with k by (unfold zlen; lia). by rewrite Hk.
Qed.

Lemma arm_offset b0 b1 b2 : Z.lor (Z.lor (u8 b0) (Z.shiftl (u8 b1) 8)) (Z.shiftl (u8 b2) 16) = le_combine [b0; b1; b2].
Proof.
  pose proof (u8_range b0). pose proof (u8_range b1).
  rewrite (lor_shiftl_add (u8 b0)), lor_shiftl_add by (change (2 ^ 8) with 256; change (2 ^ 16) with 65536; lia). cbn [le_combine].
  change (2 ^ 8) with 256. change (2 ^ 16) with 65536. lia.
Qed.
Lemma arm_relative v c : Z.land (wrap32 (v - c)) 0x00FFFFFF = (v - c) mod 2 ^ 24.
Proof.
  change 0x00FFFFFF with (Z.ones 24). rewrite Z.land_ones by lia. unfold wrap32.
  change (2 ^ 32) with (2 ^ 24 * 256). rewrite Z.rem_mul_r by lia. rewrite Z.mul_comm, Z.mod_add, Z.mod_mod by done. done.
Qed.

Lemma arm_loop_ok file_offset fuel : forall l m, (length m < fuel)%nat ->
  arm_loop fuel file_offset (l ++ m) (zlen l) = Ok (l ++ arm_map (arm_decode file_offset) (zlen l) m).
Proof.
  induction fuel as [|fuel IH]; intros l m Hf; [lia|]. cbn [arm_loop].
  destruct m as [|b0 [|b1 [|b2 [|op rest]]]]; try (rewrite zlen_app; match goal with |- context [?a <? ?b] => destruct (Z.ltb_spec a b) as [Hlt|] end;
    [rewrite ?zlen_cons in Hlt; change (zlen []) with 0 in Hlt; lia | done]).
  rewrite (proj2 (Z.ltb_lt (zlen l + 3) _)) by (rewrite zlen_app, !zlen_cons; pose proof (zlen_nonneg rest); lia).
  rewrite (index_behind l _ (zlen l + 3) 3 op), bind_Ok by (done || lia). cbn [arm_map]. cbn in Hf.
  destruct (u8 op =? 0xEB).
  - rewrite (index_behind l _ (zlen l) 0 b0), (index_behind l _ (zlen l + 1) 1 b1), (index_behind l _ (zlen l + 2) 2 b2), !bind_Ok by (done || lia). cbv zeta.
    rewrite arm_offset, arm_relative. fold (arm_pos file_offset (zlen l)). fold (arm_decode file_offset (zlen l) (le_combine [b0; b1; b2])).
    set (v := arm_decode file_offset (zlen l) (le_combine [b0; b1; b2])). rewrite !Z.shiftr_div_pow2 by lia.
    rewrite store_one, bind_Ok by done. rewrite store_one, bind_Ok by (rewrite zlen_app; change (zlen [_]) with 1; lia).
    rewrite store_one, bind_Ok by (rewrite !zlen_app; change (zlen [_]) with 1; lia).
    set (l' := ((l ++ [_]) ++ [_]) ++ [_]).
    change (l' ++ op :: rest) with (l' ++ [op] ++ rest). rewrite app_assoc.
    replace (zlen l + 4) with (zlen (l' ++ [op])) by (unfold l'; rewrite !zlen_app; change (zlen [_]) with 1; lia).
    rewrite IH by lia. f_equal. unfold l'. rewrite <- !app_assoc. cbn [le_split app]. do 4 f_equal. by rewrite Z.div_div by lia.
  - rewrite bind_Ok. replace (l ++ b0 :: b1 :: b2 :: op :: rest) with ((l ++ [b0; b1; b2; op]) ++ rest) by (by rewrite <- app_assoc).
    replace (zlen l + 4) with (zlen (l ++ [b0; b1; b2; op])) by (rewrite zlen_app; done).
    rewrite IH by lia. by rewrite <- app_assoc.
Qed.

Lemma arm_undone file_offset data : apply_arm (arm_encode file_offset data) file_offset = Ok data.
Proof.
  assert (Hok : apply_arm (arm_encode file_offset data) file_offset = Ok (arm_map (arm_decode file_offset) 0 (arm_encode file_offset data))).
  { unfold apply_arm. destruct (Z.ltb_spec (zlen (arm_encode file_offset data)) 4) as [Hs|_]; [|exact (arm_loop_ok file_offset _ [] _ (Nat.lt_succ_diag_r _))].
    destruct (arm_encode file_offset data) as [|b0 [|b1 [|b2 [|op rest]]]]; try done. rewrite !zlen_cons in Hs. pose proof (zlen_nonneg rest). lia. }
  rewrite Hok. f_equal. unfold arm_encode. eapply arm_map_inverse; [|done].
  intros p v Hv. split; [by apply Z.mod_pos_bound|]. unfold arm_decode. rewrite Zminus_mod_idemp_l.
  replace (v + arm_pos file_offset p - arm_pos file_offset p) with v by lia. by apply Z.mod_small.
Qed.

(** * The queue *)

Definition starts_before (a b : PendingFilter) : Prop := block_start a <= block_start b.

Lemma rposition_none {A} (test : A -> bool) l : (forall x, x ∈ l -> test x = false) -> rposition test l = None.
Proof.
  induction l as [|x l IH]; intros Hall; [done|]. cbn [rposition]. rewrite IH by (intros y Hy; apply Hall; by right). rewrite Hall by left. done.
Qed.
Lemma rposition_lt {A} (test : A -> bool) l i : rposition test l = Some i -> (i < length l)%nat.
Proof.
  revert i. induction l as [|x l IH]; intros i Hi; [done|]. cbn [rposition length] in *.
  destruct (rposition test l) as [j|]; [injection Hi as <-; specialize (IH j eq_refl); lia|]. destruct (test x); [injection Hi as <-; lia | done].
Qed.

(** Insertion behind the descriptors that start no later. *)
Fixpoint insert_filter (f : PendingFilter) (l : list PendingFilter) : list PendingFilter :=
  match l with [] => [f] | x :: l => if block_start x <=? block_start f then x :: insert_filter f l else f :: x :: l end.

Lemma push_unfold l f : push_pending_filter l f =
  let k := match rposition (fun pending => block_start pending <=? block_start f) l with Some index => S index | None => 0%nat end in
  take k l ++ f :: drop k l.
Proof.
  unfold push_pending_filter. cbv zeta. destruct (rposition _ l) as [i|] eqn:E.
  - destruct (Nat.eqb_spec (S i) (length l)) as [->|]; [|done]. by rewrite firstn_all, skipn_all.
  - destruct l; done.
Qed.

Lemma push_inserts l f : StronglySorted starts_before l -> push_pending_filter l f = insert_filter f l.
Proof.
  induction l as [|x l IH]; intros Hs; [done|]. apply StronglySorted_inv in Hs as [Hs Hx]. specialize (IH Hs).
  rewrite push_unfold in *. cbn [rposition insert_filter]. cbv zeta in *. destruct (Z.leb_spec (block_start x) (block_start f)) as [Hle|Hlt].
  - rewrite <- IH. destruct (rposition _ l); done.
  - rewrite rposition_none; [done|]. intros y Hy. rewrite list.Forall_forall in Hx. specialize (Hx y Hy). unfold starts_before in Hx. by apply Z.leb_gt; lia.
Qed.

Lemma insert_filter_spec f l : StronglySorted starts_before l ->
  StronglySorted starts_before (insert_filter f l) /\ insert_filter f l ≡ₚ f :: l /\
  forall s, filter (fun x => block_start x = s) (insert_filter f l) = filter (fun x => block_start x = s) (l ++ [f]).
Proof.
  induction l as [|x l IH]; intros Hs.
  { split; [by repeat constructor|]. done. }
  apply StronglySorted_inv in Hs as [Hs Hx]. destruct (IH Hs) as (Hsorted & Hperm & Hstable). cbn [insert_filter].
  destruct (Z.leb_spec (block_start x) (block_start f)) as [Hle|Hlt].
  - split; [|split].
    + constructor; [done|]. rewrite Hperm. by constructor.
    + rewrite Hperm. apply Permutation_swap.
    + intros s. cbn [app]. rewrite !list.filter_cons, Hstable. done.
  - split; [|split]; [|done|].
    + constructor; [by constructor|]. constructor; [unfold starts_before; lia|].
      eapply list.Forall_impl; [exact Hx|]. intros y Hy. unfold starts_before in *. lia.
    + intros s. change (f :: x :: l) with ([f] ++ x :: l). rewrite !(list.filter_app (fun y => block_start y = s)), (list.filter_singleton _ f []).
      destruct (decide (block_start f = s)) as [E|]; [|by rewrite app_nil_r].
      destruct (filter (fun y => block_start y = s) (x :: l)) as [|y r] eqn:Er; [done|].
      assert (Hy : y ∈ filter (fun y => block_start y = s) (x :: l)) by (rewrite Er; left).
      apply list_elem_of_filter in Hy as [Hy1 Hy]. apply list.elem_of_cons in Hy as [->|Hy]; [lia|].
      rewrite list.Forall_forall in Hx. specialize (Hx y Hy). unfold starts_before in Hx. lia.
Qed.

(** * The properties *)

(** C20: each filter undoes its encoder, for every block: DELTA on any number of
    channels, the x86 filters of both archive versions as long as the
    addresses of the block fit the counter, and ARM anywhere. *)
Theorem filters_undo_their_encoders `{ByteSearchLaws} data :
  (forall channels, 0 < channels -> apply_delta (delta_encode data channels) channels = Ok data /\ zlen (delta_encode data channels) = zlen data) /\
  (forall file_offset, offsets_fit (Rar5 file_offset) (zlen data) ->
     apply_e8 (x86_encode_block (Rar5 file_offset) false data) file_offset = Ok data /\
     apply_e8e9 (x86_encode_block (Rar5 file_offset) true data) file_offset = Ok data) /\
  (forall file_offset, offsets_fit (Rar4 file_offset) (zlen data) ->
     apply_rar4_e8 (x86_encode_block (Rar4 file_offset) false data) file_offset = Ok data /\
     apply_rar4_e8e9 (x86_encode_block (Rar4 file_offset) true data) file_offset = Ok data) /\
  (forall file_offset, apply_arm (arm_encode file_offset data) file_offset = Ok data).
Proof.
  split; [intros ch Hch; split; [by apply apply_delta_encode | by apply zlen_delta_encode]|].
  split; [intros o Ho; split; by apply x86_undone|]. split; [intros o Ho; split; by apply x86_undone|]. intros o. apply arm_undone.
Qed.

(** The queue of descriptors, filled in the order of arrival, is the stable
    sort of the descriptors by the start of their blocks. *)
Theorem queue_is_stable_sort (arrivals : list PendingFilter) :
  let queue := fold_left push_pending_filter arrivals [] in
  StronglySorted starts_before queue /\ queue ≡ₚ arrivals /\
  forall start, filter (fun f => block_start f = start) queue = filter (fun f => block_start f = start) arrivals.
Proof.
  cbv zeta. induction arrivals as [|f arrivals (Hs & Hp & Hst)] using rev_ind; [done + (split; [constructor | done])|].
  rewrite fold_left_app. cbn [fold_left]. rewrite push_inserts by done.
  destruct (insert_filter_spec f _ Hs) as (Hs' & Hp' & Hst'). split; [done|]. split.
  - rewrite Hp', Hp. apply Permutation_cons_append.
  - intros s. rewrite Hst', !list.filter_app, Hst. done.
Qed.

(** A search that scans the bytes in order. *)
Fixpoint scan_byte (test : byte -> bool) (l : list byte) : option Z :=
  match l with [] => None | b :: l => if test b then Some 0 else Z.succ <$> scan_byte test l end.

Lemma scan_byte_spec test l : match scan_byte test l with
  | Some i => 0 <= i < zlen l /\ test (byte_at l i) = true /\ forall j, 0 <= j < i -> test (byte_at l j) = false
  | None => forall j, 0 <= j < zlen l -> test (byte_at l j) = false
  end.
Proof.
  assert (Hbehind : forall b (l : list byte) i, 0 <= i -> byte_at (b :: l) (Z.succ i) = byte_at l i).
  { intros b k i Hi. unfold byte_at. by rewrite Z2Nat.inj_succ. }
  induction l as [|b l IH]; cbn [scan_byte]; [change (zlen []) with 0; lia|]. rewrite zlen_cons. pose proof (zlen_nonneg l).
  destruct (test b) eqn:E; [split; [lia|]; split; [done | lia]|].
  assert (Hhead : forall j, 0 <= j -> (0 < j -> test (byte_at l (j - 1)) = false) -> test (byte_at (b :: l) j) = false).
  { intros j Hj Hl. destruct (Z.eq_dec j 0) as [->|]; [done|]. replace j with (Z.succ (j - 1)) by lia. rewrite Hbehind by lia. apply Hl. lia. }
  destruct (scan_byte test l) as [i|]; cbn -[Z.succ byte_at zlen].
  - destruct IH as (Hi & Ht & Hbefore). rewrite Hbehind by lia. split; [lia|]. split; [done|]. intros j Hj. apply Hhead; [lia|]. intros. apply Hbefore. lia.
  - intros j Hj. apply Hhead; [lia|]. intros. apply IH. lia.
Qed.

#[export] Instance scanning : ByteSearch :=
  {| memchr := fun a => scan_byte (fun x => bool_decide (x = a)); memchr2 := fun a b => scan_byte (fun x => bool_decide (x = a \/ x = b)) |}.
#[export] Instance scanning_laws : ByteSearchLaws.
Proof.
  split.
  - intros b l. pose proof (scan_byte_spec (fun x => bool_decide (x = b)) l) as Hs. cbn. destruct (scan_byte _ l).
    + destruct Hs as (Hi & Ht & Hb). split; [done|]. split; [by apply bool_decide_eq_true in Ht|]. intros j Hj. by apply (bool_decide_eq_false _), Hb.
    + intros j Hj. by apply (bool_decide_eq_false _), Hs.
  - intros a b l. pose proof (scan_byte_spec (fun x => bool_decide (x = a \/ x = b)) l) as Hs. cbn. destruct (scan_byte _ l).
    + destruct Hs as (Hi & Ht & Hb). split; [done|]. split; [by apply bool_decide_eq_true in Ht|].
      intros j Hj. specialize (Hb j Hj). apply bool_decide_eq_false in Hb. tauto.
    + intros j Hj. specialize (Hs j Hj). apply bool_decide_eq_false in Hs. tauto.
Defined.

Lemma filters_undo_their_encoders_witness :
  let data := byte_of <$> [0xE8; 0x10; 0; 0; 0; 0xE9; 0xF0; 0xFF; 0xFF; 0xFF; 0x90; 0xEB] in
  x86_encode_block (Rar5 100) true data <> data /\ apply_e8e9 (x86_encode_block (Rar5 100) true data) 100 = Ok data /\
  apply_rar4_e8 (x86_encode_block (Rar4 100) false data) 100 = Ok data /\
  apply_arm (arm_encode 100 data) 100 = Ok data /\ apply_delta (delta_encode data 3) 3 = Ok data.
Proof.
  intros data. pose proof (filters_undo_their_encoders data) as (Hd & H5 & H4 & Ha).
  split; [vm_compute; discriminate|]. split; [apply (H5 100); vm_compute; split; [discriminate | done]|].
  split; [apply (H4 100); vm_compute; split; [discriminate | done]|]. split; [apply Ha | apply (Hd 3); done].
Defined.
