(* ===== verification/LzDecoder.v ===== *)
(** The sequential RAR5 LZ decoder (decompress/lz/mod.rs): block headers, the
    symbol loop over any bit reader, match lengths and distances, filter
    descriptors, the write border and the flush of filtered output, and the
    entry points that decode a member on one thread. *)
From S2P Require Import Prelude RarTypes StateM LzBits LzBitReader LzStreamReader LzHuffman LzTables LzWindow LzFilter.

Definition NUM_LENGTH_SLOTS : Z := 44.
Definition EMPTY_MEMBER_TABLE_READ_LIMIT : Z := 0x8000.
Definition MAX_PENDING_FILTERS : Z := 8192.
Definition MAX_FILTER_BLOCK_SIZE : Z := 0x400000.
Definition UNPACK_MAX_WRITE : Z := 0x400000.
Definition STREAMING_LARGE_BLOCK_BYTES : Z := 0x20000.
Definition MAX_INCREMENTAL_LZ_MATCH : Z := 0x1004.
Definition USIZE_MAX : Z := 2 ^ 64 - 1.

(** [as i64] of a [usize], and checked arithmetic on [i64]. *)
Definition as_i64 (z : Z) : Z := if z <? 2 ^ 63 then z else z - 2 ^ 64.
Definition i64 {E} (z : Z) : outcome E Z := if (- 2 ^ 63 <=? z) && (z <=? I64_MAX) then Ok z else Panic.

Module LzDecoder.
(** The recycled buffers of the parallel and staged paths carry no meaning and
    are left out. *)
Record t := mk {
  window : Window.t;
  dist_cache : list Z;
  last_length : Z;
  nc_table : option HuffmanTable.t;
  dc_table : option HuffmanTable.t;
  ldc_table : option HuffmanTable.t;
  rc_table : option HuffmanTable.t;
  code_lengths : list Z;
  extra_dist : bool;
  block_bits_remaining : Z;
  is_last_block : bool;
  pending_filters : list PendingFilter;
  flush_at : Z;
  current_file_base_total : Z;
  current_file_written_size : Z;
  current_file_emitted : Z;
  current_file_unpacked_size : Z;
  parallel_mode_exhausted : bool }.

Definition set_window (v : Window.t) (d : t) : t :=
  mk v (dist_cache d) (last_length d) (nc_table d) (dc_table d) (ldc_table d) (rc_table d) (code_lengths d) (extra_dist d) (block_bits_remaining d) (is_last_block d) (pending_filters d) (flush_at d) (current_file_base_total d) (current_file_written_size d) (current_file_emitted d) (current_file_unpacked_size d) (parallel_mode_exhausted d).
Definition set_dist_cache (v : list Z) (d : t) : t :=
  mk (window d) v (last_length d) (nc_table d) (dc_table d) (ldc_table d) (rc_table d) (code_lengths d) (extra_dist d) (block_bits_remaining d) (is_last_block d) (pending_filters d) (flush_at d) (current_file_base_total d) (current_file_written_size d) (current_file_emitted d) (current_file_unpacked_size d) (parallel_mode_exhausted d).
Definition set_last_length (v : Z) (d : t) : t :=
  mk (window d) (dist_cache d) v (nc_table d) (dc_table d) (ldc_table d) (rc_table d) (code_lengths d) (extra_dist d) (block_bits_remaining d) (is_last_block d) (pending_filters d) (flush_at d) (current_file_base_total d) (current_file_written_size d) (current_file_emitted d) (current_file_unpacked_size d) (parallel_mode_exhausted d).
Definition set_tables (nc dc ldc rc : option HuffmanTable.t) (d : t) : t :=
  mk (window d) (dist_cache d) (last_length d) nc dc ldc rc (code_lengths d) (extra_dist d) (block_bits_remaining d) (is_last_block d) (pending_filters d) (flush_at d) (current_file_base_total d) (current_file_written_size d) (current_file_emitted d) (current_file_unpacked_size d) (parallel_mode_exhausted d).
Definition set_code_lengths (v : list Z) (d : t) : t :=
  mk (window d) (dist_cache d) (last_length d) (nc_table d) (dc_table d) (ldc_table d) (rc_table d) v (extra_dist d) (block_bits_remaining d) (is_last_block d) (pending_filters d) (flush_at d) (current_file_base_total d) (current_file_written_size d) (current_file_emitted d) (current_file_unpacked_size d) (parallel_mode_exhausted d).
Definition set_extra_dist (v : bool) (d : t) : t :=
  mk (window d) (dist_cache d) (last_length d) (nc_table d) (dc_table d) (ldc_table d) (rc_table d) (code_lengths d) v (block_bits_remaining d) (is_last_block d) (pending_filters d) (flush_at d) (current_file_base_total d) (current_file_written_size d) (current_file_emitted d) (current_file_unpacked_size d) (parallel_mode_exhausted d).
Definition set_block_bits (v : Z) (d : t) : t :=
  mk (window d) (dist_cache d) (last_length d) (nc_table d) (dc_table d) (ldc_table d) (rc_table d) (code_lengths d) (extra_dist d) v (is_last_block d) (pending_filters d) (flush_at d) (current_file_base_total d) (current_file_written_size d) (current_file_emitted d) (current_file_unpacked_size d) (parallel_mode_exhausted d).
Definition set_last_block (v : bool) (d : t) : t :=
  mk (window d) (dist_cache d) (last_length d) (nc_table d) (dc_table d) (ldc_table d) (rc_table d) (code_lengths d) (extra_dist d) (block_bits_remaining d) v (pending_filters d) (flush_at d) (current_file_base_total d) (current_file_written_size d) (current_file_emitted d) (current_file_unpacked_size d) (parallel_mode_exhausted d).
Definition set_filters (v : list PendingFilter) (d : t) : t :=
  mk (window d) (dist_cache d) (last_length d) (nc_table d) (dc_table d) (ldc_table d) (rc_table d) (code_lengths d) (extra_dist d) (block_bits_remaining d) (is_last_block d) v (flush_at d) (current_file_base_total d) (current_file_written_size d) (current_file_emitted d) (current_file_unpacked_size d) (parallel_mode_exhausted d).
Definition set_flush_at (v : Z) (d : t) : t :=
  mk (window d) (dist_cache d) (last_length d) (nc_table d) (dc_table d) (ldc_table d) (rc_table d) (code_lengths d) (extra_dist d) (block_bits_remaining d) (is_last_block d) (pending_filters d) v (current_file_base_total d) (current_file_written_size d) (current_file_emitted d) (current_file_unpacked_size d) (parallel_mode_exhausted d).
Definition set_file (base written emitted unpacked : Z) (d : t) : t :=
  mk (window d) (dist_cache d) (last_length d) (nc_table d) (dc_table d) (ldc_table d) (rc_table d) (code_lengths d) (extra_dist d) (block_bits_remaining d) (is_last_block d) (pending_filters d) (flush_at d) base written emitted unpacked (parallel_mode_exhausted d).
Definition set_exhausted (v : bool) (d : t) : t :=
  mk (window d) (dist_cache d) (last_length d) (nc_table d) (dc_table d) (ldc_table d) (rc_table d) (code_lengths d) (extra_dist d) (block_bits_remaining d) (is_last_block d) (pending_filters d) (flush_at d) (current_file_base_total d) (current_file_written_size d) (current_file_emitted d) (current_file_unpacked_size d) v.

(** * Construction and the write border *)

Definition extra_dist_for_version (version : Z) : result bool :=
  match version with 0 => Ok false | 1 => Ok true | _ => Err (UnsupportedCompression 0 version) end.

(** [Ord::clamp(1, UNPACK_MAX_WRITE)]. *)
Definition flush_threshold (self : t) : Z := Z.min (Z.max (Window.dict_size (window self)) 1) UNPACK_MAX_WRITE.

Definition flush_border (total_written total_flushed dict_size write_span : Z) : Z :=
  let write_border := sat_add_u64 total_written write_span in
  let window_border := sat_add_u64 total_flushed dict_size in
  sat_sub_u64 (Z.min write_border window_border) MAX_INCREMENTAL_LZ_MATCH.

Definition recompute_flush_border (self : t) : t :=
  set_flush_at (flush_border (Window.total_written (window self)) (Window.total_flushed (window self))
    (Window.dict_size (window self)) (flush_threshold self)) self.

Definition no_distances : list Z := [USIZE_MAX; USIZE_MAX; USIZE_MAX; USIZE_MAX].

Definition try_new `{ZeroedAlloc} (dict_size version : Z) : result t :=
  extra_dist ← extra_dist_for_version version;
  let total_symbols := total_symbols extra_dist in
  window ← Window.try_new dict_size;
  mret (recompute_flush_border (mk window no_distances 0 None None None None (HuffmanTable.zeros total_symbols) extra_dist 0 false [] 0 0 0 0 USIZE_MAX false)).

Definition begin_file_decode (unpacked_size : Z) (self : t) : result t :=
  let self := set_filters [] (set_last_block false self) in
  let base := Window.total_written (window self) in
  let self := set_file base 0 0 unpacked_size self in
  window ← Window.mark_flushed base (window self);
  mret (recompute_flush_border (set_exhausted false (set_window window self))).

(** * The last distances *)

Definition insert_old_dist (distance : Z) (self : t) : result t :=
  d2 ← at_ (dist_cache self) 2;
  cache ← put (dist_cache self) 3 d2;
  d1 ← at_ cache 1;
  cache ← put cache 2 d1;
  d0 ← at_ cache 0;
  cache ← put cache 1 d0;
  cache ← put cache 0 distance;
  mret (set_dist_cache cache self).

Definition promote_old_dist (cache_idx : Z) (self : t) : result (Z * t) :=
  let cache := dist_cache self in
  distance ← at_ cache cache_idx;
  if 0 <? cache_idx then
    cache ← (if cache_idx =? 1 then d0 ← at_ cache 0; put cache 1 d0
             else if cache_idx =? 2 then
               d1 ← at_ cache 1; cache ← put cache 2 d1; d0 ← at_ cache 0; put cache 1 d0
             else
               d2 ← at_ cache 2; cache ← put cache 3 d2;
               d1 ← at_ cache 1; cache ← put cache 2 d1; d0 ← at_ cache 0; put cache 1 d0);
    cache ← put cache 0 distance;
    mret (distance, set_dist_cache cache self)
  else mret (distance, self).

(** * Between members *)

(** What [reset], [prepare_reuse] and [prepare_solid_continuation] share. *)
Definition clear_file_state (base : Z) (self : t) : t :=
  recompute_flush_border (set_exhausted false
    (set_file base 0 (current_file_emitted self) (current_file_unpacked_size self)
      (set_filters [] (set_last_block false (set_block_bits 0 self))))).

Definition reset (self : t) : t :=
  clear_file_state 0 (set_code_lengths (HuffmanTable.zeros (zlen (code_lengths self)))
    (set_tables None None None None (set_last_length 0 (set_dist_cache no_distances (set_window (Window.reset (window self)) self))))).

Definition prepare_solid_continuation (self : t) : t := clear_file_state (Window.total_written (window self)) self.

Definition ensure_solid_member_compat (dict_size version : Z) (self : t) : result t :=
  if Window.dict_size (window self) <? dict_size then Err CorruptArchive
  else
    extra ← extra_dist_for_version version;
    if negb (Bool.eqb extra (extra_dist self)) then mret (set_code_lengths (HuffmanTable.zeros (total_symbols extra)) (set_extra_dist extra self))
    else mret self.

Definition prepare_reuse `{ZeroedAlloc} (dict_size version : Z) (self : t) : result t :=
  extra ← extra_dist_for_version version;
  window ← Window.reset_for_reuse dict_size (window self);
  let self := set_window window self in
  let self := if Bool.eqb extra (extra_dist self) then set_code_lengths (HuffmanTable.zeros (zlen (code_lengths self))) self
              else set_code_lengths (HuffmanTable.zeros (total_symbols extra)) (set_extra_dist extra self) in
  mret (clear_file_state 0 (set_tables None None None None (set_last_length 0 (set_dist_cache no_distances self)))).

(** * Flushing *)

Definition filter_end (filter : PendingFilter) : Z := sat_add_u64 (block_start filter) (block_length filter).

Definition decode_limit (self : t) : Z :=
  let base := current_file_base_total self in
  let declared := current_file_unpacked_size self in
  let limit := fold_left (fun limit filter => Z.max limit (sat_sub_u64 (filter_end filter) base)) (pending_filters self) declared in
  Z.min limit (sat_add_u64 declared (Window.dict_size (window self))).

(** The dispatch on the filter's type. *)
Definition apply_filter `{ByteSearch} (kind : FilterType.t) (buf : list byte) (channels file_block_start : Z) : result (list byte) :=
  match kind with
  | FilterType.Delta => apply_delta buf channels
  | FilterType.E8 => apply_e8 buf file_block_start
  | FilterType.E8E9 => apply_e8e9 buf file_block_start
  | FilterType.Arm => apply_arm buf file_block_start
  | FilterType.Unsupported _ => Ok buf
  end.

Section flushing.
Context {W : Type} `{Sink W} `{ByteSearch}.
Local Abbreviation F := (stateM (t * W) rar_error).

Definition get_self : F t := gets fst.
Definition modify_self (f : t -> t) : F unit := on_fst (modify f).
(** A window action that writes, and one that does not. *)
Definition window_writes {A} (m : Window.t -> stateM W rar_error (A * Window.t)) : F A :=
  self ← get_self;
  '(a, window) ← on_snd (m (window self));
  _ ← modify_self (set_window window);
  mret a.
Definition window_step (m : Window.t -> result Window.t) : F unit :=
  self ← get_self;
  window ← lift (m (window self));
  modify_self (set_window window).

Definition write_raw_span (advance_to : Z) : F unit :=
  self ← get_self;
  let border := Window.total_flushed (window self) in
  let advance_to := Z.min advance_to (Window.total_written (window self)) in
  if advance_to <=? border then mret tt
  else
    let span := advance_to - border in
    _ ← (if current_file_written_size self <? current_file_unpacked_size self then
           let left := current_file_unpacked_size self - current_file_written_size self in
           emitted ← window_writes (Window.flush_visible_until (sat_add_u64 border (Z.min span left)));
           modify_self (fun self => set_file (current_file_base_total self) (sat_add_u64 (current_file_written_size self) span)
             (sat_add_u64 (current_file_emitted self) emitted) (current_file_unpacked_size self) self)
         else mret tt);
    window_step (Window.mark_flushed advance_to).

Definition flush_unfiltered_stream_output : F unit :=
  self ← get_self;
  _ ← write_raw_span (Window.total_written (window self));
  modify_self recompute_flush_border.

(** A complete block: its filter is applied to a copy, the copy is written. *)
Definition write_block (filter : PendingFilter) : F unit :=
  self ← get_self;
  let file_block_start := current_file_written_size self in
  buf ← lift (Window.try_copy_output (block_start filter) (block_length filter) (window self));
  buf ← lift (apply_filter (filter_type filter) buf (channels filter) file_block_start);
  _ ← (if FilterType.emits_output (filter_type filter) then
         _ ← on_snd (write_all buf);
         modify_self (fun self => set_file (current_file_base_total self) (current_file_written_size self)
           (sat_add_u64 (current_file_emitted self) (block_length filter)) (current_file_unpacked_size self) self)
       else mret tt);
  self ← get_self;
  size ← lift (add_u64 (current_file_written_size self) (block_length filter));
  _ ← modify_self (fun self => set_file (current_file_base_total self) size (current_file_emitted self) (current_file_unpacked_size self) self);
  window_step (Window.mark_flushed (filter_end filter)).

(** [while retired < self.pending_filters.len() { .. }] over the rest of the queue. *)
Fixpoint retire_filters (filters : list PendingFilter) (total written_up_to : Z) (retired : nat) : F (nat * Z) :=
  match filters with
  | [] => mret (retired, written_up_to)
  | filter :: filters =>
    if block_start filter <? written_up_to then retire_filters filters total written_up_to (S retired)
    else
      let prefix_end := Z.min (block_start filter) total in
      written_up_to ← (if written_up_to <? prefix_end then _ ← write_raw_span prefix_end; mret prefix_end else mret written_up_to);
      let block_end := filter_end filter in
      if total <? block_end then mret (retired, written_up_to)
      else
        _ ← write_block filter;
        retire_filters filters total block_end (S retired)
  end.

Definition flush_filters_and_write : F unit :=
  self ← get_self;
  match pending_filters self with
  | [] => flush_unfiltered_stream_output
  | filters =>
    let total := Window.total_written (window self) in
    '(retired, written_up_to) ← retire_filters filters total (Window.total_flushed (window self)) 0;
    written_up_to ← (if (retired =? length filters)%nat then
        _ ← modify_self (set_filters []);
        if written_up_to <? total then _ ← write_raw_span total; mret total else mret written_up_to
      else if (0 <? retired)%nat then
        _ ← modify_self (set_filters (drop retired filters)); mret written_up_to
      else mret written_up_to);
    _ ← window_step (Window.mark_flushed written_up_to);
    modify_self recompute_flush_border
  end.

Definition flush_stream_output : F unit :=
  self ← get_self;
  match pending_filters self with
  | [] => flush_unfiltered_stream_output
  | _ =>
    _ ← flush_filters_and_write;
    self ← get_self;
    unflushed ← lift (Window.unflushed_bytes (window self));
    if Window.dict_size (window self) <? unflushed then fails CorruptArchive else mret tt
  end.

Definition register_pending_filter (filter : PendingFilter) : F unit :=
  self ← get_self;
  _ ← (if MAX_PENDING_FILTERS <=? zlen (pending_filters self) then
         _ ← flush_filters_and_write;
         modify_self (fun self => if MAX_PENDING_FILTERS <=? zlen (pending_filters self) then set_filters [] self else self)
       else mret tt);
  modify_self (fun self => set_filters (push_pending_filter (pending_filters self) filter) self).
End flushing.

(** * Matches *)

Definition adjust_length_for_distance (length distance : Z) : Z :=
  let len := length in
  let len := if 0x100 <? distance then len + 1 else len in
  let len := if 0x2000 <? distance then len + 1 else len in
  if 0x40000 <? distance then len + 1 else len.

Definition distance_from_slot_parts (dist_code num_bits high_or_extra low : Z) : result Z :=
  _ ← debug_check (num_bits <=? 38);
  let base := wrap64 (Z.shiftl (Z.lor 2 (Z.land dist_code 1)) num_bits) in
  d ← add_u64 base high_or_extra;
  d ← add_u64 d low;
  add_u64 d 1.

(** What the readers of lengths, distances and descriptors use of a bit
    reader; the code is generic over the reader in the same way. *)
Class BitOps (M : Type -> Type) := {
  pure {A} : result A -> M A;
  get_bits : Z -> M Z;
  get_bits64 : Z -> M Z;
  get_symbol : HuffmanTable.t -> M Z
}.
#[export] Instance reader_ops {R} `{BitRead R} : BitOps (stateM R rar_error) :=
  {| pure A := lift; get_bits := read_bits; get_bits64 := read_bits64; get_symbol := HuffmanTable.decode |}.

Section reading.
Context {M : Type -> Type} {ret : MRet M} {bind : MBind M} `{BitOps M}.

Definition slot_to_length (slot : Z) : M Z :=
  _ ← pure (debug_check (slot <? NUM_LENGTH_SLOTS));
  let '(base, extra_bits) :=
    if slot <? 8 then (2 + slot, 0)
    else let lbits := slot / 4 - 1 in (2 + Z.shiftl (Z.lor 4 (Z.land slot 3)) lbits, lbits) in
  extra_val ← (if 0 <? extra_bits then get_bits extra_bits else mret 0);
  mret (base + extra_val).

Definition decode_rc_length (rc : HuffmanTable.t) : M Z :=
  slot ← get_symbol rc;
  slot_to_length slot.

Definition decode_distance (extra_dist : bool) (dc ldc : HuffmanTable.t) : M Z :=
  dist_code ← get_symbol dc;
  _ ← pure (debug_check (dist_code <=? (if extra_dist then 79 else 63)));
  if dist_code <? 4 then mret (dist_code + 1)
  else
    let num_bits := Z.shiftr dist_code 1 - 1 in
    if 4 <=? num_bits then
      high ← (if 4 <? num_bits then v ← get_bits64 (num_bits - 4); mret (wrap64 (Z.shiftl v 4)) else mret 0);
      low ← get_symbol ldc;
      pure (distance_from_slot_parts dist_code num_bits high low)
    else
      extra ← get_bits64 num_bits;
      pure (distance_from_slot_parts dist_code num_bits extra 0).

(** [for index in 0..byte_count { data |= reader.read_bits(8)? << (index * 8) }]. *)
Fixpoint read_filter_bytes (byte_count : nat) (index data : Z) : M Z :=
  match byte_count with
  | O => mret data
  | S byte_count =>
    v ← get_bits 8;
    read_filter_bytes byte_count (index + 1) (Z.lor data (wrap32 (Z.shiftl v (index * 8))))
  end.
Definition read_filter_data : M Z :=
  n ← get_bits 2;
  read_filter_bytes (Z.to_nat (n + 1)) 0 0.

(** A descriptor, without its registration. *)
Definition read_filter (base_total output_size : Z) : M PendingFilter :=
  block_start_delta ← read_filter_data;
  start ← pure (add_u64 base_total output_size);
  block_start ← pure (add_u64 start block_start_delta);
  block_length ← read_filter_data;
  filter_code ← get_bits 3;
  let filter_type := FilterType.from_code filter_code in
  let block_length := if MAX_FILTER_BLOCK_SIZE <? block_length then 0 else block_length in
  channels ← match filter_type with FilterType.Delta => v ← get_bits 5; mret ((v + 1) mod 256) | _ => mret 0 end;
  mret (mk_filter filter_type block_start block_length channels).

(** [reader.read_bits(8)? as u8]. *)
Definition read_u8 : M Z := v ← get_bits 8; mret (v mod 256).

(** [for i in 0..num_size_bytes { .. }] of a block header. *)
Fixpoint read_size_bytes (num_size_bytes : nat) (i block_bytes xor_sum : Z) : M (Z * Z) :=
  match num_size_bytes with
  | O => mret (block_bytes, xor_sum)
  | S num_size_bytes =>
    b ← read_u8;
    read_size_bytes num_size_bytes (i + 1) (Z.lor block_bytes (Z.shiftl b (i * 8))) (Z.lxor xor_sum b)
  end.
End reading.

(** * Block headers *)

Section headers.
Context {R : Type} `{BitRead R}.

(** [read_block_header], with the reader of the tables as an argument; the
    slice version also notes a large block. On an error in the tables the code
    lengths keep their old values here, where the code may have overwritten
    some: no later read depends on them. *)
Definition read_header_with (align : stateM R rar_error unit) (read_tables : list Z -> bool -> stateM R rar_error (tables * list Z))
    (note_large : bool) : stateM (t * R) rar_error unit :=
  _ ← on_snd align;
  flags ← on_snd read_u8;
  checksum ← on_snd read_u8;
  let extra_bits := Z.land flags 0x07 + 1 in
  let num_size_bytes := Z.land (Z.shiftr flags 3) 0x03 + 1 in
  if 3 <? num_size_bytes then fails CorruptArchive
  else
    _ ← on_fst (modify (set_last_block (has flags 0x40)));
    let table_present := has flags 0x80 in
    '(block_bytes, xor_sum) ← on_snd (read_size_bytes (Z.to_nat num_size_bytes) 0 0 (Z.lxor 0x5A flags));
    if negb (xor_sum =? checksum) then fails (BlockHeaderChecksumMismatch checksum xor_sum)
    else
      let block_bits := if block_bytes =? 0 then 0 else extra_bits + (block_bytes - 1) * 8 in
      _ ← on_fst (modify (set_block_bits block_bits));
      _ ← on_fst (modify (fun self => if note_large && (STREAMING_LARGE_BLOCK_BYTES * 8 <? block_bits) then set_exhausted true self else self));
      self ← gets fst;
      if negb table_present && bool_decide (nc_table self = None) then fails CorruptArchive
      else if table_present then
        pos_before ← gets (fun st => position st.2);
        '((nc, dc, ldc, rc), lengths) ← on_snd (read_tables (code_lengths self) (extra_dist self));
        _ ← on_fst (modify (set_code_lengths lengths));
        pos_after ← gets (fun st => position st.2);
        left ← lift (i64 (block_bits - as_i64 (pos_after - pos_before)));
        on_fst (modify (fun self => set_tables (Some nc) (Some dc) (Some ldc) (Some rc) (set_block_bits left self)))
      else mret tt.

Definition read_block_header : stateM (t * R) rar_error unit := read_header_with align_byte read_tables false.

(** [loop { .. }] over the blocks of a member that owes no output; a failed
    read leaves what was read so far. *)
Fixpoint read_empty_loop (fuel : nat) : stateM (t * R) rar_error unit :=
  match fuel with
  | O => lift Panic
  | S fuel => fun st =>
    match read_block_header st with
    | (Ok _, st) =>
      if is_last_block st.1 || (0 <? block_bits_remaining st.1) then (Ok tt, st)
      else (n ← on_snd bits_remaining; if n <? 16 then mret tt else read_empty_loop fuel) st
    | (Err _, st) => (Ok tt, st)
    | (Panic, st) => (Panic, st)
    end
  end.
End headers.

Definition read_block_header_bitreader : stateM (t * BitReader.t) rar_error unit :=
  read_header_with BitReader.align_byte read_tables_bitreader true.

Definition read_tables_of_empty_member (input : list byte) (self : t) : result t :=
  match input with
  | [] => Ok self
  | _ =>
    match read_empty_loop (S (length input)) (self, BitReader.new input) with
    | (Ok _, (self, _)) => Ok self
    | (Err e, _) => Err e
    | (Panic, _) => Panic
    end
  end.

(** * The symbol loop *)

Section decoding.
Context {R W : Type} `{BitRead R} `{Sink W} `{ByteSearch}.
Local Abbreviation M := (stateM (t * W * R) rar_error).

Definition self_step (m : t -> result t) : M unit :=
  self ← gets (fun st => st.1.1);
  self ← lift (m self);
  on_fst (on_fst (modify (fun _ => self))).
(** A header read leaves the writer alone. *)
Definition on_reading {A} (m : stateM (t * R) rar_error A) : M A :=
  fun st => let '(o, (self, r)) := m (st.1.1, st.2) in (o, (self, st.1.2, r)).

(** [handle_filter]. *)
Definition handle_filter (output_size : Z) : M unit :=
  self ← gets (fun st => st.1.1);
  filter ← on_snd (read_filter (current_file_base_total self) output_size);
  on_fst (register_pending_filter filter).

(** [self.last_length = length; self.window.copy(distance, length)?]. *)
Definition copy_match (distance length : Z) : M unit :=
  self_step (fun self => window ← Window.copy distance length (window self); mret (set_window window (set_last_length length self))).

(** One turn of the loop of [decode_block], once the end checks have passed:
    the new size and limit. *)
Definition decode_item (nc dc ldc rc : HuffmanTable.t) (limit output_size : Z) : M (Z * Z) :=
  self ← gets (fun st => st.1.1);
  _ ← (if flush_at self <=? Window.total_written (window self) then on_fst flush_stream_output else mret tt);
  sym ← on_snd (HuffmanTable.decode nc);
  if sym <? 256 then
    _ ← self_step (fun self => window ← Window.put_byte (byte_of sym) (window self); mret (set_window window self));
    output_size ← lift (add_u64 output_size 1);
    mret (output_size, limit)
  else if 262 <=? sym then
    let length_idx := sym - 262 in
    length ← on_snd (slot_to_length length_idx);
    self ← gets (fun st => st.1.1);
    distance ← on_snd (decode_distance (extra_dist self) dc ldc);
    let length := adjust_length_for_distance length distance in
    _ ← self_step (insert_old_dist distance);
    _ ← copy_match distance length;
    output_size ← lift (add_u64 output_size length);
    mret (output_size, limit)
  else if sym =? 256 then
    _ ← handle_filter output_size;
    self ← gets (fun st => st.1.1);
    mret (output_size, decode_limit self)
  else if sym =? 257 then
    self ← gets (fun st => st.1.1);
    if negb (last_length self =? 0) then
      distance ← lift (at_ (dist_cache self) 0);
      let length := last_length self in
      _ ← self_step (fun self => window ← Window.copy distance length (window self); mret (set_window window self));
      output_size ← lift (add_u64 output_size length);
      mret (output_size, limit)
    else mret (output_size, limit)
  else
    let cache_idx := sym - 258 in
    self ← gets (fun st => st.1.1);
    '(distance, self) ← lift (promote_old_dist cache_idx self);
    _ ← on_fst (on_fst (modify (fun _ => self)));
    length ← on_snd (decode_rc_length rc);
    _ ← copy_match distance length;
    output_size ← lift (add_u64 output_size length);
    mret (output_size, limit).

(** [while *output_size < decode_limit && reader.position() < block_end_pos]. *)
Fixpoint decode_items (fuel : nat) (nc dc ldc rc : HuffmanTable.t) (block_end_pos limit output_size : Z) : M Z :=
  match fuel with
  | O => lift Panic
  | S fuel =>
    pos ← gets (fun st => as_i64 (position st.2));
    if (output_size <? limit) && (pos <? block_end_pos) then
      some_left ← on_snd has_bits;
      if negb some_left then mret output_size
      else
        '(output_size, limit) ← decode_item nc dc ldc rc limit output_size;
        decode_items fuel nc dc ldc rc block_end_pos limit output_size
    else mret output_size
  end.

Definition table_or_error (table : option HuffmanTable.t) : M HuffmanTable.t :=
  match table with Some table => mret table | None => fails CorruptArchive end.

(** The loop runs at most once per bit of the block, each turn reads a symbol. *)
Definition decode_block (limit output_size : Z) : M Z :=
  self ← gets (fun st => st.1.1);
  pos ← gets (fun st => as_i64 (position st.2));
  block_end_pos ← lift (i64 (pos + block_bits_remaining self));
  nc ← table_or_error (nc_table self);
  dc ← table_or_error (dc_table self);
  ldc ← table_or_error (ldc_table self);
  rc ← table_or_error (rc_table self);
  output_size ← decode_items (S (Z.to_nat (block_bits_remaining self))) nc dc ldc rc block_end_pos limit output_size;
  pos ← gets (fun st => as_i64 (position st.2));
  left ← lift (i64 (block_end_pos - pos));
  _ ← on_fst (on_fst (modify (set_block_bits left)));
  mret output_size.

(** [while output_size < self.decode_limit() { .. }]: one turn reads a header
    when the last block is used up, then decodes the block. The flag says
    whether the loop goes on. *)
Definition member_turn (output_size : Z) : M (Z * bool) :=
  self ← gets (fun st => st.1.1);
  if output_size <? decode_limit self then
    ended ← (if block_bits_remaining self <=? 0 then
               if is_last_block self then mret true
               else
                 n ← on_snd bits_remaining;
                 if n <? 16 then mret true else _ ← on_reading read_block_header; mret false
             else mret false);
    if (ended : bool) then mret (output_size, false)
    else
      self ← gets (fun st => st.1.1);
      output_size ← decode_block (decode_limit self) output_size;
      mret (output_size, true)
  else mret (output_size, false).

Fixpoint member_loop (fuel : nat) (output_size : Z) : M Z :=
  match fuel with
  | O => lift Panic
  | S fuel =>
    '(output_size, go_on) ← member_turn output_size;
    if (go_on : bool) then member_loop fuel output_size else mret output_size
  end.

(** A whole member, over a reader at its first bit. *)
Definition decode_member (fuel : nat) (unpacked_size output_size : Z) : M Z :=
  _ ← self_step (begin_file_decode unpacked_size);
  _ ← member_loop fuel output_size;
  _ ← on_fst flush_filters_and_write;
  gets (fun st => current_file_emitted st.1.1).
End decoding.

(** * Entry points on one thread *)

(** The fuel bounds the turns of the loop over blocks: the loop of the code has
    no bound of its own. *)
Section entry_points.
Context {W : Type} `{Sink W} `{ByteSearch}.
Local Abbreviation F := (stateM (t * W) rar_error).

(** [let mut reader = ..;]: a reader that lives for the rest of the call. *)
Definition with_reader {R A} (reader : R) (m : stateM (t * W * R) rar_error A) : F A :=
  fun st => let '(o, (st, _)) := m (st, reader) in (o, st).

(** [decompress_to_writer] when [parallel_enabled()] is false: the parallel
    attempt declines before it looks at the input. *)
Definition decompress_to_writer (fuel : nat) (input : list byte) (unpacked_size : Z) : F Z :=
  if unpacked_size =? 0 then
    self ← get_self;
    self ← lift (read_tables_of_empty_member input self);
    _ ← modify_self (fun _ => self);
    mret 0
  else with_reader (BitReader.new input) (decode_member fuel unpacked_size 0).

Definition decompress_reader_to_writer_single_thread {Rd} `{Source Rd} (fuel : nat) (input : Rd) (unpacked_size output_size : Z) : F Z :=
  with_reader (StreamReader.new input) (decode_member fuel unpacked_size output_size).

(** [Read::take(limit).read_to_end(&mut head)]. *)
Fixpoint take_to_end {Rd} `{Source Rd} (fuel : nat) (limit : Z) (input : Rd) (head : list byte) : result (list byte) :=
  match fuel with
  | O => Panic
  | S fuel =>
    if 0 <? limit then
      let '(got, input) := src_read input limit in
      bytes ← got;
      match bytes with
      | [] => Ok head
      | _ => take_to_end fuel (limit - zlen bytes) input (head ++ bytes)
      end
    else Ok head
  end.

Definition read_tables_of_empty_member_from {Rd} `{Source Rd} (input : Rd) (self : t) : result t :=
  head ← take_to_end (S (Z.to_nat EMPTY_MEMBER_TABLE_READ_LIMIT)) EMPTY_MEMBER_TABLE_READ_LIMIT input [];
  read_tables_of_empty_member head self.

(** [decompress_reader_to_writer] when [parallel_enabled()] is false. *)
Definition decompress_reader_to_writer {Rd} `{Source Rd} (fuel : nat) (input : Rd) (unpacked_size : Z) : F Z :=
  if unpacked_size =? 0 then
    self ← get_self;
    self ← lift (read_tables_of_empty_member_from input self);
    _ ← modify_self (fun _ => self);
    mret 0
  else decompress_reader_to_writer_single_thread fuel input unpacked_size 0.

(** ** Output split at volume boundaries *)

Record VolumeTransition := mk_transition { volume_index : Z; compressed_offset : Z }.

(** The caller's factory with the writer it made last. *)
Class WriterFactory := writer_factory : Z -> stateM W rar_error unit.

Record chunk_state := mk_chunk { chunks : list (Z * Z); current_vol : Z; boundary_idx : nat; chunk_bytes : Z }.

Section chunked.
Context `{WriterFactory} {R : Type} `{BitRead R} (boundaries : list VolumeTransition).

Fixpoint chunked_loop (fuel : nat) (unpacked_size output_size : Z) (c : chunk_state) : stateM (t * W * R) rar_error chunk_state :=
  match fuel with
  | O => lift Panic
  | S fuel =>
    self ← gets (fun st => st.1.1);
    if output_size <? decode_limit self then
      ended ← (if block_bits_remaining self <=? 0 then
                 if is_last_block self then mret true
                 else
                   n ← on_snd bits_remaining;
                   if n <? 16 then mret true else _ ← on_reading read_block_header; mret false
               else mret false);
      if (ended : bool) then mret c
      else
        let prev_output := output_size in
        output_size ← decode_block unpacked_size output_size;
        let decoded_this_round := output_size - prev_output in
        byte_pos ← gets (fun st => byte_position st.2);
        bytes ← lift (add_u64 (chunk_bytes c) decoded_this_round);
        match boundaries !! boundary_idx c with
        | Some boundary =>
          if compressed_offset boundary <=? byte_pos then
            _ ← on_fst flush_filters_and_write;
            _ ← on_fst (on_snd (writer_factory (volume_index boundary)));
            chunked_loop fuel unpacked_size output_size
              (mk_chunk (chunks c ++ [(current_vol c, bytes)]) (volume_index boundary) (S (boundary_idx c)) 0)
          else chunked_loop fuel unpacked_size output_size (mk_chunk (chunks c) (current_vol c) (boundary_idx c) bytes)
        | None => chunked_loop fuel unpacked_size output_size (mk_chunk (chunks c) (current_vol c) (boundary_idx c) bytes)
        end
    else mret c
  end.
End chunked.

Definition decompress_to_writer_chunked `{WriterFactory} (fuel : nat) (input : list byte) (unpacked_size first_volume_index : Z)
    (boundaries : list VolumeTransition) : F (list (Z * Z)) :=
  if unpacked_size =? 0 then
    self ← get_self;
    self ← lift (read_tables_of_empty_member input self);
    _ ← modify_self (fun _ => self);
    mret []
  else
    self ← get_self;
    self ← lift (begin_file_decode unpacked_size self);
    _ ← modify_self (fun _ => self);
    _ ← on_snd (writer_factory first_volume_index);
    c ← with_reader (BitReader.new input) (chunked_loop boundaries fuel unpacked_size 0 (mk_chunk [] first_volume_index 0 0));
    _ ← flush_filters_and_write;
    mret (if (0 <? chunk_bytes c) || bool_decide (chunks c = []) then chunks c ++ [(current_vol c, chunk_bytes c)] else chunks c).
End entry_points.

(** [Write for Vec<u8>]. *)
Definition vec_sink : Sink (list byte) := fun bytes out => (Ok tt, out ++ bytes).

Definition decompress `{ByteSearch} (fuel : nat) (input : list byte) (unpacked_size : Z) : stateM t rar_error (list byte) := fun self =>
  if unpacked_size =? 0 then
    match read_tables_of_empty_member input self with
    | Ok self => (Ok [], self)
    | Err e => (Err e, self)
    | Panic => (Panic, self)
    end
  else
    match @decompress_to_writer _ vec_sink _ fuel input unpacked_size (self, []) with
    | (Ok _, (self, output)) => (Ok output, self)
    | (Err e, (self, _)) => (Err e, self)
    | (Panic, (self, _)) => (Panic, self)
    end.
End LzDecoder.

(** * From a member's compression fields *)

Definition effective_lz_window_size (dict_size : Z) : Z := Z.max dict_size RAR_MIN_LZ_WINDOW_SIZE.

Definition checked_lz_dict_size (info : CompressionInfo.t) (max_dict_size : Z) : result Z :=
  let dict_size := effective_lz_window_size (CompressionInfo.dict_size info) in
  if RAR_UNPACK_MAX_DICT_SIZE <? dict_size then Err (DictionaryTooLarge dict_size RAR_UNPACK_MAX_DICT_SIZE)
  else if max_dict_size <? dict_size then Err (DictionaryTooLarge dict_size max_dict_size)
  else if USIZE_MAX <? dict_size then Err (DictionaryTooLarge dict_size USIZE_MAX) else Ok dict_size.

Section members.
Context `{ZeroedAlloc} `{ByteSearch} {W : Type} `{Sink W}.

(** A fresh decoder for the member, and what it does with it. *)
Definition with_new_decoder {A} (info : CompressionInfo.t) (max_dict_size : Z) (m : stateM (LzDecoder.t * W) rar_error A) : stateM W rar_error A :=
  dict_size ← lift (checked_lz_dict_size info max_dict_size);
  decoder ← lift (LzDecoder.try_new dict_size (CompressionInfo.version info));
  (fun w => let '(o, (_, w)) := m (decoder, w) in (o, w)) : stateM W rar_error A.

Definition decompress_lz_with_max_dict_size (fuel : nat) (input : list byte) (unpacked_size : Z) (info : CompressionInfo.t) (max_dict_size : Z) : result (list byte) :=
  dict_size ← checked_lz_dict_size info max_dict_size;
  decoder ← LzDecoder.try_new dict_size (CompressionInfo.version info);
  (LzDecoder.decompress fuel input unpacked_size decoder).1.

Definition decompress_lz_to_writer_with_max_dict_size (fuel : nat) (input : list byte) (unpacked_size : Z) (info : CompressionInfo.t) (max_dict_size : Z) : stateM W rar_error Z :=
  with_new_decoder info max_dict_size (LzDecoder.decompress_to_writer fuel input unpacked_size).

Definition decompress_lz_reader_to_writer_with_max_dict_size {Rd} `{Source Rd} (fuel : nat) (input : Rd) (unpacked_size : Z) (info : CompressionInfo.t) (max_dict_size : Z) : stateM W rar_error Z :=
  with_new_decoder info max_dict_size (LzDecoder.decompress_reader_to_writer fuel input unpacked_size).

Definition decompress_lz_to_writer_chunked_with_max_dict_size `{!LzDecoder.WriterFactory} (fuel : nat) (input : list byte) (unpacked_size : Z) (info : CompressionInfo.t)
    (first_volume_index : Z) (boundaries : list LzDecoder.VolumeTransition) (max_dict_size : Z) : stateM W rar_error (list (Z * Z)) :=
  with_new_decoder info max_dict_size (LzDecoder.decompress_to_writer_chunked fuel input unpacked_size first_volume_index boundaries).
End members.
