(* ===== verification/LzFlush.v ===== *)
(** Writing a member out (decompress/lz/mod.rs): whenever the decoder flushes,
    and in however many steps, the writer ends up with the member's bytes with
    its filters applied; the reference applies them to the whole output. *)
From stdpp Require Import sorting.
From S2P Require Import Prelude RarTypes StateM LzWindow LzCopies LzHistory LzOutput LzWindowProps LzFilter LzFilterProps LzBits LzHuffman LzTables LzDecoder.
Import LzDecoder.

(** * Blocks keep their length *)

Lemma delta_channel_total fuel src ch : forall out src_pos prev dest, 0 < ch -> 0 <= dest -> 0 <= src_pos ->
  Z.max 0 (zlen out - dest) < Z.of_nat fuel -> src_pos + channel_length (zlen out) ch dest <= zlen src ->
  exists out', delta_channel fuel src ch out src_pos prev dest = Ok (out', src_pos + channel_length (zlen out) ch dest) /\ zlen out' = zlen out.
Proof.
  induction fuel as [|fuel IH]; intros out src_pos prev dest Hch Hd Hp Hf Hs; [lia|]. cbn [delta_channel].
  assert (Hstep : dest < zlen out -> channel_length (zlen out) ch dest = 1 + channel_length (zlen out) ch (dest + ch)).
  { intros Hlt. unfold channel_length. destruct (Z.le_gt_cases ch (zlen out - dest)).
    - rewrite !Z.max_r by lia. replace (zlen out - dest + ch - 1) with (zlen out - (dest + ch) + ch - 1 + 1 * ch) by lia. rewrite Z.div_add by lia. lia.
    - rewrite (Z.max_l 0 (zlen out - (dest + ch))), Z.max_r by lia. rewrite (Z.div_small (0 + ch - 1)) by lia. symmetry. apply Z.div_unique with (r := zlen out - dest - 1); lia. }
  assert (Hnn : forall c, 0 <= channel_length (zlen out) ch c) by (intros c; apply Z.div_pos; lia).
  destruct (Z.ltb_spec dest (zlen out)) as [Hlt|Hge].
  - specialize (Hstep Hlt). pose proof (Hnn (dest + ch)). rewrite index_at, bind_Ok by lia.
    rewrite store_ok, bind_Ok by (change (zlen [_]) with 1; lia).
    set (prev' := byte_of _). assert (Hlen : zlen (splice out dest [prev']) = zlen out) by (apply zlen_splice; change (zlen [prev']) with 1; lia).
    destruct (IH (splice out dest [prev']) (src_pos + 1) prev' (dest + ch)) as (out' & Hrun & Hlen'); rewrite ?Hlen in *; try lia.
    exists out'. split; [|lia]. rewrite Hrun. do 2 f_equal. lia.
  - exists out. split; [|done]. unfold channel_length. rewrite Z.max_l, Z.div_small by lia. do 2 f_equal. lia.
Qed.

Lemma delta_channels_total src ch n : forall c out src_pos, 0 < ch -> Z.of_nat c + Z.of_nat n = ch -> 0 <= src_pos -> zlen out = zlen src ->
  src_pos + channels_length n (zlen src) ch (Z.of_nat c) = zlen src ->
  exists r, for_range c n (fun channel '(data, src_pos) => delta_channel (S (length src)) src ch data src_pos x00 (Z.of_nat channel)) (out, src_pos) = Ok r /\
    zlen r.1 = zlen src.
Proof.
  assert (Hnn : forall n m c, 0 < ch -> 0 <= channels_length n m ch c).
  { intros k. induction k as [|k IHk]; intros m c Hch; cbn; [done|]. specialize (IHk m (c + 1) Hch). assert (0 <= channel_length m ch c) by (apply Z.div_pos; lia). lia. }
  induction n as [|n IH]; intros c out src_pos Hch Hn Hp Hlen Hs; cbn [for_range channels_length] in *; [by exists (out, src_pos)|].
  pose proof (Hnn n (zlen src) (Z.of_nat c + 1) Hch).
  destruct (delta_channel_total (S (length src)) src ch out src_pos x00 (Z.of_nat c)) as (out' & Hrun & Hlen'); rewrite ?Hlen; try (unfold zlen; lia); try lia.
  rewrite Hrun, bind_Ok, Hlen. apply IH; try done; try lia.
  - assert (0 <= channel_length (zlen src) ch (Z.of_nat c)) by (apply Z.div_pos; lia). lia.
  - replace (Z.of_nat (S c)) with (Z.of_nat c + 1) by lia. lia.
Qed.

Lemma apply_delta_total data ch : 0 <= ch -> exists out, apply_delta data ch = Ok out /\ zlen out = zlen data.
Proof.
  intros Hch. unfold apply_delta. destruct (Z.eqb_spec ch 0); [by exists data|].
  destruct (delta_channels_total data ch (Z.to_nat ch) 0 data 0) as ([out p] & Hrun & Hlen); try done; try lia.
  - rewrite channels_length_all by (pose proof (zlen_nonneg data); lia). lia.
  - exists out. by rewrite Hrun.
Qed.

Lemma apply_arm_total data off : exists out, apply_arm data off = Ok out /\ zlen out = zlen data.
Proof.
  unfold apply_arm. destruct (Z.ltb_spec (zlen data) 4); [by exists data|].
  exists (arm_map (arm_decode off) 0 data). split; [exact (arm_loop_ok off _ [] data (Nat.lt_succ_diag_r _)) | by eapply zlen_arm_map].
Qed.

Lemma apply_filter_total `{ByteSearchLaws} kind data ch off : 0 <= ch -> 0 <= off -> zlen data + off < 2 ^ 64 ->
  exists out, apply_filter kind data ch off = Ok out /\ zlen out = zlen data.
Proof.
  intros Hch Hoff Hlt. destruct kind; cbn [apply_filter].
  - by apply apply_delta_total.
  - eexists. split; [unfold apply_e8; by apply apply_e8e9_inner_ok | apply zlen_x86_map].
  - eexists. split; [unfold apply_e8e9; by apply apply_e8e9_inner_ok | apply zlen_x86_map].
  - apply apply_arm_total.
  - by exists data.
Qed.

(** * The reference *)

(** The bytes [a, b) of the output. *)
Definition span (hist : list byte) (a b : Z) : list byte := tab (b - a) (fun j => byte_at hist (a + j)).

Lemma zlen_out_span hist a b : zlen (span hist a b) = Z.max 0 (b - a).
Proof.
  unfold span. destruct (Z.le_gt_cases 0 (b - a)); [rewrite zlen_tab by done; lia|].
  unfold tab. replace (Z.to_nat (b - a)) with 0%nat by lia. rewrite Z.max_l by lia. done.
Qed.
Lemma out_span_nil hist a b : b <= a -> span hist a b = [].
Proof. intros H. apply zlen_0_nil. rewrite zlen_out_span. lia. Qed.
Lemma span_split hist a c b : a <= c <= b -> span hist a b = span hist a c ++ span hist c b.
Proof.
  intros H. unfold span. replace (b - a) with ((c - a) + (b - c)) by lia. rewrite tab_app by lia. f_equal. apply tab_ext; [lia|].
  intros i Hi. f_equal. lia.
Qed.
Lemma out_span_app hist l a b : 0 <= a -> b <= zlen hist -> span (hist ++ l) a b = span hist a b.
Proof.
  intros Ha Hb. destruct (Z.le_gt_cases b a); [by rewrite !out_span_nil|]. apply tab_ext; [lia|]. intros i Hi. by rewrite byte_at_app_l by lia.
Qed.

Section reference.
Context `{ByteSearch} (base limit : Z).

(** Unfiltered output stops at the end of the member. *)
Definition raw (hist : list byte) (a b : Z) : list byte := span hist a (Z.min b limit).
(** A block is written whole, with its filter applied, unless the filter is unknown. *)
Definition filtered (hist : list byte) (f : PendingFilter) : list byte :=
  if FilterType.emits_output (filter_type f) then
    match apply_filter (filter_type f) (span hist (block_start f) (filter_end f)) (channels f) (block_start f - base) with
    | Ok block => block
    | _ => []
    end
  else [].

(** What a flush at [total] writes from [pos] on, where it stops, and the
    descriptors it leaves. *)
Fixpoint flush_ref (hist : list byte) (filters : list PendingFilter) (total pos : Z) : list byte * Z * list PendingFilter :=
  match filters with
  | [] => (raw hist pos total, total, [])
  | f :: rest =>
    if block_start f <? pos then flush_ref hist rest total pos
    else
      let start := Z.min (block_start f) total in
      if total <? filter_end f then (raw hist pos start, start, filters)
      else
        let '(out, pos', open) := flush_ref hist rest total (filter_end f) in
        (raw hist pos start ++ filtered hist f ++ out, pos', open)
  end.

(** The member's output: one flush at its end, over the descriptors in the
    order of their blocks. *)
Definition member_output (hist : list byte) (arrivals : list PendingFilter) : list byte :=
  (flush_ref hist (fold_left push_pending_filter arrivals []) (zlen hist) base).1.1.

(** ** Flushing in steps *)

Lemma raw_split hist a c b : a <= c <= b -> raw hist a b = raw hist a c ++ raw hist c b.
Proof.
  intros Hc. unfold raw. destruct (Z.le_gt_cases limit c).
  - rewrite (out_span_nil hist c) by lia. rewrite app_nil_r. f_equal. lia.
  - rewrite (Z.min_l c) by lia. apply span_split. lia.
Qed.

Abbreviation starts_from t := (Forall (fun f => t <= block_start f)).

(** Raw output up to a point before every block can be written first. *)
Lemma flush_later hist filters total pos c : starts_from c filters -> pos <= c <= total -> Forall (fun f => block_start f <= filter_end f) filters ->
  flush_ref hist filters total pos =
  (let '(out, pos', open) := flush_ref hist filters total c in (raw hist pos c ++ out, pos', open)).
Proof.
  intros Hs Hc Hend. destruct filters as [|f rest]; cbn [flush_ref]; [by rewrite <- raw_split|].
  apply list.Forall_cons in Hs as [Hf Hs]. apply list.Forall_cons in Hend as [He _].
  destruct (Z.ltb_spec (block_start f) pos), (Z.ltb_spec (block_start f) c); try lia.
  rewrite (raw_split hist pos c (Z.min (block_start f) total)) by lia. destruct (total <? filter_end f); [done|].
  destruct (flush_ref hist rest total (filter_end f)) as [[out pos'] open]. by rewrite <- app_assoc.
Qed.

Definition insert_all (filters arrivals : list PendingFilter) : list PendingFilter := fold_left (fun q f => insert_filter f q) arrivals filters.

Lemma push_all_inserts arrivals : forall filters, StronglySorted starts_before filters ->
  fold_left push_pending_filter arrivals filters = insert_all filters arrivals.
Proof.
  induction arrivals as [|f arrivals IH]; intros filters Hs; [done|]. unfold insert_all. cbn [fold_left]. rewrite push_inserts by done.
  apply IH. by apply (insert_filter_spec f).
Qed.

Lemma insert_all_behind x arrivals : forall filters, starts_from (block_start x) arrivals -> insert_all (x :: filters) arrivals = x :: insert_all filters arrivals.
Proof.
  unfold insert_all. induction arrivals as [|f arrivals IH]; intros filters Ha; [done|]. apply list.Forall_cons in Ha as [Hf Ha].
  cbn [fold_left insert_filter]. rewrite (proj2 (Z.leb_le _ _) Hf). by apply IH.
Qed.

Lemma insert_all_Forall (P : PendingFilter -> Prop) arrivals : forall filters, Forall P filters -> Forall P arrivals -> Forall P (insert_all filters arrivals).
Proof.
  assert (Hone : forall f l, P f -> Forall P l -> Forall P (insert_filter f l)).
  { intros f l Hf. induction 1 as [|x l Hx Hl IH]; cbn [insert_filter]; [by repeat constructor|]. destruct (_ <=? _); by repeat constructor. }
  unfold insert_all. induction arrivals as [|f arrivals IH]; intros filters Hq Ha; [done|]. apply list.Forall_cons in Ha as [Hf Ha].
  cbn [fold_left]. apply IH; [by apply Hone | done].
Qed.

Abbreviation forward := (Forall (fun f => block_start f <= filter_end f)).

Lemma starts_sorted t f rest : StronglySorted starts_before (f :: rest) -> t <= block_start f -> starts_from t (f :: rest).
Proof.
  intros [_ Hall]%StronglySorted_inv Hf. constructor; [done|]. eapply list.Forall_impl; [exact Hall|]. unfold starts_before. intros; lia.
Qed.

(** A flush now and one later write what the later one alone writes, whatever
    descriptors arrive between them. *)
Lemma flush_twice hist filters t total arrivals : forall pos, StronglySorted starts_before filters -> forward filters -> forward arrivals ->
  starts_from t arrivals -> pos <= t <= total ->
  flush_ref hist (insert_all filters arrivals) total pos =
  (let '(out, p, open) := flush_ref hist filters t pos in
   let '(out', p', open') := flush_ref hist (insert_all open arrivals) total p in (out ++ out', p', open')).
Proof.
  induction filters as [|f rest IH]; intros pos Hs Hfw Hfa Hat Ht; cbn [flush_ref].
  { apply flush_later; [by apply insert_all_Forall | lia | by apply insert_all_Forall]. }
  pose proof Hs as [Hs' _]%StronglySorted_inv. pose proof Hfw as [Hf Hfw']%list.Forall_cons.
  assert (Hbehind : block_start f <= t -> insert_all (f :: rest) arrivals = f :: insert_all rest arrivals).
  { intros Hle. apply insert_all_behind. eapply list.Forall_impl; [exact Hat|]. cbn. intros; lia. }
  destruct (Z.ltb_spec (block_start f) pos) as [Hdrop|Hkeep].
  { rewrite Hbehind by lia. cbn [flush_ref]. rewrite (proj2 (Z.ltb_lt _ _)) by lia. by apply IH. }
  destruct (Z.ltb_spec t (filter_end f)) as [Hopen|Hdone].
  - apply flush_later; [apply insert_all_Forall | lia | by apply insert_all_Forall].
    + apply starts_sorted; [done|lia].
    + eapply list.Forall_impl; [exact Hat|]. cbn. intros; lia.
  - rewrite Hbehind by lia. cbn [flush_ref]. rewrite (proj2 (Z.ltb_ge _ _)), (proj2 (Z.ltb_ge total _)), !Z.min_l by lia.
    rewrite IH by (done || lia). destruct (flush_ref hist rest t (filter_end f)) as [[out p] open].
    destruct (flush_ref hist (insert_all open arrivals) total p) as [[out' p'] open']. by rewrite <- !app_assoc.
Qed.

(** Where a flush stops, and what it leaves. *)
Lemma flush_stops hist filters t : forall pos, StronglySorted starts_before filters -> forward filters -> pos <= t ->
  let '(out, p, open) := flush_ref hist filters t pos in
  pos <= p <= t /\ StronglySorted starts_before open /\ (exists done, filters = done ++ open) /\
  match open with [] => p = t | f :: _ => t < filter_end f /\ p = Z.min (block_start f) t end.
Proof.
  induction filters as [|f rest IH]; intros pos Hs Hfw Ht; cbn [flush_ref].
  { split_and!; try lia; [done | by exists []]. }
  pose proof Hs as [Hs' _]%StronglySorted_inv. pose proof Hfw as [Hf Hfw']%list.Forall_cons.
  destruct (Z.ltb_spec (block_start f) pos) as [Hdrop|Hkeep].
  { specialize (IH pos Hs' Hfw' Ht). destruct (flush_ref hist rest t pos) as [[out p] open]. destruct IH as (Hp & Hso & (dn & ->) & Ho).
    split_and!; try lia; [done | by exists (f :: dn) | done]. }
  destruct (Z.ltb_spec t (filter_end f)) as [Hopen|Hdone].
  { split_and!; try lia; [done | by exists []]. }
  specialize (IH (filter_end f) Hs' Hfw' ltac:(lia)). destruct (flush_ref hist rest t (filter_end f)) as [[out p] open].
  destruct IH as (Hp & Hso & (dn & ->) & Ho). split_and!; try lia; [done | by exists (f :: dn) | done].
Qed.

(** Only the bytes written so far matter. *)
Lemma flush_app hist l filters : forall pos, 0 <= pos -> Forall (fun f => 0 <= block_start f <= filter_end f) filters ->
  flush_ref (hist ++ l) filters (zlen hist) pos = flush_ref hist filters (zlen hist) pos.
Proof.
  induction filters as [|f rest IH]; intros pos Hp Hfw; cbn [flush_ref].
  { unfold raw. by rewrite out_span_app by lia. }
  apply list.Forall_cons in Hfw as [Hf Hfw]. destruct (_ <? _); [by apply IH|]. unfold raw at 1 2. rewrite out_span_app by lia.
  destruct (Z.ltb_spec (zlen hist) (filter_end f)); [done|]. rewrite IH by (done || lia).
  unfold filtered, raw. by rewrite !out_span_app by lia.
Qed.
End reference.

(** * The code does it *)

(** A log of which everything is to be seen: the decoder hides nothing. *)
Definition full (hist : list byte) (flushed : Z) : log := mk_log hist (zreplicate (zlen hist) true) flushed.

Lemma full_visible hist p a b : 0 <= a -> log_visible (full hist p) a b = span hist a b.
Proof.
  intros Ha. destruct (Z.le_gt_cases b a); [rewrite out_span_nil by done; by apply visible_nil|].
  apply visible_all; [lia|]. intros i _. unfold hidden. cbn [full shown]. unfold zreplicate. rewrite nth_lookup.
  destruct (replicate _ _ !! _) as [x|] eqn:E; [|done]. by apply lookup_replicate_1 in E as [-> _].
Qed.

(** What flushing leaves alone. *)
Definition kept (d : t) :=
  (dist_cache d, last_length d, (nc_table d, dc_table d, ldc_table d, rc_table d), code_lengths d, extra_dist d,
   block_bits_remaining d, is_last_block d, (current_file_base_total d, current_file_unpacked_size d, parallel_mode_exhausted d)).

Section code.
Context {W : Type} `{SinkLaws W} `{ByteSearchLaws} (dict base declared : Z) (Hbase : 0 <= base) (Hdecl : 0 <= declared).
Local Abbreviation limit := (base + declared).
Local Abbreviation written := LzOutput.written.

(** The decoder holds the output [hist] and has handed out what lies before [pos]. *)
Record holds (d : t) (hist : list byte) (pos : Z) : Prop := mk_holds {
  h_window : stands_for (window d) dict (full hist pos);
  h_base : current_file_base_total d = base;
  h_unpacked : current_file_unpacked_size d = declared;
  h_written : if pos <=? limit then current_file_written_size d = pos - base else declared <= current_file_written_size d;
  h_emitted : 0 <= current_file_emitted d <= pos - base;
  h_room : zlen hist - pos <= dict;
  h_size : zlen hist < 2 ^ 63
}.

Lemma holds_pos d hist pos : holds d hist pos -> base <= pos <= zlen hist /\ Window.total_flushed (window d) = pos /\ Window.total_written (window d) = zlen hist /\
  Window.dict_size (window d) = dict.
Proof.
  intros H'. pose proof (sf_flushed _ _ _ (h_window _ _ _ H')) as [Hf Hr]. pose proof (sf_total _ _ _ (h_window _ _ _ H')).
  pose proof (sf_dict _ _ _ (h_window _ _ _ H')). pose proof (h_emitted _ _ _ H'). cbn in *. split_and!; done || lia.
Qed.

(** What a step of a flush does: the border moves to [pos'], [out] is written. *)
Definition moves (m : stateM (t * W) rar_error unit) (d : t) (w : W) (hist : list byte) (pos' : Z) (out : list byte) : Prop :=
  exists d' w', m (d, w) = (Ok tt, (d', w')) /\ holds d' hist pos' /\ written w' = written w ++ out /\
    kept d' = kept d /\ pending_filters d' = pending_filters d /\ flush_at d' = flush_at d /\
    current_file_emitted d' = current_file_emitted d + zlen out.

Lemma mark_moves win hist pos pos' : stands_for win dict (full hist pos) -> zlen hist < 2 ^ 63 -> pos <= pos' <= zlen hist ->
  exists win', Window.mark_flushed pos' win = Ok win' /\ stands_for win' dict (full hist pos').
Proof.
  intros Hs Hsize Hp. pose proof (sf_total _ _ _ Hs) as Htotal. cbn in Htotal. unfold Window.mark_flushed.
  rewrite Htotal, Z.min_l by lia. apply (move_border_ok win dict (full hist pos) pos' Hs); cbn; lia.
Qed.

(** A step of the window inside the decoder. *)
Lemma window_step_run m d w win : m (window d) = Ok win -> window_step (W := W) m (d, w) = (Ok tt, (set_window win d, w)).
Proof. intros Hm. unfold window_step, get_self, modify_self. rewrite bind_gets. cbn [fst]. by rewrite Hm. Qed.

Lemma write_raw_span_moves d w hist pos pos' : holds d hist pos -> pos <= pos' <= zlen hist ->
  moves (write_raw_span pos') d w hist pos' (raw limit hist pos pos').
Proof.
  intros Hh Hp. destruct (holds_pos _ _ _ Hh) as (Hr & Hflushed & Htotal & Hdict). pose proof (h_size _ _ _ Hh) as Hsize.
  unfold moves, write_raw_span, get_self. rewrite bind_gets. cbn [fst]. rewrite Hflushed, Htotal, Z.min_l by lia.
  destruct (Z.leb_spec pos' pos) as [|Hlt].
  { replace pos' with pos by lia. exists d, w. unfold raw. rewrite out_span_nil, app_nil_r by lia. split_and!; done || (change (zlen []) with 0; lia). }
  pose proof (h_written _ _ _ Hh) as Hw. pose proof (h_emitted _ _ _ Hh) as He. pose proof (h_room _ _ _ Hh) as Hroom.
  rewrite (h_unpacked _ _ _ Hh). cbv zeta.
  destruct (Z.ltb_spec (current_file_written_size d) declared) as [Hin|Hpast].
  - destruct (Z.leb_spec pos limit); [|lia].
    set (left_ := declared - current_file_written_size d). set (target := Z.min pos' limit).
    assert (Htarget : sat_add_u64 pos (Z.min (pos' - pos) left_) = target) by (unfold sat_add_u64, left_, target; lia).
    rewrite Htarget. pose proof (flush_until_ok (window d) dict (full hist pos) target w (h_window _ _ _ Hh) ltac:(cbn; lia)) as Hfl.
    cbn [full bytes] in Hfl. rewrite Z.min_l in Hfl by lia. unfold log_flush in Hfl. cbn [full flushed bytes shown] in Hfl.
    rewrite (proj2 (Z.leb_gt _ _)) in Hfl by lia. fold (full hist pos) in Hfl. rewrite !full_visible in Hfl by lia.
    rewrite (out_span_nil hist pos (Z.min _ _)) in Hfl by lia. fold (full hist target) in Hfl.
    destruct Hfl as (win & w' & Hrun & Hwin & Hwr). change (span hist pos target) with (raw limit hist pos pos') in Hrun, Hwr.
    assert (Hz : zlen (raw limit hist pos pos') = target - pos) by (unfold raw; rewrite zlen_out_span; lia).
    destruct (mark_moves win hist target pos' Hwin Hsize ltac:(lia)) as (win' & Hmark & Hwin').
    exists (set_window win' (set_file base (pos' - base) (current_file_emitted d + (target - pos)) declared (set_window win d))), w'.
    split.
    { unfold window_writes, get_self, modify_self, mbind, stateM_bind, gets, on_snd, on_fst, modify. cbn [fst snd]. rewrite Hrun. cbn [fst snd].
      unfold window_step, get_self, modify_self, mbind, stateM_bind, gets, on_fst, modify, lift, mret, stateM_ret. cbn [fst snd]. cbn. rewrite Hmark. cbn.
      rewrite Hz, (h_base _ _ _ Hh), (h_unpacked _ _ _ Hh). unfold sat_add_u64. rewrite !Z.min_l by lia. do 3 f_equal. unfold set_window, set_file. cbn. f_equal. lia. }
    split_and!; try done.
    + constructor; cbn; try done; try lia. destruct (Z.leb_spec pos' limit); lia.
    + unfold kept, set_window, set_file. cbn. by rewrite (h_base _ _ _ Hh), (h_unpacked _ _ _ Hh).
    + cbn. lia.
  - destruct (mark_moves _ hist pos pos' (h_window _ _ _ Hh) Hsize ltac:(lia)) as (win' & Hmark & Hwin').
    assert (Hnil : raw limit hist pos pos' = []) by (unfold raw; apply out_span_nil; destruct (Z.leb_spec pos limit); lia).
    exists (set_window win' d), w. rewrite bind_mret, (window_step_run _ _ _ _ Hmark), Hnil, app_nil_r. split_and!; try done.
    + constructor; cbn; try done; try lia; try apply Hh. destruct (Z.leb_spec pos limit), (Z.leb_spec pos' limit); lia.
    + change (zlen []) with 0. cbn. lia.
Qed.

(** A descriptor the member has room for. *)
Definition inside (f : PendingFilter) : Prop :=
  base <= block_start f /\ 0 <= block_length f /\ 0 <= channels f /\ block_start f + block_length f < 2 ^ 63 /\ block_start f + block_length f <= limit.

Lemma inside_end f : inside f -> filter_end f = block_start f + block_length f.
Proof. intros (? & ? & ? & ? & ?). unfold filter_end, sat_add_u64. lia. Qed.

Lemma write_block_moves d w hist f : holds d hist (block_start f) -> inside f -> filter_end f <= zlen hist ->
  moves (write_block f) d w hist (filter_end f) (filtered base hist f).
Proof.
  intros Hh Hin Hend. destruct (holds_pos _ _ _ Hh) as (Hr & Hflushed & Htotal & Hdict). pose proof (h_size _ _ _ Hh) as Hsize.
  pose proof (h_written _ _ _ Hh) as Hw. pose proof (h_emitted _ _ _ Hh) as He. pose proof (h_room _ _ _ Hh) as Hroom.
  rewrite (inside_end f Hin) in Hend. destruct Hin as (Hstart & Hlen & Hch & H63 & Hlim). pose proof (inside_end f ltac:(done)) as Hfe.
  destruct (Z.leb_spec (block_start f) limit) as [_|]; [|lia].
  assert (Hcopy : Window.try_copy_output (block_start f) (block_length f) (window d) = Ok (span hist (block_start f) (filter_end f))).
  { rewrite (try_copy_output_ok (window d) hist (sf_ring _ _ _ (h_window _ _ _ Hh)) Htotal) by lia. rewrite Hdict.
    rewrite !(proj2 (Z.leb_le _ _)) by lia. cbn [andb]. unfold span. rewrite Hfe. do 2 f_equal. lia. }
  set (data := span hist (block_start f) (filter_end f)) in *. assert (Hz : zlen data = block_length f) by (unfold data; rewrite zlen_out_span; lia).
  destruct (apply_filter_total (filter_type f) data (channels f) (block_start f - base)) as (out & Hout & Hzo); [lia..|].
  set (d1 := if FilterType.emits_output (filter_type f) then set_file base (current_file_written_size d) (current_file_emitted d + block_length f) declared d else d).
  assert (Hwrites : exists w', (if FilterType.emits_output (filter_type f) then
         _ ← on_snd (write_all out);
         modify_self (fun self => set_file (current_file_base_total self) (current_file_written_size self)
           (sat_add_u64 (current_file_emitted self) (block_length f)) (current_file_unpacked_size self) self)
       else mret tt) (d, w) = (Ok tt, (d1, w')) /\ written w' = written w ++ filtered base hist f /\ current_file_emitted d1 = current_file_emitted d + zlen (filtered base hist f)).
  { unfold filtered, d1. fold data. rewrite Hout. destruct (FilterType.emits_output (filter_type f)).
    - destruct (write_all_law out w) as (w' & Hrun & Hw'). exists w'. split; [|split; [done|cbn; lia]].
      unfold mbind, stateM_bind, on_snd, modify_self, on_fst, modify. cbn [fst snd]. rewrite Hrun. cbn [fst snd].
      unfold sat_add_u64. rewrite Z.min_l by lia. by rewrite (h_base _ _ _ Hh), (h_unpacked _ _ _ Hh).
    - exists w. split; [done|]. rewrite app_nil_r. split; [done|]. change (zlen []) with 0. lia. }
  destruct Hwrites as (w' & Hrun & Hw' & Hem).
  destruct (mark_moves (window d) hist (block_start f) (filter_end f) (h_window _ _ _ Hh) Hsize ltac:(lia)) as (win & Hmark & Hwin).
  set (d2 := set_file base (filter_end f - base) (current_file_emitted d1) declared d1).
  exists (set_window win d2), w'.
  assert (Hd1 : window d1 = window d /\ current_file_written_size d1 = current_file_written_size d /\ kept d1 = kept d /\ pending_filters d1 = pending_filters d /\ flush_at d1 = flush_at d).
  { unfold d1. destruct (FilterType.emits_output _); [|done]. unfold kept. cbn. by rewrite (h_base _ _ _ Hh), (h_unpacked _ _ _ Hh). }
  destruct Hd1 as (Hwd & Hws & Hk & Hq & Hfa). assert (Hzf : zlen (filtered base hist f) <= block_length f).
  { unfold filtered. fold data. rewrite Hout. destruct (FilterType.emits_output _); [lia | change (zlen []) with 0; lia]. }
  pose proof (zlen_nonneg (filtered base hist f)).
  assert (Hb : current_file_base_total d1 = base /\ current_file_unpacked_size d1 = declared).
  { unfold kept in Hk. injection Hk as _ _ _ _ _ _ _ _ _ _ Hb1 Hb2 _. rewrite Hb1, Hb2. split; apply Hh. }
  destruct Hb as [Hb1 Hb2].
  split.
  { unfold write_block, get_self. rewrite bind_gets. cbn [fst]. rewrite Hcopy, lift_Ok. cbv zeta.
    rewrite Hw, Hout, lift_Ok. rewrite (bind_run _ _ _ _ _ Hrun). rewrite bind_gets. cbn [fst]. rewrite Hws, Hw, add_u64_ok, lift_Ok by lia.
    unfold modify_self, on_fst, modify. unfold mbind at 1, stateM_bind at 1. cbn [fst snd]. rewrite Hb1, Hb2.
    replace (block_start f - base + block_length f) with (filter_end f - base) by lia. fold d2.
    apply window_step_run. unfold d2. cbn. by rewrite Hwd. }
  split_and!; try done.
  - constructor; cbn -[Z.leb Z.ltb]; try done; try lia. rewrite (proj2 (Z.leb_le _ _)) by lia. done.
  - unfold kept in *. cbn. by rewrite Hb1, Hb2 in Hk.
Qed.

(** Walking the queue: [k] descriptors are retired, [out] is written on the way. *)
Lemma retire_moves hist filters : forall d w pos retired, holds d hist pos -> Forall inside filters ->
  exists d' w' k p out, retire_filters filters (zlen hist) pos retired (d, w) = (Ok ((retired + k)%nat, p), (d', w')) /\
    holds d' hist p /\ written w' = written w ++ out /\ kept d' = kept d /\ pending_filters d' = pending_filters d /\
    current_file_emitted d' = current_file_emitted d + zlen out /\ (k <= length filters)%nat /\
    flush_ref base limit hist filters (zlen hist) pos =
      (if (k =? length filters)%nat then (out ++ raw limit hist p (zlen hist), zlen hist, []) else (out, p, drop k filters)).
Proof.
  induction filters as [|f rest IH]; intros d w pos retired Hh Hin.
  { exists d, w, 0%nat, pos, []. cbn [retire_filters flush_ref]. rewrite app_nil_r, Nat.add_0_r. change (zlen []) with 0. split_and!; done || lia. }
  apply list.Forall_cons in Hin as [Hf Hin]. pose proof (holds_pos _ _ _ Hh) as (Hr & _). pose proof (inside_end f Hf) as Hfe.
  cbn [retire_filters flush_ref]. destruct (Z.ltb_spec (block_start f) pos) as [Hdrop|Hkeep].
  { destruct (IH d w pos (S retired) Hh Hin) as (d' & w' & k & p & out & Hrun & Hh' & Hw & Hk & Hq & He & Hle & Href).
    exists d', w', (S k), p, out. rewrite Hrun, Href. replace (S retired + k)%nat with (retired + S k)%nat by lia.
    split_and!; try done. cbn; lia. }
  set (start := Z.min (block_start f) (zlen hist)).
  assert (Hraw : exists d1 w1, (if pos <? start then _ ← write_raw_span start; mret start else mret pos) (d, w) = (Ok start, (d1, w1)) /\
    holds d1 hist start /\ written w1 = written w ++ raw limit hist pos start /\ kept d1 = kept d /\ pending_filters d1 = pending_filters d /\
    current_file_emitted d1 = current_file_emitted d + zlen (raw limit hist pos start)).
  { destruct (Z.ltb_spec pos start).
    - destruct (write_raw_span_moves d w hist pos start Hh ltac:(lia)) as (d1 & w1 & Hrun & Hh1 & Hw1 & Hk1 & Hq1 & _ & He1).
      exists d1, w1. rewrite (bind_run _ _ _ _ _ Hrun). done.
    - assert (start = pos) as -> by lia. exists d, w. unfold raw. rewrite out_span_nil, app_nil_r by lia. change (zlen []) with 0. split_and!; done || lia. }
  destruct Hraw as (d1 & w1 & Hrun1 & Hh1 & Hw1 & Hk1 & Hq1 & He1).
  cbv zeta. rewrite (bind_run _ _ _ _ _ Hrun1).
  destruct (Z.ltb_spec (zlen hist) (filter_end f)) as [Hopen|Hdone].
  { exists d1, w1, 0%nat, start, (raw limit hist pos start). rewrite Nat.add_0_r. split_and!; try done. lia. }
  assert (start = block_start f) as Hs by (destruct Hf as (_ & ? & _); lia).
  rewrite Hs in Hh1. destruct (write_block_moves d1 w1 hist f Hh1 Hf Hdone) as (d2 & w2 & Hrun2 & Hh2 & Hw2 & Hk2 & Hq2 & _ & He2).
  rewrite (bind_run _ _ _ _ _ Hrun2).
  destruct (IH d2 w2 (filter_end f) (S retired) Hh2 Hin) as (d' & w' & k & p & out & Hrun & Hh' & Hw & Hk & Hq & He & Hle & Href).
  exists d', w', (S k), p, (raw limit hist pos start ++ filtered base hist f ++ out). rewrite Hrun, Href.
  replace (S retired + k)%nat with (retired + S k)%nat by lia. split_and!; try done; try congruence.
  - by rewrite Hw, Hw2, Hw1, <- !app_assoc.
  - rewrite !zlen_app. lia.
  - cbn; lia.
  - cbn [Nat.eqb length drop]. destruct (k =? length rest)%nat; by rewrite <- ?app_assoc.
Qed.

Lemma recompute_holds d hist pos : holds d hist pos -> holds (recompute_flush_border d) hist pos.
Proof. by intros []. Qed.
Lemma set_filters_holds q d hist pos : holds d hist pos -> holds (set_filters q d) hist pos.
Proof. by intros []. Qed.

Definition border (total pos : Z) : Z := flush_border total pos dict (Z.min (Z.max dict 1) UNPACK_MAX_WRITE).

Lemma recompute_border d hist pos : holds d hist pos -> flush_at (recompute_flush_border d) = border (zlen hist) pos.
Proof. intros Hh. destruct (holds_pos _ _ _ Hh) as (_ & Hf & Ht & Hd). cbn. unfold border, flush_threshold. by rewrite Hf, Ht, Hd. Qed.

(** A flush of either kind writes what the reference says. *)
Lemma flush_moves d w hist pos : holds d hist pos -> Forall inside (pending_filters d) ->
  let '(out, p, open) := flush_ref base limit hist (pending_filters d) (zlen hist) pos in
  exists d' w', flush_filters_and_write (d, w) = (Ok tt, (d', w')) /\ holds d' hist p /\ written w' = written w ++ out /\ kept d' = kept d /\
    pending_filters d' = open /\ flush_at d' = border (zlen hist) p /\ current_file_emitted d' = current_file_emitted d + zlen out.
Proof.
  intros Hh Hin. pose proof (holds_pos _ _ _ Hh) as (Hr & Hflushed & Htotal & Hdict).
  unfold flush_filters_and_write, get_self. rewrite bind_gets. cbn [fst]. destruct (pending_filters d) as [|f rest] eqn:Eq.
  - cbn [flush_ref]. unfold flush_unfiltered_stream_output, get_self. rewrite bind_gets. cbn [fst]. rewrite Htotal.
    destruct (write_raw_span_moves d w hist pos (zlen hist) Hh ltac:(lia)) as (d1 & w1 & Hrun & Hh1 & Hw1 & Hk1 & Hq1 & _ & He1).
    exists (recompute_flush_border d1), w1. rewrite (bind_run _ _ _ _ _ Hrun). split; [done|].
    split; [by apply recompute_holds|]. split_and!; try done; [cbn; congruence | by eapply recompute_border].
  - rewrite <- Eq in *. rewrite Hflushed, Htotal.
    destruct (retire_moves hist (pending_filters d) d w pos 0 Hh Hin) as (d1 & w1 & k & p & out & Hrun & Hh1 & Hw1 & Hk1 & Hq1 & He1 & Hle & ->).
    pose proof (holds_pos _ _ _ Hh1) as (Hr1 & _). pose proof (h_size _ _ _ Hh1) as Hsize.
    rewrite (bind_run _ _ _ _ _ Hrun). rewrite Nat.add_0_l.
    assert (Hend : forall p' (d2 : t) (w2 : W), holds d2 hist p' -> kept d2 = kept d ->
      exists d', (_ ← window_step (Window.mark_flushed p'); modify_self recompute_flush_border) (d2, w2) = (Ok tt, (d', w2)) /\ holds d' hist p' /\
        kept d' = kept d /\ pending_filters d' = pending_filters d2 /\ flush_at d' = border (zlen hist) p' /\ current_file_emitted d' = current_file_emitted d2).
    { intros p' d2 w2 Hh2 Hk2. pose proof (holds_pos _ _ _ Hh2) as (Hr2 & _).
      destruct (mark_moves (window d2) hist p' p' (h_window _ _ _ Hh2) Hsize ltac:(lia)) as (win & Hmark & Hwin).
      assert (Hh3 : holds (set_window win d2) hist p') by (constructor; [exact Hwin | apply Hh2..]).
      exists (recompute_flush_border (set_window win d2)). rewrite (bind_run _ _ _ _ _ (window_step_run _ _ _ _ Hmark)).
      split; [done|]. split; [by apply recompute_holds|]. split; [done|]. split; [done|]. split; [by apply recompute_border | done]. }
    destruct (k =? length (pending_filters d))%nat.
    + assert (Hraw : exists d2 w2, (_ ← modify_self (set_filters []); if p <? zlen hist then _ ← write_raw_span (zlen hist); mret (zlen hist) else mret p) (d1, w1) = (Ok (zlen hist), (d2, w2)) /\
        holds d2 hist (zlen hist) /\ written w2 = written w1 ++ raw limit hist p (zlen hist) /\ kept d2 = kept d /\ pending_filters d2 = [] /\
        current_file_emitted d2 = current_file_emitted d1 + zlen (raw limit hist p (zlen hist))).
      { change ((_ ← modify_self (W := W) (set_filters []); if p <? zlen hist then _ ← write_raw_span (zlen hist); mret (zlen hist) else mret p) (d1, w1))
          with ((if p <? zlen hist then _ ← write_raw_span (zlen hist); mret (zlen hist) else mret p) (set_filters [] d1, w1)).
        pose proof (set_filters_holds [] _ _ _ Hh1) as Hh1'. destruct (Z.ltb_spec p (zlen hist)).
        - destruct (write_raw_span_moves _ w1 hist p (zlen hist) Hh1' ltac:(lia)) as (d2 & w2 & Hrun2 & Hh2 & Hw2 & Hk2 & Hq2 & _ & He2).
          exists d2, w2. rewrite (bind_run _ _ _ _ _ Hrun2). split_and!; try done. by rewrite Hk2.
        - assert (p = zlen hist) as -> by lia. exists (set_filters [] d1), w1. unfold raw. rewrite out_span_nil, app_nil_r by lia.
          change (zlen []) with 0. split_and!; try done. cbn; lia. }
      destruct Hraw as (d2 & w2 & Hrun2 & Hh2 & Hw2 & Hk2 & Hq2 & He2). rewrite (bind_run _ _ _ _ _ Hrun2).
      destruct (Hend (zlen hist) d2 w2 Hh2 Hk2) as (d' & -> & Hh' & Hk' & Hq' & Hb' & He').
      exists d', w2. split; [done|]. split; [done|]. split; [by rewrite Hw2, Hw1, app_assoc|]. split_and!; try done; try congruence. rewrite zlen_app. lia.
    + assert (Hdrop : exists d2, (if (0 <? k)%nat then _ ← modify_self (set_filters (drop k (pending_filters d))); mret p else mret p) (d1, w1) = (Ok p, (d2, w1)) /\
        holds d2 hist p /\ kept d2 = kept d /\ pending_filters d2 = drop k (pending_filters d) /\ current_file_emitted d2 = current_file_emitted d1).
      { destruct (Nat.ltb_spec 0 k).
        - exists (set_filters (drop k (pending_filters d)) d1). split; [done|]. split; [by apply set_filters_holds | done].
        - assert (k = 0)%nat as -> by lia. exists d1. split_and!; done. }
      destruct Hdrop as (d2 & Hrun2 & Hh2 & Hk2 & Hq2 & He2). rewrite (bind_run _ _ _ _ _ Hrun2).
      destruct (Hend p d2 w1 Hh2 Hk2) as (d' & -> & Hh' & Hk' & Hq' & Hb' & He').
      exists d', w1. split; [done|]. split; [done|]. split; [done|]. split_and!; try done; try congruence.
Qed.
End code.
