(* ===== verification/LzReference.v ===== *)
(** The reference RAR5 decoder: the format read off the bits of the whole input,
    with the whole output in a list; no window, no write border, no queue. *)
From stdpp Require Import sorting.
From S2P Require Import Prelude RarTypes StateM BitString LzWindow LzCopies LzHistory LzBits LzHuffman LzHuffmanDecode LzTables LzFilter LzDecoder.
Import LzDecoder.

#[export] Instance spec_bit_ops : BitOps bits_spec :=
  {| pure A := spec_lift; get_bits := spec_read; get_bits64 := spec_read64; get_symbol := scan_decode |}.
Definition spec_pos : bits_spec Z := fun _ pos => Ok (pos, pos).

Record ref := mk_ref {
  r_hist : list byte;                (* everything decoded *)
  r_dists : list Z;                  (* the last four distances *)
  r_length : Z;                      (* the last length *)
  r_tables : option tables;
  r_lens : list Z;
  r_extra : bool;
  r_bits : Z;                        (* bits left in the block *)
  r_last : bool;                     (* the block is the last one *)
  r_arrivals : list PendingFilter    (* descriptors, in the order read *)
}.
Definition ref_hist hist s := mk_ref hist (r_dists s) (r_length s) (r_tables s) (r_lens s) (r_extra s) (r_bits s) (r_last s) (r_arrivals s).
Definition ref_match_state dists length s := mk_ref (r_hist s) dists length (r_tables s) (r_lens s) (r_extra s) (r_bits s) (r_last s) (r_arrivals s).
Definition ref_block_state bits last s := mk_ref (r_hist s) (r_dists s) (r_length s) (r_tables s) (r_lens s) (r_extra s) bits last (r_arrivals s).
Definition ref_tables tables lens s := mk_ref (r_hist s) (r_dists s) (r_length s) tables lens (r_extra s) (r_bits s) (r_last s) (r_arrivals s).
Definition ref_arrivals arrivals s := mk_ref (r_hist s) (r_dists s) (r_length s) (r_tables s) (r_lens s) (r_extra s) (r_bits s) (r_last s) arrivals.

(** A block header, with the tables behind it if it carries any. *)
Definition ref_header (s : ref) : bits_spec ref :=
  _ ← spec_align;
  flags ← read_u8;
  checksum ← read_u8;
  let size_bytes := Z.land (Z.shiftr flags 3) 0x03 + 1 in
  if 3 <? size_bytes then spec_lift (Err CorruptArchive)
  else
    '(block_bytes, xor_sum) ← read_size_bytes (Z.to_nat size_bytes) 0 0 (Z.lxor 0x5A flags);
    if negb (xor_sum =? checksum) then spec_lift (Err (BlockHeaderChecksumMismatch checksum xor_sum))
    else
      let bits := if block_bytes =? 0 then 0 else Z.land flags 0x07 + 1 + (block_bytes - 1) * 8 in
      let s := ref_block_state bits (has flags 0x40) s in
      if has flags 0x80 then
        before ← spec_pos;
        '(built, lens) ← spec_tables (r_lens s) (r_extra s);
        after ← spec_pos;
        mret (ref_block_state (bits - (after - before)) (r_last s) (ref_tables (Some built) lens s))
      else
        match r_tables s with None => spec_lift (Err CorruptArchive) | Some _ => mret s end.

Section member.
Context (dict base declared : Z).

(** The bytes of a match. *)
Definition ref_copy (distance length : Z) (s : ref) : ref := ref_hist (r_hist s ++ lz_match dict (r_hist s) distance length) s.
Definition remember (distance : Z) (dists : list Z) : list Z := distance :: take 3 dists.
(** The [i]-th last distance moves to the front. *)
Definition promote (i : nat) (dists : list Z) : list Z := nth i dists 0 :: take i dists ++ drop (S i) dists.

(** The descriptors this reference covers: a block that lies inside the member
    and fits the window next to one more match, with room in the queue. *)
Definition admissible (f : PendingFilter) (arrivals : list PendingFilter) : bool :=
  (block_start f + block_length f <=? base + declared) && (block_length f <=? dict - MAX_INCREMENTAL_LZ_MATCH) && (zlen arrivals <? MAX_PENDING_FILTERS).

(** One symbol and what belongs to it. Streams outside the reference are a panic here. *)
Definition ref_item (tb : tables) (s : ref) : bits_spec ref :=
  let '(nc, dc, ldc, rc) := tb in
  sym ← scan_decode nc;
  if sym <? 256 then mret (ref_hist (r_hist s ++ [byte_of sym]) s)
  else if 262 <=? sym then
    length ← slot_to_length (sym - 262);
    distance ← decode_distance (r_extra s) dc ldc;
    let length := adjust_length_for_distance length distance in
    mret (ref_copy distance length (ref_match_state (remember distance (r_dists s)) length s))
  else if sym =? 256 then
    f ← read_filter base (zlen (r_hist s) - base);
    if admissible f (r_arrivals s) then mret (ref_arrivals (r_arrivals s ++ [f]) s) else spec_lift Panic
  else if sym =? 257 then
    mret (if r_length s =? 0 then s else ref_copy (nth 0 (r_dists s) 0) (r_length s) s)
  else
    let i := Z.to_nat (sym - 258) in
    length ← decode_rc_length rc;
    mret (ref_copy (nth i (r_dists s) 0) length (ref_match_state (promote i (r_dists s)) length s)).

(** Symbols up to the end of the block, of the member or of the input. *)
Fixpoint ref_items (fuel : nat) (tb : tables) (stop : Z) (s : ref) : bits_spec ref :=
  match fuel with
  | O => spec_lift Panic
  | S fuel =>
    pos ← spec_pos;
    if (zlen (r_hist s) - base <? declared) && (pos <? stop) then
      some_left ← spec_has_bits;
      if negb some_left then mret s else s ← ref_item tb s; ref_items fuel tb stop s
    else mret s
  end.

Definition ref_block (s : ref) : bits_spec ref :=
  pos ← spec_pos;
  match r_tables s with
  | None => spec_lift (Err CorruptArchive)
  | Some tb =>
    let stop := pos + r_bits s in
    s ← ref_items (S (Z.to_nat (r_bits s))) tb stop s;
    pos ← spec_pos;
    mret (ref_block_state (stop - pos) (r_last s) s)
  end.

(** Blocks until the member is complete, its last block is used up, or no
    header fits the rest of the input. *)
Fixpoint ref_blocks (fuel : nat) (s : ref) : bits_spec ref :=
  match fuel with
  | O => spec_lift Panic
  | S fuel =>
    if zlen (r_hist s) - base <? declared then
      if r_bits s <=? 0 then
        if r_last s then mret s
        else
          header_fits ← spec_exact 16;
          if (header_fits : bool) then s ← ref_header s; s ← ref_block s; ref_blocks fuel s else mret s
      else s ← ref_block s; ref_blocks fuel s
    else mret s
  end.
End member.

(** A member read from the state the last one left: no block ends it, no
    descriptor waits. The turns allowed are as many as the input has bits. *)
Definition ref_member (dict declared : Z) (s : ref) : bits_spec ref := fun data pos =>
  ref_blocks dict (zlen (r_hist s)) declared (Z.to_nat (bit_len data - pos) + 2) (ref_arrivals [] (ref_block_state (r_bits s) false s)) data pos.
