(* ===== verification/LzReading.v ===== *)
(** Reading symbols, lengths, distances and filter descriptors: over a lawful
    reader each is what the same definition reads off the bits, and what it
    yields is in range. *)
From stdpp Require Import sorting.
From S2P Require Import Prelude RarTypes StateM BitString LzWindow LzCopies LzHistory LzOutput LzWindowProps LzFilter LzFilterProps.
From S2P Require Import LzBits LzBitReader LzStreamReader LzHuffman LzHuffmanProps LzHuffmanDecode LzTables LzDecoder LzFlush LzReference.
Import LzDecoder.

(** * Values that are read *)

Definition yields {A} (f : bits_spec A) (P : A -> Prop) : Prop := forall data pos a p, f data pos = Ok (a, p) -> P a.

Lemma yields_bind {A B} (f : bits_spec A) (g : A -> bits_spec B) P Q : yields f P -> (forall a, P a -> yields (g a) Q) -> yields (f ≫= g) Q.
Proof.
  intros Hf Hg data pos b p. unfold mbind, bits_spec_bind. destruct (f data pos) as [[a q]| |] eqn:E; [|done..]. apply Hg. by eapply Hf.
Qed.
Lemma yields_ret {A} (a : A) (P : A -> Prop) : P a -> yields (mret a) P.
Proof. intros Ha data pos b p [= <- _]. done. Qed.
Lemma yields_lift {A} (m : result A) (P : A -> Prop) : (forall a, m = Ok a -> P a) -> yields (spec_lift m) P.
Proof. intros Hm data pos a p. unfold spec_lift. destruct m; [intros [= -> _]; by apply Hm | done..]. Qed.
Lemma yields_true {A} (f : bits_spec A) : yields f (fun _ => True).
Proof. done. Qed.
Lemma yields_bits n : 0 <= n -> yields (spec_read n) (fun v => 0 <= v < 2 ^ n).
Proof. intros Hn data pos a p. unfold spec_read. destruct (fits data pos n); [intros [= <- _]; by apply field_range | done]. Qed.
Lemma yields_bits64 n : 0 <= n <= 64 -> yields (spec_read64 n) (fun v => 0 <= v < 2 ^ n).
Proof.
  intros Hn. unfold spec_read64. destruct (Z.leb_spec n 32); [apply yields_bits; lia|].
  apply (yields_bind _ _ (fun v => 0 <= v < 2 ^ (n - 32))); [apply yields_bits; lia|]. intros high Hh.
  apply (yields_bind _ _ (fun v => 0 <= v < 2 ^ 32)); [apply yields_bits; lia|]. intros low Hl. apply yields_ret.
  replace n with (n - 32 + 32) by lia. rewrite Z.pow_add_r by lia. nia.
Qed.

(** A table that was built from code lengths. *)
Definition sound_table (n : Z) (table : HuffmanTable.t) : Prop := exists lens q, zlen lens = n /\ lengths_ok lens /\ built lens table q.
(** The tables of a block, read with or without the wide distances. *)
Definition sound_tables (extra : bool) (tb : tables) : Prop :=
  let '(nc, dc, ldc, rc) := tb in
  sound_table HUFF_NC nc /\ sound_table (if extra then HUFF_DCX else HUFF_DCB) dc /\ sound_table HUFF_LDC ldc /\ sound_table HUFF_RC rc.

Lemma sound_build lens table : lengths_ok lens -> HuffmanTable.build lens = Ok table -> sound_table (zlen lens) table.
Proof. intros Hok Hb. destruct (build_built lens table Hok Hb) as (q & Hq). by exists lens, q. Qed.

Lemma yields_symbol {n} table : sound_table n table -> yields (scan_decode table) (fun s => 0 <= s <= Z.max 0 (n - 1)).
Proof.
  intros (lens & q & <- & Hok & Hb) data pos a p Hrun. pose proof (scan_in_range lens table q Hok Hb data pos) as Hg. by rewrite Hrun in Hg.
Qed.

(** The tables of a block are sound. *)
Lemma sound_part all total a n part table : 0 <= a -> 0 <= n <= MAX_NUM_SYMBOLS -> a + n <= total -> total <= zlen all -> code_lens (ztake total all) ->
  slice (E := rar_error) all a (a + n) = Ok part -> HuffmanTable.build part = Ok table -> sound_table n table.
Proof.
  intros Ha Hn Hle Hlen Hall Hs Hb. rewrite slice_ok in Hs by lia. injection Hs as <-. replace (a + n - a) with n in Hb by lia.
  assert (Hz : zlen (ztake n (zdrop a all)) = n) by (rewrite zlen_take; rewrite ?zlen_drop; lia).
  rewrite <- Hz. apply (sound_build (ztake n (zdrop a all))); [|done]. split; [lia|].
  rewrite <- (LzStreamReader.window_take all total) by lia. rewrite ztake_nat, zdrop_nat by lia. by apply Forall_take, Forall_drop.
Qed.

Lemma combined_sound all extra tb : total_symbols extra <= zlen all -> code_lens (ztake (total_symbols extra) all) ->
  build_tables_from_combined_lengths all extra = Ok tb -> sound_tables extra tb.
Proof.
  intros Hlen Hall. unfold build_tables_from_combined_lengths. cbv zeta.
  set (dc := if extra then HUFF_DCX else HUFF_DCB) in *. assert (Hdc : 64 <= dc <= 80) by (unfold dc, HUFF_DCX, HUFF_DCB; destruct extra; lia).
  assert (Htotal : total_symbols extra = HUFF_NC + dc + HUFF_LDC + HUFF_RC) by done.
  assert (Hpart : forall a n part table, 0 <= a -> 0 <= n <= MAX_NUM_SYMBOLS -> a + n <= total_symbols extra ->
    slice (E := rar_error) all a (a + n) = Ok part -> HuffmanTable.build part = Ok table -> sound_table n table).
  { intros a n part table Ha Hn Hle. by apply (sound_part all (total_symbols extra)). }
  destruct tb as [[[nc dct] ldc] rc]. unfold sound_tables. fold dc. intros Hrun.
  apply bind_Ok_inv in Hrun as (p1 & Hs1 & (t1 & Hb1 & Hrun)%bind_Ok_inv). apply bind_Ok_inv in Hrun as (p2 & Hs2 & (t2 & Hb2 & Hrun)%bind_Ok_inv).
  apply bind_Ok_inv in Hrun as (p3 & Hs3 & (t3 & Hb3 & Hrun)%bind_Ok_inv). apply bind_Ok_inv in Hrun as (p4 & Hs4 & (t4 & Hb4 & Hrun)%bind_Ok_inv).
  injection Hrun as <- <- <- <-. unfold MAX_NUM_SYMBOLS, HUFF_NC, HUFF_LDC, HUFF_RC in *.
  split_and!; [eapply (Hpart 0) | eapply (Hpart (0 + 306)) | eapply (Hpart (0 + 306 + dc)) | eapply (Hpart (0 + 306 + dc + 16))]; try eassumption; lia.
Qed.

(** ** Lengths and distances *)

Definition MAX_LENGTH : Z := 0x1001.

Lemma slot_value slot extra : 8 <= slot < 44 -> 0 <= extra < 2 ^ (slot / 4 - 1) ->
  2 <= 2 + Z.shiftl (Z.lor 4 (Z.land slot 3)) (slot / 4 - 1) + extra <= MAX_LENGTH.
Proof.
  intros Hs He. set (l := slot / 4 - 1) in *. assert (Hl : 1 <= l <= 9) by (unfold l; Z.to_euclidean_division_equations; lia).
  assert (Hm : 0 <= Z.lor 4 (Z.land slot 3) <= 7).
  { pose proof (land_range_r slot 3 2 ltac:(lia) ltac:(lia)). pose proof (lor_range 4 (Z.land slot 3) 3 ltac:(lia) ltac:(lia) ltac:(lia)). lia. }
  rewrite Z.shiftl_mul_pow2 by lia. assert (2 ^ l <= 2 ^ 9) by (apply Z.pow_le_mono_r; lia). unfold MAX_LENGTH. nia.
Qed.

Lemma yields_length slot : 0 <= slot -> yields (slot_to_length slot) (fun n => 2 <= n <= MAX_LENGTH).
Proof.
  intros Hs. unfold slot_to_length. apply (yields_bind _ _ (fun _ => slot < 44)).
  { apply yields_lift. intros []. unfold debug_check, NUM_LENGTH_SLOTS. destruct (Z.ltb_spec slot 44); done. }
  intros _ Hlt. destruct (Z.ltb_spec slot 8).
  - cbn [Z.ltb]. apply (yields_bind _ _ (fun v => v = 0)); [by apply yields_ret|]. intros v ->. apply yields_ret. unfold MAX_LENGTH. lia.
  - assert (Hl : 0 < slot / 4 - 1) by (Z.to_euclidean_division_equations; lia). cbv zeta. rewrite (proj2 (Z.ltb_lt _ _)) by lia.
    apply (yields_bind _ _ _ _ (yields_bits (slot / 4 - 1) ltac:(lia))). intros v Hv. apply yields_ret. apply slot_value; lia.
Qed.

Lemma yields_rc {n} rc : sound_table n rc -> yields (decode_rc_length rc) (fun n => 2 <= n <= MAX_LENGTH).
Proof. intros Hrc. unfold decode_rc_length. apply (yields_bind _ _ _ _ (yields_symbol rc Hrc)). intros slot Hslot. apply yields_length. lia. Qed.

Lemma adjust_range length distance : length <= adjust_length_for_distance length distance <= length + 3.
Proof. unfold adjust_length_for_distance. cbv zeta. repeat destruct (_ <? _); lia. Qed.

Lemma parts_positive code n hi lo d : 0 <= hi -> 0 <= lo -> distance_from_slot_parts code n hi lo = Ok d -> 1 <= d.
Proof.
  intros Hh Hl. unfold distance_from_slot_parts, debug_check. destruct (n <=? 38); [rewrite bind_Ok|done].
  set (b := wrap64 _). pose proof (wrap64_range (Z.shiftl (Z.lor 2 (Z.land code 1)) n)) as Hb. fold b in Hb.
  unfold add_u64. destruct (_ <? _); [rewrite bind_Ok|done]. destruct (_ <? _); [rewrite bind_Ok|done]. destruct (_ <? _); [|done].
  intros [= <-]. lia.
Qed.

Lemma yields_distance {n1 n2} extra dc ldc : sound_table n1 dc -> sound_table n2 ldc -> yields (decode_distance extra dc ldc) (fun d => 1 <= d).
Proof.
  intros Hdc Hldc. unfold decode_distance. apply (yields_bind _ _ _ _ (yields_symbol dc Hdc)). intros code Hcode.
  apply (yields_bind _ _ (fun _ => code <= 79)).
  { apply yields_lift. intros []. unfold debug_check. destruct (Z.leb_spec code (if extra then 79 else 63)); [|done]. destruct extra; lia. }
  intros _ Hle. destruct (Z.ltb_spec code 4); [apply yields_ret; lia|]. cbv zeta. rewrite Z.shiftr_div_pow2 by lia. change (2 ^ 1) with 2.
  assert (Hn : 1 <= code / 2 - 1 <= 38) by (Z.to_euclidean_division_equations; lia).
  destruct (Z.leb_spec 4 (code / 2 - 1)).
  - apply (yields_bind _ _ (fun v => 0 <= v)).
    { destruct (Z.ltb_spec 4 (code / 2 - 1)); [|by apply yields_ret]. apply (yields_bind _ _ (fun _ => True)); [apply yields_true|].
      intros v _. apply yields_ret. apply wrap64_range. }
    intros high Hh. apply (yields_bind _ _ _ _ (yields_symbol ldc Hldc)). intros low Hlow. apply yields_lift.
    intros d. apply parts_positive; lia.
  - apply (yields_bind _ _ _ _ (yields_bits64 (code / 2 - 1) ltac:(lia))). intros e He. apply yields_lift. intros d. apply parts_positive; lia.
Qed.

(** ** Filter descriptors *)

Lemma yields_filter_data : yields read_filter_data (fun v => 0 <= v < 2 ^ 32).
Proof.
  unfold read_filter_data. apply (yields_bind _ _ (fun _ => True)); [apply yields_true|]. intros n _.
  assert (Hloop : forall k i data, 0 <= data < 2 ^ 32 -> yields (read_filter_bytes k i data) (fun v => 0 <= v < 2 ^ 32)); [|by apply Hloop].
  induction k as [|k IH]; intros i data Hd; cbn [read_filter_bytes]; [by apply yields_ret|].
  apply (yields_bind _ _ (fun _ => True)); [apply yields_true|]. intros v _. apply IH. apply lor_range; [lia | done|]. apply wrap32_range.
Qed.

Lemma yields_filter base out : yields (read_filter base out) (fun f => base + out <= block_start f /\ 0 <= block_length f /\ 0 <= channels f).
Proof.
  unfold read_filter. apply (yields_bind _ _ _ _ yields_filter_data). intros delta Hdelta.
  apply (yields_bind _ _ (fun start => start = base + out)).
  { apply yields_lift. intros a. unfold add_u64. destruct (_ <? _); [by intros [= <-] | done]. }
  intros start ->. apply (yields_bind _ _ (fun x => x = base + out + delta)).
  { apply yields_lift. intros a. unfold add_u64. destruct (_ <? _); [by intros [= <-] | done]. }
  intros x ->. apply (yields_bind _ _ _ _ yields_filter_data). intros length Hlen.
  apply (yields_bind _ _ (fun _ => True)); [apply yields_true|]. intros code _. cbv zeta.
  apply (yields_bind _ _ (fun c => 0 <= c)).
  - destruct (FilterType.from_code code); try (by apply yields_ret). apply (yields_bind _ _ (fun _ => True)); [apply yields_true|].
    intros v _. apply yields_ret. by apply Z.mod_pos_bound.
  - intros c Hc. apply yields_ret. cbn. split_and!; try done; try lia. destruct (_ <? _); lia.
Qed.

(** ** Block sizes *)

Lemma yields_u8 : yields read_u8 (fun b => 0 <= b < 2 ^ 8).
Proof. unfold read_u8. apply (yields_bind _ _ (fun _ => True)); [apply yields_true|]. intros v _. apply yields_ret. by apply Z.mod_pos_bound. Qed.

Lemma yields_size n : forall i bytes sum, 0 <= i -> 0 <= bytes < 2 ^ (8 * i) ->
  yields (read_size_bytes n i bytes sum) (fun '(v, _) => 0 <= v < 2 ^ (8 * (i + Z.of_nat n))).
Proof.
  induction n as [|n IH]; intros i bytes sum Hi Hb; cbn [read_size_bytes].
  { apply yields_ret. replace (i + Z.of_nat 0) with i by lia. done. }
  apply (yields_bind _ _ _ _ yields_u8). intros b Hb8. replace (i + Z.of_nat (S n)) with (i + 1 + Z.of_nat n) by lia. apply IH; [lia|].
  assert (Hsh : 0 <= Z.shiftl b (i * 8) < 2 ^ (8 * (i + 1))).
  { rewrite Z.shiftl_mul_pow2 by lia. replace (8 * (i + 1)) with (8 + i * 8) by lia. rewrite Z.pow_add_r by lia.
    pose proof (Z.pow_pos_nonneg 2 (i * 8) ltac:(lia) ltac:(lia)). nia. }
  apply lor_range; [lia | | done]. split; [lia|]. eapply Z.lt_le_trans; [apply Hb|]. apply Z.pow_le_mono_r; lia.
Qed.

Lemma yields_tables prev extra : total_symbols extra <= zlen prev ->
  yields (spec_tables prev extra) (fun '(tb, lens) => sound_tables extra tb /\ zlen lens = zlen prev).
Proof.
  intros Hlen data pos [tb lens] p Hrun. pose proof (tables_given prev extra Hlen data pos) as Hg. rewrite Hrun in Hg.
  destruct Hg as (Hb & Hz & Hall). split; [|done]. eapply combined_sound; [|exact Hall|exact Hb]. lia.
Qed.

(** * Reads move forward, within the input *)

Definition forward {A} (n : Z) (f : bits_spec A) : Prop := forall data pos a p, f data pos = Ok (a, p) -> pos + n <= p /\ (pos <= bit_len data -> p <= bit_len data).

Lemma forward_bind {A B} n (f : bits_spec A) (g : A -> bits_spec B) : forward n f -> (forall a, forward 0 (g a)) -> forward n (f ≫= g).
Proof.
  intros Hf Hg data pos b p. unfold mbind, bits_spec_bind. destruct (f data pos) as [[a q]| |] eqn:E; [|done..].
  intros Hrun%Hg. apply Hf in E. lia.
Qed.
Lemma forward_ret {A} (a : A) : forward 0 (mret a).
Proof. intros data pos b p [= _ <-]. lia. Qed.
Lemma forward_lift {A} (m : result A) : forward 0 (spec_lift m).
Proof. intros data pos a p. unfold spec_lift. destruct m; [intros [= _ <-]; lia | done..]. Qed.
Lemma forward_bits n : 0 <= n -> forward 0 (spec_read n).
Proof. intros Hn data pos a p. unfold spec_read, fits. destruct (Z.leb_spec (pos + n) (bit_len data)); [intros [= _ <-]; lia | done]. Qed.
Lemma forward_bits64 n : 0 <= n -> forward 0 (spec_read64 n).
Proof.
  intros Hn. unfold spec_read64. destruct (Z.leb_spec n 32); [by apply forward_bits|].
  apply forward_bind; [apply forward_bits; lia|]. intros high. apply forward_bind; [by apply forward_bits|]. intros low. apply forward_ret.
Qed.
Lemma forward_symbol {n} table : sound_table n table -> forward 1 (scan_decode table).
Proof.
  intros (lens & q & _ & Hok & Hb) data pos a p. rewrite (scan_decode_at lens table q Hok Hb). destruct (fits data pos 1); [|done]. cbv zeta.
  set (f := Z.land _ _). pose proof (land_range_r (field data pos 16) 0xfffe 16 ltac:(lia) ltac:(lia)) as Hf. fold f in Hf.
  destruct (code_length_spec lens f ltac:(lia)) as (Hl & _). unfold fits. destruct (Z.leb_spec (pos + Z.of_nat (code_length lens f)) (bit_len data)); [|done].
  intros [= _ <-]. lia.
Qed.
Lemma forward_weaken {A} n (f : bits_spec A) : 0 <= n -> forward n f -> forward 0 f.
Proof. intros Hn Hf data pos a p Hrun%Hf. lia. Qed.

Lemma forward_symbol_0 {n} table : sound_table n table -> forward 0 (scan_decode table).
Proof. intros Ht. by eapply forward_weaken, forward_symbol. Qed.

Create HintDb forward discriminated.
#[local] Hint Resolve forward_ret forward_lift forward_bits forward_bits64 forward_symbol_0 : forward.
#[local] Hint Extern 2 (_ <= _) => lia : forward.
(** Sequences and branches of reads. *)
Ltac move_forward := repeat first
  [ solve [eauto with forward] | apply forward_bind; [|intros ?]
  | match goal with |- forward _ (if ?c then _ else _) => destruct c eqn:? end
  | match goal with |- forward _ (let '(_, _) := ?c in _) => destruct c eqn:? end ].

Lemma forward_length slot : forward 0 (slot_to_length slot).
Proof.
  unfold slot_to_length. move_forward.
Qed.
Lemma forward_rc {n} rc : sound_table n rc -> forward 0 (decode_rc_length rc).
Proof. intros Hrc. apply forward_bind; [by eapply forward_symbol_0 | apply forward_length]. Qed.
Lemma forward_distance {n1 n2} extra dc ldc : sound_table n1 dc -> sound_table n2 ldc -> forward 0 (decode_distance extra dc ldc).
Proof.
  intros Hdc Hldc. unfold decode_distance. cbn [pure get_bits get_bits64 get_symbol spec_bit_ops].
  apply forward_bind; [by eapply forward_symbol_0|]. intros code. apply forward_bind; [apply forward_lift|]. intros _.
  destruct (Z.ltb_spec code 4); [apply forward_ret|]. cbv zeta. assert (Hn : 1 <= Z.shiftr code 1 - 1).
  { rewrite Z.shiftr_div_pow2 by lia. change (2 ^ 1) with 2. Z.to_euclidean_division_equations; lia. }
  set (n := Z.shiftr code 1 - 1) in *. clearbody n. move_forward.
Qed.
Lemma forward_filter_data : forward 0 read_filter_data.
Proof.
  assert (Hloop : forall k i data, forward 0 (read_filter_bytes k i data)); [|unfold read_filter_data; by move_forward].
  induction k as [|k IH]; intros i data; cbn [read_filter_bytes]; move_forward.
Qed.
Lemma forward_filter base out : forward 0 (read_filter base out).
Proof.
  unfold read_filter. cbn [pure get_bits spec_bit_ops]. apply forward_bind; [apply forward_filter_data|]. intros delta.
  do 2 (apply forward_bind; [apply forward_lift|]; intros ?). apply forward_bind; [apply forward_filter_data|]. intros length.
  apply forward_bind; [by apply forward_bits|]. intros code. cbv zeta. destruct (FilterType.from_code code); move_forward.
Qed.

Lemma forward_item dict base declared wide tb s : sound_tables wide tb -> forward 1 (ref_item dict base declared tb s).
Proof.
  destruct tb as [[[nc dc] ldc] rc]. intros (Hnc & Hdc & Hldc & Hrc). unfold ref_item. apply forward_bind; [by eapply forward_symbol|]. intros sym.
  destruct (sym <? 256); [apply forward_ret|]. destruct (262 <=? sym).
  { apply forward_bind; [apply forward_length|]. intros n. apply forward_bind; [by eapply forward_distance|]. intros d. apply forward_ret. }
  destruct (sym =? 256).
  { apply forward_bind; [apply forward_filter|]. intros f. destruct (admissible _ _ _ _ _); [apply forward_ret | apply forward_lift]. }
  destruct (sym =? 257); [apply forward_ret|]. cbv zeta. apply forward_bind; [by eapply forward_rc|]. intros n. apply forward_ret.
Qed.

Lemma forward_pos : forward 0 spec_pos.
Proof. intros data pos a p [= _ <-]. lia. Qed.
Lemma forward_has_bits : forward 0 spec_has_bits.
Proof. intros data pos a p [= _ <-]. lia. Qed.

Lemma forward_items dict base declared wide tb stop fuel : forall s, sound_tables wide tb -> forward 0 (ref_items dict base declared fuel tb stop s).
Proof.
  induction fuel as [|fuel IH]; intros s Htb; cbn [ref_items]; [apply forward_lift|].
  apply forward_bind; [apply forward_pos|]. intros pos. destruct (_ && _); [|apply forward_ret].
  apply forward_bind; [apply forward_has_bits|]. intros [|]; cbn [negb]; [|apply forward_ret].
  apply forward_bind; [by eapply forward_weaken, forward_item|]. intros s'. by eapply IH.
Qed.

(** * Reading is reading the bits *)

Section reading.
Context {R : Type} `{BitReadLaws R}.
Local Abbreviation realizes := (realizes tracks).

Lemma symbol_realizes {n} table : sound_table n table -> realizes (get_symbol table) (get_symbol table).
Proof. intros (lens & q & _ & Hok & Hb). exact (decode_realizes lens table q Hok Hb). Qed.
Lemma bits_realize n : 0 <= n <= 32 -> realizes (get_bits n) (get_bits n).
Proof. apply read_bits_law. Qed.
Lemma bits64_realize n : 0 <= n <= 64 -> realizes (get_bits64 n) (get_bits64 n).
Proof. apply read_bits64_law. Qed.
Lemma pure_realizes {A} (m : result A) : realizes (pure m) (pure m).
Proof. apply realizes_lift. Qed.

(** After a check the condition holds. *)
Lemma check_realizes {A} b (k : unit -> stateM R rar_error A) (g : unit -> bits_spec A) : (b = true -> realizes (k tt) (g tt)) ->
  realizes (pure (debug_check b) ≫= k) (pure (debug_check b) ≫= g).
Proof.
  intros Hk. destruct b.
  - intros r data pos Hr. apply (Hk eq_refl r data pos Hr).
  - intros r data pos Hr. done.
Qed.

(** Sequences, branches and single reads. *)
Ltac reads := repeat first
  [ apply realizes_ret | apply pure_realizes | apply bits_realize; lia | apply bits64_realize; lia | by eapply symbol_realizes
  | apply check_realizes; intros ?
  | match goal with |- LzBits.realizes _ (if ?c then _ else _) (if ?c then _ else _) => let E := fresh "E" in destruct c eqn:E end
  | apply realizes_bind; [|first [intros [? ?] | intros ?]] ].

Lemma length_realizes slot : realizes (slot_to_length slot) (slot_to_length slot).
Proof.
  unfold slot_to_length. apply check_realizes. intros Hs%Z.ltb_lt. unfold NUM_LENGTH_SLOTS in Hs.
  destruct (slot <? 8); [cbn [Z.ltb]; reads|]. cbv zeta. assert (slot / 4 - 1 <= 9) by (Z.to_euclidean_division_equations; lia). reads.
Qed.

Lemma rc_realizes {n} rc : sound_table n rc -> realizes (decode_rc_length rc) (decode_rc_length rc).
Proof. intros Hrc. unfold decode_rc_length. apply realizes_bind; [by eapply symbol_realizes|]. intros slot. apply length_realizes. Qed.

Lemma distance_realizes {n1 n2} extra dc ldc : sound_table n1 dc -> sound_table n2 ldc -> realizes (decode_distance extra dc ldc) (decode_distance extra dc ldc).
Proof.
  intros Hdc Hldc. unfold decode_distance. apply realizes_bind; [by eapply symbol_realizes|]. intros code. apply check_realizes. intros Hc%Z.leb_le.
  destruct (Z.ltb_spec code 4); [reads|]. cbv zeta. assert (Hn : 1 <= Z.shiftr code 1 - 1 <= 38).
  { rewrite Z.shiftr_div_pow2 by lia. change (2 ^ 1) with 2. destruct extra; Z.to_euclidean_division_equations; lia. }
  set (n := Z.shiftr code 1 - 1) in *. clearbody n. reads.
Qed.

Lemma filter_data_realizes : realizes read_filter_data read_filter_data.
Proof.
  unfold read_filter_data. apply realizes_bind; [apply bits_realize; lia|]. intros n.
  generalize 0 at 2 4 as data. generalize 0 as i. induction (Z.to_nat (n + 1)) as [|k IH]; intros i data; cbn [read_filter_bytes]; reads. apply IH.
Qed.

Lemma filter_realizes base out : realizes (read_filter base out) (read_filter base out).
Proof.
  unfold read_filter. apply realizes_bind; [apply filter_data_realizes|]. intros delta.
  do 2 (apply realizes_bind; [apply pure_realizes|]; intros ?). apply realizes_bind; [apply filter_data_realizes|]. intros length.
  apply realizes_bind; [apply bits_realize; lia|]. intros code. cbv zeta. apply realizes_bind; [|intros; apply realizes_ret].
  destruct (FilterType.from_code code); reads.
Qed.

Lemma u8_realizes : realizes read_u8 read_u8.
Proof. unfold read_u8. reads. Qed.

Lemma tables_realize prev extra : realizes (read_tables prev extra) (spec_tables prev extra).
Proof.
  apply realizes_with; [intros n Hn; apply read_bits_law; lia | apply remaining_law |].
  intros lens table Hok Hbuild. destruct (build_built lens table Hok Hbuild) as (q & Hb). apply (decode_realizes lens table q Hok Hb).
Qed.

Lemma size_realizes n i bytes sum : realizes (read_size_bytes n i bytes sum) (read_size_bytes n i bytes sum).
Proof. revert i bytes sum. induction n as [|n IH]; intros i bytes sum; cbn [read_size_bytes]; [apply realizes_ret|].
  apply realizes_bind; [apply u8_realizes | intros b; apply IH]. Qed.
End reading.
