(* ===== verification/LzProgress.v ===== *)
(** The reference always gets somewhere: its reads move forward, the loop over
    blocks needs no more turns than the input has bits, and it has no result
    only where the stream leaves its domain. *)
From stdpp Require Import sorting.
From S2P Require Import Prelude RarTypes StateM BitString LzBits LzBitReader LzStreamReader LzReaders LzHuffman LzHuffmanProps LzHuffmanDecode LzTables LzWindow LzCopies.
From S2P Require Import LzHistory LzOutput LzWindowProps LzFilter LzFilterProps LzDecoder LzFlush LzReference LzReading.

Import LzDecoder.

(** * Headers move forward *)

Lemma forward_on {A B} n P (f : bits_spec A) (g : A -> bits_spec B) : forward n f -> yields f P -> (forall a, P a -> forward 0 (g a)) -> forward n (f ≫= g).
Proof.
  intros Hf HP Hg data pos b p. unfold mbind, bits_spec_bind. destruct (f data pos) as [[a q]| |] eqn:E; [|done..].
  pose proof (HP _ _ _ _ E) as Ha. intros Hrun%(Hg a Ha). apply Hf in E. lia.
Qed.

Lemma forward_bc fuel : forall i bc, forward 0 (read_bc_lengths (fun _ => spec_lift) spec_read fuel i bc).
Proof.
  induction fuel as [|fuel IH]; intros i bc; cbn [read_bc_lengths]; [apply forward_lift|]. destruct (i <? HUFF_BC); [|apply forward_ret].
  apply forward_bind; [apply forward_bits; lia|]. intros n. destruct (n =? 15).
  - apply forward_bind; [apply forward_bits; lia|]. intros z. destruct (z =? 0); (apply forward_bind; [apply forward_lift|]); [|intros [? ?]]; intros; apply IH.
  - apply forward_bind; [apply forward_lift|]. intros; apply IH.
Qed.

Lemma forward_lengths {n} fuel table total : sound_table n table -> forall i all,
  forward 0 (read_lengths (fun _ => spec_lift) spec_read spec_has_bits scan_decode fuel table total i all).
Proof.
  intros Ht. induction fuel as [|fuel IH]; intros i all; cbn [read_lengths]; [apply forward_lift|]. destruct (i <? total); [|apply forward_ret].
  apply forward_bind; [apply forward_has_bits|]. intros [|]; cbn [negb]; [|apply forward_lift].
  apply forward_bind; [by eapply forward_symbol_0|]. intros sym.
  assert (Hcount : forall c : bool, forward 0 (if c then n ← spec_read 3; mret (n + 3) else n ← spec_read 7; mret (n + 11))).
  { intros []; (apply forward_bind; [apply forward_bits; lia|]; intros; apply forward_ret). }
  destruct (sym <? 16); [apply forward_bind; [apply forward_lift|]; intros; apply IH|]. destruct (sym <? 18).
  - apply forward_bind; [apply Hcount|]. intros k. destruct (i =? 0); [apply forward_lift|].
    apply forward_bind; [apply forward_lift|]. intros v. apply forward_bind; [apply forward_lift|]. intros [? ?]. apply IH.
  - apply forward_bind; [apply Hcount|]. intros k. apply forward_bind; [apply forward_lift|]. intros [? ?]. apply IH.
Qed.

Lemma forward_tables prev extra : forward 0 (spec_tables prev extra).
Proof.
  unfold spec_tables, read_with. apply (forward_on _ (fun bc => zlen bc = HUFF_BC /\ Forall (fun l => 0 <= l <= MAX_CODE_LENGTH) bc)); [apply forward_bc | |].
  { intros data pos bc p Hrun. pose proof (bc_start data pos) as Hg. by rewrite Hrun in Hg. }
  intros bc Hbc. apply (forward_on _ (fun table => HuffmanTable.build bc = Ok table)); [apply forward_lift | by apply yields_lift|].
  intros table Hb. apply forward_bind; [by eapply forward_lengths, sound_build, Hb; apply bc_ok|]. intros all.
  apply forward_bind; [apply forward_lift|]. intros tb. apply forward_ret.
Qed.

Lemma forward_bits_all n : 0 <= n -> forward n (spec_read n).
Proof. intros Hn data pos a p. unfold spec_read, fits. destruct (Z.leb_spec (pos + n) (bit_len data)); [intros [= _ <-]; lia | done]. Qed.

Lemma forward_u8 : forward 8 read_u8.
Proof. apply forward_bind; [by apply forward_bits_all|]. intros v. apply forward_ret. Qed.
Lemma forward_size n : forall i bytes sum, forward 0 (read_size_bytes n i bytes sum).
Proof.
  induction n as [|n IH]; intros i bytes sum; cbn [read_size_bytes]; [apply forward_ret|].
  apply forward_bind; [by eapply forward_weaken, forward_u8|]. intros b. apply IH.
Qed.
Lemma forward_align : forward 0 spec_align.
Proof. intros data pos a p [= _ <-]. pose proof (Z.div_mod (pos + 7) 8). pose proof (Z.mod_pos_bound (pos + 7) 8). unfold bit_len. lia. Qed.

Lemma forward_seq {A B} m n (f : bits_spec A) (g : A -> bits_spec B) : forward m f -> (forall a, forward n (g a)) -> forward (m + n) (f ≫= g).
Proof.
  intros Hf Hg data pos b p. unfold mbind, bits_spec_bind. destruct (f data pos) as [[a q]| |] eqn:E; [|done..].
  intros Hrun%Hg. apply Hf in E. lia.
Qed.

Lemma forward_header s : forward 8 (ref_header s).
Proof.
  unfold ref_header. apply (forward_seq 0 8); [apply forward_align|]. intros _. apply forward_bind; [apply forward_u8|]. intros flags.
  apply forward_bind; [by eapply forward_weaken, forward_u8|]. intros checksum. cbv zeta. destruct (3 <? _); [apply forward_lift|].
  apply forward_bind; [apply forward_size|]. intros [block_bytes xor_sum]. destruct (negb _); [apply forward_lift|]. destruct (has flags 0x80).
  - apply forward_bind; [apply forward_pos|]. intros before. apply forward_bind; [apply forward_tables|]. intros [tb lens].
    apply forward_bind; [apply forward_pos|]. intros after. apply forward_ret.
  - destruct (r_tables _); [apply forward_ret | apply forward_lift].
Qed.

(** * Reads that cannot fail the reference's own checks *)

Lemma quiet_on {A B} P (f : bits_spec A) (g : A -> bits_spec B) : quiet f -> yields f P -> (forall a, P a -> quiet (g a)) -> quiet (f ≫= g).
Proof.
  intros Hf HP Hg data pos. unfold mbind, bits_spec_bind. specialize (Hf data pos). destruct (f data pos) as [[a p]| |] eqn:E; [|done..].
  apply Hg. by eapply HP.
Qed.
Lemma quiet_lift {A} (m : result A) : m <> Panic -> quiet (spec_lift m).
Proof. intros Hm data pos. by destruct m. Qed.
Lemma quiet_bits n : quiet (spec_read n).
Proof. apply (quiet_op (OpReadBits n)). Qed.
Lemma quiet_bits64 n : quiet (spec_read64 n).
Proof. apply (quiet_op (OpReadBits64 n)). Qed.
Lemma quiet_symbol {n} table : sound_table n table -> quiet (scan_decode table).
Proof.
  intros (lens & q & _ & Hok & Hb) data pos. pose proof (scan_in_range lens table q Hok Hb data pos) as Hg. by destruct (scan_decode table data pos).
Qed.
Lemma quiet_check {A} b (g : unit -> bits_spec A) : b = true -> quiet (g tt) -> quiet (spec_lift (debug_check b) ≫= g).
Proof. intros -> Hg. exact Hg. Qed.

Lemma quiet_length slot : slot < NUM_LENGTH_SLOTS -> quiet (slot_to_length slot).
Proof.
  intros Hs. unfold slot_to_length. apply quiet_check; [lia|]. destruct (slot <? 8).
  - cbn [Z.ltb]. apply quiet_bind; [apply quiet_ret|]. intros; apply quiet_ret.
  - cbv zeta. apply quiet_bind; [|intros; apply quiet_ret]. destruct (0 <? _); [apply quiet_bits | apply quiet_ret].
Qed.
Lemma quiet_rc rc : sound_table HUFF_RC rc -> quiet (decode_rc_length rc).
Proof.
  intros Hrc. apply (quiet_on _ _ _ (quiet_symbol rc Hrc) (yields_symbol rc Hrc)). intros slot Hs. apply quiet_length.
  unfold HUFF_RC, NUM_LENGTH_SLOTS in *. lia.
Qed.

Lemma parts_quiet code n hi lo : 1 <= n <= 38 -> 0 <= hi < 2 ^ n -> 0 <= lo < 16 -> distance_from_slot_parts code n hi lo <> Panic.
Proof.
  intros Hn Hh Hl. unfold distance_from_slot_parts, debug_check. rewrite (proj2 (Z.leb_le n 38)), bind_Ok by lia.
  pose proof (land_range_r code 1 1 ltac:(lia) ltac:(lia)). pose proof (lor_range 2 (Z.land code 1) 2 ltac:(lia) ltac:(lia) ltac:(lia)) as Hb.
  assert (Hpow : 2 ^ n <= 2 ^ 38) by (apply Z.pow_le_mono_r; lia).
  rewrite wrap64_small by (rewrite Z.shiftl_mul_pow2 by lia; nia). rewrite Z.shiftl_mul_pow2 by lia.
  rewrite add_u64_ok, bind_Ok by nia. rewrite add_u64_ok, bind_Ok by nia. rewrite add_u64_ok by nia. done.
Qed.

Lemma quiet_distance {n} (extra : bool) dc ldc : sound_table n dc -> n <= (if extra then HUFF_DCX else HUFF_DCB) -> sound_table HUFF_LDC ldc ->
  quiet (decode_distance extra dc ldc).
Proof.
  intros Hdc Hn Hldc. unfold decode_distance. cbn [pure get_bits get_bits64 get_symbol spec_bit_ops].
  apply (quiet_on _ _ _ (quiet_symbol dc Hdc) (yields_symbol dc Hdc)). intros code Hcode.
  unfold HUFF_DCX, HUFF_DCB, HUFF_LDC in *. apply quiet_check; [destruct extra; lia|].
  destruct (Z.ltb_spec code 4); [apply quiet_ret|]. cbv zeta. rewrite Z.shiftr_div_pow2 by lia. change (2 ^ 1) with 2.
  assert (Hk : 1 <= code / 2 - 1 <= 38) by (destruct extra; Z.to_euclidean_division_equations; lia). set (k := code / 2 - 1) in *. clearbody k.
  destruct (Z.leb_spec 4 k).
  - apply (quiet_on (fun v => 0 <= v < 2 ^ k)).
    + destruct (4 <? k); [|apply quiet_ret]. apply quiet_bind; [apply quiet_bits64|]. intros; apply quiet_ret.
    + pose proof (Z.pow_pos_nonneg 2 k ltac:(lia) ltac:(lia)). destruct (Z.ltb_spec 4 k); [|apply yields_ret; lia].
      apply (yields_bind _ _ _ _ (yields_bits64 (k - 4) ltac:(lia))). intros v Hv. apply yields_ret.
      assert (Hsplit : 2 ^ k = 2 ^ (k - 4) * 2 ^ 4) by (rewrite <- Z.pow_add_r by lia; f_equal; lia).
      assert (2 ^ k <= 2 ^ 38) by (apply Z.pow_le_mono_r; lia).
      rewrite wrap64_small by (rewrite Z.shiftl_mul_pow2 by lia; lia). rewrite Z.shiftl_mul_pow2 by lia. lia.
    + intros high Hhigh. apply (quiet_on _ _ _ (quiet_symbol ldc Hldc) (yields_symbol ldc Hldc)). intros low Hlow. apply quiet_lift, parts_quiet; lia.
  - apply (quiet_on _ _ _ (quiet_bits64 k) (yields_bits64 k ltac:(lia))). intros e He. apply quiet_lift, parts_quiet; lia.
Qed.

Lemma quiet_filter_data : quiet read_filter_data.
Proof.
  assert (Hloop : forall k i data, quiet (read_filter_bytes k i data)).
  { induction k as [|k IH]; intros i data; cbn [read_filter_bytes]; [apply quiet_ret|]. apply quiet_bind; [apply quiet_bits|]. intros v. apply IH. }
  apply quiet_bind; [apply quiet_bits|]. intros n. apply Hloop.
Qed.

Lemma quiet_filter base out : 0 <= base + out < 2 ^ 63 -> quiet (read_filter base out).
Proof.
  intros Hout. unfold read_filter. cbn [pure get_bits spec_bit_ops]. apply (quiet_on _ _ _ quiet_filter_data yields_filter_data). intros delta Hdelta.
  rewrite add_u64_ok by lia. apply (quiet_on (fun start : Z => start = base + out)); [by apply quiet_lift | apply yields_lift; by intros a [= <-]|].
  intros start ->. rewrite add_u64_ok by lia. apply quiet_bind; [by apply quiet_lift|]. intros x.
  apply quiet_bind; [apply quiet_filter_data|]. intros length. apply quiet_bind; [apply quiet_bits|]. intros code. cbv zeta.
  apply quiet_bind; [|intros; apply quiet_ret].
  destruct (FilterType.from_code code); try apply quiet_ret. apply quiet_bind; [apply quiet_bits|]. intros; apply quiet_ret.
Qed.

Lemma quiet_tables prev extra : total_symbols extra <= zlen prev -> quiet (spec_tables prev extra).
Proof. intros Hl data pos. pose proof (tables_given prev extra Hl data pos). by destruct (spec_tables prev extra data pos) as [[[? ?] ?]| |]. Qed.

Lemma quiet_u8 : quiet read_u8.
Proof. apply quiet_bind; [apply quiet_bits|]. intros; apply quiet_ret. Qed.
Lemma quiet_size n : forall i bytes sum, quiet (read_size_bytes n i bytes sum).
Proof. induction n as [|n IH]; intros i bytes sum; cbn [read_size_bytes]; [apply quiet_ret|]. apply quiet_bind; [apply quiet_u8|]. intros b. apply IH. Qed.

(** * States of the reference that can be met *)

(** Sound tables and lengths; [narrow] asks besides that tables over the wide
    distance alphabet are only met while that alphabet is in use. *)
Definition sound (narrow : bool) (s : ref) : Prop :=
  match r_tables s with Some tb => exists wide, sound_tables wide tb /\ (narrow = true -> wide = true -> r_extra s = true) | None => True end /\
  zlen (r_lens s) = total_symbols (r_extra s) /\ 0 <= r_length s <= MAX_INCREMENTAL_LZ_MATCH.

Section member.
Context (dict base declared : Z).
Local Abbreviation ref_item := (ref_item dict base declared).
Local Abbreviation ref_items := (ref_items dict base declared).
Local Abbreviation ref_block := (ref_block dict base declared).
Local Abbreviation ref_blocks := (ref_blocks dict base declared).

Lemma quiet_header narrow s : sound narrow s -> quiet (ref_header s).
Proof.
  intros (_ & Hlens & _). unfold ref_header. apply quiet_bind; [by intros ? ?|]. intros _. apply quiet_bind; [apply quiet_u8|]. intros flags.
  apply quiet_bind; [apply quiet_u8|]. intros checksum. cbv zeta. destruct (3 <? _); [by apply quiet_lift|].
  apply quiet_bind; [apply quiet_size|]. intros [block_bytes xor_sum]. destruct (negb _); [by apply quiet_lift|]. destruct (has flags 0x80).
  - apply quiet_bind; [by intros ? ?|]. intros before. apply quiet_bind; [apply quiet_tables; cbn; lia|]. intros [tb lens].
    apply quiet_bind; [by intros ? ?|]. intros after. apply quiet_ret.
  - destruct (r_tables _); [apply quiet_ret | by apply quiet_lift].
Qed.

(** What the symbols of a block leave alone. *)
Definition block_part (s : ref) := (r_tables s, r_lens s, r_extra s, r_bits s, r_last s).

(** What a symbol may do. *)
Definition step_ok (s s' : ref) : Prop :=
  block_part s' = block_part s /\ 0 <= r_length s' <= MAX_INCREMENTAL_LZ_MATCH /\ zlen (r_hist s') <= zlen (r_hist s) + MAX_INCREMENTAL_LZ_MATCH.

Lemma copy_ok s s1 distance n : block_part s1 = block_part s -> r_hist s1 = r_hist s -> 0 <= r_length s1 <= MAX_INCREMENTAL_LZ_MATCH -> 0 <= n <= MAX_INCREMENTAL_LZ_MATCH ->
  step_ok s (ref_copy dict distance n s1).
Proof. intros Hb Hh Hl Hn. split; [done|]. split; [done|]. cbn. rewrite zlen_app, zlen_lz_match, Hh by lia. lia. Qed.

Lemma item_part wide tb s : sound_tables wide tb -> 0 <= r_length s <= MAX_INCREMENTAL_LZ_MATCH -> yields (ref_item tb s) (step_ok s).
Proof.
  destruct tb as [[[nc dc] ldc] rc]. intros (Hnc & Hdc & Hldc & Hrc) Hlen. unfold LzReference.ref_item.
  assert (Hmax : MAX_INCREMENTAL_LZ_MATCH = 0x1004) by done. unfold MAX_LENGTH in *.
  apply (yields_bind _ _ _ _ (yields_symbol nc Hnc)). intros sym Hsym.
  destruct (sym <? 256). { apply yields_ret. split; [done|]. split; [done|]. cbn. rewrite zlen_app. change (zlen [_]) with 1. lia. }
  destruct (Z.leb_spec 262 sym).
  { apply (yields_bind _ _ _ _ (yields_length (sym - 262) ltac:(lia))). intros n Hn. apply (yields_bind _ _ _ _ (yields_distance _ dc ldc Hdc Hldc)). intros d Hd.
    apply yields_ret. pose proof (adjust_range n d). unfold MAX_LENGTH in Hn. apply copy_ok; cbn; try done; lia. }
  destruct (sym =? 256).
  { apply (yields_bind _ _ (fun _ => True)); [apply yields_true|]. intros f _. destruct (admissible _ _ _ _ _); [|by apply yields_lift].
    apply yields_ret. split; [done|]. split; [done|]. cbn. lia. }
  destruct (sym =? 257).
  { apply yields_ret. destruct (_ =? _); [split; [done|]; split; [done | lia] | by apply copy_ok]. }
  cbv zeta. apply (yields_bind _ _ _ _ (yields_rc rc Hrc)). intros n Hn. unfold MAX_LENGTH in Hn. apply yields_ret. apply copy_ok; cbn; try done; lia.
Qed.

Lemma items_part wide fuel tb stop : sound_tables wide tb -> forall s, 0 <= r_length s <= MAX_INCREMENTAL_LZ_MATCH ->
  yields (ref_items fuel tb stop s) (fun s' => block_part s' = block_part s /\ 0 <= r_length s' <= MAX_INCREMENTAL_LZ_MATCH).
Proof.
  intros Htb. induction fuel as [|fuel IH]; intros s Hlen; cbn [LzReference.ref_items]; [by apply yields_lift|].
  apply (yields_bind _ _ (fun _ => True)); [apply yields_true|]. intros pos _. destruct (_ && _); [|by apply yields_ret].
  apply (yields_bind _ _ (fun _ => True)); [apply yields_true|]. intros [|] _; cbn [negb]; [|by apply yields_ret].
  apply (yields_bind _ _ _ _ (item_part wide tb s Htb Hlen)). intros s' (Hs' & Hlen' & _). intros data q s'' p Hrun%IH; [|done]. destruct Hrun. split; [congruence | done].
Qed.

(** Symbols that read nothing change nothing. *)
Lemma items_still wide fuel tb stop s data pos s' : sound_tables wide tb -> ref_items fuel tb stop s data pos = Ok (s', pos) -> s' = s.
Proof.
  intros Htb. destruct fuel as [|fuel]; cbn [LzReference.ref_items]; [done|]. unfold mbind, bits_spec_bind, spec_pos.
  destruct (_ && _); [|by intros [= ->]]. unfold spec_has_bits. destruct (fits data pos 1); cbn [negb]; [|by intros [= ->]].
  destruct (ref_item tb s data pos) as [[s1 q]| |] eqn:E; [|done..]. intros Hrun.
  pose proof (forward_item _ _ _ wide tb s Htb _ _ _ _ E). pose proof (forward_items _ _ _ wide tb stop fuel s1 Htb _ _ _ _ Hrun). lia.
Qed.

Lemma block_steps narrow s data pos s' p : sound narrow s -> ref_block s data pos = Ok (s', p) -> (pos <= p /\ (pos <= bit_len data -> p <= bit_len data)) /\ (p = pos -> s' = s) /\ sound narrow s'.
Proof.
  intros (Hs & Hlens & Hlen). unfold LzReference.ref_block, mbind, bits_spec_bind, spec_pos. destruct (r_tables s) as [tb|] eqn:Et; [|done].
  destruct Hs as (wide & Htb & Hfit). destruct (ref_items _ tb _ s data pos) as [[s1 q]| |] eqn:E; [|done..]. intros [= <- <-].
  pose proof (forward_items _ _ _ wide tb _ _ s Htb _ _ _ _ E). destruct (items_part wide _ _ _ Htb s Hlen _ _ _ _ E) as [Hp Hlen']. injection Hp as Ht Hl He Hb Hla.
  split; [lia|]. split.
  - intros ->. apply (items_still wide) in E as ->; [|done]. unfold ref_block_state. replace (pos + r_bits s - pos) with (r_bits s) by lia. by destruct s.
  - split; [|split]; cbn; [|by rewrite Hl, He | done]. rewrite Ht, Et. exists wide. by rewrite He.
Qed.

Lemma header_sound narrow s data pos s' p : sound narrow s -> ref_header s data pos = Ok (s', p) -> sound narrow s' /\ r_hist s' = r_hist s.
Proof.
  intros Hs Hrun. assert (Hy : yields (ref_header s) (fun s' => sound narrow s' /\ r_hist s' = r_hist s)); [|by eapply Hy].
  unfold ref_header. do 3 (apply (yields_bind _ _ (fun _ => True)); [apply yields_true|]; intros ? _). cbv zeta. destruct (3 <? _); [by apply yields_lift|].
  apply (yields_bind _ _ (fun _ => True)); [apply yields_true|]. intros [block_bytes xor_sum] _. destruct (negb _); [by apply yields_lift|].
  destruct Hs as (Htb & Hlens & Hlen). destruct (has _ 0x80).
  - apply (yields_bind _ _ (fun _ => True)); [apply yields_true|]. intros before _. cbn [r_lens r_extra ref_block_state].
    apply (yields_bind _ _ _ _ (yields_tables (r_lens s) (r_extra s) ltac:(lia))). intros [tb lens] [Hsound Hl].
    apply (yields_bind _ _ (fun _ => True)); [apply yields_true|]. intros after _. apply yields_ret. split; [|done]. split; [|split]; cbn; [by exists (r_extra s) | lia | done].
  - destruct (r_tables s) as [tb|] eqn:Et; cbn [r_tables ref_block_state]; rewrite Et; [|by apply yields_lift]. apply yields_ret. split; [|done]. split; [|split]; cbn; [by rewrite Et | done..].
Qed.

(** * Enough turns *)

Context (data : list byte).
Definition owes (s : ref) : Prop := zlen (r_hist s) - base < declared.

(** A block that leaves everything as it was never ends. *)
Lemma still_block s pos : owes s -> 0 < r_bits s -> ref_block s data pos = Ok (s, pos) -> forall fuel, ref_blocks fuel s data pos = Panic.
Proof.
  intros Ho Hb Hstill fuel. induction fuel as [|fuel IH]; [done|]. cbn [LzReference.ref_blocks]. unfold owes in Ho.
  rewrite (proj2 (Z.ltb_lt _ _)), (proj2 (Z.leb_gt _ _)) by done. unfold mbind, bits_spec_bind. by rewrite Hstill.
Qed.

Lemma same_after {A B} (f : bits_spec A) (g h : A -> bits_spec B) pos : (forall a p, f data pos = Ok (a, p) -> g a data p = h a data p) ->
  (f ≫= g) data pos = (f ≫= h) data pos.
Proof. intros Hgh. unfold mbind, bits_spec_bind. destruct (f data pos) as [[a p]| |]; [by apply Hgh | done..]. Qed.

Lemma enough_turns narrow n : forall s pos fuel, sound narrow s -> pos <= bit_len data -> bit_len data - pos + 2 <= Z.of_nat n -> (n <= fuel)%nat ->
  ref_blocks fuel s data pos = ref_blocks n s data pos.
Proof.
  induction n as [|n IH]; intros s pos fuel Hs Hpos Hn Hf; [lia|]. destruct fuel as [|fuel]; [lia|]. cbn [LzReference.ref_blocks].
  destruct (Z.ltb_spec (zlen (r_hist s) - base) declared) as [Ho|]; [|done].
  assert (Hblock : forall s pos, sound narrow s -> pos <= bit_len data ->
    bit_len data - pos + 2 <= Z.of_nat n \/ (owes s /\ 0 < r_bits s /\ bit_len data - pos + 1 <= Z.of_nat n) ->
    (s' ← ref_block s; ref_blocks fuel s') data pos = (s' ← ref_block s; ref_blocks n s') data pos).
  { clear s pos Hs Hpos Hn Ho. intros s pos Hs Hpos Hn. unfold mbind, bits_spec_bind.
    destruct (ref_block s data pos) as [[s' p]| |] eqn:E; [|done..]. destruct (block_steps narrow s data pos s' p Hs E) as ((Hle & Hin) & Hstill & Hs').
    destruct Hn as [Hn | (Ho & Hb & Hn)]; [apply IH; try lia; auto|]. destruct (Z.eq_dec p pos) as [->|]; [|apply IH; try lia; auto].
    rewrite (Hstill eq_refl) in *. by rewrite !still_block. }
  destruct (Z.leb_spec (r_bits s) 0); [|apply Hblock; [done | done | right; split; [exact Ho | split; lia]]].
  destruct (r_last s); [done|]. apply same_after. intros fits p0 Hfits. injection Hfits as <- <-. destruct (LzBits.fits data pos 16); [|done].
  apply same_after. intros s1 p1 E. destruct (forward_header s _ _ _ _ E) as [Hmove Hin].
  apply Hblock; [by eapply header_sound in E as [? _] | auto | left; lia].
Qed.

(** * Where the reference has no result *)

(** A descriptor the reference does not cover. *)
Definition refused (s : ref) (pos : Z) : Prop :=
  exists f p1 p2, pos <= p1 /\ read_filter base (zlen (r_hist s) - base) data p1 = Ok (f, p2) /\ admissible dict base declared f (r_arrivals s) = false.
(** The input ends between two symbols of a block, with output owing. *)
Definition cut (s : ref) (pos : Z) : Prop := owes s /\ 0 < r_bits s /\ fits data pos 1 = false.

(** The states on the way, between symbols and between blocks. *)
Inductive meets : ref -> Z -> ref -> Z -> Prop :=
| meets_here s pos : meets s pos s pos
| meets_item s pos tb s1 p1 s2 p2 : r_tables s = Some tb -> owes s -> ref_item tb s data pos = Ok (s1, p1) -> meets s1 p1 s2 p2 -> meets s pos s2 p2
| meets_header s pos s1 p1 s2 p2 : ref_header s data pos = Ok (s1, p1) -> meets s1 p1 s2 p2 -> meets s pos s2 p2
| meets_block s pos s1 p1 s2 p2 : ref_block s data pos = Ok (s1, p1) -> meets s1 p1 s2 p2 -> meets s pos s2 p2.

Lemma bind_panics {A B} (f : bits_spec A) (g : A -> bits_spec B) pos : quiet f -> (f ≫= g) data pos = Panic -> exists a p, f data pos = Ok (a, p) /\ g a data p = Panic.
Proof.
  intros Hf. unfold mbind, bits_spec_bind. specialize (Hf data pos). destruct (f data pos) as [[a p]| |]; [|done..]. intros Hg. by exists a, p.
Qed.

Lemma item_panics wide tb s pos : sound_tables wide tb -> (wide = true -> r_extra s = true) -> zlen (r_hist s) < 2 ^ 63 ->
  ref_item tb s data pos = Panic -> refused s pos.
Proof.
  destruct tb as [[[nc dc] ldc] rc]. intros (Hnc & Hdc & Hldc & Hrc) Hwide Hsize. unfold LzReference.ref_item.
  intros (sym & p & Hsym & Hrun)%(bind_panics _ _ _ (quiet_symbol nc Hnc)). pose proof (forward_symbol nc Hnc _ _ _ _ Hsym) as [Hp _].
  apply (yields_symbol nc Hnc) in Hsym. unfold HUFF_NC in Hsym. destruct (sym <? 256); [done|]. destruct (Z.leb_spec 262 sym).
  { apply bind_panics in Hrun as (n & p1 & _ & Hrun); [|apply quiet_length; unfold NUM_LENGTH_SLOTS; lia].
    apply bind_panics in Hrun as (d & p2 & _ & Hrun); [done|]. apply (quiet_distance _ dc ldc Hdc); [|done].
    destruct wide; [by rewrite Hwide|]. unfold HUFF_DCX, HUFF_DCB. destruct (r_extra s); lia. }
  destruct (sym =? 256).
  { pose proof (zlen_nonneg (r_hist s)). apply bind_panics in Hrun as (f & p1 & Hf & Hrun); [|apply quiet_filter; lia].
    destruct (admissible _ _ _ _ _) eqn:Hadm; [done|]. exists f, p, p1. split_and!; done || lia. }
  destruct (sym =? 257); [done|]. cbv zeta in Hrun. by apply bind_panics in Hrun as (n & p1 & _ & Hrun); [|apply quiet_rc].
Qed.

Context (Hsize : base + declared + MAX_INCREMENTAL_LZ_MATCH < 2 ^ 63).

(** A sound state whose output fits its counters. *)
Definition within (s : ref) : Prop := sound true s /\ zlen (r_hist s) <= base + declared + MAX_INCREMENTAL_LZ_MATCH.

Lemma item_within tb s pos s' p : within s -> owes s -> r_tables s = Some tb -> ref_item tb s data pos = Ok (s', p) -> within s' /\ r_tables s' = Some tb.
Proof using Hsize.
  intros [(Hs & Hlens & Hlen) Hhist] Ho Ht Hrun. rewrite Ht in Hs. destruct Hs as (wide & Htb & Hwide).
  destruct (item_part wide tb s Htb Hlen _ _ _ _ Hrun) as (Hp & Hlen' & Hgrow). unfold block_part in Hp. injection Hp as Ht' Hl He Hb Hla.
  unfold owes in Ho. split; [|congruence]. split; [|lia]. split; [|split; [by rewrite Hl, He | done]]. rewrite Ht', Ht. exists wide. by rewrite He.
Qed.

Lemma items_panic stop fuel : forall s pos tb, within s -> r_tables s = Some tb -> Z.max 0 (stop - pos) < Z.of_nat fuel ->
  ref_items fuel tb stop s data pos = Panic -> exists s1 p1, meets s pos s1 p1 /\ refused s1 p1.
Proof using Hsize.
  induction fuel as [|fuel IH]; intros s pos tb Hs Ht Hf; cbn [LzReference.ref_items]; [lia|]. unfold mbind, bits_spec_bind, spec_pos, spec_has_bits.
  destruct (Z.ltb_spec (zlen (r_hist s) - base) declared) as [Ho|], (Z.ltb_spec pos stop); cbn [andb]; try done.
  destruct (fits data pos 1); cbn [negb]; [|done]. pose proof Hs as [Hsound Hhist]. pose proof Hsound as (Htb & _ & Hlen). rewrite Ht in Htb. destruct Htb as (wide & Htb & Hwide).
  destruct (ref_item tb s data pos) as [[s1 p1]|e|] eqn:E; [|done|].
  - intros Hrun. destruct (item_within tb s pos s1 p1 Hs Ho Ht E) as [Hs1 Ht1]. destruct (forward_item _ _ _ wide tb s Htb _ _ _ _ E) as [Hmove _].
    destruct (IH s1 p1 tb Hs1 Ht1 ltac:(lia) Hrun) as (s2 & p2 & Hm & Hr). exists s2, p2. split; [by eapply meets_item | done].
  - intros _. exists s, pos. split; [constructor|]. eapply item_panics; [exact Htb | exact (Hwide eq_refl) | lia | done].
Qed.

Lemma items_within stop fuel : forall s pos tb s' p, within s -> r_tables s = Some tb -> ref_items fuel tb stop s data pos = Ok (s', p) -> within s'.
Proof using Hsize.
  induction fuel as [|fuel IH]; intros s pos tb s' p Hs Ht; cbn [LzReference.ref_items]; [done|]. unfold mbind, bits_spec_bind, spec_pos, spec_has_bits.
  destruct (Z.ltb_spec (zlen (r_hist s) - base) declared) as [Ho|], (Z.ltb_spec pos stop); cbn [andb]; try by intros [= <- _].
  destruct (fits data pos 1); cbn [negb]; [|by intros [= <- _]]. destruct (ref_item tb s data pos) as [[s1 p1]| |] eqn:E; [|done..].
  intros Hrun. destruct (item_within tb s pos s1 p1 Hs Ho Ht E) as [Hs1 Ht1]. by eapply IH.
Qed.

Lemma block_panics s pos : within s -> ref_block s data pos = Panic -> exists s1 p1, meets s pos s1 p1 /\ refused s1 p1.
Proof using Hsize.
  intros Hs. unfold LzReference.ref_block, mbind, bits_spec_bind, spec_pos. destruct (r_tables s) as [tb|] eqn:Et; [|done].
  destruct (ref_items _ tb _ s data pos) as [[s1 p1]| |] eqn:E; [done..|]. intros _. eapply items_panic; [done | exact Et | | exact E]. lia.
Qed.

Lemma block_within s pos s' p : within s -> ref_block s data pos = Ok (s', p) -> within s'.
Proof using Hsize.
  intros Hs Hrun. split; [by apply (block_steps true s data pos s' p (proj1 Hs)) in Hrun as (_ & _ & ?)|].
  revert Hrun. unfold LzReference.ref_block, mbind, bits_spec_bind, spec_pos. destruct (r_tables s) as [tb|] eqn:Et; [|done].
  destruct (ref_items _ tb _ s data pos) as [[s1 p1]| |] eqn:E; [|done..]. intros [= <- _]. by apply items_within in E as [_ ?].
Qed.

(** A block that moves nothing while output is owing has run out of input. *)
Lemma still_cut narrow s s' pos : sound narrow s -> owes s -> 0 < r_bits s -> ref_block s data pos = Ok (s', pos) -> cut s pos.
Proof using.
  intros (Hs & _) Ho Hb Hrun. split; [done|]. split; [done|]. revert Hrun. unfold LzReference.ref_block, mbind, bits_spec_bind, spec_pos.
  destruct (r_tables s) as [tb|]; [|done]. destruct Hs as (wide & Htb & _). cbn [LzReference.ref_items]. unfold mbind, bits_spec_bind, spec_pos, spec_has_bits.
  unfold owes in Ho. rewrite (proj2 (Z.ltb_lt (zlen _ - _) _)), (proj2 (Z.ltb_lt pos _)) by lia. cbn [andb]. destruct (fits data pos 1); [|done]. cbn [negb].
  destruct (ref_item tb s data pos) as [[s1 p1]| |] eqn:E; [|done..]. destruct (ref_items _ tb _ s1 data p1) as [[s2 p2]| |] eqn:E2; [|done..].
  intros [= _ ->]. pose proof (forward_item _ _ _ wide tb s Htb _ _ _ _ E). pose proof (forward_items _ _ _ wide tb _ _ s1 Htb _ _ _ _ E2). lia.
Qed.

(** With enough turns the reference has a result, unless the input is cut in a
    block or holds a descriptor it does not cover. *)
Lemma undefined_outside n : forall s pos, within s -> pos <= bit_len data -> bit_len data - pos + 2 <= Z.of_nat n ->
  ref_blocks n s data pos = Panic -> exists s1 p1, meets s pos s1 p1 /\ (cut s1 p1 \/ refused s1 p1).
Proof using Hsize.
  induction n as [|n IH]; intros s pos Hs Hpos Hn; [lia|]. cbn [LzReference.ref_blocks].
  destruct (Z.ltb_spec (zlen (r_hist s) - base) declared) as [Ho|]; [|done].
  assert (Hblock : forall s pos, within s -> pos <= bit_len data ->
    bit_len data - pos + 2 <= Z.of_nat n \/ (owes s /\ 0 < r_bits s /\ bit_len data - pos + 1 <= Z.of_nat n) ->
    (s' ← ref_block s; ref_blocks n s') data pos = Panic -> exists s1 p1, meets s pos s1 p1 /\ (cut s1 p1 \/ refused s1 p1)).
  { clear s pos Hs Hpos Hn Ho. intros s pos Hs Hpos Hn. unfold mbind, bits_spec_bind. destruct (ref_block s data pos) as [[s' p]| |] eqn:E; [|done|].
    2: { intros _. destruct (block_panics s pos Hs E) as (s1 & p1 & Hm & Hr). exists s1, p1. auto. }
    destruct (block_steps true s data pos s' p (proj1 Hs) E) as ((Hle & Hin) & _ & _). pose proof (block_within s pos s' p Hs E) as Hs'. intros Hrun.
    assert (Hnext : bit_len data - p + 2 <= Z.of_nat n -> exists s1 p1, meets s pos s1 p1 /\ (cut s1 p1 \/ refused s1 p1)).
    { intros Hn'. destruct (IH s' p Hs' (Hin Hpos) Hn' Hrun) as (s1 & p1 & Hm & Hr). exists s1, p1. split; [by eapply meets_block | done]. }
    destruct Hn as [Hn | (Ho & Hb & Hn)]; [apply Hnext; lia|]. destruct (Z.eq_dec p pos) as [->|]; [|apply Hnext; lia].
    exists s, pos. split; [constructor|]. left. eapply still_cut; [apply Hs | done | done | exact E]. }
  destruct (Z.leb_spec (r_bits s) 0); [|apply Hblock; [done | done | right; split; [exact Ho | split; lia]]].
  destruct (r_last s); [done|]. intros (fits16 & p0 & Hfits & Hrun)%bind_panics; [|by intros ? ?]. injection Hfits as <- <-.
  destruct (fits data pos 16); [|done]. apply bind_panics in Hrun as (s1 & p1 & E & Hrun); [|eapply quiet_header, Hs].
  destruct (forward_header s _ _ _ _ E) as [Hmove Hin]. destruct Hs as [Hs Hhist].
  destruct (Hblock s1 p1) as (s2 & p2 & Hm & Hr); [|auto|left; lia|done|].
  - apply (header_sound true) in E as [? Hsame]; [|done]. split; [done | by rewrite Hsame].
  - exists s2, p2. split; [by eapply meets_header | done].
Qed.
End member.

(** * How decoding fails: the reference reports corrupt input and nothing else, whatever it reads. *)

Import LzDecoder.

(** Decoding reports corrupt input, nothing else. *)
Definition corrupt (e : rar_error) : Prop := match e with CorruptArchive | InvalidHuffmanTable | BlockHeaderChecksumMismatch _ _ => True | _ => False end.
Definition errs {A} (f : bits_spec A) : Prop := forall data pos e, f data pos = Err e -> corrupt e.

Lemma errs_bind {A B} (f : bits_spec A) (g : A -> bits_spec B) : errs f -> (forall a, errs (g a)) -> errs (f ≫= g).
Proof.
  intros Hf Hg data pos e. unfold mbind, bits_spec_bind. specialize (Hf data pos). destruct (f data pos) as [[a p]|e'|]; [apply Hg | | done].
  intros [= <-]. by apply Hf.
Qed.
Lemma errs_ret {A} (a : A) : errs (mret a).
Proof. done. Qed.
Lemma errs_lift {A} (m : result A) : (forall e, m = Err e -> corrupt e) -> errs (spec_lift m).
Proof. intros Hm data pos e. unfold spec_lift. destruct m as [a|e'|]; [done | intros [= <-]; by apply Hm | done]. Qed.
Lemma errs_read n : errs (spec_read n).
Proof. intros data pos e. unfold spec_read. destruct (fits data pos n); [done|]. by intros [= <-]. Qed.
Lemma errs_read64 n : errs (spec_read64 n).
Proof. unfold spec_read64. case_match; [apply errs_read|]. apply errs_bind; [apply errs_read|]. intros. apply errs_bind; [apply errs_read | intros; apply errs_ret]. Qed.

(** Computations that fail by a panic only. *)
Definition no_err {A} (m : result A) : Prop := forall e, m <> Err e.
Lemma no_err_bind {A B} (m : result A) (k : A -> result B) : no_err m -> (forall a, no_err (k a)) -> no_err (m ≫= k).
Proof. intros Hm Hk e. destruct m as [a|e'|]; cbn; [apply Hk | by intros _; apply (Hm e') | done]. Qed.
Lemma no_err_at l i : no_err (at_ l i).
Proof. intros e. unfold at_, get_at. by destruct (_ !! _). Qed.
Lemma no_err_add a b : no_err (add_u64 a b).
Proof. intros e. unfold add_u64. by destruct (_ <? _). Qed.
Lemma no_err_scan n : forall i lens f, no_err (HuffmanTable.slow_scan n i lens f).
Proof. induction n as [|n IH]; intros i lens f; cbn [HuffmanTable.slow_scan]; [done|]. apply no_err_bind; [apply no_err_at|]. intros limit. by destruct (_ <? _). Qed.
Lemma no_err_symbol table f bits : no_err (HuffmanTable.symbol_for_bits table f bits).
Proof.
  unfold HuffmanTable.symbol_for_bits. destruct (negb _); [done|]. apply no_err_bind; [apply no_err_at|]. intros before. cbv zeta.
  apply no_err_bind; [apply no_err_at|]. intros p. apply no_err_bind; [|intros; apply no_err_at]. intros e. unfold add_u32. by destruct (_ <? _).
Qed.
Lemma no_err_parts code n hi lo : no_err (distance_from_slot_parts code n hi lo).
Proof.
  unfold distance_from_slot_parts. apply no_err_bind; [intros e; unfold debug_check; by destruct (_ <=? _)|]. intros _. cbv zeta.
  repeat (apply no_err_bind; [apply no_err_add|]; intros ?). apply no_err_add.
Qed.
Lemma errs_no {A} (m : result A) : no_err m -> errs (spec_lift m).
Proof. intros Hm. apply errs_lift. intros e He. by apply Hm in He. Qed.
Lemma errs_check b : errs (spec_lift (debug_check b)).
Proof. apply errs_no. intros e. unfold debug_check. by destruct b. Qed.

Lemma errs_decode table : errs (scan_decode table).
Proof.
  unfold scan_decode. apply errs_bind.
  - unfold spec_peek16_left. apply errs_bind; [|intros; apply errs_ret]. intros data pos e. unfold spec_peek16. destruct (fits _ _ _); [done|]. by intros [= <-].
  - intros f. apply errs_bind; [apply errs_no, no_err_scan|]. intros bits. apply errs_bind; [|intros; apply errs_no, no_err_symbol].
    intros data pos e. unfold spec_skip. destruct (fits _ _ _); [done|]. by intros [= <-].
Qed.

Lemma errs_length slot : errs (slot_to_length slot).
Proof.
  unfold slot_to_length. apply errs_bind; [apply errs_check|]. intros _. case_match. apply errs_bind; [|intros; apply errs_ret].
  destruct (0 <? _); [apply errs_read | apply errs_ret].
Qed.
Lemma errs_distance extra dc ldc : errs (decode_distance extra dc ldc).
Proof.
  unfold decode_distance. apply errs_bind; [apply errs_decode|]. intros code. apply errs_bind; [apply errs_check|]. intros _.
  destruct (code <? 4); [apply errs_ret|]. cbv zeta. destruct (4 <=? _).
  - apply errs_bind; [destruct (4 <? _); [apply errs_bind; [apply errs_read64 | intros; apply errs_ret] | apply errs_ret]|]. intros high.
    apply errs_bind; [apply errs_decode|]. intros low. apply errs_no, no_err_parts.
  - apply errs_bind; [apply errs_read64|]. intros extra_bits. apply errs_no, no_err_parts.
Qed.

Lemma errs_filter_data : errs read_filter_data.
Proof.
  assert (Hbytes : forall n i v, errs (read_filter_bytes n i v)).
  { induction n as [|n IH]; intros i v; cbn [read_filter_bytes]; [apply errs_ret|]. apply errs_bind; [apply errs_read|]. intros. apply IH. }
  apply errs_bind; [apply errs_read|]. intros. apply Hbytes.
Qed.
Lemma errs_filter base out : errs (read_filter base out).
Proof.
  unfold read_filter. apply errs_bind; [apply errs_filter_data|]. intros delta. do 2 (apply errs_bind; [apply errs_no, no_err_add|]; intros ?).
  apply errs_bind; [apply errs_filter_data|]. intros len. apply errs_bind; [apply errs_read|]. intros code. cbv zeta.
  apply errs_bind; [|intros; apply errs_ret]. case_match; try apply errs_ret. apply errs_bind; [apply errs_read | intros; apply errs_ret].
Qed.

Lemma errs_item dict base declared tb s : errs (ref_item dict base declared tb s).
Proof.
  unfold ref_item. destruct tb as [[[nc dc] ldc] rc]. apply errs_bind; [apply errs_decode|]. intros sym.
  destruct (sym <? 256); [apply errs_ret|]. destruct (262 <=? sym); [|destruct (sym =? 256); [|destruct (sym =? 257); [apply errs_ret|]]].
  - apply errs_bind; [apply errs_length|]. intros len. apply errs_bind; [apply errs_distance|]. intros distance. apply errs_ret.
  - apply errs_bind; [apply errs_filter|]. intros f. destruct (admissible _ _ _ _ _); [apply errs_ret | by apply errs_lift].
  - cbv zeta. apply errs_bind; [|intros; apply errs_ret]. unfold decode_rc_length. apply errs_bind; [apply errs_decode|]. intros. apply errs_length.
Qed.
Lemma errs_items dict base declared tb stop fuel : forall s, errs (ref_items dict base declared fuel tb stop s).
Proof.
  induction fuel as [|fuel IH]; intros s; cbn [ref_items]; [by apply errs_lift|]. apply errs_bind; [done|]. intros pos.
  destruct (_ && _); [|apply errs_ret]. apply errs_bind; [done|]. intros left. destruct (negb left); [apply errs_ret|].
  apply errs_bind; [apply errs_item|]. intros. apply IH.
Qed.
Lemma errs_block dict base declared s : errs (ref_block dict base declared s).
Proof.
  unfold ref_block. apply errs_bind; [done|]. intros pos. destruct (r_tables s); [|apply errs_lift; by intros e [= <-]].
  apply errs_bind; [apply errs_items|]. intros. apply errs_bind; [done|]. intros. apply errs_ret.
Qed.
Lemma errs_header s : total_symbols (r_extra s) <= zlen (r_lens s) -> errs (ref_header s).
Proof.
  intros Hlens. unfold ref_header. apply errs_bind; [done|]. intros _.
  assert (Hu8 : errs read_u8) by (apply errs_bind; [apply errs_read | intros; apply errs_ret]).
  apply errs_bind; [exact Hu8|]. intros flags. apply errs_bind; [exact Hu8|]. intros checksum. cbv zeta.
  destruct (3 <? _); [apply errs_lift; by intros e [= <-]|].
  assert (Hsize : forall n i v x, errs (read_size_bytes n i v x)).
  { induction n as [|n IH]; intros i v x; cbn [read_size_bytes]; [apply errs_ret|]. apply errs_bind; [exact Hu8|]. intros. apply IH. }
  apply errs_bind; [apply Hsize|]. intros [block_bytes xor_sum]. destruct (negb _); [apply errs_lift; by intros e [= <-]|].
  destruct (has _ 0x80); [|destruct (r_tables _); [apply errs_ret | apply errs_lift; by intros e [= <-]]].
  apply errs_bind; [done|]. intros before. apply errs_bind.
  - intros data pos e He. pose proof (tables_given (r_lens s) (r_extra s) Hlens data pos) as Hg. unfold ref_tables, ref_block_state in He; cbn [r_lens r_extra] in He. rewrite He in Hg. rewrite Hg. exact I.
  - intros [tb lens]. apply errs_bind; [done|]. intros. apply errs_ret.
Qed.
Lemma errs_blocks dict base declared fuel : forall s, sound false s -> errs (ref_blocks dict base declared fuel s).
Proof.
  induction fuel as [|fuel IH]; intros s Hs; cbn [ref_blocks]; [by apply errs_lift|].
  assert (Hrest : forall s, sound false s -> errs (s ← ref_block dict base declared s; ref_blocks dict base declared fuel s)).
  { intros s0 Hs0 data pos e. unfold mbind, bits_spec_bind. destruct (ref_block dict base declared s0 data pos) as [[s1 p]|e'|] eqn:E; [|intros [= <-]; by apply errs_block in E | done].
    apply IH. by eapply block_steps. }
  destruct (_ <? declared); [|apply errs_ret]. destruct (r_bits s <=? 0); [|by apply Hrest]. destruct (r_last s); [apply errs_ret|].
  apply errs_bind; [done|]. intros [|]; [|apply errs_ret]. intros data pos e. unfold mbind at 1, bits_spec_bind at 1.
  destruct (ref_header s data pos) as [[s1 p]|e'|] eqn:E; [|intros [= <-]; eapply errs_header; [|exact E]; destruct Hs as (_ & -> & _); lia | done].
  apply Hrest. by eapply header_sound.
Qed.
