(* ===== verification/LzSimulation.v ===== *)
(** The simulation between the decoder and the reference: a state of the
    decoder with its writer stands for a state of the reference, and every step
    of the symbol loop, flushes included, keeps it so. *)
From stdpp Require Import sorting.
From S2P Require Import Prelude RarTypes StateM BitString LzWindow LzCopies LzHistory LzOutput LzWindowProps LzFilter LzFilterProps.
From S2P Require Import LzBits LzBitReader LzStreamReader LzHuffman LzHuffmanProps LzHuffmanDecode LzTables LzDecoder LzFlush LzReference LzReading.
Import LzDecoder.

Section simulation.
Context {R W : Type} `{BitReadLaws R} `{SinkLaws W} `{ByteSearchLaws}.
Context (dict base declared : Z) (start : list byte) (data : list byte).
Context (Hbase : 0 <= base) (Hdecl : 0 <= declared) (Hdict : 2 * MAX_INCREMENTAL_LZ_MATCH < dict) (Hdict63 : dict < 2 ^ 63).
Context (Hsize : base + declared + MAX_INCREMENTAL_LZ_MATCH < 2 ^ 63) (Hdata : bit_len data < 2 ^ 61).
Local Abbreviation limit := (base + declared).
Local Abbreviation written := LzOutput.written.
Local Abbreviation holds := (holds dict base declared).
Local Abbreviation flush_ref := (flush_ref base limit).
Local Abbreviation inside := (inside base declared).
Local Abbreviation M := (stateM (t * W * R) rar_error).

(** * Running both *)

(** [m] on a reader at [pos] does what [f] does on the bits; [Q] relates their
    results and holds of the state and the cursor after them. *)
Definition agrees {A B} (Q : A -> B -> t -> W -> Z -> Prop) (m : M A) (f : bits_spec B) (d : t) (w : W) (pos : Z) : Prop :=
  forall r, tracks r data pos ->
  match f data pos with
  | Ok (b, p) => exists a d' w' r', m (d, w, r) = (Ok a, (d', w', r')) /\ tracks r' data p /\ Q a b d' w' p
  | Err e => exists st, m (d, w, r) = (Err e, st)
  | Panic => True
  end.

Lemma agrees_ret {A B} (Q : A -> B -> t -> W -> Z -> Prop) a b d w pos : Q a b d w pos -> agrees Q (mret a) (mret b) d w pos.
Proof. intros HQ r Hr. by exists a, d, w, r. Qed.

Lemma agrees_bind {A B C D} Q Q' (m : M A) (f : bits_spec B) (k : A -> M C) (g : B -> bits_spec D) d w pos :
  agrees Q m f d w pos ->
  (forall a b d' w' p, f data pos = Ok (b, p) -> Q a b d' w' p -> agrees Q' (k a) (g b) d' w' p) -> agrees Q' (m ≫= k) (f ≫= g) d w pos.
Proof.
  intros Hm Hk r Hr. specialize (Hm r Hr). unfold mbind, bits_spec_bind. destruct (f data pos) as [[b p]|e|]; [| |done].
  - destruct Hm as (a & d' & w' & r' & Hrun & Hr' & HQ). unfold stateM_bind. rewrite Hrun. by apply (Hk a b d' w' p eq_refl HQ).
  - destruct Hm as (st & Hrun). exists st. unfold stateM_bind. by rewrite Hrun.
Qed.

(** What the code still does when the bits of a step are read. *)
Lemma agrees_then {A B C} Q Q' (m : M A) (f : bits_spec B) (k : A -> M C) d w pos :
  agrees Q m f d w pos -> (forall a b d' w' p, Q a b d' w' p -> agrees Q' (k a) (mret b) d' w' p) -> agrees Q' (m ≫= k) f d w pos.
Proof.
  intros Hm Hk r Hr. specialize (Hm r Hr). destruct (f data pos) as [[b p]|e|]; [| |done].
  - destruct Hm as (a & d' & w' & r' & Hrun & Hr' & HQ). rewrite (bind_run _ _ _ _ _ Hrun). by apply (Hk a b d' w' p HQ).
  - destruct Hm as (st & Hrun). exists st. by rewrite (bind_run_err _ _ _ _ _ Hrun).
Qed.

(** A read, with what is known of the value read. *)
Lemma agrees_read {A C D} Q P (m : stateM R rar_error A) (f : bits_spec A) (k : A -> M C) (g : A -> bits_spec D) d w pos :
  realizes tracks m f -> yields f P -> (forall a p, f data pos = Ok (a, p) -> P a -> agrees Q (k a) (g a) d w p) ->
  agrees Q (on_snd m ≫= k) (f ≫= g) d w pos.
Proof.
  intros Hm HP Hk. apply (agrees_bind (fun a b d' w' _ => a = b /\ d' = d /\ w' = w)).
  - intros r Hr. specialize (Hm r data pos Hr). destruct (f data pos) as [[a p]|e|]; [| |done].
    + destruct Hm as (r' & Hrun & Hr'). exists a, d, w, r'. unfold on_snd. cbn. by rewrite Hrun.
    + destruct Hm as (r' & Hrun). exists (d, w, r'). unfold on_snd. cbn. by rewrite Hrun.
  - intros a b d' w' p Hf (-> & -> & ->). apply Hk; [done|]. by eapply HP.
Qed.

(** A step of the decoder alone. *)
Lemma agrees_step {A C D} Q (m : M A) (k : A -> M C) (g : bits_spec D) a d' w' d w pos :
  (forall r, m (d, w, r) = (Ok a, (d', w', r))) -> agrees Q (k a) g d' w' pos -> agrees Q (m ≫= k) g d w pos.
Proof.
  intros Hm Hk r Hr. specialize (Hk r Hr). destruct (g data pos) as [[b p]|e|]; [| |done].
  - by rewrite (bind_run _ _ _ _ _ (Hm r)).
  - by rewrite (bind_run _ _ _ _ _ (Hm r)).
Qed.

Lemma agrees_panic {A B} (Q : A -> B -> t -> W -> Z -> Prop) m d w pos : agrees Q m (spec_lift Panic) d w pos.
Proof. by intros r Hr. Qed.

(** The position of the reader is the cursor. *)
Lemma agrees_position {C D} Q (k : Z -> M C) (g : Z -> bits_spec D) d w pos :
  (0 <= pos <= bit_len data -> agrees Q (k pos) (g pos) d w pos) ->
  agrees Q (gets (fun st => as_i64 (position st.2)) ≫= k) (spec_pos ≫= g) d w pos.
Proof.
  intros Hk r Hr. pose proof (tracks_range r data pos Hr) as Hp. rewrite bind_gets. cbn [snd].
  rewrite (position_law r data pos Hr). unfold as_i64. rewrite (proj2 (Z.ltb_lt _ _)) by lia.
  exact (Hk Hp r Hr).
Qed.

(** The end of a step: its results are related as the caller wants. *)
Lemma agrees_weaken {A B} Q Q' (m : M A) (f : bits_spec B) d w pos :
  agrees Q m f d w pos -> (forall a b d' w' p, f data pos = Ok (b, p) -> Q a b d' w' p -> Q' a b d' w' p) -> agrees Q' m f d w pos.
Proof.
  intros Hm HQ r Hr. specialize (Hm r Hr). destruct (f data pos) as [[b p]|e|]; [|done..].
  destruct Hm as (a & d' & w' & r' & Hrun & Hr' & HQa). exists a, d', w', r'. eauto.
Qed.

(** * Standing for a state of the reference *)

Definition decoder_tables (tb : option tables) : option HuffmanTable.t * option HuffmanTable.t * option HuffmanTable.t * option HuffmanTable.t :=
  match tb with Some (nc, dc, ldc, rc) => (Some nc, Some dc, Some ldc, Some rc) | None => (None, None, None, None) end.

(** What the decoder carries from symbol to symbol and from member to member. *)
Record carries (s : ref) (d : t) : Prop := mk_carries {
  c_dists : dist_cache d = r_dists s;
  c_four : length (r_dists s) = 4%nat /\ Forall (fun x => 1 <= x) (r_dists s);
  c_length : last_length d = r_length s;
  c_short : 0 <= r_length s <= MAX_INCREMENTAL_LZ_MATCH;
  c_tables : (nc_table d, dc_table d, ldc_table d, rc_table d) = decoder_tables (r_tables s);
  c_sound : match r_tables s with Some tb => exists wide, sound_tables wide tb | None => True end;
  c_lens : code_lengths d = r_lens s;
  c_room : zlen (r_lens s) = total_symbols (r_extra s);
  c_extra : extra_dist d = r_extra s
}.

(** The queue holds the descriptors that may still matter. *)
Record queues (s : ref) (q : list PendingFilter) : Prop := mk_queues {
  q_sorted : StronglySorted starts_before q;
  q_inside : Forall inside q;
  q_arrived : Forall inside (r_arrivals s);
  q_fits : Forall (fun f => block_length f <= dict - MAX_INCREMENTAL_LZ_MATCH) q;
  q_count : zlen q <= zlen (r_arrivals s)
}.

(** Nothing is lost: whatever output [l] and descriptors [later] come, the
    reference's one flush writes [out] and what flushing the queue still writes. *)
Definition lossless (s : ref) (q : list PendingFilter) (pos : Z) (out : list byte) : Prop :=
  forall l later, Forall inside later -> Forall (fun f => zlen (r_hist s) <= block_start f) later ->
  (flush_ref (r_hist s ++ l) (insert_all [] (r_arrivals s ++ later)) (zlen (r_hist s ++ l)) base).1.1 =
  out ++ (flush_ref (r_hist s ++ l) (insert_all q later) (zlen (r_hist s ++ l)) pos).1.1.

Record sim_at (s : ref) (d : t) (w : W) (pos : Z) (out : list byte) : Prop := mk_sim {
  s_holds : holds d (r_hist s) pos;
  s_carries : carries s d;
  s_bits : block_bits_remaining d = r_bits s;
  s_range : - 2 ^ 62 <= r_bits s <= 2 ^ 62;
  s_last : is_last_block d = r_last s;
  s_queues : queues s (pending_filters d);
  s_written : written w = start ++ out;
  s_emitted : current_file_emitted d = zlen out;
  s_lossless : lossless s (pending_filters d) pos out;
  s_border : flush_at d <= pos + dict - MAX_INCREMENTAL_LZ_MATCH;
  s_size : zlen (r_hist s) <= limit + MAX_INCREMENTAL_LZ_MATCH
}.
Definition sim (s : ref) (d : t) (w : W) : Prop := exists pos out, sim_at s d w pos out.
(** The same with room for one more match. *)
Definition sim_room (s : ref) (d : t) (w : W) : Prop := exists pos out, sim_at s d w pos out /\ zlen (r_hist s) + MAX_INCREMENTAL_LZ_MATCH <= pos + dict.

(** * Flushing *)

Lemma kept_carries s d d' : kept d' = kept d -> carries s d -> carries s d'.
Proof. unfold kept. intros [= ? ? ? ? ? ? ? ? ? ? ? ? ?] []. constructor; congruence. Qed.

Lemma inside_forward q : Forall inside q -> Forall (fun f => block_start f <= filter_end f) q.
Proof. intros Hq. eapply list.Forall_impl; [exact Hq|]. intros f Hf. rewrite (inside_end base declared f Hf). destruct Hf as (_ & ? & _). lia. Qed.

Lemma inside_forward_pos q : Forall inside q -> Forall (fun f => 0 <= block_start f <= filter_end f) q.
Proof.
  intros Hq. eapply list.Forall_impl; [exact Hq|]. intros f Hf. rewrite (inside_end base declared f Hf). destruct Hf as (? & ? & _). lia.
Qed.

Lemma lossless_flush s q pos out : queues s q -> 0 <= pos <= zlen (r_hist s) -> lossless s q pos out ->
  let '(o, p, open) := flush_ref (r_hist s) q (zlen (r_hist s)) pos in lossless s open p (out ++ o).
Proof.
  intros Hq Hpos Hl. destruct (flush_ref (r_hist s) q (zlen (r_hist s)) pos) as [[o p] open] eqn:E.
  intros l later Hin Hlater. rewrite (Hl l later Hin Hlater), <- app_assoc. f_equal. pose proof (zlen_nonneg l).
  rewrite (flush_twice base limit (r_hist s ++ l) q (zlen (r_hist s))); try done.
  - rewrite flush_app, E by (lia || by apply inside_forward_pos, Hq).
    by destruct (flush_ref _ (insert_all open later) _ p) as [[o' p'] open'].
  - apply Hq.
  - by apply inside_forward, Hq.
  - by apply inside_forward.
  - rewrite zlen_app. lia.
Qed.

(** A flush keeps the simulation and makes room for a match. *)
Lemma flush_sim s d w pos out : sim_at s d w pos out ->
  exists d' w' pos', flush_filters_and_write (d, w) = (Ok tt, (d', w')) /\
    sim_at s d' w' pos' (out ++ (flush_ref (r_hist s) (pending_filters d) (zlen (r_hist s)) pos).1.1) /\
    zlen (r_hist s) + MAX_INCREMENTAL_LZ_MATCH <= pos' + dict.
Proof.
  intros []. destruct (holds_pos _ _ _ _ _ _ s_holds0) as (Hpos & _). pose proof s_queues0 as [Hsorted Hin Harr Hfits Hcount].
  pose proof (flush_moves dict base declared Hbase d w (r_hist s) pos s_holds0 Hin) as Hmoves.
  pose proof (lossless_flush s _ pos out s_queues0 ltac:(lia) s_lossless0) as Hl.
  pose proof (flush_stops base limit (r_hist s) (pending_filters d) (zlen (r_hist s)) pos Hsorted (inside_forward _ Hin) ltac:(lia)) as Hstops.
  destruct (flush_ref (r_hist s) (pending_filters d) (zlen (r_hist s)) pos) as [[o p] open] eqn:E.
  destruct Hmoves as (d' & w' & Hrun & Hh & Hw & Hk & Hq & Hf & He). destruct Hstops as (Hp & Hso & (dn & Hopen) & Hend).
  assert (Hroom : zlen (r_hist s) + MAX_INCREMENTAL_LZ_MATCH <= p + dict).
  { destruct open as [|f rest]; [subst p; unfold MAX_INCREMENTAL_LZ_MATCH in *; lia|]. destruct Hend as [Hfe ->]. rewrite Hopen in Hin, Hfits.
    apply list.Forall_app in Hin as [_ [Hf0 _]%list.Forall_cons]. apply list.Forall_app in Hfits as [_ [Hf1 _]%list.Forall_cons].
    rewrite (inside_end base declared f Hf0) in Hfe. unfold MAX_INCREMENTAL_LZ_MATCH in *. lia. }
  exists d', w', p. split; [done|]. split; [|done]. cbn [fst]. pose proof Hk as Hk'. unfold kept in Hk'. injection Hk' as _ _ _ _ _ _ _ _ Hb Hlast _ _ _.
  constructor; try done.
  - by eapply kept_carries.
  - by rewrite Hb.
  - by rewrite Hlast.
  - rewrite Hq. rewrite Hopen in Hin, Hfits, Hcount. apply list.Forall_app in Hin as [_ Hin], Hfits as [_ Hfits].
    rewrite zlen_app in Hcount. pose proof (zlen_nonneg dn). constructor; done || lia.
  - by rewrite Hw, s_written0, app_assoc.
  - by rewrite He, s_emitted0, zlen_app.
  - by rewrite Hq.
  - rewrite Hf. unfold border, flush_border, sat_sub_u64, sat_add_u64. unfold MAX_INCREMENTAL_LZ_MATCH in *. lia.
Qed.

(** The check of the write border, as the symbol loop makes it. *)
Lemma border_step s d w : sim s d w -> exists d' w',
  (if flush_at d <=? Window.total_written (window d) then flush_stream_output else mret tt) (d, w) = (Ok tt, (d', w')) /\ sim_room s d' w'.
Proof.
  intros (pos & out & Hs). destruct (holds_pos _ _ _ _ _ _ (s_holds _ _ _ _ _ Hs)) as (Hpos & _ & Htotal & _). rewrite Htotal.
  destruct (Z.leb_spec (flush_at d) (zlen (r_hist s))).
  2: { exists d, w. split; [done|]. exists pos, out. split; [done|]. pose proof (s_border _ _ _ _ _ Hs). lia. }
  destruct (flush_sim s d w pos out Hs) as (d' & w' & pos' & Hrun & Hs' & Hroom). exists d', w'. split; [|by eexists _, _].
  unfold flush_stream_output, get_self. rewrite bind_gets. cbn [fst]. destruct (pending_filters d) as [|f rest] eqn:Eq.
  { unfold flush_filters_and_write, get_self in Hrun. rewrite bind_gets in Hrun. cbn [fst] in Hrun. by rewrite Eq in Hrun. }
  rewrite (bind_run _ _ _ _ _ Hrun). rewrite bind_gets. cbn [fst]. pose proof (s_holds _ _ _ _ _ Hs') as Hh. destruct (holds_pos _ _ _ _ _ _ Hh) as (_ & _ & _ & Hd).
  pose proof (h_size _ _ _ _ _ _ Hh) as H63.
  rewrite (unflushed_bytes_ok _ dict _ (h_window _ _ _ _ _ _ Hh)), lift_Ok by (cbn; lia). cbn [full bytes flushed].
  fold (full (r_hist s) pos'). rewrite full_visible, zlen_out_span, Hd by (destruct (holds_pos _ _ _ _ _ _ Hh); lia).
  pose proof (h_room _ _ _ _ _ _ Hh). unfold MAX_INCREMENTAL_LZ_MATCH in *. rewrite (proj2 (Z.ltb_ge _ _)) by lia. done.
Qed.

(** * Output *)

Lemma copy_writes self hist distance n : ring self hist -> Window.total_written self = zlen hist -> 1 <= distance -> 0 <= n -> zlen hist + n < 2 ^ 64 ->
  writes (Window.copy distance n self) self hist (lz_match (Window.dict_size self) hist distance n).
Proof.
  intros Hring Htotal Hd Hn Hlt. destruct (copy_advance_writes self hist distance n Hring Htotal Hd Hn Hlt) as (self' & Hrun & Hw).
  exists self'. split; [|done]. unfold Window.copy, Window.copy_with_visible_len. rewrite Hrun, bind_Ok.
  unfold Window.hide_tail. by rewrite Z.min_id, Z.ltb_irrefl.
Qed.

Lemma full_put b hist pos : log_put b (full hist pos) = full (hist ++ b) pos.
Proof.
  unfold log_put, log_append, full. cbn. f_equal. unfold zreplicate, zlen. rewrite length_app, <- replicate_add. f_equal. lia.
Qed.

(** Bytes appended to the window are appended to the reference's output. *)
Lemma append_sim s d w b m : sim_room s d w -> zlen (r_hist s) <= limit -> zlen b <= MAX_INCREMENTAL_LZ_MATCH ->
  (forall win, ring win (r_hist s) -> Window.total_written win = zlen (r_hist s) -> Window.dict_size win = dict -> writes (m win) win (r_hist s) b) ->
  exists win, m (window d) = Ok win /\ sim (ref_hist (r_hist s ++ b) s) (set_window win d) w.
Proof.
  intros (pos & out & [] & Hroom) Hle Hb Hm. pose proof (h_window _ _ _ _ _ _ s_holds0) as Hwin. pose proof (h_size _ _ _ _ _ _ s_holds0).
  pose proof (zlen_nonneg b).
  destruct (put_stands _ _ _ _ b Hwin (Hm _ (sf_ring _ _ _ Hwin) (sf_total _ _ _ Hwin) (sf_dict _ _ _ Hwin)) ltac:(cbn; lia)) as (win & Hrun & Hwin').
  exists win. split; [done|]. exists pos, out. rewrite full_put in Hwin'. destruct s_holds0.
  assert (Hz : zlen (r_hist s ++ b) = zlen (r_hist s) + zlen b) by apply zlen_app.
  constructor; cbn [r_hist ref_hist r_arrivals r_bits r_last set_window current_file_emitted pending_filters flush_at block_bits_remaining is_last_block]; try done; try lia.
  - constructor; cbn; done || lia.
  - destruct s_carries0. by constructor.
  - destruct s_queues0. by constructor.
  - intros l later Hin Hlater. cbn [r_hist ref_hist r_arrivals] in *. rewrite <- app_assoc. apply s_lossless0; [done|].
    eapply list.Forall_impl; [exact Hlater|]. cbn. intros; lia.
Qed.

Lemma self_step_run m d d' (w : W) (r : R) : m d = Ok d' -> self_step m (d, w, r) = (Ok tt, (d', w, r)).
Proof. intros Hm. unfold self_step. rewrite bind_gets. cbn [fst]. by rewrite Hm. Qed.

(** A literal. *)
Lemma literal_sim s d w b : sim_room s d w -> zlen (r_hist s) <= limit -> exists d',
  (forall r : R, self_step (fun self => window ← Window.put_byte b (window self); mret (set_window window self)) (d, w, r) = (Ok tt, (d', w, r))) /\
  sim (ref_hist (r_hist s ++ [b]) s) d' w.
Proof.
  intros Hs Hle. destruct (append_sim s d w [b] (Window.put_byte b) Hs Hle ltac:(done)) as (win & Hrun & Hs').
  { intros win Hring Htotal _. apply put_byte_writes; try done. unfold MAX_INCREMENTAL_LZ_MATCH in *. lia. }
  exists (set_window win d). split; [|done]. intros r. apply self_step_run. by rewrite Hrun.
Qed.

(** A match, after what it remembers. *)
Lemma match_sim s d w distance n : sim_room s d w -> zlen (r_hist s) <= limit -> 1 <= distance -> 0 <= n <= MAX_INCREMENTAL_LZ_MATCH -> exists win,
  Window.copy distance n (window d) = Ok win /\ sim (ref_copy dict distance n s) (set_window win d) w.
Proof.
  intros Hs Hle Hd Hn. apply (append_sim s d w (lz_match dict (r_hist s) distance n)); try done.
  - rewrite zlen_lz_match; lia.
  - intros win Hring Htotal <-. apply copy_writes; try done; unfold MAX_INCREMENTAL_LZ_MATCH in *; lia.
Qed.

(** Remembering distances and lengths. *)
Lemma remember_sim s d w dists n d' : sim_room s d w -> d' = set_last_length n (set_dist_cache dists d) ->
  length dists = 4%nat -> Forall (fun x => 1 <= x) dists -> 0 <= n <= MAX_INCREMENTAL_LZ_MATCH -> sim_room (ref_match_state dists n s) d' w.
Proof.
  intros (pos & out & [] & Hroom) -> Hl Hall Hn. exists pos, out. split; [|done]. destruct s_carries0.
  constructor; try done; try by destruct s_holds0. by destruct s_queues0.
Qed.

Lemma insert_old_run d a b c e x : dist_cache d = [a; b; c; e] -> insert_old_dist x d = Ok (set_dist_cache (remember x [a; b; c; e]) d).
Proof. intros Hd. unfold insert_old_dist. by rewrite Hd. Qed.

Lemma promote_run d a b c e i : dist_cache d = [a; b; c; e] -> 0 <= i < 4 ->
  promote_old_dist i d = Ok (nth (Z.to_nat i) [a; b; c; e] 0, set_dist_cache (promote (Z.to_nat i) [a; b; c; e]) d).
Proof.
  intros Hd Hi. unfold promote_old_dist. rewrite Hd.
  assert (i = 0 \/ i = 1 \/ i = 2 \/ i = 3) as [->|[->|[->| ->]]] by lia; try done.
  cbn. do 2 f_equal. destruct d; cbn in *. by rewrite Hd.
Qed.

(** * Descriptors *)

Lemma decode_limit_is s d w pos out : sim_at s d w pos out -> decode_limit d = declared.
Proof.
  intros []. unfold decode_limit. rewrite (h_base _ _ _ _ _ _ s_holds0), (h_unpacked _ _ _ _ _ _ s_holds0).
  destruct (holds_pos _ _ _ _ _ _ s_holds0) as (_ & _ & _ & ->). destruct s_queues0 as [_ Hin _ _ _].
  assert (Hfold : forall l q, l = declared -> Forall inside q -> fold_left (fun limit filter => Z.max limit (sat_sub_u64 (filter_end filter) base)) q l = declared).
  { intros l q. revert l. induction q as [|f q IH]; intros l -> Hq; [done|]. apply list.Forall_cons in Hq as [Hf Hq]. cbn [fold_left]. apply IH; [|done].
    rewrite (inside_end base declared f Hf). destruct Hf as (? & ? & ? & ? & ?). unfold sat_sub_u64. lia. }
  rewrite Hfold by done. unfold sat_add_u64. unfold MAX_INCREMENTAL_LZ_MATCH in *. lia.
Qed.

(** A descriptor joins the queue; the queue has room. *)
Lemma arrival_sim s d w f : sim s d w -> admissible dict base declared f (r_arrivals s) = true ->
  zlen (r_hist s) <= block_start f -> base <= block_start f -> 0 <= block_length f -> 0 <= channels f ->
  exists d', register_pending_filter f (d, w) = (Ok tt, (d', w)) /\ sim (ref_arrivals (r_arrivals s ++ [f]) s) d' w.
Proof.
  intros (pos & out & []) Hadm Hstart Hfrom Hlen Hch. unfold admissible in Hadm. apply andb_prop in Hadm as [[Hend Hfit]%andb_prop Hcount].
  apply Z.leb_le in Hend, Hfit. apply Z.ltb_lt in Hcount. destruct s_queues0 as [Hsorted Hin Harr Hfits Hq].
  assert (Hf : inside f) by (unfold LzFlush.inside, MAX_INCREMENTAL_LZ_MATCH in *; split_and!; lia).
  exists (set_filters (push_pending_filter (pending_filters d) f) d). split.
  { unfold register_pending_filter, get_self. rewrite bind_gets. cbn [fst]. by rewrite (proj2 (Z.leb_gt _ _)) by lia. }
  exists pos, out. rewrite push_inserts by done. destruct (insert_filter_spec f (pending_filters d) Hsorted) as [Hso [Hperm _]].
  constructor; cbn [r_hist ref_arrivals r_arrivals r_bits r_last pending_filters set_filters]; try done.
  - by destruct s_holds0.
  - destruct s_carries0. by constructor.
  - constructor; cbn [r_arrivals ref_arrivals]; try done.
    + apply (insert_all_Forall inside [f] (pending_filters d)); [done | by apply list.Forall_singleton].
    + apply list.Forall_app. split; [done|]. by apply list.Forall_singleton.
    + apply (insert_all_Forall (fun f => block_length f <= dict - MAX_INCREMENTAL_LZ_MATCH) [f] (pending_filters d)); [done | by apply list.Forall_singleton].
    + unfold zlen. rewrite Hperm, length_app. cbn. unfold zlen in Hq. lia.
  - intros l later Hil Hsl. cbn [r_hist ref_arrivals r_arrivals] in *. rewrite <- app_assoc. cbn [app].
    apply (s_lossless0 l (f :: later)); by constructor.
Qed.

(** * Symbols *)

Definition item_post (a : Z * Z) (s : ref) (d : t) (w : W) (p : Z) : Prop := sim s d w /\ a = (zlen (r_hist s) - base, declared).

Lemma sim_of_room s d w : sim_room s d w -> sim s d w.
Proof. intros (pos & out & Hs & _). by exists pos, out. Qed.

Lemma sim_carries s d w : sim s d w -> carries s d.
Proof. intros (pos & out & []). done. Qed.
Lemma sim_base s d w : sim s d w -> current_file_base_total d = base.
Proof. intros (pos & out & []). apply s_holds0. Qed.

(** The bookkeeping behind a match. *)
Lemma finish_item s b n d w pos : sim (ref_hist (r_hist s ++ b) s) d w -> zlen b = n -> 0 <= zlen (r_hist s) - base -> 0 <= n ->
  zlen (r_hist s) + n < 2 ^ 64 ->
  agrees item_post (output_size ← lift (add_u64 (zlen (r_hist s) - base) n); mret (output_size, declared)) (mret (ref_hist (r_hist s ++ b) s)) d w pos.
Proof.
  intros Hs Hb Ho Hn Hlt. rewrite add_u64_ok, lift_Ok by lia. apply agrees_ret. split; [done|].
  cbn [r_hist ref_hist]. rewrite zlen_app. f_equal. lia.
Qed.

Lemma sim_output s d w : sim s d w -> 0 <= zlen (r_hist s) - base.
Proof. intros (pos & out & []). destruct (holds_pos _ _ _ _ _ _ s_holds0) as ((? & ?) & _). lia. Qed.

(** A match at a remembered distance: [s] is the state with the distances and
    the length already moved. *)
Lemma match_item s d w distance n (f : t -> t) pos : sim_room s (f d) w -> window (f d) = window d -> zlen (r_hist s) - base < declared ->
  1 <= distance -> 0 <= n <= MAX_INCREMENTAL_LZ_MATCH ->
  agrees item_post
    (_ ← self_step (fun self => window ← Window.copy distance n (window self); mret (set_window window (f self)));
     output_size ← lift (add_u64 (zlen (r_hist s) - base) n); mret (output_size, declared))
    (mret (ref_copy dict distance n s)) d w pos.
Proof.
  intros Hs Hw Hlt Hd Hn. pose proof (sim_output _ _ _ (sim_of_room _ _ _ Hs)).
  destruct (match_sim s (f d) w distance n Hs ltac:(lia) Hd Hn) as (win & Hrun & Hs').
  apply (agrees_step _ _ _ _ tt (set_window win (f d)) w).
  { intros r. apply self_step_run. by rewrite <- Hw, Hrun. }
  apply (finish_item s (lz_match dict (r_hist s) distance n)); try done; try lia. apply zlen_lz_match. lia.
Qed.

(** A filter descriptor. *)
Lemma filter_item s d w pos : sim_room s d w ->
  agrees item_post
    (_ ← handle_filter (zlen (r_hist s) - base); self ← gets (fun st => st.1.1); mret (zlen (r_hist s) - base, decode_limit self))
    (f ← read_filter base (zlen (r_hist s) - base);
     if admissible dict base declared f (r_arrivals s) then mret (ref_arrivals (r_arrivals s ++ [f]) s) else spec_lift Panic) d w pos.
Proof.
  intros Hs%sim_of_room. pose proof (sim_output _ _ _ Hs).
  apply (agrees_then (fun _ s' d' w' _ => sim s' d' w' /\ r_hist s' = r_hist s)).
  - unfold handle_filter. apply (agrees_step _ _ _ _ d d w); [done|]. rewrite (sim_base _ _ _ Hs).
    apply (agrees_read _ (fun f => zlen (r_hist s) <= block_start f /\ 0 <= block_length f /\ 0 <= channels f)); [apply filter_realizes| |].
    { intros dt p f p' Hrun. apply yields_filter in Hrun. replace (base + (zlen (r_hist s) - base)) with (zlen (r_hist s)) in Hrun by lia. done. }
    intros f p _ (Hstart & Hlen & Hch). destruct (admissible dict base declared f (r_arrivals s)) eqn:Hadm; [|apply agrees_panic].
    destruct (arrival_sim s d w f Hs Hadm) as (d' & Hrun & Hs'); try done; [lia|]. intros r Hr.
    exists tt, d', w, r. unfold on_fst. cbn [fst snd]. by rewrite Hrun.
  - intros [] s' d' w' p [Hs' Hhist]. apply (agrees_step _ _ _ _ d' d' w'); [done|]. apply agrees_ret. split; [done|].
    destruct Hs' as (? & ? & Hs'). by rewrite (decode_limit_is _ _ _ _ _ Hs'), Hhist.
Qed.

(** One turn of the symbol loop. *)
Lemma item_sim wide nc dc ldc rc s d w pos : sim s d w -> zlen (r_hist s) - base < declared -> sound_tables wide (nc, dc, ldc, rc) ->
  agrees item_post (decode_item nc dc ldc rc declared (zlen (r_hist s) - base)) (ref_item dict base declared (nc, dc, ldc, rc) s) d w pos.
Proof.
  intros Hs0 Hlt (Hnc & Hdc & Hldc & Hrc). destruct (border_step s d w Hs0) as (d0 & w0 & Hborder & Hs).
  unfold decode_item, ref_item. apply (agrees_step _ _ _ _ d d w); [done|].
  apply (agrees_step _ _ _ _ tt d0 w0).
  { intros r. destruct (flush_at d <=? _); [|by injection Hborder as -> ->]. unfold on_fst. cbn [fst snd]. by rewrite Hborder. }
  clear d w Hs0 Hborder. rename d0 into d, w0 into w. pose proof (sim_of_room _ _ _ Hs) as Hs1. pose proof (sim_output _ _ _ Hs1) as Hout.
  pose proof (sim_carries _ _ _ Hs1) as Hc. destruct (c_four _ _ Hc) as [Hfour Hpos]. pose proof (c_short _ _ Hc) as Hshort.
  destruct (r_dists s) as [|x0 [|x1 [|x2 [|x3 [|]]]]] eqn:Edists; try done. pose proof (c_dists _ _ Hc) as Hcache. rewrite Edists in Hcache.
  rewrite !list.Forall_cons in Hpos.
  apply (agrees_read _ _ _ _ _ _ _ _ _ (symbol_realizes nc Hnc) (yields_symbol nc Hnc)). intros sym p Hsym Hsym0.
  destruct (sym <? 256) eqn:E1.
  { destruct (literal_sim s d w (byte_of sym) Hs ltac:(lia)) as (d' & Hrun & Hs').
    apply (agrees_step _ _ _ _ tt d' w); [done|]. apply (finish_item s [byte_of sym]); try done; lia. }
  destruct (262 <=? sym) eqn:E2.
  { apply (agrees_read _ (fun n => 2 <= n <= MAX_LENGTH)); [apply length_realizes | apply yields_length; lia|]. intros n p1 _ Hn.
    apply (agrees_step _ _ _ _ d d w); [done|]. rewrite (c_extra _ _ Hc).
    apply (agrees_read _ (fun x => 1 <= x)); [by eapply distance_realizes | by eapply yields_distance|]. intros distance p2 _ Hd. cbv zeta.
    pose proof (adjust_range n distance) as Hadj. unfold MAX_LENGTH in Hn.
    assert (Hn' : 0 <= adjust_length_for_distance n distance <= MAX_INCREMENTAL_LZ_MATCH) by (unfold MAX_INCREMENTAL_LZ_MATCH; lia).
    apply (agrees_step _ _ _ _ tt (set_dist_cache (remember distance [x0; x1; x2; x3]) d) w).
    { intros r. apply self_step_run. by apply insert_old_run. }
    apply (match_item (ref_match_state (remember distance [x0; x1; x2; x3]) (adjust_length_for_distance n distance) s) _ w _ _ (set_last_length _)); try done.
    eapply remember_sim; try done. unfold remember. cbn [take]. rewrite !list.Forall_cons. tauto. }
  destruct (sym =? 256) eqn:E3; [by apply filter_item|].
  destruct (sym =? 257) eqn:E4.
  { apply (agrees_step _ _ _ _ d d w); [done|]. rewrite (c_length _ _ Hc). destruct (Z.eqb_spec (r_length s) 0); cbn [negb].
    - by apply agrees_ret.
    - rewrite Hcache. cbn [nth]. apply (agrees_step _ _ _ _ x0 d w); [done|]. cbv zeta.
      apply (match_item s d w x0 (r_length s) (fun d => d)); try done. tauto. }
  apply (agrees_step _ _ _ _ d d w); [done|]. set (i := Z.to_nat (sym - 258)). set (dists := [x0; x1; x2; x3]) in *.
  assert (Hi : 0 <= sym - 258 < 4) by lia. pose proof (promote_run d _ _ _ _ (sym - 258) Hcache Hi) as Hprom. fold i dists in Hprom.
  rewrite Hprom, lift_Ok. apply (agrees_step _ _ _ _ tt (set_dist_cache (promote i dists) d) w); [done|].
  apply (agrees_read _ (fun n => 2 <= n <= MAX_LENGTH)); [by eapply rc_realizes | by eapply yields_rc|]. intros n p1 _ Hn. unfold MAX_LENGTH in Hn.
  assert (Hn' : 0 <= n <= MAX_INCREMENTAL_LZ_MATCH) by (unfold MAX_INCREMENTAL_LZ_MATCH; lia).
  assert (Hall : length (promote i dists) = 4%nat /\ Forall (fun x => 1 <= x) (promote i dists) /\ 1 <= nth i dists 0).
  { assert (i = 0 \/ i = 1 \/ i = 2 \/ i = 3)%nat as Hcase by lia. unfold dists.
    destruct Hcase as [->|[->|[->| ->]]]; unfold promote; cbn [nth take drop app length]; rewrite !list.Forall_cons; tauto. }
  apply (match_item (ref_match_state (promote i dists) n s) _ w _ _ (set_last_length _)); try tauto; try done.
  eapply remember_sim; done || apply Hall.
Qed.

(** * Blocks *)

Definition output_post (a : Z) (s : ref) (d : t) (w : W) (p : Z) : Prop := sim s d w /\ a = zlen (r_hist s) - base.

Lemma items_sim wide nc dc ldc rc stop fuel : sound_tables wide (nc, dc, ldc, rc) -> forall s d w pos, sim s d w ->
  agrees output_post (decode_items fuel nc dc ldc rc stop declared (zlen (r_hist s) - base))
    (ref_items dict base declared fuel (nc, dc, ldc, rc) stop s) d w pos.
Proof.
  intros Htb. induction fuel as [|fuel IH]; intros s d w pos Hs; cbn [decode_items ref_items]; [apply agrees_panic|].
  apply agrees_position. intros Hpos. destruct (Z.ltb_spec (zlen (r_hist s) - base) declared) as [Hlt|], (pos <? stop); cbn [andb]; try by apply agrees_ret.
  apply (agrees_read _ (fun _ => True)); [apply has_bits_law | apply yields_true|]. intros more p _ _. destruct more; cbn [negb]; [|by apply agrees_ret].
  apply (agrees_bind item_post); [by eapply item_sim|]. intros a s' d' w' p' _ [Hs' ->]. by apply IH.
Qed.

(** The bits of a block are counted down to the end of its last symbol. *)
Lemma block_bits_sim s d w bits last : sim s d w -> - 2 ^ 62 <= bits <= 2 ^ 62 ->
  sim (ref_block_state bits last s) (set_block_bits bits (set_last_block last d)) w.
Proof.
  intros (pos & out & []) Hb. exists pos, out. constructor; first [done | by destruct s_holds0 | by destruct s_carries0 | by destruct s_queues0 | idtac].
Qed.

Lemma sim_last s d w : sim s d w -> is_last_block d = r_last s.
Proof. intros (pos & out & []). done. Qed.
Lemma sim_bits s d w : sim s d w -> block_bits_remaining d = r_bits s /\ - 2 ^ 62 <= r_bits s <= 2 ^ 62.
Proof. intros (pos & out & []). done. Qed.
Lemma set_last_same d last : is_last_block d = last -> set_last_block last d = d.
Proof. intros <-. by destruct d. Qed.

Lemma items_stay tb stop fuel s pos s' p : (0 < fuel)%nat -> stop <= pos -> ref_items dict base declared fuel tb stop s data pos = Ok (s', p) -> p = pos.
Proof.
  intros Hf Hstop. destruct fuel as [|fuel]; [lia|]. cbn [ref_items]. unfold mbind, bits_spec_bind, spec_pos.
  rewrite (proj2 (Z.ltb_ge pos stop)), andb_false_r by lia. by intros [= _ <-].
Qed.

Lemma block_sim s d w pos : sim s d w ->
  agrees output_post (decode_block declared (zlen (r_hist s) - base)) (ref_block dict base declared s) d w pos.
Proof.
  intros Hs. destruct (sim_bits _ _ _ Hs) as [Hbits Hrange]. pose proof (sim_carries _ _ _ Hs) as Hc.
  unfold decode_block, ref_block. apply (agrees_step _ _ _ _ d d w); [done|]. apply agrees_position. intros Hpos.
  rewrite Hbits. unfold i64. rewrite !(proj2 (Z.leb_le _ _)) by (unfold I64_MAX; lia). cbn [andb]. rewrite lift_Ok.
  pose proof (c_tables _ _ Hc) as Ht. pose proof (c_sound _ _ Hc) as Hsound.
  destruct (r_tables s) as [[[[nc dc] ldc] rc]|]; injection Ht as -> -> -> ->; cbn [table_or_error]; [destruct Hsound as [wide Hsound]|].
  2: { intros r Hr. by exists (d, w, r). }
  apply (agrees_step _ _ _ _ nc d w); [done|]. apply (agrees_step _ _ _ _ dc d w); [done|].
  apply (agrees_step _ _ _ _ ldc d w); [done|]. apply (agrees_step _ _ _ _ rc d w); [done|]. cbv zeta. set (stop := pos + r_bits s).
  apply (agrees_bind output_post); [by eapply items_sim|]. intros a s' d' w' p Hrun [Hs' ->].
  pose proof (forward_items dict base declared wide (nc, dc, ldc, rc) stop _ s Hsound _ _ _ _ Hrun) as Hp.
  assert (Hlow : - 2 ^ 62 <= stop - bit_len data \/ p = pos).
  { destruct (Z.le_gt_cases stop pos); [right; by eapply items_stay in Hrun; [|lia|] | left; lia]. }
  apply agrees_position. intros Hp'. 
  assert (Hleft : - 2 ^ 62 <= stop - p <= 2 ^ 62) by (unfold stop in *; lia).
  rewrite (proj2 (Z.leb_le (- 2 ^ 63) _)), (proj2 (Z.leb_le (stop - p) _)) by (unfold I64_MAX; lia). cbn [andb]. rewrite lift_Ok.
  apply (agrees_step _ _ _ _ tt (set_block_bits (stop - p) d') w'); [done|]. apply agrees_ret. split; [|done].
  pose proof (block_bits_sim s' d' w' (stop - p) (r_last s') Hs' Hleft) as Hb. by rewrite (set_last_same _ _ (sim_last _ _ _ Hs')) in Hb.
Qed.

(** * Headers *)

(** The steps of a header, which leave the writer alone. *)
Lemma agrees_header_read {A C D} Q P (m : stateM R rar_error A) (f : bits_spec A) (k : A -> stateM (t * R) rar_error C) (g : A -> bits_spec D) d w pos :
  realizes tracks m f -> yields f P -> (forall a p, f data pos = Ok (a, p) -> P a -> agrees Q (on_reading (k a)) (g a) d w p) ->
  agrees Q (on_reading (on_snd m ≫= k)) (f ≫= g) d w pos.
Proof.
  intros Hm HP Hk. apply (agrees_weaken Q); [|done]. intros r Hr. pose proof (agrees_read Q P m f (fun a => on_reading (k a)) g d w pos Hm HP Hk r Hr) as Hrun.
  replace (on_reading (on_snd m ≫= k) (d, w, r)) with ((on_snd m ≫= (fun a => on_reading (k a))) (d, w, r)); [exact Hrun|].
  unfold on_reading, on_snd, mbind, stateM_bind. cbn [fst snd]. destruct (m r) as [[a|e|] r']; done.
Qed.

Lemma agrees_header_step {A C D} Q (m : stateM (t * R) rar_error A) (k : A -> stateM (t * R) rar_error C) (g : bits_spec D) a d' d w pos :
  (forall r, m (d, r) = (Ok a, (d', r))) -> agrees Q (on_reading (k a)) g d' w pos -> agrees Q (on_reading (m ≫= k)) g d w pos.
Proof.
  intros Hm Hk r Hr. specialize (Hk r Hr).
  replace (on_reading (m ≫= k) (d, w, r)) with (on_reading (k a) (d', w, r)); [exact Hk|].
  unfold on_reading. cbn [fst snd]. by rewrite (bind_run _ _ _ _ _ (Hm r)).
Qed.

Lemma agrees_header_position {C D} Q (k : Z -> stateM (t * R) rar_error C) (g : Z -> bits_spec D) d w pos :
  (0 <= pos <= bit_len data -> agrees Q (on_reading (k pos)) (g pos) d w pos) ->
  agrees Q (on_reading (gets (fun st => position st.2) ≫= k)) (spec_pos ≫= g) d w pos.
Proof.
  intros Hk r Hr. pose proof (tracks_range r data pos Hr) as Hp.
  replace (on_reading (gets (fun st => position st.2) ≫= k) (d, w, r)) with (on_reading (k pos) (d, w, r)); [exact (Hk Hp r Hr)|].
  unfold on_reading. rewrite bind_gets. cbn [fst snd]. by rewrite (position_law r data pos Hr).
Qed.

Lemma agrees_header_fails {A B} (Q : A -> B -> t -> W -> Z -> Prop) e d w pos : agrees Q (on_reading (fails e)) (spec_lift (Err e)) d w pos.
Proof. intros r Hr. by exists (d, w, r). Qed.
Lemma agrees_header_ret {A B} (Q : A -> B -> t -> W -> Z -> Prop) a b d w pos : Q a b d w pos -> agrees Q (on_reading (mret a)) (mret b) d w pos.
Proof. intros HQ r Hr. by exists a, d, w, r. Qed.

Definition header_post (inv : ref -> t -> W -> Prop) (s : ref) (_ : unit) (s' : ref) (d : t) (w : W) (_ : Z) : Prop := inv s' d w /\ r_hist s' = r_hist s.

Lemma header_size n bytes : 0 <= n < 2 ^ 24 -> 0 <= bytes <= 7 -> 0 <= (if n =? 0 then 0 else bytes + 1 + (n - 1) * 8) <= 2 ^ 27.
Proof. intros Hn Hb. destruct (Z.eqb_spec n 0); lia. Qed.

(** For any way of standing for a state that headers keep. *)
Section header.
Context (inv : ref -> t -> W -> Prop) (inv_carries : forall s d w, inv s d w -> carries s d) (inv_last : forall s d w, inv s d w -> is_last_block d = r_last s).
Context (inv_bits : forall s d w bits last, inv s d w -> - 2 ^ 62 <= bits <= 2 ^ 62 -> inv (ref_block_state bits last s) (set_block_bits bits (set_last_block last d)) w).
Context (inv_tables : forall s d w wide nc dc ldc rc lens, inv s d w -> sound_tables wide (nc, dc, ldc, rc) -> zlen lens = zlen (r_lens s) ->
  inv (ref_tables (Some (nc, dc, ldc, rc)) lens s) (set_tables (Some nc) (Some dc) (Some ldc) (Some rc) (set_code_lengths lens d)) w).

Lemma header_steps s d w pos : inv s d w -> agrees (header_post inv s) (on_reading read_block_header) (ref_header s) d w pos.
Proof using inv_carries inv_last inv_bits inv_tables Hdata.
  intros Hs. unfold read_block_header, read_header_with, ref_header.
  apply (agrees_header_read _ (fun _ => True)); [apply align_law | apply yields_true|]. intros _ p0 _ _.
  apply (agrees_header_read _ _ _ _ _ _ _ _ _ u8_realizes yields_u8). intros flags p1 _ Hflags.
  apply (agrees_header_read _ _ _ _ _ _ _ _ _ u8_realizes yields_u8). intros checksum p2 _ _. cbv zeta.
  set (size := Z.land (Z.shiftr flags 3) 3 + 1). destruct (Z.ltb_spec 3 size) as [|Hsize3]; [apply agrees_header_fails|].
  assert (Hsize0 : 1 <= size) by (unfold size; pose proof (land_range_r (Z.shiftr flags 3) 3 2 ltac:(lia) ltac:(lia)); lia).
  apply (agrees_header_step _ _ _ _ tt (set_last_block (has flags 0x40) d)); [done|].
  apply (agrees_header_read _ (fun '(v, _) => 0 <= v < 2 ^ 24)); [apply size_realizes| |].
  { intros dt q [v x] q' Hrun. pose proof (yields_size (Z.to_nat size) 0 0 (Z.lxor 0x5A flags) ltac:(lia) ltac:(lia) _ _ _ _ Hrun) as Hv.
    cbv beta iota in Hv. split; [lia|]. eapply Z.lt_le_trans; [apply Hv|]. apply Z.pow_le_mono_r; lia. }
  intros [block_bytes xor_sum] p3 _ Hbytes. destruct (xor_sum =? checksum); cbn [negb]; [|apply agrees_header_fails].
  pose proof (header_size block_bytes (Z.land flags 7) Hbytes ltac:(pose proof (land_range_r flags 7 3 ltac:(lia) ltac:(lia)); lia)) as Hbits.
  set (bits := if block_bytes =? 0 then 0 else _) in *.
  apply (agrees_header_step _ _ _ _ tt (set_block_bits bits (set_last_block (has flags 0x40) d))); [done|]. cbn [andb].
  apply (agrees_header_step _ _ _ _ tt (set_block_bits bits (set_last_block (has flags 0x40) d))); [done|].
  pose proof (inv_bits s d w bits (has flags 0x40) Hs ltac:(lia)) as Hs1.
  set (d1 := set_block_bits bits _) in *. set (s1 := ref_block_state bits _ s) in *. clearbody d1.
  pose proof (inv_carries _ _ _ Hs1) as Hc1. pose proof (c_tables _ _ Hc1) as Ht. pose proof (c_room _ _ Hc1) as Hroom.
  apply (agrees_header_step _ _ _ _ d1 d1); [done|]. destruct (has flags 0x80); cbn [negb andb].
  2: { change (r_tables s1) with (r_tables s) in *. destruct (r_tables s) as [[[[nc dc] ldc] rc]|]; injection Ht as -> _ _ _.
       - rewrite bool_decide_false by done. by apply agrees_header_ret.
       - rewrite bool_decide_true by done. apply agrees_header_fails. }
  apply agrees_header_position. intros Hp3. rewrite (c_lens _ _ Hc1), (c_extra _ _ Hc1).
  apply (agrees_header_read _ _ _ _ _ _ _ _ _ (tables_realize (r_lens s) (r_extra s)) (yields_tables (r_lens s) (r_extra s) (Z.eq_le_incl _ _ (eq_sym Hroom)))).
  intros [[[[nc dc] ldc] rc] lens] p4 _ [Hsound Hlens].
  apply (agrees_header_step _ _ _ _ tt (set_code_lengths lens d1)); [done|]. apply agrees_header_position. intros Hp4.
  assert (Hused : as_i64 (p4 - p3) = p4 - p3) by (unfold as_i64; rewrite (proj2 (Z.ltb_lt _ _)) by lia; done).
  assert (Hleft : i64 (E := rar_error) (bits - as_i64 (p4 - p3)) = Ok (bits - (p4 - p3))).
  { rewrite Hused. unfold i64, I64_MAX. by rewrite !(proj2 (Z.leb_le _ _)) by lia. }
  apply (agrees_header_step _ _ _ _ (bits - (p4 - p3)) (set_code_lengths lens d1)); [intros r; by rewrite Hleft|].
  intros r Hr. eexists tt, _, w, r. split; [reflexivity|]. split; [done|]. split; [|done].
  pose proof (inv_tables s1 d1 w _ nc dc ldc rc lens Hs1 Hsound Hlens) as Hs2.
  pose proof (inv_bits _ _ _ (bits - (p4 - p3)) (r_last (ref_tables (Some (nc, dc, ldc, rc)) lens s1)) Hs2 ltac:(lia)) as Hs3.
  rewrite (set_last_same _ _ (inv_last _ _ _ Hs2)) in Hs3. exact Hs3.
Qed.
End header.

Lemma tables_sim s d w wide nc dc ldc rc lens : sim s d w -> sound_tables wide (nc, dc, ldc, rc) -> zlen lens = zlen (r_lens s) ->
  sim (ref_tables (Some (nc, dc, ldc, rc)) lens s) (set_tables (Some nc) (Some dc) (Some ldc) (Some rc) (set_code_lengths lens d)) w.
Proof.
  intros (pos & out & []) Htb Hl. exists pos, out. destruct s_carries0.
  constructor; first [done | by destruct s_holds0 | by destruct s_queues0 | idtac].
  constructor; try done; [by exists wide | cbn; by rewrite Hl].
Qed.

Lemma header_sim s d w pos : sim s d w -> agrees (header_post sim s) (on_reading read_block_header) (ref_header s) d w pos.
Proof using Hdata. apply header_steps; [apply sim_carries | apply sim_last | apply block_bits_sim | apply tables_sim]. Qed.

(** * Members *)

Lemma agrees_assoc {A B C D} Q (m : M A) (k : A -> M B) (h : B -> M C) (g : bits_spec D) d w pos :
  agrees Q (m ≫= (fun a => k a ≫= h)) g d w pos -> agrees Q ((m ≫= k) ≫= h) g d w pos.
Proof.
  intros Hm r Hr. specialize (Hm r Hr).
  replace (((m ≫= k) ≫= h) (d, w, r)) with ((m ≫= (fun a => k a ≫= h)) (d, w, r)); [exact Hm|].
  unfold mbind, stateM_bind. by destruct (m (d, w, r)) as [[a|e|] st].
Qed.

(** The test for another header. *)
Lemma agrees_header_fits {C D} Q (k : Z -> M C) (k' : bool -> M C) (g : bool -> bits_spec D) d w pos :
  (forall n, k n = k' (16 <=? n)) -> (forall b, agrees Q (k' b) (g b) d w pos) -> agrees Q (on_snd bits_remaining ≫= k) (spec_exact 16 ≫= g) d w pos.
Proof.
  intros Hk Hall r Hr. pose proof (remaining_least_law 16 ltac:(lia) r data pos Hr) as Hlaw. unfold spec_exact in *.
  unfold mbind, bits_spec_bind, stateM_bind, on_snd in *. cbn [fst snd] in *. destruct (bits_remaining r) as [[n|e|] r'];
    destruct Hlaw as (r'' & Hrun & Hr''); [|done..]. injection Hrun as <- <-. rewrite Hk. apply (Hall _ r' Hr'').
Qed.

Lemma sim_limit s d w : sim s d w -> decode_limit d = declared.
Proof. intros (pos & out & Hs). by eapply decode_limit_is. Qed.

(** The rest of a turn, behind the header of the block if there is one. *)
Definition loop_on (fuel : nat) (turn : Z * bool) : M Z := let '(output_size, go_on) := turn in if go_on then member_loop fuel output_size else mret output_size.
Definition rest_of_turn (output_size : Z) (ended : bool) : M (Z * bool) :=
  if ended then mret (output_size, false)
  else
    self ← gets (fun st => st.1.1);
    output_size ← decode_block (decode_limit self) output_size;
    mret (output_size, true).

Section turn.
Context (fuel : nat) (IH : forall s d w pos, sim s d w ->
  agrees output_post (member_loop fuel (zlen (r_hist s) - base)) (ref_blocks dict base declared fuel s) d w pos).

Lemma turn_sim s d w pos : sim s d w ->
  agrees output_post (rest_of_turn (zlen (r_hist s) - base) false ≫= loop_on fuel) (s ← ref_block dict base declared s; ref_blocks dict base declared fuel s) d w pos.
Proof using All.
  intros Hs. apply agrees_assoc. apply (agrees_step _ _ _ _ d d w); [done|]. rewrite (sim_limit _ _ _ Hs). apply agrees_assoc.
  apply (agrees_bind output_post); [by apply block_sim|]. intros a s' d' w' p Hrun [Hs' ->].
  apply (agrees_step _ _ _ _ (zlen (r_hist s') - base, true) d' w'); [done|]. by apply IH.
Qed.

Lemma header_turn_sim s d w pos : sim s d w ->
  agrees output_post
    ((n ← on_snd bits_remaining; if n <? 16 then mret true else _ ← on_reading read_block_header; mret false) ≫=
     (fun ended => rest_of_turn (zlen (r_hist s) - base) ended ≫= loop_on fuel))
    (header_fits ← spec_exact 16; if (header_fits : bool) then s ← ref_header s; s ← ref_block dict base declared s; ref_blocks dict base declared fuel s else mret s) d w pos.
Proof using All.
  intros Hs. apply agrees_assoc.
  apply (agrees_header_fits _ _ (fun b => (if b : bool then _ ← on_reading read_block_header; mret false else mret true) ≫= (fun ended => rest_of_turn (zlen (r_hist s) - base) ended ≫= loop_on fuel))).
  { intros n. destruct (Z.ltb_spec n 16), (Z.leb_spec 16 n); done || lia. }
  intros [|].
  - apply agrees_assoc. apply (agrees_bind (header_post sim s)); [by apply header_sim|]. intros [] s' d' w' p _ [Hs' <-].
    apply (agrees_step _ _ _ _ false d' w'); [done|]. by apply turn_sim.
  - apply (agrees_step _ _ _ _ true d w); [done|]. apply (agrees_step _ _ _ _ (zlen (r_hist s) - base, false) d w); [done|]. by apply agrees_ret.
Qed.
End turn.

Lemma blocks_sim fuel : forall s d w pos, sim s d w ->
  agrees output_post (member_loop fuel (zlen (r_hist s) - base)) (ref_blocks dict base declared fuel s) d w pos.
Proof.
  induction fuel as [|fuel IH]; intros s d w pos Hs; cbn [member_loop ref_blocks]; [apply agrees_panic|].
  change (agrees output_post (member_turn (zlen (r_hist s) - base) ≫= loop_on fuel)
    (if zlen (r_hist s) - base <? declared then
       if r_bits s <=? 0 then
         if r_last s then mret s
         else (header_fits ← spec_exact 16; if (header_fits : bool) then s ← ref_header s; s ← ref_block dict base declared s; ref_blocks dict base declared fuel s else mret s)
       else s ← ref_block dict base declared s; ref_blocks dict base declared fuel s
     else mret s) d w pos).
  unfold member_turn. apply agrees_assoc. apply (agrees_step _ _ _ _ d d w); [done|]. rewrite (sim_limit _ _ _ Hs).
  destruct (_ <? declared); [|apply (agrees_step _ _ _ _ (zlen (r_hist s) - base, false) d w); [done | by apply agrees_ret]].
  destruct (sim_bits _ _ _ Hs) as [-> _]. rewrite (sim_last _ _ _ Hs).
  change (agrees output_post
    (((if r_bits s <=? 0 then if r_last s then mret true else (n ← on_snd bits_remaining; if n <? 16 then mret true else _ ← on_reading read_block_header; mret false) else mret false) ≫=
      rest_of_turn (zlen (r_hist s) - base)) ≫= loop_on fuel)
    (if r_bits s <=? 0 then
         if r_last s then mret s
         else (header_fits ← spec_exact 16; if (header_fits : bool) then s ← ref_header s; s ← ref_block dict base declared s; ref_blocks dict base declared fuel s else mret s)
       else s ← ref_block dict base declared s; ref_blocks dict base declared fuel s) d w pos).
  apply agrees_assoc. destruct (r_bits s <=? 0).
  - destruct (r_last s); [|by apply header_turn_sim].
    apply (agrees_step _ _ _ _ true d w); [done|]. apply (agrees_step _ _ _ _ (zlen (r_hist s) - base, false) d w); [done|]. by apply agrees_ret.
  - apply (agrees_step _ _ _ _ false d w); [done|]. by apply turn_sim.
Qed.

End simulation.
