(* ===== verification/LzDecoderProps.v ===== *)
(** The decoder is the reference: over any reader, through its window and with
    its own schedule of writes, it writes the member's output. What a member leaves for the next one of a
    solid archive is the matter of [LzContinue]. *)
From stdpp Require Import sorting.
From S2P Require Import Prelude RarTypes StateM BitString LzWindow LzCopies LzHistory LzOutput LzWindowProps LzFilter LzFilterProps.
From S2P Require Import LzBits LzBitReader LzStreamReader LzReaders LzHuffman LzHuffmanProps LzHuffmanDecode LzTables LzDecoder LzFlush LzReference LzReading LzProgress LzSimulation.
Import LzDecoder.
Local Abbreviation written := LzOutput.written.

(** A decoder at rest: its window holds the reference's output. *)
Record ready (dict : Z) (s : ref) (d : t) : Prop := mk_ready {
  rd_window : exists p, stands_for (window d) dict (full (r_hist s) p);
  rd_carries : carries s d;
  rd_bits : block_bits_remaining d = r_bits s;
  rd_last : is_last_block d = r_last s;
  rd_range : - 2 ^ 62 <= r_bits s <= 2 ^ 62
}.

(** The sizes this development covers: the window holds two matches, counters
    of bytes and bits stay in their words. *)
Definition sizes_ok (dict declared : Z) (s : ref) (data : list byte) : Prop :=
  2 * MAX_INCREMENTAL_LZ_MATCH < dict < 2 ^ 63 /\ 0 <= declared /\
  zlen (r_hist s) + declared + MAX_INCREMENTAL_LZ_MATCH < 2 ^ 63 /\ bit_len data < 2 ^ 61.

(** What the reference's result asks of a decoder started with the writer [w]. *)
Definition member_of {St W} `{SinkLaws W} `{ByteSearch} (dict declared : Z) (s : ref) (w : W) (reference : result (ref * Z)) (run : outcome rar_error Z * St) (decoder : St -> t) (writer : St -> W) : Prop :=
  match reference with
  | Ok (s', _) =>
    let out := member_output (zlen (r_hist s)) (zlen (r_hist s) + declared) (r_hist s') (r_arrivals s') in
    exists st, run = (Ok (zlen out), st) /\ written (writer st) = written w ++ out /\ ready dict s' (decoder st) /\
      zlen (r_hist s') <= zlen (r_hist s) + declared + MAX_INCREMENTAL_LZ_MATCH
  | Err e => exists st, run = (Err e, st)
  | Panic => True
  end.

Section member.
Context {R W : Type} `{BitReadLaws R} `{SinkLaws W} `{ByteSearchLaws}.

Lemma begin_ready dict declared s d : ready dict s d -> zlen (r_hist s) < 2 ^ 63 -> exists win, 
  begin_file_decode declared d = Ok (recompute_flush_border (set_exhausted false (set_window win
    (set_file (zlen (r_hist s)) 0 0 declared (set_filters [] (set_last_block false d)))))) /\
  stands_for win dict (full (r_hist s) (zlen (r_hist s))).
Proof.
  intros [(p & Hwin) _ _ _ _] Hsize. pose proof (sf_total _ _ _ Hwin) as Htotal. cbn in Htotal.
  destruct (sf_flushed _ _ _ Hwin) as [_ Hp]. cbn in Hp.
  destruct (mark_moves dict (window d) (r_hist s) p (zlen (r_hist s)) Hwin Hsize ltac:(lia)) as (win & Hmark & Hwin').
  exists win. split; [|done]. unfold begin_file_decode. cbn. by rewrite Htotal, Hmark.
Qed.

Lemma begin_sim dict declared s d (w : W) data : ready dict s d -> sizes_ok dict declared s data -> exists d',
  begin_file_decode declared d = Ok d' /\
  sim dict (zlen (r_hist s)) declared (written w) (ref_arrivals [] (ref_block_state (r_bits s) false s)) d' w.
Proof.
  intros Hready (Hdict & Hdecl & Hsize & Hdata). pose proof (zlen_nonneg (r_hist s)).
  assert (Hmax : 0 <= MAX_INCREMENTAL_LZ_MATCH) by (unfold MAX_INCREMENTAL_LZ_MATCH; lia).
  destruct (begin_ready dict declared s d Hready ltac:(lia)) as (win & Hrun & Hwin). eexists. split; [exact Hrun|].
  destruct Hready as [_ [] Hbits _ Hrange]. exists (zlen (r_hist s)), []. pose proof (sf_flushed _ _ _ Hwin) as [Hf _].
  pose proof (sf_total _ _ _ Hwin) as Ht. pose proof (sf_dict _ _ _ Hwin) as Hd. cbn in Hf, Ht.
  constructor; cbn [r_hist ref_arrivals ref_block_state r_bits r_last r_arrivals]; try done.
  - constructor; cbn -[Z.leb]; try done; try lia. rewrite (proj2 (Z.leb_le _ _)) by lia. lia.
  - constructor; try done. constructor.
  - by rewrite app_nil_r.
  - cbn. unfold flush_border, sat_sub_u64, sat_add_u64. rewrite Hf, Ht, Hd. unfold MAX_INCREMENTAL_LZ_MATCH in *. lia.
  - lia.
Qed.

(** A whole member. *)
Lemma member_refines dict declared fuel s d (w : W) (r : R) data pos : ready dict s d -> sizes_ok dict declared s data -> tracks r data pos ->
  bit_len data - pos + 2 <= Z.of_nat fuel ->
  member_of dict declared s w (ref_member dict declared s data pos) (decode_member fuel declared 0 (d, w, r)) (fun st => st.1.1) (fun st => st.1.2).
Proof.
  intros Hready Hok Hr Hfuel. destruct (begin_sim dict declared s d w data Hready Hok) as (d0 & Hbegin & Hsim). pose proof (tracks_range r data pos Hr) as Hpos.
  destruct Hok as (Hdict & Hdecl & Hsize & Hdata). set (s0 := ref_arrivals [] _) in *.
  unfold decode_member. rewrite (bind_run _ _ _ _ _ (self_step_run _ _ _ w r Hbegin)).
  pose proof (blocks_sim dict (zlen (r_hist s)) declared (written w) data (zlen_nonneg _) Hdecl ltac:(lia) ltac:(lia) Hsize Hdata fuel s0 d0 w pos Hsim r Hr) as Hblocks.
  cbn [r_hist s0 ref_arrivals ref_block_state] in Hblocks. rewrite Z.sub_diag in Hblocks. fold s0 in Hblocks.
  assert (Hsound : sound false s0).
  { destruct Hready as [_ [] _ _ _]. split; [|done]. cbn [r_tables s0 ref_arrivals ref_block_state]. destruct (r_tables s) as [tb|]; [|done].
    destruct c_sound as [wide Hw]. by exists wide. }
  rewrite (enough_turns _ _ _ data false (Z.to_nat (bit_len data - pos) + 2)) in Hblocks by (done || lia).
  unfold member_of, ref_member. fold s0. destruct (ref_blocks dict (zlen (r_hist s)) declared _ s0 data pos) as [[s' p]|e|]; [| |done].
  2: { destruct Hblocks as (st & Hrun). exists st. by rewrite (bind_run_err _ _ _ _ _ Hrun). }
  destruct Hblocks as (a & d1 & w1 & r1 & Hrun & _ & (pos1 & out & Hsim1) & _). rewrite (bind_run _ _ _ _ _ Hrun).
  destruct (flush_sim dict (zlen (r_hist s)) declared (written w) (zlen_nonneg _) ltac:(lia) ltac:(lia) Hsize s' d1 w1 pos1 out Hsim1) as (d2 & w2 & pos2 & Hflush & Hsim2 & _).
  pose proof (s_lossless _ _ _ _ _ _ _ _ _ Hsim1 [] [] ltac:(constructor) ltac:(constructor)) as Hall. rewrite !app_nil_r in Hall.
  cbn [insert_all fold_left] in Hall. rewrite <- push_all_inserts in Hall by constructor.
  exists (d2, w2, r1). destruct Hsim2. split; [|split].
  - rewrite (bind_run _ _ _ tt (d2, w2, r1)) by (unfold on_fst; cbn [fst snd]; by rewrite Hflush). unfold gets. cbn [fst].
    rewrite s_emitted. unfold member_output. by rewrite Hall.
  - cbn [fst snd]. rewrite s_written. unfold member_output. by rewrite Hall.
  - split; [|lia]. cbn [fst]. constructor; try done. eexists. apply s_holds.
Qed.

Lemma with_reader_refines dict declared s (w : W) reference (m : stateM (t * W * R) rar_error Z) d r :
  member_of dict declared s w reference (m (d, w, r)) (fun st => st.1.1) (fun st => st.1.2) ->
  member_of dict declared s w reference (with_reader r m (d, w)) fst snd.
Proof.
  unfold member_of, with_reader. destruct reference as [[s' p]|e|]; [| |done].
  - intros ([st r'] & -> & H'). by exists st.
  - intros ([st r'] & ->). by exists st.
Qed.
End member.

(** * Fresh and recycled decoders *)

Definition fresh (extra : bool) : ref := mk_ref [] no_distances 0 None (HuffmanTable.zeros (total_symbols extra)) extra 0 false [].

Lemma fresh_carries extra d : dist_cache d = no_distances -> last_length d = 0 -> (nc_table d, dc_table d, ldc_table d, rc_table d) = (None, None, None, None) ->
  code_lengths d = HuffmanTable.zeros (total_symbols extra) -> extra_dist d = extra -> carries (fresh extra) d.
Proof.
  intros H1 H2 H3 H4 H5. constructor; try done; cbn.
  - split; [done|]. by repeat constructor.
  - by destruct extra.
Qed.

Lemma new_ready `{ZeroedAlloc} dict version d : try_new dict version = Ok d -> exists extra, extra_dist_for_version version = Ok extra /\ ready dict (fresh extra) d.
Proof.
  unfold try_new. intros (extra & Hextra & (win & Hwin & [= <-])%bind_Ok_inv)%bind_Ok_inv. exists extra. split; [done|].
  constructor; try done; [exists 0; by apply new_stands in Hwin | by apply fresh_carries].
Qed.

Lemma reuse_ready `{ZeroedAlloc} dict version old d : 0 < dict -> zlen (code_lengths old) = total_symbols (extra_dist old) -> prepare_reuse dict version old = Ok d ->
  exists extra, extra_dist_for_version version = Ok extra /\ ready dict (fresh extra) d.
Proof.
  intros Hd Hc. unfold prepare_reuse. intros (extra & Hextra & (win & Hwin & [= <-])%bind_Ok_inv)%bind_Ok_inv. exists extra. split; [done|].
  apply reuse_stands in Hwin; [|done].
  destruct (Bool.eqb extra (extra_dist old)) eqn:E; [apply eqb_prop in E | ]; (constructor; try done; [exists 0; exact Hwin|]); apply fresh_carries; try done.
  cbn in *. by rewrite Hc, E.
Qed.

(** An allocator that grants what is asked. *)
Section granted.
Context `{ZeroedAlloc} (Hgrant : forall n, alloc_zeroed n = true).

Lemma contiguous_granted n : 0 < n < 2 ^ 63 -> WindowStorage.try_contiguous n = Ok (zreplicate n x00).
Proof using Hgrant.
  intros Hn. unfold WindowStorage.try_contiguous, debug_check. rewrite (proj2 (Z.ltb_lt 0 n)), bind_Ok, Hgrant by lia.
  unfold I64_MAX. by rewrite (proj2 (Z.ltb_ge _ n)) by lia.
Qed.

Lemma new_granted dict version extra : 0 < dict < 2 ^ 63 -> extra_dist_for_version version = Ok extra ->
  exists d, try_new dict version = Ok d /\ ready dict (fresh extra) d.
Proof using Hgrant.
  intros Hd Hv. assert (Hnew : exists d, try_new dict version = Ok d).
  { unfold try_new, Window.try_new. rewrite Hv, bind_Ok, (proj2 (Z.eqb_neq dict 0)), contiguous_granted, bind_Ok by lia. by eexists. }
  destruct Hnew as (d & Hnew). exists d. split; [done|]. destruct (new_ready dict version d Hnew) as (extra' & Hv' & Hready).
  rewrite Hv in Hv'. by injection Hv' as <-.
Qed.

Lemma reuse_granted dict version extra old : 0 < dict < 2 ^ 63 -> zlen (code_lengths old) = total_symbols (extra_dist old) -> extra_dist_for_version version = Ok extra ->
  exists d, prepare_reuse dict version old = Ok d /\ ready dict (fresh extra) d.
Proof using Hgrant.
  intros Hd Hc Hv. assert (Hreuse : exists d, prepare_reuse dict version old = Ok d).
  { unfold prepare_reuse, Window.reset_for_reuse, Window.ensure_capacity. rewrite Hv, bind_Ok, (proj2 (Z.eqb_neq dict 0)), contiguous_granted by lia.
    destruct (_ <? dict); by eexists. }
  destruct Hreuse as (d & Hreuse). exists d. split; [done|]. destruct (reuse_ready dict version old d ltac:(lia) Hc Hreuse) as (extra' & Hv' & Hready).
  rewrite Hv in Hv'. by injection Hv' as <-.
Qed.
End granted.

(** * The decoder is the reference *)

Section entry_points.
Context {Rd W : Type} `{SourceLaws Rd} `{SinkLaws W} `{ByteSearchLaws}.
Context (dict declared : Z) (fuel : nat) (s : ref) (d : t) (w : W) (source : Rd).
Context (Hready : ready dict s d) (Hsome : declared <> 0) (Hok : sizes_ok dict declared s (src_rest source)).
Context (Hfuel : bit_len (src_rest source) + 2 <= Z.of_nat fuel).

Lemma slice_refines : member_of dict declared s w (ref_member dict declared s (src_rest source) 0) (decompress_to_writer fuel (src_rest source) declared (d, w)) fst snd.
Proof using All.
  unfold decompress_to_writer. rewrite (proj2 (Z.eqb_neq declared 0) Hsome). pose proof Hok as (_ & _ & _ & Hbits).
  apply with_reader_refines, member_refines; [exact Hready | exact Hok | apply new_ok; lia | lia].
Qed.

Lemma stream_refines : member_of dict declared s w (ref_member dict declared s (src_rest source) 0) (decompress_reader_to_writer fuel source declared (d, w)) fst snd.
Proof using All.
  unfold decompress_reader_to_writer, decompress_reader_to_writer_single_thread. rewrite (proj2 (Z.eqb_neq declared 0) Hsome). pose proof Hok as (_ & _ & _ & Hbits).
  apply with_reader_refines, member_refines; [exact Hready | exact Hok | | lia]. unfold StreamReader.new. apply stream_new_ok. lia.
Qed.
End entry_points.

(** C1: the decoder is the reference: from any resting state, over a slice and
    over a source that delivers the same bytes in pieces of any size, with any
    number of turns from the input's bits on, a member decodes to what the
    reference reads off the bits: the writer gets exactly the member's output
    with its filters applied, its length is returned, the decoder rests in the
    state the next member starts from, and a malformed stream fails with the
    reference's error. The window, the write border, the queue of descriptors
    and the bit reader's buffer do not show. *)
Theorem decoders_are_the_reference {Rd W} `{SourceLaws Rd} `{SinkLaws W} `{ByteSearchLaws} (dict declared : Z) (fuel : nat) (s : ref) (d : t) (w : W) (source : Rd) :
  ready dict s d -> declared <> 0 -> sizes_ok dict declared s (src_rest source) -> bit_len (src_rest source) + 2 <= Z.of_nat fuel ->
  let reference := ref_member dict declared s (src_rest source) 0 in
  member_of dict declared s w reference (decompress_to_writer fuel (src_rest source) declared (d, w)) fst snd /\
  member_of dict declared s w reference (decompress_reader_to_writer fuel source declared (d, w)) fst snd.
Proof. intros Hready Hsome Hok Hfuel. split; [by apply slice_refines | by apply stream_refines]. Qed.

(** Literals, matches at new and remembered distances, a repeated match and a
    difference filter, read from a slice and from a source of three bytes at a time. *)
Definition sample_stream : list byte :=
  [xca; x8d; x1d; x00; x33; x33; x00; x00; x00; x00; x00; x00; x00; x33; xb5; x92; xbf; xe8; x86; xe1; x55; x01; x36; x19; x34; xf8; xd9; xcc; x00; x00; x60; x02; x80].
Definition sample_output : list byte := [x61; x62; x61; x62; x62; x62; x62; x62; x61; x9f; x3d; xdb; x61].

Lemma decoders_are_the_reference_witness :
  let reference := ref_member 0x40000 13 (fresh false) sample_stream 0 in
  (exists s p, reference = Ok (s, p) /\ member_output 0 13 (r_hist s) (r_arrivals s) = sample_output) /\
  exists d, try_new 0x40000 0 = Ok d /\
    member_of 0x40000 13 (fresh false) [] reference (decompress_to_writer 300 sample_stream 13 (d, [])) fst snd /\
    member_of 0x40000 13 (fresh false) [] reference (decompress_reader_to_writer 300 sample_stream 13 (d, [])) fst snd.
Proof.
  cbv zeta. split.
  - destruct (ref_member 0x40000 13 (fresh false) sample_stream 0) as [[s p]|e|] eqn:E; vm_compute in E; [|discriminate E..].
    exists s, p. split; [done|]. injection E as <- <-. vm_compute. reflexivity.
  - destruct (new_granted (fun _ => eq_refl) 0x40000 0 false ltac:(lia) eq_refl) as (d & Hnew & Hready). exists d. split; [exact Hnew|].
    apply (@decoders_are_the_reference (list byte) (list byte) threes threes_ok collect collect_ok scanning scanning_laws 0x40000 13 300 (fresh false) d [] sample_stream).
    + exact Hready.
    + discriminate.
    + vm_compute. repeat split; discriminate.
    + vm_compute. discriminate.
Defined.


