(* ===== verification/LzTruncated.v ===== *)
(** Inputs that end inside a block: the loop over blocks of the code does not
    notice and never returns. *)
From S2P Require Import Prelude RarTypes StateM BitString LzBits LzBitReader LzWindow LzOutput LzWindowProps LzFilter LzFilterProps LzHuffman LzDecoder.
Import LzDecoder.

Section truncated.
Context {R W : Type} `{BitReadLaws R} `{Sink W} `{ByteSearch}.

(** A turn that finds the block unfinished and the input used up changes nothing but the reader's buffer. *)
Lemma turn_changes_nothing data pos output_size (d : t) (w : W) (r : R) nc dc ldc rc :
  tracks r data pos -> fits data pos 1 = false -> bit_len data < 2 ^ 62 ->
  output_size < decode_limit d -> 0 < block_bits_remaining d < 2 ^ 62 ->
  (nc_table d, dc_table d, ldc_table d, rc_table d) = (Some nc, Some dc, Some ldc, Some rc) ->
  exists r', member_turn output_size (d, w, r) = (Ok (output_size, true), (d, w, r')) /\ tracks r' data pos.
Proof.
  intros Hr Hend Hdata Hlim Hbits Htb. injection Htb as Hnc Hdc Hldc Hrc. pose proof (tracks_range r data pos Hr) as Hpos.
  assert (Hp : forall r, tracks r data pos -> as_i64 (position r) = pos).
  { intros r0 Hr0. rewrite (position_law r0 data pos Hr0). unfold as_i64. by rewrite (proj2 (Z.ltb_lt _ _)) by lia. }
  assert (Hi64 : forall z, - 2 ^ 62 <= z < 2 ^ 63 -> i64 (E := rar_error) z = Ok z).
  { intros z Hz. unfold i64, I64_MAX. by rewrite !(proj2 (Z.leb_le _ _)) by lia. }
  pose proof (has_bits_law r data pos Hr) as Hhas. unfold spec_has_bits in Hhas. rewrite Hend in Hhas. destruct Hhas as (r' & Hhas & Hr').
  exists r'. split; [|done]. unfold member_turn. rewrite bind_gets. cbn [fst]. rewrite (proj2 (Z.ltb_lt _ _)), (proj2 (Z.leb_gt _ _)) by lia.
  rewrite bind_mret, bind_gets. cbn [fst].
  assert (Hblock : decode_block (decode_limit d) output_size (d, w, r) = (Ok output_size, (d, w, r'))).
  { unfold decode_block. rewrite !bind_gets. cbn [fst snd]. rewrite (Hp r Hr), Hi64, lift_Ok by lia.
    rewrite Hnc, Hdc, Hldc, Hrc. cbn [table_or_error]. rewrite !bind_mret.
    assert (Hitems : decode_items (S (Z.to_nat (block_bits_remaining d))) nc dc ldc rc (pos + block_bits_remaining d) (decode_limit d) output_size (d, w, r) = (Ok output_size, (d, w, r'))).
    { cbn [decode_items]. rewrite bind_gets. cbn [snd]. rewrite (Hp r Hr), !(proj2 (Z.ltb_lt _ _)) by lia. cbn [andb].
      rewrite (bind_run _ _ _ false (d, w, r')) by (unfold on_snd; cbn [fst snd]; by rewrite Hhas). done. }
    rewrite (bind_run _ _ _ _ _ Hitems). rewrite bind_gets. cbn [fst snd]. rewrite (Hp r' Hr').
    replace (pos + block_bits_remaining d - pos) with (block_bits_remaining d) by lia. rewrite Hi64, lift_Ok by lia.
    unfold on_fst, modify. cbn. by destruct d. }
  by rewrite (bind_run _ _ _ _ _ Hblock).
Qed.
End truncated.

(** C18: a member whose input ends between two symbols of a block, with output
    still owing, is never finished: whatever the reader, the loop over blocks
    goes on without reading, writing or failing, for any number of turns. *)
Theorem truncated_member_never_returns {R W} `{BitReadLaws R} `{Sink W} `{ByteSearch} (data : list byte) (pos output_size : Z) (d : t) (w : W) (r : R) nc dc ldc rc :
  tracks r data pos -> fits data pos 1 = false -> bit_len data < 2 ^ 62 ->
  output_size < decode_limit d -> 0 < block_bits_remaining d < 2 ^ 62 ->
  (nc_table d, dc_table d, ldc_table d, rc_table d) = (Some nc, Some dc, Some ldc, Some rc) ->
  forall turns, member_loop turns output_size (d, w, r) = (Panic, snd (member_loop turns output_size (d, w, r))) /\
    fst (snd (member_loop turns output_size (d, w, r))) = (d, w).
Proof.
  intros Hr Hend Hdata Hlim Hbits Htb turns. revert r Hr. induction turns as [|turns IH]; intros r Hr; [done|]. cbn [member_loop].
  destruct (turn_changes_nothing data pos output_size d w r nc dc ldc rc Hr Hend Hdata Hlim Hbits Htb) as (r' & Hturn & Hr').
  rewrite (bind_run _ _ _ _ _ Hturn). by apply IH.
Qed.

(** ** A sample: nine symbols of a block, then the input ends *)

Definition cut_stream : list byte :=
  [xcf; x8b; x1e; x00; x33; x33; x00; x00; x00; x00; x00; x00; x00; x33; xb5; x92; xbf; xe8; x86; xe1; x55; x01; x36; x19; x34; xff; x11; x11].
Definition cut_decoder : t := match try_new 64 0 with Ok d => d | _ => mk (Window.mk [] 0 0 false 0 0 [] 0) [] 0 None None None None [] false 0 false [] 0 0 0 0 0 false end.
Definition cut_start : t * list byte * BitReader.t := snd (self_step (begin_file_decode 40) (cut_decoder, [], BitReader.new cut_stream)).
Definition cut_state : t * list byte * BitReader.t := snd (member_turn 0 cut_start).

Lemma loop_panics {St A B} (m : stateM St rar_error A) (k : A -> stateM St rar_error B) st : fst (m st) = Panic -> fst ((m ≫= k) st) = Panic.
Proof. unfold mbind, stateM_bind. destruct (m st) as [[a|e|] st']; done. Qed.

Lemma triple {A B C} (x : A * B * C) : (x.1.1, x.1.2, x.2) = x.
Proof. by destruct x as [[a b] c]. Qed.

(** One turn brings the decoder there, from the entry point on. *)
Lemma member_panics {R W} `{BitRead R} `{Sink W} `{ByteSearch} declared output_size (st st0 st1 : t * W * R) :
  self_step (begin_file_decode declared) st = (Ok tt, st0) -> member_turn 0 st0 = (Ok (output_size, true), st1) ->
  (forall turns, fst (member_loop turns output_size st1) = Panic) -> forall fuel, fst (decode_member fuel declared 0 st) = Panic.
Proof.
  intros Hstart Hturn Hloop fuel. unfold decode_member. rewrite (bind_run _ _ _ _ _ Hstart). apply loop_panics.
  destruct fuel as [|fuel]; [done|]. cbn [member_loop]. by rewrite (bind_run _ _ _ _ _ Hturn).
Qed.
Lemma entry_panics {W} `{Sink W} `{ByteSearch} fuel input declared d (w : W) : declared <> 0 ->
  fst (decode_member fuel declared 0 (d, w, BitReader.new input)) = Panic -> (decompress_to_writer fuel input declared (d, w)).1 = Panic.
Proof.
  intros Hd Hrun. unfold decompress_to_writer, with_reader. rewrite (proj2 (Z.eqb_neq _ _) Hd).
  by destruct (decode_member fuel declared 0 (d, w, BitReader.new input)) as [o [st r]].
Qed.

Definition some_table (table : option HuffmanTable.t) : HuffmanTable.t :=
  match table with Some table => table | None => HuffmanTable.mk [] [] [] [] [] 0 0 0 end.

Lemma truncated_member_never_returns_witness :
  current_file_emitted cut_decoder = 0 /\ forall fuel, (decompress_to_writer fuel cut_stream 40 (cut_decoder, [])).1 = Panic.
Proof.
  split; [vm_compute; reflexivity|]. intros fuel. apply entry_panics; [discriminate|]. apply (member_panics 40 8 _ cut_start cut_state); [vm_compute; reflexivity | vm_compute; reflexivity|].
  intros turns. rewrite <- (triple cut_state).
  refine (f_equal fst (proj1 (@truncated_member_never_returns BitReader.t (list byte) _ _ collect scanning cut_stream 224 8 cut_state.1.1 cut_state.1.2 cut_state.2
    (some_table (nc_table cut_state.1.1)) (some_table (dc_table cut_state.1.1)) (some_table (ldc_table cut_state.1.1)) (some_table (rc_table cut_state.1.1)) _ _ _ _ _ _ turns))).
  - constructor; [vm_compute; reflexivity | vm_compute; reflexivity | lia | vm_compute; split; discriminate | vm_compute; reflexivity | apply acc_empty].
  - vm_compute; reflexivity.
  - vm_compute; reflexivity.
  - vm_compute; reflexivity.
  - vm_compute; split; reflexivity.
  - vm_compute; reflexivity.
Defined.
