(* ===== verification/LzContinue.v ===== *)
(** A decoder from one member to the next: what the next member of a solid
    archive starts from, and that any decoder can start afresh. *)
From S2P Require Import Prelude RarTypes StateM BitString LzBits LzBitReader LzStreamReader LzReaders LzHuffman LzHuffmanDecode LzTables LzWindow LzHistory LzOutput.
From S2P Require Import LzWindowProps LzFilter LzFilterProps LzDecoder LzFlush LzReference LzReading LzProgress LzSimulation LzDecoderProps.

Import LzDecoder.
Local Abbreviation written := LzOutput.written.

(** * The reference *)

(** The state a solid member starts from. *)
Definition ref_continue (extra : bool) (s : ref) : ref :=
  mk_ref (r_hist s) (r_dists s) (r_length s) (r_tables s) (if Bool.eqb extra (r_extra s) then r_lens s else HuffmanTable.zeros (total_symbols extra)) extra 0 false [].

(** Headers alone, until one announces symbols or the end, or cannot be read. *)
Fixpoint ref_empty (fuel : nat) (s : ref) (data : list byte) (pos : Z) : result ref :=
  match fuel with
  | O => Panic
  | S fuel =>
    match ref_header s data pos with
    | Ok (s', p) => if r_last s' || (0 <? r_bits s') || negb (fits data p 16) then Ok s' else ref_empty fuel s' data p
    | Err _ => Ok s
    | Panic => Panic
    end
  end.

Definition ref_empty_member (s : ref) (data : list byte) : result ref :=
  match data with [] => Ok s | _ => ref_empty (S (length data)) s data 0 end.

(** What a member of a declared size adds to the stream. *)
Definition ref_output `{ByteSearch} (dict declared : Z) (s : ref) (data : list byte) : result (ref * list byte) :=
  if declared =? 0 then s' ← ref_empty_member s (ztake EMPTY_MEMBER_TABLE_READ_LIMIT data); mret (s', [])
  else
    '(s', _) ← ref_member dict declared s data 0;
    mret (s', member_output (zlen (r_hist s)) (zlen (r_hist s) + declared) (r_hist s') (r_arrivals s')).

(** * Between members *)

(** What a decoder carries on, in whatever state its last block was left. *)
Definition rests (dict : Z) (s : ref) (d : t) : Prop := (exists p, stands_for (window d) dict (full (r_hist s) p)) /\ carries s d.

Lemma ready_rests dict s d : ready dict s d -> rests dict s d.
Proof. by intros []. Qed.

Lemma continue_ready dict dict' version extra s d : rests dict s d -> dict' <= dict -> extra_dist_for_version version = Ok extra ->
  exists d1, ensure_solid_member_compat dict' version d = Ok d1 /\ ready dict (ref_continue extra s) (prepare_solid_continuation d1).
Proof.
  intros [Hwin Hc] Hd Hv. pose proof Hwin as (p & Hp). unfold ensure_solid_member_compat.
  rewrite (sf_dict _ _ _ Hp), (proj2 (Z.ltb_ge _ _)), Hv, bind_Ok by lia. destruct Hc. rewrite c_extra.
  destruct (Bool.eqb extra (r_extra s)) eqn:E; cbn [negb]; (eexists; split; [reflexivity|]); constructor; try done.
  - apply eqb_prop in E as ->. constructor; try done; cbn; by rewrite Bool.eqb_reflx.
  - constructor; try done; cbn; rewrite E; [done|]. by destruct extra.
Qed.

Lemma continue_refused dict dict' version s d : rests dict s d -> dict < dict' -> ensure_solid_member_compat dict' version d = Err CorruptArchive.
Proof. intros [(p & Hp) _] Hd. unfold ensure_solid_member_compat. by rewrite (sf_dict _ _ _ Hp), (proj2 (Z.ltb_lt _ _)). Qed.

(** * Members without output *)

(** What a failed header leaves alone. *)
Definition carried (d : t) := (window d, dist_cache d, last_length d, (nc_table d, dc_table d, ldc_table d, rc_table d), code_lengths d, extra_dist d).

Lemma carried_rests dict s d d' : carried d' = carried d -> rests dict s d -> rests dict s d'.
Proof. unfold carried. intros [= H1 H2 H3 H4 H5 H6 H7 H8 H9] [Hwin []]. split; [by rewrite H1|]. constructor; congruence. Qed.

Section failing.
Context {R : Type} `{BitRead R}.

(** [m] carries the decoder's state on if it fails; and whatever its outcome. *)
Definition fails_still {A} (m : stateM (t * R) rar_error A) : Prop := forall d r e d' r', m (d, r) = (Err e, (d', r')) -> carried d' = carried d.
Definition still {A} (m : stateM (t * R) rar_error A) : Prop := forall d r, carried (m (d, r)).2.1 = carried d.

Lemma still_fails {A} (m : stateM (t * R) rar_error A) : still m -> fails_still m.
Proof. intros Hm d r e d' r' Hrun. specialize (Hm d r). by rewrite Hrun in Hm. Qed.
Lemma fails_bind {A B} (m : stateM (t * R) rar_error A) (k : A -> stateM (t * R) rar_error B) : still m -> (forall a, fails_still (k a)) -> fails_still (m ≫= k).
Proof.
  intros Hm Hk d r e d' r'. specialize (Hm d r). unfold mbind, stateM_bind. destruct (m (d, r)) as [[a|e'|] [d1 r1]]; [|intros [= <- <- <-]; exact Hm | done].
  intros Hrun. rewrite (Hk a _ _ _ _ _ Hrun). exact Hm.
Qed.
Lemma still_reader {A} (m : stateM R rar_error A) : still (on_snd m).
Proof. intros d r. unfold on_snd. cbn. by destruct (m r). Qed.
Lemma still_modify f : (forall d, carried (f d) = carried d) -> still (on_fst (T := R) (modify f)).
Proof. intros Hf d r. cbn. apply Hf. Qed.
Lemma never_fails {A} (m : stateM (t * R) rar_error A) : (forall d r e d' r', m (d, r) <> (Err e, (d', r'))) -> fails_still m.
Proof. intros Hm d r e d' r' Hrun. by apply Hm in Hrun. Qed.

Lemma header_fails_still align read note : fails_still (read_header_with (R := R) align read note).
Proof.
  unfold read_header_with. repeat (apply fails_bind; [apply still_reader|]; intros ?). cbv zeta. destruct (3 <? _); [by apply still_fails|].
  apply fails_bind; [by apply still_modify|]. intros _. apply fails_bind; [apply still_reader|]. intros [block_bytes xor_sum].
  destruct (negb _); [by apply still_fails|]. apply fails_bind; [by apply still_modify|]. intros _.
  apply fails_bind; [apply still_modify; intros d; by destruct (note && _)|]. intros _. apply fails_bind; [done|]. intros self.
  destruct (_ && _); [by apply still_fails|]. destruct (has _ 0x80); [|by apply still_fails].
  apply fails_bind; [done|]. intros before. apply fails_bind; [apply still_reader|]. intros [[[[nc dc] ldc] rc] lens].
  apply never_fails. intros d r e d' r'. unfold mbind, stateM_bind, on_fst, modify, gets, lift, i64. cbn -[Z.leb]. by destruct (_ && _).
Qed.
End failing.

Section empty_members.
Context {R : Type} `{BitReadLaws R} (dict : Z) (data : list byte) (Hdata : bit_len data < 2 ^ 61).

Definition at_rest (s : ref) (d : t) (_ : list byte) : Prop := ready dict s d.

(** One header, over the reader alone. *)
Lemma header_ready s d (r : R) pos : ready dict s d -> tracks r data pos ->
  match ref_header s data pos with
  | Ok (s', p) => exists d' r', read_block_header (d, r) = (Ok tt, (d', r')) /\ tracks r' data p /\ ready dict s' d' /\ r_hist s' = r_hist s
  | Err e => exists st, read_block_header (d, r) = (Err e, st)
  | Panic => True
  end.
Proof using Hdata.
  intros Hready Hr.
  assert (Hsteps : agrees (W := list byte) data (header_post at_rest s) (on_reading read_block_header) (ref_header s) d [] pos).
  { apply header_steps; [done | by intros ? ? ? [] | by intros ? ? ? [] | | | done].
    - intros s1 d1 w bits last [Hwin [] Hb Hl Hrange] Hbits. by constructor.
    - intros s1 d1 w wide nc dc ldc rc lens [Hwin [] Hb Hl Hrange] Hsound Hlens. constructor; try done.
      constructor; try done; [by exists wide | cbn; by rewrite Hlens]. }
  specialize (Hsteps r Hr). destruct (ref_header s data pos) as [[s' p]|e|]; [| |done].
  - destruct Hsteps as ([] & d' & w' & r' & Hrun & Hr' & Hready' & Hhist). exists d', r'. split; [|done].
    unfold on_reading in Hrun. cbn [fst snd] in Hrun. destruct (read_block_header (d, r)) as [o [d2 r2]]. by injection Hrun as -> -> _ ->.
  - destruct Hsteps as (st & Hrun). unfold on_reading in Hrun. cbn [fst snd] in Hrun.
    destruct (read_block_header (d, r)) as [o [d2 r2]]. injection Hrun as -> _. by eexists.
Qed.

Lemma empty_loop_ok fuel : forall s d (r : R) pos s', ready dict s d -> tracks r data pos -> ref_empty fuel s data pos = Ok s' ->
  exists d' r', read_empty_loop fuel (d, r) = (Ok tt, (d', r')) /\ rests dict s' d' /\ r_hist s' = r_hist s.
Proof using Hdata.
  induction fuel as [|fuel IH]; intros s d r pos s' Hready Hr; cbn [ref_empty read_empty_loop]; [done|].
  pose proof (header_ready s d r pos Hready Hr) as Hheader. destruct (ref_header s data pos) as [[s1 p]|e|]; [| |done].
  - destruct Hheader as (d1 & r1 & -> & Hr1 & Hready1 & Hhist). cbn [fst].
    rewrite (rd_bits _ _ _ Hready1), (rd_last _ _ _ Hready1). destruct (r_last s1 || (0 <? r_bits s1)); cbn [orb].
    + intros [= <-]. exists d1, r1. split; [reflexivity|]. split; [by apply ready_rests | exact Hhist].
    + pose proof (remaining_least_law 16 ltac:(lia) r1 data p Hr1) as Hlaw. unfold spec_exact, mbind, stateM_bind in *.
      unfold on_snd. cbn [fst snd] in *. destruct (bits_remaining r1) as [[n|e|] r2]; destruct Hlaw as (r3 & Hrun & Hr3); [|done..].
      injection Hrun as Hn ->. rewrite <- Hn. destruct (Z.leb_spec 16 n), (Z.ltb_spec n 16); try lia; cbn [negb].
      * intros Hrest. destruct (IH s1 d1 r3 p s' Hready1 Hr3 Hrest) as (d2 & r4 & Hrun2 & Hd2 & Hh). exists d2, r4. split; [exact Hrun2|]. split; [exact Hd2|]. congruence.
      * intros [= <-]. exists d1, r3. split; [reflexivity|]. split; [by apply ready_rests | exact Hhist].
  - destruct Hheader as ([d1 r1] & Hrun). rewrite Hrun. intros [= <-]. exists d1, r1. split; [reflexivity|]. split; [|reflexivity].
    refine (carried_rests dict s d d1 _ (ready_rests _ _ _ Hready)).
    exact (header_fails_still align_byte read_tables false d r e d1 r1 Hrun).
Qed.
End empty_members.

(** A header takes a byte at least, so the loop has turns enough. *)
Lemma empty_defined data fuel : forall s pos, sound false s -> pos <= bit_len data -> bit_len data - pos < 8 * Z.of_nat fuel -> ref_empty fuel s data pos <> Panic.
Proof.
  induction fuel as [|fuel IH]; intros s pos Hs Hpos Hfuel; cbn [ref_empty]; [lia|].
  destruct (ref_header s data pos) as [[s1 p]|e|] eqn:E; [|done | by apply (quiet_header false) in E].
  destruct (_ || _); [done|]. destruct (forward_header _ _ _ _ _ E) as [Hmove Hin]. specialize (Hin Hpos).
  apply IH; [by eapply header_sound | done | lia].
Qed.

Lemma carries_sound s d : carries s d -> sound false s.
Proof.
  intros []. split; [|done]. destruct (r_tables s) as [tb|]; [|done]. destruct c_sound as [wide Hw]. by exists wide.
Qed.

Lemma empty_member_returns dict s d data : rests dict s d -> exists s', ref_empty_member s data = Ok s'.
Proof.
  intros [_ Hc]. unfold ref_empty_member. destruct data as [|b data]; [by exists s|]. set (input := b :: data).
  assert (Hsome : ref_empty (S (length input)) s input 0 <> Panic).
  { apply empty_defined; [by eapply carries_sound | |]; unfold bit_len, zlen; lia. }
  assert (Hok : forall fuel s pos e, ref_empty fuel s input pos <> Err e).
  { induction fuel as [|fuel IH]; intros s0 pos e; cbn [ref_empty]; [done|]. destruct (ref_header s0 input pos) as [[s1 p]|e1|]; [|done..].
    destruct (_ || _); [done | apply IH]. }
  destruct (ref_empty _ s input 0) as [s'|e|] eqn:E; [by exists s' | by apply Hok in E | done].
Qed.

Lemma empty_member_ok dict s d data s' : ready dict s d -> bit_len data < 2 ^ 61 -> ref_empty_member s data = Ok s' ->
  exists d', read_tables_of_empty_member data d = Ok d' /\ rests dict s' d' /\ r_hist s' = r_hist s.
Proof.
  intros Hready Hdata. unfold ref_empty_member, read_tables_of_empty_member. destruct data as [|b data].
  - intros [= <-]. exists d. split; [reflexivity|]. split; [by apply ready_rests | reflexivity].
  - set (input := b :: data) in *. intros Hrun.
    assert (Hr : tracks (BitReader.new input) input 0) by (apply new_ok; lia).
    destruct (empty_loop_ok dict input Hdata _ s d (BitReader.new input) 0 s' Hready Hr Hrun) as (d' & r' & -> & Hd' & Hh).
    exists d'. split; [reflexivity|]. split; [exact Hd' | exact Hh].
Qed.

(** [take(limit).read_to_end]: the input's first bytes, however they arrive. *)
Lemma take_all {Rd} `{SourceLaws Rd} fuel : forall limit (input : Rd) head, 0 <= limit -> limit < Z.of_nat fuel ->
  take_to_end fuel limit input head = Ok (head ++ ztake limit (src_rest input)).
Proof.
  induction fuel as [|fuel IH]; intros limit input head Hl Hfuel; [lia|]. cbn [take_to_end]. destruct (Z.ltb_spec 0 limit).
  2: { replace limit with 0 by lia. by rewrite ztake_nat, app_nil_r by lia. }
  destruct (src_read_law input limit ltac:(lia)) as (bytes & rest & -> & Hrest & Hlen & Hend). rewrite bind_Ok, Hrest.
  destruct bytes as [|b bytes]; [rewrite <- Hrest, (Hend eq_refl), ztake_nat by lia; by rewrite take_nil, app_nil_r|].
  pose proof (zlen_cons b bytes). pose proof (zlen_nonneg bytes). rewrite IH by lia.
  rewrite (ztake_app_ge limit) by done. by rewrite app_assoc.
Qed.

(** A member over a source, whatever its size. *)
Lemma output_refines {Rd W} `{SourceLaws Rd} `{SinkLaws W} `{ByteSearchLaws} dict declared fuel s d (w : W) (source : Rd) :
  ready dict s d -> sizes_ok dict declared s (src_rest source) -> bit_len (src_rest source) + 2 <= Z.of_nat fuel ->
  match ref_output dict declared s (src_rest source) with
  | Ok (s', out) => exists d' w', decompress_reader_to_writer fuel source declared (d, w) = (Ok (zlen out), (d', w')) /\
      written w' = written w ++ out /\ rests dict s' d' /\ zlen (r_hist s') <= zlen (r_hist s) + declared + MAX_INCREMENTAL_LZ_MATCH
  | Err e => exists st, decompress_reader_to_writer fuel source declared (d, w) = (Err e, st)
  | Panic => True
  end.
Proof.
  intros Hready Hok Hfuel. unfold ref_output. destruct (Z.eqb_spec declared 0) as [->|Hsome].
  - set (head := ztake EMPTY_MEMBER_TABLE_READ_LIMIT (src_rest source)).
    assert (Hhead : bit_len head < 2 ^ 61).
    { destruct Hok as (_ & _ & _ & Hbits). unfold bit_len, head in *. rewrite ztake_nat by (unfold EMPTY_MEMBER_TABLE_READ_LIMIT; lia). unfold zlen in *. rewrite length_take. lia. }
    destruct (empty_member_returns dict s d head (ready_rests _ _ _ Hready)) as (s' & Hs'). rewrite Hs', bind_Ok.
    destruct (empty_member_ok dict s d head s' Hready Hhead Hs') as (d' & Hrun & Hd' & Hh). exists d', w.
    split; [|split; [by rewrite app_nil_r | split; [exact Hd'|]]].
    + unfold decompress_reader_to_writer. rewrite Z.eqb_refl. unfold get_self, modify_self, read_tables_of_empty_member_from.
      rewrite bind_gets, take_all by (unfold EMPTY_MEMBER_TABLE_READ_LIMIT; lia). cbn [fst]. rewrite bind_Ok. fold head. cbn [app]. by rewrite Hrun.
    + rewrite Hh. unfold MAX_INCREMENTAL_LZ_MATCH. lia.
  - pose proof (stream_refines dict declared fuel s d w source Hready Hsome Hok Hfuel) as Hrun. unfold member_of in Hrun.
    destruct (ref_member dict declared s (src_rest source) 0) as [[s' p]|e|]; [|exact Hrun | exact I].
    destruct Hrun as ([d' w'] & Hrun & Hw & Hd' & Hlen). exists d', w'. split; [exact Hrun|]. split; [exact Hw|]. split; [by apply ready_rests | exact Hlen].
Qed.

(** * How decoding fails *)

Lemma output_errs `{ByteSearch} dict declared s d data e : ready dict s d -> ref_output dict declared s data = Err e -> corrupt e.
Proof.
  intros Hready. unfold ref_output. destruct (declared =? 0).
  - destruct (empty_member_returns dict s d (ztake EMPTY_MEMBER_TABLE_READ_LIMIT data) (ready_rests _ _ _ Hready)) as (s' & ->). done.
  - destruct (ref_member dict declared s data 0) as [[s' p]|e'|] eqn:E; [done | | done]. intros [= <-]. revert E. apply errs_blocks.
    destruct (carries_sound s d (rd_carries _ _ _ Hready)) as (H1 & H2 & H3). done.
Qed.

(** * A decoder can be used again whatever became of the last member: every operation, failing or not, leaves its array of code lengths as long as its distance alphabet asks, which is all that a new member needs. *)

Import LzDecoder.

(** ** What an action keeps, whatever its outcome *)

Definition keeps {S A} (P : S -> Prop) (m : stateM S rar_error A) : Prop := forall st, P st -> P (m st).2.

Section keeping.
Context {S : Type} (P : S -> Prop).

Lemma keeps_bind {A B} (m : stateM S rar_error A) (k : A -> stateM S rar_error B) : keeps P m -> (forall a, keeps P (k a)) -> keeps P (m ≫= k).
Proof. intros Hm Hk st Hst. specialize (Hm st Hst). unfold mbind, stateM_bind. destruct (m st) as [[a|e|] st1]; [by apply Hk | done | done]. Qed.
Lemma keeps_ret {A} (a : A) : keeps P (mret a).
Proof. intros st Hst. exact Hst. Qed.
Lemma keeps_lift {A} (m : result A) : keeps P (lift m).
Proof. intros st Hst. exact Hst. Qed.
Lemma keeps_gets {A} (f : S -> A) : keeps P (gets f).
Proof. intros st Hst. exact Hst. Qed.
Lemma keeps_fails {A} e : keeps (A := A) P (fails e).
Proof. intros st Hst. exact Hst. Qed.
Lemma keeps_modify f : (forall st, P st -> P (f st)) -> keeps P (modify f).
Proof. intros Hf st. apply Hf. Qed.
Lemma keeps_fst {T A} (m : stateM S rar_error A) : keeps P m -> keeps (fun st : S * T => P st.1) (on_fst m).
Proof. intros Hm [s t]. unfold on_fst. cbn. intros Hs. specialize (Hm s Hs). by destruct (m s). Qed.
Lemma keeps_snd {T A} (m : stateM T rar_error A) : keeps (fun st : S * T => P st.1) (on_snd m).
Proof. intros [s t]. unfold on_snd. cbn. by destruct (m t). Qed.
End keeping.

Create HintDb keeps.
#[export] Hint Resolve keeps_ret keeps_lift keeps_gets keeps_fails keeps_snd : keeps.

Definition shaped (d : t) : Prop := zlen (code_lengths d) = total_symbols (extra_dist d).

(** One sequence of steps after the other, into every branch. *)
Ltac keep := repeat first
  [ solve [auto with keeps nocore] | simple apply keeps_bind; [|intros ?] | simple apply keeps_fst | progress cbv zeta | case_match ].

Section flushing.
Context {W : Type} `{Sink W} `{ByteSearch}.
Local Abbreviation kept := (keeps (fun st : t * W => shaped st.1)).

Lemma kept_modify f : (forall d, shaped d -> shaped (f d)) -> kept (modify_self f).
Proof. intros Hf. apply keeps_fst, keeps_modify, Hf. Qed.
Lemma kept_get : kept get_self.
Proof. apply keeps_gets. Qed.
Hint Resolve kept_get : keeps.
Lemma kept_step m : kept (window_step m).
Proof. unfold window_step. keep; by apply kept_modify. Qed.
Lemma kept_writes {A} (m : Window.t -> stateM W rar_error (A * Window.t)) : kept (window_writes m).
Proof. unfold window_writes. keep; by apply kept_modify. Qed.
Hint Resolve kept_step kept_writes : keeps.

Lemma kept_raw advance_to : kept (write_raw_span advance_to).
Proof. unfold write_raw_span. keep; by apply kept_modify. Qed.
Hint Resolve kept_raw : keeps.
Lemma kept_unfiltered : kept flush_unfiltered_stream_output.
Proof. unfold flush_unfiltered_stream_output. keep; by apply kept_modify. Qed.
Lemma kept_block filter : kept (write_block filter).
Proof. unfold write_block. keep; by apply kept_modify. Qed.
Hint Resolve kept_unfiltered kept_block : keeps.
Lemma kept_retire filters : forall total written_up_to retired, kept (retire_filters filters total written_up_to retired).
Proof. induction filters as [|filter filters IH]; intros total up retired; cbn [retire_filters]; keep. Qed.
Hint Resolve kept_retire : keeps.
Lemma kept_flush : kept flush_filters_and_write.
Proof. unfold flush_filters_and_write. keep; by apply kept_modify. Qed.
Hint Resolve kept_flush : keeps.
Lemma kept_stream : kept flush_stream_output.
Proof. unfold flush_stream_output. keep. Qed.
Lemma kept_register filter : kept (register_pending_filter filter).
Proof. unfold register_pending_filter. keep; apply kept_modify; intros d Hd; by repeat case_match. Qed.
End flushing.

(** ** Headers *)

(** Reading code lengths does not change how many there are. *)
Lemma put_length l i v l' : put (E := rar_error) l i v = Ok l' -> zlen l' = zlen l.
Proof. unfold put, set_at. case_match; [|done]. intros [= <-]. unfold zlen. by rewrite length_insert. Qed.
Lemma run_length count limit value : forall i arr i' arr', fill_run count limit value i arr = Ok (i', arr') -> zlen arr' = zlen arr.
Proof.
  induction count as [|count IH]; intros i arr i' arr'; cbn [fill_run]; [by intros [= _ <-]|]. destruct (limit <=? i); [by intros [= _ <-]|].
  intros (arr1 & Hput & Hrun)%bind_Ok_inv. apply IH in Hrun. rewrite Hrun. by eapply put_length.
Qed.

Section headers.
Context {R : Type}.

Definition returns {S A} (Q : A -> Prop) (m : stateM S rar_error A) : Prop := forall st a st', m st = (Ok a, st') -> Q a.
Lemma returns_bind {S A B} (Q : B -> Prop) (m : stateM S rar_error A) (k : A -> stateM S rar_error B) P : returns P m -> (forall a, P a -> returns Q (k a)) -> returns Q (m ≫= k).
Proof. intros Hm Hk st b st'. unfold mbind, stateM_bind. specialize (Hm st). destruct (m st) as [[a|e|] st1]; [|done..]. apply Hk. by eapply Hm. Qed.
Lemma returns_any {S A} (m : stateM S rar_error A) : returns (fun _ => True) m.
Proof. done. Qed.

Lemma lengths_kept (field : Z -> stateM R rar_error Z) (more : stateM R rar_error bool) decode table total fuel : forall i all,
  returns (fun all' => zlen all' = zlen all) (read_lengths (fun _ => lift) field more decode fuel table total i all).
Proof.
  induction fuel as [|fuel IH]; intros i all; cbn [read_lengths]; [by intros st a st' [=]|]. destruct (i <? total); [|by intros st a st' [= <- _]].
  assert (Hrun : forall count value, returns (fun all' => zlen all' = zlen all)
    ('(i, all_lengths) ← lift (fill_run count total value i all); read_lengths (fun _ => lift) field more decode fuel table total i all_lengths)).
  { intros count value. apply (returns_bind _ _ _ (fun r => zlen r.2 = zlen all)).
    - intros st [i' all'] st' [= Heq _]. cbn. by eapply run_length.
    - intros [i' all'] Hl. cbn in Hl. rewrite <- Hl. apply IH. }
  apply (returns_bind _ _ _ _ (returns_any _)). intros left _. destruct (negb left); [by intros st a st' [=]|].
  apply (returns_bind _ _ _ _ (returns_any _)). intros sym _. destruct (sym <? 16); [|destruct (sym <? 18)].
  - apply (returns_bind _ _ _ (fun all' => zlen all' = zlen all)); [intros st all' st' [= Hput _]; by eapply put_length|]. intros all' <-. apply IH.
  - apply (returns_bind _ _ _ _ (returns_any _)). intros count _. destruct (i =? 0); [by intros st a st' [=]|].
    apply (returns_bind _ _ _ _ (returns_any _)). intros value _. apply Hrun.
  - apply (returns_bind _ _ _ _ (returns_any _)). intros count _. apply Hrun.
Qed.

Lemma tables_kept `{BitRead R} prev extra : returns (fun r => zlen r.2 = zlen prev) (read_tables prev extra).
Proof.
  unfold read_tables, read_with. do 2 (apply (returns_bind _ _ _ _ (returns_any _)); intros ? _). cbv zeta.
  apply (returns_bind _ _ _ (fun all => zlen all = zlen prev)); [apply lengths_kept|]. intros all Hall.
  apply (returns_bind _ _ _ _ (returns_any _)). intros built _. by intros st r st' [= <- _].
Qed.
End headers.

Section reading.
Context {R : Type} `{BitRead R}.
Local Abbreviation kept := (keeps (fun st : t * R => shaped st.1)).

Lemma kept_self f : (forall d, shaped d -> shaped (f d)) -> kept (on_fst (modify f)).
Proof. intros Hf [d r] Hd. by apply Hf. Qed.

Lemma kept_header : kept read_block_header.
Proof.
  unfold read_block_header, read_header_with. do 3 (apply keeps_bind; [apply keeps_snd|]; intros ?). cbv zeta. destruct (3 <? _); [apply keeps_fails|].
  apply keeps_bind; [by apply kept_self|]. intros _. apply keeps_bind; [apply keeps_snd|]. intros [block_bytes xor_sum].
  destruct (negb _); [apply keeps_fails|]. apply keeps_bind; [by apply kept_self|]. intros _. apply keeps_bind; [by apply kept_self|]. intros _.
  destruct (has _ 0x80); cbn [negb andb].
  2: { apply keeps_bind; [apply keeps_gets|]. intros self. destruct (bool_decide _); [apply keeps_fails | apply keeps_ret]. }
  intros [d rd] Hd. rewrite !bind_gets. cbn [fst snd]. unfold mbind at 1, stateM_bind at 1, on_snd at 1. cbn [fst snd].
  pose proof (tables_kept (code_lengths d) (extra_dist d) rd) as Hlen. destruct (read_tables _ _ rd) as [[[[[[nc dc] ldc] rc] lens]|e|] rd']; [|done..].
  specialize (Hlen _ _ eq_refl). cbn in Hlen. assert (Hd' : shaped (set_code_lengths lens d)) by (unfold shaped in *; cbn; by rewrite Hlen).
  unfold mbind, stateM_bind, gets, on_fst, modify, lift, i64. cbn -[Z.leb]. by destruct (_ && _).
Qed.

Lemma kept_empty_loop fuel : kept (read_empty_loop fuel).
Proof.
  induction fuel as [|fuel IH]; [apply keeps_lift|]. intros [d r] Hd. cbn [read_empty_loop]. pose proof (kept_header (d, r) Hd) as Hh.
  destruct (read_block_header (d, r)) as [[[]|e|] [d1 r1]]; [|done..]. cbn in Hh. cbn [fst]. destruct (_ || _); [done|].
  unfold mbind, stateM_bind, on_snd. cbn [fst snd]. destruct (bits_remaining r1) as [[n|e|] r2]; [|done..]. destruct (n <? 16); [done | by apply IH].
Qed.
End reading.

(** ** Members *)

Section decoding.
Context {R W : Type} `{BitRead R} `{Sink W} `{ByteSearch}.
Local Abbreviation kept := (keeps (fun st : t * W * R => shaped st.1.1)).

Lemma kept_output {A} (m : stateM (t * W) rar_error A) : keeps (fun st : t * W => shaped st.1) m -> kept (on_fst m).
Proof. intros Hm [[d w] r] Hd. unfold on_fst. cbn [fst snd]. specialize (Hm (d, w) Hd). by destruct (m (d, w)) as [o [d' w']]. Qed.
Lemma kept_input {A} (m : stateM R rar_error A) : kept (on_snd m).
Proof. intros [[d w] r] Hd. unfold on_snd. cbn [fst snd]. by destruct (m r). Qed.
Lemma kept_reading {A} (m : stateM (t * R) rar_error A) : keeps (fun st : t * R => shaped st.1) m -> kept (on_reading m).
Proof. intros Hm [[d w] r] Hd. unfold on_reading. cbn [fst snd]. specialize (Hm (d, r) Hd). by destruct (m (d, r)) as [o [d' r']]. Qed.
Lemma kept_self_step m : (forall d d', m d = Ok d' -> shaped d -> shaped d') -> kept (self_step m).
Proof.
  intros Hm [[d w] r] Hd. unfold self_step. rewrite bind_gets. cbn [fst]. unfold lift, mbind, stateM_bind.
  destruct (m d) as [d'|e|] eqn:E; [|done..]. cbn. by eapply Hm.
Qed.

Lemma shaped_insert distance d d' : insert_old_dist distance d = Ok d' -> shaped d -> shaped d'.
Proof. unfold insert_old_dist. intros Hrun. repeat (apply bind_Ok_inv in Hrun as (? & _ & Hrun)). by injection Hrun as <-. Qed.
Lemma shaped_promote i d r d' : promote_old_dist i d = Ok (r, d') -> shaped d -> shaped d'.
Proof.
  unfold promote_old_dist. intros (distance & _ & Hrun)%bind_Ok_inv. destruct (0 <? i); [|by injection Hrun as _ <-].
  repeat (apply bind_Ok_inv in Hrun as (? & _ & Hrun)). by injection Hrun as _ <-.
Qed.
Lemma shaped_window (f : result Window.t) d d' : (win ← f; mret (set_window win d)) = Ok d' -> shaped d -> shaped d'.
Proof. intros (win & _ & [= <-])%bind_Ok_inv. done. Qed.

Lemma kept_match distance length : kept (copy_match distance length).
Proof. apply kept_self_step. intros d d' Hrun. by apply (shaped_window _ _ _ Hrun). Qed.
Hint Resolve kept_input kept_match : keeps.

Lemma kept_item nc dc ldc rc limit output_size : kept (decode_item nc dc ldc rc limit output_size).
Proof.
  unfold decode_item. apply keeps_bind; [apply keeps_gets|]. intros self.
  apply keeps_bind; [destruct (_ <=? _); [apply kept_output, kept_stream | apply keeps_ret]|]. intros _. apply keeps_bind; [apply kept_input|]. intros sym.
  destruct (sym <? 256); [apply keeps_bind; [apply kept_self_step; intros d d'; apply shaped_window | intros _; keep]|].
  destruct (262 <=? sym); [|destruct (sym =? 256); [|destruct (sym =? 257)]].
  - cbv zeta. apply keeps_bind; [apply kept_input|]. intros length. apply keeps_bind; [apply keeps_gets|]. intros self1.
    apply keeps_bind; [apply kept_input|]. intros distance. apply keeps_bind; [apply kept_self_step, shaped_insert|]. intros _. keep.
  - apply keeps_bind; [|intros _; keep]. unfold handle_filter. apply keeps_bind; [apply keeps_gets|]. intros self1.
    apply keeps_bind; [apply kept_input|]. intros filter. apply kept_output, kept_register.
  - apply keeps_bind; [apply keeps_gets|]. intros self1. destruct (negb _); [|apply keeps_ret]. apply keeps_bind; [apply keeps_lift|]. intros distance. cbv zeta.
    apply keeps_bind; [apply kept_self_step; intros d d'; apply shaped_window | intros _; keep].
  - cbv zeta. intros [[d w] r] Hd. rewrite bind_gets. cbn [fst] in *. unfold lift at 1, mbind at 1, stateM_bind at 1.
    destruct (promote_old_dist (sym - 258) d) as [[distance d1]|e|] eqn:E; [|done..].
    assert (Hd1 : shaped d1) by (by eapply shaped_promote).
    assert (Hrest : kept (length ← on_snd (decode_rc_length rc); _ ← copy_match distance length; output_size ← lift (add_u64 output_size length); mret (output_size, limit))) by keep.
    exact (Hrest (d1, w, r) Hd1).
Qed.

Lemma kept_items fuel nc dc ldc rc stop : forall limit output_size, kept (decode_items fuel nc dc ldc rc stop limit output_size).
Proof.
  induction fuel as [|fuel IH]; intros limit output_size; cbn [decode_items]; [apply keeps_lift|]. apply keeps_bind; [apply keeps_gets|]. intros pos.
  destruct (_ && _); [|apply keeps_ret]. apply keeps_bind; [apply kept_input|]. intros left. destruct (negb left); [apply keeps_ret|].
  apply keeps_bind; [apply kept_item|]. intros [size limit']. apply IH.
Qed.

Lemma kept_decode limit output_size : kept (decode_block limit output_size).
Proof.
  assert (Htable : forall table, kept (table_or_error table)) by (intros [table|]; [apply keeps_ret | apply keeps_fails]).
  unfold decode_block. do 2 (apply keeps_bind; [apply keeps_gets|]; intros ?). apply keeps_bind; [apply keeps_lift|]. intros stop.
  do 4 (apply keeps_bind; [apply Htable|]; intros ?). apply keeps_bind; [apply kept_items|]. intros size.
  apply keeps_bind; [apply keeps_gets|]. intros pos. apply keeps_bind; [apply keeps_lift|]. intros left.
  apply keeps_bind; [|intros; apply keeps_ret]. apply kept_output. by intros [d w].
Qed.

Lemma kept_loop fuel : forall output_size, kept (member_loop fuel output_size).
Proof.
  induction fuel as [|fuel IH]; intros output_size; cbn [member_loop]; [apply keeps_lift|]. apply keeps_bind.
  - unfold member_turn. apply keeps_bind; [apply keeps_gets|]. intros self. destruct (_ <? _); [|apply keeps_ret].
    apply keeps_bind; [|intros [|]; [apply keeps_ret | apply keeps_bind; [apply keeps_gets | intros; apply keeps_bind; [apply kept_decode | intros; apply keeps_ret]]]].
    destruct (_ <=? 0); [|apply keeps_ret]. destruct (is_last_block self); [apply keeps_ret|]. apply keeps_bind; [apply kept_input|]. intros n.
    destruct (n <? 16); [apply keeps_ret|]. apply keeps_bind; [apply kept_reading, kept_header | intros; apply keeps_ret].
  - intros [size [|]]; [apply IH | apply keeps_ret].
Qed.

Lemma kept_member fuel unpacked_size output_size : kept (decode_member fuel unpacked_size output_size).
Proof.
  unfold decode_member. apply keeps_bind.
  - apply kept_self_step. intros d d'. unfold begin_file_decode. intros (win & _ & [= <-])%bind_Ok_inv. done.
  - intros _. apply keeps_bind; [apply kept_loop|]. intros _. apply keeps_bind; [apply kept_output, kept_flush | intros; apply keeps_gets].
Qed.
End decoding.

(** Whatever a member's data, and however its decoding ends. *)
Lemma decoding_keeps_shape {Rd W} `{Source Rd} `{Sink W} `{ByteSearch} fuel (input : Rd) unpacked_size d (w : W) :
  shaped d -> shaped (decompress_reader_to_writer fuel input unpacked_size (d, w)).2.1.
Proof.
  intros Hd. unfold decompress_reader_to_writer. destruct (unpacked_size =? 0).
  - unfold get_self. rewrite bind_gets. cbn [fst]. unfold lift, mbind, stateM_bind.
    destruct (read_tables_of_empty_member_from input d) as [d'|e|] eqn:E; [|done..]. cbn.
    revert E. unfold read_tables_of_empty_member_from. intros (head & _ & Hrun)%bind_Ok_inv. unfold read_tables_of_empty_member in Hrun.
    destruct head as [|b head]; [by injection Hrun as <-|]. pose proof (kept_empty_loop (S (length (b :: head))) (d, BitReader.new (b :: head)) Hd) as Hloop.
    destruct (read_empty_loop _ _) as [[[]|e|] [d1 r1]]; try discriminate. injection Hrun as <-. exact Hloop.
  - unfold decompress_reader_to_writer_single_thread, with_reader. pose proof (kept_member fuel unpacked_size 0 (d, w, StreamReader.new input) Hd) as Hm.
    by destruct (decode_member _ _ _ _) as [o [[d' w'] r']].
Qed.
