(* ===== verification/Extract.v ===== *)
(** Extraction from a RAR5 archive whose volumes are attached
    (archive/member.rs, entry.rs, mod.rs): the decoder the members of an archive
    share, the cursor of a solid archive, stored members, checksums, and the
    calls [copy_to], [skip] and [reset_solid_state] of a caller. *)
From Stdlib Require Import Strings.String.
From S2P Require Import Prelude RarTypes Text StateM HeaderFile LzWindow LzFilter LzStreamReader LzDecoder.

(** ** Limits of a member *)

(** The limits extraction reads. *)
Record Limits := mk_limits { max_data_segment : Z; max_unpacked_size : Z; max_dict_size : Z }.

Inductive StoreCopyLimit := Exact (bytes : Z) | AtMost (bytes : Z).
Definition limit_bytes (limit : StoreCopyLimit) : Z := match limit with Exact bytes | AtMost bytes => bytes end.
Definition is_exact (limit : StoreCopyLimit) : bool := match limit with Exact _ => true | AtMost _ => false end.
Definition is_ceiling (limit : StoreCopyLimit) : bool := match limit with AtMost _ => true | Exact _ => false end.
Definition next_read_len (limit : StoreCopyLimit) (written buffer_len : Z) : Z :=
  Z.min buffer_len (Z.min (sat_sub_u64 (limit_bytes limit) written) USIZE_MAX).
Definition STORE_HASHED_CHUNK_BYTES : Z := 0x100000.

Definition MIN_RAR4_UNPACK_WINDOW : Z := 0x40000.
Definition effective_rar4_window_size (dict_size : Z) : Z := Z.max dict_size MIN_RAR4_UNPACK_WINDOW.

Definition stored (fh : FileHeader.t) : bool := bool_decide (CompressionInfo.method (FileHeader.compression fh) = CompressionMethod.Store).

Definition effective_member_dict_size (fh : FileHeader.t) : Z :=
  if stored fh then 0
  else if is_rar4_family (CompressionInfo.format (FileHeader.compression fh)) then effective_rar4_window_size (CompressionInfo.dict_size (FileHeader.compression fh))
  else effective_lz_window_size (CompressionInfo.dict_size (FileHeader.compression fh)).

Definition resource_limit_error (member_name : ustring) (written limit : Z) : rar_error :=
  ResourceLimit LimitKind.UnpackedSize written limit (Some member_name).

Section limits.
Context (limits : Limits).

Definition enforce_archive_member_limits (fh : FileHeader.t) : result unit :=
  if max_data_segment limits <? FileHeader.data_size fh
  then Err (ResourceLimit LimitKind.DataSegment (FileHeader.data_size fh) (max_data_segment limits) (Some (FileHeader.name fh)))
  else
    match FileHeader.unpacked_size fh with
    | Some size => if max_unpacked_size limits <? size then Err (ResourceLimit LimitKind.UnpackedSize size (max_unpacked_size limits) (Some (FileHeader.name fh))) else Ok tt
    | None => Ok tt
    end ≫= fun _ =>
    let dict_size := effective_member_dict_size fh in
    if max_dict_size limits <? dict_size then Err (DictionaryTooLarge dict_size (max_dict_size limits)) else Ok tt.

Definition target_unpacked_size (fh : FileHeader.t) : Z := default (max_unpacked_size limits) (FileHeader.unpacked_size fh).

Definition store_copy_limit (fh : FileHeader.t) : StoreCopyLimit :=
  match FileHeader.unpacked_size fh with Some size => Exact size | None => AtMost (max_unpacked_size limits) end.

Definition enforce_unknown_lz_output_limit (fh : FileHeader.t) (written : Z) : result unit :=
  let limit := max_unpacked_size limits in
  if bool_decide (FileHeader.unpacked_size fh = None) && (limit <=? written)
  then Err (resource_limit_error (FileHeader.name fh) (Z.max written (sat_add_u64 limit 1)) limit)
  else Ok tt.
End limits.

(** ** Checksums *)

(** The hashers of the crates called, as functions of the bytes they are fed. *)
Class Hashers := { crc32_of : list byte -> Z; blake2sp_of : list byte -> list byte }.

(** Of a member that is not encrypted: no MAC is involved. *)
Definition verify_member_crc32 (member_name : ustring) (expected actual : option Z) : result unit :=
  match expected, actual with
  | Some expected, Some actual => if actual =? expected then Ok tt else Err (DataCrcMismatch member_name expected actual)
  | _, _ => Ok tt
  end.

Definition verify_member_blake2 (member_name : ustring) (expected actual : option (list byte)) : result unit :=
  match expected, actual with
  | Some expected, Some actual => if bool_decide (actual = expected) then Ok tt else Err (Blake2Mismatch member_name)
  | _, _ => Ok tt
  end.

(** A writer that hashes what it passes on. *)
Record HashingWriter (W : Type) := mk_hashing { inner : W; hashed : list byte }.
Arguments mk_hashing {W}. Arguments inner {W}. Arguments hashed {W}.
#[export] Instance HashingWriter_Sink {W} `{Sink W} : Sink (HashingWriter W) := fun buf self =>
  let '(o, w) := write_all buf (inner self) in (o, mk_hashing w (match o with Ok _ => hashed self ++ buf | _ => hashed self end)).

(** ** The archive *)

(** What extraction reads of a member: its header, its BLAKE2sp hash, the kind
    of link it is if it is one; here no member is encrypted. *)
Record MemberEntry := mk_entry { file_header : FileHeader.t; entry_hash : option FileHash; redirection : option ustring }.

Record RarArchive := mk_archive {
  is_solid : bool;
  members : list MemberEntry;
  solid_decoder : option LzDecoder.t;
  solid_next_index : nat;
  solid_poison : option nat;
  limits : Limits;
  verify : bool (* of the extraction options in force *) }.

Definition set_solid_decoder (d : option LzDecoder.t) (a : RarArchive) : RarArchive :=
  mk_archive (is_solid a) (members a) d (solid_next_index a) (solid_poison a) (limits a) (verify a).
Definition set_solid_next_index (n : nat) (a : RarArchive) : RarArchive :=
  mk_archive (is_solid a) (members a) (solid_decoder a) n (solid_poison a) (limits a) (verify a).
Definition set_solid_poison (p : option nat) (a : RarArchive) : RarArchive :=
  mk_archive (is_solid a) (members a) (solid_decoder a) (solid_next_index a) p (limits a) (verify a).

Definition reset_solid_state (a : RarArchive) : RarArchive := set_solid_poison None (set_solid_next_index 0 (set_solid_decoder None a)).

Definition member_is_solid (a : RarArchive) (fh : FileHeader.t) : bool := is_solid a || CompressionInfo.solid (FileHeader.compression fh).
Definition member_is_solid_at (a : RarArchive) (index : nat) : bool :=
  match members a !! index with Some entry => member_is_solid a (file_header entry) | None => false end.

Definition order_violation (required : nat) (requested : FileHeader.t) : rar_error :=
  SolidOrderViolation (text "member index " ++ decimal required) (FileHeader.name requested).

Definition reject_link_member_without_file_target (entry : MemberEntry) : result unit :=
  match redirection entry with
  | Some link_type => Err (UnsupportedLinkType (FileHeader.name (file_header entry)) (link_type ++ text " requires extract_member_to_file"))
  | None => Ok tt
  end.

(** ** Stored members *)

Section storing.
Context {Rd S : Type} `{Source Rd}.

(** A ceiling is exceeded if there is another byte. *)
Definition enforce_store_ceiling_not_exceeded (reader : Rd) (limit : StoreCopyLimit) (member_name : ustring) : result unit :=
  if negb (is_ceiling limit) then Ok tt
  else
    probe ← (src_read reader 1).1;
    match probe with
    | [] => Ok tt
    | _ => size ← add_u64 (limit_bytes limit) (zlen probe); Err (resource_limit_error member_name size (limit_bytes limit))
    end.

(** The loop reads a byte at least in every turn but the last. *)
Fixpoint read_store_chunks (fuel : nat) (reader : Rd) (limit : StoreCopyLimit) (member_name : ustring) (sink : list byte -> stateM S rar_error unit) (written : Z) : stateM S rar_error Z :=
  match fuel with
  | O => lift Panic
  | Datatypes.S fuel =>
    let to_read := next_read_len limit written STORE_HASHED_CHUNK_BYTES in
    if to_read =? 0 then
      _ ← lift (enforce_store_ceiling_not_exceeded reader limit member_name);
      mret written
    else
      let '(got, reader) := src_read reader to_read in
      chunk ← lift got;
      match chunk with
      | [] => if is_exact limit then fails (Io UnexpectedEof) else mret written
      | _ =>
        written ← lift (add_u64 written (zlen chunk));
        _ ← sink chunk;
        read_store_chunks fuel reader limit member_name sink written
      end
  end.
End storing.

(** Serial: the code may overlap the reads with the writes on two threads. *)
Definition copy_reader_hashed {Rd W} `{Source Rd} `{Sink W} (fuel : nat) (reader : Rd) (limit : StoreCopyLimit) (member_name : ustring) : stateM (HashingWriter W) rar_error Z :=
  read_store_chunks fuel reader limit member_name write_all 0.

(** ** Decoding *)

(** The decoders of the older formats, which a header of such a format selects. *)
Class OlderFormats (Rd : Type) := older_decode : forall V, Sink V -> Rd -> Z -> FileHeader.t -> stateM V rar_error Z.

Section decoding.
Context {Rd V : Type} `{Source Rd} `{Sink V} `{ByteSearch} `{ZeroedAlloc} `{OlderFormats Rd} (fuel : nat).
Local Abbreviation M := (stateM (option LzDecoder.t * V) rar_error).

(** An action of the decoder in the slot. *)
Definition on_decoder {A} (m : stateM (LzDecoder.t * V) rar_error A) : M A := fun st =>
  match st.1 with
  | Some decoder => let '(o, (decoder, w)) := m (decoder, st.2) in (o, (Some decoder, w))
  | None => (Panic, st)
  end.

(** The slot takes a decoder prepared from what it held; a preparation that
    fails leaves it as it was. *)
Definition prepare (m : option LzDecoder.t -> result LzDecoder.t) : M unit :=
  slot ← gets fst;
  decoder ← lift (m slot);
  on_fst (modify (fun _ => Some decoder)).

Definition prepare_rar5_member_decoder (fh : FileHeader.t) (max_dict_size : Z) (solid_decoder : option LzDecoder.t) : result LzDecoder.t :=
  dict_size ← checked_lz_dict_size (FileHeader.compression fh) max_dict_size;
  let version := CompressionInfo.version (FileHeader.compression fh) in
  match solid_decoder with
  | Some decoder => LzDecoder.prepare_reuse dict_size version decoder
  | None => LzDecoder.try_new dict_size version
  end.

Definition prepare_rar5_solid_decoder (fh : FileHeader.t) (solid_decoder : option LzDecoder.t) : result LzDecoder.t :=
  let dict_size := effective_member_dict_size fh in
  let version := CompressionInfo.version (FileHeader.compression fh) in
  match solid_decoder with
  | Some decoder => decoder ← LzDecoder.ensure_solid_member_compat dict_size version decoder; mret (LzDecoder.prepare_solid_continuation decoder)
  | None => LzDecoder.try_new dict_size version
  end.

Definition solid_decode_reader_to_writer (limits : Limits) (compressed : Rd) (unpacked_size : Z) (fh : FileHeader.t) : M Z :=
  let dict_size := effective_member_dict_size fh in
  if max_dict_size limits <? dict_size then fails (DictionaryTooLarge dict_size (max_dict_size limits))
  else if is_rar4_family (CompressionInfo.format (FileHeader.compression fh)) then on_snd (older_decode V _ compressed unpacked_size fh)
  else
    _ ← prepare (prepare_rar5_solid_decoder fh);
    on_decoder (LzDecoder.decompress_reader_to_writer fuel compressed unpacked_size).

(** The route of a member outside a solid archive. *)
Definition decode_reader_to_writer (limits : Limits) (compressed : Rd) (unpacked_size : Z) (fh : FileHeader.t) : M Z :=
  _ ← prepare (prepare_rar5_member_decoder fh (max_dict_size limits));
  on_decoder (LzDecoder.decompress_reader_to_writer fuel compressed unpacked_size).
End decoding.

(** ** Extraction *)

Section extraction.
Context {Rd : Type} `{Source Rd} `{ByteSearch} `{ZeroedAlloc} `{OlderFormats Rd} `{Hashers} (fuel : nat).
(** The reader over a member's segments in the attached volumes. *)
Context (segments : MemberEntry -> Rd).

(** [std::io::sink()]: what it swallows is kept for nobody to read. *)
Definition sink_instance : Sink (list byte) := fun buf swallowed => (Ok tt, swallowed ++ buf).

Section writer.
Context {W : Type} `{Sink W}.
Local Abbreviation M := (stateM (RarArchive * W) rar_error).

Definition get_archive : M RarArchive := gets fst.
Definition set_next (n : nat) : M unit := on_fst (modify (set_solid_next_index n)).

(** An action of the slot with a writer of its own. *)
Definition on_slot {V A} (m : stateM (option LzDecoder.t * V) rar_error A) : stateM (RarArchive * V) rar_error A := fun st =>
  let '(o, (slot, w)) := m (solid_decoder st.1, st.2) in (o, (set_solid_decoder slot st.1, w)).

(** A hashing writer for the rest of an action: its result and the bytes hashed. *)
Definition hashing {A} (m : stateM (RarArchive * HashingWriter W) rar_error A) : M (A * list byte) := fun st =>
  let '(o, (a, hw)) := m (st.1, mk_hashing st.2 []) in ((fun x => (x, hashed hw)) <$> o, (a, inner hw)).

(** [io::sink()] for the rest of an action. *)
Definition into_sink {A} (m : stateM (RarArchive * list byte) rar_error A) : M A := fun st =>
  let '(o, (a, _)) := m (st.1, []) in (o, (a, st.2)).

Definition solid_decode_reader_to_sink (limits : Limits) (compressed : Rd) (unpacked_size : Z) (fh : FileHeader.t) : M Z :=
  into_sink (on_slot (solid_decode_reader_to_writer (H0 := sink_instance) fuel limits compressed unpacked_size fh)).

Definition member_at (index : nat) : M MemberEntry :=
  a ← get_archive;
  lift (match members a !! index with Some entry => Ok entry | None => Err CorruptArchive end).

(** [while self.solid_next_index < index { .. }]. *)
Fixpoint advance_loop (turns : nat) (index : nat) : M unit :=
  match turns with
  | O => lift Panic
  | S turns =>
    a ← get_archive;
    let skip_idx := solid_next_index a in
    if (skip_idx <? index)%nat then
      skip_entry ← lift (match members a !! skip_idx with Some entry => Ok entry | None => Panic end);
      let skip_fh := file_header skip_entry in
      _ ← lift (enforce_archive_member_limits (limits a) skip_fh);
      _ ← (if negb (stored skip_fh) then
             let skip_unpacked := target_unpacked_size (limits a) skip_fh in
             written ← solid_decode_reader_to_sink (limits a) (segments skip_entry) skip_unpacked skip_fh;
             lift (enforce_unknown_lz_output_limit (limits a) skip_fh written)
           else mret tt);
      _ ← set_next (skip_idx + 1);
      advance_loop turns index
    else mret tt
  end.

Definition advance_solid_cursor_to (index : nat) (fh : FileHeader.t) : M unit :=
  a ← get_archive;
  if (index <? solid_next_index a)%nat then fails (order_violation (solid_next_index a) fh)
  else advance_loop (S (index - solid_next_index a)) index.

(** The checks of a member's bytes. *)
Definition verify_member (entry : MemberEntry) (bytes : list byte) : M unit :=
  a ← get_archive;
  let fh := file_header entry in
  let expected_crc := if verify a then FileHeader.data_crc32 fh else None in
  let expected_blake := if verify a then match entry_hash entry with Some (Blake2sp expected) => Some expected | None => None end else None in
  _ ← lift (verify_member_crc32 (FileHeader.name fh) expected_crc ((fun _ => crc32_of bytes) <$> expected_crc));
  lift (verify_member_blake2 (FileHeader.name fh) expected_blake ((fun _ => blake2sp_of bytes) <$> expected_blake)).

Definition copy_stored (limits : Limits) (entry : MemberEntry) : M (Z * list byte) :=
  hashing (on_snd (copy_reader_hashed fuel (segments entry) (store_copy_limit limits (file_header entry)) (FileHeader.name (file_header entry)))).

Definition extract_member_solid_to_writer_local (index : nat) : M Z :=
  entry ← member_at index;
  a ← get_archive;
  let fh := file_header entry in
  _ ← lift (reject_link_member_without_file_target entry);
  if negb (is_solid a) then fails CorruptArchive
  else
    _ ← lift (enforce_archive_member_limits (limits a) fh);
    let unpacked_size := target_unpacked_size (limits a) fh in
    _ ← advance_solid_cursor_to index fh;
    if FileHeader.is_directory fh then _ ← set_next (index + 1); mret 0
    else
      '(written, bytes) ← (if stored fh then copy_stored (limits a) entry
        else hashing (
          written ← on_slot (solid_decode_reader_to_writer fuel (limits a) (segments entry) unpacked_size fh);
          _ ← lift (enforce_unknown_lz_output_limit (limits a) fh written);
          mret written));
      _ ← verify_member entry bytes;
      _ ← set_next (index + 1);
      mret written.

(** For an archive of the RAR5 format. *)
Definition extract_member_attached_to_writer (index : nat) : M Z :=
  entry ← member_at index;
  a ← get_archive;
  let fh := file_header entry in
  _ ← lift (reject_link_member_without_file_target entry);
  let solid := member_is_solid a fh in
  _ ← lift (enforce_archive_member_limits (limits a) fh);
  let unpacked_size := target_unpacked_size (limits a) fh in
  if stored fh && negb solid then
    '(written, bytes) ← copy_stored (limits a) entry;
    _ ← verify_member entry bytes;
    mret written
  else if negb (stored fh) && negb solid then
    '(written, bytes) ← hashing (on_slot (decode_reader_to_writer fuel (limits a) (segments entry) unpacked_size fh));
    _ ← lift (enforce_unknown_lz_output_limit (limits a) fh written);
    _ ← verify_member entry bytes;
    mret unpacked_size
  else extract_member_solid_to_writer_local index.

(** ** The calls of an entry *)

Definition check_solid_poison (index : nat) : M unit :=
  a ← get_archive;
  if negb (member_is_solid_at a index) then mret tt
  else match solid_poison a with Some member => fails (SolidStatePoisoned (decimal member)) | None => mret tt end.

Definition is_refusal (e : rar_error) : bool := match e with SolidOrderViolation _ _ | SolidStatePoisoned _ => true | _ => false end.

Definition poison_on_error {A} (index : nat) (m : M A) : M A := fun st =>
  match m st with
  | (Err e, (a, w)) =>
    (Err e, (if member_is_solid_at a index && negb (is_refusal e) && bool_decide (solid_poison a = None) then set_solid_poison (Some index) a else a, w))
  | r => r
  end.

(** [by_index(index)?]: an entry, with what its header states. *)
Definition by_index (index : nat) : M MemberEntry :=
  a ← get_archive;
  lift (match members a !! index with Some entry => Ok entry | None => Err (MemberIndexOutOfRange (Z.of_nat index) (zlen (members a))) end).

Definition copy_to (index : nat) : M Z :=
  _ ← by_index index;
  _ ← check_solid_poison index;
  poison_on_error index (extract_member_attached_to_writer index).
End writer.

Definition skip (index : nat) : stateM RarArchive rar_error Z := fun a =>
  let '(o, (a, _)) := (
    info ← by_index index;
    a ← get_archive;
    if negb (member_is_solid_at a index) then mret (default 0 (FileHeader.unpacked_size (file_header info)))
    else
      _ ← check_solid_poison index;
      poison_on_error index (extract_member_solid_to_writer_local (H4 := sink_instance) index)) (a, [] : list byte) in (o, a).
End extraction.
