(* ===== verification/ExtractSpec.v ===== *)
(** What extraction from a solid archive promises: the members are one stream,
    a member's bytes are a function of the members up to it, and requests move
    along the stream until one fails; and what single members do, decoded
    through the shared slot or copied, into a hashing writer. *)
From S2P Require Import Prelude RarTypes Text HeaderFile StateM BitString LzBits LzStreamReader LzHuffman LzWindow LzOutput LzFilter LzFilterProps LzDecoder.
From S2P Require Import LzReference LzProgress LzSimulation LzDecoderProps LzContinue Extract.

(** What has been decoded so far: the window's size and the reference's state. *)
Definition stream : Type := option (Z * ref).

Section spec.
Context {Rd : Type} `{SourceLaws Rd} `{ByteSearch} `{Hashers} (segments : MemberEntry -> Rd) (lim : Limits) (checked : bool).
Local Abbreviation packed entry := (src_rest (segments entry)).
Implicit Types (entry : MemberEntry) (st : stream).

(** The state a compressed member starts from. *)
Definition start_solid (fh : FileHeader.t) (st : stream) : result (Z * ref) :=
  let dict_size := effective_member_dict_size fh in
  let version := CompressionInfo.version (FileHeader.compression fh) in
  if max_dict_size lim <? dict_size then Err (DictionaryTooLarge dict_size (max_dict_size lim))
  else
    match st with
    | Some (window, s) => if window <? dict_size then Err CorruptArchive else extra ← LzDecoder.extra_dist_for_version version; mret (window, ref_continue extra s)
    | None => extra ← LzDecoder.extra_dist_for_version version; mret (dict_size, fresh extra)
    end.

(** A compressed member: its bytes, and the stream behind it. *)
Definition unpacked entry st : result (list byte * stream) :=
  '(window, s) ← start_solid (file_header entry) st;
  '(s, out) ← ref_output window (target_unpacked_size lim (file_header entry)) s (packed entry);
  mret (out, Some (window, s)).
Definition decoded entry st : result (list byte * stream) :=
  '(out, st) ← unpacked entry st;
  _ ← enforce_unknown_lz_output_limit lim (file_header entry) (zlen out);
  mret (out, st).

(** A stored member is its packed bytes, up to the size it declares. *)
Definition stored_bytes (limit : StoreCopyLimit) (name : ustring) (data : list byte) : result (list byte) :=
  match limit with
  | Exact n => if zlen data <? n then Err (Io UnexpectedEof) else Ok (ztake n data)
  | AtMost n => if n <? zlen data then Err (resource_limit_error name (n + 1) n) else Ok data
  end.

(** The stream behind some members. *)
Fixpoint passed (entries : list MemberEntry) st : result stream :=
  match entries with
  | [] => Ok st
  | entry :: entries =>
    _ ← enforce_archive_member_limits lim (file_header entry);
    st ← (if stored (file_header entry) then Ok st else snd <$> decoded entry st);
    passed entries st
  end.

(** The checks a member's header asks for. *)
Definition verified entry (bytes : list byte) : result unit :=
  let fh := file_header entry in
  let crc := if checked then FileHeader.data_crc32 fh else None in
  let blake := if checked then match entry_hash entry with Some (Blake2sp hash) => Some hash | None => None end else None in
  _ ← verify_member_crc32 (FileHeader.name fh) crc ((fun _ => crc32_of bytes) <$> crc);
  verify_member_blake2 (FileHeader.name fh) blake ((fun _ => blake2sp_of bytes) <$> blake).

(** The bytes of a member behind a stream. *)
Definition member_bytes entry st : result (list byte) :=
  let fh := file_header entry in
  if FileHeader.is_directory fh then Ok []
  else
    bytes ← (if stored fh then stored_bytes (store_copy_limit lim fh) (FileHeader.name fh) (packed entry) else fst <$> decoded entry st);
    _ ← verified entry bytes;
    mret bytes.

Context (members : list MemberEntry).

(** The bytes of the [index]-th member: the members before it are decoded from
    the first one on. *)
Definition content (index : nat) entry : result (list byte) :=
  st ← passed (take index members) None;
  member_bytes entry st.

(** What is owed to a request for a member when the stream is at [next]. *)
Definition asked (next index : nat) entry : result (list byte) :=
  _ ← reject_link_member_without_file_target entry;
  _ ← enforce_archive_member_limits lim (file_header entry);
  if (index <? next)%nat then Err (order_violation next (file_header entry)) else content index entry.

(** Where the requests of a caller stand. *)
Inductive position := At (next : nat) | Poisoned (member : nat).

(** The answer to a request for a member's bytes. *)
Definition answer (p : position) (index : nat) : result (list byte) * position :=
  match members !! index with
  | None => (Err (MemberIndexOutOfRange (Z.of_nat index) (zlen members)), p)
  | Some entry =>
    match p with
    | Poisoned member => (Err (SolidStatePoisoned (decimal member)), p)
    | At next =>
      let bytes := asked next index entry in
      (bytes, match bytes with Ok _ => At (index + 1) | Err e => if is_refusal e then p else Poisoned index | Panic => p end)
    end
  end.
End spec.

(** * Single members: a compressed member decoded through the shared slot, and a stored member copied, each into a hashing writer. *)

Local Abbreviation written := LzOutput.written.

(** ** Hashing writers write through *)

Section hashing_writers.
Context {W : Type} `{SinkLaws W}.

Lemma hashing_run buf (hw : HashingWriter W) : exists w, write_all buf (inner hw) = (Ok tt, w) /\ written w = written (inner hw) ++ buf /\
  write_all buf hw = (Ok tt, mk_hashing w (hashed hw ++ buf)).
Proof.
  destruct (write_all_law buf (inner hw)) as (w & Hrun & Hw). exists w. split; [exact Hrun|]. split; [exact Hw|].
  unfold write_all at 1, HashingWriter_Sink. by rewrite Hrun.
Qed.

(** Two views of the same writes: what the inner writer gets, what is hashed. *)
Definition passes_on : SinkLaws (HashingWriter W).
Proof. refine {| LzOutput.written := fun hw : HashingWriter W => written (inner hw) |}. intros buf hw. destruct (hashing_run buf hw) as (w & _ & Hw & ->). by eexists. Defined.
Definition takes_in : SinkLaws (HashingWriter W).
Proof. refine {| LzOutput.written := fun hw : HashingWriter W => hashed hw |}. intros buf hw. destruct (hashing_run buf hw) as (w & _ & Hw & ->). by eexists. Defined.
End hashing_writers.

(** ** Checks before and behind a member *)

Section checks.
Context `{Hashers} (lim : Limits) (checked : bool).

Lemma limits_fail fh e : enforce_archive_member_limits lim fh = Err e -> is_refusal e = false.
Proof. unfold enforce_archive_member_limits. repeat case_match; try done; cbn; repeat case_match; intros [=]; by subst. Qed.
Lemma limits_defined fh : enforce_archive_member_limits lim fh <> Panic.
Proof. unfold enforce_archive_member_limits. by repeat case_match. Qed.
Lemma link_defined entry : reject_link_member_without_file_target entry <> Panic.
Proof. unfold reject_link_member_without_file_target. by destruct (redirection entry). Qed.
Lemma link_fails entry e : reject_link_member_without_file_target entry = Err e -> is_refusal e = false.
Proof. unfold reject_link_member_without_file_target. destruct (redirection entry); intros [=]; by subst. Qed.
Lemma verified_fails entry bytes e : verified checked entry bytes = Err e -> is_refusal e = false.
Proof. unfold verified, verify_member_crc32, verify_member_blake2. repeat case_match; cbn; repeat case_match; intros [=]; by subst. Qed.
Lemma verified_defined entry bytes : verified checked entry bytes <> Panic.
Proof. unfold verified, verify_member_crc32, verify_member_blake2. repeat case_match; cbn; by repeat case_match. Qed.

Lemma verify_run {W} entry bytes a (w : W) : verify a = checked -> verify_member entry bytes (a, w) = (verified checked entry bytes, (a, w)).
Proof.
  intros Hv. unfold verify_member, get_archive. rewrite bind_gets. cbn [fst]. rewrite Hv. unfold verified, lift.
  unfold mbind at 1, stateM_bind. by destruct (verify_member_crc32 _ _ _).
Qed.
End checks.

(** ** The slot *)

Section props.
Context {Rd : Type} `{SourceLaws Rd} `{Hsearch : ByteSearchLaws} `{ZeroedAlloc} `{OlderFormats Rd} `{Hashers} (fuel : nat).
Context (segments : MemberEntry -> Rd) (lim : Limits) (checked : bool) (ms : list MemberEntry).
Context (Hgrant : forall n, alloc_zeroed n = true) (Hlim : max_dict_size lim < 2 ^ 63).
Local Abbreviation packed entry := (src_rest (segments entry)).
Local Abbreviation target entry := (target_unpacked_size lim (file_header entry)).

(** A member this development covers: of the RAR5 format, its directories
    without data, its packed size within the counters and the fuel. *)
Definition covered (entry : MemberEntry) : Prop :=
  is_rar4_family (CompressionInfo.format (FileHeader.compression (file_header entry))) = false /\ 0 <= target entry /\
  bit_len (packed entry) < 2 ^ 61 /\ bit_len (packed entry) + 2 <= Z.of_nat fuel /\
  (FileHeader.is_directory (file_header entry) = true -> stored (file_header entry) = true).

(** What members may add to the stream. *)
Definition room (entries : list MemberEntry) : Z := foldr (fun entry n => target entry + MAX_INCREMENTAL_LZ_MATCH + n) 0 entries.

(** The slot holds the decoder of the stream, whose history has [n] bytes at most. *)
Definition slot_ok (slot : option LzDecoder.t) (st : stream) (n : Z) : Prop :=
  match slot, st with
  | None, None => True
  | Some d, Some (dict, s) => rests dict s d /\ 2 * MAX_INCREMENTAL_LZ_MATCH < dict < 2 ^ 63 /\ zlen (r_hist s) <= n
  | _, _ => False
  end.

Lemma window_wide fh : stored fh = false -> is_rar4_family (CompressionInfo.format (FileHeader.compression fh)) = false -> 2 * MAX_INCREMENTAL_LZ_MATCH < effective_member_dict_size fh.
Proof.
  intros Hs Hf. unfold effective_member_dict_size, effective_lz_window_size, RAR_MIN_LZ_WINDOW_SIZE, MAX_INCREMENTAL_LZ_MATCH. rewrite Hs, Hf. lia.
Qed.

Lemma prepare_ok fh slot st n : stored fh = false -> is_rar4_family (CompressionInfo.format (FileHeader.compression fh)) = false -> 0 <= n -> slot_ok slot st n ->
  effective_member_dict_size fh <= max_dict_size lim ->
  match start_solid lim fh st with
  | Ok (window, s) => exists d, prepare_rar5_solid_decoder fh slot = Ok d /\ ready window s d /\ 2 * MAX_INCREMENTAL_LZ_MATCH < window < 2 ^ 63 /\ zlen (r_hist s) <= n
  | Err e => prepare_rar5_solid_decoder fh slot = Err e /\ is_refusal e = false
  | Panic => False
  end.
Proof using Hgrant Hlim.
  intros Hs Hf Hn Hslot Hd. pose proof (window_wide fh Hs Hf) as Hwide. unfold start_solid, prepare_rar5_solid_decoder. rewrite (proj2 (Z.ltb_ge _ _) Hd).
  set (dict := effective_member_dict_size fh) in *. set (version := CompressionInfo.version (FileHeader.compression fh)).
  assert (Hv : forall e, LzDecoder.extra_dist_for_version version = Err e -> is_refusal e = false).
  { intros e. unfold LzDecoder.extra_dist_for_version. repeat case_match; intros [=]; by subst. }
  assert (Hp : LzDecoder.extra_dist_for_version version <> Panic) by (unfold LzDecoder.extra_dist_for_version; by repeat case_match).
  destruct slot as [d|], st as [[window s]|]; try done.
  - destruct Hslot as (Hrests & Hwin & Hlen). destruct (Z.ltb_spec window dict) as [Hbig|Hfits].
    + by rewrite (continue_refused window dict version s d Hrests Hbig).
    + destruct (LzDecoder.extra_dist_for_version version) as [extra|e|] eqn:E; [| |done].
      * destruct (continue_ready window dict version extra s d Hrests Hfits E) as (d1 & -> & Hready). by exists (LzDecoder.prepare_solid_continuation d1).
      * split; [|by apply Hv]. unfold LzDecoder.ensure_solid_member_compat. destruct Hrests as [(p & Hwin') _].
        by rewrite (LzWindowProps.sf_dict _ _ _ Hwin'), (proj2 (Z.ltb_ge _ _) Hfits), E.
  - destruct (LzDecoder.extra_dist_for_version version) as [extra|e|] eqn:E; [| |done].
    + destruct (new_granted Hgrant dict version extra ltac:(unfold MAX_INCREMENTAL_LZ_MATCH in *; lia) E) as (d & Hnew & Hready). exists d.
      split; [exact Hnew|]. split; [exact Hready|]. split; [lia | exact Hn].
    + unfold LzDecoder.try_new. rewrite E. split; [reflexivity | by apply Hv].
Qed.

(** A compressed member, into any writer. *)
Lemma solid_decode_ok {V} `{Hsink : SinkLaws V} entry slot st (v : V) n : covered entry -> stored (file_header entry) = false -> 0 <= n -> slot_ok slot st n ->
  n + target entry + MAX_INCREMENTAL_LZ_MATCH < 2 ^ 63 ->
  match unpacked segments lim entry st with
  | Ok (out, st') => exists slot' v', solid_decode_reader_to_writer fuel lim (segments entry) (target entry) (file_header entry) (slot, v) = (Ok (zlen out), (slot', v')) /\
      written v' = written v ++ out /\ slot_ok slot' st' (n + target entry + MAX_INCREMENTAL_LZ_MATCH)
  | Err e => (exists slot' v', solid_decode_reader_to_writer fuel lim (segments entry) (target entry) (file_header entry) (slot, v) = (Err e, (slot', v'))) /\ is_refusal e = false
  | Panic => True
  end.
Proof using Hsearch Hgrant Hlim.
  intros (Hformat & Htarget & Hbits & Hfuel & _) Hs Hn Hslot Hroom. unfold unpacked, solid_decode_reader_to_writer.
  destruct (Z.ltb_spec (max_dict_size lim) (effective_member_dict_size (file_header entry))) as [Hbig|Hfits].
  { unfold start_solid. rewrite (proj2 (Z.ltb_lt _ _) Hbig). split; [by eexists _, _ | done]. }
  pose proof (prepare_ok (file_header entry) slot st n Hs Hformat Hn Hslot Hfits) as Hprep. rewrite Hformat.
  destruct (start_solid lim (file_header entry) st) as [[window s]|e|]; [| |done].
  2: { destruct Hprep as [Hrun Href]. split; [|exact Href]. exists slot, v. unfold prepare. rewrite <- (bind_run_err (A := unit) (fun st => (Err e, st)) (fun _ => on_decoder (LzDecoder.decompress_reader_to_writer fuel (segments entry) (target entry))) (slot, v) e (slot, v) eq_refl).
       unfold mbind, stateM_bind, gets, lift. cbn [fst snd]. by rewrite Hrun. }
  destruct Hprep as (d & Hrun & Hready & Hwin & Hlen). rewrite bind_Ok.
  assert (Hprepare : prepare (V := V) (prepare_rar5_solid_decoder (file_header entry)) (slot, v) = (Ok tt, (Some d, v))).
  { unfold prepare, mbind, stateM_bind, gets, lift. cbn [fst snd]. by rewrite Hrun. }
  rewrite (bind_run _ _ _ _ _ Hprepare). unfold on_decoder. cbn [fst snd].
  assert (Hok : sizes_ok window (target entry) s (packed entry)) by (split; [exact Hwin|]; split; [exact Htarget|]; split; [lia | exact Hbits]).
  pose proof (output_refines window (target entry) fuel s d v (segments entry) Hready Hok Hfuel) as Hout.
  destruct (ref_output window (target entry) s (packed entry)) as [[s' out]|e|] eqn:E; [| |done].
  - destruct Hout as (d' & v' & -> & Hv & Hrests & Hlen'). rewrite bind_Ok. exists (Some d'), v'. split; [reflexivity|]. split; [exact Hv|].
    split; [exact Hrests|]. split; [exact Hwin | lia].
  - destruct Hout as ([d' v'] & ->). split; [by eexists _, _|]. apply (output_errs window _ s d) in E; [|exact Hready]. by destruct e.
Qed.

(** A stored member, into any writer that takes everything. *)
Definition rest_limit (limit : StoreCopyLimit) (read : Z) : StoreCopyLimit := match limit with Exact n => Exact (n - read) | AtMost n => AtMost (n - read) end.
Definition store_error (name : ustring) (limit : StoreCopyLimit) : rar_error := match limit with Exact _ => Io UnexpectedEof | AtMost n => resource_limit_error name (n + 1) n end.

Lemma stored_step name limit read (bytes rest : list byte) : 0 <= read -> read + zlen bytes <= limit_bytes limit ->
  stored_bytes (rest_limit limit read) name (bytes ++ rest) =
  match stored_bytes (rest_limit limit (read + zlen bytes)) name rest with
  | Ok out => Ok (bytes ++ out)
  | _ => match limit with Exact _ => Err (Io UnexpectedEof) | AtMost n => Err (resource_limit_error name (n - read + 1) (n - read)) end
  end.
Proof.
  intros Hread Hle. destruct limit as [n|n]; cbn in *; rewrite zlen_app.
  - destruct (Z.ltb_spec (zlen bytes + zlen rest) (n - read)), (Z.ltb_spec (zlen rest) (n - (read + zlen bytes))); try lia; [done|].
    rewrite ztake_app_ge by lia. do 3 f_equal. lia.
  - destruct (Z.ltb_spec (n - read) (zlen bytes + zlen rest)), (Z.ltb_spec (n - (read + zlen bytes)) (zlen rest)); try lia; done.
Qed.

Lemma store_turn {S} `{Sink S} name limit turns (reader rest : Rd) read bytes (st st1 : S) : next_read_len limit read STORE_HASHED_CHUNK_BYTES <> 0 ->
  src_read reader (next_read_len limit read STORE_HASHED_CHUNK_BYTES) = (Ok bytes, rest) -> bytes <> [] -> read + zlen bytes < 2 ^ 64 -> write_all bytes st = (Ok tt, st1) ->
  read_store_chunks (Datatypes.S turns) reader limit name write_all read st = read_store_chunks turns rest limit name write_all (read + zlen bytes) st1.
Proof.
  intros Hsome Hread Hbytes Hsize Hw. cbn [read_store_chunks]. rewrite (proj2 (Z.eqb_neq _ _) Hsome), Hread. destruct bytes as [|b bytes]; [done|].
  unfold add_u64. unfold lift, mbind, stateM_bind. rewrite (proj2 (Z.ltb_lt _ _) Hsize). by rewrite Hw.
Qed.
Lemma store_end {S} `{Sink S} name limit turns (reader rest : Rd) read (st : S) : next_read_len limit read STORE_HASHED_CHUNK_BYTES <> 0 ->
  src_read reader (next_read_len limit read STORE_HASHED_CHUNK_BYTES) = (Ok [], rest) ->
  read_store_chunks (Datatypes.S turns) reader limit name write_all read st = if is_exact limit then (Err (Io UnexpectedEof), st) else (Ok read, st).
Proof. intros Hsome Hread. cbn [read_store_chunks]. rewrite (proj2 (Z.eqb_neq _ _) Hsome), Hread. by destruct (is_exact limit). Qed.
Lemma store_full {S} `{Sink S} name limit turns (reader : Rd) read (st : S) : next_read_len limit read STORE_HASHED_CHUNK_BYTES = 0 ->
  read_store_chunks (Datatypes.S turns) reader limit name write_all read st = match enforce_store_ceiling_not_exceeded reader limit name with Ok _ => (Ok read, st) | Err e => (Err e, st) | Panic => (Panic, st) end.
Proof. intros Hzero. cbn [read_store_chunks]. rewrite Hzero, Z.eqb_refl. unfold lift, mbind, stateM_bind. by destruct (enforce_store_ceiling_not_exceeded _ _ _). Qed.

Lemma store_loop_ok {S} `{Hs : SinkLaws S} name limit : 0 <= limit_bytes limit < 2 ^ 63 -> forall turns (reader : Rd) read (st : S), 0 <= read <= limit_bytes limit ->
  zlen (src_rest reader) + 1 < Z.of_nat turns ->
  match stored_bytes (rest_limit limit read) name (src_rest reader) with
  | Ok out => exists st', read_store_chunks turns reader limit name write_all read st = (Ok (read + zlen out), st') /\ written st' = written st ++ out
  | Err _ => exists st', read_store_chunks turns reader limit name write_all read st = (Err (store_error name limit), st')
  | Panic => False
  end.
Proof.
  intros Hlimit. induction turns as [|turns IH]; intros reader read st Hread Hturns; [pose proof (zlen_nonneg (src_rest reader)); lia|].
  assert (Hto : 0 <= next_read_len limit read STORE_HASHED_CHUNK_BYTES <= limit_bytes limit - read /\ (read < limit_bytes limit -> 0 < next_read_len limit read STORE_HASHED_CHUNK_BYTES)).
  { unfold next_read_len, sat_sub_u64, STORE_HASHED_CHUNK_BYTES, USIZE_MAX. lia. }
  destruct (Z.eq_dec (next_read_len limit read STORE_HASHED_CHUNK_BYTES) 0) as [Hzero|Hsome].
  - rewrite store_full by exact Hzero. assert (Hend : read = limit_bytes limit) by lia. clear IH Hto. destruct limit as [n|n]; cbn in *; subst n; rewrite Z.sub_diag.
    + rewrite (proj2 (Z.ltb_ge _ _)), ztake_nat, take_0 by (lia || apply zlen_nonneg). exists st. by rewrite Z.add_0_r, app_nil_r.
    + unfold enforce_store_ceiling_not_exceeded. cbn.
      destruct (src_read_law reader 1 ltac:(lia)) as (bytes & rest & -> & Hrest & Hlen & Hnil). cbn. destruct bytes as [|b bytes].
      * rewrite (Hnil eq_refl). exists st. cbn. by rewrite Z.add_0_r, app_nil_r.
      * rewrite Hrest, zlen_app, zlen_cons. rewrite zlen_cons in Hlen. pose proof (zlen_nonneg bytes). pose proof (zlen_nonneg (src_rest rest)).
        rewrite (proj2 (Z.ltb_lt _ _)) by lia. exists st. unfold add_u64. rewrite (proj2 (Z.ltb_lt _ _)) by lia. cbn.
        assert (zlen bytes = 0) as -> by lia. reflexivity.
  - destruct (src_read_law reader (next_read_len limit read STORE_HASHED_CHUNK_BYTES) ltac:(lia)) as (bytes & rest & Hread1 & Hrest & Hlen & Hnil).
    destruct (decide (bytes = [])) as [->|Hbytes].
    + rewrite (store_end name limit turns reader rest read st Hsome Hread1), (Hnil eq_refl). clear IH. destruct limit as [n|n]; cbn in *; change (@zlen byte []) with 0 in *.
      * rewrite (proj2 (Z.ltb_lt _ _)) by lia. by exists st.
      * rewrite (proj2 (Z.ltb_ge _ _)) by lia. exists st. by rewrite Z.add_0_r, app_nil_r.
    + assert (Hchunk : 0 < zlen bytes) by (destruct bytes as [|b bytes]; [done|]; rewrite zlen_cons; pose proof (zlen_nonneg bytes); lia).
      destruct (write_all_law bytes st) as (st1 & Hrun & Hw). rewrite (store_turn name limit turns reader rest read bytes st st1 Hsome Hread1 Hbytes ltac:(lia) Hrun).
      rewrite Hrest, stored_step by lia. rewrite Hrest, zlen_app in Hturns.
      specialize (IH rest (read + zlen bytes) st1 ltac:(lia) ltac:(lia)).
      destruct (stored_bytes (rest_limit limit (read + zlen bytes)) name (src_rest rest)) as [out|e|]; [| |done].
      * destruct IH as (st' & -> & Hw'). exists st'. split; [by rewrite zlen_app, Z.add_assoc|]. by rewrite Hw', Hw, app_assoc.
      * destruct IH as (st' & ->). destruct limit; by exists st'.
Qed.

(** ** Members into a hashing writer *)

Section writers.
Context {W : Type} `{SinkLaws W}.

Lemma copy_stored_ok entry a (w : W) : covered entry -> target entry < 2 ^ 63 ->
  match stored_bytes (store_copy_limit lim (file_header entry)) (FileHeader.name (file_header entry)) (packed entry) with
  | Ok out => exists w', copy_stored fuel segments lim entry (a, w) = (Ok (zlen out, out), (a, w')) /\ written w' = written w ++ out
  | Err e => exists w', copy_stored fuel segments lim entry (a, w) = (Err e, (a, w'))
  | Panic => False
  end.
Proof.
  intros (_ & Htarget & _ & Hfuel & _) Hsize. set (limit := store_copy_limit lim (file_header entry)). set (name := FileHeader.name (file_header entry)).
  assert (Hlimit : limit_bytes limit = target entry) by (unfold limit, store_copy_limit, target_unpacked_size; by destruct (FileHeader.unpacked_size _)).
  assert (Hturns : zlen (packed entry) + 1 < Z.of_nat fuel) by (unfold bit_len in Hfuel; pose proof (zlen_nonneg (packed entry)); lia).
  assert (Hrest : rest_limit limit 0 = limit) by (destruct limit; cbn; f_equal; lia).
  pose proof (store_loop_ok (Hs := passes_on) name limit ltac:(lia) fuel (segments entry) 0 (mk_hashing w []) ltac:(lia) Hturns) as Hpass.
  pose proof (store_loop_ok (Hs := takes_in) name limit ltac:(lia) fuel (segments entry) 0 (mk_hashing w []) ltac:(lia) Hturns) as Htake.
  rewrite Hrest in Hpass, Htake. unfold copy_stored, hashing, on_snd, copy_reader_hashed. cbn [fst snd]. fold limit name.
  destruct (stored_bytes limit name (packed entry)) as [out|e|] eqn:E; [| |done].
  - destruct Hpass as (hw & Hrun & Hw), Htake as (hw' & Hrun' & Hh). rewrite Hrun in Hrun'. injection Hrun' as <-. rewrite Hrun. cbn.
    exists (inner hw). split; [|exact Hw]. cbn in Hh. by rewrite Hh.
  - destruct Hpass as (hw & Hrun). rewrite Hrun. cbn. exists (inner hw).
    assert (He : e = store_error name limit).
    { revert E. unfold stored_bytes, store_error. destruct limit as [n|n]; case_match; intros [=]; done. }
    by rewrite He.
Qed.

(** A compressed member of a solid archive, hashed and held to the limit on
    members of unknown size. *)
Definition solid_hashing entry : stateM (RarArchive * W) rar_error (Z * list byte) := hashing (
  written ← on_slot (solid_decode_reader_to_writer fuel lim (segments entry) (target entry) (file_header entry));
  _ ← lift (enforce_unknown_lz_output_limit lim (file_header entry) written);
  mret written).

Lemma solid_hashing_run entry a w o slot hw :
  solid_decode_reader_to_writer fuel lim (segments entry) (target entry) (file_header entry) (solid_decoder a, mk_hashing w []) = (o, (slot, hw)) ->
  solid_hashing entry (a, w) = ((fun n => (n, hashed hw)) <$> (n ← o; _ ← enforce_unknown_lz_output_limit lim (file_header entry) n; mret n), (set_solid_decoder slot a, inner hw)).
Proof.
  intros Hrun. unfold solid_hashing, hashing, on_slot, mbind, stateM_bind, lift. cbn [fst snd]. rewrite Hrun. destruct o as [n|e|]; try done. cbn.
  by destruct (enforce_unknown_lz_output_limit _ _ _).
Qed.

Lemma solid_hashing_ok entry a st (w : W) n : covered entry -> stored (file_header entry) = false -> 0 <= n -> slot_ok (solid_decoder a) st n ->
  n + target entry + MAX_INCREMENTAL_LZ_MATCH < 2 ^ 63 ->
  match decoded segments lim entry st with
  | Ok (out, st') => exists slot' w', solid_hashing entry (a, w) = (Ok (zlen out, out), (set_solid_decoder slot' a, w')) /\
      written w' = written w ++ out /\ slot_ok slot' st' (n + target entry + MAX_INCREMENTAL_LZ_MATCH)
  | Err e => (exists slot' w', solid_hashing entry (a, w) = (Err e, (set_solid_decoder slot' a, w'))) /\ is_refusal e = false
  | Panic => True
  end.
Proof using Hsearch Hgrant Hlim.
  intros Hcov Hs Hn Hslot Hroom.
  pose proof (solid_decode_ok (Hsink := passes_on) entry (solid_decoder a) st (mk_hashing w []) n Hcov Hs Hn Hslot Hroom) as Hpass.
  pose proof (solid_decode_ok (Hsink := takes_in) entry (solid_decoder a) st (mk_hashing w []) n Hcov Hs Hn Hslot Hroom) as Htake.
  unfold decoded. destruct (unpacked segments lim entry st) as [[out st']|e|]; [| |done].
  - destruct Hpass as (slot & hw & Hrun & Hw & Hslot'), Htake as (slot' & hw' & Hrun' & Hh & _). rewrite Hrun in Hrun'. injection Hrun' as <- <-.
    rewrite (solid_hashing_run _ _ _ _ _ _ Hrun), !bind_Ok. cbn in Hh. rewrite Hh.
    unfold enforce_unknown_lz_output_limit. destruct (_ && _); [split; [by eexists _, _ | done]|]. by exists slot, (inner hw).
  - destruct Hpass as [(slot & hw & Hrun) Href]. split; [|exact Href]. exists slot, (inner hw). by rewrite (solid_hashing_run _ _ _ _ _ _ Hrun).
Qed.
End writers.
End props.
