(* ===== verification/ExtractProps.v ===== *)
(** Extraction keeps its promise: the calls on a solid archive answer as
    [ExtractSpec] says, in any order, across failures and resets. *)
From S2P Require Import Prelude RarTypes Text StateM BitString HeaderFile LzBits LzHuffman LzWindow LzOutput LzFilter LzFilterProps LzStreamReader LzDecoder LzReference LzSimulation LzDecoderProps LzContinue.
From S2P Require Import LzReaders LzWindowProps Extract ExtractSpec.
Local Abbreviation written := LzOutput.written.

Section solid.
Context {Rd : Type} `{SourceLaws Rd} `{Hsearch : ByteSearchLaws} `{ZeroedAlloc} `{OlderFormats Rd} `{Hashers} (fuel : nat).
Context (segments : MemberEntry -> Rd) (lim : Limits) (checked : bool) (ms : list MemberEntry).
Context (Hgrant : forall n, alloc_zeroed n = true) (Hlim : max_dict_size lim < 2 ^ 63).
Context (Hcovered : Forall (covered fuel segments lim) ms) (Hroom : room lim ms < 2 ^ 63).
Local Abbreviation packed entry := (src_rest (segments entry)).
Local Abbreviation target entry := (target_unpacked_size lim (file_header entry)).
Local Abbreviation passed := (passed segments lim).
Local Abbreviation decoded := (decoded segments lim).
Local Abbreviation content := (content segments lim checked ms).

(** ** Where an archive stands *)

Definition unharmed (a : RarArchive) : Prop :=
  is_solid a = true /\ members a = ms /\ limits a = lim /\ verify a = checked /\ solid_poison a = None.

(** The cursor is at [next], the slot holds the stream behind the members before it. *)
Definition behind (next : nat) (st : stream) (a : RarArchive) : Prop :=
  unharmed a /\ solid_next_index a = next /\ slot_ok (solid_decoder a) st (room lim (take next ms)).

Definition stands (p : position) (a : RarArchive) : Prop :=
  match p with
  | At next => (next <= length ms)%nat /\ exists st, passed (take next ms) None = Ok st /\ behind next st a
  | Poisoned member => is_solid a = true /\ members a = ms /\ limits a = lim /\ verify a = checked /\ solid_poison a = Some member
  end.

Lemma covered_at i entry : ms !! i = Some entry -> covered fuel segments lim entry.
Proof using Hcovered. intros Hi. by eapply (list.Forall_lookup_1 _ _ _ _ Hcovered). Qed.

Lemma room_cons e es : room lim (e :: es) = target e + MAX_INCREMENTAL_LZ_MATCH + room lim es.
Proof. done. Qed.
Lemma room_app es es' : room lim (es ++ es') = room lim es + room lim es'.
Proof. induction es as [|e es IH]; [done|]. cbn [app]. rewrite !room_cons, IH. lia. Qed.
Lemma room_nonneg es : Forall (covered fuel segments lim) es -> 0 <= room lim es.
Proof. induction 1 as [|e es (_ & Ht & _) _ IH]; [done|]. rewrite room_cons. unfold MAX_INCREMENTAL_LZ_MATCH. lia. Qed.
Lemma room_bounds i entry : ms !! i = Some entry -> 0 <= room lim (take i ms) /\ room lim (take i ms) + target entry + MAX_INCREMENTAL_LZ_MATCH < 2 ^ 63 /\
  room lim (take (S i) ms) = room lim (take i ms) + target entry + MAX_INCREMENTAL_LZ_MATCH.
Proof using Hcovered Hroom.
  intros Hi. pose proof (room_nonneg (take i ms) (Forall_take _ _ _ Hcovered)). pose proof (room_nonneg (drop (S i) ms) (Forall_drop _ _ _ Hcovered)).
  rewrite (take_S_r _ _ _ Hi), room_app, room_cons. pose proof Hroom as Hall. rewrite <- (take_drop (S i) ms), (take_S_r _ _ _ Hi), !room_app, room_cons in Hall. change (room lim []) with 0 in *. lia.
Qed.

Lemma passed_app es es' st : passed (es ++ es') st = (st ← passed es st; passed es' st).
Proof.
  revert st. induction es as [|e es IH]; intros st; [done|]. cbn [app ExtractSpec.passed].
  destruct (enforce_archive_member_limits lim (file_header e)) as [[]|e'|]; [|done..]. rewrite !bind_Ok.
  destruct (if stored _ then _ else _) as [st1|e'|]; [apply IH | done..].
Qed.

(** The stream behind one more member. *)
Definition pass entry st : result stream := if stored (file_header entry) then Ok st else snd <$> decoded entry st.
Lemma passed_next i entry st st' : ms !! i = Some entry -> passed (take i ms) None = Ok st -> enforce_archive_member_limits lim (file_header entry) = Ok tt ->
  pass entry st = Ok st' -> passed (take (S i) ms) None = Ok st'.
Proof. intros Hi Hst Hl Hp. rewrite (take_S_r _ _ _ Hi), passed_app, Hst, bind_Ok. cbn. rewrite Hl, bind_Ok. unfold pass in Hp. by rewrite Hp. Qed.


(** ** The cursor *)

Definition swallowing : @SinkLaws (list byte) sink_instance.
Proof. refine {| LzOutput.written := fun w => w |}. intros buf w. by exists (w ++ buf). Defined.

Lemma unharmed_slot slot a : unharmed a -> unharmed (set_solid_decoder slot a).
Proof. done. Qed.
Lemma behind_slot next st st' slot a i : behind i st a -> slot_ok slot st' (room lim (take next ms)) -> behind next st' (set_solid_next_index next (set_solid_decoder slot a)).
Proof. intros (Hu & _ & _) Hslot. done. Qed.

Section writer.
Context {W : Type}.
Local Abbreviation advance_loop := (advance_loop (W := W) fuel segments).

(** One member passed over. *)
Definition pass_over entry : stateM (RarArchive * W) rar_error unit :=
  if negb (stored (file_header entry)) then
    written ← solid_decode_reader_to_sink fuel lim (segments entry) (target entry) (file_header entry);
    lift (enforce_unknown_lz_output_limit lim (file_header entry) written)
  else mret tt.

Lemma member_passed i entry a st (w : W) : ms !! i = Some entry -> behind i st a ->
  match pass entry st with
  | Ok st' => exists slot, pass_over entry (a, w) = (Ok tt, (set_solid_decoder slot a, w)) /\ slot_ok slot st' (room lim (take (S i) ms))
  | Err e => (exists slot, pass_over entry (a, w) = (Err e, (set_solid_decoder slot a, w))) /\ is_refusal e = false
  | Panic => True
  end.
Proof using Hsearch Hgrant Hlim Hcovered Hroom.
  intros Hi (_ & _ & Hslot). destruct (room_bounds i entry Hi) as (Hn & Hfit & ->). unfold pass, pass_over.
  destruct (stored (file_header entry)) eqn:Hs; cbn [negb].
  - exists (solid_decoder a). split; [by destruct a|]. pose proof (covered_at i entry Hi) as (_ & Ht & _).
    destruct (solid_decoder a) as [d|], st as [[dict s]|]; try done. destruct Hslot as (Hr & Hd & Hh). split; [exact Hr|]. split; [exact Hd|]. unfold MAX_INCREMENTAL_LZ_MATCH. lia.
  - pose proof (solid_decode_ok fuel segments lim Hgrant Hlim (Hsink := swallowing) entry (solid_decoder a) st [] _ (covered_at i entry Hi) Hs Hn Hslot Hfit) as Hrun.
    unfold decoded. destruct (unpacked segments lim entry st) as [[out st']|e|]; [| |done].
    + destruct Hrun as (slot & w' & Hrun & _ & Hslot'). rewrite bind_Ok. unfold solid_decode_reader_to_sink, into_sink, on_slot, mbind, stateM_bind. cbn [fst snd]. rewrite Hrun.
      unfold lift, enforce_unknown_lz_output_limit. destruct (_ && _); [split; [by exists slot | done]|]. by exists slot.
    + destruct Hrun as [(slot & w' & Hrun) Href]. split; [|exact Href]. exists slot.
      unfold solid_decode_reader_to_sink, into_sink, on_slot, mbind, stateM_bind. cbn [fst snd]. by rewrite Hrun.
Qed.

Lemma advance_turn turns index entry a (w : W) : (solid_next_index a < index)%nat -> unharmed a -> ms !! solid_next_index a = Some entry ->
  advance_loop (S turns) index (a, w) =
  (_ ← lift (enforce_archive_member_limits lim (file_header entry)); _ ← pass_over entry; _ ← set_next (solid_next_index a + 1); advance_loop turns index) (a, w).
Proof.
  intros Hlt (_ & Hms & Hl & _) Hi. cbn [Extract.advance_loop]. unfold get_archive. rewrite bind_gets. cbn [fst]. rewrite (proj2 (Nat.ltb_lt _ _) Hlt), Hms, Hi, Hl. reflexivity.
Qed.

Lemma cursor_advances index : (index <= length ms)%nat -> forall turns next a st (w : W), behind next st a -> (next <= index)%nat -> (turns > index - next)%nat ->
  match passed (drop next (take index ms)) st with
  | Ok st' => exists a', advance_loop turns index (a, w) = (Ok tt, (a', w)) /\ behind index st' a'
  | Err e => (exists a', advance_loop turns index (a, w) = (Err e, (a', w)) /\ unharmed a') /\ is_refusal e = false
  | Panic => True
  end.
Proof using Hsearch Hgrant Hlim Hcovered Hroom.
  intros Hindex. induction turns as [|turns IH]; intros next a st w Hb Hle Hturns; [lia|]. pose proof Hb as (Hu & Hnext & Hslot).
  destruct (Nat.eq_dec next index) as [->|Hne].
  - rewrite drop_ge by (rewrite length_take; lia). cbn [ExtractSpec.passed]. exists a. split; [|done].
    cbn [Extract.advance_loop]. unfold get_archive. rewrite bind_gets. cbn [fst]. by rewrite Hnext, Nat.ltb_irrefl.
  - destruct (lookup_lt_is_Some_2 ms next ltac:(lia)) as (entry & Hi).
    rewrite (drop_S _ entry) by (rewrite lookup_take_lt by lia; exact Hi). cbn [ExtractSpec.passed].
    rewrite (advance_turn turns index entry a w ltac:(lia) Hu ltac:(by rewrite Hnext)).
    destruct (enforce_archive_member_limits lim (file_header entry)) as [[]|e|] eqn:Hl; [|split; [by exists a | by apply (limits_fail lim _ _ Hl)] | by apply limits_defined in Hl].
    rewrite bind_Ok, (bind_run (lift (Ok tt)) _ (a, w) tt (a, w) eq_refl). fold (pass entry st). pose proof (member_passed next entry a st w Hi Hb) as Hpass.
    destruct (pass entry st) as [st1|e|]; [| |done].
    + destruct Hpass as (slot & Hrun & Hslot1). rewrite (bind_run _ _ _ _ _ Hrun), bind_Ok.
      assert (Hb1 : behind (S next) st1 (set_solid_next_index (S next) (set_solid_decoder slot a))) by (by apply (behind_slot (S next) st st1 slot a next)).
      specialize (IH (S next) _ st1 w Hb1 ltac:(lia) ltac:(lia)).
      rewrite (bind_run _ _ _ tt (set_solid_next_index (S next) (set_solid_decoder slot a), w)) by (rewrite Hnext; unfold set_next, on_fst, modify; cbn; by rewrite Nat.add_1_r).
      exact IH.
    + destruct Hpass as [(slot & Hrun) Href]. split; [|exact Href]. exists (set_solid_decoder slot a). by rewrite (bind_run_err _ _ _ _ _ Hrun).
Qed.

Lemma cursor_ok index fh next a st (w : W) : (index <= length ms)%nat -> behind next st a -> (next <= index)%nat ->
  match passed (drop next (take index ms)) st with
  | Ok st' => exists a', advance_solid_cursor_to fuel segments index fh (a, w) = (Ok tt, (a', w)) /\ behind index st' a'
  | Err e => (exists a', advance_solid_cursor_to fuel segments index fh (a, w) = (Err e, (a', w)) /\ unharmed a') /\ is_refusal e = false
  | Panic => True
  end.
Proof using Hsearch Hgrant Hlim Hcovered Hroom.
  intros Hindex Hb Hle. pose proof Hb as (_ & Hnext & _). unfold advance_solid_cursor_to, get_archive. rewrite bind_gets. cbn [fst].
  rewrite Hnext, (proj2 (Nat.ltb_ge _ _) Hle). apply (cursor_advances index Hindex); [done | done | lia].
Qed.
Lemma cursor_refuses index fh a (w : W) : (index < solid_next_index a)%nat ->
  advance_solid_cursor_to fuel segments index fh (a, w) = (Err (order_violation (solid_next_index a) fh), (a, w)).
Proof. intros Hlt. unfold advance_solid_cursor_to, get_archive. rewrite bind_gets. cbn [fst]. by rewrite (proj2 (Nat.ltb_lt _ _) Hlt). Qed.

(** The stream behind the first members does not depend on where it was met. *)
Lemma passed_from next index st : (next <= index)%nat -> passed (take next ms) None = Ok st -> passed (drop next (take index ms)) st = passed (take index ms) None.
Proof.
  intros Hle Hst. rewrite <- (take_drop next (take index ms)) at 2. rewrite passed_app, take_take, Nat.min_l, Hst, bind_Ok by done. reflexivity.
Qed.
End writer.

(** ** A member of the stream *)

Section reading.
Context {W : Type} `{Hsink : SinkLaws W}.

(** The rest of an extraction, the cursor being at the member. *)
Definition at_member index entry : stateM (RarArchive * W) rar_error Z :=
  if FileHeader.is_directory (file_header entry) then _ ← set_next (index + 1); mret 0
  else
    '(written, bytes) ← (if stored (file_header entry) then copy_stored fuel segments lim entry else solid_hashing fuel segments lim entry);
    _ ← verify_member entry bytes;
    _ ← set_next (index + 1);
    mret written.

(** The bytes of the member, before they are checked. *)
Lemma bytes_ok index entry a st (w : W) : ms !! index = Some entry -> behind index st a ->
  match (if stored (file_header entry) then stored_bytes (store_copy_limit lim (file_header entry)) (FileHeader.name (file_header entry)) (packed entry) else fst <$> decoded entry st) with
  | Ok out => exists slot w' st', (if stored (file_header entry) then copy_stored fuel segments lim entry else solid_hashing fuel segments lim entry) (a, w) =
      (Ok (zlen out, out), (set_solid_decoder slot a, w')) /\ written w' = written w ++ out /\ pass entry st = Ok st' /\ slot_ok slot st' (room lim (take (S index) ms))
  | Err e => (exists slot w', (if stored (file_header entry) then copy_stored fuel segments lim entry else solid_hashing fuel segments lim entry) (a, w) = (Err e, (set_solid_decoder slot a, w'))) /\
      is_refusal e = false
  | Panic => True
  end.
Proof using Hsearch Hgrant Hlim Hcovered Hroom.
  intros Hi Hb. pose proof (covered_at index entry Hi) as Hcov. destruct (room_bounds index entry Hi) as (Hn & Hfit & Hnext). pose proof Hb as (_ & _ & Hslot).
  unfold pass. destruct (stored (file_header entry)) eqn:Hs.
  - pose proof (copy_stored_ok fuel segments lim entry a w Hcov ltac:(unfold MAX_INCREMENTAL_LZ_MATCH in *; lia)) as Hrun.
    assert (Hsame : set_solid_decoder (solid_decoder a) a = a) by (by destruct a).
    destruct (stored_bytes _ _ _) as [out|e|] eqn:E; [| |done].
    + destruct Hrun as (w' & -> & Hw). exists (solid_decoder a), w', st. rewrite Hsame. split; [done|]. split; [done|]. split; [done|].
      pose proof (member_passed (W := W) index entry a st w Hi Hb) as Hpass. unfold pass, pass_over in Hpass. rewrite Hs in Hpass. destruct Hpass as (slot & [= Heq] & Hslot').
      by rewrite Heq.
    + destruct Hrun as (w' & ->). split; [exists (solid_decoder a), w'; by rewrite Hsame|]. revert E. unfold stored_bytes. repeat case_match; intros [=]; by subst.
  - pose proof (solid_hashing_ok fuel segments lim Hgrant Hlim entry a st w _ Hcov Hs Hn Hslot Hfit) as Hrun. rewrite Hnext.
    destruct (decoded entry st) as [[out st']|e|]; [|exact Hrun | done].
    destruct Hrun as (slot & w' & -> & Hw & Hslot'). by exists slot, w', st'.
Qed.

Lemma at_member_ok index entry a st (w : W) : ms !! index = Some entry -> passed (take index ms) None = Ok st ->
  enforce_archive_member_limits lim (file_header entry) = Ok tt -> behind index st a ->
  match member_bytes segments lim checked entry st with
  | Ok bytes => exists a' w', at_member index entry (a, w) = (Ok (zlen bytes), (a', w')) /\ written w' = written w ++ bytes /\ stands (At (index + 1)) a'
  | Err e => (exists a' w', at_member index entry (a, w) = (Err e, (a', w')) /\ unharmed a') /\ is_refusal e = false
  | Panic => True
  end.
Proof using Hsearch Hgrant Hlim Hcovered Hroom.
  intros Hi Hst Hl Hb. pose proof (lookup_lt_Some _ _ _ Hi) as Hlen. unfold at_member, member_bytes.
  assert (Hstands : forall slot st', pass entry st = Ok st' -> slot_ok slot st' (room lim (take (S index) ms)) ->
    stands (At (index + 1)) (set_solid_next_index (index + 1) (set_solid_decoder slot a))).
  { intros slot st' Hp Hslot. rewrite Nat.add_1_r. split; [lia|]. exists st'. split; [by apply (passed_next index entry st)|]. by apply (behind_slot (S index) st st' slot a index). }
  destruct (FileHeader.is_directory (file_header entry)) eqn:Hdir.
  { pose proof (covered_at index entry Hi) as (_ & _ & _ & _ & Hstored). pose proof (member_passed (W := W) index entry a st w Hi Hb) as Hpass.
    assert (Hp : pass entry st = Ok st) by (unfold pass; by rewrite Hstored). rewrite Hp in Hpass. destruct Hpass as (slot & Hrun & Hslot).
    unfold pass_over in Hrun. rewrite Hstored in Hrun by done. injection Hrun as Ha. eexists _, w. split; [reflexivity|]. split; [by rewrite app_nil_r|].
    cbn [fst snd]. rewrite Ha. by apply (Hstands slot st). }
  pose proof (bytes_ok index entry a st w Hi Hb) as Hbytes. set (run := if stored _ then copy_stored _ _ _ _ else _) in *. clearbody run.
  destruct (if stored _ then stored_bytes _ _ _ else _) as [out|e|]; [| |done].
  - destruct Hbytes as (slot & w' & st' & Hrun & Hw & Hp & Hslot). rewrite bind_Ok, (bind_run _ _ _ _ _ Hrun).
    assert (Hv : verify (set_solid_decoder slot a) = checked) by (destruct Hb as ((_ & _ & _ & Hv & _) & _); exact Hv).
    pose proof (verify_run checked entry out (set_solid_decoder slot a) w' Hv) as Hver.
    destruct (verified checked entry out) as [[]|e|] eqn:E; [| |by apply verified_defined in E].
    + rewrite (bind_run _ _ _ _ _ Hver). eexists _, w'. split; [reflexivity|]. split; [exact Hw|]. by apply (Hstands slot st').
    + split; [|by apply (verified_fails checked _ _ _ E)]. rewrite (bind_run_err _ _ _ _ _ Hver). eexists _, w'. split; [reflexivity|]. by destruct Hb.
  - destruct Hbytes as [(slot & w' & Hrun) Href]. split; [|exact Href]. exists (set_solid_decoder slot a), w'. rewrite (bind_run_err _ _ _ _ _ Hrun). split; [done|]. by destruct Hb.
Qed.

(** A failed check leaves the cursor at the member and the decoder behind it:
    what [poison_on_error] is there for. *)
Lemma failed_check_leaves_cursor index entry a st (w : W) bytes e : ms !! index = Some entry -> behind index st a -> FileHeader.is_directory (file_header entry) = false ->
  (if stored (file_header entry) then stored_bytes (store_copy_limit lim (file_header entry)) (FileHeader.name (file_header entry)) (packed entry) else fst <$> decoded entry st) = Ok bytes ->
  verified checked entry bytes = Err e -> exists slot w' st', at_member index entry (a, w) = (Err e, (set_solid_decoder slot a, w')) /\
    solid_next_index (set_solid_decoder slot a) = index /\ pass entry st = Ok st' /\ slot_ok slot st' (room lim (take (S index) ms)).
Proof using Hsearch Hgrant Hlim Hcovered Hroom Hsink.
  intros Hi Hb Hdir Hbytes Hfail. pose proof (bytes_ok index entry a st w Hi Hb) as Hrun. rewrite Hbytes in Hrun. destruct Hrun as (slot & w' & st' & Hrun & _ & Hp & Hslot).
  exists slot, w', st'. destruct Hb as ((_ & _ & _ & Hv & _) & Hnext & _). split; [|done]. unfold at_member. rewrite Hdir, (bind_run _ _ _ _ _ Hrun).
  pose proof (verify_run checked entry bytes (set_solid_decoder slot a) w' Hv) as Hver. rewrite Hfail in Hver. by rewrite (bind_run_err _ _ _ _ _ Hver).
Qed.

(** A request for a member of the stream. *)
Lemma local_run index entry a (w : W) : ms !! index = Some entry -> unharmed a -> reject_link_member_without_file_target entry = Ok tt ->
  enforce_archive_member_limits lim (file_header entry) = Ok tt ->
  extract_member_solid_to_writer_local fuel segments index (a, w) =
  (_ ← advance_solid_cursor_to fuel segments index (file_header entry); at_member index entry) (a, w).
Proof.
  intros Hi (Hsolid & Hms & Hl & _) Hlink Hlimits. unfold extract_member_solid_to_writer_local, member_at, get_archive.
  rewrite (bind_run _ _ (a, w) entry (a, w)) by (rewrite bind_gets; cbn [fst]; by rewrite Hms, Hi). rewrite bind_gets. cbn [fst].
  rewrite Hlink, (bind_run (lift (Ok tt)) _ (a, w) tt (a, w) eq_refl), Hsolid. cbn [negb].
  rewrite Hl, Hlimits, (bind_run (lift (Ok tt)) _ (a, w) tt (a, w) eq_refl). reflexivity.
Qed.

Lemma local_ok next index entry a st (w : W) : ms !! index = Some entry -> behind next st a -> (next <= length ms)%nat -> passed (take next ms) None = Ok st ->
  reject_link_member_without_file_target entry = Ok tt -> enforce_archive_member_limits lim (file_header entry) = Ok tt ->
  match (if (index <? next)%nat then Err (order_violation next (file_header entry)) else content index entry) with
  | Ok bytes => exists a' w', extract_member_solid_to_writer_local fuel segments index (a, w) = (Ok (zlen bytes), (a', w')) /\
      written w' = written w ++ bytes /\ stands (At (index + 1)) a'
  | Err e => exists a' w', extract_member_solid_to_writer_local fuel segments index (a, w) = (Err e, (a', w')) /\ unharmed a' /\ (is_refusal e = true -> a' = a)
  | Panic => True
  end.
Proof using Hsearch Hgrant Hlim Hcovered Hroom.
  intros Hi Hb Hle Hst Hlink Hl. pose proof Hb as (Hu & Hnext & _). pose proof (lookup_lt_Some _ _ _ Hi) as Hlen. rewrite (local_run index entry a w Hi Hu Hlink Hl).
  destruct (Nat.ltb_spec index next) as [Hlt|Hge].
  - exists a, w. rewrite (bind_run_err _ _ _ _ _ (cursor_refuses index (file_header entry) a w ltac:(lia))), Hnext. done.
  - pose proof (cursor_ok index (file_header entry) next a st w ltac:(lia) Hb Hge) as Hcursor. rewrite (passed_from next index st Hge Hst) in Hcursor. unfold content.
    destruct (passed (take index ms) None) as [st1|e|] eqn:Hst1; [| |done].
    + destruct Hcursor as (a1 & Hrun & Hb1). rewrite bind_Ok, (bind_run _ _ _ _ _ Hrun).
      pose proof (at_member_ok index entry a1 st1 w Hi Hst1 Hl Hb1) as Hmember. destruct (member_bytes _ _ _ _ _) as [bytes|e|]; [exact Hmember | | done].
      destruct Hmember as [(a' & w' & -> & Hu') Href]. exists a', w'. split; [done|]. split; [done|]. by rewrite Href.
    + destruct Hcursor as [(a1 & Hrun & Hu1) Href]. exists a1, w. rewrite (bind_run_err _ _ _ _ _ Hrun). split; [done|]. split; [done|]. by rewrite Href.
Qed.

(** ** Requests *)

Lemma stands_members p a : stands p a -> members a = ms.
Proof. destruct p; [intros (_ & st & _ & (_ & Hms & _) & _); exact Hms | intros (_ & Hms & _); exact Hms]. Qed.

Lemma reset_stands a : is_solid a = true -> members a = ms -> limits a = lim -> verify a = checked -> stands (At 0) (reset_solid_state a).
Proof. intros Hsolid Hms Hl Hv. split; [lia|]. by exists None. Qed.
Lemma stands_reset p a : stands p a -> stands (At 0) (reset_solid_state a).
Proof.
  destruct p; [intros (_ & st & _ & (Hsolid & Hms & Hl & Hv & _) & _) | intros (Hsolid & Hms & Hl & Hv & _)]; by apply reset_stands.
Qed.
Lemma stands_solid p a : stands p a -> is_solid a = true.
Proof. destruct p; [intros (_ & st & _ & (Hsolid & _) & _); exact Hsolid | intros (Hsolid & _); exact Hsolid]. Qed.

(** What a call owes to a request at [p]. *)
Definition kept (p : position) (index : nat) (w : W) (o : outcome rar_error Z) (a' : RarArchive) (w' : W) : Prop :=
  match answer segments lim checked ms p index with
  | (Ok bytes, p') => o = Ok (zlen bytes) /\ written w' = written w ++ bytes /\ stands p' a'
  | (Err e, p') => o = Err e /\ stands p' a'
  | (Panic, _) => True
  end.

(** A failure that is no refusal poisons the archive. *)
Lemma poison_ok index entry next a e (m : stateM (RarArchive * W) rar_error Z) (w : W) a' w' : ms !! index = Some entry -> stands (At next) a ->
  m (a, w) = (Err e, (a', w')) -> unharmed a' -> (is_refusal e = true -> a' = a) ->
  exists a2, poison_on_error index m (a, w) = (Err e, (a2, w')) /\ stands (if is_refusal e then At next else Poisoned index) a2.
Proof.
  intros Hi Hstands Hrun (Hsolid & Hms & Hl & Hv & Hp) Href. unfold poison_on_error. rewrite Hrun. eexists. split; [reflexivity|].
  unfold member_is_solid_at. rewrite Hms, Hi. unfold member_is_solid. rewrite Hsolid, (bool_decide_true _ Hp). cbn [orb andb].
  destruct (is_refusal e); cbn [negb andb]; [by rewrite Href | done].
Qed.

(** Either route into the stream, guarded. *)
Definition guarded (m : nat -> stateM (RarArchive * W) rar_error Z) (index : nat) : stateM (RarArchive * W) rar_error Z :=
  _ ← check_solid_poison index; poison_on_error index (m index).

Lemma guarded_ok (m : nat -> stateM (RarArchive * W) rar_error Z) p index entry a (w : W) : ms !! index = Some entry -> stands p a ->
  (forall next st, behind next st a -> (next <= length ms)%nat -> passed (take next ms) None = Ok st ->
    match asked segments lim checked ms next index entry with
    | Ok bytes => exists a' w', m index (a, w) = (Ok (zlen bytes), (a', w')) /\ written w' = written w ++ bytes /\ stands (At (index + 1)) a'
    | Err e => exists a' w', m index (a, w) = (Err e, (a', w')) /\ unharmed a' /\ (is_refusal e = true -> a' = a)
    | Panic => True
    end) ->
  exists o a' w', guarded m index (a, w) = (o, (a', w')) /\ kept p index w o a' w'.
Proof.
  intros Hi Hstands Hm. unfold guarded, kept, answer. rewrite Hi. destruct p as [next|member].
  - pose proof Hstands as (Hle & st & Hst & Hb). specialize (Hm next st Hb Hle Hst). pose proof Hb as ((Hsolid & Hms & Hl & Hv & Hp) & _).
    assert (Hcheck : check_solid_poison index (a, w) = (Ok tt, (a, w))).
    { unfold check_solid_poison, get_archive. rewrite bind_gets. cbn [fst]. rewrite Hp. by destruct (negb _). }
    rewrite (bind_run _ _ _ _ _ Hcheck). destruct (asked _ _ _ _ _ _ _) as [bytes|e|].
    + destruct Hm as (a' & w' & Hrun & Hw & Hs'). exists (Ok (zlen bytes)), a', w'. unfold poison_on_error. by rewrite Hrun.
    + destruct Hm as (a' & w' & Hrun & Hu & Href). destruct (poison_ok index entry next a e (m index) w a' w' Hi Hstands Hrun Hu Href) as (a2 & -> & Hs2).
      by exists (Err e), a2, w'.
    + destruct (poison_on_error index (m index) (a, w)) as [o [a' w']]. by exists o, a', w'.
  - pose proof Hstands as (Hsolid & Hms & _ & _ & Hp). exists (Err (SolidStatePoisoned (decimal member))), a, w. split; [|done].
    assert (Hcheck : check_solid_poison index (a, w) = (Err (SolidStatePoisoned (decimal member)), (a, w))).
    { unfold check_solid_poison, get_archive. rewrite bind_gets. cbn [fst]. unfold member_is_solid_at, member_is_solid. by rewrite Hms, Hi, Hsolid, Hp. }
    by rewrite (bind_run_err _ _ _ _ _ Hcheck).
Qed.

(** The checks before the cursor. *)
Lemma local_asked next index entry a st (w : W) : ms !! index = Some entry -> behind next st a -> (next <= length ms)%nat -> passed (take next ms) None = Ok st ->
  match asked segments lim checked ms next index entry with
  | Ok bytes => exists a' w', extract_member_solid_to_writer_local fuel segments index (a, w) = (Ok (zlen bytes), (a', w')) /\
      written w' = written w ++ bytes /\ stands (At (index + 1)) a'
  | Err e => exists a' w', extract_member_solid_to_writer_local fuel segments index (a, w) = (Err e, (a', w')) /\ unharmed a' /\ (is_refusal e = true -> a' = a)
  | Panic => True
  end.
Proof using Hsearch Hgrant Hlim Hcovered Hroom.
  intros Hi Hb Hle Hst. pose proof Hb as (Hu & _). pose proof Hu as (Hsolid & Hms & Hl & _). unfold asked.
  assert (Hentry : member_at index (a, w) = (Ok entry, (a, w))) by (unfold member_at, get_archive; rewrite bind_gets; cbn [fst]; by rewrite Hms, Hi).
  destruct (reject_link_member_without_file_target entry) as [[]|e|] eqn:Hlink; [rewrite bind_Ok | | by apply link_defined in Hlink].
  - destruct (enforce_archive_member_limits lim (file_header entry)) as [[]|e|] eqn:Hlimits; [rewrite bind_Ok | | by apply limits_defined in Hlimits].
    + by apply (local_ok next index entry a st w).
    + exists a, w. split; [|split; [exact Hu | by rewrite (limits_fail lim _ _ Hlimits)]]. unfold extract_member_solid_to_writer_local.
      rewrite (bind_run _ _ _ _ _ Hentry). unfold get_archive. rewrite bind_gets. cbn [fst].
      rewrite Hlink, (bind_run (lift (Ok tt)) _ (a, w) tt (a, w) eq_refl), Hsolid. cbn [negb]. by rewrite Hl, Hlimits.
  - exists a, w. split; [|split; [exact Hu | by rewrite (link_fails _ _ Hlink)]]. unfold extract_member_solid_to_writer_local.
    rewrite (bind_run _ _ _ _ _ Hentry). unfold get_archive. rewrite bind_gets. cbn [fst]. by rewrite Hlink.
Qed.

Lemma attached_local index entry a (w : W) : ms !! index = Some entry -> unharmed a ->
  extract_member_attached_to_writer fuel segments index (a, w) = extract_member_solid_to_writer_local fuel segments index (a, w).
Proof.
  intros Hi (Hsolid & Hms & Hl & _).
  assert (Hentry : member_at index (a, w) = (Ok entry, (a, w))) by (unfold member_at, get_archive; rewrite bind_gets; cbn [fst]; by rewrite Hms, Hi).
  unfold extract_member_attached_to_writer. rewrite (bind_run _ _ _ _ _ Hentry). unfold get_archive at 1. rewrite bind_gets. cbn [fst].
  unfold member_is_solid. rewrite Hsolid. cbn [orb negb]. rewrite !andb_false_r.
  destruct (reject_link_member_without_file_target entry) as [[]|e|] eqn:Hlink; [| |by apply link_defined in Hlink].
  - rewrite (bind_run (lift (Ok tt)) _ (a, w) tt (a, w) eq_refl).
    destruct (enforce_archive_member_limits (limits a) (file_header entry)) as [[]|e|] eqn:Hlimits; [reflexivity | | by rewrite Hl in Hlimits; apply limits_defined in Hlimits].
    unfold extract_member_solid_to_writer_local. rewrite (bind_run _ _ _ _ _ Hentry). unfold get_archive. rewrite bind_gets. cbn [fst].
    rewrite Hlink, (bind_run (lift (Ok tt)) _ (a, w) tt (a, w) eq_refl), Hsolid. cbn [negb]. by rewrite Hlimits.
  - unfold extract_member_solid_to_writer_local. rewrite (bind_run _ _ _ _ _ Hentry). unfold get_archive. rewrite bind_gets. cbn [fst]. by rewrite Hlink.
Qed.

Lemma copy_to_ok p index a (w : W) : stands p a -> exists o a' w', copy_to fuel segments index (a, w) = (o, (a', w')) /\ kept p index w o a' w'.
Proof using Hsearch Hgrant Hlim Hcovered Hroom.
  intros Hstands. pose proof (stands_members p a Hstands) as Hms.
  destruct (ms !! index) as [entry|] eqn:Hi.
  - assert (Hby : by_index index (a, w) = (Ok entry, (a, w))) by (unfold by_index, get_archive; rewrite bind_gets; cbn [fst]; by rewrite Hms, Hi).
    assert (Hrun : copy_to fuel segments index (a, w) = guarded (extract_member_attached_to_writer fuel segments) index (a, w)).
    { unfold copy_to. rewrite (bind_run _ _ _ _ _ Hby). reflexivity. }
    rewrite Hrun. refine (guarded_ok (extract_member_attached_to_writer fuel segments) p index entry a w Hi Hstands _).
    intros next st Hb Hle Hst. pose proof Hb as (Hu & _). rewrite (attached_local index entry a w Hi Hu). by apply (local_asked next index entry a st w).
  - exists (Err (MemberIndexOutOfRange (Z.of_nat index) (zlen ms))), a, w. unfold kept, answer. rewrite Hi. split; [|done].
    unfold copy_to, by_index, get_archive. unfold mbind, stateM_bind, gets, lift. cbn [fst]. by rewrite Hms, Hi.
Qed.
End reading.

Lemma skip_ok p index a : stands p a -> exists o a', skip fuel segments index a = (o, a') /\
  match answer segments lim checked ms p index with
  | (Ok bytes, p') => o = Ok (zlen bytes) /\ stands p' a'
  | (Err e, p') => o = Err e /\ stands p' a'
  | (Panic, _) => True
  end.
Proof using Hsearch Hgrant Hlim Hcovered Hroom.
  intros Hstands. pose proof (stands_members p a Hstands) as Hms.
  destruct (ms !! index) as [entry|] eqn:Hi.
  - assert (Hrun : skip fuel segments index a = let '(o, (a', _)) := guarded (W := list byte) (extract_member_solid_to_writer_local (H4 := sink_instance) fuel segments) index (a, []) in (o, a')).
    { unfold skip, by_index, get_archive. unfold mbind at 1, stateM_bind at 1, gets at 1, lift at 1. unfold mbind at 1, stateM_bind at 1. cbn [fst]. rewrite Hms, Hi.
      rewrite bind_gets. cbn [fst]. unfold member_is_solid_at, member_is_solid. rewrite Hms, Hi. rewrite (stands_solid p a Hstands). reflexivity. }
    rewrite Hrun.
    destruct (guarded_ok (H5 := sink_instance) (Hsink := swallowing) (extract_member_solid_to_writer_local (H4 := sink_instance) fuel segments) p index entry a [] Hi Hstands) as (o & a' & w' & -> & Hkept).
    { intros next st Hb Hle Hst. by apply (local_asked (H5 := sink_instance) (Hsink := swallowing) next index entry a st []). }
    exists o, a'. split; [done|]. unfold kept in Hkept. destruct (answer _ _ _ _ _ _) as [[bytes|e|] p']; [|exact Hkept | done].
    destruct Hkept as (Ho & _ & Hs). done.
  - exists (Err (MemberIndexOutOfRange (Z.of_nat index) (zlen ms))), a. unfold answer. rewrite Hi. split; [|done].
    unfold skip, by_index, get_archive. unfold mbind, stateM_bind, gets, lift. cbn [fst]. by rewrite Hms, Hi.
Qed.
End solid.

(** ** A caller *)

Inductive request := CopyTo (index : nat) | Skip (index : nat) | Reset.

Section caller.
Context {Rd W : Type} `{SourceLaws Rd} `{SinkLaws W} `{ByteSearchLaws} `{ZeroedAlloc} `{OlderFormats Rd} `{Hashers} (fuel : nat) (segments : MemberEntry -> Rd).

Definition perform (r : request) : stateM (RarArchive * W) rar_error Z :=
  match r with
  | CopyTo index => copy_to fuel segments index
  | Skip index => on_fst (skip fuel segments index)
  | Reset => _ ← on_fst (modify reset_solid_state); mret 0
  end.
Definition respond (a0 : RarArchive) (p : position) (r : request) : result (list byte) * position :=
  match r with
  | CopyTo index | Skip index => answer segments (limits a0) (verify a0) (members a0) p index
  | Reset => (Ok [], At 0)
  end.
Definition delivered (r : request) (bytes : list byte) : list byte := match r with CopyTo _ => bytes | _ => [] end.

(** The answers to some requests, each with a writer of its own, are those of
    [a0]'s specification from [p] on, as long as it defines them. *)
Fixpoint obeys (a0 : RarArchive) (requests : list (request * W)) (p : position) (a : RarArchive) : Prop :=
  match requests with
  | [] => True
  | (r, w) :: requests =>
    let '(o, (a', w')) := perform r (a, w) in
    match respond a0 p r with
    | (Ok bytes, p') => o = Ok (zlen bytes) /\ written w' = written w ++ delivered r bytes /\ obeys a0 requests p' a'
    | (Err e, p') => o = Err e /\ obeys a0 requests p' a'
    | (Panic, _) => True
    end
  end.
End caller.

(** C2: a solid archive is one stream: whatever members a caller asks for or
    skips, in whatever order, with resets anywhere between, each request that
    succeeds delivers exactly the bytes the member has when the archive is
    decoded from its first member on, and returns their number; a request
    behind the cursor is refused and changes nothing; a failure poisons the
    archive for every request up to the next reset, and after the reset the
    archive answers as a fresh one. *)
Theorem solid_archive_is_one_stream {Rd W} `{SourceLaws Rd} `{SinkLaws W} `{ByteSearchLaws} `{ZeroedAlloc} `{OlderFormats Rd} `{Hashers}
    (fuel : nat) (segments : MemberEntry -> Rd) (a : RarArchive) (requests : list (request * W)) :
  (forall n, alloc_zeroed n = true) -> max_dict_size (limits a) < 2 ^ 63 ->
  Forall (covered fuel segments (limits a)) (members a) -> room (limits a) (members a) < 2 ^ 63 ->
  is_solid a = true -> reset_solid_state a = a -> obeys fuel segments a requests (At 0) a.
Proof.
  intros Hgrant Hlim Hcovered Hroom Hsolid Hopen.
  cut (forall requests p b, stands segments (limits a) (verify a) (members a) p b -> obeys fuel segments a requests p b).
  { intros Hall. apply Hall. rewrite <- Hopen. by apply reset_stands. }
  clear requests Hopen. induction requests as [|[r w] requests IH]; intros p b Hb; [done|]. cbn [obeys].
  destruct r as [index|index|]; cbn [perform respond delivered].
  - destruct (copy_to_ok fuel segments (limits a) (verify a) (members a) Hgrant Hlim Hcovered Hroom p index b w Hb) as (o & b' & w' & -> & Hkept). unfold kept in Hkept.
    destruct (answer _ _ _ _ _ _) as [[bytes|e|] p']; [| |done].
    + destruct Hkept as (Ho & Hw & Hb'). split; [exact Ho|]. split; [exact Hw | by apply IH].
    + destruct Hkept as (Ho & Hb'). split; [exact Ho | by apply IH].
  - destruct (skip_ok fuel segments (limits a) (verify a) (members a) Hgrant Hlim Hcovered Hroom p index b Hb) as (o & b' & Hrun & Hkept).
    unfold on_fst. cbn [fst snd]. rewrite Hrun. destruct (answer _ _ _ _ _ _) as [[bytes|e|] p']; [| |done].
    + destruct Hkept as (Ho & Hb'). split; [exact Ho|]. split; [by rewrite app_nil_r | by apply IH].
    + destruct Hkept as (Ho & Hb'). split; [exact Ho | by apply IH].
  - split; [done|]. split; [by rewrite app_nil_r|]. apply IH. by eapply stands_reset.
Qed.

(** A directory, a compressed member, a stored one, and a compressed one that
    continues the stream with the tables and the history of the first. *)
Definition sample_header (name : Z) (method : CompressionMethod.t) (size : option Z) (crc : option Z) (directory : bool) : FileHeader.t :=
  FileHeader.mk [name] None size 0 None None None crc None (CompressionInfo.mk RarTypes.Rar5 0 true method 0x20000) HostOs.Unix directory 0 0 false false 0 false None None.
Definition sample_members : list MemberEntry :=
  [mk_entry (sample_header 0 CompressionMethod.Store (Some 0) None true) None None;
   mk_entry (sample_header 1 CompressionMethod.Normal (Some 13) (Some 13) false) None None;
   mk_entry (sample_header 2 CompressionMethod.Store (Some 5) None false) None None;
   mk_entry (sample_header 3 CompressionMethod.Normal (Some 6) None false) (Some (Blake2sp [x62])) None].
Definition sample_segments (entry : MemberEntry) : list byte :=
  match FileHeader.name (file_header entry) with
  | [1] => sample_stream
  | [2] => [x68; x65; x6c; x6c; x6f]
  | [3] => [x49; x11; x02; x00; xa7; x40]
  | _ => []
  end.
Definition sample_archive : RarArchive := mk_archive true sample_members None 0 None (mk_limits 0x1000000 0x1000000 0x10000000) true.
#[export] Instance toy_hashers : Hashers := {| crc32_of := zlen; blake2sp_of bytes := take 1 bytes |}.
#[export] Instance no_older : OlderFormats (list byte) := fun V _ _ _ _ => fails (UnsupportedFormat 0).
Definition sample_content (index : nat) : option (result (list byte)) :=
  content sample_segments (limits sample_archive) true sample_members index <$> sample_members !! index.

Lemma solid_archive_is_one_stream_witness :
  sample_content 1 = Some (Ok sample_output) /\ sample_content 3 = Some (Ok [x62; x61; x61; x61; x61; x62]) /\
  obeys (W := list byte) 400 sample_segments sample_archive [(CopyTo 3, []); (CopyTo 1, []); (Skip 9, []); (Reset, []); (CopyTo 1, []); (CopyTo 2, []); (Skip 3, [])] (At 0) sample_archive.
Proof.
  split; [vm_compute; reflexivity|]. split; [vm_compute; reflexivity|].
  apply (@solid_archive_is_one_stream (list byte) (list byte) threes threes_ok collect collect_ok scanning scanning_laws grant_all no_older toy_hashers 400 sample_segments sample_archive).
  - reflexivity.
  - reflexivity.
  - repeat constructor; vm_compute; discriminate || reflexivity || (intros [=]) || idtac.
  - vm_compute. reflexivity.
  - reflexivity.
  - reflexivity.
Defined.

(** A link is refused before the decoder is touched, and poisons all the same. *)
Lemma refused_link_poisons {Rd W} `{Source Rd} `{Sink W} `{ByteSearch} `{ZeroedAlloc} `{OlderFormats Rd} `{Hashers} fuel (segments : MemberEntry -> Rd) index entry kind a (w : W) :
  is_solid a = true -> members a !! index = Some entry -> redirection entry = Some kind -> solid_poison a = None -> exists reason,
  copy_to fuel segments index (a, w) = (Err (UnsupportedLinkType (FileHeader.name (file_header entry)) reason), (set_solid_poison (Some index) a, w)).
Proof.
  intros Hsolid Hi Hlink Hp. eexists. unfold copy_to, by_index, check_solid_poison, get_archive, member_is_solid_at, member_is_solid.
  rewrite (bind_run _ _ (a, w) entry (a, w)) by (rewrite bind_gets; cbn [fst]; by rewrite Hi).
  rewrite (bind_run _ _ (a, w) tt (a, w)) by (rewrite bind_gets; cbn [fst]; rewrite Hi, Hsolid, Hp; done).
  unfold poison_on_error, extract_member_attached_to_writer, member_at, get_archive.
  rewrite (bind_run _ _ (a, w) entry (a, w)) by (rewrite bind_gets; cbn [fst]; by rewrite Hi).
  rewrite bind_gets. cbn [fst]. unfold reject_link_member_without_file_target. rewrite Hlink.
  unfold lift, mbind, stateM_bind. cbn. unfold member_is_solid_at, member_is_solid. rewrite Hi, Hsolid, Hp. reflexivity.
Qed.
