(* ===== verification/ExtractPlain.v ===== *)
(** Extraction outside solid archives: the decoder is shared, the members are
    independent all the same, across failures as well. *)
From S2P Require Import Prelude RarTypes Text StateM BitString HeaderFile LzBits LzHuffman LzTables LzWindow LzOutput LzFilter LzFilterProps LzStreamReader LzDecoder LzReference LzContinue LzSimulation LzDecoderProps.
From S2P Require Import LzReaders LzWindowProps Extract ExtractSpec ExtractProps.
Local Abbreviation written := LzOutput.written.

Section plain.
Context {Rd : Type} `{SourceLaws Rd} `{Hsearch : ByteSearchLaws} `{ZeroedAlloc} `{OlderFormats Rd} `{Hashers} (fuel : nat).
Context (segments : MemberEntry -> Rd) (lim : Limits) (checked : bool) (ms : list MemberEntry).
Context (Hgrant : forall n, alloc_zeroed n = true) (Hlim : max_dict_size lim < 2 ^ 63).
Local Abbreviation packed entry := (src_rest (segments entry)).
Local Abbreviation target entry := (target_unpacked_size lim (file_header entry)).

(** ** The specification *)

(** A compressed member on its own. *)
Definition plain_start (fh : FileHeader.t) : result (Z * bool) :=
  dict ← checked_lz_dict_size (FileHeader.compression fh) (max_dict_size lim);
  extra ← LzDecoder.extra_dist_for_version (CompressionInfo.version (FileHeader.compression fh));
  mret (dict, extra).
Definition plain_unpacked entry : result (list byte) :=
  '(dict, extra) ← plain_start (file_header entry);
  '(_, out) ← ref_output dict (target entry) (fresh extra) (packed entry);
  mret out.

(** A member's bytes before they are checked. *)
Definition plain_content entry : result (list byte) :=
  if stored (file_header entry) then stored_bytes (store_copy_limit lim (file_header entry)) (FileHeader.name (file_header entry)) (packed entry)
  else plain_unpacked entry.
Definition plain_checked entry (bytes : list byte) : result unit :=
  _ ← (if stored (file_header entry) then Ok tt else enforce_unknown_lz_output_limit lim (file_header entry) (zlen bytes));
  verified checked entry bytes.

(** A member's bytes, and the number reported for them. *)
Definition plain_bytes entry : result (list byte * Z) :=
  _ ← reject_link_member_without_file_target entry;
  _ ← enforce_archive_member_limits lim (file_header entry);
  bytes ← plain_content entry;
  _ ← plain_checked entry bytes;
  mret (bytes, if stored (file_header entry) then zlen bytes else target entry).

Definition plain_answer (index : nat) : result (list byte * Z) :=
  match ms !! index with Some entry => plain_bytes entry | None => Err (MemberIndexOutOfRange (Z.of_nat index) (zlen ms)) end.

(** ** The slot *)

(** Any decoder will do, whatever its last member left. *)
Definition usable (slot : option LzDecoder.t) : Prop := match slot with Some d => shaped d | None => True end.

Lemma dict_checked info dict : checked_lz_dict_size info (max_dict_size lim) = Ok dict -> 2 * MAX_INCREMENTAL_LZ_MATCH < dict < 2 ^ 63.
Proof using Hlim.
  unfold checked_lz_dict_size, effective_lz_window_size, RAR_MIN_LZ_WINDOW_SIZE, RAR_UNPACK_MAX_DICT_SIZE, MAX_INCREMENTAL_LZ_MATCH.
  repeat (case_match; try done). intros [= <-]. lia.
Qed.

Lemma ready_shaped dict s d : ready dict s d -> shaped d.
Proof. intros [_ [] _ _ _]. unfold shaped. by rewrite c_lens, c_room, c_extra. Qed.

Lemma prepare_plain fh slot : usable slot ->
  match plain_start fh with
  | Ok (dict, extra) => exists d, prepare_rar5_member_decoder fh (max_dict_size lim) slot = Ok d /\ ready dict (fresh extra) d /\ 2 * MAX_INCREMENTAL_LZ_MATCH < dict < 2 ^ 63
  | Err e => prepare_rar5_member_decoder fh (max_dict_size lim) slot = Err e
  | Panic => False
  end.
Proof using Hgrant Hlim.
  intros Hslot. unfold plain_start, prepare_rar5_member_decoder.
  destruct (checked_lz_dict_size _ _) as [dict|e|] eqn:Hdict; [|done|].
  2: { revert Hdict. unfold checked_lz_dict_size. by repeat case_match. }
  apply dict_checked in Hdict. rewrite !bind_Ok. assert (Hpos : 0 < dict < 2 ^ 63) by (unfold MAX_INCREMENTAL_LZ_MATCH in Hdict; lia).
  set (version := CompressionInfo.version _). destruct (LzDecoder.extra_dist_for_version version) as [extra|e|] eqn:E.
  - rewrite bind_Ok. destruct slot as [old|].
    + destruct (reuse_granted Hgrant dict version extra old Hpos Hslot E) as (d & Hrun & Hready). by exists d.
    + destruct (new_granted Hgrant dict version extra Hpos E) as (d & Hrun & Hready). by exists d.
  - destruct slot; [unfold LzDecoder.prepare_reuse | unfold LzDecoder.try_new]; by rewrite E.
  - revert E. unfold LzDecoder.extra_dist_for_version. by repeat case_match.
Qed.

(** A compressed member, into any writer; the slot stays usable. *)
Lemma plain_decode_ok {V} `{Hsink : SinkLaws V} entry slot (v : V) : covered fuel segments lim entry -> target entry + MAX_INCREMENTAL_LZ_MATCH < 2 ^ 63 -> usable slot ->
  exists o slot' v', decode_reader_to_writer fuel lim (segments entry) (target entry) (file_header entry) (slot, v) = (o, (slot', v')) /\ usable slot' /\
  match plain_unpacked entry with
  | Ok out => o = Ok (zlen out) /\ written v' = written v ++ out
  | Err e => o = Err e
  | Panic => True
  end.
Proof using Hsearch Hgrant Hlim.
  intros (Hformat & Htarget & Hbits & Hfuel & _) Hroom Hslot. unfold plain_unpacked, decode_reader_to_writer.
  pose proof (prepare_plain (file_header entry) slot Hslot) as Hprep. destruct (plain_start (file_header entry)) as [[dict extra]|e|]; [| |done].
  2: { exists (Err e), slot, v. split; [|done]. unfold prepare, mbind, stateM_bind, gets, lift. cbn [fst snd]. by rewrite Hprep. }
  destruct Hprep as (d & Hprep & Hready & Hdict). rewrite bind_Ok.
  rewrite (bind_run _ _ _ tt (Some d, v)) by (unfold prepare, mbind, stateM_bind, gets, lift; cbn [fst snd]; by rewrite Hprep).
  unfold on_decoder. cbn [fst snd]. pose proof (decoding_keeps_shape fuel (segments entry) (target entry) d v (ready_shaped _ _ _ Hready)) as Hshape.
  assert (Hok : sizes_ok dict (target entry) (fresh extra) (packed entry)).
  { split; [exact Hdict|]. split; [exact Htarget|]. split; [change (zlen (r_hist (fresh extra))) with 0; lia | exact Hbits]. }
  pose proof (output_refines dict (target entry) fuel (fresh extra) d v (segments entry) Hready Hok Hfuel) as Hout.
  destruct (LzDecoder.decompress_reader_to_writer fuel (segments entry) (target entry) (d, v)) as [o [d' v']]. exists o, (Some d'), v'. split; [done|]. split; [exact Hshape|].
  destruct (ref_output dict (target entry) (fresh extra) (packed entry)) as [[s' out]|e|]; [| |done].
  - destruct Hout as (d1 & v1 & [= -> -> ->] & Hv & _). done.
  - destruct Hout as ([d1 v1] & [= -> _ _]). done.
Qed.

(** ** Where an archive stands *)

Definition separate entry : Prop := covered fuel segments lim entry /\ target entry + MAX_INCREMENTAL_LZ_MATCH < 2 ^ 63 /\ CompressionInfo.solid (FileHeader.compression (file_header entry)) = false.
Definition plain (a : RarArchive) : Prop := is_solid a = false /\ members a = ms /\ limits a = lim /\ verify a = checked /\ usable (solid_decoder a).

Lemma plain_slot slot a : plain a -> usable slot -> plain (set_solid_decoder slot a).
Proof. intros (Hsolid & Hms & Hl & Hv & _) Hslot. done. Qed.
Lemma plain_reset a : plain a -> plain (reset_solid_state a).
Proof. intros (Hsolid & Hms & Hl & Hv & _). done. Qed.

Context (Hseparate : Forall separate ms).

Lemma separate_at i entry : ms !! i = Some entry -> separate entry.
Proof using Hseparate. intros Hi. by eapply (list.Forall_lookup_1 _ _ _ _ Hseparate). Qed.

Lemma not_solid i entry a : plain a -> ms !! i = Some entry -> member_is_solid a (file_header entry) = false.
Proof using Hseparate. intros (Hsolid & _) Hi. destruct (separate_at i entry Hi) as (_ & _ & Hs). unfold member_is_solid. by rewrite Hsolid, Hs. Qed.
Lemma not_solid_at i entry a : plain a -> ms !! i = Some entry -> member_is_solid_at a i = false.
Proof using Hseparate. intros Ha Hi. pose proof Ha as (_ & Hms & _). unfold member_is_solid_at. rewrite Hms, Hi. by apply (not_solid i). Qed.

Section writer.
Context {W : Type} `{Hsink : SinkLaws W}.

(** ** A member *)

(** Its bytes before they are checked, with the number of those written. *)
Definition plain_copy entry : stateM (RarArchive * W) rar_error (Z * list byte) :=
  if stored (file_header entry) then copy_stored fuel segments lim entry
  else hashing (on_slot (decode_reader_to_writer fuel lim (segments entry) (target entry) (file_header entry))).

Lemma plain_copy_ok entry a (w : W) : separate entry -> plain a -> exists o a' w', plain_copy entry (a, w) = (o, (a', w')) /\ plain a' /\
  match plain_content entry with
  | Ok out => o = Ok (zlen out, out) /\ written w' = written w ++ out
  | Err e => o = Err e
  | Panic => True
  end.
Proof using Hsearch Hgrant Hlim.
  intros (Hcov & Hroom & _) Ha. unfold plain_copy, plain_content. destruct (stored _).
  - pose proof (copy_stored_ok fuel segments lim entry a w Hcov ltac:(unfold MAX_INCREMENTAL_LZ_MATCH in *; lia)) as Hrun.
    destruct (stored_bytes _ _ _) as [out|e|]; [| |done].
    + destruct Hrun as (w' & -> & Hw). by exists (Ok (zlen out, out)), a, w'.
    + destruct Hrun as (w' & ->). by exists (Err e), a, w'.
  - pose proof Ha as (_ & _ & _ & _ & Hslot).
    destruct (plain_decode_ok (Hsink := passes_on) entry (solid_decoder a) (mk_hashing w []) Hcov Hroom Hslot) as (o & slot & hw & Hrun & Hslot' & Hpass).
    destruct (plain_decode_ok (Hsink := takes_in) entry (solid_decoder a) (mk_hashing w []) Hcov Hroom Hslot) as (o' & slot' & hw' & Hrun' & _ & Htake).
    rewrite Hrun in Hrun'. injection Hrun' as <- <- <-.
    exists ((fun n => (n, hashed hw)) <$> o), (set_solid_decoder slot a), (inner hw). split; [|split; [by apply plain_slot|]].
    { unfold hashing, on_slot. cbn [fst snd]. by rewrite Hrun. }
    destruct (plain_unpacked entry) as [out|e|]; [| |done].
    + destruct Hpass as [-> Hw], Htake as [_ Hh]. cbn in Hh. cbn. rewrite Hh. split; [done | exact Hw].
    + by rewrite Hpass.
Qed.

(** The rest of the call, the limits being kept. *)
Definition plain_rest entry : stateM (RarArchive * W) rar_error Z :=
  '(written, bytes) ← plain_copy entry;
  _ ← lift (if stored (file_header entry) then Ok tt else enforce_unknown_lz_output_limit lim (file_header entry) written);
  _ ← verify_member entry bytes;
  mret (if stored (file_header entry) then written else target entry).

(** What is checked of a member's bytes changes nothing. *)
Lemma checks_stay entry n out (last : Z) a (w : W) : verify a = checked -> exists o,
  (_ ← lift (if stored (file_header entry) then Ok tt else enforce_unknown_lz_output_limit lim (file_header entry) n); _ ← verify_member entry out; mret last) (a, w) = (o, (a, w)).
Proof.
  intros Hv. unfold mbind at 1, stateM_bind at 1, lift. destruct (if stored _ then _ else _) as [[]|e|]; [|by eexists ..].
  unfold mbind at 1, stateM_bind at 1. rewrite (verify_run checked entry out a w Hv). by destruct (verified checked entry out); eexists.
Qed.
Lemma checks_run entry bytes (last : Z) a (w : W) : verify a = checked ->
  (_ ← lift (if stored (file_header entry) then Ok tt else enforce_unknown_lz_output_limit lim (file_header entry) (zlen bytes)); _ ← verify_member entry bytes; mret last) (a, w) =
  (_ ← plain_checked entry bytes; mret last, (a, w)).
Proof.
  intros Hv. unfold plain_checked, mbind at 1, stateM_bind at 1, lift. destruct (if stored _ then _ else _) as [[]|e|]; [|done..].
  unfold mbind at 1, stateM_bind at 1. rewrite (verify_run checked entry bytes a w Hv), bind_Ok. by destruct (verified checked entry bytes).
Qed.

Lemma attached_rest index entry a (w : W) : ms !! index = Some entry -> plain a ->
  extract_member_attached_to_writer fuel segments index (a, w) =
  (_ ← lift (reject_link_member_without_file_target entry); _ ← lift (enforce_archive_member_limits lim (file_header entry)); plain_rest entry) (a, w).
Proof using Hseparate.
  intros Hi Ha. pose proof Ha as (_ & Hms & Hl & _).
  assert (Hentry : member_at index (a, w) = (Ok entry, (a, w))) by (unfold member_at, get_archive; rewrite bind_gets; cbn [fst]; by rewrite Hms, Hi).
  unfold extract_member_attached_to_writer. rewrite (bind_run _ _ _ _ _ Hentry). unfold get_archive at 1. rewrite bind_gets. cbn [fst].
  rewrite (not_solid index entry a Ha Hi), Hl. cbn [negb].
  unfold plain_rest, plain_copy. destruct (stored (file_header entry)); cbn [andb negb]; [|reflexivity].
  unfold mbind, stateM_bind, lift. destruct (reject_link_member_without_file_target entry), (enforce_archive_member_limits lim (file_header entry)); try reflexivity.
Qed.

Lemma attached_ok index entry a (w : W) : ms !! index = Some entry -> plain a -> exists o a' w',
  extract_member_attached_to_writer fuel segments index (a, w) = (o, (a', w')) /\ plain a' /\
  match plain_bytes entry with
  | Ok (bytes, n) => o = Ok n /\ written w' = written w ++ bytes
  | Err e => o = Err e
  | Panic => True
  end.
Proof using Hsearch Hgrant Hlim Hseparate.
  intros Hi Ha. rewrite (attached_rest index entry a w Hi Ha). unfold plain_bytes, mbind at 1, stateM_bind at 1, lift at 1.
  destruct (reject_link_member_without_file_target entry) as [[]|e|]; [rewrite bind_Ok | by eexists _, _, _ ..].
  unfold mbind at 1, stateM_bind at 1, lift at 1. destruct (enforce_archive_member_limits lim (file_header entry)) as [[]|e|]; [rewrite bind_Ok | by eexists _, _, _ ..].
  destruct (plain_copy_ok entry a w (separate_at index entry Hi) Ha) as (o & a' & w' & Hrun & Ha' & Hcopy). pose proof Ha' as (_ & _ & _ & Hv & _).
  unfold plain_rest. destruct (plain_content entry) as [bytes|e|].
  - destruct Hcopy as [-> Hw]. rewrite (bind_run _ _ _ _ _ Hrun), bind_Ok. rewrite (checks_run entry bytes _ a' w' Hv).
    eexists _, a', w'. split; [reflexivity|]. split; [exact Ha'|]. by destruct (plain_checked entry bytes) as [[]|e|].
  - subst o. rewrite (bind_run_err _ _ _ _ _ Hrun). by exists (Err e), a', w'.
  - destruct o as [[n out]|e|].
    + rewrite (bind_run _ _ _ _ _ Hrun). destruct (checks_stay entry n out (if stored (file_header entry) then n else target entry) a' w' Hv) as (o & ->). by exists o, a', w'.
    + rewrite (bind_run_err _ _ _ _ _ Hrun). by exists (Err e), a', w'.
    + exists Panic, a', w'. split; [|done]. unfold mbind, stateM_bind. by rewrite Hrun.
Qed.

(** ** The calls *)

Lemma plain_copy_to index a (w : W) : plain a -> exists o a' w', copy_to fuel segments index (a, w) = (o, (a', w')) /\ plain a' /\
  match plain_answer index with
  | Ok (bytes, n) => o = Ok n /\ written w' = written w ++ bytes
  | Err e => o = Err e
  | Panic => True
  end.
Proof using Hsearch Hgrant Hlim Hseparate.
  intros Ha. pose proof Ha as (_ & Hms & _). unfold plain_answer. destruct (ms !! index) as [entry|] eqn:Hi.
  - destruct (attached_ok index entry a w Hi Ha) as (o & a' & w' & Hrun & Ha' & Hout). exists o, a', w'. split; [|done].
    assert (Hby : by_index index (a, w) = (Ok entry, (a, w))) by (unfold by_index, get_archive; rewrite bind_gets; cbn [fst]; by rewrite Hms, Hi).
    assert (Hcheck : check_solid_poison index (a, w) = (Ok tt, (a, w))) by (unfold check_solid_poison, get_archive; rewrite bind_gets; cbn [fst]; by rewrite (not_solid_at index entry a Ha Hi)).
    unfold copy_to. rewrite (bind_run _ _ _ _ _ Hby), (bind_run _ _ _ _ _ Hcheck). unfold poison_on_error. rewrite Hrun.
    destruct o; [done | | done]. by rewrite (not_solid_at index entry a' Ha' Hi).
  - exists (Err (MemberIndexOutOfRange (Z.of_nat index) (zlen ms))), a, w. split; [|done].
    unfold copy_to, by_index, get_archive. unfold mbind, stateM_bind, gets, lift. cbn [fst]. by rewrite Hms, Hi.
Qed.
End writer.

(** Skipping touches nothing, and reports what the header declares. *)
Definition plain_skipped (index : nat) : result Z :=
  match ms !! index with
  | Some entry => Ok (default 0 (FileHeader.unpacked_size (file_header entry)))
  | None => Err (MemberIndexOutOfRange (Z.of_nat index) (zlen ms))
  end.
Lemma plain_skip index a : plain a -> skip fuel segments index a = (plain_skipped index, a).
Proof using Hseparate.
  intros Ha. pose proof Ha as (_ & Hms & _). unfold plain_skipped, skip, by_index, get_archive. destruct (ms !! index) as [entry|] eqn:Hi.
  - unfold mbind, stateM_bind, gets, lift. cbn [fst]. rewrite Hms, Hi, (not_solid_at index entry a Ha Hi). reflexivity.
  - unfold mbind, stateM_bind, gets, lift. cbn [fst]. by rewrite Hms, Hi.
Qed.
End plain.

(** ** A caller *)

Section caller.
Context {Rd W : Type} `{SourceLaws Rd} `{SinkLaws W} `{ByteSearchLaws} `{ZeroedAlloc} `{OlderFormats Rd} `{Hashers} (fuel : nat) (segments : MemberEntry -> Rd).

Definition plain_respond (a0 : RarArchive) (r : request) : result (list byte * Z) :=
  match r with
  | CopyTo index => plain_answer segments (limits a0) (verify a0) (members a0) index
  | Skip index => n ← plain_skipped (members a0) index; mret ([], n)
  | Reset => Ok ([], 0)
  end.

(** The answers to some requests, each with a writer of its own, are those the
    members have one by one, whatever came before. *)
Fixpoint each_alone (a0 : RarArchive) (requests : list (request * W)) (a : RarArchive) : Prop :=
  match requests with
  | [] => True
  | (r, w) :: requests =>
    let '(o, (a', w')) := perform fuel segments r (a, w) in
    match plain_respond a0 r with
    | Ok (bytes, n) => o = Ok n /\ written w' = written w ++ bytes
    | Err e => o = Err e
    | Panic => True
    end /\ each_alone a0 requests a'
  end.
End caller.

(** C3: outside solid archives the members are independent although they share
    one decoder: whatever was extracted or skipped before, and however it ended
    (a corrupt member, a checksum mismatch, an input cut short), a request for a
    member answers as if it were the first: it delivers the bytes the member
    decodes to with fresh tables, an empty history and no filters, or fails with
    the same error; for a compressed member the number returned is the size
    declared. *)
Theorem members_are_independent {Rd W} `{SourceLaws Rd} `{SinkLaws W} `{ByteSearchLaws} `{ZeroedAlloc} `{OlderFormats Rd} `{Hashers}
    (fuel : nat) (segments : MemberEntry -> Rd) (a : RarArchive) (requests : list (request * W)) :
  (forall n, alloc_zeroed n = true) -> max_dict_size (limits a) < 2 ^ 63 -> is_solid a = false -> solid_decoder a = None ->
  Forall (separate fuel segments (limits a)) (members a) -> each_alone fuel segments a requests a.
Proof.
  intros Hgrant Hlim Hsolid Hopen Hseparate.
  cut (forall requests b, plain (limits a) (verify a) (members a) b -> each_alone fuel segments a requests b).
  { intros Hall. apply Hall. unfold plain. by rewrite Hopen. }
  clear requests Hopen. induction requests as [|[r w] requests IH]; intros b Hb; [done|]. cbn [each_alone].
  destruct r as [index|index|]; cbn [perform plain_respond].
  - destruct (plain_copy_to fuel segments (limits a) (verify a) (members a) Hgrant Hlim Hseparate index b w Hb) as (o & b' & w' & -> & Hb' & Hout).
    split; [exact Hout | by apply IH].
  - unfold on_fst. cbn [fst snd]. rewrite (plain_skip fuel segments (limits a) (verify a) (members a) Hseparate index b Hb).
    split; [|by apply IH]. destruct (plain_skipped _ _) as [n|e|]; cbn; [|done..]. by rewrite app_nil_r.
  - split; [by rewrite app_nil_r|]. apply IH. exact (plain_reset (limits a) (verify a) (members a) b Hb).
Qed.

(** The members of the solid sample, each on its own; the third goes on with
    tables it does not have, the fourth has a checksum that is wrong. *)
Definition lone_member (name : Z) (method : CompressionMethod.t) (size : option Z) (crc : option Z) : MemberEntry :=
  mk_entry (FileHeader.mk [name] None size 0 None None None crc None (CompressionInfo.mk RarTypes.Rar5 0 false method 0x20000) HostOs.Unix false 0 0 false false 0 false None None) None None.
Definition lone_members : list MemberEntry :=
  [lone_member 1 CompressionMethod.Normal (Some 13) (Some 13); lone_member 2 CompressionMethod.Store (Some 5) None;
   lone_member 3 CompressionMethod.Normal (Some 6) None; lone_member 1 CompressionMethod.Normal (Some 13) (Some 0)].
Definition lone_archive : RarArchive := mk_archive false lone_members None 0 None (mk_limits 0x1000000 0x1000000 0x10000000) true.
Definition lone_answer (index : nat) : result (list byte * Z) := plain_answer sample_segments (limits lone_archive) true lone_members index.

Lemma members_are_independent_witness :
  lone_answer 0 = Ok (sample_output, 13) /\ lone_answer 1 = Ok ([x68; x65; x6c; x6c; x6f], 5) /\
  lone_answer 2 = Err CorruptArchive /\ lone_answer 3 = Err (DataCrcMismatch [1] 0 13) /\
  each_alone (W := list byte) 400 sample_segments lone_archive [(CopyTo 2, []); (CopyTo 0, []); (CopyTo 3, []); (Skip 0, []); (CopyTo 0, []); (CopyTo 1, [])] lone_archive.
Proof.
  split; [vm_compute; reflexivity|]. split; [vm_compute; reflexivity|]. split; [vm_compute; reflexivity|]. split; [vm_compute; reflexivity|].
  apply (@members_are_independent (list byte) (list byte) threes threes_ok collect collect_ok scanning scanning_laws grant_all no_older toy_hashers 400 sample_segments lone_archive).
  - reflexivity.
  - reflexivity.
  - reflexivity.
  - reflexivity.
  - repeat constructor; vm_compute; discriminate || reflexivity || (intros [=]) || idtac.
Defined.
